(* ===== verification/_CoqProject ===== *)
-Q . S2P
Prelude.v
Bitmap.v
KList.v
CString.v
CStdlib.v
Stdio.v
StdioSpec.v
KListSort.v
KListOps.v
KHash.v
FixedPoint.v
Arith64.v
Vaddr.v
Segments.v
Palloc.v
Malloc.v
MallocSpec.v
Pagedir.v
Paging.v
AddressSpace.v
Cache.v
SharedLock.v
Inode.v
InodeLayout.v
InodeSpec.v
InodeGrow.v
InodeFile.v
InodeDemo.v
Directory.v
DirectorySpec.v
Ustar.v
Fsutil.v
Intq.v
Serial.v
Kbd.v
Vga.v
Console.v
Random.v
Partition.v
Ide.v
Init.v
Vm.v
VmSpec.v
VmPageIn.v
VmDemo.v
Args.v
Load.v
Syscall.v
Mmap.v
SyscallSpec.v
SyscallFd.v
SyscallDemo.v
UserLib.v
Process.v
ProcessInv.v
ProcessSpec.v
Thread.v
Interrupt.v
Clock.v
Synch.v
SchedInv.v
Machine.v
SyncInv.v
PieceInv.v
MachineInv.v
MachineSpec.v
Scheduling.v
Donation.v
Mlfqs.v
