(* ===== verification/Prelude.v ===== *)
(** * A verification of the Pintos kernel

    The program is the Pintos teaching kernel under src/pintos/src: threads and
    synchronisation, memory management, a file system behind a buffer cache,
    user processes with virtual memory and system calls, and the C library the
    kernel is linked with.  This library models its code in Rocq, function by
    function, and proves what the functions promise each other.

    ** The parts and how they meet

    - _Libraries._  bitmap.c, list.c, hash.c (lib/kernel), string.c, stdlib.c,
      stdio.c, arithmetic.c (lib).  Everything else is built from them.
    - _Memory._  palloc.c hands out pages, which it tracks in a bitmap; malloc.c
      cuts them into blocks; pagedir.c builds page tables in them.
    - _Threads._  thread.c schedules, synch.c blocks and wakes, with priority
      donation or feedback queues in fixed-point arithmetic.
    - _Files._  block.c reads and writes sectors, cache.c keeps them in memory,
      inode.c makes files of them with the help of free-map.c, directory.c names
      files, filesys.c walks paths, file.c keeps positions.
    - _Processes._  process.c loads programs, passes arguments, and lets parents
      wait for children; vm/ brings pages in from files and swap and evicts
      them; syscall.c serves programs, which call it through lib/user.
    - _Machine._  init.c reads the command line and builds the first page
      tables; gdt.c, tss.c and interrupt.c set the tables of the processor up and
      dispatch interrupts; ide.c and partition.c are the disks block.c reads;
      serial.c, kbd.c and vga.c are the console, with intq.c between handlers and
      threads; timer.c, pit.c and rtc.c keep time.

    ** Conventions

    A machine integer is a [Z]; wrap-around is written out with [u32], [s32] and
    so on below.  C code is a function into [outcome]: it returns ([Done]), stops
    the kernel ([Panic]: ASSERT, PANIC, NOT_REACHED), does something C leaves
    undefined ([Undef]: a null or dangling pointer, an index outside an array),
    or exceeds the bound a loop was given ([NoFuel]).  Code with a state is in
    the monad [M].  [runs m s Q] says that the code returns and that the result
    satisfies [Q]: a theorem of that form includes the absence of panics and of
    undefined behaviour, and termination.

    Hardware is what the drivers see of it: a port that is read gives an arbitrary
    answer, or that of a device whose documented protocol is written out (the disks
    of Ide, the controllers of Interrupt); writes to ports are kept in a log.

    Code outside src/ is a parameter: the comparison and hash functions of
    clients, with what the headers ask of them as classes ([Comparison],
    [Hashable]), and whether [malloc] succeeds, as a function of the size.
    Interfaces between components are classes as well: [PageAllocator] is what
    palloc.c promises malloc.c and pagedir.c, [BlockStore] and [BlockStoreLaws]
    what cache.c promises inode.c, [FileSystem] what filesys.c promises fsutil.c;
    clients are verified against the class, and instances show that the code keeps it.

    ** Files

    - Prelude: machine integers, the monad, arrays ([rd], [wr], [l@[i]]), the
      tactics [run] (symbolic execution), [bool_cases] and [div_lia], and the
      lemmas shared by all.
    - Bitmap: bitmap.c, as the record of a count and an array of words.
    - KList, KListSort, KListOps: list.c on a store of linked nodes; merge sort;
      the remaining operations and the refinement to sequences.
    - CString: string.c on an array of bytes.  CStdlib: stdlib.c (atoi, heap
      sort, binary search).  Stdio, StdioSpec: stdio.c with typed arguments.
    - KHash: hash.c.  FixedPoint: fixed-point.h.  Arith64: arithmetic.c.
    - Vaddr: vaddr.h and pte.h.  Palloc: palloc.c.  Malloc, MallocSpec: malloc.c.
      Pagedir: pagedir.c with page tables in memory and the TLB.  Paging: paging_init
      of init.c.  AddressSpace: process_activate, and the page directory of a
      process from [load] to [process_exit], as a step relation with Pagedir and
      Segments as its parts.
    - Segments: gdt.c and tss.c.  Interrupt: the vectors, gates and controllers of
      interrupt.c, exception_init, syscall_init and kill.  Init: the options, actions
      and block devices of init.c.  Clock: rtc.c, pit.c, speaker.c and the delays of timer.c.
    - Intq: intq.c as a monitor of threads and interrupt handlers.  Serial: serial.c and
      input.c.  Kbd: kbd.c.  Vga: vga.c.  Console: the lock of lib/kernel/console.c, and
      lock_filesys of syscall.c, which nests in the same way.  Random: random.c.
    - Ide: ide.c, down to the registers of the channels.  Partition: the list of devices of
      block.c, and partition.c.  Ustar: ustar.c.  Fsutil: fsutil.c.
    - Cache: block.c and cache.c.  SharedLock: its readers-writer lock, under
      arbitrary interleavings.
    - Inode: inode.c and free-map.c.  InodeLayout, InodeSpec, InodeGrow,
      InodeFile: what is on disk, reading and writing, growing, and files as byte
      sequences.  InodeDemo: a concrete file system.
    - Directory, DirectorySpec: directory.c, file.c, filesys.c and inode_open_path;
      directories as finite maps.
    - Vm: page.c, frame.c, swap.c of vm/, page_fault and is_stack of
      exception.c.  VmSpec, VmPageIn: the invariant, eviction and [page_in].
      VmDemo: a machine with one frame.
    - Args, Load: process_execute's name, argument_passing, and the ELF loader of
      process.c.
    - Syscall: syscall.c on user memory, the table of descriptors and the file
      system.  Mmap: sys_mmap and sys_munmap on the state of Vm.  SyscallSpec,
      SyscallFd: theorems.  SyscallDemo: a concrete process.  UserLib: the functions of
      lib/user/syscall.c that make the calls.
    - Process, ProcessInv, ProcessSpec: the records that process_execute,
      process_wait and process_exit share, as a step relation.
    - Thread, Synch: thread.c and synch.c, as pieces between the points where
      another thread can run.  Machine: the step relation of the pieces; its header says which
      loops that run with interrupts on are taken as one piece.
      SchedInv, SyncInv, PieceInv, MachineInv, MachineSpec: the invariant of all
      reachable states.  Scheduling, Donation, Mlfqs: which thread runs next,
      priority donation, feedback queues.

    ** What the theorems show

    - Refinements: lists are sequences, hash tables are sets, the cache is an
      array of sectors, directories are maps, a mapped file is its bytes; a disk behind
      its registers, and a partition of it at any depth, is an array of sectors; each
      function of the user library asks the kernel for what its name says.
    - Functional correctness: sorting, first-fit allocation of bits and pages,
      [malloc] and [free], page tables, reading and writing of files at the level
      of inodes and at the level of system calls with buffers that span pages,
      the stack a program starts with, the segments it is loaded from; the kernel's map of
      physical memory, its descriptor tables and interrupt gates, the partitions that
      are registered, what the display shows; archives are extracted as they were
      appended.
    - Invariants and safety over interleavings: mutual exclusion, consistent run
      queues, no lost wake-up of semaphores, the readers-writer lock, records of
      processes that are alive when they are used, page directories that are allocated while
      the processor uses them, bytes from devices that arrive once and in order, messages that
      are not mixed on the console; every page keeps its contents through eviction.
    - Termination and liveness: donation ends at its least fixed point, waiters of
      the shared lock make progress, a child wakes the parent that waits for it.
    - Bounds: buffers of [snprintf], [strlcpy] and integer conversions, the load
      average, load factors, fixed-point accuracy.
    - Examples at the end of the files, and the Demo files, run the code on
      concrete states; some show where it does not do what it means to: an
      [access_ok] that misses holes and wraps around, a lost wake-up in
      process_wait, records used after they were freed, pages lost when swap is
      full, writes lost in holes of files, donation that follows the null holder of a lock
      that is being released, a read at the end of a file that fails the assertion of
      [page_unpin], interrupts of a disk nobody waits for, archives
      without the mark of their end, and others.

    ** Conditions of the theorems

    - Files: the theorems on [inode_read_at], [inode_write_at], [sys_read] and [sys_write] are
      about files without holes ([file_is] says so); a write needs the sectors it uses ([room]),
      which includes that the file of the free map holds the free map, and leaves it so.  In a file
      with holes a read allocates sectors and a write can be lost.
    - [sys_read] needs the pages of its buffer that it does not fill to be in the supplemental page
      table ([rest_known]).
    - Donation: [reset_donate_priority] needs every lock of lock_list to be held.  That is not so
      in all reachable states ([reset_follows_null_holder] of MachineSpec).
    - Loading a segment needs its bytes to be in the file and its pages not to be in use.
    - [wait_returns_status] and [records_are_alive] are about processes that exit after their
      children.
    - paging_init stops the kernel if the allocator refuses a page, and only then ([short]).

    ** Bounds on loops

    A loop that is not structural is given a number of turns, always computed from
    its arguments and shown by the [runs] theorems to be enough: the length of a
    list plus one, the size of a buffer plus one, the number of descriptors (128),
    three passes of the clock in frame_victim (one to finish the round, one that
    clears accessed bits, one that finds a frame).  Saving the free map recurses
    to a depth, for which 1 is enough because its file does not grow.  Where the
    code really loops for ever (a full table of descriptors, a thread without
    frames to evict) the model is [NoFuel] for every bound.

    ** Not modelled, and why

    - The boot loader, start.S, switch.S and intr-stubs.S: assembly; the i386 itself
      is not modelled beyond page tables, descriptors, the interrupt flag and [divl].
      The interrupt frame start_process fills for intr_exit belongs to it.
    - The order of the calls in main, bss_init, the text of the help message, the power-off
      ports of shutdown.c, the messages of panics, and statistics: they have no state of
      their own that other code relies on.  bitmap_dump, fsutil_ls, dumpchildlist and similar
      printing to the console.
    - Concurrency inside the file system and virtual memory: those calls are run one at
      a time, as filesys_lock, frame_lock and swap_lock make them.  In AddressSpace
      [pagedir_create], [pagedir_destroy] and [install_page] are steps as a whole; what
      they work on belongs to one thread.
    - too_many_loops and busy_wait of timer.c, whose result is a matter of the speed
      of the machine.
    - src/kvstore, a separate Java program; host utilities; examples and tests. *)

From Stdlib Require Export ZArith Lia.
From stdpp Require Export base list gmap numbers tactics.
#[global] Open Scope Z_scope.

(** ** Machine integers

    Pintos is compiled for the i386: [int], [unsigned], [long], [size_t] and
    pointers are 32 bits wide, [long long] is 64 bits wide.  A machine integer
    is a [Z] in the range of its type; the conversions below are the
    wrap-around of the C type they are named after. *)

Definition u8 (x : Z) : Z := x `mod` 2 ^ 8.
Definition u16 (x : Z) : Z := x `mod` 2 ^ 16.
Definition u32 (x : Z) : Z := x `mod` 2 ^ 32.
Definition u64 (x : Z) : Z := x `mod` 2 ^ 64.
Definition s32 (x : Z) : Z := (x + 2 ^ 31) `mod` 2 ^ 32 - 2 ^ 31.
Definition s64 (x : Z) : Z := (x + 2 ^ 63) `mod` 2 ^ 64 - 2 ^ 63.

Abbreviation SIZE_MAX := (2 ^ 32 - 1).

Definition is_u8 (x : Z) : Prop := 0 ≤ x < 2 ^ 8.
Definition is_u32 (x : Z) : Prop := 0 ≤ x < 2 ^ 32.
Definition is_u64 (x : Z) : Prop := 0 ≤ x < 2 ^ 64.

(** ** Outcomes

    What a C call can do: return a value, stop the kernel ([ASSERT], [PANIC]
    and [NOT_REACHED] all end in [debug_panic]), do something C leaves
    undefined (follow a null or dangling pointer, index outside an array), or,
    for a loop that is given a bound on its number of iterations, exceed that
    bound. *)

Inductive outcome (A : Type) : Type :=
  | Done (a : A)
  | Panic
  | Undef
  | NoFuel.
Arguments Done {A} a.
Arguments Panic {A}.
Arguments Undef {A}.
Arguments NoFuel {A}.

#[export] Instance outcome_ret : MRet outcome := @Done.
#[export] Instance outcome_bind : MBind outcome := λ A B f m,
  match m with
  | Done a => f a
  | Panic => Panic
  | Undef => Undef
  | NoFuel => NoFuel
  end.

(** [ASSERT (b)]. *)
Definition ASSERT (b : bool) : outcome unit := if b then Done tt else Panic.

(** A value that must exist, a read through a pointer for instance. *)
Definition defined {A} (o : option A) : outcome A :=
  match o with Some a => Done a | None => Undef end.

(** ** Stateful code

    [M S A] is code over the state [S] that yields an [A]. *)

Definition M (S A : Type) : Type := S → outcome (A * S).

#[export] Instance M_ret {S} : MRet (M S) := λ A a s, Done (a, s).
#[export] Instance M_bind {S} : MBind (M S) := λ A B f m s,
  match m s with
  | Done (a, s') => f a s'
  | Panic => Panic
  | Undef => Undef
  | NoFuel => NoFuel
  end.

Section state.
Context {S : Type}.
Definition get : M S S := λ s, Done (s, s).
Definition put (s : S) : M S unit := λ _, Done (tt, s).
Definition gets {A} (f : S → A) : M S A := λ s, Done (f s, s).
Definition modify (f : S → S) : M S unit := λ s, Done (tt, f s).
Definition lift {A} (o : outcome A) : M S A := λ s, a ← o; Done (a, s).
Definition assert (b : bool) : M S unit := lift (ASSERT b).
Definition out_of_fuel {A} : M S A := λ _, NoFuel.
Definition undefined {A} : M S A := λ _, Undef.
End state.

(** [runs m s Q]: started in [s], the code [m] returns (it neither panics, nor
    does anything undefined, nor exceeds a loop bound), and what it returns
    satisfies [Q]. *)
Definition runs {S A} (m : M S A) (s : S) (Q : A → S → Prop) : Prop :=
  match m s with Done (a, s') => Q a s' | _ => False end.

(** [rets o Q]: the same for stateless code. *)
Definition rets {A} (o : outcome A) (Q : A → Prop) : Prop :=
  match o with Done a => Q a | _ => False end.

(** ** Arrays indexed by machine integers *)

Section array.
Context {A : Type}.
Implicit Types (l : list A) (i j : Z) (x : A).

Definition zlookup l i : option A := if i <? 0 then None else l !! Z.to_nat i.
Definition zlen l : Z := Z.of_nat (length l).
Definition zinsert l i x : list A := if i <? 0 then l else <[Z.to_nat i := x]> l.

(** [l[i]] and [l[i] = x] of C: undefined outside the array. *)
Definition rd l i : outcome A := defined (zlookup l i).
Definition wr l i x : outcome (list A) :=
  if (0 <=? i) && (i <? zlen l) then Done (zinsert l i x) else Undef.
End array.

Declare Scope pintos_scope.
Delimit Scope pintos_scope with pintos.
Notation "l @[ i ]" := (zlookup l i) (at level 1, format "l @[ i ]") : pintos_scope.
Notation "l @[ i := x ]" := (zinsert l i x) (at level 1, format "l @[ i  :=  x ]") : pintos_scope.
#[global] Open Scope pintos_scope.

(** ** Automation *)

Create HintDb pintos.
#[export] Hint Unfold is_u8 is_u32 is_u64 : pintos.

(** Case analysis on the boolean tests of the code, turned into arithmetic. *)
Ltac bool_step :=
  match goal with
  | |- context [Z.ltb ?a ?b] => destruct (Z.ltb_spec a b)
  | |- context [Z.leb ?a ?b] => destruct (Z.leb_spec a b)
  | |- context [Z.eqb ?a ?b] => destruct (Z.eqb_spec a b)
  | H : context [Z.ltb ?a ?b] |- _ => destruct (Z.ltb_spec a b)
  | H : context [Z.leb ?a ?b] |- _ => destruct (Z.leb_spec a b)
  | H : context [Z.eqb ?a ?b] |- _ => destruct (Z.eqb_spec a b)
  end.
Ltac bool_cases := repeat (bool_step; simpl in *; try lia).

Ltac div_lia := Z.to_euclidean_division_equations; lia.

(** ** Running code *)

Section runs.
Context {S : Type}.

Lemma runs_bind {A B} (m : M S A) (f : A → M S B) s Q :
  runs m s (λ a s', runs (f a) s' Q) → runs (m ≫= f) s Q.
Proof. unfold runs, mbind, M_bind. by destruct (m s) as [[a s']| | |]. Qed.

Lemma runs_bind_inv {A B} (m : M S A) (f : A → M S B) s Q :
  runs (m ≫= f) s Q → runs m s (λ a s', runs (f a) s' Q).
Proof. unfold runs, mbind, M_bind. by destruct (m s) as [[a s']| | |]. Qed.

Lemma runs_ret {A} (a : A) (s : S) (Q : A → S → Prop) :
  Q a s → runs (mret a) s Q.
Proof. done. Qed.

Lemma runs_mono {A} (m : M S A) s (Q Q' : A → S → Prop) :
  runs m s Q → (∀ a s', Q a s' → Q' a s') → runs m s Q'.
Proof. unfold runs. destruct (m s) as [[a s']| | |]; naive_solver. Qed.

Lemma runs_done {A} (m : M S A) s (Q : A → S → Prop) :
  runs m s Q → ∃ a s', m s = Done (a, s') ∧ Q a s'.
Proof. unfold runs. destruct (m s) as [[a s']| | |]; naive_solver. Qed.

Lemma runs_intro {A} (m : M S A) s a s' (Q : A → S → Prop) :
  m s = Done (a, s') → Q a s' → runs m s Q.
Proof. unfold runs. by intros ->. Qed.

Lemma runs_lift {A} (o : outcome A) (s : S) (Q : A → S → Prop) :
  rets o (λ a, Q a s) → runs (lift o) s Q.
Proof. by destruct o. Qed.

Lemma runs_assert (b : bool) (s : S) (Q : unit → S → Prop) :
  b = true → Q tt s → runs (assert b) s Q.
Proof. by intros ->. Qed.

Lemma runs_get (s : S) (Q : S → S → Prop) : Q s s → runs get s Q.
Proof. done. Qed.
Lemma runs_put (s s' : S) (Q : unit → S → Prop) : Q tt s' → runs (put s') s Q.
Proof. done. Qed.
Lemma runs_gets {A} (f : S → A) (s : S) (Q : A → S → Prop) : Q (f s) s → runs (gets f) s Q.
Proof. done. Qed.
Lemma runs_modify (f : S → S) (s : S) (Q : unit → S → Prop) : Q tt (f s) → runs (modify f) s Q.
Proof. done. Qed.
End runs.

Lemma rets_bind {A B} (m : outcome A) (f : A → outcome B) Q :
  rets m (λ a, rets (f a) Q) → rets (m ≫= f) Q.
Proof. by destruct m. Qed.
Lemma rets_mono {A} (m : outcome A) (Q Q' : A → Prop) :
  rets m Q → (∀ a, Q a → Q' a) → rets m Q'.
Proof. destruct m; naive_solver. Qed.
Lemma rets_done {A} (m : outcome A) (Q : A → Prop) : rets m Q → ∃ a, m = Done a ∧ Q a.
Proof. destruct m; naive_solver. Qed.
Lemma rets_ASSERT (b : bool) (Q : unit → Prop) : b = true → Q tt → rets (ASSERT b) Q.
Proof. by intros ->. Qed.

(** One step of symbolic execution: splits binds, returns and asserts. *)
Ltac run_step :=
  match goal with
  | |- runs (_ ≫= _) _ _ => apply runs_bind
  | |- runs (mret _) _ _ => apply runs_ret
  | |- runs get _ _ => apply runs_get
  | |- runs (put _) _ _ => apply runs_put
  | |- runs (gets _) _ _ => apply runs_gets
  | |- runs (modify _) _ _ => apply runs_modify
  | |- runs (lift _) _ _ => apply runs_lift
  | |- rets (_ ≫= _) _ => apply rets_bind
  | |- rets (Done _) _ => red
  end.
Ltac run := repeat run_step.

(** ** Lemmas on arrays *)

Section array_lemmas.
Context {A : Type}.
Implicit Types (l : list A) (i j : Z) (x : A).

Lemma zlookup_Some l i x :
  l@[i] = Some x ↔ 0 ≤ i ∧ l !! Z.to_nat i = Some x.
Proof. unfold zlookup. bool_cases; split; try done; intros []; done || lia. Qed.
Lemma zlookup_bound l i x : l@[i] = Some x → 0 ≤ i < zlen l.
Proof.
  rewrite zlookup_Some. intros [? ?%lookup_lt_Some]. unfold zlen. lia.
Qed.
Lemma zlookup_lt l i : 0 ≤ i < zlen l → ∃ x, l@[i] = Some x.
Proof.
  unfold zlen. intros Hi. destruct (lookup_lt_is_Some_2 l (Z.to_nat i)) as [x Hx]; [lia|].
  exists x. apply zlookup_Some. split; [lia|done].
Qed.
Lemma zlen_nonneg l : 0 ≤ zlen l.
Proof. unfold zlen. lia. Qed.
Lemma zlen_insert l i x : zlen (l@[i := x]) = zlen l.
Proof. unfold zlen, zinsert. bool_cases; by rewrite ?length_insert. Qed.
Lemma zlookup_insert_eq l i x : 0 ≤ i < zlen l → (l@[i := x])@[i] = Some x.
Proof.
  unfold zlen, zlookup, zinsert. intros. bool_cases.
  apply list_lookup_insert_eq. lia.
Qed.
Lemma zlookup_insert_ne l i j x : i ≠ j → (l@[i := x])@[j] = l@[j].
Proof.
  intros. unfold zlookup, zinsert. bool_cases; try done.
  apply list_lookup_insert_ne. lia.
Qed.
Lemma zlookup_insert l i j x :
  (l@[i := x])@[j] = if (i =? j) && (0 <=? i) && (i <? zlen l) then Some x else l@[j].
Proof.
  destruct (Z.eqb_spec i j) as [->|]; simpl; [|by apply zlookup_insert_ne].
  bool_cases; try (by apply zlookup_insert_eq); unfold zlookup, zinsert; bool_cases; try done.
  rewrite list_insert_ge; [done|]. unfold zlen in *. lia.
Qed.
Lemma rd_Some l i x : l@[i] = Some x → rd l i = Done x.
Proof. unfold rd. by intros ->. Qed.
Lemma wr_in l i x : 0 ≤ i < zlen l → wr l i x = Done (l@[i := x]).
Proof. intros. unfold wr. by bool_cases. Qed.
Lemma array_ext l l' : zlen l = zlen l' → (∀ i, 0 ≤ i < zlen l → l@[i] = l'@[i]) → l = l'.
Proof.
  unfold zlen. intros Hl H. apply list_eq_same_length with (length l); [lia..|].
  intros i x y Hi Hx Hy. specialize (H (Z.of_nat i) ltac:(lia)).
  unfold zlookup in H. replace (Z.of_nat i <? 0) with false in H by (bool_cases; done).
  rewrite !Nat2Z.id in H. congruence.
Qed.
Lemma zlookup_app l1 l2 i :
  (l1 ++ l2)@[i] = if i <? zlen l1 then l1@[i] else l2@[i - zlen l1].
Proof.
  unfold zlookup, zlen. bool_cases; try done; [by rewrite lookup_app_l by lia|].
  rewrite lookup_app_r by lia. f_equal. lia.
Qed.
Lemma zlen_app l1 l2 : zlen (l1 ++ l2) = zlen l1 + zlen l2.
Proof. unfold zlen. rewrite length_app. lia. Qed.
Lemma zlen_cons x l : zlen (x :: l) = 1 + zlen l.
Proof. unfold zlen. simpl. lia. Qed.
Lemma zlen_nil : zlen (@nil A) = 0.
Proof. done. Qed.
End array_lemmas.

Lemma zinsert_insert {A} (l : list A) i x y : (l@[i := x])@[i := y] = l@[i := y].
Proof. unfold zinsert. bool_cases; [done|]. apply list_insert_insert_eq. Qed.
Lemma zinsert_id {A} (l : list A) i x : l@[i] = Some x → l@[i := x] = l.
Proof. intros [? H]%zlookup_Some. unfold zinsert. bool_cases. by apply list_insert_id. Qed.
Lemma zlookup_take {A} (l : list A) n j : (take (Z.to_nat n) l)@[j] = if j <? n then l@[j] else None.
Proof.
  unfold zlookup. destruct (Z.ltb_spec j 0); [by destruct (j <? n)|]. destruct (Z.ltb_spec j n).
  - apply lookup_take_lt. lia.
  - apply lookup_take_ge. lia.
Qed.
Lemma zlookup_drop {A} (l : list A) n j : 0 ≤ n → 0 ≤ j → (drop (Z.to_nat n) l)@[j] = l@[n + j].
Proof.
  intros Hn Hj. unfold zlookup. destruct (Z.ltb_spec j 0), (Z.ltb_spec (n + j) 0); try lia. rewrite lookup_drop. f_equal. lia.
Qed.
Lemma zlen_take {A} (l : list A) n : 0 ≤ n → zlen (take (Z.to_nat n) l) = n `min` zlen l.
Proof. intros. unfold zlen. rewrite length_take. lia. Qed.
Lemma zlen_drop {A} (l : list A) n : 0 ≤ n ≤ zlen l → zlen (drop (Z.to_nat n) l) = zlen l - n.
Proof. intros. unfold zlen in *. rewrite length_drop. lia. Qed.

Create Rewrite HintDb zlen.
#[export] Hint Rewrite @zlen_insert @zlen_app @zlen_cons @zlen_nil : zlen.
#[export] Hint Resolve zlen_nonneg zlookup_bound : pintos.

(** ** Bytes of integers, least significant first (the i386 is little-endian) *)

Fixpoint le_bytes (n : nat) (z : Z) : list Z :=
  match n with
  | O => []
  | S n => z `mod` 256 :: le_bytes n (z `div` 256)
  end.

Fixpoint le_value (l : list Z) : Z :=
  match l with
  | [] => 0
  | b :: l => b + 256 * le_value l
  end.

(** The bytes of an array of 32-bit words, and back. *)
Definition words_to_bytes (ws : list Z) : list Z := ws ≫= le_bytes 4.

Fixpoint bytes_to_words (l : list Z) : list Z :=
  match l with
  | a :: b :: c :: d :: l => le_value [a; b; c; d] :: bytes_to_words l
  | _ => []
  end.

Lemma length_le_bytes n z : length (le_bytes n z) = n.
Proof. revert z. induction n; intros; simpl; auto. Qed.

Lemma le_value_bytes n z : le_value (le_bytes n z) = z `mod` 256 ^ Z.of_nat n.
Proof.
  revert z. induction n as [|n IH]; intros z; cbn [le_bytes le_value].
  - by rewrite Z.mod_1_r.
  - rewrite IH. replace (Z.of_nat (S n)) with (1 + Z.of_nat n) by lia.
    rewrite Z.pow_add_r, Z.pow_1_r by lia. rewrite Z.rem_mul_r by lia. lia.
Qed.

Lemma le_bytes_value l :
  Forall is_u8 l → le_bytes (length l) (le_value l) = l.
Proof.
  induction 1 as [|x l [? ?] ? IH]; cbn [le_bytes le_value length]; [done|].
  rewrite Z.mul_comm, Z.mod_add, Z.div_add, Z.div_small, Z.add_0_l, IH, Z.mod_small by lia. done.
Qed.

Lemma le_bytes_u8 n z : Forall is_u8 (le_bytes n z).
Proof.
  revert z. induction n; intros z; cbn; constructor; auto. unfold is_u8.
  apply Z.mod_pos_bound. lia.
Qed.

Lemma le_value_range l : Forall is_u8 l → 0 ≤ le_value l < 256 ^ Z.of_nat (length l).
Proof.
  induction 1 as [|x l [? ?] ? IH]; cbn [le_value length]; [lia|].
  replace (Z.of_nat (S (length l))) with (1 + Z.of_nat (length l)) by lia.
  rewrite Z.pow_add_r, Z.pow_1_r by lia. lia.
Qed.

Lemma words_to_bytes_cons w ws : words_to_bytes (w :: ws) = le_bytes 4 w ++ words_to_bytes ws.
Proof. done. Qed.

Lemma length_words_to_bytes ws : length (words_to_bytes ws) = (4 * length ws)%nat.
Proof.
  induction ws as [|w ws IH]; [done|].
  rewrite words_to_bytes_cons, length_app, IH, length_le_bytes. simpl. lia.
Qed.

Lemma bytes_to_words_to_bytes ws : Forall is_u32 ws → bytes_to_words (words_to_bytes ws) = ws.
Proof.
  induction 1 as [|w ws [? ?] ? IH]; [done|]. rewrite words_to_bytes_cons.
  change (le_bytes 4 w ++ words_to_bytes ws) with
    (w `mod` 256 :: (w `div` 256) `mod` 256 :: ((w `div` 256) `div` 256) `mod` 256
     :: (((w `div` 256) `div` 256) `div` 256) `mod` 256 :: words_to_bytes ws).
  cbn [bytes_to_words]. rewrite IH. f_equal.
  transitivity (w `mod` 256 ^ Z.of_nat 4); [apply (le_value_bytes 4)|by apply Z.mod_small].
Qed.

Lemma words_to_bytes_app ws1 ws2 :
  words_to_bytes (ws1 ++ ws2) = words_to_bytes ws1 ++ words_to_bytes ws2.
Proof. apply bind_app. Qed.

(** ** Lemmas on 32-bit integers *)

Lemma u32_of_bits x : 0 ≤ x → (∀ k, 32 ≤ k → Z.testbit x k = false) → is_u32 x.
Proof.
  intros Hx H. split; [done|]. destruct (decide (x = 0)) as [->|]; [done|].
  apply Z.log2_lt_pow2; [lia|]. destruct (decide (Z.log2 x < 32)); [done|].
  exfalso. assert (Z.testbit x (Z.log2 x) = true) by (apply Z.bit_log2; lia).
  rewrite H in *; [done|lia].
Qed.

Lemma u32_bits x k : is_u32 x → 32 ≤ k → Z.testbit x k = false.
Proof.
  intros [? ?] ?. destruct (decide (x = 0)) as [->|]; [apply Z.bits_0|].
  apply Z.bits_above_log2; [done|]. apply Z.lt_le_trans with 32; [|done].
  apply Z.log2_lt_pow2; lia.
Qed.

Lemma u32_testbit x k : 0 ≤ k → Z.testbit (u32 x) k = (k <? 32) && Z.testbit x k.
Proof.
  intros. unfold u32. bool_cases.
  - by rewrite Z.mod_pow2_bits_low by lia.
  - by rewrite Z.mod_pow2_bits_high by lia.
Qed.

Lemma s32_small x : - 2 ^ 31 ≤ x < 2 ^ 31 → s32 x = x.
Proof. intros. unfold s32. rewrite Z.mod_small; lia. Qed.
Lemma u32_small x : 0 ≤ x < 2 ^ 32 → u32 x = x.
Proof. intros. by apply Z.mod_small. Qed.


(** ** Filtered lists *)

Lemma filter_ext_in {A} (P Q : A → Prop) `{!∀ x, Decision (P x), !∀ x, Decision (Q x)} (l : list A) :
  (∀ x, x ∈ l → P x ↔ Q x) → filter P l = filter Q l.
Proof.
  induction l as [|x l IH]; intros HP; [done|]. rewrite !filter_cons, IH by (intros; apply HP; by right).
  destruct (HP x) as [? ?]; [by left|]. destruct (decide (P x)), (decide (Q x)); tauto.
Qed.
Lemma filter_all {A} (P : A → Prop) `{!∀ x, Decision (P x)} (l : list A) : (∀ x, x ∈ l → P x) → filter P l = l.
Proof.
  induction l as [|x l IH]; intros HP; [done|]. rewrite filter_cons_True by (apply HP; by left).
  rewrite IH; [done|]. intros. apply HP. by right.
Qed.
Lemma filter_none {A} (P : A → Prop) `{!∀ x, Decision (P x)} (l : list A) : (∀ x, x ∈ l → ¬ P x) → filter P l = [].
Proof.
  induction l as [|x l IH]; intros HP; [done|]. rewrite filter_cons_False by (apply HP; by left).
  apply IH. intros. apply HP. by right.
Qed.
