(* ===== verification/Bitmap.v ===== *)
(** * Bitmaps (src/pintos/src/lib/kernel/bitmap.c)

    [struct bitmap] is the record [bitmap]: the number of bits and the array of
    32-bit elements that holds them.  Every operation of the file is a
    definition here, with its [ASSERT]s as panics and its array accesses
    bounds-checked by [rd] and [wr].  The theorems give each operation's
    meaning on single bits, as [bitmap_test] observes them. *)

From S2P Require Import Prelude.

Definition CHAR_BIT : Z := 8.
Definition ELEM_BITS : Z := 4 * CHAR_BIT.
Definition BITMAP_ERROR : Z := SIZE_MAX.

(** [DIV_ROUND_UP] of lib/round.h, in [size_t] arithmetic. *)
Definition DIV_ROUND_UP (x step : Z) : Z := u32 (x + step - 1) `div` step.

Record bitmap : Type := Bitmap {
  bit_cnt : Z;
  bits : list Z;
}.

Definition elem_idx (bit_idx : Z) : Z := bit_idx `div` ELEM_BITS.
Definition bit_mask (bit_idx : Z) : Z := u32 (Z.shiftl 1 (bit_idx `mod` ELEM_BITS)).
Definition elem_cnt (bit_cnt : Z) : Z := DIV_ROUND_UP bit_cnt ELEM_BITS.
Definition byte_cnt (bit_cnt : Z) : Z := u32 (4 * elem_cnt bit_cnt).

Definition last_mask (b : bitmap) : Z :=
  let last_bits := bit_cnt b `mod` ELEM_BITS in
  if negb (last_bits =? 0) then u32 (u32 (Z.shiftl 1 last_bits) - 1) else u32 (-1).

Definition bitmap_size (b : bitmap) : Z := bit_cnt b.

(** [b->bits[idx] = f (b->bits[idx])]. *)
Definition update_elem (b : bitmap) (idx : Z) (f : Z → Z) : outcome bitmap :=
  e ← rd (bits b) idx;
  l ← wr (bits b) idx (f e);
  Done (Bitmap (bit_cnt b) l).

Definition bitmap_mark (b : bitmap) (bit_idx : Z) : outcome bitmap :=
  let idx := elem_idx bit_idx in
  let mask := bit_mask bit_idx in
  update_elem b idx (λ e, Z.lor e mask).

Definition bitmap_reset (b : bitmap) (bit_idx : Z) : outcome bitmap :=
  let idx := elem_idx bit_idx in
  let mask := bit_mask bit_idx in
  update_elem b idx (λ e, Z.land e (u32 (Z.lnot mask))).

Definition bitmap_flip (b : bitmap) (bit_idx : Z) : outcome bitmap :=
  let idx := elem_idx bit_idx in
  let mask := bit_mask bit_idx in
  update_elem b idx (λ e, Z.lxor e mask).

Definition bitmap_set (b : bitmap) (idx : Z) (value : bool) : outcome bitmap :=
  ASSERT (idx <? bit_cnt b);;
  if value then bitmap_mark b idx else bitmap_reset b idx.

Definition bitmap_test (b : bitmap) (idx : Z) : outcome bool :=
  ASSERT (idx <? bit_cnt b);;
  e ← rd (bits b) (elem_idx idx);
  Done (negb (Z.land e (bit_mask idx) =? 0)).

(** [for (i = 0; i < cnt; i++) bitmap_set (b, start + i, value);] with [n]
    iterations left. *)
Fixpoint set_loop (b : bitmap) (start : Z) (value : bool) (n : nat) (i : Z) : outcome bitmap :=
  match n with
  | O => Done b
  | S n =>
      b ← bitmap_set b (u32 (start + i)) value;
      set_loop b start value n (i + 1)
  end.

Definition bitmap_set_multiple (b : bitmap) (start cnt : Z) (value : bool) : outcome bitmap :=
  ASSERT (start <=? bit_cnt b);;
  ASSERT (u32 (start + cnt) <=? bit_cnt b);;
  set_loop b start value (Z.to_nat cnt) 0.

Definition bitmap_set_all (b : bitmap) (value : bool) : outcome bitmap :=
  bitmap_set_multiple b 0 (bitmap_size b) value.

Fixpoint count_loop (b : bitmap) (start : Z) (value : bool) (n : nat) (i value_cnt : Z) : outcome Z :=
  match n with
  | O => Done value_cnt
  | S n =>
      t ← bitmap_test b (u32 (start + i));
      count_loop b start value n (i + 1) (if Bool.eqb t value then u32 (value_cnt + 1) else value_cnt)
  end.

Definition bitmap_count (b : bitmap) (start cnt : Z) (value : bool) : outcome Z :=
  ASSERT (start <=? bit_cnt b);;
  ASSERT (u32 (start + cnt) <=? bit_cnt b);;
  count_loop b start value (Z.to_nat cnt) 0 0.

Fixpoint contains_loop (b : bitmap) (start : Z) (value : bool) (n : nat) (i : Z) : outcome bool :=
  match n with
  | O => Done false
  | S n =>
      t ← bitmap_test b (u32 (start + i));
      if Bool.eqb t value then Done true else contains_loop b start value n (i + 1)
  end.

Definition bitmap_contains (b : bitmap) (start cnt : Z) (value : bool) : outcome bool :=
  ASSERT (start <=? bit_cnt b);;
  ASSERT (u32 (start + cnt) <=? bit_cnt b);;
  contains_loop b start value (Z.to_nat cnt) 0.

Definition bitmap_any (b : bitmap) (start cnt : Z) : outcome bool :=
  bitmap_contains b start cnt true.
Definition bitmap_none (b : bitmap) (start cnt : Z) : outcome bool :=
  t ← bitmap_contains b start cnt true; Done (negb t).
Definition bitmap_all (b : bitmap) (start cnt : Z) : outcome bool :=
  t ← bitmap_contains b start cnt false; Done (negb t).

(** [for (i = start; i <= last; i++)] with [n] iterations left. *)
Fixpoint scan_loop (b : bitmap) (cnt : Z) (value : bool) (n : nat) (i : Z) : outcome Z :=
  match n with
  | O => Done BITMAP_ERROR
  | S n =>
      t ← bitmap_contains b i cnt (negb value);
      if negb t then Done i else scan_loop b cnt value n (i + 1)
  end.

Definition bitmap_scan (b : bitmap) (start cnt : Z) (value : bool) : outcome Z :=
  ASSERT (start <=? bit_cnt b);;
  if cnt <=? bit_cnt b then
    let last := bit_cnt b - cnt in
    scan_loop b cnt value (Z.to_nat (last - start + 1)) start
  else Done BITMAP_ERROR.

Definition bitmap_scan_and_flip (b : bitmap) (start cnt : Z) (value : bool) : outcome (Z * bitmap) :=
  idx ← bitmap_scan b start cnt value;
  if negb (idx =? BITMAP_ERROR) then
    b ← bitmap_set_multiple b idx cnt (negb value); Done (idx, b)
  else Done (idx, b).

(** [bitmap_create]: [hdr] says whether [malloc (sizeof *b)] succeeds, [blk] is
    what [malloc (byte_cnt (bit_cnt))] yields, a block with arbitrary contents
    or a null pointer. *)
Definition bitmap_create (hdr : bool) (blk : option (list Z)) (cnt : Z) : outcome (option bitmap) :=
  if hdr then
    if bool_decide (is_Some blk) || (cnt =? 0) then
      b ← bitmap_set_all (Bitmap cnt (default [] blk)) false;
      Done (Some b)
    else Done None
  else Done None.

Definition sizeof_bitmap : Z := 8.
Definition bitmap_buf_size (bit_cnt : Z) : Z := u32 (sizeof_bitmap + byte_cnt bit_cnt).

(** [bitmap_create_in_buf]: [words] is the storage that follows the header in
    the [block_size] bytes at [block]. *)
Definition bitmap_create_in_buf (cnt : Z) (words : list Z) (block_size : Z) : outcome bitmap :=
  ASSERT (bitmap_buf_size cnt <=? block_size);;
  bitmap_set_all (Bitmap cnt words) false.

(** ** File input and output *)

Definition bitmap_file_size (b : bitmap) : Z := byte_cnt (bit_cnt b).

(** [bitmap_read]: [data] is what [file_read_at (file, b->bits, size, 0)] put
    in the buffer, at most [size] bytes; its length is the call's result. *)
Definition bitmap_read (b : bitmap) (data : list Z) : outcome (bool * bitmap) :=
  if 0 <? bit_cnt b then
    let size := byte_cnt (bit_cnt b) in
    let old := words_to_bytes (bits b) in
    let l := bytes_to_words (data ++ drop (length data) old) in
    let success := zlen data =? size in
    let last := elem_cnt (bit_cnt b) - 1 in
    e ← rd l last;
    l ← wr l last (Z.land e (last_mask b));
    Done (success, Bitmap (bit_cnt b) l)
  else Done (true, b).

(** [bitmap_write]: the bytes handed to [file_write_at (file, b->bits, size, 0)],
    whose result is [written]. *)
Definition bitmap_write_data (b : bitmap) : list Z :=
  take (Z.to_nat (byte_cnt (bit_cnt b))) (words_to_bytes (bits b)).
Definition bitmap_write (b : bitmap) (written : Z) : bool :=
  written =? byte_cnt (bit_cnt b).

(** ** Meaning of a bitmap *)

(** The bit numbered [i]. *)
Definition bit (b : bitmap) (i : Z) : bool :=
  match (bits b)@[i `div` 32] with Some e => Z.testbit e (i `mod` 32) | None => false end.

(** Well-formed: enough 32-bit elements for the bits, and a bit count for which
    [DIV_ROUND_UP] does not overflow. *)
Record wf (b : bitmap) : Prop := {
  wf_cnt : 0 ≤ bit_cnt b < 2 ^ 32 - 31;
  wf_len : bit_cnt b ≤ 32 * zlen (bits b);
  wf_elem : Forall is_u32 (bits b);
}.

(** [b'] is [b] with the bits given by [f]. *)
Record updated (b b' : bitmap) (f : Z → bool) : Prop := {
  up_wf : wf b';
  up_cnt : bit_cnt b' = bit_cnt b;
  up_len : zlen (bits b') = zlen (bits b);
  up_bit : ∀ j, 0 ≤ j < bit_cnt b → bit b' j = f j;
}.

Lemma bit_mask_pow i : 0 ≤ i → bit_mask i = 2 ^ (i `mod` 32).
Proof.
  intros. unfold bit_mask, u32. change ELEM_BITS with 32.
  rewrite Z.shiftl_1_l. apply Z.mod_small. split; [lia|].
  apply Z.pow_lt_mono_r; div_lia.
Qed.

Lemma land_pow2_testbit e k : 0 ≤ k → negb (Z.land e (2 ^ k) =? 0) = Z.testbit e k.
Proof.
  intros Hk. destruct (Z.testbit e k) eqn:E; bool_cases; try done; exfalso.
  - assert (Z.testbit (Z.land e (2 ^ k)) k = true) as H.
    { by rewrite Z.land_spec, E, Z.pow2_bits_true. }
    rewrite e0, Z.bits_0 in H. done.
  - apply n. apply Z.bits_inj'. intros m ?. rewrite Z.land_spec, Z.bits_0, Z.pow2_bits_eqb by lia.
    destruct (Z.eqb_spec k m) as [->|]; [by rewrite E|apply andb_false_r].
Qed.

(** How one element is changed: [f] acts on bit [k] alone. *)
Definition acts_on (f : Z → Z) (k : Z) (v : bool → bool) : Prop :=
  ∀ e, is_u32 e → is_u32 (f e) ∧
    ∀ m, 0 ≤ m < 32 → Z.testbit (f e) m = if m =? k then v (Z.testbit e k) else Z.testbit e m.

Lemma acts_on_lor k : 0 ≤ k < 32 → acts_on (λ e, Z.lor e (2 ^ k)) k (λ _, true).
Proof.
  intros Hk e He. split.
  - apply u32_of_bits.
    + apply Z.lor_nonneg. split; [apply He|lia].
    + intros m ?. rewrite Z.lor_spec, u32_bits, Z.pow2_bits_false by (done || lia). done.
  - intros m ?. rewrite Z.lor_spec, Z.pow2_bits_eqb by lia. rewrite Z.eqb_sym.
    bool_cases; subst; by destruct (Z.testbit _ _).
Qed.

Lemma acts_on_land k : 0 ≤ k < 32 → acts_on (λ e, Z.land e (u32 (Z.lnot (2 ^ k)))) k (λ _, false).
Proof.
  intros Hk e He. split.
  - apply u32_of_bits.
    + apply Z.land_nonneg. left. apply He.
    + intros m ?. by rewrite Z.land_spec, u32_bits by (done || lia).
  - intros m ?. rewrite Z.land_spec, u32_testbit, Z.lnot_spec, Z.pow2_bits_eqb by lia.
    rewrite Z.eqb_sym. bool_cases; subst; by destruct (Z.testbit _ _).
Qed.

Lemma acts_on_lxor k : 0 ≤ k < 32 → acts_on (λ e, Z.lxor e (2 ^ k)) k negb.
Proof.
  intros Hk e He. split.
  - apply u32_of_bits.
    + apply Z.lxor_nonneg. pose proof (proj1 He). split; intros; lia.
    + intros m ?. rewrite Z.lxor_spec, u32_bits, Z.pow2_bits_false by (done || lia). done.
  - intros m ?. rewrite Z.lxor_spec, Z.pow2_bits_eqb by lia. rewrite Z.eqb_sym.
    bool_cases; subst; by destruct (Z.testbit _ _).
Qed.

Lemma elem_in_range b i : wf b → 0 ≤ i < bit_cnt b →
  ∃ e, (bits b)@[i `div` 32] = Some e ∧ is_u32 e.
Proof.
  intros [? ? Hf] Hi. destruct (zlookup_lt (bits b) (i `div` 32)) as [e He]; [div_lia|].
  exists e. split; [done|]. apply zlookup_Some in He as [_ He].
  by apply (Forall_lookup_1 _ _ _ _ Hf He).
Qed.

Lemma update_elem_spec b i f v :
  wf b → 0 ≤ i < bit_cnt b → acts_on f (i `mod` 32) v →
  ∃ b', update_elem b (elem_idx i) f = Done b' ∧
    updated b b' (λ j, if j =? i then v (bit b i) else bit b j).
Proof.
  intros Hwf Hi Hf. destruct (elem_in_range b i Hwf Hi) as (e & He & Hu).
  pose proof (zlookup_bound _ _ _ He). destruct (Hf e Hu) as [Hu' Hbits].
  unfold update_elem, elem_idx. change ELEM_BITS with 32.
  rewrite (rd_Some _ _ _ He). cbn. rewrite wr_in by done. cbn.
  eexists. split; [done|]. destruct Hwf as [Hc Hl Hall].
  split; simpl; rewrite ?zlen_insert; try done.
  - split; simpl; rewrite ?zlen_insert; try done.
    unfold zinsert. bool_cases. by apply Forall_insert.
  - intros j Hj. unfold bit. simpl. rewrite zlookup_insert.
    replace ((_ =? _) && _ && _) with (i `div` 32 =? j `div` 32) by (bool_cases; done).
    destruct (Z.eqb_spec (i `div` 32) (j `div` 32)) as [E|E].
    + rewrite Hbits, He, <-E, He by div_lia.
      destruct (Z.eqb_spec j i) as [->|]; [by rewrite Z.eqb_refl|].
      destruct (Z.eqb_spec (j `mod` 32) (i `mod` 32)); [|done]. exfalso. div_lia.
    + destruct (Z.eqb_spec j i) as [->|]; done.
Qed.

Lemma updated_refl b f : wf b → (∀ j, 0 ≤ j < bit_cnt b → bit b j = f j) → updated b b f.
Proof. by split. Qed.

Lemma updated_trans b b1 b2 f g h :
  updated b b1 f → updated b1 b2 g → (∀ j, 0 ≤ j < bit_cnt b → g j = h j) → updated b b2 h.
Proof.
  intros [? E1 ? ?] [? E2 ? H2] H. split; try congruence.
  intros j Hj. rewrite H2 by lia. by apply H.
Qed.

Section single_bits.
Context (b : bitmap) (i : Z) (Hwf : wf b) (Hi : 0 ≤ i < bit_cnt b).

Lemma mask_range : 0 ≤ i `mod` 32 < 32.
Proof. div_lia. Qed.

Lemma bitmap_test_spec : bitmap_test b i = Done (bit b i).
Proof.
  destruct (elem_in_range b i Hwf Hi) as (e & He & _).
  unfold bitmap_test, ASSERT, elem_idx, bit. change ELEM_BITS with 32. bool_cases.
  rewrite (rd_Some _ _ _ He), He. cbn. rewrite bit_mask_pow by lia.
  by rewrite land_pow2_testbit by div_lia.
Qed.

Lemma bitmap_mark_spec : ∃ b', bitmap_mark b i = Done b' ∧
  updated b b' (λ j, if j =? i then true else bit b j).
Proof.
  unfold bitmap_mark. rewrite bit_mask_pow by lia.
  apply update_elem_spec with (v := λ _, true); [done..|].
  apply acts_on_lor, mask_range.
Qed.

Lemma bitmap_reset_spec : ∃ b', bitmap_reset b i = Done b' ∧
  updated b b' (λ j, if j =? i then false else bit b j).
Proof.
  unfold bitmap_reset. rewrite bit_mask_pow by lia.
  apply update_elem_spec with (v := λ _, false); [done..|].
  apply acts_on_land, mask_range.
Qed.

Lemma bitmap_flip_spec : ∃ b', bitmap_flip b i = Done b' ∧
  updated b b' (λ j, if j =? i then negb (bit b i) else bit b j).
Proof.
  unfold bitmap_flip. rewrite bit_mask_pow by lia.
  apply update_elem_spec with (v := negb); [done..|].
  apply acts_on_lxor, mask_range.
Qed.

Lemma bitmap_set_spec v : ∃ b', bitmap_set b i v = Done b' ∧
  updated b b' (λ j, if j =? i then v else bit b j).
Proof.
  unfold bitmap_set, ASSERT. bool_cases. destruct v;
    [apply bitmap_mark_spec|apply bitmap_reset_spec].
Qed.
End single_bits.

(** The positions of a loop over [start .. start + cnt) stay in range. *)
Ltac in_range := rewrite ?u32_small by lia; try lia.

Lemma set_loop_spec n : ∀ b start v i,
  wf b → 0 ≤ start → 0 ≤ i → start + i + Z.of_nat n ≤ bit_cnt b →
  ∃ b', set_loop b start v n i = Done b' ∧
    updated b b' (λ j, if (start + i <=? j) && (j <? start + i + Z.of_nat n) then v else bit b j).
Proof.
  induction n as [|n IH]; intros b start v i Hwf ? ? ?; pose proof (wf_cnt b Hwf); cbn.
  - exists b. split; [done|]. apply updated_refl; [done|]. intros j ?. by bool_cases.
  - rewrite u32_small by lia.
    destruct (bitmap_set_spec b (start + i) Hwf ltac:(lia) v) as (b1 & -> & Hup). cbn.
    pose proof (up_cnt _ _ _ Hup).
    destruct (IH b1 start v (i + 1) (up_wf _ _ _ Hup)) as (b' & -> & Hup'); [lia..|].
    exists b'. split; [done|]. eapply updated_trans; [exact Hup|exact Hup'|].
    intros j ?. cbn beta. rewrite (up_bit _ _ _ Hup) by lia. by bool_cases.
Qed.

Lemma set_multiple_spec b start cnt v :
  wf b → 0 ≤ start → 0 ≤ cnt → start + cnt ≤ bit_cnt b →
  ∃ b', bitmap_set_multiple b start cnt v = Done b' ∧
    updated b b' (λ j, if (start <=? j) && (j <? start + cnt) then v else bit b j).
Proof.
  intros Hwf ? ? ?. pose proof (wf_cnt b Hwf).
  unfold bitmap_set_multiple, ASSERT. rewrite u32_small by lia. bool_cases.
  destruct (set_loop_spec (Z.to_nat cnt) b start v 0 Hwf) as (b' & -> & Hup); [lia..|].
  exists b'. split; [done|]. rewrite Z.add_0_r, Z2Nat.id in Hup by lia. done.
Qed.

Lemma contains_loop_spec n : ∀ b start v i,
  wf b → 0 ≤ start → 0 ≤ i → start + i + Z.of_nat n ≤ bit_cnt b →
  ∃ r, contains_loop b start v n i = Done r ∧
    (r = true ↔ ∃ j, start + i ≤ j < start + i + Z.of_nat n ∧ bit b j = v).
Proof.
  induction n as [|n IH]; intros b start v i Hwf ? ? ?; pose proof (wf_cnt b Hwf); cbn.
  - exists false. split; [done|]. split; [done|]. intros (j & ? & _). lia.
  - rewrite u32_small, bitmap_test_spec by (done || lia). cbn.
    destruct (Bool.eqb_spec (bit b (start + i)) v) as [E|E].
    + exists true. split; [done|]. split; [intros _|done]. exists (start + i). split; [lia|done].
    + destruct (IH b start v (i + 1) Hwf) as (r & -> & Hr); [lia..|].
      exists r. split; [done|]. rewrite Hr. split; intros (j & ? & Hj); exists j.
      * split; [lia|done].
      * split; [|done]. destruct (decide (j = start + i)); [by subst|lia].
Qed.

Lemma contains_spec b start cnt v :
  wf b → 0 ≤ start → 0 ≤ cnt → start + cnt ≤ bit_cnt b →
  ∃ r, bitmap_contains b start cnt v = Done r ∧
    (r = true ↔ ∃ j, start ≤ j < start + cnt ∧ bit b j = v).
Proof.
  intros Hwf ? ? ?. pose proof (wf_cnt b Hwf).
  unfold bitmap_contains, ASSERT. rewrite u32_small by lia. bool_cases.
  destruct (contains_loop_spec (Z.to_nat cnt) b start v 0 Hwf) as (r & -> & Hr); [lia..|].
  exists r. split; [done|]. rewrite Hr, Z.add_0_r, Z2Nat.id by lia. done.
Qed.

(** [run_at b start cnt v]: the [cnt] bits from [start] on are all [v]. *)
Definition run_at (b : bitmap) (start cnt : Z) (v : bool) : Prop :=
  ∀ j, start ≤ j < start + cnt → bit b j = v.

Lemma contains_negb_spec b start cnt v :
  wf b → 0 ≤ start → 0 ≤ cnt → start + cnt ≤ bit_cnt b →
  ∃ r, bitmap_contains b start cnt (negb v) = Done r ∧ (r = false ↔ run_at b start cnt v).
Proof.
  intros Hwf ? ? ?.
  destruct (contains_spec b start cnt (negb v) Hwf) as (r & -> & Hr); [done..|].
  exists r. split; [done|]. unfold run_at. destruct r.
  - destruct (proj1 Hr eq_refl) as (j & ? & Hj). split; [done|].
    intros H'. rewrite H' in Hj by done. by destruct v.
  - split; [|done]. intros _ j ?. destruct (decide (bit b j = v)) as [|Hne]; [done|].
    exfalso. destruct Hr as [_ Hr]. discriminate Hr. exists j. split; [done|].
    by destruct (bit b j), v.
Qed.

Lemma scan_loop_spec n : ∀ b cnt v i,
  wf b → 0 ≤ i → 0 ≤ cnt → i + Z.of_nat n + cnt ≤ bit_cnt b + 1 →
  ∃ r, scan_loop b cnt v n i = Done r ∧
    ((i ≤ r < i + Z.of_nat n ∧ run_at b r cnt v ∧ ∀ k, i ≤ k < r → ¬ run_at b k cnt v)
     ∨ (r = BITMAP_ERROR ∧ ∀ k, i ≤ k < i + Z.of_nat n → ¬ run_at b k cnt v)).
Proof.
  induction n as [|n IH]; intros b cnt v i Hwf ? ? ?; cbn.
  - exists BITMAP_ERROR. split; [done|]. right. split; [done|]. lia.
  - destruct (contains_negb_spec b i cnt v Hwf) as (r & -> & Hr); [lia..|]. cbn. destruct r; cbn.
    + destruct (IH b cnt v (i + 1) Hwf) as (r & -> & [(? & ? & Hk)|[-> Hk]]); [lia..| |].
      * exists r. split; [done|]. left. split; [lia|]. split; [done|]. intros k ?.
        destruct (decide (k = i)) as [->|]; [|apply Hk; lia]. rewrite <-Hr. done.
      * exists BITMAP_ERROR. split; [done|]. right. split; [done|]. intros k ?.
        destruct (decide (k = i)) as [->|]; [|apply Hk; lia]. rewrite <-Hr. done.
    + exists i. split; [done|]. left. split; [lia|]. split; [by apply Hr|]. lia.
Qed.

Lemma scan_spec b start cnt v :
  wf b → 0 ≤ start ≤ bit_cnt b → 0 ≤ cnt →
  ∃ r, bitmap_scan b start cnt v = Done r ∧
    ((start ≤ r ∧ r + cnt ≤ bit_cnt b ∧ run_at b r cnt v ∧
       ∀ k, start ≤ k < r → ¬ run_at b k cnt v)
     ∨ (r = BITMAP_ERROR ∧ ∀ k, start ≤ k → k + cnt ≤ bit_cnt b → ¬ run_at b k cnt v)).
Proof.
  intros Hwf ? ?. unfold bitmap_scan, ASSERT. bool_cases.
  - destruct (decide (start ≤ bit_cnt b - cnt)).
    + destruct (scan_loop_spec (Z.to_nat (bit_cnt b - cnt - start + 1)) b cnt v start Hwf)
        as (r & -> & [(? & ? & ?)|[-> Hk]]); [lia..| |].
      * exists r. split; [done|]. left. split_and!; [lia..|done|done].
      * exists BITMAP_ERROR. split; [done|]. right. split; [done|]. intros. apply Hk. lia.
    + replace (Z.to_nat _) with 0%nat by lia. cbn. exists BITMAP_ERROR. split; [done|].
      right. split; [done|]. lia.
  - exists BITMAP_ERROR. split; [done|]. right. split; [done|]. lia.
Qed.

Lemma scan_and_flip_spec b start cnt v :
  wf b → 0 ≤ start ≤ bit_cnt b → 0 ≤ cnt →
  ∃ r b', bitmap_scan_and_flip b start cnt v = Done (r, b') ∧
    ((start ≤ r ∧ r + cnt ≤ bit_cnt b ∧ run_at b r cnt v ∧
       (∀ k, start ≤ k < r → ¬ run_at b k cnt v) ∧
       updated b b' (λ j, if (r <=? j) && (j <? r + cnt) then negb v else bit b j))
     ∨ (r = BITMAP_ERROR ∧ b' = b ∧
         ∀ k, start ≤ k → k + cnt ≤ bit_cnt b → ¬ run_at b k cnt v)).
Proof.
  intros Hwf ? ?. pose proof (wf_cnt b Hwf). unfold bitmap_scan_and_flip.
  destruct (scan_spec b start cnt v Hwf) as (r & -> & [(? & ? & ? & ?)|[-> ?]]); [done..| |]; cbn.
  - unfold BITMAP_ERROR. destruct (Z.eqb_spec r SIZE_MAX); [lia|]. cbn.
    destruct (set_multiple_spec b r cnt (negb v) Hwf) as (b' & -> & Hup); [lia..|]. cbn.
    exists r, b'. split; [done|]. left. done.
  - exists BITMAP_ERROR, b. split; [done|]. by right.
Qed.

Lemma count_loop_spec n : ∀ b start v i c,
  wf b → 0 ≤ start → 0 ≤ i → start + i + Z.of_nat n ≤ bit_cnt b →
  0 ≤ c → c + Z.of_nat n < 2 ^ 32 →
  count_loop b start v n i c =
    Done (c + Z.of_nat (length (filter (λ j, bit b j = v) (seqZ (start + i) (Z.of_nat n))))).
Proof.
  induction n as [|n IH]; intros b start v i c Hwf ? ? ? ? ?; pose proof (wf_cnt b Hwf).
  - rewrite seqZ_nil by lia. cbn. f_equal. lia.
  - cbn [count_loop]. rewrite (u32_small (start + i)) by lia.
    rewrite bitmap_test_spec by (done || lia). cbn -[Z.of_nat].
    rewrite seqZ_cons by lia. rewrite filter_cons.
    replace (Z.succ (start + i)) with (start + (i + 1)) by lia.
    replace (Z.pred (Z.of_nat (S n))) with (Z.of_nat n) by lia.
    destruct (Bool.eqb_spec (bit b (start + i)) v); case_decide; try done.
    + rewrite u32_small by lia. rewrite IH by (done || lia). f_equal. cbn [length]. lia.
    + by rewrite IH by (done || lia).
Qed.

Lemma elem_cnt_spec b : wf b → elem_cnt (bit_cnt b) = (bit_cnt b + 31) `div` 32.
Proof.
  intros Hwf. pose proof (wf_cnt b Hwf). unfold elem_cnt, DIV_ROUND_UP. change ELEM_BITS with 32.
  rewrite u32_small by lia. f_equal. lia.
Qed.

Lemma byte_cnt_spec b : wf b → byte_cnt (bit_cnt b) = 4 * elem_cnt (bit_cnt b).
Proof.
  intros Hwf. pose proof (wf_cnt b Hwf). unfold byte_cnt. apply u32_small.
  rewrite elem_cnt_spec by done. div_lia.
Qed.

Lemma last_mask_spec b k : 0 ≤ k < 32 →
  Z.testbit (last_mask b) k = (bit_cnt b `mod` 32 =? 0) || (k <? bit_cnt b `mod` 32).
Proof.
  intros Hk. unfold last_mask. change ELEM_BITS with 32.
  assert (0 ≤ bit_cnt b `mod` 32 < 32) as Hm by div_lia.
  destruct (Z.eqb_spec (bit_cnt b `mod` 32) 0) as [->|Hne]; cbn [negb orb].
  - rewrite u32_testbit, Z.bits_m1 by lia. by bool_cases.
  - rewrite (u32_small (Z.shiftl _ _)).
    2:{ rewrite Z.shiftl_1_l. split; [lia|]. apply Z.pow_lt_mono_r; lia. }
    rewrite u32_testbit, Z.shiftl_1_l, Z.sub_1_r, <-Z.ones_equiv by lia.
    bool_cases; [by rewrite Z.ones_spec_low by lia|by rewrite Z.ones_spec_high by lia].
Qed.

(** Masking element [n] keeps the bits the mask has. *)
Lemma bit_land_elem b n e mask j :
  (bits b)@[n] = Some e → 0 ≤ j →
  bit (Bitmap (bit_cnt b) ((bits b)@[n := Z.land e mask])) j =
    if j `div` 32 =? n then bit b j && Z.testbit mask (j `mod` 32) else bit b j.
Proof.
  intros He Hj. unfold bit. cbn. rewrite zlookup_insert.
  pose proof (zlookup_bound _ _ _ He). rewrite Z.eqb_sym.
  destruct (Z.eqb_spec (j `div` 32) n) as [->|]; cbn; [|done].
  bool_cases. by rewrite He, Z.land_spec.
Qed.

Lemma wf_land_elem b n e mask :
  wf b → (bits b)@[n] = Some e → wf (Bitmap (bit_cnt b) ((bits b)@[n := Z.land e mask])).
Proof.
  intros [? ? Hall] He. split; cbn; rewrite ?zlen_insert; try done.
  pose proof (zlookup_bound _ _ _ He). apply zlookup_Some in He as [? He].
  pose proof (Forall_lookup_1 _ _ _ _ Hall He) as [? ?].
  unfold zinsert. bool_cases. apply Forall_insert; [done|]. apply u32_of_bits.
  - apply Z.land_nonneg. by left.
  - intros k ?. by rewrite Z.land_spec, u32_bits.
Qed.

Lemma write_data_exact b : wf b → zlen (bits b) = elem_cnt (bit_cnt b) →
  bitmap_write_data b = words_to_bytes (bits b).
Proof.
  intros Hwf Hl. unfold bitmap_write_data. rewrite byte_cnt_spec, <-Hl by done.
  apply take_ge. rewrite length_words_to_bytes. unfold zlen. lia.
Qed.

Lemma read_exact b b0 : wf b → 0 < bit_cnt b →
  bit_cnt b0 = bit_cnt b →
  zlen (bits b) = elem_cnt (bit_cnt b) → zlen (bits b0) = elem_cnt (bit_cnt b) →
  ∃ e, (bits b)@[elem_cnt (bit_cnt b) - 1] = Some e ∧
    bitmap_read b0 (words_to_bytes (bits b)) =
      Done (true, Bitmap (bit_cnt b) ((bits b)@[elem_cnt (bit_cnt b) - 1 := Z.land e (last_mask b)])).
Proof.
  intros Hwf Hpos E Hl Hl0. pose proof (elem_cnt_spec b Hwf) as Hn.
  destruct (zlookup_lt (bits b) (elem_cnt (bit_cnt b) - 1)) as [e He]; [div_lia|].
  exists e. split; [done|]. unfold bitmap_read. rewrite E, (proj2 (Z.ltb_lt _ _) Hpos).
  rewrite drop_ge by (rewrite !length_words_to_bytes; unfold zlen in *; lia).
  rewrite app_nil_r, bytes_to_words_to_bytes by apply Hwf.
  rewrite (rd_Some _ _ _ He). cbn. rewrite wr_in by (by apply zlookup_bound in He). cbn.
  unfold last_mask. rewrite E. do 2 f_equal.
  apply Z.eqb_eq. rewrite byte_cnt_spec, <-Hl by done. unfold zlen.
  rewrite length_words_to_bytes. lia.
Qed.

(** ** Properties *)

(** (lib/kernel/bitmap.c): first-fit allocation in a bitmap.  On a
    well-formed bitmap [bitmap_scan_and_flip] always returns.  Either it returns the
    lowest index at or after START where CNT consecutive bits equal VALUE, and then
    exactly those bits are inverted and every other bit, the size and
    well-formedness are kept; or it returns BITMAP_ERROR, the bitmap is untouched
    and no such group exists. *)
Theorem scan_and_flip_first_fit b start cnt v
  (Hwf : wf b) (Hstart : 0 ≤ start ≤ bit_cnt b) (Hcnt : 0 ≤ cnt) :
  ∃ r b', bitmap_scan_and_flip b start cnt v = Done (r, b') ∧
    ((r ≠ BITMAP_ERROR ∧ start ≤ r ∧ r + cnt ≤ bit_cnt b ∧ run_at b r cnt v ∧
       (∀ k, start ≤ k < r → ¬ run_at b k cnt v) ∧
       wf b' ∧ bit_cnt b' = bit_cnt b ∧ run_at b' r cnt (negb v) ∧
       ∀ j, 0 ≤ j < bit_cnt b → ¬ r ≤ j < r + cnt → bitmap_test b' j = bitmap_test b j)
     ∨ (r = BITMAP_ERROR ∧ b' = b ∧
         ∀ k, start ≤ k → k + cnt ≤ bit_cnt b → ¬ run_at b k cnt v)).
Proof.
  pose proof (wf_cnt b Hwf).
  destruct (scan_and_flip_spec b start cnt v Hwf Hstart Hcnt)
    as (r & b' & -> & [(? & ? & ? & ? & [? Hc _ Hb])|[-> [-> ?]]]); [|naive_solver].
  exists r, b'. split; [done|]. left. split; [unfold BITMAP_ERROR; lia|].
  split_and!; try done.
  - intros j ?. rewrite Hb by lia. by bool_cases.
  - intros j ? ?. rewrite !bitmap_test_spec by (done || lia). rewrite Hb by lia. by bool_cases.
Qed.

Lemma scan_and_flip_first_fit_witness :
  ∃ r b', bitmap_scan_and_flip (Bitmap 40 [5; 0]) 0 2 false = Done (r, b') ∧ r = 3.
Proof.
  assert (wf (Bitmap 40 [5; 0])) as Hwf.
  { split; [done..|]. repeat constructor; done. }
  destruct (scan_and_flip_first_fit (Bitmap 40 [5; 0]) 0 2 false Hwf
    ltac:(cbn; lia) ltac:(lia)) as (r & b' & H & _).
  exists r, b'. split; [exact H|]. vm_compute in H. congruence.
Defined.

(** (lib/kernel/bitmap.c): storing a bitmap in a file and reading it back.  Reading, into a
    bitmap of the same size, the bytes [bitmap_write] hands to the file system
    succeeds, yields a well-formed bitmap with the same value in every bit, and
    clears the unused bits of the last element. *)
Theorem bitmap_file_roundtrip b b0
  (Hwf : wf b) (Hsize : bit_cnt b0 = bit_cnt b)
  (Hlen : zlen (bits b) = elem_cnt (bit_cnt b)) (Hlen0 : zlen (bits b0) = elem_cnt (bit_cnt b))
  (Hpos : 0 < bit_cnt b) :
  bitmap_write b (zlen (bitmap_write_data b)) = true ∧
  ∃ b', bitmap_read b0 (bitmap_write_data b) = Done (true, b') ∧
    wf b' ∧ bit_cnt b' = bit_cnt b ∧
    (∀ j, 0 ≤ j < bit_cnt b → bitmap_test b' j = bitmap_test b j) ∧
    (∀ j, bit_cnt b ≤ j → bit b' j = false).
Proof.
  pose proof (elem_cnt_spec b Hwf) as Hn.
  rewrite write_data_exact by done. split.
  { unfold bitmap_write, zlen. apply Z.eqb_eq. rewrite byte_cnt_spec, <-Hlen by done.
    unfold zlen. rewrite length_words_to_bytes. lia. }
  destruct (read_exact b b0 Hwf Hpos Hsize Hlen Hlen0) as (e & He & ->).
  pose proof (wf_land_elem _ _ _ (last_mask b) Hwf He) as Hwf'.
  eexists. split_and!; [done|done|done|..].
  - intros j ?. rewrite !bitmap_test_spec by done. f_equal.
    rewrite (bit_land_elem _ _ _ _ _ He) by lia.
    rewrite last_mask_spec by div_lia.
    destruct (Z.eqb_spec (j `div` 32) (elem_cnt (bit_cnt b) - 1)); [|done].
    replace ((_ =? 0) || _) with true; [apply andb_true_r|].
    symmetry. bool_cases; try done. exfalso. div_lia.
  - intros j ?. rewrite (bit_land_elem _ _ _ _ _ He) by (pose proof (wf_cnt b Hwf); lia).
    rewrite last_mask_spec by div_lia.
    destruct (Z.eqb_spec (j `div` 32) (elem_cnt (bit_cnt b) - 1)).
    + replace ((_ =? 0) || _) with false; [apply andb_false_r|].
      symmetry. bool_cases; try done; exfalso; div_lia.
    + unfold bit. destruct ((bits b)@[j `div` 32]) eqn:Hj; [|done].
      apply zlookup_bound in Hj. exfalso. div_lia.
Qed.

Lemma bitmap_file_roundtrip_witness :
  bitmap_write (Bitmap 40 [7; 65]) 8 = true ∧
  ∃ b', bitmap_read (Bitmap 40 [0; 0]) (bitmap_write_data (Bitmap 40 [7; 65])) = Done (true, b').
Proof.
  assert (wf (Bitmap 40 [7; 65])) as Hwf.
  { split; [done..|]. repeat constructor; done. }
  destruct (bitmap_file_roundtrip (Bitmap 40 [7; 65]) (Bitmap 40 [0; 0]) Hwf
    eq_refl eq_refl eq_refl ltac:(cbn; lia)) as [H (b' & ? & _)].
  split; [exact H|by exists b'].
Defined.
