(* ===== verification/KList.v ===== *)
(** * Doubly linked lists (src/pintos/src/lib/kernel/list.c)

    The list module works on [struct list_elem] nodes embedded in other
    structures, linked through raw pointers.  The model keeps exactly that: a
    store maps the address of a node to its [prev] and [next] pointers, and
    every function of the file reads and writes the store in the order of the
    C code, checking its [ASSERT]s.  A [struct list] at address [l] holds the
    two header nodes, [head] at [l] and [tail] at [l + 8].

    [list_rep h l xs] says that in the store [h] the list at [l] holds the
    nodes [xs], in this order.  The lemmas show that each function, started on
    such a store, returns (within the given number of loop iterations, without
    failing an assertion or following a bad pointer) and leaves the list the
    corresponding operation on [xs] gives; the store outside the list is
    unchanged. *)

From S2P Require Import Prelude.

Definition NULL : Z := 0.

Record list_elem : Type := Elem { prev : Z; next : Z }.

Abbreviation store := (gmap Z list_elem).

(** [*p], undefined for a null or dangling pointer. *)
Definition load (p : Z) : M store list_elem := λ h,
  if p =? NULL then Undef else
  match h !! p with Some e => Done (e, h) | None => Undef end.

Definition get_prev (p : Z) : M store Z := e ← load p; mret (prev e).
Definition get_next (p : Z) : M store Z := e ← load p; mret (next e).
Definition set_prev (p v : Z) : M store unit :=
  e ← load p; modify (<[p := Elem v (next e)]>).
Definition set_next (p v : Z) : M store unit :=
  e ← load p; modify (<[p := Elem (prev e) v]>).

(** [&list->head] and [&list->tail]. *)
Definition head_of (list : Z) : Z := list.
Definition tail_of (list : Z) : Z := list + 8.

Definition is_head (elem : Z) : M store bool :=
  if elem =? NULL then mret false else
  e ← load elem; mret ((prev e =? NULL) && negb (next e =? NULL)).
Definition is_interior (elem : Z) : M store bool :=
  if elem =? NULL then mret false else
  e ← load elem; mret (negb (prev e =? NULL) && negb (next e =? NULL)).
Definition is_tail (elem : Z) : M store bool :=
  if elem =? NULL then mret false else
  e ← load elem; mret (negb (prev e =? NULL) && (next e =? NULL)).

(** [a || b] of C. *)
Definition orM (a b : M store bool) : M store bool :=
  x ← a; if x : bool then mret true else b.

Definition assertM (m : M store bool) : M store unit := b ← m; assert b.

Definition list_init (list : Z) : M store unit :=
  assert (negb (list =? NULL));;
  set_prev (head_of list) NULL;;
  set_next (head_of list) (tail_of list);;
  set_prev (tail_of list) (head_of list);;
  set_next (tail_of list) NULL.

Definition list_begin (list : Z) : M store Z :=
  assert (negb (list =? NULL));;
  get_next (head_of list).

Definition list_next (elem : Z) : M store Z :=
  assertM (orM (is_head elem) (is_interior elem));;
  get_next elem.

Definition list_end (list : Z) : M store Z :=
  assert (negb (list =? NULL));;
  mret (tail_of list).

Definition list_rbegin (list : Z) : M store Z :=
  assert (negb (list =? NULL));;
  get_prev (tail_of list).

Definition list_prev (elem : Z) : M store Z :=
  assertM (orM (is_interior elem) (is_tail elem));;
  get_prev elem.

Definition list_rend (list : Z) : M store Z :=
  assert (negb (list =? NULL));;
  mret (head_of list).

Definition list_head (list : Z) : M store Z :=
  assert (negb (list =? NULL));;
  mret (head_of list).

Definition list_tail (list : Z) : M store Z :=
  assert (negb (list =? NULL));;
  mret (tail_of list).

Definition list_insert (before elem : Z) : M store unit :=
  assertM (orM (is_interior before) (is_tail before));;
  assert (negb (elem =? NULL));;
  p ← get_prev before;
  set_prev elem p;;
  set_next elem before;;
  p ← get_prev before;
  set_next p elem;;
  set_prev before elem.

Definition list_splice (before first last : Z) : M store unit :=
  assertM (orM (is_interior before) (is_tail before));;
  if first =? last then mret tt else
  last ← list_prev last;
  assertM (is_interior first);;
  assertM (is_interior last);;
  (* Cleanly remove FIRST...LAST from its current list. *)
  fp ← get_prev first;
  ln ← get_next last;
  set_next fp ln;;
  fp ← get_prev first;
  ln ← get_next last;
  set_prev ln fp;;
  (* Splice FIRST...LAST into new list. *)
  bp ← get_prev before;
  set_prev first bp;;
  set_next last before;;
  bp ← get_prev before;
  set_next bp first;;
  set_prev before last.

Definition list_push_front (list elem : Z) : M store unit :=
  b ← list_begin list; list_insert b elem.

Definition list_push_back (list elem : Z) : M store unit :=
  e ← list_end list; list_insert e elem.

Definition list_remove (elem : Z) : M store Z :=
  assertM (is_interior elem);;
  p ← get_prev elem;
  n ← get_next elem;
  set_next p n;;
  n ← get_next elem;
  p ← get_prev elem;
  set_prev n p;;
  get_next elem.

Definition list_empty (list : Z) : M store bool :=
  b ← list_begin list;
  e ← list_end list;
  mret (b =? e).

Definition list_front (list : Z) : M store Z :=
  assertM (b ← list_empty list; mret (negb b));;
  get_next (head_of list).

Definition list_back (list : Z) : M store Z :=
  assertM (b ← list_empty list; mret (negb b));;
  get_prev (tail_of list).

Definition list_pop_front (list : Z) : M store Z :=
  front ← list_front list;
  list_remove front;;
  mret front.

Definition list_pop_back (list : Z) : M store Z :=
  back ← list_back list;
  list_remove back;;
  mret back.

(** [for (e = ...; e != list_end (list); e = list_next (e)) cnt++;] *)
Fixpoint size_loop (fuel : nat) (list e cnt : Z) : M store Z :=
  match fuel with
  | O => out_of_fuel
  | S fuel =>
      en ← list_end list;
      if negb (e =? en) then
        e ← list_next e;
        size_loop fuel list e (u32 (cnt + 1))
      else mret cnt
  end.

Definition list_size (fuel : nat) (list : Z) : M store Z :=
  e ← list_begin list;
  size_loop fuel list e 0.

(** [swap (&e->prev, &e->next)]. *)
Definition swap_links (e : Z) : M store unit :=
  t ← get_prev e;
  n ← get_next e;
  set_prev e n;;
  set_next e t.

Fixpoint reverse_loop (fuel : nat) (list e : Z) : M store unit :=
  match fuel with
  | O => out_of_fuel
  | S fuel =>
      en ← list_end list;
      if negb (e =? en) then
        swap_links e;;
        e ← get_prev e;
        reverse_loop fuel list e
      else mret tt
  end.

Definition list_reverse (fuel : nat) (list : Z) : M store unit :=
  emp ← list_empty list;
  if negb emp then
    e ← list_begin list;
    reverse_loop fuel list e;;
    (* swap (&list->head.next, &list->tail.prev) *)
    t ← get_next (head_of list);
    u ← get_prev (tail_of list);
    set_next (head_of list) u;;
    set_prev (tail_of list) t;;
    (* swap (&list->head.next->prev, &list->tail.prev->next) *)
    a ← get_next (head_of list);
    b ← get_prev (tail_of list);
    t ← get_prev a;
    u ← get_next b;
    set_prev a u;;
    set_next b t
  else mret tt.

Section ordered.
Context (less : Z → Z → bool).

Fixpoint is_sorted_loop (fuel : nat) (a b : Z) : M store bool :=
  match fuel with
  | O => out_of_fuel
  | S fuel =>
      a ← list_next a;
      if negb (a =? b) then
        p ← list_prev a;
        if less a p then mret false else is_sorted_loop fuel a b
      else mret true
  end.

Definition is_sorted (fuel : nat) (a b : Z) : M store bool :=
  if negb (a =? b) then is_sorted_loop fuel a b else mret true.

(** [do a = list_next (a); while (a != b && !less (a, list_prev (a), aux));] *)
Fixpoint run_loop (fuel : nat) (a b : Z) : M store Z :=
  match fuel with
  | O => out_of_fuel
  | S fuel =>
      a ← list_next a;
      if negb (a =? b) then
        p ← list_prev a;
        if negb (less a p) then run_loop fuel a b else mret a
      else mret a
  end.

Definition find_end_of_run (fuel : nat) (a b : Z) : M store Z :=
  assert (negb (a =? NULL));;
  assert (negb (b =? NULL));;
  assert (negb (a =? b));;
  run_loop fuel a b.

Fixpoint merge_loop (fuel : nat) (a0 a1b0 b1 : Z) : M store unit :=
  match fuel with
  | O => out_of_fuel
  | S fuel =>
      if negb (a0 =? a1b0) && negb (a1b0 =? b1) then
        if negb (less a1b0 a0) then
          a0 ← list_next a0;
          merge_loop fuel a0 a1b0 b1
        else
          a1b0 ← list_next a1b0;
          p ← list_prev a1b0;
          list_splice a0 p a1b0;;
          merge_loop fuel a0 a1b0 b1
      else mret tt
  end.

Definition inplace_merge (fuel : nat) (a0 a1b0 b1 : Z) : M store unit :=
  assert (negb (a0 =? NULL));;
  assert (negb (a1b0 =? NULL));;
  assert (negb (b1 =? NULL));;
  assertM (is_sorted fuel a0 a1b0);;
  assertM (is_sorted fuel a1b0 b1);;
  merge_loop fuel a0 a1b0 b1.

(** One pass of the sort: [bound] is the bound given to the inner loops, the
    result is the number of runs output. *)
Fixpoint pass_loop (bound fuel : nat) (list a0 cnt : Z) : M store Z :=
  match fuel with
  | O => out_of_fuel
  | S fuel =>
      en ← list_end list;
      if negb (a0 =? en) then
        let cnt := u32 (cnt + 1) in
        en ← list_end list;
        a1b0 ← find_end_of_run bound a0 en;
        en ← list_end list;
        if a1b0 =? en then mret cnt else
        en ← list_end list;
        b1 ← find_end_of_run bound a1b0 en;
        inplace_merge bound a0 a1b0 b1;;
        pass_loop bound fuel list b1 cnt
      else mret cnt
  end.

Fixpoint sort_loop (bound fuel : nat) (list : Z) : M store unit :=
  match fuel with
  | O => out_of_fuel
  | S fuel =>
      a0 ← list_begin list;
      output_run_cnt ← pass_loop bound bound list a0 0;
      if 1 <? output_run_cnt then sort_loop bound fuel list else mret tt
  end.

Definition list_sort (fuel : nat) (list : Z) : M store unit :=
  assert (negb (list =? NULL));;
  sort_loop fuel fuel list;;
  b ← list_begin list;
  e ← list_end list;
  assertM (is_sorted fuel b e).

Fixpoint insert_loop (fuel : nat) (list elem e : Z) : M store Z :=
  match fuel with
  | O => out_of_fuel
  | S fuel =>
      en ← list_end list;
      if negb (e =? en) then
        if less elem e then mret e else
        e ← list_next e;
        insert_loop fuel list elem e
      else mret e
  end.

Definition list_insert_ordered (fuel : nat) (list elem : Z) : M store unit :=
  assert (negb (list =? NULL));;
  assert (negb (elem =? NULL));;
  e ← list_begin list;
  e ← insert_loop fuel list elem e;
  list_insert e elem.

Fixpoint unique_loop (fuel : nat) (list duplicates elem : Z) : M store unit :=
  match fuel with
  | O => out_of_fuel
  | S fuel =>
      next ← list_next elem;
      en ← list_end list;
      if negb (next =? en) then
        if negb (less elem next) && negb (less next elem) then
          list_remove next;;
          (if negb (duplicates =? NULL) then list_push_back duplicates next else mret tt);;
          unique_loop fuel list duplicates elem
        else unique_loop fuel list duplicates next
      else mret tt
  end.

Definition list_unique (fuel : nat) (list duplicates : Z) : M store unit :=
  assert (negb (list =? NULL));;
  emp ← list_empty list;
  if emp : bool then mret tt else
  elem ← list_begin list;
  unique_loop fuel list duplicates elem.

Fixpoint max_loop (fuel : nat) (list max e : Z) : M store Z :=
  match fuel with
  | O => out_of_fuel
  | S fuel =>
      en ← list_end list;
      if negb (e =? en) then
        let max := if less max e then e else max in
        e ← list_next e;
        max_loop fuel list max e
      else mret max
  end.

Definition list_max (fuel : nat) (list : Z) : M store Z :=
  max ← list_begin list;
  en ← list_end list;
  if negb (max =? en) then
    e ← list_next max;
    max_loop fuel list max e
  else mret max.

Fixpoint min_loop (fuel : nat) (list min e : Z) : M store Z :=
  match fuel with
  | O => out_of_fuel
  | S fuel =>
      en ← list_end list;
      if negb (e =? en) then
        let min := if less e min then e else min in
        e ← list_next e;
        min_loop fuel list min e
      else mret min
  end.

Definition list_min (fuel : nat) (list : Z) : M store Z :=
  min ← list_begin list;
  en ← list_end list;
  if negb (min =? en) then
    e ← list_next min;
    min_loop fuel list min e
  else mret min.

End ordered.

(** ** Shape of a list in the store *)

Definition nxt (h : store) (p : Z) : option Z := next <$> h !! p.
Definition prv (h : store) (p : Z) : option Z := prev <$> h !! p.

(** The nodes [ns] are linked to each other, in this order. *)
Fixpoint chain (h : store) (ns : list Z) : Prop :=
  match ns with
  | p :: ((q :: _) as r) => nxt h p = Some q ∧ prv h q = Some p ∧ chain h r
  | _ => True
  end.

Definition nodes (l : Z) (xs : list Z) : list Z := head_of l :: xs ++ [tail_of l].

Record list_rep (h : store) (l : Z) (xs : list Z) : Prop := ListRep {
  rep_chain : chain h (nodes l xs);
  rep_head : prv h (head_of l) = Some NULL;
  rep_tail : nxt h (tail_of l) = Some NULL;
  rep_nodup : NoDup (nodes l xs);
  rep_nonnull : NULL ∉ nodes l xs;
}.

(** The stores agree outside [ns]. *)
Definition same_outside (ns : list Z) (h h' : store) : Prop :=
  ∀ q, q ∉ ns → h' !! q = h !! q.

(** The node at which the suffix [ys] of the list [l] begins. *)
Definition pos (l : Z) (ys : list Z) : Z :=
  match ys with [] => tail_of l | y :: _ => y end.

(** ** Writes, and what they do to the links *)

Definition upd_next (p v : Z) (h : store) : store :=
  alter (λ e, Elem (prev e) v) p h.
Definition upd_prev (p v : Z) (h : store) : store :=
  alter (λ e, Elem v (next e)) p h.

Lemma nxt_upd_next p v h q :
  nxt (upd_next p v h) q = if decide (p = q) then (λ _, v) <$> h !! q else nxt h q.
Proof.
  unfold nxt, upd_next. case_decide; subst.
  - rewrite lookup_alter_eq. by destruct (h !! q).
  - by rewrite lookup_alter_ne.
Qed.
Lemma prv_upd_next p v h q : prv (upd_next p v h) q = prv h q.
Proof.
  unfold prv, upd_next. rewrite lookup_alter. case_decide; subst; [|done].
  by destruct (h !! q).
Qed.
Lemma prv_upd_prev p v h q :
  prv (upd_prev p v h) q = if decide (p = q) then (λ _, v) <$> h !! q else prv h q.
Proof.
  unfold prv, upd_prev. case_decide; subst.
  - rewrite lookup_alter_eq. by destruct (h !! q).
  - by rewrite lookup_alter_ne.
Qed.
Lemma nxt_upd_prev p v h q : nxt (upd_prev p v h) q = nxt h q.
Proof.
  unfold nxt, upd_prev. rewrite lookup_alter. case_decide; subst; [|done].
  by destruct (h !! q).
Qed.
Lemma upd_next_is_Some p v h q : is_Some (upd_next p v h !! q) ↔ is_Some (h !! q).
Proof. unfold upd_next. rewrite lookup_alter_is_Some. done. Qed.
Lemma upd_prev_is_Some p v h q : is_Some (upd_prev p v h !! q) ↔ is_Some (h !! q).
Proof. unfold upd_prev. rewrite lookup_alter_is_Some. done. Qed.

Lemma nxt_is_Some h p q : nxt h p = Some q → is_Some (h !! p).
Proof. unfold nxt. destruct (h !! p); [by eexists|done]. Qed.
Lemma prv_is_Some h p q : prv h p = Some q → is_Some (h !! p).
Proof. unfold prv. destruct (h !! p); [by eexists|done]. Qed.

Lemma same_outside_refl ns h : same_outside ns h h.
Proof. done. Qed.
Lemma same_outside_trans ns h1 h2 h3 :
  same_outside ns h1 h2 → same_outside ns h2 h3 → same_outside ns h1 h3.
Proof. intros H1 H2 q Hq. by rewrite H2, H1. Qed.
Lemma same_outside_mono ns ns' h h' :
  same_outside ns h h' → ns ⊆ ns' → same_outside ns' h h'.
Proof. intros H Hsub q Hq. apply H. set_solver. Qed.
Lemma same_outside_upd_next ns p v h h' :
  same_outside ns h h' → p ∈ ns → same_outside ns h (upd_next p v h').
Proof. intros H Hp q Hq. unfold upd_next. rewrite lookup_alter_ne; [auto|set_solver]. Qed.
Lemma same_outside_upd_prev ns p v h h' :
  same_outside ns h h' → p ∈ ns → same_outside ns h (upd_prev p v h').
Proof. intros H Hp q Hq. unfold upd_prev. rewrite lookup_alter_ne; [auto|set_solver]. Qed.
#[export] Hint Resolve same_outside_refl same_outside_upd_next same_outside_upd_prev : pintos.

(** ** Reads and writes, as steps of the code *)

Lemma runs_get_prev h p v Q :
  p ≠ NULL → prv h p = Some v → Q v h → runs (get_prev p) h Q.
Proof.
  unfold prv, get_prev, runs, mbind, M_bind, load. intros Hp Hv HQ.
  destruct (Z.eqb_spec p NULL); [done|]. destruct (h !! p); naive_solver.
Qed.
Lemma runs_get_next h p v Q :
  p ≠ NULL → nxt h p = Some v → Q v h → runs (get_next p) h Q.
Proof.
  unfold nxt, get_next, runs, mbind, M_bind, load. intros Hp Hv HQ.
  destruct (Z.eqb_spec p NULL); [done|]. destruct (h !! p); naive_solver.
Qed.
Lemma runs_set_prev h p v Q :
  p ≠ NULL → is_Some (h !! p) → Q tt (upd_prev p v h) → runs (set_prev p v) h Q.
Proof.
  unfold set_prev, runs, mbind, M_bind, load, modify, upd_prev. intros Hp [e He] HQ.
  destruct (Z.eqb_spec p NULL); [done|]. rewrite He.
  replace (<[p:=Elem v (next e)]> h) with (alter (λ e, Elem v (next e)) p h); [done|].
  apply map_eq. intros q. destruct (decide (p = q)) as [->|].
  - by rewrite lookup_alter_eq, lookup_insert_eq, He.
  - by rewrite lookup_alter_ne, lookup_insert_ne.
Qed.
Lemma runs_set_next h p v Q :
  p ≠ NULL → is_Some (h !! p) → Q tt (upd_next p v h) → runs (set_next p v) h Q.
Proof.
  unfold set_next, runs, mbind, M_bind, load, modify, upd_next. intros Hp [e He] HQ.
  destruct (Z.eqb_spec p NULL); [done|]. rewrite He.
  replace (<[p:=Elem (prev e) v]> h) with (alter (λ e, Elem (prev e) v) p h); [done|].
  apply map_eq. intros q. destruct (decide (p = q)) as [->|].
  - by rewrite lookup_alter_eq, lookup_insert_eq, He.
  - by rewrite lookup_alter_ne, lookup_insert_ne.
Qed.

(** A node test decides what the node's links say. *)
Lemma runs_node_test (test : Z → M store bool) (f : Z → Z → bool) h p a b Q :
  (∀ e, test e = if e =? NULL then mret false else
     e ← load e; mret (f (prev e) (next e))) →
  p ≠ NULL → prv h p = Some a → nxt h p = Some b → Q (f a b) h → runs (test p) h Q.
Proof.
  unfold prv, nxt. intros -> Hp Ha Hb HQ. destruct (Z.eqb_spec p NULL); [done|].
  unfold runs, mbind, M_bind, load. destruct (Z.eqb_spec p NULL); [done|].
  destruct (h !! p); naive_solver.
Qed.
Lemma runs_is_head h p a b Q :
  p ≠ NULL → prv h p = Some a → nxt h p = Some b →
  Q ((a =? NULL) && negb (b =? NULL)) h → runs (is_head p) h Q.
Proof. by apply (runs_node_test is_head (λ a b, (a =? NULL) && negb (b =? NULL))). Qed.
Lemma runs_is_interior h p a b Q :
  p ≠ NULL → prv h p = Some a → nxt h p = Some b →
  Q (negb (a =? NULL) && negb (b =? NULL)) h → runs (is_interior p) h Q.
Proof. by apply (runs_node_test is_interior (λ a b, negb (a =? NULL) && negb (b =? NULL))). Qed.
Lemma runs_is_tail h p a b Q :
  p ≠ NULL → prv h p = Some a → nxt h p = Some b →
  Q (negb (a =? NULL) && (b =? NULL)) h → runs (is_tail p) h Q.
Proof. by apply (runs_node_test is_tail (λ a b, negb (a =? NULL) && (b =? NULL))). Qed.

(** ** Chains *)

Lemma chain_app h A x B : chain h (A ++ x :: B) ↔ chain h (A ++ [x]) ∧ chain h (x :: B).
Proof.
  induction A as [|a [|a' A] IH]; simpl in *; [tauto| |]; tauto.
Qed.

(** Cutting a chain at the link between [p] and [q]. *)
Lemma chain_cut h A p q B :
  chain h (A ++ p :: q :: B) ↔
    chain h (A ++ [p]) ∧ nxt h p = Some q ∧ prv h q = Some p ∧ chain h (q :: B).
Proof. rewrite chain_app. simpl. tauto. Qed.

Lemma chain_frame_next h A p v :
  p ∉ A → ∀ x, chain (upd_next p v h) (A ++ [x]) ↔ chain h (A ++ [x]).
Proof.
  induction A as [|a A IH]; intros Hp x; [done|].
  apply not_elem_of_cons in Hp as [Hne Hp]. specialize (IH Hp).
  destruct A as [|a' A]; simpl in *.
  - rewrite nxt_upd_next, prv_upd_next. case_decide; [congruence|tauto].
  - rewrite nxt_upd_next, prv_upd_next. case_decide; [congruence|]. rewrite IH. tauto.
Qed.
Lemma chain_frame_prev h B p v :
  p ∉ B → ∀ x, chain (upd_prev p v h) (x :: B) ↔ chain h (x :: B).
Proof.
  induction B as [|b B IH]; intros Hp x; [done|].
  apply not_elem_of_cons in Hp as [Hne Hp].
  change (chain (upd_prev p v h) (x :: b :: B)) with
    (nxt (upd_prev p v h) x = Some b ∧ prv (upd_prev p v h) b = Some x ∧ chain (upd_prev p v h) (b :: B)).
  rewrite IH by done. rewrite nxt_upd_prev, prv_upd_prev. case_decide; [congruence|done].
Qed.
Lemma chain_frame_next_out h ns p v : p ∉ ns → chain (upd_next p v h) ns ↔ chain h ns.
Proof.
  destruct ns as [|x ns _] using rev_ind; [done|]. intros Hp.
  apply chain_frame_next. set_solver.
Qed.
Lemma chain_frame_prev_out h ns p v : p ∉ ns → chain (upd_prev p v h) ns ↔ chain h ns.
Proof. destruct ns; [done|]. intros Hp. apply chain_frame_prev. set_solver. Qed.

Lemma chain_is_Some h A p B :
  chain h (A ++ p :: B) → (A ≠ [] ∨ B ≠ []) → is_Some (h !! p).
Proof.
  intros H [HA|HB].
  - destruct A as [|a A _] using rev_ind; [done|]. rewrite <-app_assoc in H. simpl in H.
    apply chain_cut in H as (_ & _ & H & _). by eapply prv_is_Some.
  - destruct B as [|b B]; [done|]. apply chain_cut in H as (_ & H & _). by eapply nxt_is_Some.
Qed.

(** Stores that agree on the nodes have the same chains. *)
Lemma chain_same h h' ns : (∀ q, q ∈ ns → h' !! q = h !! q) → chain h ns → chain h' ns.
Proof.
  induction ns as [|p [|q ns] IH]; intros Heq; try done.
  intros (Hn & Hp & Hc).
  assert (h' !! p = h !! p) as E1 by (apply Heq; set_solver).
  assert (h' !! q = h !! q) as E2 by (apply Heq; set_solver).
  split_and!; [unfold nxt in *; by rewrite E1|unfold prv in *; by rewrite E2|].
  apply IH; [|done]. intros. apply Heq. set_solver.
Qed.

(** ** Nodes of a represented list *)

Section rep.
Context {h : store} {l : Z} {xs : list Z} (Hrep : list_rep h l xs).

Lemma rep_list_nonnull : l ≠ NULL.
Proof using Hrep. pose proof (rep_nonnull _ _ _ Hrep) as H. unfold nodes, head_of in H. set_solver. Qed.

Lemma rep_tail_nonnull : tail_of l ≠ NULL.
Proof using Hrep. pose proof (rep_nonnull _ _ _ Hrep) as H. unfold nodes in H. set_solver. Qed.

Lemma rep_node_nonnull x : x ∈ xs → x ≠ NULL.
Proof using Hrep. pose proof (rep_nonnull _ _ _ Hrep) as H. unfold nodes in H. set_solver. Qed.

(** Two neighbours [p], [q] among the nodes. *)
Lemma rep_link A p q B : nodes l xs = A ++ p :: q :: B →
  p ≠ NULL ∧ q ≠ NULL ∧ nxt h p = Some q ∧ prv h q = Some p.
Proof using Hrep.
  intros E. pose proof (rep_chain _ _ _ Hrep) as Hc. pose proof (rep_nonnull _ _ _ Hrep) as Hn.
  rewrite E in Hc, Hn. apply chain_cut in Hc as (_ & ? & ? & _).
  split_and!; [set_solver..|done|done].
Qed.

Lemma rep_is_Some x : x ∈ nodes l xs → is_Some (h !! x).
Proof using Hrep.
  intros (A & B & E)%list_elem_of_split. pose proof (rep_chain _ _ _ Hrep) as Hc.
  rewrite E in Hc. eapply chain_is_Some; [done|].
  destruct A; [|by left]. right. destruct B; [|done]. apply (f_equal length) in E.
  unfold nodes in E. simpl in E. rewrite length_app in E. simpl in E. lia.
Qed.
End rep.

(** The neighbours of the first node of a suffix. *)
Lemma nodes_cut l A x B : nodes l (A ++ x :: B) = (head_of l :: A) ++ x :: B ++ [tail_of l].
Proof. unfold nodes. by rewrite <-app_assoc. Qed.
Lemma pos_cons l B : ∃ C, B ++ [tail_of l] = pos l B :: C.
Proof. destruct B; simpl; eauto. Qed.
Lemma nodes_pos l A B : ∃ C, nodes l (A ++ B) = (head_of l :: A) ++ pos l B :: C.
Proof. destruct (pos_cons l B) as [C E]. exists C. unfold nodes. by rewrite <-app_assoc, E. Qed.
Lemma nodes_last l A B : ∃ P q C, head_of l :: A = P ++ [q] ∧
  nodes l (A ++ B) = P ++ q :: pos l B :: C.
Proof.
  destruct (nodes_pos l A B) as [C E].
  destruct (exists_last (l := head_of l :: A)) as (P & q & EP); [done|].
  exists P, q, C. split; [done|]. by rewrite E, EP, <-app_assoc.
Qed.

Lemma rep_prev {h l A x B} : list_rep h l (A ++ x :: B) → prv h (pos l B) = Some x ∧ nxt h x = Some (pos l B).
Proof.
  intros Hrep. destruct (pos_cons l B) as [C E].
  destruct (rep_link Hrep (head_of l :: A) x (pos l B) C) as (? & ? & ? & ?); [|done].
  by rewrite nodes_cut, E.
Qed.
Lemma rep_prev_pos {h l A B} : list_rep h l (A ++ B) →
  ∃ P q, head_of l :: A = P ++ [q] ∧ q ≠ NULL ∧ prv h (pos l B) = Some q ∧ nxt h q = Some (pos l B).
Proof.
  intros Hrep. destruct (nodes_last l A B) as (P & q & C & EP & E).
  exists P, q. split; [done|]. by destruct (rep_link Hrep _ _ _ _ E) as (? & ? & ? & ?).
Qed.
Lemma rep_pos_next {h l A B} : list_rep h l (A ++ B) →
  pos l B ≠ NULL ∧ ∃ n, nxt h (pos l B) = Some n ∧ (n = NULL ↔ B = []).
Proof.
  intros Hrep. destruct B as [|x B]; simpl.
  - split; [by apply (rep_tail_nonnull Hrep)|]. exists NULL. by rewrite (rep_tail _ _ _ Hrep).
  - split; [apply (rep_node_nonnull Hrep); set_solver|].
    exists (pos l B). rewrite (proj2 (rep_prev Hrep)). split; [done|].
    split; [|done]. intros E.
    exfalso. destruct (pos_cons l B) as [C EC].
    destruct (rep_link Hrep (head_of l :: A) x (pos l B) C) as (_ & Hn & _); [by rewrite nodes_cut, EC|done].
Qed.
Lemma rep_pos_end {h l A B} : list_rep h l (A ++ B) → (pos l B =? tail_of l) = bool_decide (B = []).
Proof.
  intros Hrep. destruct B as [|x B]; simpl; [by rewrite Z.eqb_refl|].
  apply Z.eqb_neq. intros ->. pose proof (rep_nodup _ _ _ Hrep) as Hnd.
  rewrite nodes_cut in Hnd. apply list.NoDup_app in Hnd as (_ & _ & Hnd). inversion Hnd; subst. set_solver.
Qed.

(** ** Links after writes *)

Lemma nxt_upd_next_eq p v h : is_Some (h !! p) → nxt (upd_next p v h) p = Some v.
Proof. intros [e He]. rewrite nxt_upd_next, He. by case_decide. Qed.
Lemma nxt_upd_next_ne p v h q : p ≠ q → nxt (upd_next p v h) q = nxt h q.
Proof. intros. rewrite nxt_upd_next. by case_decide. Qed.
Lemma prv_upd_prev_eq p v h : is_Some (h !! p) → prv (upd_prev p v h) p = Some v.
Proof. intros [e He]. rewrite prv_upd_prev, He. by case_decide. Qed.
Lemma prv_upd_prev_ne p v h q : p ≠ q → prv (upd_prev p v h) q = prv h q.
Proof. intros. rewrite prv_upd_prev. by case_decide. Qed.

Ltac some := repeat first [rewrite upd_next_is_Some | rewrite upd_prev_is_Some]; first [done | by eexists].
(** Computes the links of a node in a store with pending writes; needs the
    inequalities between nodes as hypotheses. *)
Ltac links :=
  repeat first
    [ rewrite nxt_upd_prev | rewrite prv_upd_next
    | rewrite nxt_upd_next_ne by congruence | rewrite nxt_upd_next_eq by some
    | rewrite prv_upd_prev_ne by congruence | rewrite prv_upd_prev_eq by some ].
(** Drops writes to nodes that a chain does not depend on. *)
Ltac frames :=
  repeat first
    [ rewrite chain_frame_next_out by assumption | rewrite chain_frame_prev_out by assumption
    | rewrite chain_frame_next by assumption | rewrite chain_frame_prev by assumption ].

(** One step of the code: node tests, reads and writes, with the links computed. *)
Ltac code_step :=
  match goal with
  | |- runs (assert ?b) _ _ =>
      apply runs_assert; [first [done | by apply negb_true_iff, Z.eqb_neq]|]
  | |- runs (get_prev _) _ _ => eapply runs_get_prev; [try done|links; try done|cbv beta]
  | |- runs (get_next _) _ _ => eapply runs_get_next; [try done|links; try done|cbv beta]
  | |- runs (set_prev _ _) _ _ => eapply runs_set_prev; [try done|try some|cbv beta]
  | |- runs (set_next _ _) _ _ => eapply runs_set_next; [try done|try some|cbv beta]
  | _ => run_step
  end.
Ltac code := repeat (code_step; cbv beta).

Lemma runs_assertM (m : M store bool) h (Q : unit → store → Prop) :
  runs m h (λ b h', b = true ∧ Q tt h') → runs (assertM m) h Q.
Proof. intros H. unfold assertM. run. eapply runs_mono; [done|]. intros b h' [-> ?]. done. Qed.

(** The assertions on nodes hold for the nodes they are meant for. *)
Lemma assert_before h l A B (Q : unit → store → Prop) :
  list_rep h l (A ++ B) → Q tt h →
  runs (assertM (orM (is_interior (pos l B)) (is_tail (pos l B)))) h Q.
Proof.
  intros Hrep HQ. destruct (rep_prev_pos Hrep) as (P & q & _ & Hq & Hp & _).
  destruct (rep_pos_next Hrep) as (Hnn & n & Hn & _).
  apply runs_assertM. unfold orM. run. eapply runs_is_interior; [done..|].
  destruct (Z.eqb_spec q NULL); [done|]. destruct (Z.eqb_spec n NULL) as [->|]; simpl.
  - eapply runs_is_tail; [done..|]. destruct (Z.eqb_spec q NULL); done.
  - by apply runs_ret.
Qed.

Lemma runs_is_interior_node h l A x B (Q : bool → store → Prop) :
  list_rep h l (A ++ x :: B) → Q true h → runs (is_interior x) h Q.
Proof.
  intros Hrep HQ. destruct (rep_prev_pos Hrep) as (P & q & _ & Hq & Hp & _).
  destruct (rep_pos_next Hrep) as (Hnn & n & Hn & HB). simpl in *.
  eapply runs_is_interior; [done..|]. replace (_ && _) with true; [done|].
  destruct (Z.eqb_spec q NULL); [done|]. destruct (Z.eqb_spec n NULL); [|done]. by apply HB in e.
Qed.

(** ** Moving along a list *)

Lemma list_next_node h l A x B (Q : Z → store → Prop) :
  list_rep h l (A ++ x :: B) → Q (pos l B) h → runs (list_next x) h Q.
Proof.
  intros Hrep HQ. destruct (rep_prev_pos Hrep) as (P & q & _ & Hq & Hp & _).
  destruct (rep_pos_next Hrep) as (Hnn & _). simpl in *. destruct (rep_prev Hrep) as [_ Hn].
  unfold list_next. run. apply runs_assertM. unfold orM. run.
  eapply runs_is_head; [done..|]. destruct (Z.eqb_spec q NULL); [done|]. simpl.
  eapply runs_is_interior_node; [done|]. split; [done|].
  by eapply runs_get_next.
Qed.

Lemma list_prev_node h l A x B (Q : Z → store → Prop) :
  list_rep h l (A ++ x :: B) → Q x h → runs (list_prev (pos l B)) h Q.
Proof.
  intros Hrep HQ. pose proof (rep_prev Hrep) as [Hp _].
  replace (A ++ x :: B) with ((A ++ [x]) ++ B) in Hrep by (by rewrite <-app_assoc).
  destruct (rep_pos_next Hrep) as [? _].
  unfold list_prev. run. eapply assert_before; [done|]. by eapply runs_get_prev.
Qed.

Lemma list_next_head h l xs (Q : Z → store → Prop) :
  list_rep h l xs → Q (pos l xs) h → runs (list_next (head_of l)) h Q.
Proof.
  intros Hrep HQ. pose proof (rep_list_nonnull Hrep).
  destruct (rep_prev_pos (A := []) Hrep) as (P & q & EP & _ & _ & Hn).
  assert (q = head_of l) as -> by (destruct P as [|? []]; simplify_eq/=; done).
  destruct (rep_pos_next (A := []) Hrep) as (Hnn & _).
  unfold list_next. run. apply runs_assertM. unfold orM. run.
  eapply runs_is_head; [done|apply Hrep|done|].
  destruct (Z.eqb_spec (pos l xs) NULL); [done|]. simpl. run. split; [done|].
  by eapply runs_get_next.
Qed.

Lemma list_begin_spec h l xs (Q : Z → store → Prop) :
  list_rep h l xs → Q (pos l xs) h → runs (list_begin l) h Q.
Proof.
  intros Hrep HQ. pose proof (rep_list_nonnull Hrep).
  destruct (rep_prev_pos (A := []) Hrep) as (P & q & EP & _ & _ & Hn).
  assert (q = head_of l) as -> by (destruct P as [|? []]; simplify_eq/=; done).
  unfold list_begin. by code.
Qed.

Lemma list_end_spec (h : store) l (Q : Z → store → Prop) :
  l ≠ NULL → Q (tail_of l) h → runs (list_end l) h Q.
Proof. intros. unfold list_end. by code. Qed.

Lemma list_empty_spec h l xs (Q : bool → store → Prop) :
  list_rep h l xs → Q (bool_decide (xs = [])) h → runs (list_empty l) h Q.
Proof.
  intros Hrep HQ. unfold list_empty. run. eapply list_begin_spec; [done|]. run.
  apply list_end_spec; [by apply (rep_list_nonnull Hrep)|]. run.
  by rewrite (rep_pos_end (A := []) Hrep).
Qed.

(** ** Initialisation, insertion, removal *)

(** The writes made so far are to nodes of the given list. *)
Ltac outside :=
  repeat first [apply same_outside_refl | apply same_outside_upd_next | apply same_outside_upd_prev];
  set_solver.

Lemma list_init_spec h l :
  l ≠ NULL → tail_of l ≠ NULL → is_Some (h !! head_of l) → is_Some (h !! tail_of l) →
  runs (list_init l) h (λ _ h', list_rep h' l [] ∧ same_outside (nodes l []) h h').
Proof.
  intros Hl Ht Sl St. assert (head_of l ≠ tail_of l) by (unfold head_of, tail_of; lia).
  unfold list_init. code. split; [split|unfold nodes; outside].
  - simpl. by links.
  - by links.
  - by links.
  - simpl. repeat constructor; set_solver.
  - unfold nodes, head_of in *. set_solver.
Qed.

(** The nodes around a position: [q] before it, [pos l B] after it. *)
Lemma nodes_split l A B : ∃ P q C,
  head_of l ∈ P ++ [q] ∧ tail_of l ∈ pos l B :: C ∧
  ∀ X, nodes l (A ++ X ++ B) = P ++ q :: X ++ pos l B :: C.
Proof.
  destruct (exists_last (l := head_of l :: A)) as (P & q & EP); [done|].
  destruct (pos_cons l B) as [C EC]. exists P, q, C. split_and!.
  - rewrite <-EP. set_solver.
  - rewrite <-EC. set_solver.
  - intros X. unfold nodes. rewrite <-!app_assoc, EC.
    change (head_of l :: A ++ X ++ pos l B :: C) with ((head_of l :: A) ++ X ++ pos l B :: C).
    by rewrite EP, <-app_assoc.
Qed.

Lemma elem_ne (x y : Z) (X : list Z) : x ∈ X → y ∉ X → x ≠ y.
Proof. by intros ? ? ->. Qed.

(** Cutting a list of distinct nodes between [q] and [b]. *)
Lemma NoDup_cut (P : list Z) q b C : NoDup (P ++ q :: b :: C) →
  q ∉ P ∧ b ∉ P ++ [q] ∧ q ∉ b :: C ∧ b ∉ C ∧ q ≠ b ∧ q ∉ C.
Proof.
  intros (_ & Hdisj & Hnd)%list.NoDup_app.
  apply list.NoDup_cons in Hnd as (HqC & Hnd). apply list.NoDup_cons in Hnd as (HbC & HndC).
  pose proof HqC as [? ?]%not_elem_of_cons. split_and!; try done.
  - intros HP. apply (Hdisj _ HP), list_elem_of_here.
  - intros [HP| ->%list_elem_of_singleton]%elem_of_app; [|done].
    apply (Hdisj _ HP), list_elem_of_further, list_elem_of_here.
Qed.
Lemma not_elem_cut (x : Z) P q b C : x ∉ P ++ q :: b :: C →
  x ∉ P ++ [q] ∧ x ∉ b :: C ∧ x ≠ q ∧ x ≠ b.
Proof. rewrite !not_elem_of_app, !not_elem_of_cons. intros (? & ? & ? & ?). split_and!; auto using not_elem_of_nil. Qed.

Lemma list_insert_spec h l A B x :
  list_rep h l (A ++ B) → x ≠ NULL → x ∉ nodes l (A ++ B) → is_Some (h !! x) →
  runs (list_insert (pos l B) x) h (λ _ h',
    list_rep h' l (A ++ x :: B) ∧ same_outside (x :: nodes l (A ++ B)) h h').
Proof.
  intros Hrep Hx Hnew Sx. destruct (nodes_split l A B) as (P & q & C & Hhd & Htl & Eq).
  pose proof (Eq []) as E. simpl in E. pose proof (Eq [x]) as E'. simpl in E'.
  destruct (rep_link Hrep _ _ _ _ E) as (Hq & Hb & Hn & Hp).
  assert (is_Some (h !! q)) as Sq by (by eapply nxt_is_Some).
  assert (is_Some (h !! pos l B)) as Sb by (by eapply prv_is_Some).
  destruct (Hrep) as [Hc Hh Ht Hnd Hnn]. rewrite E in Hc, Hnd, Hnn, Hnew |- *.
  destruct (NoDup_cut _ _ _ _ Hnd) as (? & ? & ? & ? & ? & ?).
  destruct (not_elem_cut _ _ _ _ _ Hnew) as (? & ? & ? & ?).
  assert (head_of l ≠ x ∧ head_of l ≠ pos l B ∧ tail_of l ≠ x ∧ tail_of l ≠ q) as (? & ? & ? & ?)
    by (split_and!; eauto using elem_ne).
  apply chain_cut in Hc as (Hc1 & _ & _ & Hc2).
  unfold list_insert. run. eapply assert_before; [done|]. code.
  split; [split|outside]; rewrite ?E'.
  - apply chain_cut. split_and!; [by frames|by links|by links|].
    apply (chain_cut _ []). split_and!; [done|by links|by links|by frames].
  - by links.
  - by links.
  - change (P ++ q :: x :: pos l B :: C) with (P ++ [q] ++ x :: pos l B :: C).
    rewrite app_assoc, <-Permutation_middle, <-app_assoc. by constructor.
  - intros [?|[?|?]%elem_of_cons]%elem_of_app; [|congruence|set_solver]. apply Hnn. set_solver.
Qed.

Lemma list_remove_spec h l A x B :
  list_rep h l (A ++ x :: B) →
  runs (list_remove x) h (λ r h', r = pos l B ∧ list_rep h' l (A ++ B) ∧
    h' !! x = h !! x ∧ same_outside (nodes l (A ++ B)) h h').
Proof.
  intros Hrep. destruct (nodes_split l A B) as (P & q & C & Hhd & Htl & Eq).
  pose proof (Eq []) as E. simpl in E. pose proof (Eq [x]) as E'. simpl in E'.
  destruct (rep_link Hrep _ _ _ _ E') as (Hq & Hx & Hn & Hp).
  destruct (rep_prev Hrep) as [Hp' Hn']. destruct (rep_pos_next (A := A ++ [x]) (B := B)
    (h := h) (l := l)) as [Hb _]; [by rewrite <-app_assoc|].
  assert (is_Some (h !! q)) as Sq by (by eapply nxt_is_Some).
  assert (is_Some (h !! pos l B)) as Sb by (by eapply prv_is_Some).
  destruct (Hrep) as [Hc Hh Ht Hnd Hnn]. rewrite E' in Hc, Hnd, Hnn.
  destruct (NoDup_cut _ _ _ _ Hnd) as (? & Hx1 & Hq1 & Hx2 & ? & ?).
  assert (NoDup (P ++ q :: pos l B :: C)) as Hnd'.
  { change (P ++ q :: x :: pos l B :: C) with (P ++ [q] ++ x :: pos l B :: C) in Hnd.
    rewrite app_assoc, <-Permutation_middle, <-app_assoc in Hnd.
    exact (proj2 (proj1 (list.NoDup_cons _ _) Hnd)). }
  destruct (NoDup_cut _ _ _ _ Hnd') as (? & ? & ? & ? & ? & ?).
  assert (x ≠ pos l B) by (intros ->; apply Hx2, list_elem_of_here).
  assert (head_of l ≠ pos l B ∧ tail_of l ≠ q) as [? ?] by (split_and!; eauto using elem_ne).
  apply chain_cut in Hc as (Hc1 & _ & _ & Hc2). apply (chain_cut _ []) in Hc2 as (_ & _ & _ & Hc2).
  unfold list_remove. run. apply runs_assertM. eapply runs_is_interior_node; [done|]. split; [done|].
  code. split_and!; [done| |..].
  - split; rewrite ?E; [|by links..|done|].
    + apply chain_cut. split_and!; [by frames|by links|by links|by frames].
    + intros [?|[?|?]%elem_of_cons]%elem_of_app; [|congruence|]; apply Hnn; set_solver.
  - unfold upd_prev, upd_next. by rewrite !lookup_alter_ne by congruence.
  - rewrite E. outside.
Qed.

(** ** Moving a range of nodes *)

Lemma chain_join h X x y Y :
  chain h ((X ++ [x]) ++ y :: Y) ↔
    chain h (X ++ [x]) ∧ nxt h x = Some y ∧ prv h y = Some x ∧ chain h (y :: Y).
Proof. rewrite <-app_assoc. apply chain_cut. Qed.

(** A non-empty segment, seen from both ends. *)
Lemma segment_ends (X : list Z) : X ≠ [] → ∃ x xt xi xl, X = x :: xt ∧ X = xi ++ [xl].
Proof.
  intros HX. destruct X as [|x xt] eqn:E; [done|]. rewrite <-E in *.
  destruct (exists_last HX) as (xi & xl & EX). exists x, xt, xi, xl. by rewrite E in *.
Qed.

Lemma NoDup_app_ne (X Y : list Z) x y : NoDup (X ++ Y) → x ∈ X → y ∈ Y → x ≠ y.
Proof. intros (_ & H & _)%list.NoDup_app Hx Hy ->. by eapply H. Qed.
Lemma NoDup_snoc (X : list Z) x : NoDup (X ++ [x]) → x ∉ X.
Proof. intros (_ & H & _)%list.NoDup_app Hx. apply (H _ Hx), list_elem_of_here. Qed.

(** The nodes [B] and [C] of a chain change places. *)
Section relink.
Context (h : store) (P : list Z) (q b bl c cl d : Z) (Bt Bi Ct Ci D : list Z).
Context (EB : b :: Bt = Bi ++ [bl]) (EC : c :: Ct = Ci ++ [cl]).
Context (Hnd : NoDup ((P ++ [q]) ++ (b :: Bt) ++ (c :: Ct) ++ d :: D)).
Context (Hc : chain h ((P ++ [q]) ++ (b :: Bt) ++ (c :: Ct) ++ d :: D)).

Definition relinked : store :=
  upd_prev b cl (upd_next q c (upd_next cl b (upd_prev c q (upd_prev d bl (upd_next bl d h))))).

Lemma relink_links :
  (nxt h q = Some b ∧ prv h b = Some q) ∧ (nxt h bl = Some c ∧ prv h c = Some bl) ∧
  (nxt h cl = Some d ∧ prv h d = Some cl) ∧
  chain h (P ++ [q]) ∧ chain h (b :: Bt) ∧ chain h (c :: Ct) ∧ chain h (d :: D).
Proof using EB EC Hc.
  clear Hnd. simpl in Hc. apply chain_join in Hc as (? & ? & ? & Hc2).
  change (b :: Bt ++ c :: Ct ++ d :: D) with ((b :: Bt) ++ (c :: Ct ++ d :: D)) in Hc2.
  rewrite EB in Hc2. apply chain_join in Hc2 as (? & ? & ? & Hc3).
  change (c :: Ct ++ d :: D) with ((c :: Ct) ++ d :: D) in Hc3.
  rewrite EC in Hc3. apply chain_join in Hc3 as (? & ? & ? & ?). rewrite EB, EC. tauto.
Qed.

Lemma relink_apart :
  q ∉ P ∧ bl ∉ Bi ∧ cl ∉ Ci ∧ b ∉ Bt ∧ c ∉ Ct ∧ d ∉ D ∧
  (q ≠ b ∧ q ≠ bl ∧ q ≠ c ∧ q ≠ cl ∧ q ≠ d) ∧
  (b ≠ c ∧ b ≠ cl ∧ b ≠ d ∧ bl ≠ c ∧ bl ≠ cl ∧ bl ≠ d) ∧ (c ≠ d ∧ cl ≠ d).
Proof using EB EC Hnd.
  clear Hc. pose proof Hnd as (H1 & D1 & H2)%list.NoDup_app.
  pose proof H2 as (H3 & D2 & H4)%list.NoDup_app. pose proof H4 as (H5 & D3 & H6)%list.NoDup_app.
  assert (b ∈ b :: Bt ∧ bl ∈ b :: Bt ∧ c ∈ c :: Ct ∧ cl ∈ c :: Ct) as (Mb & Mbl & Mc & Mcl).
  { split_and!; try apply list_elem_of_here; rewrite ?EB, ?EC; apply elem_of_app; right;
      apply list_elem_of_here. }
  assert (∀ x, x ∈ b :: Bt ∨ x ∈ c :: Ct ∨ x = d → q ≠ x) as Hq.
  { intros x Hx ->. apply (D1 x); [apply elem_of_app; right; apply list_elem_of_here|].
    rewrite !elem_of_app. destruct Hx as [?|[?| ->]]; [tauto..|]. do 2 right. apply list_elem_of_here. }
  assert (∀ x y, x ∈ b :: Bt → y ∈ c :: Ct ∨ y = d → x ≠ y) as HB.
  { intros x y Hx Hy ->. apply (D2 y Hx). rewrite elem_of_app.
    destruct Hy as [?| ->]; [tauto|]. right. apply list_elem_of_here. }
  assert (∀ x, x ∈ c :: Ct → x ≠ d) as HC.
  { intros x Hx ->. apply (D3 d Hx), list_elem_of_here. }
  split_and!; eauto 6;
    try (by apply list.NoDup_cons in H3 as []); try (by apply list.NoDup_cons in H5 as []);
    try (by apply list.NoDup_cons in H6 as []).
  - by apply NoDup_snoc.
  - rewrite EB in H3. by apply NoDup_snoc.
  - rewrite EC in H5. by apply NoDup_snoc.
Qed.

(** A node of one segment is in no other. *)
Lemma relink_out x :
  (x ∈ P ++ [q] → x ∉ b :: Bt ∧ x ∉ c :: Ct ∧ x ∉ d :: D) ∧
  (x ∈ b :: Bt → x ∉ P ++ [q] ∧ x ∉ c :: Ct ∧ x ∉ d :: D) ∧
  (x ∈ c :: Ct → x ∉ P ++ [q] ∧ x ∉ b :: Bt ∧ x ∉ d :: D) ∧
  (x ∈ d :: D → x ∉ P ++ [q] ∧ x ∉ b :: Bt ∧ x ∉ c :: Ct).
Proof using Hnd.
  clear Hc EB EC. pose proof Hnd as (H1 & D1 & H2)%list.NoDup_app.
  pose proof H2 as (H3 & D2 & H4)%list.NoDup_app. pose proof H4 as (H5 & D3 & H6)%list.NoDup_app.
  specialize (D1 x). specialize (D2 x). specialize (D3 x).
  rewrite !not_elem_of_app in D1. rewrite not_elem_of_app in D2. tauto.
Qed.

Lemma frame_last h' ns X x v : ns = X ++ [x] → x ∉ X → chain (upd_next x v h') ns ↔ chain h' ns.
Proof. intros -> ?. by apply chain_frame_next. Qed.

Lemma chain_relinked : chain relinked ((P ++ [q]) ++ (c :: Ct) ++ (b :: Bt) ++ d :: D).
Proof.
  destruct relink_links as ((L1 & L2) & (L3 & L4) & (L5 & L6) & C1 & C2 & C3 & C4).
  destruct relink_apart as (? & ? & ? & ? & ? & ? & (? & ? & ? & ? & ?) & (? & ? & ? & ? & ? & ?) & ? & ?).
  assert (b ∈ b :: Bt ∧ bl ∈ b :: Bt ∧ c ∈ c :: Ct ∧ cl ∈ c :: Ct) as (Mb & Mbl & Mc & Mcl).
  { split_and!; try apply list_elem_of_here; rewrite ?EB, ?EC; apply elem_of_app; right;
      apply list_elem_of_here. }
  destruct (relink_out q) as ((? & ? & ?) & _); [apply elem_of_app; right; apply list_elem_of_here|].
  destruct (proj1 (proj2 (relink_out b)) Mb) as (? & ? & ?).
  destruct (proj1 (proj2 (relink_out bl)) Mbl) as (? & ? & ?).
  destruct (proj1 (proj2 (proj2 (relink_out c))) Mc) as (? & ? & ?).
  destruct (proj1 (proj2 (proj2 (relink_out cl))) Mcl) as (? & ? & ?).
  destruct (proj2 (proj2 (proj2 (relink_out d)))) as (? & ? & ?); [apply list_elem_of_here|].
  assert (is_Some (h !! q) ∧ is_Some (h !! b) ∧ is_Some (h !! bl) ∧ is_Some (h !! c) ∧
    is_Some (h !! cl) ∧ is_Some (h !! d)) as (? & ? & ? & ? & ? & ?).
  { split_and!; eauto using nxt_is_Some, prv_is_Some. }
  unfold relinked. simpl.
  apply chain_join. split_and!; [by frames|by links|by links|].
  assert (chain relinked (c :: Ct)) as C3'.
  { unfold relinked. repeat first [rewrite (frame_last _ _ _ _ _ EC) by done | progress frames]. done. }
  assert (chain relinked (b :: Bt)) as C2'.
  { unfold relinked. repeat first [rewrite (frame_last _ _ _ _ _ EB) by done | progress frames]. done. }
  fold relinked. change (c :: Ct ++ b :: Bt ++ d :: D) with ((c :: Ct) ++ b :: Bt ++ d :: D).
  rewrite EC in C3' |- *. apply chain_join.
  split_and!; [done|unfold relinked; by links|unfold relinked; by links|].
  change (b :: Bt ++ d :: D) with ((b :: Bt) ++ d :: D). rewrite EB in C2' |- *. apply chain_join.
  split_and!; [done|unfold relinked; by links|unfold relinked; by links|].
  unfold relinked. by frames.
Qed.

End relink.

Lemma list_splice_spec h l A B C D :
  list_rep h l (A ++ B ++ C ++ D) → B ≠ [] → C ≠ [] →
  runs (list_splice (pos l (B ++ C ++ D)) (pos l (C ++ D)) (pos l D)) h (λ _ h',
    list_rep h' l (A ++ C ++ B ++ D) ∧ same_outside (nodes l (A ++ B ++ C ++ D)) h h').
Proof.
  intros Hrep HB HC.
  destruct (segment_ends B HB) as (b & Bt & Bi & bl & -> & EB).
  destruct (segment_ends C HC) as (c & Ct & Ci & cl & -> & EC).
  destruct (nodes_split l A D) as (P & q & D' & Hhd & Htl & Eq).
  pose proof (Eq ((b :: Bt) ++ c :: Ct)) as E. pose proof (Eq ((c :: Ct) ++ b :: Bt)) as E'.
  assert (∀ X Y, P ++ q :: (X ++ Y) ++ pos l D :: D' = (P ++ [q]) ++ X ++ Y ++ pos l D :: D') as Eassoc
    by (intros; by rewrite <-!app_assoc).
  rewrite Eassoc, <-app_assoc in E. rewrite Eassoc, <-app_assoc in E'. clear Eassoc Eq.
  destruct (Hrep) as [Hch Hh Ht Hnd Hnn]. rewrite E in Hch, Hnd, Hnn |- *.
  destruct (relink_links _ _ _ _ _ _ _ _ _ _ _ _ _ EB EC Hch) as ((L1 & L2) & (L3 & L4) & (L5 & L6) & _).
  destruct (relink_apart _ _ _ _ _ _ _ _ _ _ _ _ EB EC Hnd)
    as (_ & _ & _ & _ & _ & _ & (? & ? & ? & ? & ?) & (? & ? & ? & ? & ? & ?) & ? & ?).
  assert (is_Some (h !! q) ∧ is_Some (h !! b) ∧ is_Some (h !! bl) ∧ is_Some (h !! c) ∧
    is_Some (h !! cl) ∧ is_Some (h !! pos l D)) as (? & ? & ? & ? & ? & ?).
  { split_and!; eauto using nxt_is_Some, prv_is_Some. }
  assert (∀ x, x ∈ (P ++ [q]) ++ (b :: Bt) ++ (c :: Ct) ++ pos l D :: D' → x ≠ NULL) as Hne
    by (intros x ? ->; done).
  assert (q ∈ [q] ∧ b ∈ b :: Bt ∧ bl ∈ b :: Bt ∧ c ∈ c :: Ct ∧ cl ∈ c :: Ct ∧ pos l D ∈ pos l D :: D')
    as (Mq & Mb & Mbl & Mc & Mcl & Md).
  { split_and!; try apply list_elem_of_here; rewrite ?EB, ?EC; apply elem_of_app; right;
      apply list_elem_of_here. }
  assert (q ≠ NULL ∧ b ≠ NULL ∧ bl ≠ NULL ∧ c ≠ NULL ∧ cl ≠ NULL ∧ pos l D ≠ NULL)
    as (? & ? & ? & ? & ? & ?) by (split_and!; apply Hne; rewrite !elem_of_app; tauto).
  assert (A ++ (b :: Bt) ++ (c :: Ct) ++ D = (A ++ (b :: Bt) ++ Ci) ++ cl :: D) as Ecl
    by (by rewrite EC, <-!app_assoc).
  unfold list_splice. simpl pos. run.
  eapply (assert_before _ _ A (b :: Bt ++ c :: Ct ++ D)); [done|].
  destruct (Z.eqb_spec c (pos l D)); [done|]. run.
  eapply (list_prev_node _ _ (A ++ (b :: Bt) ++ Ci) cl D); [by rewrite <-Ecl|].
  run. apply runs_assertM. eapply (runs_is_interior_node _ _ (A ++ b :: Bt) c); [by rewrite <-app_assoc|].
  split; [done|]. run. apply runs_assertM.
  eapply (runs_is_interior_node _ _ (A ++ (b :: Bt) ++ Ci) cl D);
    [by rewrite <-Ecl|].
  split; [done|]. code.
  destruct (relink_out _ _ _ _ _ _ _ _ Hnd (head_of l)) as (Hhd' & _). specialize (Hhd' Hhd) as (? & ? & ?).
  destruct (relink_out _ _ _ _ _ _ _ _ Hnd (tail_of l)) as (_ & _ & _ & Htl'). specialize (Htl' Htl) as (? & ? & ?).
  assert (head_of l ≠ b ∧ head_of l ≠ c ∧ head_of l ≠ pos l D) as (? & ? & ?)
    by (split_and!; apply not_eq_sym; eauto using elem_ne).
  assert (q ∈ P ++ [q]) by (apply elem_of_app; tauto).
  assert (tail_of l ≠ q ∧ tail_of l ≠ cl ∧ tail_of l ≠ bl) as (? & ? & ?)
    by (split_and!; apply not_eq_sym; eauto using elem_ne).
  split; [split|].
  - rewrite E'. apply (chain_relinked _ _ _ _ _ _ _ _ _ _ _ _ _ EB EC Hnd Hch).
  - by links.
  - by links.
  - rewrite E', (app_assoc (c :: Ct)), (Permutation_app_comm (c :: Ct) (b :: Bt)), <-(app_assoc (b :: Bt)). exact Hnd.
  - rewrite E'. rewrite !not_elem_of_app in *. tauto.
  - repeat first [apply same_outside_refl | apply same_outside_upd_next | apply same_outside_upd_prev];
      rewrite !elem_of_app; tauto.
Qed.
