(* ===== verification/CString.v ===== *)
(** * Blocks of memory and strings (src/pintos/src/lib/string.c)

    The memory is an array of bytes and an address an index into it; an access
    outside is undefined.  A loop over a block is counted by its size, a loop
    over a string may run as often as there are bytes.  ([strtok_r] is in
    Directory.v, which uses it.) *)

From S2P Require Import Prelude KList.

Abbreviation mem := (list Z).
Definition byte_at (p : Z) : M mem Z := m ← get; lift (rd m p).
Definition set_byte (p v : Z) : M mem unit := m ← get; m ← lift (wr m p v); put m.
(** [ASSERT (p != NULL || size == 0)]. *)
Definition block_arg (p size : Z) : M mem unit := assert (negb (p =? NULL) || (size =? 0)).
Definition string_arg (p : Z) : M mem unit := assert (negb (p =? NULL)).

(** ** Blocks *)

(** [while (size-- > 0) *dst++ = *src++] and its mirror image. *)
Fixpoint copy_up (size : nat) (dst src : Z) : M mem unit :=
  match size with
  | O => mret tt
  | S size => b ← byte_at src; set_byte dst b;; copy_up size (dst + 1) (src + 1)
  end.
Fixpoint copy_down (size : nat) (dst src : Z) : M mem unit :=
  match size with
  | O => mret tt
  | S size => b ← byte_at (src - 1); set_byte (dst - 1) b;; copy_down size (dst - 1) (src - 1)
  end.

Definition memcpy (dst src size : Z) : M mem Z :=
  block_arg dst size;; block_arg src size;; copy_up (Z.to_nat size) dst src;; mret dst.

(** The result is the variable [dst] after the loop. *)
Definition memmove (dst src size : Z) : M mem Z :=
  block_arg dst size;; block_arg src size;;
  if dst <? src then copy_up (Z.to_nat size) dst src;; mret (dst + size)
  else copy_down (Z.to_nat size) (dst + size) (src + size);; mret dst.

Fixpoint compare_blocks (size : nat) (a b : Z) : M mem Z :=
  match size with
  | O => mret 0
  | S size =>
      x ← byte_at a; y ← byte_at b;
      if negb (x =? y) then mret (if y <? x then 1 else -1) else compare_blocks size (a + 1) (b + 1)
  end.
Definition memcmp (a b size : Z) : M mem Z := block_arg a size;; block_arg b size;; compare_blocks (Z.to_nat size) a b.

Fixpoint find_byte (size : nat) (p ch : Z) : M mem Z :=
  match size with
  | O => mret NULL
  | S size => x ← byte_at p; if x =? ch then mret p else find_byte size (p + 1) ch
  end.
Definition memchr (p ch size : Z) : M mem Z := block_arg p size;; find_byte (Z.to_nat size) p (u8 ch).

Fixpoint fill (size : nat) (p v : Z) : M mem unit :=
  match size with
  | O => mret tt
  | S size => set_byte p v;; fill size (p + 1) v
  end.
Definition memset (p value size : Z) : M mem Z := block_arg p size;; fill (Z.to_nat size) p (u8 value);; mret p.

(** ** Strings *)

(** As many turns as there are bytes in memory. *)
Definition for_string {A} (loop : nat → M mem A) : M mem A := m ← get; loop (S (length m)).

Fixpoint strlen_loop (fuel : nat) (p : Z) : M mem Z :=
  match fuel with
  | O => out_of_fuel
  | S fuel => c ← byte_at p; if c =? 0 then mret p else strlen_loop fuel (p + 1)
  end.
Definition strlen (p : Z) : M mem Z := string_arg p;; e ← for_string (λ fuel, strlen_loop fuel p); mret (e - p).

Fixpoint strnlen_loop (fuel : nat) (p length maxlen : Z) : M mem Z :=
  match fuel with
  | O => out_of_fuel
  | S fuel =>
      c ← byte_at (p + length);
      if negb (c =? 0) && (length <? maxlen) then strnlen_loop fuel p (length + 1) maxlen else mret length
  end.
Definition strnlen (p maxlen : Z) : M mem Z := for_string (λ fuel, strnlen_loop fuel p 0 maxlen).

Fixpoint strcmp_loop (fuel : nat) (a b : Z) : M mem Z :=
  match fuel with
  | O => out_of_fuel
  | S fuel =>
      x ← byte_at a; y ← byte_at b;
      if negb (x =? 0) && (x =? y) then strcmp_loop fuel (a + 1) (b + 1)
      else mret (if x <? y then -1 else if y <? x then 1 else 0)
  end.
Definition strcmp (a b : Z) : M mem Z := string_arg a;; string_arg b;; for_string (λ fuel, strcmp_loop fuel a b).

Fixpoint strchr_loop (fuel : nat) (p c : Z) : M mem Z :=
  match fuel with
  | O => out_of_fuel
  | S fuel => x ← byte_at p; if x =? c then mret p else if x =? 0 then mret NULL else strchr_loop fuel (p + 1) c
  end.
Definition strchr (p c : Z) : M mem Z := string_arg p;; for_string (λ fuel, strchr_loop fuel p (u8 c)).

(** [strcspn] and [strspn]: the length goes up while the next character is
    ([inside]) or is not in the set. *)
Fixpoint span_loop (fuel : nat) (inside : bool) (p set length : Z) : M mem Z :=
  match fuel with
  | O => out_of_fuel
  | S fuel =>
      c ← byte_at (p + length);
      if c =? 0 then mret length else
      q ← strchr set c;
      if eqb (q =? NULL) inside then mret length else span_loop fuel inside p set (length + 1)
  end.
Definition strcspn (p stop : Z) : M mem Z := for_string (λ fuel, span_loop fuel false p stop 0).
Definition strspn (p skip : Z) : M mem Z := for_string (λ fuel, span_loop fuel true p skip 0).

Fixpoint strpbrk_loop (fuel : nat) (p stop : Z) : M mem Z :=
  match fuel with
  | O => out_of_fuel
  | S fuel =>
      c ← byte_at p;
      if c =? 0 then mret NULL else q ← strchr stop c; if negb (q =? NULL) then mret p else strpbrk_loop fuel (p + 1) stop
  end.
Definition strpbrk (p stop : Z) : M mem Z := for_string (λ fuel, strpbrk_loop fuel p stop).

Fixpoint strrchr_loop (fuel : nat) (string c p : Z) : M mem Z :=
  match fuel with
  | O => out_of_fuel
  | S fuel => x ← byte_at string; if x =? 0 then mret p else strrchr_loop fuel (string + 1) c (if x =? c then string else p)
  end.
Definition strrchr (string c : Z) : M mem Z := for_string (λ fuel, strrchr_loop fuel string (u8 c) NULL).

(** [for (i = 0; i <= haystack_len - needle_len; i++)], [n] turns left. *)
Fixpoint strstr_loop (n : nat) (haystack needle needle_len i : Z) : M mem Z :=
  match n with
  | O => mret NULL
  | S n => r ← memcmp (haystack + i) needle needle_len; if r =? 0 then mret (haystack + i) else strstr_loop n haystack needle needle_len (i + 1)
  end.
Definition strstr (haystack needle : Z) : M mem Z :=
  haystack_len ← strlen haystack;
  needle_len ← strlen needle;
  if needle_len <=? haystack_len then strstr_loop (Z.to_nat (haystack_len - needle_len + 1)) haystack needle needle_len 0 else mret NULL.

Definition strlcpy (dst src size : Z) : M mem Z :=
  string_arg dst;; string_arg src;;
  src_len ← strlen src;
  (if 0 <? size then
     let dst_len := if src_len <? size - 1 then src_len else size - 1 in
     memcpy dst src dst_len;; set_byte (dst + dst_len) 0
   else mret tt);;
  mret src_len.

Definition strlcat (dst src size : Z) : M mem Z :=
  string_arg dst;; string_arg src;;
  src_len ← strlen src;
  dst_len ← strlen dst;
  (if (0 <? size) && (dst_len <? size) then
     let copy_cnt := if src_len <? size - dst_len - 1 then src_len else size - dst_len - 1 in
     memcpy (dst + dst_len) src copy_cnt;; set_byte (dst + dst_len + copy_cnt) 0
   else mret tt);;
  mret (src_len + dst_len).

(** ** Copying *)

Lemma run_byte_at m p x (Q : Z → mem → Prop) : m@[p] = Some x → Q x m → runs (byte_at p) m Q.
Proof. intros Hp HQ. unfold byte_at. run. rewrite (rd_Some _ _ _ Hp). by run. Qed.
Lemma run_set_byte m p v (Q : unit → mem → Prop) : 0 ≤ p < zlen m → Q tt (m@[p := v]) → runs (set_byte p v) m Q.
Proof. intros Hp HQ. unfold set_byte. run. rewrite wr_in by done. by run. Qed.

(** The [size] bytes at [dst] are those that were at [src]; the rest is as it was. *)
Definition copied (m m' : mem) (dst src size : Z) : Prop :=
  zlen m' = zlen m ∧ ∀ j, m'@[j] = if (dst <=? j) && (j <? dst + size) then m@[src + (j - dst)] else m@[j].

Lemma copy_up_spec size : ∀ m dst src, 0 ≤ dst → 0 ≤ src → dst + Z.of_nat size ≤ zlen m → src + Z.of_nat size ≤ zlen m →
  (dst ≤ src ∨ src + Z.of_nat size ≤ dst) → runs (copy_up size dst src) m (λ _ m', copied m m' dst src (Z.of_nat size)).
Proof.
  induction size as [|size IH]; intros m dst src Hd Hs Hdl Hsl Hov; cbn [copy_up].
  { run. split; [done|]. intros j. destruct (Z.leb_spec dst j), (Z.ltb_spec j (dst + Z.of_nat 0)); done || lia. }
  destruct (zlookup_lt m src) as [b Hb]; [lia|]. apply runs_bind, (run_byte_at _ _ b); [done|]. apply runs_bind, run_set_byte; [lia|].
  eapply runs_mono; [apply IH; rewrite ?zlen_insert; lia|]. intros [] m' [Hl Hm]. split; [by rewrite Hl, zlen_insert|]. intros j. rewrite Hm.
  destruct (decide (j = dst)) as [->|Hne].
  - destruct (Z.leb_spec (dst + 1) dst), (Z.leb_spec dst dst), (Z.ltb_spec dst (dst + Z.of_nat (S size))); try lia. cbn [andb].
    rewrite zlookup_insert_eq by lia. rewrite <-Hb. f_equal. lia.
  - rewrite !zlookup_insert. destruct (Z.eqb_spec dst (src + 1 + (j - (dst + 1)))) as [E|E], (Z.eqb_spec dst j); try lia; cbn [andb].
    + destruct (Z.leb_spec (dst + 1) j), (Z.leb_spec dst j), (Z.ltb_spec j (dst + 1 + Z.of_nat size)), (Z.ltb_spec j (dst + Z.of_nat (S size))); cbn [andb]; try lia; done.
    + destruct (Z.leb_spec (dst + 1) j), (Z.leb_spec dst j), (Z.ltb_spec j (dst + 1 + Z.of_nat size)), (Z.ltb_spec j (dst + Z.of_nat (S size))); cbn [andb]; try lia; try done. f_equal. lia.
Qed.
Lemma copy_down_spec size : ∀ m dst src, Z.of_nat size ≤ dst → Z.of_nat size ≤ src → dst ≤ zlen m → src ≤ zlen m → src ≤ dst →
  runs (copy_down size dst src) m (λ _ m', copied m m' (dst - Z.of_nat size) (src - Z.of_nat size) (Z.of_nat size)).
Proof.
  induction size as [|size IH]; intros m dst src Hd Hs Hdl Hsl Hov; cbn [copy_down].
  { run. split; [done|]. intros j. destruct (Z.leb_spec (dst - Z.of_nat 0) j), (Z.ltb_spec j (dst - Z.of_nat 0 + Z.of_nat 0)); done || lia. }
  destruct (zlookup_lt m (src - 1)) as [b Hb]; [lia|]. apply runs_bind, (run_byte_at _ _ b); [done|]. apply runs_bind, run_set_byte; [lia|].
  eapply runs_mono; [apply IH; rewrite ?zlen_insert; lia|]. intros [] m' [Hl Hm]. split; [by rewrite Hl, zlen_insert|]. intros j. rewrite Hm.
  replace (dst - 1 - Z.of_nat size) with (dst - Z.of_nat (S size)) by lia. replace (src - 1 - Z.of_nat size) with (src - Z.of_nat (S size)) by lia.
  set (d := dst - Z.of_nat (S size)). destruct (decide (j = dst - 1)) as [->|Hne].
  - destruct (Z.leb_spec d (dst - 1)), (Z.ltb_spec (dst - 1) (d + Z.of_nat size)), (Z.ltb_spec (dst - 1) (d + Z.of_nat (S size))); try lia. cbn [andb].
    rewrite zlookup_insert_eq by lia. rewrite <-Hb. f_equal. lia.
  - destruct (Z.leb_spec d j), (Z.ltb_spec j (d + Z.of_nat size)), (Z.ltb_spec j (d + Z.of_nat (S size))); cbn [andb]; try lia; by rewrite zlookup_insert_ne by lia.
Qed.
Lemma run_block_arg m p size (Q : unit → mem → Prop) : p ≠ NULL ∨ size = 0 → Q tt m → runs (block_arg p size) m Q.
Proof. intros Hp HQ. apply runs_assert; [|done]. destruct (Z.eqb_spec p NULL), (Z.eqb_spec size 0); naive_solver. Qed.
(** A block argument: an object of [size] bytes that is not at address 0. *)
Definition mem_block (m : mem) (p size : Z) : Prop := 0 < p ∧ 0 ≤ size ∧ p + size ≤ zlen m.
Lemma memcpy_spec m dst src size : mem_block m dst size → mem_block m src size → dst ≤ src ∨ src + size ≤ dst →
  runs (memcpy dst src size) m (λ r m', r = dst ∧ copied m m' dst src size).
Proof.
  intros (Hd & Hs & Hdl) (Hs' & _ & Hsl) Hov. unfold memcpy, NULL. apply runs_bind, run_block_arg; [left; unfold NULL; lia|]. apply runs_bind, run_block_arg; [left; unfold NULL; lia|].
  apply runs_bind. eapply runs_mono; [apply copy_up_spec; lia|]. intros [] m' Hc. rewrite Z2Nat.id in Hc by done. by run.
Qed.

(** [memmove] copies a block to a place that may overlap it: the
    destination then holds what the source held before the call, and no other
    byte of memory changes. *)
Theorem memmove_correct m dst src size : mem_block m dst size → mem_block m src size → runs (memmove dst src size) m (λ _ m', copied m m' dst src size).
Proof.
  intros (Hd & Hs & Hdl) (Hs' & _ & Hsl). unfold memmove. apply runs_bind, run_block_arg; [left; unfold NULL; lia|]. apply runs_bind, run_block_arg; [left; unfold NULL; lia|].
  destruct (Z.ltb_spec dst src).
  - apply runs_bind. eapply runs_mono; [apply copy_up_spec; lia|]. intros [] m' Hc. rewrite Z2Nat.id in Hc by done. by run.
  - apply runs_bind. eapply runs_mono; [apply copy_down_spec; lia|]. intros [] m' Hc. rewrite Z2Nat.id, !Z.add_simpl_r in Hc by done. by run.
Qed.
Lemma memmove_correct_witness : runs (memmove 2 1 3) [0; 10; 20; 30; 40] (λ _ m', m'@[2] = Some 10 ∧ m'@[3] = Some 20 ∧ m'@[4] = Some 30 ∧ m'@[1] = Some 10).
Proof.
  refine (runs_mono _ _ _ _ (memmove_correct [0; 10; 20; 30; 40] 2 1 3 _ _) _); [vm_compute; split_and!; (discriminate || reflexivity)..|].
  intros r m' [_ H]. rewrite !H. vm_compute. split_and!; reflexivity.
Defined.

(** ** Strings in memory *)

(** The string [s] is at [p], with its terminating zero. *)
Fixpoint str_at (m : mem) (p : Z) (s : list Z) : Prop :=
  match s with
  | [] => m@[p] = Some 0
  | c :: s => m@[p] = Some c ∧ is_u8 c ∧ c ≠ 0 ∧ str_at m (p + 1) s
  end.

Lemma str_at_app m p s t : str_at m p (s ++ t) → str_at m (p + zlen s) t.
Proof.
  revert p. induction s as [|c s IH]; intros p H; [by rewrite zlen_nil, Z.add_0_r|]. destruct H as (_ & _ & _ & H). rewrite zlen_cons, Z.add_assoc. by apply IH.
Qed.
Lemma str_at_end m p s : str_at m p s → m@[p + zlen s] = Some 0.
Proof. intros H. rewrite <-(app_nil_r s) in H. by apply str_at_app in H. Qed.
Lemma str_at_range m p s : 0 ≤ p → str_at m p s → p + zlen s < zlen m.
Proof. intros Hp H%str_at_end%zlookup_bound. lia. Qed.
Lemma str_at_lookup m p s i : str_at m p s → 0 ≤ i < zlen s → m@[p + i] = s@[i].
Proof.
  revert p i. induction s as [|c s IH]; intros p i H Hi; [unfold zlen in Hi; simpl in Hi; lia|]. destruct H as (Hc & _ & _ & H). rewrite zlen_cons in Hi.
  destruct (decide (i = 0)) as [->|]; [by rewrite Z.add_0_r|]. replace (p + i) with (p + 1 + (i - 1)) by lia. rewrite IH by (done || lia).
  unfold zlookup. destruct (Z.ltb_spec i 0), (Z.ltb_spec (i - 1) 0); try lia. replace (Z.to_nat i) with (S (Z.to_nat (i - 1))) by lia. done.
Qed.
Lemma str_at_intro m p s : Forall (λ c, is_u8 c ∧ c ≠ 0) s → (∀ i, 0 ≤ i < zlen s → m@[p + i] = s@[i]) → m@[p + zlen s] = Some 0 → str_at m p s.
Proof.
  intros Hs. revert p. induction Hs as [|c s [Hc Hnz] _ IH]; intros p Hi Hend; [by rewrite zlen_nil, Z.add_0_r in Hend|].
  pose proof (zlen_cons c s) as El. rewrite El in Hend. pose proof (zlen_nonneg s).
  split_and!; [|done|done|].
  - specialize (Hi 0). rewrite Z.add_0_r in Hi. by rewrite Hi by lia.
  - apply IH; [|by replace (p + 1 + zlen s) with (p + (1 + zlen s)) by lia]. intros i Hr. replace (p + 1 + i) with (p + (1 + i)) by lia. rewrite Hi by lia.
    unfold zlookup. destruct (Z.ltb_spec (1 + i) 0), (Z.ltb_spec i 0); try lia. by replace (Z.to_nat (1 + i)) with (S (Z.to_nat i)) by lia.
Qed.
Lemma str_at_chars m p s : str_at m p s → Forall (λ c, is_u8 c ∧ c ≠ 0) s.
Proof. revert p. induction s as [|c s IH]; intros p H; [constructor|]. destruct H as (_ & ? & ? & H). constructor; [done|by eapply IH]. Qed.
Lemma run_string_arg m p (Q : unit → mem → Prop) : 0 < p → Q tt m → runs (string_arg p) m Q.
Proof. intros Hp HQ. apply runs_assert; [|done]. destruct (Z.eqb_spec p NULL); [unfold NULL in *; lia|done]. Qed.
Lemma run_for_string {A} (loop : nat → M mem A) m Q : runs (loop (S (length m))) m Q → runs (for_string loop) m Q.
Proof. intros H. unfold for_string. by run. Qed.

(** The length. *)
Lemma strlen_loop_spec fuel : ∀ m p s, str_at m p s → zlen s < Z.of_nat fuel → runs (strlen_loop fuel p) m (λ r m', r = p + zlen s ∧ m' = m).
Proof.
  induction fuel as [|fuel IH]; intros m p s Hs Hf; [pose proof (zlen_nonneg s); lia|]. cbn [strlen_loop]. destruct s as [|c s].
  - apply runs_bind, (run_byte_at _ _ 0); [done|]. run. change (zlen (@nil Z)) with 0. split; [lia|done].
  - destruct Hs as (Hc & _ & Hnz & Hs). apply runs_bind, (run_byte_at _ _ c); [done|]. destruct (Z.eqb_spec c 0); [done|]. rewrite zlen_cons in *.
    eapply runs_mono; [apply (IH m (p + 1) s); [done|lia]|]. intros r m' [-> ->]. split; [lia|done].
Qed.
Lemma strlen_spec m p s : 0 < p → str_at m p s → runs (strlen p) m (λ r m', r = zlen s ∧ m' = m).
Proof.
  intros Hp Hs. pose proof (str_at_range m p s ltac:(lia) Hs) as Hr. unfold strlen. apply runs_bind, run_string_arg; [done|]. apply runs_bind, run_for_string.
  eapply runs_mono; [apply (strlen_loop_spec _ m p s Hs); unfold zlen in *; lia|]. intros r m' [-> ->]. run. split; [lia|done].
Qed.

(** The order of strings by their first difference. *)
Fixpoint lex (s t : list Z) : Z :=
  match s, t with
  | [], [] => 0
  | [], _ :: _ => -1
  | _ :: _, [] => 1
  | a :: s, b :: t => if a <? b then -1 else if b <? a then 1 else lex s t
  end.
Lemma lex_refl s : lex s s = 0.
Proof. induction s as [|a s IH]; [done|]. simpl. rewrite Z.ltb_irrefl. done. Qed.
Lemma lex_zero s t : lex s t = 0 ↔ s = t.
Proof.
  split; [|intros ->; apply lex_refl]. revert t. induction s as [|a s IH]; intros [|b t]; simpl; try done.
  destruct (Z.ltb_spec a b), (Z.ltb_spec b a); try done. intros E%IH. f_equal; [lia|done].
Qed.
Lemma lex_antisym s t : lex t s = - lex s t.
Proof. revert t. induction s as [|a s IH]; intros [|b t]; simpl; try done. destruct (Z.ltb_spec a b), (Z.ltb_spec b a); try lia. by apply IH. Qed.
Lemma lex_trans s t u : lex s t ≤ 0 → lex t u ≤ 0 → lex s u ≤ 0.
Proof.
  revert t u. induction s as [|a s IH]; intros [|b t] [|c u]; simpl; try lia.
  destruct (Z.ltb_spec a b), (Z.ltb_spec b a), (Z.ltb_spec b c), (Z.ltb_spec c b), (Z.ltb_spec a c), (Z.ltb_spec c a); try lia. apply IH.
Qed.
Lemma strcmp_loop_spec fuel : ∀ m a b s t, str_at m a s → str_at m b t → zlen s < Z.of_nat fuel → runs (strcmp_loop fuel a b) m (λ r m', r = lex s t ∧ m' = m).
Proof.
  induction fuel as [|fuel IH]; intros m a b s t Hs Ht Hf; [pose proof (zlen_nonneg s); lia|]. cbn [strcmp_loop].
  assert (∃ x, m@[a] = Some x ∧ match s with [] => x = 0 | c :: _ => x = c ∧ 0 < c end) as (x & Hx & Hxs) by (destruct s; simpl in Hs; unfold is_u8 in Hs; naive_solver lia).
  assert (∃ y, m@[b] = Some y ∧ match t with [] => y = 0 | c :: _ => y = c ∧ 0 < c end) as (y & Hy & Hyt) by (destruct t; simpl in Ht; unfold is_u8 in Ht; naive_solver lia).
  apply runs_bind, (run_byte_at _ _ x); [done|]. apply runs_bind, (run_byte_at _ _ y); [done|].
  destruct s as [|c s], t as [|c' t]; destruct_and?; subst; simpl.
  - by run.
  - destruct (Z.ltb_spec 0 c'); [|lia]. by run.
  - destruct (Z.eqb_spec c 0), (Z.ltb_spec c 0), (Z.ltb_spec 0 c); try lia. by run.
  - destruct (Z.eqb_spec c 0); [lia|]. simpl. destruct (Z.eqb_spec c c') as [->|Hne].
    + rewrite Z.ltb_irrefl. destruct Hs as (_ & _ & _ & Hs), Ht as (_ & _ & _ & Ht). rewrite zlen_cons in Hf. apply IH; [done|done|lia].
    + run. destruct (Z.ltb_spec c c'), (Z.ltb_spec c' c); try lia; done.
Qed.
(** [strcmp] compares strings by their first different characters: its
    result is negative, zero or positive as the first string comes before, is,
    or comes after the second in the order of their bytes, which is a total
    order. *)
Theorem strcmp_is_lexicographic m a b s t : 0 < a → 0 < b → str_at m a s → str_at m b t →
  runs (strcmp a b) m (λ r m', r = lex s t ∧ (r = 0 ↔ s = t) ∧ lex t s = - r ∧ (∀ u, r ≤ 0 → lex t u ≤ 0 → lex s u ≤ 0) ∧ m' = m).
Proof.
  intros Ha Hb Hs Ht. unfold strcmp. apply runs_bind, run_string_arg; [done|]. apply runs_bind, run_string_arg; [done|]. apply run_for_string.
  pose proof (str_at_range m a s ltac:(lia) Hs) as Hr. eapply runs_mono; [apply (strcmp_loop_spec _ m a b s t Hs Ht); unfold zlen in *; lia|].
  intros r m' [-> ->]. split_and!; [done|apply lex_zero|apply lex_antisym|intros u; apply lex_trans|done].
Qed.
Lemma strcmp_is_lexicographic_witness : runs (strcmp 1 4) [0; 97; 98; 0; 97; 99; 0] (λ r _, r = -1).
Proof.
  refine (runs_mono _ _ _ _ (strcmp_is_lexicographic [0; 97; 98; 0; 97; 99; 0] 1 4 [97; 98] [97; 99] _ _ _ _) _); [lia|lia|..].
  - simpl. unfold is_u8. split_and!; (reflexivity || lia).
  - simpl. unfold is_u8. split_and!; (reflexivity || lia).
  - intros r m' (-> & _). reflexivity.
Defined.

(** ** Copying strings *)

(** [s] was put at [p] with its terminating zero. *)
Definition string_put (m m' : mem) (p : Z) (s : list Z) : Prop :=
  zlen m' = zlen m ∧ str_at m' p s ∧ ∀ j, ¬ (p ≤ j ≤ p + zlen s) → m'@[j] = m@[j].
Lemma put_prefix m p q s n : str_at m q s → mem_block m p (n + 1) → 0 < q → 0 ≤ n ≤ zlen s → q + zlen s < p ∨ p + n < q →
  runs (memcpy p q n;; set_byte (p + n) 0) m (λ _ m', string_put m m' p (take (Z.to_nat n) s)).
Proof.
  intros Hs (Hp & _ & Hpl) Hq Hn Hov. pose proof (str_at_range m q s ltac:(lia) Hs) as Hr.
  assert (zlen (take (Z.to_nat n) s) = n) as Hl by (unfold zlen in *; rewrite length_take; lia). apply runs_bind.
  eapply runs_mono; [apply memcpy_spec; [split_and!; lia..|lia]|]. intros ? m1 [-> [Hl1 Hm1]]. apply run_set_byte; [lia|].
  split_and!; [by rewrite zlen_insert| |].
  - apply str_at_intro; rewrite ?Hl.
    + apply Forall_take. by eapply str_at_chars.
    + intros i Hi. rewrite zlookup_insert_ne by lia. rewrite Hm1. destruct (Z.leb_spec p (p + i)), (Z.ltb_spec (p + i) (p + n)); try lia. cbn [andb].
      replace (q + (p + i - p)) with (q + i) by lia. rewrite (str_at_lookup m q s) by (done || lia). unfold zlookup. destruct (Z.ltb_spec i 0); [done|]. rewrite lookup_take_lt by lia. done.
    + apply zlookup_insert_eq. lia.
  - intros j Hj. rewrite Hl in Hj. rewrite zlookup_insert_ne by lia. rewrite Hm1. destruct (Z.leb_spec p j), (Z.ltb_spec j (p + n)); try lia; done.
Qed.

(** [strlcpy] and [strlcat] into a buffer of [size] bytes never write outside
    it, leave a terminated string there with as much of the source as fits,
    and return the length the string would have with enough space. *)
Theorem strlcpy_strlcat_bounded m dst src size s t : 0 < src → str_at m src s → mem_block m dst size → src + zlen s < dst ∨ dst + size ≤ src →
  runs (strlcpy dst src size) m (λ r m', r = zlen s ∧
    if 0 <? size then string_put m m' dst (take (Z.to_nat (size - 1)) s) else m' = m) ∧
  (str_at m dst t → runs (strlcat dst src size) m (λ r m', r = zlen s + zlen t ∧
    if zlen t <? size then zlen m' = zlen m ∧ str_at m' dst (t ++ take (Z.to_nat (size - zlen t - 1)) s) ∧ (∀ j, ¬ (dst ≤ j < dst + size) → m'@[j] = m@[j])
    else m' = m)).
Proof.
  intros Hsrc Hs (Hd & Hsz & Hdl) Hov. pose proof (zlen_nonneg s) as Hs0. split.
  - unfold strlcpy. do 2 (apply runs_bind, run_string_arg; [done|]). apply runs_bind. eapply runs_mono; [by apply (strlen_spec m src s)|]. intros ? ? [-> ->].
    destruct (Z.ltb_spec 0 size) as [Hpos|]; [|by run]. set (n := if zlen s <? size - 1 then zlen s else size - 1).
    assert (n = zlen s `min` (size - 1)) as En by (unfold n; destruct (Z.ltb_spec (zlen s) (size - 1)); lia). apply runs_bind.
    eapply runs_mono; [apply (put_prefix m dst src s n Hs); [split_and!; lia|lia..]|]. intros [] m' Hm'. run. split; [done|].
    replace (take (Z.to_nat (size - 1)) s) with (take (Z.to_nat n) s); [done|]. rewrite En. unfold zlen. destruct (decide (Z.of_nat (length s) ≤ size - 1)).
    + rewrite !take_ge by lia. done.
    + f_equal. lia.
  - intros Ht. pose proof (zlen_nonneg t) as Ht0. unfold strlcat. do 2 (apply runs_bind, run_string_arg; [done|]). apply runs_bind. eapply runs_mono; [by apply (strlen_spec m src s)|]. intros ? ? [-> ->].
    apply runs_bind. eapply runs_mono; [by apply (strlen_spec m dst t)|]. intros ? ? [-> ->].
    destruct (Z.ltb_spec (zlen t) size) as [Hfit|]; [|rewrite andb_false_r; by run]. destruct (Z.ltb_spec 0 size); [|lia]. cbn [andb].
    set (n := if zlen s <? size - zlen t - 1 then zlen s else size - zlen t - 1).
    assert (n = zlen s `min` (size - zlen t - 1)) as En by (unfold n; destruct (Z.ltb_spec (zlen s) (size - zlen t - 1)); lia). apply runs_bind.
    eapply runs_mono; [apply (put_prefix m (dst + zlen t) src s n Hs); [split_and!; lia|lia..]|]. intros [] m' (Hl & Hstr & Hout). run. split; [done|].
    replace (take (Z.to_nat (size - zlen t - 1)) s) with (take (Z.to_nat n) s) by (rewrite En; unfold zlen in *; destruct (decide (Z.of_nat (length s) ≤ size - Z.of_nat (length t) - 1)); [rewrite !take_ge by lia|f_equal; lia]; done).
    assert (zlen (take (Z.to_nat n) s) = n) as Hln by (unfold zlen in *; rewrite length_take; lia). rewrite Hln in Hout.
    split_and!; [done| |intros j Hj; apply Hout; lia].
    apply str_at_intro; [apply Forall_app; split; [by eapply str_at_chars|by eapply str_at_chars]|..].
    + intros i. rewrite zlen_app, Hln. intros Hi. rewrite zlookup_app. destruct (Z.ltb_spec i (zlen t)); [rewrite Hout by lia; apply str_at_lookup; [done|lia]|].
      rewrite <-(str_at_lookup _ _ _ _ Hstr) by lia. f_equal. lia.
    + rewrite zlen_app, Z.add_assoc. by apply str_at_end.
Qed.
Lemma strlcpy_strlcat_bounded_witness : runs (strlcat 1 6 5) [0; 97; 0; 9; 9; 9; 98; 99; 100; 101; 0] (λ r m', r = 5 ∧ str_at m' 1 [97; 98; 99; 100]).
Proof.
  destruct (strlcpy_strlcat_bounded [0; 97; 0; 9; 9; 9; 98; 99; 100; 101; 0] 1 6 5 [98; 99; 100; 101] [97]) as [_ H].
  - lia.
  - simpl. unfold is_u8. split_and!; (reflexivity || lia).
  - vm_compute. split_and!; (discriminate || reflexivity).
  - right. lia.
  - refine (runs_mono _ _ _ _ (H _) _); [simpl; unfold is_u8; split_and!; (reflexivity || lia)|]. intros r m' (-> & _ & Hm & _). split; [reflexivity|exact Hm].
Defined.

(** ** Searching *)

(** The place of the first [c]. *)
Fixpoint index_of (c : Z) (s : list Z) : option Z :=
  match s with
  | [] => None
  | x :: s => if x =? c then Some 0 else Z.add 1 <$> index_of c s
  end.
Lemma strchr_spec m p c s : 0 < p → str_at m p s → is_u8 c → c ≠ 0 →
  runs (strchr p c) m (λ r m', r = match index_of c s with Some i => p + i | None => NULL end ∧ m' = m).
Proof.
  intros Hp Hs Hc Hnz. unfold strchr. apply runs_bind, run_string_arg; [done|]. apply run_for_string. unfold u8. rewrite Z.mod_small by done.
  pose proof (str_at_range m p s ltac:(lia) Hs) as Hr. assert (zlen s < Z.of_nat (S (length m))) as Hf by (unfold zlen in *; lia). clear Hr. revert Hf.
  generalize (S (length m)). intros fuel. clear Hp. revert p s Hs. induction fuel as [|fuel IH]; intros p s Hs Hf; [pose proof (zlen_nonneg s); lia|]. cbn [strchr_loop].
  destruct s as [|x s].
  - apply runs_bind, (run_byte_at _ _ 0); [done|]. destruct (Z.eqb_spec 0 c); [by subst|]. by run.
  - destruct Hs as (Hx & _ & Hxnz & Hs). apply runs_bind, (run_byte_at _ _ x); [done|]. simpl. destruct (Z.eqb_spec x c); [run; split; [lia|done]|].
    destruct (Z.eqb_spec x 0); [done|]. rewrite zlen_cons in Hf. eapply runs_mono; [apply (IH (p + 1) s); [done|lia]|]. intros r m' [-> ->]. split; [|done].
    destruct (index_of c s); simpl; [lia|done].
Qed.
Lemma compare_blocks_zero n : ∀ m a b, 0 ≤ a → 0 ≤ b → a + Z.of_nat n ≤ zlen m → b + Z.of_nat n ≤ zlen m →
  runs (compare_blocks n a b) m (λ r m', (r = 0 ↔ ∀ j, 0 ≤ j < Z.of_nat n → m@[a + j] = m@[b + j]) ∧ m' = m).
Proof.
  induction n as [|n IH]; intros m a b Ha Hb Hal Hbl; cbn [compare_blocks]; [run; split; [|done]; split; [lia|done]|].
  destruct (zlookup_lt m a) as [x Hx]; [lia|]. destruct (zlookup_lt m b) as [y Hy]; [lia|].
  apply runs_bind, (run_byte_at _ _ x); [done|]. apply runs_bind, (run_byte_at _ _ y); [done|]. destruct (Z.eqb_spec x y) as [->|Hne]; simpl.
  - eapply runs_mono; [apply IH; lia|]. intros r m' [Hr ->]. split; [|done]. rewrite Hr. split; intros H j Hj.
    + destruct (decide (j = 0)) as [->|]; [rewrite !Z.add_0_r; congruence|]. replace (a + j) with (a + 1 + (j - 1)) by lia. replace (b + j) with (b + 1 + (j - 1)) by lia. apply H. lia.
    + replace (a + 1 + j) with (a + (1 + j)) by lia. replace (b + 1 + j) with (b + (1 + j)) by lia. apply H. lia.
  - run. split; [|done]. split; [destruct (Z.ltb_spec y x); lia|]. intros H. specialize (H 0 ltac:(lia)). rewrite !Z.add_0_r, Hx, Hy in H. congruence.
Qed.
(** [t] occurs in [s] at [i]. *)
Definition occurs (s t : list Z) (i : Z) : Prop := ∀ j, 0 ≤ j < zlen t → s@[i + j] = t@[j].
Lemma strstr_spec m p q s t : 0 < p → 0 < q → str_at m p s → str_at m q t →
  runs (strstr p q) m (λ r m', m' = m ∧
    ((∃ i, r = p + i ∧ 0 ≤ i ≤ zlen s - zlen t ∧ occurs s t i ∧ ∀ j, 0 ≤ j < i → ¬ occurs s t j) ∨ (r = NULL ∧ ∀ i, 0 ≤ i ≤ zlen s - zlen t → ¬ occurs s t i))).
Proof.
  intros Hp Hq Hs Ht. unfold strstr. apply runs_bind. eapply runs_mono; [by apply strlen_spec|]. intros ? ? [-> ->]. apply runs_bind. eapply runs_mono; [by apply strlen_spec|]. intros ? ? [-> ->].
  pose proof (str_at_range m p s ltac:(lia) Hs). pose proof (str_at_range m q t ltac:(lia) Ht). pose proof (zlen_nonneg s). pose proof (zlen_nonneg t).
  destruct (Z.leb_spec (zlen t) (zlen s)); [|run; split; [done|right; split; [done|lia]]].
  assert (∀ n i, 0 ≤ i → i + Z.of_nat n = zlen s - zlen t + 1 → (∀ j, 0 ≤ j < i → ¬ occurs s t j) → runs (strstr_loop n p q (zlen t) i) m (λ r m', m' = m ∧
    ((∃ i, r = p + i ∧ 0 ≤ i ≤ zlen s - zlen t ∧ occurs s t i ∧ ∀ j, 0 ≤ j < i → ¬ occurs s t j) ∨ (r = NULL ∧ ∀ i, 0 ≤ i ≤ zlen s - zlen t → ¬ occurs s t i)))) as Hloop; [|by apply Hloop; lia].
  induction n as [|n IH]; intros i Hi Hn Hno; cbn [strstr_loop]; [run; split; [done|right; split; [done|]; intros j Hj; apply Hno; lia]|].
  apply runs_bind. unfold memcmp. do 2 (apply runs_bind, run_block_arg; [left; unfold NULL; lia|]). eapply runs_mono; [apply compare_blocks_zero; lia|].
  intros r ? [Hr ->]. rewrite Z2Nat.id in Hr by done. assert (r = 0 ↔ occurs s t i) as Hoc.
  { rewrite Hr. unfold occurs. split; intros Hj j Hjr; specialize (Hj j Hjr).
    - rewrite <-(str_at_lookup m p s), <-(str_at_lookup m q t) by (done || lia). by rewrite Z.add_assoc.
    - rewrite <-Z.add_assoc. rewrite (str_at_lookup m p s), (str_at_lookup m q t) by (done || lia). done. }
  destruct (Z.eqb_spec r 0) as [E|E].
  - run. split; [done|]. left. exists i. split_and!; [done|lia|lia|by apply Hoc|done].
  - apply IH; [lia|lia|]. intros j Hj. destruct (decide (j = i)) as [->|]; [by rewrite <-Hoc|]. apply Hno. lia.
Qed.

(** [strnlen] reads the byte after the [maxlen] bytes it may look at. *)
Lemma strnlen_reads_past : strnlen 1 2 [0; 97; 98] = Undef.
Proof. vm_compute. reflexivity. Qed.
