(* ===== verification/CStdlib.v ===== *)
(** * Sorting, searching and numbers (src/pintos/src/lib/stdlib.c)

    An array of [cnt] elements of [size] bytes is a list of [cnt] rows of bytes.
    The comparison function is a parameter; what the comments ask of it, to be
    a [strcmp]-type comparison, is the class [Comparison]. *)

From S2P Require Import Prelude KList CString.

Abbreviation row := (list Z).

(** ** Sorting *)

Definition cell (r i : Z) : M (list row) Z := l ← get; x ← lift (rd l r); lift (rd x i).
Definition set_cell (r i v : Z) : M (list row) unit :=
  l ← get; x ← lift (rd l r); x ← lift (wr x i v); l ← lift (wr l r x); put l.

(** [for (i = 0; i < size; i++)] of [do_swap], [n] turns left. *)
Fixpoint swap_loop (n : nat) (a b i : Z) : M (list row) unit :=
  match n with
  | O => mret tt
  | S n => t ← cell a i; u ← cell b i; set_cell a i u;; set_cell b i t;; swap_loop n a b (i + 1)
  end.
Definition do_swap (a_idx b_idx size : Z) : M (list row) unit := swap_loop (Z.to_nat size) (a_idx - 1) (b_idx - 1) 0.

Section sort.
Context (compare : row → row → Z).
Definition do_compare (a_idx b_idx : Z) : M (list row) Z :=
  l ← get; a ← lift (rd l (a_idx - 1)); b ← lift (rd l (b_idx - 1)); mret (compare a b).

Fixpoint heapify (fuel : nat) (i cnt size : Z) : M (list row) unit :=
  match fuel with
  | O => out_of_fuel
  | S fuel =>
      let left := 2 * i in
      let right := 2 * i + 1 in
      max ← (if left <=? cnt then c ← do_compare left i; mret (if 0 <? c then left else i) else mret i);
      max ← (if right <=? cnt then c ← do_compare right max; mret (if 0 <? c then right else max) else mret max);
      if max =? i then mret tt else do_swap i max size;; heapify fuel max cnt size
  end.
(** An element moves down at most [cnt] times. *)
Definition heapify_at (i cnt size : Z) : M (list row) unit := heapify (S (Z.to_nat cnt)) i cnt size.

(** The two loops of [sort], [i] counting down to 1 and to 2. *)
Fixpoint build_loop (i : nat) (cnt size : Z) : M (list row) unit :=
  match i with
  | O => mret tt
  | S i' => heapify_at (Z.of_nat i) cnt size;; build_loop i' cnt size
  end.
Fixpoint extract_loop (i : nat) (size : Z) : M (list row) unit :=
  match i with
  | O | 1%nat => mret tt
  | S i' => do_swap 1 (Z.of_nat i) size;; heapify_at 1 (Z.of_nat i - 1) size;; extract_loop i' size
  end.
Definition sort (cnt size : Z) : M (list row) unit :=
  assert (0 <? size);;
  build_loop (Z.to_nat (cnt `div` 2)) cnt size;;
  extract_loop (Z.to_nat cnt) size.
Definition qsort (cnt size : Z) : M (list row) unit := sort cnt size.

(** ** Searching *)

(** [first] and [last] are offsets in bytes; the result is an offset. *)
Fixpoint search_loop (fuel : nat) (key : row) (l : list row) (size first last : Z) : outcome (option Z) :=
  match fuel with
  | O => NoFuel
  | S fuel =>
      if first <? last then
        let range := (last - first) `div` size in
        let middle := first + range `div` 2 * size in
        m ← rd l (middle `div` size);
        let cmp := compare key m in
        if cmp <? 0 then search_loop fuel key l size first middle
        else if 0 <? cmp then search_loop fuel key l size (middle + size) last
        else Done (Some middle)
      else Done None
  end.
Definition binary_search (key : row) (l : list row) (cnt size : Z) : outcome (option Z) :=
  search_loop (S (Z.to_nat cnt)) key l size 0 (size * cnt).
Definition bsearch (key : row) (l : list row) (cnt size : Z) : outcome (option Z) := binary_search key l cnt size.
End sort.

(** ** Numbers *)

Definition islower (c : Z) : bool := (97 <=? c) && (c <=? 122).
Definition isupper (c : Z) : bool := (65 <=? c) && (c <=? 90).
Definition isalpha (c : Z) : bool := islower c || isupper c.
Definition isdigit (c : Z) : bool := (48 <=? c) && (c <=? 57).
Definition isalnum (c : Z) : bool := isalpha c || isdigit c.
Definition isspace (c : Z) : bool := (c =? 32) || (c =? 12) || (c =? 10) || (c =? 13) || (c =? 9) || (c =? 11).
Definition isprint (c : Z) : bool := (32 <=? c) && (c <? 127).

(** A computation of type [int], undefined if it overflows. *)
Definition int (z : Z) : outcome Z := if (- 2 ^ 31 <=? z) && (z <? 2 ^ 31) then Done z else Undef.

(** The string is given by its characters. *)
Fixpoint skip_space (s : list Z) : list Z :=
  match s with c :: s' => if isspace c then skip_space s' else s | [] => [] end.
Fixpoint atoi_digits (value : Z) (s : list Z) : outcome Z :=
  match s with
  | c :: s => if isdigit c then a ← int (value * 10); v ← int (a - (c - 48)); atoi_digits v s else Done value
  | [] => Done value
  end.
Definition atoi (s : list Z) : outcome Z :=
  let s := skip_space s in
  let '(negative, s) := match s with c :: s' => if c =? 43 then (false, s') else if c =? 45 then (true, s') else (false, s) | [] => (false, s) end in
  value ← atoi_digits 0 s;
  if negative : bool then Done value else int (- value).

(** ** Swapping *)

(** The element with the 1-based index [i]. *)
Definition at1 (l : list row) (i : Z) : row := default [] (l@[i - 1]).
(** All the elements have [size] bytes. *)
Definition rows (size : Z) (l : list row) : Prop := Forall (λ x, zlen x = size) l.
Lemma at1_lookup l i : 1 ≤ i ≤ zlen l → l@[i - 1] = Some (at1 l i).
Proof. intros Hi. unfold at1. destruct (zlookup_lt l (i - 1)) as [x ->]; [lia|done]. Qed.
Lemma rows_at size l i : rows size l → 1 ≤ i ≤ zlen l → zlen (at1 l i) = size.
Proof. intros Hr Hi. pose proof (at1_lookup l i Hi) as [_ H]%zlookup_Some. by eapply Forall_lookup_1 in Hr. Qed.

Lemma run_cell l r i x b (Q : Z → list row → Prop) : l@[r] = Some x → x@[i] = Some b → Q b l → runs (cell r i) l Q.
Proof. intros Hr Hi HQ. unfold cell. run. rewrite (rd_Some _ _ _ Hr). run. rewrite (rd_Some _ _ _ Hi). by run. Qed.
Lemma run_set_cell l r i v x (Q : unit → list row → Prop) : l@[r] = Some x → 0 ≤ i < zlen x → Q tt (l@[r := x@[i := v]]) → runs (set_cell r i v) l Q.
Proof.
  intros Hr Hi HQ. unfold set_cell. run. rewrite (rd_Some _ _ _ Hr). run. rewrite wr_in by done. run. rewrite wr_in by (by eapply zlookup_bound). by run.
Qed.
(** The first [i] bytes of [x], then those of [y]. *)
Definition splice (i : Z) (x y : row) : row := take (Z.to_nat i) x ++ drop (Z.to_nat i) y.
Lemma splice_lookup i x y j : 0 ≤ i ≤ zlen x → zlen y = zlen x → (splice i x y)@[j] = if j <? i then x@[j] else y@[j].
Proof.
  intros Hi Hy. unfold splice. rewrite zlookup_app, zlen_take, zlookup_take by lia. rewrite Z.min_l by lia. destruct (Z.ltb_spec j i); [done|].
  rewrite zlookup_drop by lia. f_equal. lia.
Qed.
Lemma zlen_splice i x y : 0 ≤ i ≤ zlen x → zlen y = zlen x → zlen (splice i x y) = zlen x.
Proof. intros Hi Hy. unfold splice. rewrite zlen_app, zlen_take, zlen_drop by lia. lia. Qed.
Lemma splice_step i x y b c : 0 ≤ i < zlen x → zlen y = zlen x → y@[i] = Some b → splice (i + 1) (x@[i := b]) (y@[i := c]) = splice i x y.
Proof.
  intros Hi Hy Hb. apply array_ext; [by rewrite !zlen_splice by (rewrite ?zlen_insert; lia); rewrite zlen_insert|]. intros j _.
  rewrite !splice_lookup by (rewrite ?zlen_insert; lia). destruct (Z.ltb_spec j (i + 1)), (Z.ltb_spec j i); try lia.
  - by rewrite zlookup_insert_ne by lia.
  - assert (j = i) as -> by lia. rewrite zlookup_insert_eq by lia. done.
  - by rewrite zlookup_insert_ne by lia.
Qed.
Lemma zinsert_comm {A} (l : list A) i j x y : i ≠ j → (l@[i := x])@[j := y] = (l@[j := y])@[i := x].
Proof. intros Hij. unfold zinsert. bool_cases; try done. apply list_insert_insert_ne. lia. Qed.
Lemma swap_loop_spec n : ∀ l a b i xa xb, a ≠ b → l@[a] = Some xa → l@[b] = Some xb → zlen xa = i + Z.of_nat n → zlen xb = zlen xa → 0 ≤ i →
  runs (swap_loop n a b i) l (λ _ l', l' = (l@[a := splice i xa xb])@[b := splice i xb xa]).
Proof.
  induction n as [|n IH]; intros l a b i xa xb Hab Ha Hb Hla Hlb Hi; cbn [swap_loop].
  { run. assert (∀ x y : row, zlen x = zlen xa → zlen y = zlen xa → splice i x y = x) as E.
    { intros x y Hx Hy. unfold splice. rewrite take_ge, drop_ge by (unfold zlen in *; lia). apply app_nil_r. }
    rewrite !E by done. rewrite (zinsert_id l a xa Ha), (zinsert_id l b xb Hb). done. }
  destruct (zlookup_lt xa i) as [t Ht]; [lia|]. destruct (zlookup_lt xb i) as [u Hu]; [lia|]. pose proof (zlookup_bound _ _ _ Ha). pose proof (zlookup_bound _ _ _ Hb).
  apply runs_bind, (run_cell _ _ _ xa t); [done|done|]. apply runs_bind, (run_cell _ _ _ xb u); [done|done|].
  apply runs_bind, (run_set_cell _ _ _ _ xa); [done|lia|]. apply runs_bind, (run_set_cell _ _ _ _ xb); [by rewrite zlookup_insert_ne|lia|].
  eapply runs_mono; [apply (IH _ a b (i + 1) (xa@[i := u]) (xb@[i := t])); rewrite ?zlen_insert; try lia|].
  - rewrite zlookup_insert_ne by done. by apply zlookup_insert_eq.
  - apply zlookup_insert_eq. by rewrite zlen_insert.
  - intros [] l' ->. rewrite !splice_step by (done || lia). rewrite (zinsert_comm _ b a) by done. rewrite zinsert_insert, zinsert_insert. done.
Qed.
Lemma swap_same n : ∀ l a i x, l@[a] = Some x → zlen x = i + Z.of_nat n → 0 ≤ i → runs (swap_loop n a a i) l (λ _ l', l' = l).
Proof.
  induction n as [|n IH]; intros l a i x Ha Hl Hi; cbn [swap_loop]; [by run|]. destruct (zlookup_lt x i) as [t Ht]; [lia|]. pose proof (zlookup_bound _ _ _ Ha).
  do 2 (apply runs_bind, (run_cell _ _ _ x t); [done|done|]). apply runs_bind, (run_set_cell _ _ _ _ x); [done|lia|]. rewrite (zinsert_id x i t Ht), (zinsert_id l a x Ha).
  apply runs_bind, (run_set_cell _ _ _ _ x); [done|lia|]. rewrite (zinsert_id x i t Ht), (zinsert_id l a x Ha). apply (IH l a (i + 1) x); [done|lia|lia].
Qed.

(** The elements [i] and [j] have changed places. *)
Definition swapped (l l' : list row) (i j : Z) : Prop :=
  zlen l' = zlen l ∧ l' ≡ₚ l ∧ ∀ k, 1 ≤ k ≤ zlen l → at1 l' k = if k =? i then at1 l j else if k =? j then at1 l i else at1 l k.
Definition swap_index (i j k : nat) : nat := if decide (k = i) then j else if decide (k = j) then i else k.
#[local] Instance swap_index_inj i j : Inj (=) (=) (swap_index i j).
Proof. intros a b. unfold swap_index. repeat case_decide; congruence. Qed.
Lemma swap_perm (l : list row) i j x y : l@[i] = Some x → l@[j] = Some y → (l@[i := y])@[j := x] ≡ₚ l.
Proof.
  intros Hx Hy. pose proof (zlookup_bound _ _ _ Hx) as Hi. pose proof (zlookup_bound _ _ _ Hy) as Hj. apply Permutation_inj.
  split; [apply Nat2Z.inj; fold (zlen l) (zlen ((l@[i := y])@[j := x])); by rewrite !zlen_insert|].
  exists (swap_index (Z.to_nat i) (Z.to_nat j)). split; [apply _|]. intros k. unfold zlookup, zinsert, swap_index in *. bool_cases; try lia.
  unfold zlen in *. case_decide; [subst k|case_decide; [subst k|]].
  - destruct (decide (Z.to_nat i = Z.to_nat j)) as [E|E]; [rewrite E, list_lookup_insert_eq by (rewrite length_insert; lia); congruence|].
    rewrite list_lookup_insert_ne, list_lookup_insert_eq by lia. done.
  - rewrite list_lookup_insert_eq by (rewrite length_insert; lia). done.
  - by rewrite !list_lookup_insert_ne by lia.
Qed.
Lemma do_swap_spec l i j size : rows size l → i ≠ j → 1 ≤ i ≤ zlen l → 1 ≤ j ≤ zlen l → 0 ≤ size → runs (do_swap i j size) l (λ _ l', swapped l l' i j).
Proof.
  intros Hr Hij Hi Hj Hs. pose proof (at1_lookup l i Hi) as Ei. pose proof (at1_lookup l j Hj) as Ej. pose proof (rows_at _ _ _ Hr Hi) as Li. pose proof (rows_at _ _ _ Hr Hj) as Lj.
  unfold do_swap. eapply runs_mono; [apply (swap_loop_spec _ l (i - 1) (j - 1) 0 (at1 l i) (at1 l j)); [lia|done|done|lia|lia|done]|].
  intros [] l' ->. unfold splice. rewrite !take_0, !drop_0. simpl. split_and!; [by rewrite !zlen_insert|by apply swap_perm|].
  intros k Hk. unfold at1 at 1. rewrite !zlookup_insert, zlen_insert. destruct (Z.eqb_spec (j - 1) (k - 1)), (Z.eqb_spec k i), (Z.eqb_spec k j), (Z.eqb_spec (i - 1) (k - 1)); try lia; bool_cases; try lia; done.
Qed.

(** ** Heaps *)

(** What the comments ask of the comparison: a [strcmp]-type result. *)
Class Comparison (compare : row → row → Z) : Prop := {
  compare_flip x y : 0 < compare x y ↔ compare y x < 0;
  compare_trans x y z : compare x y ≤ 0 → compare y z ≤ 0 → compare x z ≤ 0;
}.

Section heap.
Context (compare : row → row → Z) `{!Comparison compare}.
Abbreviation le x y := (compare x y ≤ 0).
Lemma compare_refl x : le x x.
Proof using All. destruct (Z.ltb_spec 0 (compare x x)) as [H|]; [|done]. by apply Z.lt_le_incl, compare_flip. Qed.
Lemma compare_gt x y : 0 < compare x y → le y x.
Proof using All. intros H%compare_flip. lia. Qed.

(** [c] is one of the two children of [p]. *)
Definition child (c p : Z) : Prop := c = 2 * p ∨ c = 2 * p + 1.
(** In the first [n] elements no child of an element from [k] on, other than
    [j], is larger than its parent. *)
Definition heap_but (l : list row) (k n j : Z) : Prop := ∀ p c, k ≤ p → p ≠ j → child c p → c ≤ n → le (at1 l c) (at1 l p).
Definition max_heap (l : list row) (k n : Z) : Prop := ∀ p c, k ≤ p → child c p → c ≤ n → le (at1 l c) (at1 l p).
(** The children of [j] are not larger than its parent. *)
Definition bridged (l : list row) (k n j : Z) : Prop := ∀ p c, k ≤ p → child j p → child c j → c ≤ n → le (at1 l c) (at1 l p).
(** Elements moved only among the first [n]. *)
Definition moved (n : Z) (l l' : list row) : Prop :=
  zlen l' = zlen l ∧ l' ≡ₚ l ∧ (∀ k, n < k → at1 l' k = at1 l k) ∧ ∀ k, 1 ≤ k ≤ n → ∃ r, 1 ≤ r ≤ n ∧ at1 l' k = at1 l r.

Lemma moved_refl n l : moved n l l.
Proof. split_and!; [done|done|done|]. intros k Hk. by exists k. Qed.
Lemma moved_trans n l1 l2 l3 : moved n l1 l2 → moved n l2 l3 → moved n l1 l3.
Proof.
  intros (L1 & P1 & O1 & I1) (L2 & P2 & O2 & I2). split_and!; [congruence|by etrans|intros k Hk; rewrite O2, O1 by done; done|].
  intros k Hk. destruct (I2 k Hk) as (r & Hr & ->). by apply I1.
Qed.
Lemma at1_out l k : zlen l < k → at1 l k = [].
Proof. intros H. unfold at1, zlookup. destruct (Z.ltb_spec (k - 1) 0); [done|]. by rewrite lookup_ge_None_2 by (unfold zlen in *; lia). Qed.
Lemma moved_swapped n l l' i j : swapped l l' i j → 1 ≤ i ≤ n → 1 ≤ j ≤ n → n ≤ zlen l → moved n l l'.
Proof.
  intros (L & P & Hat) Hi Hj Hn. split_and!; [done|done|..].
  - intros k Hk. destruct (Z.leb_spec k (zlen l)); [|by rewrite !at1_out by lia]. rewrite Hat by lia. bool_cases; try lia; done.
  - intros k Hk. rewrite Hat by lia. bool_cases; eexists; (split; [|reflexivity]); lia.
Qed.
Lemma moved_rows n size l l' : moved n l l' → rows size l → rows size l'.
Proof. intros (_ & P & _). unfold rows. by rewrite P. Qed.

Lemma run_do_compare l a b (Q : Z → list row → Prop) : 1 ≤ a ≤ zlen l → 1 ≤ b ≤ zlen l → Q (compare (at1 l a) (at1 l b)) l → runs (do_compare compare a b) l Q.
Proof. intros Ha Hb HQ. unfold do_compare. run. rewrite (rd_Some _ _ _ (at1_lookup l a Ha)). run. rewrite (rd_Some _ _ _ (at1_lookup l b Hb)). by run. Qed.

(** The swap moves the exception down to the child that took the larger element. *)
Lemma sift_step l l' k i max n : 1 ≤ k ≤ i → n ≤ zlen l → heap_but l k n i → bridged l k n i → child max i → max ≤ n → le (at1 l i) (at1 l max) →
  (∀ c, child c i → c ≤ n → le (at1 l c) (at1 l max)) → swapped l l' i max → heap_but l' k n max ∧ bridged l' k n max.
Proof using All.
  unfold heap_but, bridged, child. intros Hk Hn Hh Hb Hmax Hmn Hle Hch (_ & _ & Hat). split; intros p c Hp.
  - intros Hpm Hc Hcn. rewrite !Hat by lia. destruct (Z.eqb_spec p i) as [->|Hpi].
    + bool_cases; try lia. apply Hch; lia.
    + destruct (Z.eqb_spec p max); [lia|]. destruct (Z.eqb_spec c i) as [->|]; [apply Hb; lia|]. destruct (Z.eqb_spec c max); [lia|]. apply Hh; lia.
  - intros Hmp Hc Hcn. assert (p = i) as -> by lia. rewrite !Hat by lia. rewrite Z.eqb_refl. destruct (Z.eqb_spec c i), (Z.eqb_spec c max); try lia. apply Hh; lia.
Qed.
(** The choice of the largest of [i] and its children. *)
Definition largest (l : list row) (i n max : Z) : Prop :=
  (max = i ∨ child max i ∧ max ≤ n ∧ le (at1 l i) (at1 l max)) ∧ ∀ c, child c i → c ≤ n → le (at1 l c) (at1 l max).
Lemma heapify_unfold fuel l i n size (Q : unit → list row → Prop) : 1 ≤ i ≤ zlen l → n ≤ zlen l →
  (∀ max, largest l i n max → runs (if max =? i then mret tt else do_swap i max size;; heapify compare fuel max n size) l Q) →
  runs (heapify compare (S fuel) i n size) l Q.
Proof using All.
  intros Hi Hn HQ. cbn [heapify]. unfold largest, child in HQ. apply runs_bind.
  apply (runs_mono _ _ (λ m l', l' = l ∧ (m = i ∨ m = 2 * i ∧ m ≤ n ∧ le (at1 l i) (at1 l m)) ∧ (2 * i ≤ n → le (at1 l (2 * i)) (at1 l m)))).
  { destruct (Z.leb_spec (2 * i) n); [|run; split_and!; [done|by left|lia]]. apply runs_bind, run_do_compare; [lia|lia|]. run.
    destruct (Z.ltb_spec 0 (compare (at1 l (2 * i)) (at1 l i))) as [G|]; split_and!; try done; [right; split_and!; [done|done|by apply compare_gt]|intros _; apply compare_refl|by left]. }
  intros m l' (-> & Hm & Hl). apply runs_bind.
  apply (runs_mono _ _ (λ m' l', l' = l ∧ largest l i n m')); [|intros m' l' [-> Hm']; by apply HQ].
  unfold largest, child. destruct (Z.leb_spec (2 * i + 1) n).
  - apply runs_bind, run_do_compare; [lia|lia|]. run. destruct (Z.ltb_spec 0 (compare (at1 l (2 * i + 1)) (at1 l m))) as [G|]; (split; [done|split]).
    + right. split_and!; [by right|done|]. apply compare_gt in G. destruct Hm as [-> | (_ & _ & Him)]; [done|]. by eapply compare_trans.
    + intros c [-> | ->] Hc; [|apply compare_refl]. eapply compare_trans; [by apply Hl|]. by apply compare_gt.
    + destruct Hm as [-> | (-> & ? & ?)]; [by left|right; split_and!; [by left|done|done]].
    + intros c [-> | ->] Hc; [by apply Hl|done].
  - run. split; [done|split].
    + destruct Hm as [-> | (-> & ? & ?)]; [by left|right; split_and!; [by left|done|done]].
    + intros c [-> | ->] Hc; [by apply Hl|lia].
Qed.
(** Floating the element [i] down restores the heap. *)
Lemma heapify_spec fuel : ∀ l k i n size, n - i < Z.of_nat fuel → 1 ≤ k ≤ i → i ≤ zlen l → n ≤ zlen l → 0 ≤ size → rows size l → heap_but l k n i → bridged l k n i →
  runs (heapify compare (S fuel) i n size) l (λ _ l', moved n l l' ∧ max_heap l' k n).
Proof using All.
  induction fuel as [|fuel IH]; intros l k i n size Hf Hk Hi Hn Hs Hr Hh Hb; (apply heapify_unfold; [lia|done|]; intros max [Hmax Hch]);
    (destruct (Z.eqb_spec max i) as [->|Hne];
      [run; split; [apply moved_refl|]; intros p c Hp Hc Hcn; destruct (decide (p = i)) as [->|]; [by apply Hch|by apply Hh]|]);
    (destruct Hmax as [|(Hc & Hmn & Hle)]; [done|]); assert (i < max) by (unfold child in Hc; lia); [lia|].
  apply runs_bind. eapply runs_mono; [apply do_swap_spec; [done|lia|lia|lia|done]|]. intros [] l1 Hsw.
  destruct (sift_step l l1 k i max n Hk Hn Hh Hb Hc Hmn Hle Hch Hsw) as [Hh1 Hb1]. pose proof (moved_swapped n l l1 i max Hsw ltac:(lia) ltac:(lia) Hn) as Hmv.
  assert (zlen l1 = zlen l) as El by apply Hsw. eapply runs_mono; [apply (IH l1 k); [lia..|by eapply moved_rows|done|done]|].
  intros [] l' [Hm' Hh']. split; [by eapply moved_trans|done].
Qed.
Lemma heapify_at_spec l k i n size : 1 ≤ k ≤ i → i ≤ zlen l → 0 ≤ n ≤ zlen l → 0 ≤ size → rows size l → heap_but l k n i → bridged l k n i →
  runs (heapify_at compare i n size) l (λ _ l', moved n l l' ∧ max_heap l' k n).
Proof using All. intros Hk Hi Hn Hs Hr Hh Hb. apply heapify_spec; (done || lia). Qed.

Lemma build_loop_spec i : ∀ l n size, Z.of_nat i ≤ n → n ≤ zlen l → 0 ≤ size → rows size l → max_heap l (Z.of_nat i + 1) n →
  runs (build_loop compare i n size) l (λ _ l', moved n l l' ∧ max_heap l' 1 n).
Proof using All.
  induction i as [|i IH]; intros l n size Hi Hn Hs Hr Hh; cbn [build_loop]; [run; split; [apply moved_refl|done]|]. apply runs_bind.
  eapply runs_mono; [apply (heapify_at_spec l (Z.of_nat (S i)) (Z.of_nat (S i)) n size); [lia|lia|lia|done|done|..]|].
  - intros p c Hp Hne. apply Hh. lia.
  - intros p c Hp Hc. unfold child in Hc. lia.
  - intros [] l1 [Hm Hh1]. assert (zlen l1 = zlen l) as El by apply Hm. eapply runs_mono; [apply (IH l1 n size); [lia|lia|done|by eapply moved_rows|]|].
    + by replace (Z.of_nat i + 1) with (Z.of_nat (S i)) by lia.
    + intros [] l' [Hm' Hh']. split; [by eapply moved_trans|done].
Qed.
(** The root of a heap is its largest element. *)
Lemma heap_root l n : max_heap l 1 n → ∀ i, 1 ≤ i ≤ n → le (at1 l i) (at1 l 1).
Proof using All.
  intros Hh i. induction i as [i IH] using (well_founded_induction (Z.lt_wf 0)). intros Hi. destruct (decide (i = 1)) as [->|Hne]; [apply compare_refl|].
  assert (child i (i `div` 2) ∧ 1 ≤ i `div` 2 < i) as [Hc Hp] by (pose proof (Z.div_mod i 2 ltac:(lia)); pose proof (Z.mod_pos_bound i 2 ltac:(lia)); unfold child; lia).
  eapply compare_trans; [apply (Hh (i `div` 2) i); [lia|done|lia]|]. apply IH; lia.
Qed.
(** After the elements from [i + 1] on have got their places. *)
Definition partition (l : list row) (i cnt : Z) : Prop := ∀ a b, 1 ≤ a → i < b → a ≤ b ≤ cnt → le (at1 l a) (at1 l b).
Lemma sort_step l i cnt size : 2 ≤ i ≤ cnt → cnt ≤ zlen l → 0 ≤ size → rows size l → max_heap l 1 i → partition l i cnt →
  runs (do_swap 1 i size;; heapify_at compare 1 (i - 1) size) l (λ _ l', moved cnt l l' ∧ max_heap l' 1 (i - 1) ∧ partition l' (i - 1) cnt).
Proof using All.
  intros Hi Hc Hs Hr Hh Hp. apply runs_bind. eapply runs_mono; [apply (do_swap_spec l 1 i); [done|lia|lia|lia|done]|]. intros [] l1 Hsw.
  pose proof Hsw as (El & _ & Hat). pose proof (moved_swapped cnt l l1 1 i Hsw ltac:(lia) ltac:(lia) Hc) as Hm1.
  eapply runs_mono; [apply (heapify_at_spec l1 1 1 (i - 1) size); [lia|lia|lia|done|by eapply moved_rows|..]|].
  - intros p c Hp1 Hne Hch Hcn. unfold child in Hch. rewrite !Hat by lia. bool_cases; try lia. apply Hh; (lia || done).
  - intros p c Hp1 Hch. unfold child in Hch. lia.
  - intros [] l' [(El' & Pl' & Hout & Hin) Hh']. split_and!; [|done|].
    + eapply moved_trans; [done|]. split_and!; [done|done|intros k Hk; apply Hout; lia|]. intros k Hk. destruct (Z.ltb_spec (i - 1) k) as [Hgt|Hle].
      * exists k. split; [done|by apply Hout].
      * destruct (Hin k ltac:(lia)) as (r & Hr' & ->). exists r. split; [lia|done].
    + assert (∀ a, 1 ≤ a ≤ i → le (at1 l1 a) (at1 l 1) ∧ ∀ b, i < b ≤ cnt → le (at1 l1 a) (at1 l b)) as Hsmall.
      { intros a Ha. rewrite Hat by lia. split; [|intros b Hb]; bool_cases; try (apply (heap_root l i Hh); lia); apply Hp; lia. }
      intros a b Ha Hb Hab. rewrite (Hout b), (Hat b) by lia. destruct (Z.leb_spec a (i - 1)).
      * destruct (Hin a ltac:(lia)) as (r & Hr' & ->). destruct (Hsmall r ltac:(lia)) as [H1 H2]. bool_cases; try lia; apply H2; lia.
      * rewrite (Hout a) by lia. destruct (decide (a = i)) as [->|]; [destruct (Hsmall i ltac:(lia)) as [H1 H2]; bool_cases; try lia; apply H2; lia|].
        rewrite Hat by lia. bool_cases; try lia. apply Hp; lia.
Qed.
Lemma extract_loop_spec i : ∀ l cnt size, Z.of_nat i ≤ cnt → cnt ≤ zlen l → 0 ≤ size → rows size l → max_heap l 1 (Z.of_nat i) → partition l (Z.of_nat i) cnt →
  runs (extract_loop compare i size) l (λ _ l', moved cnt l l' ∧ partition l' 1 cnt).
Proof using All.
  induction i as [|[|i] IH]; intros l cnt size Hi Hc Hs Hr Hh Hp.
  - cbn [extract_loop]. run. split; [apply moved_refl|]. intros a b Ha Hb. apply Hp; lia.
  - cbn [extract_loop]. run. split; [apply moved_refl|done].
  - pose proof (sort_step l (Z.of_nat (S (S i))) cnt size ltac:(lia) Hc Hs Hr Hh Hp) as Hstep%runs_bind_inv. cbn [extract_loop]. apply runs_bind.
    eapply runs_mono; [exact Hstep|]. intros [] l0 H0. apply runs_bind. eapply runs_mono; [exact H0|]. intros [] l1 (Hm & Hh1 & Hp1). assert (zlen l1 = zlen l) as El by apply Hm. replace (Z.of_nat (S (S i)) - 1) with (Z.of_nat (S i)) in * by lia.
    eapply runs_mono; [apply (IH l1 cnt size); [lia|lia|done|by eapply moved_rows|done|done]|]. intros [] l' [Hm' Hp']. split; [by eapply moved_trans|done].
Qed.
(** [sort] (and [qsort], which calls it) terminates without touching memory
    outside its first [cnt] elements and leaves these in ascending order: the
    result is a permutation of the array in which no element compares greater
    than a later one. *)
Theorem sort_correct l cnt size : 0 < size → rows size l → 0 ≤ cnt ≤ zlen l →
  runs (qsort compare cnt size) l (λ _ l', l' ≡ₚ l ∧ drop (Z.to_nat cnt) l' = drop (Z.to_nat cnt) l ∧ ∀ a b, 1 ≤ a ≤ b → b ≤ cnt → compare (at1 l' a) (at1 l' b) ≤ 0).
Proof using All.
  intros Hs Hr Hc. unfold qsort, sort. apply runs_bind, runs_assert; [by apply Z.ltb_lt|]. apply runs_bind.
  pose proof (Z.div_mod cnt 2 ltac:(lia)) as Hdm. pose proof (Z.mod_pos_bound cnt 2 ltac:(lia)) as Hm2.
  eapply runs_mono; [apply build_loop_spec; rewrite ?Z2Nat.id by lia; [lia|lia|lia|done|]|].
  { intros p c Hp Hch Hcn. unfold child in Hch. lia. }
  intros [] l1 [Hm Hh]. assert (zlen l1 = zlen l) as El by apply Hm.
  eapply runs_mono; [apply (extract_loop_spec _ l1 cnt size); rewrite ?Z2Nat.id by lia; [done|lia|lia|by eapply moved_rows|done|]|].
  { intros a b Ha Hb Hab. lia. }
  intros [] l' [Hm' Hp]. destruct (moved_trans _ _ _ _ Hm Hm') as (El' & P & Hout & _). split_and!; [done| |].
  - apply array_ext; [by rewrite !zlen_drop by lia; congruence|]. intros j Hj. rewrite zlen_drop in Hj by lia. rewrite !zlookup_drop by lia.
    pose proof (Hout (cnt + j + 1) ltac:(lia)) as E. pose proof (at1_lookup l (cnt + j + 1) ltac:(lia)) as E1. pose proof (at1_lookup l' (cnt + j + 1) ltac:(lia)) as E2.
    rewrite Z.add_simpl_r in E1, E2. congruence.
  - intros a b Ha Hb. destruct (decide (b = 1)) as [->|]; [assert (a = 1) as -> by lia; apply compare_refl|]. apply Hp; lia.
Qed.

(** ** Searching a sorted array *)

Definition sorted (l : list row) (cnt : Z) : Prop := ∀ a b, 1 ≤ a ≤ b → b ≤ cnt → le (at1 l a) (at1 l b).
Lemma compare_lt x y : compare x y < 0 ↔ ¬ le y x.
Proof using All. pose proof (compare_flip y x). lia. Qed.
Lemma compare_ge x y : 0 ≤ compare x y ↔ le y x.
Proof using All. pose proof (compare_flip y x). lia. Qed.
Lemma search_loop_spec fuel : ∀ key l cnt size a b, 0 < size → cnt ≤ zlen l → sorted l cnt → 0 ≤ a ≤ b → b ≤ cnt → b - a < Z.of_nat fuel →
  (∀ i, 1 ≤ i ≤ a → 0 < compare key (at1 l i)) → (∀ i, b < i ≤ cnt → compare key (at1 l i) < 0) →
  ∃ r, search_loop compare fuel key l size (a * size) (b * size) = Done r ∧
    match r with
    | Some p => ∃ i, 1 ≤ i ≤ cnt ∧ p = (i - 1) * size ∧ compare key (at1 l i) = 0
    | None => ∀ i, 1 ≤ i ≤ cnt → compare key (at1 l i) ≠ 0
    end.
Proof using All.
  induction fuel as [|fuel IH]; intros key l cnt size a b Hs Hc Hsort Hab Hb Hf Hlow Hhigh; [lia|]. cbn [search_loop].
  destruct (Z.ltb_spec (a * size) (b * size)) as [Hlt|Hge].
  - assert (a < b) by nia. replace (b * size - a * size) with ((b - a) * size) by lia. rewrite Z.div_mul by lia. set (h := (b - a) `div` 2).
    assert (0 ≤ h < b - a) as Hh by (subst h; split; [apply Z.div_pos; lia|apply Z.div_lt; lia]). replace (a * size + h * size) with ((a + h) * size) by lia. rewrite Z.div_mul by lia.
    pose proof (at1_lookup l (a + h + 1) ltac:(lia)) as E. rewrite Z.add_simpl_r in E. rewrite (rd_Some _ _ _ E). simpl. set (m := at1 l (a + h + 1)) in *.
    destruct (Z.ltb_spec (compare key m) 0) as [Hneg|Hpos]; [|destruct (Z.ltb_spec 0 (compare key m)) as [Hgt|]].
    + apply (IH key l cnt size a (a + h)); try done; try lia. intros i Hi. rewrite compare_lt in *. intros Hle. apply Hneg. eapply compare_trans; [|exact Hle]. apply Hsort; lia.
    + replace ((a + h) * size + size) with ((a + h + 1) * size) by lia. apply (IH key l cnt size (a + h + 1) b); try done; try lia.
      intros i Hi. apply compare_flip. apply compare_flip in Hgt. rewrite compare_lt in *. intros Hle. apply Hgt. eapply compare_trans; [exact Hle|]. apply Hsort; lia.
    + eexists. split; [done|]. exists (a + h + 1). split_and!; [lia|lia|lia|]. fold m. lia.
  - assert (a = b) as -> by nia. eexists. split; [done|]. intros i Hi. destruct (Z.leb_spec i b).
    + pose proof (Hlow i ltac:(lia)). lia.
    + pose proof (Hhigh i ltac:(lia)). lia.
Qed.
(** [binary_search] (and [bsearch]) on a sorted array always returns, never
    reads outside the array, and gives the place of an element that compares
    equal to the key, or the null pointer exactly if there is none. *)
Theorem binary_search_correct key l cnt size : 0 < size → 0 ≤ cnt ≤ zlen l → sorted l cnt →
  ∃ r, bsearch compare key l cnt size = Done r ∧
    match r with
    | Some p => ∃ i, 1 ≤ i ≤ cnt ∧ p = (i - 1) * size ∧ compare key (at1 l i) = 0
    | None => ∀ i, 1 ≤ i ≤ cnt → compare key (at1 l i) ≠ 0
    end.
Proof using All.
  intros Hs Hc Hsort. unfold bsearch, binary_search. rewrite Z.mul_comm. apply (search_loop_spec (S (Z.to_nat cnt)) key l cnt size 0 cnt); try done; lia.
Qed.
End heap.

(** Elements compared byte by byte. *)
Instance lex_comparison : Comparison lex.
Proof. split; [intros x y; rewrite (lex_antisym x y); lia|apply lex_trans]. Qed.

Lemma sort_correct_witness :
  runs (qsort lex 4 1) [[3]; [1]; [2]; [1]] (λ _ l', l' ≡ₚ [[3]; [1]; [2]; [1]]) ∧ runs (qsort lex 4 1) [[3]; [1]; [2]; [1]] (λ _ l', l' = [[1]; [1]; [2]; [3]]).
Proof.
  split; [|vm_compute; reflexivity].
  refine (runs_mono _ _ _ _ (sort_correct lex [[3]; [1]; [2]; [1]] 4 1 _ _ _) _); [lia|repeat constructor|vm_compute; split; discriminate|]. intros [] l' (P & _). exact P.
Defined.
Lemma binary_search_correct_witness : ∃ r, bsearch lex [4] [[1]; [2]; [4]] 3 1 = Done (Some r) ∧ r = 2.
Proof.
  destruct (binary_search_correct lex [4] [[1]; [2]; [4]] 3 1 ltac:(lia) ltac:(vm_compute; split; discriminate)) as (r & E & Hr).
  - intros a b Ha Hb. assert (a = 1 ∨ a = 2 ∨ a = 3) as Ca by lia. assert (b = 1 ∨ b = 2 ∨ b = 3) as Cb by lia.
    destruct Ca as [-> | [-> | ->]], Cb as [-> | [-> | ->]]; (lia || (vm_compute; discriminate)).
  - vm_compute in E. injection E as <-. exists 2. split; [vm_compute; reflexivity|reflexivity].
Defined.
