(* ===== verification/Stdio.v ===== *)
(** * Formatted output (src/pintos/src/lib/stdio.c, lib/user/console.c)

    The format is the list of its characters; stepping over its end is
    undefined.  The arguments are typed values: a word (an [int], [long],
    [size_t] or pointer), a [long long], or a string; taking an argument of
    another type is undefined.  As in the source the characters go to a
    callback with a state of its own. *)

From stdpp Require Import strings.
From S2P Require Import Prelude KList CString CStdlib.

Definition chars (s : string) : list Z := (λ a, Z.of_nat (Ascii.nat_of_ascii a)) <$> String.list_ascii_of_string s.
Definition s8 (x : Z) : Z := (x + 2 ^ 7) `mod` 2 ^ 8 - 2 ^ 7.
Definition s16 (x : Z) : Z := (x + 2 ^ 15) `mod` 2 ^ 16 - 2 ^ 15.
(** The character at the current position. *)
Definition peek (format : list Z) : Z := match format with c :: _ => c | [] => 0 end.
Definition step (format : list Z) : outcome (list Z) := match format with _ :: f => Done f | [] => Undef end.

(** ** Arguments *)

Inductive arg :=
  | Word (w : Z)
  | Wide (w : Z)
  | Str (s : option (list Z)).
Definition va_word (args : list arg) : outcome (Z * list arg) := match args with Word w :: args => Done (u32 w, args) | _ => Undef end.
Definition va_wide (args : list arg) : outcome (Z * list arg) := match args with Wide w :: args => Done (u64 w, args) | _ => Undef end.
Definition va_str (args : list arg) : outcome (option (list Z) * list arg) := match args with Str s :: args => Done (s, args) | _ => Undef end.

(** ** Conversions *)

Definition MINUS : Z := 1.
Definition PLUS : Z := 2.
Definition SPACE : Z := 4.
Definition POUND : Z := 8.
Definition ZERO : Z := 16.
Definition GROUP : Z := 32.
Inductive argtype := CHAR | SHORT | INT | INTMAX | LONG | LONGLONG | PTRDIFFT | SIZET.
Record printf_conversion := { flags : Z; width : Z; precision : Z; type : argtype }.
Record integer_base := { base : Z; digits : list Z; x_char : Z; group : Z }.
Definition base_d : integer_base := {| base := 10; digits := chars "0123456789"; x_char := 0; group := 3 |}.
Definition base_o : integer_base := {| base := 8; digits := chars "01234567"; x_char := 0; group := 3 |}.
Definition base_x : integer_base := {| base := 16; digits := chars "0123456789abcdef"; x_char := 120; group := 4 |}.
Definition base_X : integer_base := {| base := 16; digits := chars "0123456789ABCDEF"; x_char := 88; group := 4 |}.

Definition flag_of (c : Z) : option Z :=
  if c =? 45 then Some MINUS else if c =? 43 then Some PLUS else if c =? 32 then Some SPACE
  else if c =? 35 then Some POUND else if c =? 48 then Some ZERO else if c =? 39 then Some GROUP else None.
Fixpoint parse_flags (flags : Z) (format : list Z) : Z * list Z :=
  match format with
  | c :: f => match flag_of c with Some b => parse_flags (Z.lor flags b) f | None => (flags, format) end
  | [] => (flags, [])
  end.
Definition has (flags mask : Z) : bool := negb (Z.land flags mask =? 0).
(** [for (; isdigit ( *format); format++) n = n * 10 + *format - '0']. *)
Fixpoint parse_number (n : Z) (format : list Z) : outcome (Z * list Z) :=
  match format with
  | c :: f => if isdigit c then a ← int (n * 10); b ← int (a + c); n ← int (b - 48); parse_number n f else Done (n, format)
  | [] => Done (n, [])
  end.
Definition parse_width (format : list Z) (args : list arg) : outcome (Z * list Z * list arg) :=
  if peek format =? 42 then f ← step format; '(w, args) ← va_word args; Done (s32 w, f, args)
  else '(w, f) ← parse_number 0 format; Done (w, f, args).
Definition parse_precision (format : list Z) (args : list arg) : outcome (Z * list Z * list arg) :=
  if peek format =? 46 then
    f ← step format;
    '(p, f, args) ← (if peek f =? 42 then f ← step f; '(w, args) ← va_word args; Done (s32 w, f, args)
                     else '(p, f) ← parse_number 0 f; Done (p, f, args));
    Done (if p <? 0 then -1 else p, f, args)
  else Done (-1, format, args).
Definition parse_type (format : list Z) : argtype * list Z :=
  match format with
  | c :: f =>
      if c =? 104 then match f with c :: f' => if c =? 104 then (CHAR, f') else (SHORT, f) | [] => (SHORT, f) end
      else if c =? 106 then (INTMAX, f)
      else if c =? 108 then match f with c :: f' => if c =? 108 then (LONGLONG, f') else (LONG, f) | [] => (LONG, f) end
      else if c =? 116 then (PTRDIFFT, f)
      else if c =? 122 then (SIZET, f)
      else (INT, format)
  | [] => (INT, format)
  end.
Definition parse_conversion (format : list Z) (args : list arg) : outcome (printf_conversion * list Z * list arg) :=
  let '(flags, format) := parse_flags 0 format in
  let flags := if has flags MINUS then Z.ldiff flags ZERO else flags in
  let flags := if has flags PLUS then Z.ldiff flags SPACE else flags in
  '(width, format, args) ← parse_width format args;
  '(width, flags) ← (if width <? 0 then w ← int (- width); Done (w, Z.lor flags MINUS) else Done (width, flags));
  '(precision, format, args) ← parse_precision format args;
  let flags := if 0 <=? precision then Z.ldiff flags ZERO else flags in
  let '(type, format) := parse_type format in
  Done ({| flags := flags; width := width; precision := precision; type := type |}, format, args).

(** The value of a [%d] or [%i] argument, as an [intmax_t]. *)
Definition signed_value (t : argtype) (args : list arg) : outcome (Z * list arg) :=
  match t with
  | CHAR => '(w, args) ← va_word args; Done (s8 w, args)
  | SHORT => '(w, args) ← va_word args; Done (s16 w, args)
  | INT | LONG | PTRDIFFT => '(w, args) ← va_word args; Done (s32 w, args)
  | INTMAX | LONGLONG => '(w, args) ← va_wide args; Done (s64 w, args)
  | SIZET => '(w, args) ← va_word args; Done (if (2 ^ 32 - 1) `div` 2 <? w then w - (2 ^ 32 - 1) - 1 else w, args)
  end.
(** The value of a [%o], [%u], [%x] or [%X] argument, as a [uintmax_t]. *)
Definition unsigned_value (t : argtype) (args : list arg) : outcome (Z * list arg) :=
  match t with
  | CHAR => '(w, args) ← va_word args; Done (u8 w, args)
  | SHORT => '(w, args) ← va_word args; Done (u16 w, args)
  | INT | LONG | SIZET => va_word args
  | INTMAX | LONGLONG => va_wide args
  | PTRDIFFT => '(w, args) ← va_word args; Done (Z.land (u64 (s32 w)) (2 ^ 32 - 1), args)
  end.

(** What a turn of the loop of [__vprintf] prints. *)
Inductive directive :=
  | Literal (ch : Z)
  | Integer (value : Z) (is_signed negative : bool) (b : integer_base) (c : printf_conversion)
  | Text (s : list Z) (length : Z) (c : printf_conversion)
  | Unsupported (message : list Z) (ch : Z).

(** [value < 0 ? -value : value] overflows for the least value. *)
Definition magnitude (value : Z) : outcome Z :=
  if value <? 0 then (if value =? - 2 ^ 63 then Undef else Done (- value)) else Done value.
Definition one_of (s : string) (c : Z) : bool := bool_decide (c ∈ chars s).
(** The [switch] on the conversion character. *)
Definition convert (ch : Z) (c : printf_conversion) (args : list arg) : outcome (directive * list arg) :=
  if one_of "di" ch then
    '(value, args) ← signed_value (type c) args; m ← magnitude value;
    Done (Integer m true (value <? 0) base_d c, args)
  else if one_of "ouxX" ch then
    '(value, args) ← unsigned_value (type c) args;
    let b := if ch =? 111 then base_o else if ch =? 117 then base_d else if ch =? 120 then base_x else base_X in
    Done (Integer value false false b c, args)
  else if ch =? 99 then '(w, args) ← va_word args; Done (Text [u8 w] 1 c, args)
  else if ch =? 115 then
    '(s, args) ← va_str args;
    let s := default (chars "(null)") s in
    Done (Text s (zlen s `min` u32 (precision c)) c, args)
  else if ch =? 112 then
    '(p, args) ← va_word args;
    Done (Integer p false false base_x {| flags := POUND; width := width c; precision := precision c; type := type c |}, args)
  else if one_of "feEgGn" ch then Done (Unsupported (chars "<<no %%%c in kernel>>") ch, args)
  else Done (Unsupported (chars "<<no %%%c conversion>>") ch, args).
(** A turn of the loop at a character other than the end. *)
Definition next_directive (format : list Z) (args : list arg) : outcome (directive * list Z * list arg) :=
  c ← defined (head format);
  f ← step format;
  if negb (c =? 37) then Done (Literal c, f, args)
  else if peek f =? 37 then f ← step f; Done (Literal 37, f, args)
  else
    '(c, f, args) ← parse_conversion f args;
    '(d, args) ← convert (peek f) c args;
    f ← step f;
    Done (d, f, args).

(** ** Integers *)

(** [*cp++ = ch] in [char buf[64]]; the last character is at the head. *)
Definition push (buf : list Z) (ch : Z) : outcome (list Z) := if zlen buf <? 64 then Done (ch :: buf) else Undef.
Fixpoint digits_loop (fuel : nat) (b : integer_base) (c : printf_conversion) (value digit_cnt : Z) (buf : list Z) : outcome (list Z) :=
  match fuel with
  | O => NoFuel
  | S fuel =>
      if 0 <? value then
        buf ← (if has (flags c) GROUP && (0 <? digit_cnt) && (digit_cnt `mod` group b =? 0) then push buf 44 else Done buf);
        d ← rd (digits b) (value `mod` base b);
        buf ← push buf d;
        digits_loop fuel b c (value `div` base b) (digit_cnt + 1) buf
      else Done buf
  end.
(** [while (cp - buf < precision && cp < buf + sizeof buf - 1)]. *)
Fixpoint zeros_loop (fuel : nat) (precision : Z) (buf : list Z) : outcome (list Z) :=
  match fuel with
  | O => NoFuel
  | S fuel => if (zlen buf <? precision) && (zlen buf <? 63) then buf ← push buf 48; zeros_loop fuel precision buf else Done buf
  end.
(** The digits of a [uintmax_t], at most 64, and the zeros before them, at most 63. *)
Definition integer_buffer (value : Z) (b : integer_base) (c : printf_conversion) : outcome (list Z) :=
  buf ← digits_loop 65 b c value 0 [];
  buf ← zeros_loop 64 (if precision c <? 0 then 1 else precision c) buf;
  if has (flags c) POUND && (base b =? 8) && (match buf with [] => true | d :: _ => negb (d =? 48) end) then push buf 48 else Done buf.
Definition sign_of (is_signed negative : bool) (c : printf_conversion) : Z :=
  if is_signed then
    if has (flags c) PLUS then (if negative then 45 else 43)
    else if has (flags c) SPACE then (if negative then 45 else 32)
    else if negative then 45 else 0
  else 0.
Definition x_of (value : Z) (b : integer_base) (c : printf_conversion) : Z := if has (flags c) POUND && negb (value =? 0) then x_char b else 0.
Definition pad_of (buf : list Z) (sign x : Z) (c : printf_conversion) : Z :=
  Z.max 0 (width c - zlen buf - (if x =? 0 then 0 else 2) - (if sign =? 0 then 0 else 1)).

(** ** Output *)

Section output.
Context {A : Type} (output : Z → M A unit).

Fixpoint output_dup (ch : Z) (cnt : nat) : M A unit :=
  match cnt with
  | O => mret tt
  | S cnt => output ch;; output_dup ch cnt
  end.
Fixpoint output_all (s : list Z) : M A unit :=
  match s with
  | [] => mret tt
  | ch :: s => output ch;; output_all s
  end.
Definition when (b : bool) (m : M A unit) : M A unit := if b then m else mret tt.

Definition format_integer (value : Z) (is_signed negative : bool) (b : integer_base) (c : printf_conversion) : M A unit :=
  let sign := sign_of is_signed negative c in
  let x := x_of value b c in
  buf ← lift (integer_buffer value b c);
  let pad_cnt := Z.to_nat (pad_of buf sign x c) in
  when (negb (has (flags c) (Z.lor MINUS ZERO))) (output_dup 32 pad_cnt);;
  when (negb (sign =? 0)) (output sign);;
  when (negb (x =? 0)) (output 48;; output x);;
  when (has (flags c) ZERO) (output_dup 48 pad_cnt);;
  output_all buf;;
  when (has (flags c) MINUS) (output_dup 32 pad_cnt).

Definition format_string (s : list Z) (length : Z) (c : printf_conversion) : M A unit :=
  when ((length <? width c) && negb (has (flags c) MINUS)) (output_dup 32 (Z.to_nat (width c - length)));;
  output_all (take (Z.to_nat length) s);;
  when ((length <? width c) && has (flags c) MINUS) (output_dup 32 (Z.to_nat (width c - length))).

(** Every turn moves forward in the format; a message about a conversion that
    is not supported is printed by a call of its own. *)
Fixpoint vprintf_loop (fuel : nat) (format : list Z) (args : list arg) : M A unit :=
  match fuel with
  | O => out_of_fuel
  | S fuel =>
      match format with
      | [] => mret tt
      | _ =>
          '(d, format, args) ← lift (next_directive format args);
          match d with
          | Literal ch => output ch
          | Integer value is_signed negative b c => format_integer value is_signed negative b c
          | Text s length c => format_string s length c
          | Unsupported message ch => vprintf_loop fuel message [Word (s8 ch)]
          end;;
          vprintf_loop fuel format args
      end
  end.
Definition __vprintf (format : list Z) (args : list arg) : M A unit := vprintf_loop (length format + 32) format args.
Definition __printf (format : list Z) (args : list arg) : M A unit := __vprintf format args.
End output.

(** ** Output to a buffer *)

Record vsnprintf_aux := { aux_mem : mem; aux_p : Z; aux_length : Z; aux_max_length : Z }.
Definition vsnprintf_helper (ch : Z) : M vsnprintf_aux unit :=
  aux ← get;
  len ← lift (int (aux_length aux + 1));
  if aux_length aux <? aux_max_length aux then
    m ← lift (wr (aux_mem aux) (aux_p aux) ch);
    put {| aux_mem := m; aux_p := aux_p aux + 1; aux_length := len; aux_max_length := aux_max_length aux |}
  else put {| aux_mem := aux_mem aux; aux_p := aux_p aux; aux_length := len; aux_max_length := aux_max_length aux |}.
Definition vsnprintf (buffer buf_size : Z) (format : list Z) (args : list arg) : M mem Z :=
  m ← get;
  '(_, aux) ← lift (__vprintf vsnprintf_helper format args
    {| aux_mem := m; aux_p := buffer; aux_length := 0; aux_max_length := if 0 <? buf_size then s32 (buf_size - 1) else 0 |});
  put (aux_mem aux);;
  (if 0 <? buf_size then set_byte (aux_p aux) 0 else mret tt);;
  mret (aux_length aux).
Definition snprintf (buffer buf_size : Z) (format : list Z) (args : list arg) : M mem Z := vsnprintf buffer buf_size format args.

(** ** Dumps and sizes *)

Section console.
Context {A : Type} (putc : Z → M A unit).
Definition printf (format : string) (args : list arg) : M A unit := __vprintf putc (chars format) args.

Fixpoint printf_times (n : nat) (format : string) : M A unit :=
  match n with
  | O => mret tt
  | S n => printf format [];; printf_times n format
  end.
(** The two loops over the bytes of a line, [n] turns left. *)
Fixpoint dump_hex (n : nat) (buf : list Z) (start i : Z) : M A unit :=
  match n with
  | O => mret tt
  | S n =>
      b ← lift (rd buf (i - start));
      printf "%02hhx%c" [Word b; Word (if i =? 16 `div` 2 - 1 then 45 else 32)];;
      dump_hex n buf start (i + 1)
  end.
Fixpoint dump_ascii (n : nat) (buf : list Z) (start i : Z) : M A unit :=
  match n with
  | O => mret tt
  | S n =>
      b ← lift (rd buf (i - start));
      printf "%c" [Word (if isprint b then b else 46)];;
      dump_ascii n buf start (i + 1)
  end.
(** Every line has at least one byte. *)
Fixpoint dump_lines (fuel : nat) (ofs : Z) (buf : list Z) (size : Z) (ascii : bool) : M A unit :=
  match fuel with
  | O => out_of_fuel
  | S fuel =>
      if 0 <? size then
        let per_line := 16 in
        let start := ofs `mod` per_line in
        let end_ := if size <? per_line - start then start + size else per_line in
        let n := end_ - start in
        printf "%08jx  " [Wide (ofs - ofs `mod` per_line)];;
        printf_times (Z.to_nat start) "   ";;
        dump_hex (Z.to_nat n) buf start start;;
        (if ascii then
           printf_times (Z.to_nat (per_line - end_)) "   ";;
           printf "|" [];;
           printf_times (Z.to_nat start) " ";;
           dump_ascii (Z.to_nat n) buf start start;;
           printf_times (Z.to_nat (per_line - end_)) " ";;
           printf "|" []
         else mret tt);;
        __vprintf putc [10] [];;
        dump_lines fuel (u32 (ofs + n)) (drop (Z.to_nat n) buf) (size - n) ascii
      else mret tt
  end.
Definition hex_dump (ofs : Z) (buf : list Z) (size : Z) (ascii : bool) : M A unit := dump_lines (S (Z.to_nat size)) ofs buf size ascii.

Fixpoint scale (size : Z) (factor : string) (factors : list string) : Z * string :=
  match factors with
  | next :: factors => if 1024 <=? size then scale (size `div` 1024) next factors else (size, factor)
  | [] => (size, factor)
  end.
Definition print_human_readable_size (size : Z) : M A unit :=
  if size =? 1 then printf "1 byte" []
  else let '(size, factor) := scale size "bytes" ["kB"; "MB"; "GB"; "TB"] in printf "%llu %s" [Wide size; Str (Some (chars factor))].
End console.

(** ** Output of a user program *)

(** [write] is the system call, on a state of its own. *)
Section user_console.
Context {W : Type} (write : Z → list Z → M W Z).
(** [v_buf]: the characters in [buf] up to [p]. *)
Record vhprintf_aux := { v_buf : list Z; v_cnt : Z; v_handle : Z; v_world : W }.
Definition flush : M vhprintf_aux unit :=
  aux ← get;
  if 0 <? zlen (v_buf aux) then
    '(_, w) ← lift (write (v_handle aux) (v_buf aux) (v_world aux));
    put {| v_buf := []; v_cnt := v_cnt aux; v_handle := v_handle aux; v_world := w |}
  else put {| v_buf := []; v_cnt := v_cnt aux; v_handle := v_handle aux; v_world := v_world aux |}.
Definition add_char (c : Z) : M vhprintf_aux unit :=
  aux ← get;
  lift (if zlen (v_buf aux) <? 64 then Done tt else Undef);;
  put {| v_buf := v_buf aux ++ [c]; v_cnt := v_cnt aux; v_handle := v_handle aux; v_world := v_world aux |};;
  (if 64 <=? zlen (v_buf aux) + 1 then flush else mret tt);;
  aux ← get;
  cnt ← lift (int (v_cnt aux + 1));
  put {| v_buf := v_buf aux; v_cnt := cnt; v_handle := v_handle aux; v_world := v_world aux |}.
Definition vhprintf (handle : Z) (format : list Z) (args : list arg) : M W Z :=
  w ← get;
  '(_, aux) ← lift ((__vprintf add_char format args;; flush) {| v_buf := []; v_cnt := 0; v_handle := handle; v_world := w |});
  put (v_world aux);;
  mret (v_cnt aux).
Definition hprintf (handle : Z) (format : list Z) (args : list arg) : M W Z := vhprintf handle format args.
Definition vprintf (format : list Z) (args : list arg) : M W Z := vhprintf 1 format args.
Definition putchar (c : Z) : M W Z := write 1 [u8 c];; mret c.
Definition puts (s : list Z) : M W Z := write 1 s;; putchar 10;; mret 0.
End user_console.
