(* ===== verification/StdioSpec.v ===== *)
(** * Formatted output: theorems

    What [__vprintf] prints does not depend on the callback: it passes the
    characters of [text] to it one after the other.  From this follow the
    bounds of [vsnprintf], the buffering of [vhprintf] and the round trip
    with [atoi]. *)

From stdpp Require Import strings.
From S2P Require Import Prelude KList CString CStdlib Stdio.

(** ** The text *)

Definition on (b : bool) (s : list Z) : list Z := if b then s else [].
Definition integer_text (value : Z) (is_signed negative : bool) (b : integer_base) (c : printf_conversion) : outcome (list Z) :=
  let sign := sign_of is_signed negative c in
  let x := x_of value b c in
  buf ← integer_buffer value b c;
  let pad ch := replicate (Z.to_nat (pad_of buf sign x c)) ch in
  Done (on (negb (has (flags c) (Z.lor MINUS ZERO))) (pad 32) ++ on (negb (sign =? 0)) [sign] ++ on (negb (x =? 0)) [48; x]
        ++ on (has (flags c) ZERO) (pad 48) ++ buf ++ on (has (flags c) MINUS) (pad 32)).
Definition string_text (s : list Z) (length : Z) (c : printf_conversion) : list Z :=
  let pad := replicate (Z.to_nat (width c - length)) 32 in
  on ((length <? width c) && negb (has (flags c) MINUS)) pad ++ take (Z.to_nat length) s ++ on ((length <? width c) && has (flags c) MINUS) pad.
Fixpoint text_loop (fuel : nat) (format : list Z) (args : list arg) : outcome (list Z) :=
  match fuel with
  | O => NoFuel
  | S fuel =>
      match format with
      | [] => Done []
      | _ =>
          '(d, format, args) ← next_directive format args;
          t ← match d with
              | Literal ch => Done [ch]
              | Integer value is_signed negative b c => integer_text value is_signed negative b c
              | Text s length c => Done (string_text s length c)
              | Unsupported message ch => text_loop fuel message [Word (s8 ch)]
              end;
          u ← text_loop fuel format args;
          Done (t ++ u)
      end
  end.
Lemma text_loop_S fuel format args : format ≠ [] → text_loop (S fuel) format args =
  '(d, format, args) ← next_directive format args;
  t ← match d with
      | Literal ch => Done [ch]
      | Integer value is_signed negative b c => integer_text value is_signed negative b c
      | Text s length c => Done (string_text s length c)
      | Unsupported message ch => text_loop fuel message [Word (s8 ch)]
      end;
  u ← text_loop fuel format args;
  Done (t ++ u).
Proof. by destruct format. Qed.
Definition text (format : list Z) (args : list arg) : outcome (list Z) := text_loop (length format + 32) format args.

Lemma constant_u8 l : forallb (λ b, (0 <=? b) && (b <? 256)) l = true → Forall is_u8 l.
Proof. rewrite forallb_forall. intros H. apply Forall_forall. intros x Hx. specialize (H x Hx). unfold is_u8. lia. Qed.
Lemma bind_Done {A B} (x : A) (k : A → outcome B) : (y ← Done x; k y) = k x.
Proof. done. Qed.
Lemma bind_done {X Y} (o : outcome X) (f : X → outcome Y) y : o ≫= f = Done y → ∃ x, o = Done x ∧ f x = Done y.
Proof. destruct o as [x| | |]; try done. intros H. by exists x. Qed.

(** [m] prints [t] and does nothing else. *)
Definition emits {A} (output : Z → M A unit) (m : M A unit) (t : list Z) : Prop := ∀ s, m s = output_all output t s.

Section emits.
Context {A : Type} (output : Z → M A unit).
Implicit Types m : M A unit.
Lemma bind_at {X Y} (m : M A X) (f : X → M A Y) s : (m ≫= f) s = match m s with Done (a, s) => f a s | Panic => Panic | Undef => Undef | NoFuel => NoFuel end.
Proof. unfold mbind, M_bind. by destruct (m s) as [[]| | |]. Qed.
Lemma emits_nil : emits output (mret tt) [].
Proof. by intros s. Qed.
Lemma emits_one ch : emits output (output ch) [ch].
Proof. intros s. cbn [output_all]. rewrite bind_at. destruct (output ch s) as [[[] s']| | |]; done. Qed.
Lemma emits_bind m m' t t' : emits output m t → emits output m' t' → emits output (m;; m') (t ++ t').
Proof.
  intros Hm Hm' s. rewrite bind_at, Hm. revert s. clear Hm. induction t as [|ch t IH]; intros s; [apply Hm'|]. cbn [output_all app]. rewrite !bind_at.
  by destruct (output ch s) as [[[] s']| | |].
Qed.
Lemma emits_when b m t : emits output m t → emits output (when b m) (on b t).
Proof. intros H. destruct b; [done|apply emits_nil]. Qed.
Lemma emits_dup ch n : emits output (output_dup output ch n) (replicate n ch).
Proof. induction n as [|n IH]; [apply emits_nil|]. apply (emits_bind _ _ [ch]); [apply emits_one|done]. Qed.
Lemma emits_all t : emits output (output_all output t) t.
Proof. by intros s. Qed.
Lemma emits_integer value sgn neg b c t : integer_text value sgn neg b c = Done t → emits output (format_integer output value sgn neg b c) t.
Proof.
  unfold integer_text, format_integer. intros E s. rewrite bind_at. unfold lift. destruct (integer_buffer value b c) as [buf| | |]; try done. simpl in E. injection E as <-.
  revert s. repeat (apply emits_bind); try apply emits_when; try apply emits_dup; try apply emits_one; try apply emits_all.
  apply (emits_bind _ _ [48]); apply emits_one.
Qed.
Lemma emits_string s n c : emits output (format_string output s n c) (string_text s n c).
Proof. repeat apply emits_bind; try apply emits_when; try apply emits_dup; apply emits_all. Qed.
Lemma emits_loop fuel : ∀ format args t, text_loop fuel format args = Done t → emits output (vprintf_loop output fuel format args) t.
Proof.
  induction fuel as [|fuel IH]; intros format args t E; [done|]. cbn [text_loop vprintf_loop] in *. destruct format as [|c0 format0]; [injection E as <-; apply emits_nil|].
  intros s. rewrite bind_at. unfold lift. destruct (next_directive (c0 :: format0) args) as [[[d format] args']| | |]; try done. cbn [mbind outcome_bind] in *.
  apply bind_done in E as (t1 & E1 & E). apply bind_done in E as (t2 & E2 & E). injection E as <-.
  revert s. apply emits_bind; [|by apply IH]. destruct d; [injection E1 as <-; apply emits_one|by apply emits_integer|injection E1 as <-; apply emits_string|by apply IH].
Qed.
Lemma emits_vprintf format args t : text format args = Done t → emits output (__vprintf output format args) t.
Proof. apply emits_loop. Qed.
End emits.

(** ** Integers *)

Definition is_base (b : integer_base) : Prop := b = base_d ∨ b = base_o ∨ b = base_x ∨ b = base_X.
Lemma is_base_digits b : is_base b → 8 ≤ base b ∧ zlen (digits b) = base b.
Proof. by intros [-> | [-> | [-> | ->]]]. Qed.
Lemma push_room buf ch : zlen buf < 64 → push buf ch = Done (ch :: buf).
Proof. intros H. unfold push. by destruct (Z.ltb_spec (zlen buf) 64); [|lia]. Qed.

(** A [uintmax_t] has at most 22 digits in base 8; with the separators this is
    at most 44 characters. *)
Lemma digits_loop_bound k : ∀ fuel b c value cnt buf, is_base b → 0 ≤ value < 8 ^ Z.of_nat k → (k < fuel)%nat → 0 ≤ cnt → cnt + Z.of_nat k ≤ 22 → zlen buf ≤ 2 * cnt →
  ∃ buf', digits_loop fuel b c value cnt buf = Done buf' ∧ zlen buf' ≤ 44.
Proof.
  induction k as [|k IH]; intros fuel b c value cnt buf Hb Hv Hf Hc Hck Hl; (destruct fuel as [|fuel]; [lia|]); cbn [digits_loop].
  { assert (value = 0) as -> by (change (8 ^ Z.of_nat 0) with 1 in Hv; lia). exists buf. split; [done|lia]. }
  destruct (Z.ltb_spec 0 value); [|exists buf; split; [done|lia]]. destruct (is_base_digits b Hb) as [Hb8 Hbl]. pose proof (Z.mod_pos_bound value (base b) ltac:(lia)) as Hm.
  destruct (zlookup_lt (digits b) (value `mod` base b)) as [d Hd]; [lia|].
  assert (0 ≤ value `div` base b < 8 ^ Z.of_nat k) as Hdiv.
  { split; [apply Z.div_pos; lia|]. apply Z.div_lt_upper_bound; [lia|]. rewrite Nat2Z.inj_succ, Z.pow_succ_r in Hv by lia. pose proof (Z.pow_pos_nonneg 8 (Z.of_nat k)). nia. }
  case_match; [rewrite push_room by lia|]; cbn [mbind outcome_bind]; rewrite (rd_Some _ _ _ Hd); cbn [mbind outcome_bind]; (rewrite push_room by (rewrite ?zlen_cons; lia)); cbn [mbind outcome_bind];
    (apply IH; [done|done|lia|lia|lia|rewrite !zlen_cons; lia]).
Qed.
Lemma zeros_loop_spec fuel : ∀ p buf, 63 - zlen buf < Z.of_nat fuel → zlen buf ≤ 63 → ∃ n, zeros_loop fuel p buf = Done (replicate n 48 ++ buf) ∧ zlen (replicate n 48 ++ buf) = zlen buf `max` (p `min` 63).
Proof.
  induction fuel as [|fuel IH]; intros p buf Hf Hl; [lia|]. cbn [zeros_loop]. destruct (Z.ltb_spec (zlen buf) p), (Z.ltb_spec (zlen buf) 63); cbn [andb].
  2-4: exists 0%nat; split; [done|simpl; lia].
  rewrite push_room by lia. cbn [mbind outcome_bind]. destruct (IH p (48 :: buf)) as (n & -> & Hn); [rewrite zlen_cons; lia..|]. exists (S n).
  assert (replicate (S n) 48 ++ buf = replicate n 48 ++ 48 :: buf) as -> by (rewrite <-Nat.add_1_r, replicate_add, <-app_assoc; done). split; [done|]. rewrite Hn, zlen_cons. lia.
Qed.
Lemma integer_buffer_bound value b c : is_u64 value → is_base b → ∃ buf, integer_buffer value b c = Done buf ∧ zlen buf ≤ 64 ∧ precision c `min` 63 ≤ zlen buf.
Proof.
  intros Hv Hb. unfold integer_buffer. destruct (digits_loop_bound 22 65 b c value 0 []) as (buf & -> & Hl); [done| |lia|lia|lia|by rewrite zlen_nil|].
  { change (8 ^ Z.of_nat 22) with (2 ^ 66). unfold is_u64 in Hv. lia. }
  cbn [mbind outcome_bind]. set (p := if precision c <? 0 then 1 else precision c). destruct (zeros_loop_spec 64 p buf) as (n & -> & Hn); [pose proof (zlen_nonneg buf); lia|lia|].
  assert (precision c ≤ p) by (subst p; destruct (Z.ltb_spec (precision c) 0); lia). cbn [mbind outcome_bind].
  case_match; [rewrite push_room by lia|]; eexists; (split; [done|]); rewrite ?zlen_cons; lia.
Qed.
Lemma has_or f a b : has f (Z.lor a b) = has f a || has f b.
Proof.
  unfold has. rewrite Z.land_lor_distr_r. destruct (Z.eqb_spec (Z.lor (Z.land f a) (Z.land f b)) 0) as [E|E].
  - apply Z.lor_eq_0_iff in E as [-> ->]. done.
  - destruct (Z.eqb_spec (Z.land f a) 0) as [E1|], (Z.eqb_spec (Z.land f b) 0) as [E2|]; try done. by rewrite E1, E2 in E.
Qed.
Lemma zlen_replicate {A} n (x : A) : zlen (replicate n x) = Z.of_nat n.
Proof. unfold zlen. by rewrite length_replicate. Qed.
Lemma zlen_on b t : zlen (on b t) = if b then zlen t else 0.
Proof. by destruct b. Qed.
(** An integer conversion of any 64-bit value, with any flags, width and
    precision, always ends, never overruns the 64-byte buffer its digits are
    collected in, yields at least [min (precision, 63)] digits and fills at
    least the field width. *)
Theorem format_integer_bounded value is_signed negative b c : is_u64 value → is_base b →
  ∃ buf t, integer_buffer value b c = Done buf ∧ precision c `min` 63 ≤ zlen buf ≤ 64 ∧ width c ≤ zlen t ∧
    ∀ A (output : Z → M A unit) s, format_integer output value is_signed negative b c s = output_all output t s.
Proof.
  intros Hv Hb. destruct (integer_buffer_bound value b c Hv Hb) as (buf & E & Hl & Hp). unfold is_u64 in Hv.
  assert (∃ t, integer_text value is_signed negative b c = Done t ∧ width c ≤ zlen t) as (t & Et & Hw).
  { unfold integer_text. rewrite E. cbn [mbind outcome_bind]. eexists. split; [done|]. rewrite !zlen_app, !zlen_on, !zlen_replicate, has_or. unfold pad_of.
    set (sgn := sign_of _ _ _). set (x := x_of _ _ _). change (zlen [sgn]) with 1. change (zlen [48; x]) with 2.
    destruct (has (flags c) MINUS), (has (flags c) ZERO), (Z.eqb_spec sgn 0), (Z.eqb_spec x 0); cbn [negb orb]; lia. }
  exists buf, t. split_and!; try done. intros A output. by apply emits_integer.
Qed.
Lemma format_integer_bounded_witness :
  ∃ t, 6 ≤ zlen t ∧ ∀ A (output : Z → M A unit) s, format_integer output 1234 true true base_d {| flags := GROUP; width := 6; precision := -1; type := INT |} s = output_all output t s.
Proof.
  destruct (format_integer_bounded 1234 true true base_d {| flags := GROUP; width := 6; precision := -1; type := INT |}) as (buf & t & _ & _ & Hw & Ht).
  - vm_compute. split; (discriminate || reflexivity).
  - left. reflexivity.
  - exists t. split; [exact Hw|exact Ht].
Defined.

(** ** Buffers *)

Lemma run_int z s (Q : Z → vsnprintf_aux → Prop) : - 2 ^ 31 ≤ z < 2 ^ 31 → Q z s → runs (lift (int z)) s Q.
Proof. intros Hz HQ. unfold int. destruct (Z.leb_spec (- 2 ^ 31) z), (Z.ltb_spec z (2 ^ 31)); try lia. cbn [andb]. by run. Qed.
(** The characters [t] from [p] on, the rest as in [m]. *)
Definition stored (m m' : mem) (p : Z) (t : list Z) : Prop :=
  zlen m' = zlen m ∧ ∀ j, m'@[j] = if (p <=? j) && (j <? p + zlen t) then t@[j - p] else m@[j].
Lemma stored_nil m p : stored m m p [].
Proof. split; [done|]. intros j. change (zlen (@nil Z)) with 0. destruct (Z.leb_spec p j), (Z.ltb_spec j (p + 0)); done || lia. Qed.
Lemma stored_cons m m' p ch t : 0 ≤ p < zlen m → stored (m@[p := ch]) m' (p + 1) t → stored m m' p (ch :: t).
Proof.
  intros Hp [Hl Hm]. split; [by rewrite Hl, zlen_insert|]. intros j. rewrite Hm, zlen_cons. destruct (Z.eq_dec p j) as [->|].
  - rewrite zlookup_insert_eq by lia. pose proof (zlen_nonneg t). destruct (Z.leb_spec (j + 1) j), (Z.leb_spec j j), (Z.ltb_spec j (j + (1 + zlen t))); try lia. cbn [andb]. by rewrite Z.sub_diag.
  - rewrite zlookup_insert_ne by done. destruct (Z.leb_spec (p + 1) j), (Z.leb_spec p j), (Z.ltb_spec j (p + 1 + zlen t)), (Z.ltb_spec j (p + (1 + zlen t))); try lia; cbn [andb]; try done.
    unfold zlookup. destruct (Z.ltb_spec (j - (p + 1)) 0), (Z.ltb_spec (j - p) 0); try lia. by replace (Z.to_nat (j - p)) with (S (Z.to_nat (j - (p + 1)))) by lia.
Qed.
Lemma run_helper ch m p len max (Q : unit → vsnprintf_aux → Prop) : 0 ≤ len → len + 1 < 2 ^ 31 → (len < max → 0 ≤ p < zlen m) →
  Q tt (if len <? max then {| aux_mem := m@[p := ch]; aux_p := p + 1; aux_length := len + 1; aux_max_length := max |}
        else {| aux_mem := m; aux_p := p; aux_length := len + 1; aux_max_length := max |}) →
  runs (vsnprintf_helper ch) {| aux_mem := m; aux_p := p; aux_length := len; aux_max_length := max |} Q.
Proof.
  intros Hlen Hmax Hp HQ. unfold vsnprintf_helper. apply runs_bind, runs_get. cbn [aux_length aux_max_length aux_mem aux_p]. apply runs_bind, run_int; [lia|].
  destruct (Z.ltb_spec len max); [rewrite wr_in by lia|]; by run.
Qed.
Lemma helper_spec t : ∀ m p len max, 0 ≤ p → 0 ≤ len → len + zlen t < 2 ^ 31 → p + Z.max 0 (max - len) ≤ zlen m →
  runs (output_all vsnprintf_helper t) {| aux_mem := m; aux_p := p; aux_length := len; aux_max_length := max |}
    (λ _ aux, let t' := take (Z.to_nat (max - len)) t in aux_p aux = p + zlen t' ∧ aux_length aux = len + zlen t ∧ stored m (aux_mem aux) p t').
Proof.
  induction t as [|ch t IH]; intros m p len max Hp Hlen Hmax Hroom; cbn [output_all].
  { run. rewrite take_nil. change (zlen (@nil Z)) with 0. cbn. split_and!; [lia|lia|apply stored_nil]. }
  rewrite zlen_cons in *. pose proof (zlen_nonneg t). apply runs_bind, run_helper; [lia|lia|lia|]. destruct (Z.ltb_spec len max) as [Hlt|Hge].
  - eapply runs_mono; [apply IH; rewrite ?zlen_insert; lia|]. cbn zeta. intros [] aux (Hp' & Hl' & Hst).
    replace (Z.to_nat (max - len)) with (S (Z.to_nat (max - (len + 1)))) by lia. cbn [take]. rewrite zlen_cons. split_and!; [lia|lia|]. apply stored_cons; [lia|done].
  - eapply runs_mono; [apply IH; lia|]. cbn zeta. intros [] aux (Hp' & Hl' & Hst). replace (Z.to_nat (max - len)) with O by lia. replace (Z.to_nat (max - (len + 1))) with O in * by lia.
    cbn [take] in *. split_and!; [done|lia|done].
Qed.

(** C30 [vsnprintf] and [snprintf] never write outside the buffer, store in it as
    much of the text as fits, always terminate it with a null character if it
    has any space at all, and return the length of the whole text. *)
Theorem snprintf_bounded m buffer buf_size format args t : text format args = Done t → zlen t < 2 ^ 31 → 0 ≤ buf_size ≤ 2 ^ 31 → 0 ≤ buffer → buffer + buf_size ≤ zlen m →
  runs (snprintf buffer buf_size format args) m (λ r m', r = zlen t ∧
    stored m m' buffer (if 0 <? buf_size then take (Z.to_nat (buf_size - 1)) t ++ [0] else [])).
Proof.
  intros Et Ht Hs Hb Hroom. unfold snprintf, vsnprintf. pose proof (zlen_nonneg t) as Ht0. apply runs_bind, runs_get.
  set (max := if 0 <? buf_size then s32 (buf_size - 1) else 0). assert (max = Z.max 0 (buf_size - 1)) as Emax.
  { unfold max, s32. destruct (Z.ltb_spec 0 buf_size); [|lia]. rewrite Z.mod_small by lia. lia. }
  pose proof (helper_spec t m buffer 0 max Hb ltac:(lia) ltac:(lia) ltac:(lia)) as H. unfold runs in H. rewrite <-(emits_vprintf _ _ _ _ Et) in H.
  destruct (__vprintf _ _ _ _) as [[[] aux]| | |]; [|done..]. cbn zeta in H. rewrite Z.sub_0_r in H. destruct H as (Hp & Hl & [Hlm Hm]). cbn [lift]. apply runs_bind, runs_lift.
  cbn [mbind outcome_bind]. apply runs_bind, runs_put. rewrite Hl. destruct (Z.ltb_spec 0 buf_size) as [Hpos|]; cycle 1.
  { run. split; [lia|]. assert (max = 0) as Em by lia. rewrite Em in *. by split. }
  replace max with (buf_size - 1) in * by lia. set (t' := take (Z.to_nat (buf_size - 1)) t) in *. assert (zlen t' ≤ buf_size - 1) by (unfold t', zlen; rewrite length_take; lia). pose proof (zlen_nonneg t').
  apply runs_bind, run_set_byte; [lia|]. run. split; [lia|]. split; [by rewrite zlen_insert|]. intros j. rewrite Hp, zlen_app, zlookup_app. change (zlen [0]) with 1.
  destruct (Z.eq_dec j (buffer + zlen t')) as [->|].
  - rewrite zlookup_insert_eq by lia. destruct (Z.leb_spec buffer (buffer + zlen t')), (Z.ltb_spec (buffer + zlen t') (buffer + (zlen t' + 1))), (Z.ltb_spec (buffer + zlen t' - buffer) (zlen t')); try lia.
    replace (buffer + zlen t' - buffer - zlen t') with 0 by lia. done.
  - rewrite zlookup_insert_ne by lia. rewrite Hm. destruct (Z.leb_spec buffer j), (Z.ltb_spec j (buffer + zlen t')), (Z.ltb_spec j (buffer + (zlen t' + 1))); try lia; cbn [andb]; try done.
    destruct (Z.ltb_spec (j - buffer) (zlen t')); [done|lia].
Qed.
Lemma snprintf_bounded_witness : runs (snprintf 1 4 (chars "%d!") [Word 4567]) [7; 7; 7; 7; 7; 7] (λ r m', r = 5 ∧ m'@[3] = Some 54 ∧ m'@[4] = Some 0 ∧ m'@[5] = Some 7).
Proof.
  refine (runs_mono _ _ _ _ (snprintf_bounded [7; 7; 7; 7; 7; 7] 1 4 (chars "%d!") [Word 4567] (chars "4567!") _ _ _ _ _) _); [vm_compute; reflexivity|vm_compute; reflexivity|lia|lia|vm_compute; discriminate|].
  intros r m' (-> & _ & H). rewrite !H. vm_compute. split_and!; reflexivity.
Defined.

(** ** Numbers, printed and read *)

Definition is_digit (c : Z) : Prop := 48 ≤ c ≤ 57.
(** The number the digits stand for, after the number [v]. *)
Definition number (v : Z) (ds : list Z) : Z := foldl (λ v d, v * 10 + (d - 48)) v ds.
Lemma number_app v ds ds' : number v (ds ++ ds') = number (number v ds) ds'.
Proof. apply foldl_app. Qed.
Lemma number_shift ds : ∀ v, Forall is_digit ds → 0 ≤ v → v ≤ number v ds.
Proof. induction ds as [|d ds IH]; intros v Hd Hv; [simpl; lia|]. apply Forall_cons_1 in Hd as [Hd Hds]. unfold is_digit in Hd. pose proof (IH (v * 10 + (d - 48)) Hds ltac:(lia)). change (number v (d :: ds)) with (number (v * 10 + (d - 48)) ds). lia. Qed.
Lemma digit_char r : 0 ≤ r < 10 → (digits base_d)@[r] = Some (48 + r).
Proof. intros Hr. assert (r = 0 ∨ r = 1 ∨ r = 2 ∨ r = 3 ∨ r = 4 ∨ r = 5 ∨ r = 6 ∨ r = 7 ∨ r = 8 ∨ r = 9) as H by lia. by repeat destruct H as [-> | H]; [..|subst]. Qed.
Lemma digits_loop_number fuel : ∀ c value cnt buf buf', has (flags c) GROUP = false → 0 ≤ value → digits_loop fuel base_d c value cnt buf = Done buf' →
  ∃ ds, buf' = ds ++ buf ∧ Forall is_digit ds ∧ number 0 ds = value.
Proof.
  induction fuel as [|fuel IH]; intros c value cnt buf buf' Hg Hv E; [done|]. cbn [digits_loop] in E. destruct (Z.ltb_spec 0 value); cycle 1.
  { injection E as <-. exists []. split_and!; [done|constructor|cbn; lia]. }
  rewrite Hg in E. cbn [andb] in E. change (base base_d) with 10 in E. pose proof (Z.mod_pos_bound value 10 ltac:(lia)) as Hm. rewrite (rd_Some _ _ _ (digit_char _ Hm)) in E.
  cbn [mbind outcome_bind] in E. apply bind_done in E as (b1 & Hb1 & E). unfold push in Hb1. destruct (zlen buf <? 64); [|done]. injection Hb1 as <-.
  apply IH in E as (ds & -> & Hd & Hn); [|done|apply Z.div_pos; lia]. exists (ds ++ [48 + value `mod` 10]). split_and!.
  - by rewrite <-app_assoc.
  - apply Forall_app. split; [done|]. repeat constructor; lia.
  - rewrite number_app, Hn. cbn [number foldl]. pose proof (Z.div_mod value 10 ltac:(lia)). lia.
Qed.
Lemma number_zeros n ds : number 0 (replicate n 48 ++ ds) = number 0 ds.
Proof. induction n as [|n IH]; [done|]. exact IH. Qed.
Definition plain : printf_conversion := {| flags := 0; width := 0; precision := -1; type := INT |}.
(** The digits of a number, at least one. *)
Lemma plain_digits v : is_u64 v → ∃ buf, integer_buffer v base_d plain = Done buf ∧ Forall is_digit buf ∧ buf ≠ [] ∧ number 0 buf = v.
Proof.
  intros Hv. unfold integer_buffer. destruct (digits_loop_bound 22 65 base_d plain v 0 []) as (buf & E & Hl); [by left| |lia|lia|lia|by rewrite zlen_nil|].
  { change (8 ^ Z.of_nat 22) with (2 ^ 66). unfold is_u64 in Hv. lia. }
  rewrite E. apply digits_loop_number in E as (ds & -> & Hd & Hn); [|done|by destruct Hv]. rewrite app_nil_r in *. cbn [mbind outcome_bind].
  change (if precision plain <? 0 then 1 else precision plain) with 1. destruct (zeros_loop_spec 64 1 ds) as (n & -> & Hz); [pose proof (zlen_nonneg ds); lia|lia|]. cbn.
  exists (replicate n 48 ++ ds). split_and!; [done| |intros E; rewrite E in Hz; change (zlen (@nil Z)) with 0 in Hz; lia|by rewrite number_zeros].
  apply Forall_app. split; [|done]. apply Forall_replicate. unfold is_digit. lia.
Qed.
(** [atoi] accumulates the negated number. *)
Lemma atoi_digits_number ds : ∀ v, Forall is_digit ds → 0 ≤ v → number v ds ≤ 2 ^ 31 → atoi_digits (- v) ds = Done (- number v ds).
Proof.
  induction ds as [|d ds IH]; intros v Hd Hv Hn; [done|]. apply Forall_cons_1 in Hd as [Hd Hds]. change (number v (d :: ds)) with (number (v * 10 + (d - 48)) ds) in *. unfold is_digit in Hd.
  pose proof (number_shift ds (v * 10 + (d - 48)) Hds ltac:(lia)). cbn [atoi_digits]. unfold isdigit, int.
  destruct (Z.leb_spec 48 d), (Z.leb_spec d 57), (Z.leb_spec (- 2 ^ 31) (- v * 10)), (Z.ltb_spec (- v * 10) (2 ^ 31)); try lia. cbn [andb mbind outcome_bind].
  destruct (Z.leb_spec (- 2 ^ 31) (- v * 10 - (d - 48))), (Z.ltb_spec (- v * 10 - (d - 48)) (2 ^ 31)); try lia. cbn [andb mbind outcome_bind].
  replace (- v * 10 - (d - 48)) with (- (v * 10 + (d - 48))) by lia. apply IH; [done|lia|lia].
Qed.
Lemma atoi_number (neg : bool) ds : Forall is_digit ds → ds ≠ [] → (if neg then number 0 ds ≤ 2 ^ 31 else number 0 ds < 2 ^ 31) →
  atoi (if neg then 45 :: ds else ds) = Done (if neg then - number 0 ds else number 0 ds).
Proof.
  intros Hd Hne Hn. pose proof (atoi_digits_number ds 0 Hd ltac:(lia) ltac:(destruct neg; lia)) as E. change (- 0) with 0 in E. destruct neg.
  - change (atoi (45 :: ds)) with (value ← atoi_digits 0 ds; Done value). by rewrite E.
  - destruct ds as [|d ds]; [done|]. pose proof Hd as [Hd1 _]%Forall_cons_1. unfold is_digit in Hd1. unfold atoi.
    assert (skip_space (d :: ds) = d :: ds) as -> by (cbn [skip_space]; unfold isspace; repeat (match goal with |- context [?a =? ?b] => destruct (Z.eqb_spec a b); [lia|] end); done).
    destruct (Z.eqb_spec d 43), (Z.eqb_spec d 45); try lia. rewrite E. cbn [mbind outcome_bind]. rewrite Z.opp_involutive. unfold int.
    pose proof (number_shift (d :: ds) 0 Hd ltac:(lia)). destruct (Z.leb_spec (- 2 ^ 31) (number 0 (d :: ds))), (Z.ltb_spec (number 0 (d :: ds)) (2 ^ 31)); try lia. done.
Qed.
Lemma printed_int n : - 2 ^ 31 ≤ n < 2 ^ 31 → next_directive (chars "%d") [Word n] = Done (Integer (Z.abs n) true (n <? 0) base_d plain, [], []).
Proof.
  intros Hn. assert (s32 (u32 n) = n) as E. { unfold s32, u32. rewrite Zplus_mod_idemp_l. rewrite Z.mod_small by lia. lia. }
  transitivity (m ← magnitude (s32 (u32 n)); Done (Integer m true (s32 (u32 n) <? 0) base_d plain, [] : list Z, [] : list arg)).
  - change (next_directive (chars "%d") [Word n]) with ('(c, f, args) ← parse_conversion [100] [Word n]; '(d, args) ← convert (peek f) c args; f ← step f; Done (d, f, args)).
    change (parse_conversion [100] [Word n]) with (Done (plain, [100], [Word n])). cbn [mbind outcome_bind peek].
    change (convert 100 plain [Word n]) with (m ← magnitude (s32 (u32 n)); Done (Integer m true (s32 (u32 n) <? 0) base_d plain, @nil arg)).
    by destruct (magnitude (s32 (u32 n))).
  - rewrite E. unfold magnitude. destruct (Z.ltb_spec n 0), (Z.eqb_spec n (- 2 ^ 63)); try lia; cbn; do 4 f_equal; lia.
Qed.
(** C39 Printing an [int] with [%d] and reading the text with [atoi] gives the
    number back, over the whole range of [int]. *)
Theorem printf_atoi_roundtrip n : - 2 ^ 31 ≤ n < 2 ^ 31 → (t ← text (chars "%d") [Word n]; atoi t) = Done n.
Proof.
  intros Hn. assert (is_u64 (Z.abs n)) as Hu by (unfold is_u64; lia). destruct (plain_digits (Z.abs n) Hu) as (buf & E & Hd & Hne & Hv).
  assert (text (chars "%d") [Word n] = Done (if n <? 0 then 45 :: buf else buf)) as ->.
  { change (text (chars "%d") [Word n]) with (text_loop (S 33) (chars "%d") [Word n]). rewrite text_loop_S by done.
    rewrite (printed_int n Hn). cbn [mbind outcome_bind]. unfold integer_text. rewrite E. cbn [mbind outcome_bind]. unfold x_of. cbn.
    assert (∀ s, pad_of buf s 0 plain = 0) as Ep by (intros s; unfold pad_of; cbn [width plain Z.eqb]; pose proof (zlen_nonneg buf); destruct (s =? 0); lia).
    destruct (n <? 0); cbn; rewrite ?Ep, ?app_nil_r; done. }
  cbn [mbind outcome_bind]. rewrite atoi_number; [|done|done|rewrite Hv; destruct (Z.ltb_spec n 0); lia]. rewrite Hv. f_equal. destruct (Z.ltb_spec n 0); lia.
Qed.
Lemma printf_atoi_roundtrip_witness : (t ← text (chars "%d") [Word (-2147483648)]; atoi t) = Done (-2147483648).
Proof. apply (printf_atoi_roundtrip (-2147483648)). lia. Defined.

(** ** Buffered output *)

(** A [write] that records its calls. *)
Definition log_write (handle : Z) (buffer : list Z) : M (list (Z * list Z)) Z := modify (λ calls, calls ++ [(handle, buffer)]);; mret (zlen buffer).
(** The calls wrote [t], at most 64 characters at a time. *)
Definition wrote (handle : Z) (t : list Z) (calls : list (Z * list Z)) : Prop :=
  concat (snd <$> calls) = t ∧ Forall (λ c, c.1 = handle ∧ 0 < zlen c.2 ≤ 64) calls.
Lemma wrote_snoc h t calls buf : wrote h t calls → 0 < zlen buf ≤ 64 → wrote h (t ++ buf) (calls ++ [(h, buf)]).
Proof.
  intros [<- Hc] Hb. split; [by rewrite fmap_app, concat_app; cbn; rewrite app_nil_r|]. apply Forall_app. split; [done|]. by apply Forall_singleton.
Qed.
(** The characters of [t] written or still in the buffer. *)
Definition pending (h : Z) (w : list (Z * list Z)) (t : list Z) (aux : vhprintf_aux) : Prop :=
  v_handle aux = h ∧ v_cnt aux = zlen t ∧ zlen (v_buf aux) < 64 ∧ ∃ calls t', v_world aux = w ++ calls ∧ wrote h t' calls ∧ t = t' ++ v_buf aux.
Lemma run_flush h w t t' calls aux (Q : unit → vhprintf_aux → Prop) : v_handle aux = h → zlen (v_buf aux) ≤ 64 → v_world aux = w ++ calls → wrote h t' calls → t = t' ++ v_buf aux →
  (∀ aux', v_handle aux' = h → v_cnt aux' = v_cnt aux → v_buf aux' = [] → (∃ calls, v_world aux' = w ++ calls ∧ wrote h t calls) → Q tt aux') → runs (flush log_write) aux Q.
Proof.
  intros Hh Hl Hw Hc Ht HQ. unfold flush. apply runs_bind, runs_get. destruct (Z.ltb_spec 0 (zlen (v_buf aux))).
  - apply runs_bind. cbn. apply runs_put, HQ; try done. cbn. exists (calls ++ [(v_handle aux, v_buf aux)]). rewrite Hw, <-app_assoc. split; [done|]. rewrite Hh. subst t. by apply wrote_snoc.
  - apply runs_put, HQ; try done. exists calls. split; [done|]. destruct (v_buf aux); [by rewrite Ht, app_nil_r|rewrite zlen_cons in *; pose proof (zlen_nonneg l); lia].
Qed.
Lemma run_add_char h w t ch aux : pending h w t aux → zlen t + 1 < 2 ^ 31 → runs (add_char log_write ch) aux (λ _ aux', pending h w (t ++ [ch]) aux').
Proof.
  intros (Hh & Hcnt & Hl & calls & t' & Hw & Hc & Ht) Hlen. unfold add_char. apply runs_bind, runs_get. apply runs_bind. destruct (Z.ltb_spec (zlen (v_buf aux)) 64); [|lia]. apply runs_lift. cbn [mbind outcome_bind].
  apply runs_bind, runs_put. pose proof (zlen_nonneg t). set (aux1 := {| v_buf := v_buf aux ++ [ch]; v_cnt := v_cnt aux; v_handle := v_handle aux; v_world := v_world aux |}).
  assert (zlen (v_buf aux1) = zlen (v_buf aux) + 1) as Hl1 by (cbn; by rewrite zlen_app).
  assert (∀ aux2, v_handle aux2 = h → v_cnt aux2 = v_cnt aux → zlen (v_buf aux2) < 64 → (∃ calls t', v_world aux2 = w ++ calls ∧ wrote h t' calls ∧ t ++ [ch] = t' ++ v_buf aux2) →
    runs (aux ← get; cnt ← lift (int (v_cnt aux + 1)); put {| v_buf := v_buf aux; v_cnt := cnt; v_handle := v_handle aux; v_world := v_world aux |}) aux2 (λ _ aux', pending h w (t ++ [ch]) aux')) as Hend.
  { intros aux2 Hh2 Hc2 Hl2 Hex. apply runs_bind, runs_get, runs_bind. unfold int. rewrite Hc2, Hcnt. destruct (Z.leb_spec (- 2 ^ 31) (zlen t + 1)), (Z.ltb_spec (zlen t + 1) (2 ^ 31)); try lia.
    apply runs_lift. cbn [andb mbind outcome_bind]. apply runs_put. split_and!; [done|cbn; by rewrite zlen_app|done|done]. }
  apply runs_bind. destruct (Z.leb_spec 64 (zlen (v_buf aux) + 1)).
  - apply (run_flush h w (t ++ [ch]) t' calls aux1); [done|lia|done|done|by rewrite Ht, <-app_assoc|]. intros aux2 Hh2 Hc2 Hb2 (calls2 & Hw2 & Hwr2).
    apply Hend; [done|done|by rewrite Hb2|]. exists calls2, (t ++ [ch]). split_and!; [done|done|by rewrite Hb2, app_nil_r].
  - apply runs_ret. apply Hend; [done|done|lia|]. exists calls, t'. split_and!; [done|done|cbn; by rewrite Ht, <-app_assoc].
Qed.
Lemma run_add_all h w u : ∀ t aux, pending h w t aux → zlen t + zlen u < 2 ^ 31 → runs (output_all (add_char log_write) u) aux (λ _ aux', pending h w (t ++ u) aux').
Proof.
  induction u as [|ch u IH]; intros t aux Hp Hl; cbn [output_all]; [run; by rewrite app_nil_r|]. rewrite zlen_cons in Hl. pose proof (zlen_nonneg u). apply runs_bind.
  eapply runs_mono; [apply (run_add_char h w t); [done|lia]|]. intros [] aux1 H1. eapply runs_mono; [apply (IH (t ++ [ch])); [done|rewrite zlen_app; change (zlen [ch]) with 1; lia]|].
  intros [] aux2. by rewrite <-app_assoc.
Qed.
(** A user program's [printf] writes exactly the text of its format, through
    system calls of at most 64 characters and none of them empty, and returns
    the number of characters. *)
Theorem hprintf_writes_text handle format args t w : text format args = Done t → zlen t < 2 ^ 31 →
  runs (hprintf log_write handle format args) w (λ r w', r = zlen t ∧ ∃ calls, w' = w ++ calls ∧ wrote handle t calls).
Proof.
  intros Et Hl. unfold hprintf, vhprintf. apply runs_bind, runs_get, runs_bind. set (aux0 := {| v_buf := _; v_cnt := _; v_handle := _; v_world := _ |}).
  assert (runs (__vprintf (add_char log_write) format args;; flush log_write) aux0 (λ _ aux, v_cnt aux = zlen t ∧ ∃ calls, v_world aux = w ++ calls ∧ wrote handle t calls)) as H.
  { apply runs_bind. unfold runs at 1. rewrite (emits_vprintf _ _ _ _ Et). eapply (runs_mono _ _ (λ _ aux, pending handle w t aux)).
    - apply (run_add_all handle w t []); [|change (zlen (@nil Z)) with 0; lia]. split_and!; [done|done|done|]. exists [], []. split_and!; [by rewrite app_nil_r|by repeat constructor|done].
    - intros [] aux (Hh & Hc & Hb & calls & t' & Hw & Hwr & Ht). apply (run_flush handle w t t' calls aux); [done|lia|done|done|done|]. intros aux' _ Hc' _ Hw'. split; [congruence|done]. }
  unfold runs in H. destruct ((__vprintf _ _ _;; _) aux0) as [[[] aux]| | |]; [|done..]. apply runs_lift. cbn [mbind outcome_bind]. apply runs_bind, runs_put. by run.
Qed.
Lemma hprintf_writes_text_witness : runs (hprintf log_write 1 (chars "x%d") [Word 12]) [] (λ r w', r = 3 ∧ ∃ calls, w' = [] ++ calls ∧ wrote 1 (chars "x12") calls).
Proof. apply (hprintf_writes_text 1 (chars "x%d") [Word 12] (chars "x12") []); vm_compute; reflexivity. Defined.

(** ** Conversions *)

Definition conversion_wf (c : printf_conversion) : Prop :=
  0 ≤ flags c < 64 ∧ 0 ≤ width c < 2 ^ 31 ∧ -1 ≤ precision c < 2 ^ 31 ∧
  has (flags c) PLUS && has (flags c) SPACE = false ∧ (0 ≤ precision c → has (flags c) ZERO = false).
(** A property of the 64 sets of flags, checked one by one. *)
Lemma all_flags (P : Z → bool) : forallb P (seqZ 0 64) = true → ∀ f, 0 ≤ f < 64 → P f = true.
Proof. intros H f Hf. rewrite forallb_forall in H. apply H, list_elem_of_In, elem_of_seqZ. lia. Qed.
Definition in_range (f : Z) : bool := (0 <=? f) && (f <? 64).
Lemma in_range_iff f : in_range f = true ↔ 0 ≤ f < 64.
Proof. unfold in_range. rewrite andb_true_iff, Z.leb_le, Z.ltb_lt. done. Qed.
Lemma parse_flags_range format : ∀ f f' format', 0 ≤ f < 64 → parse_flags f format = (f', format') → 0 ≤ f' < 64.
Proof.
  induction format as [|c format IH]; intros f f' format' Hf E; cbn [parse_flags] in E; [by injection E as <- _|].
  destruct (flag_of c) as [b|] eqn:Eb; [|by injection E as <- _]. eapply IH, E. apply in_range_iff.
  assert (b ∈ [MINUS; PLUS; SPACE; POUND; ZERO; GROUP]) as Hb by (unfold flag_of in Eb; repeat (match type of Eb with context [?a =? ?b] => destruct (a =? b) end); inversion Eb; subst; set_solver).
  apply (all_flags (λ f, forallb (λ b, in_range (Z.lor f b)) [MINUS; PLUS; SPACE; POUND; ZERO; GROUP])) in Hf; [|by vm_compute].
  rewrite forallb_forall in Hf. by apply Hf, list_elem_of_In.
Qed.
Lemma int_done z z' : int z = Done z' → z' = z ∧ - 2 ^ 31 ≤ z < 2 ^ 31.
Proof. unfold int. destruct (Z.leb_spec (- 2 ^ 31) z), (Z.ltb_spec z (2 ^ 31)); try done. intros [= ->]. lia. Qed.
Lemma parse_number_range format : ∀ n n' format', 0 ≤ n < 2 ^ 31 → parse_number n format = Done (n', format') → 0 ≤ n' < 2 ^ 31.
Proof.
  induction format as [|c format IH]; intros n n' format' Hn E; cbn [parse_number] in E; [by injection E as <- _|].
  destruct (isdigit c) eqn:Ed; [|by injection E as <- _]. apply bind_done in E as (a & [-> _]%int_done & E). apply bind_done in E as (b & [-> _]%int_done & E). apply bind_done in E as (d & [-> Hd]%int_done & E).
  eapply IH, E. unfold isdigit in Ed. lia.
Qed.
Lemma s32_bounds z : - 2 ^ 31 ≤ s32 z < 2 ^ 31.
Proof. unfold s32. pose proof (Z.mod_pos_bound (z + 2 ^ 31) (2 ^ 32) ltac:(lia)). lia. Qed.
Lemma va_word_done args w args' : va_word args = Done (w, args') → ∃ v, args = Word v :: args' ∧ w = u32 v.
Proof. destruct args as [|[v| |] args]; try done. intros [= <- <-]. by exists v. Qed.
Lemma parse_width_range format args w format' args' : parse_width format args = Done (w, format', args') →
  - 2 ^ 31 ≤ w < 2 ^ 31 ∧ (w < 0 → ∃ v args0, args = Word v :: args0 ∧ s32 (u32 v) = w).
Proof.
  unfold parse_width. destruct (peek format =? 42); intros E; apply bind_done in E as (f & E1 & E).
  - apply bind_done in E as ([w0 args0] & (v & -> & ->)%va_word_done & [= <- <- <-]). split; [apply s32_bounds|]. intros _. by exists v, args0.
  - destruct f as [w0 f0]. injection E as <- _ _. apply parse_number_range in E1; lia.
Qed.
Lemma parse_precision_range format args p format' args' : parse_precision format args = Done (p, format', args') → -1 ≤ p < 2 ^ 31.
Proof.
  unfold parse_precision. destruct (peek format =? 46); [|by intros [= <- _ _]]. intros E. apply bind_done in E as (f & _ & E). apply bind_done in E as ([[p0 f0] args0] & E1 & [= <- _ _]).
  assert (p0 < 2 ^ 31) by (destruct (peek f =? 42); apply bind_done in E1 as (x & E0 & E1);
    [apply bind_done in E1 as ([w a] & _ & [= <- _ _]); apply s32_bounds|destruct x; injection E1 as <- _ _; apply parse_number_range in E0; lia]).
  destruct (Z.ltb_spec p0 0); lia.
Qed.
(** A conversion specification that is parsed is well formed: only the six
    flags, a width that is not negative, a precision of at least -1, a space
    flag never beside a plus flag and a zero flag never with a precision; the
    zero flag goes with the minus flag only if the width is a negative
    argument. *)
Theorem parse_conversion_wf format args c format' args' : parse_conversion format args = Done (c, format', args') →
  conversion_wf c ∧ (has (flags c) MINUS && has (flags c) ZERO → ∃ w args0, args = Word w :: args0 ∧ s32 (u32 w) < 0).
Proof.
  unfold parse_conversion. destruct (parse_flags 0 format) as [f0 fmt0] eqn:E0. apply parse_flags_range in E0; [|lia].
  set (f1 := if has f0 MINUS then Z.ldiff f0 ZERO else f0). set (f2 := if has f1 PLUS then Z.ldiff f1 SPACE else f1). intros E.
  apply bind_done in E as ([[w fmt1] args1] & (Hw & Hneg)%parse_width_range & E). apply bind_done in E as ([w' f3] & E3 & E). apply bind_done in E as ([[p fmt2] args2] & Hp%parse_precision_range & E).
  set (f4 := if 0 <=? p then Z.ldiff f3 ZERO else f3) in E. destruct (parse_type fmt2) as [t fmt3]. injection E as <- _ _. unfold conversion_wf. cbn.
  set (good := λ f : Z, in_range f && negb (has f PLUS && has f SPACE)). set (both := λ f : Z, has f MINUS && has f ZERO).
  assert (good f2 && negb (both f2) = true) as [G2 B2]%andb_true_iff.
  { apply (all_flags (λ f0, let f1 := if has f0 MINUS then Z.ldiff f0 ZERO else f0 in let f2 := if has f1 PLUS then Z.ldiff f1 SPACE else f1 in good f2 && negb (both f2))); [by vm_compute|done]. }
  assert (good f3 = true ∧ 0 ≤ w' < 2 ^ 31 ∧ (both f3 = true → w < 0)) as (G3 & Hw' & B3).
  { destruct (Z.ltb_spec w 0); [|injection E3 as <- <-; split_and!; [done|lia|lia|by rewrite negb_true_iff in B2; rewrite B2]].
    apply bind_done in E3 as (w1 & [-> ?]%int_done & [= <- <-]). split_and!; [|lia|lia|done]. unfold good in *. apply andb_true_iff in G2 as [R2 G2]. apply in_range_iff in R2.
    revert G2. apply (all_flags (λ f2, implb (negb (has f2 PLUS && has f2 SPACE)) (good (Z.lor f2 MINUS)))) in R2; [|by vm_compute]. intros G2. by rewrite G2 in R2. }
  assert (good f4 = true ∧ (both f4 = true → both f3 = true) ∧ (0 ≤ p → has f4 ZERO = false)) as (G4 & B4 & Z4).
  { subst f4. destruct (Z.leb_spec 0 p); [|split_and!; [done|done|lia]]. pose proof G3 as [R3 _]%andb_true_iff. apply in_range_iff in R3.
    apply (all_flags (λ f, implb (good f) (good (Z.ldiff f ZERO) && negb (has (Z.ldiff f ZERO) ZERO)))) in R3; [|by vm_compute]. rewrite G3 in R3. cbn [implb] in R3. apply andb_true_iff in R3 as [? Hz%negb_true_iff].
    split_and!; [done| |done]. unfold both at 1. rewrite Hz, andb_false_r. done. }
  unfold good in G4. apply andb_true_iff in G4 as [R4%in_range_iff G4%negb_true_iff]. split; [split_and!; (done || lia)|].
  intros HB%Is_true_true. destruct (Hneg (B3 (B4 HB))) as (v & args0 & -> & Hv). exists v, args0. split; [done|]. rewrite Hv. by apply B3, B4.
Qed.
Lemma parse_conversion_wf_witness : conversion_wf {| flags := ZERO; width := 8; precision := -1; type := INTMAX |}.
Proof. apply (parse_conversion_wf (chars "08jx") [Wide 0] _ (chars "x") [Wide 0]). vm_compute. reflexivity. Defined.

(** With a zero flag and a negative width as an argument the number is padded
    twice, with zeros before it and with spaces after it. *)
Lemma negative_width_pads_twice : text (chars "%0*d|") [Word (-5); Word 7] = Done (chars "00007    |").
Proof. vm_compute. reflexivity. Qed.
(** A format that ends inside a conversion is read past its end. *)
Lemma unfinished_format_undefined : text (chars "100%") [] = Undef.
Proof. vm_compute. reflexivity. Qed.
(** The negation of the least 64-bit number overflows. *)
Lemma print_least_overflows : text (chars "%lld") [Wide (- 2 ^ 63)] = Undef.
Proof. vm_compute. reflexivity. Qed.
