(* ===== verification/KListSort.v ===== *)
(** * Sorting and ordered operations of list.c

    The natural merge sort of [list_sort], checked against functions on plain
    lists: [merge] for [inplace_merge], [take_run] for [find_end_of_run] and
    [pass] for one pass of the outer loop.  The first part shows these
    functions sort; the second that the code on the store computes them. *)

From Stdlib Require Import Sorted.
From S2P Require Import Prelude KList.

(** What a comparison function must satisfy for a list to have an order:
    [less] is a strict weak order. *)
Class StrictWeakOrder (less : Z → Z → bool) : Prop := {
  less_asym : ∀ a b, less a b = true → less b a = false;
  less_trans : ∀ a b c, less b a = false → less c b = false → less c a = false;
}.

Section pure.
Context (less : Z → Z → bool) `{!StrictWeakOrder less}.

(** [a] may come before [b]. *)
Definition le (a b : Z) : Prop := less b a = false.

(** Neither is less than the other. *)
Definition eqv (a b : Z) : Prop := less a b = false ∧ less b a = false.
#[export] Instance eqv_dec a b : Decision (eqv a b).
Proof. apply _. Defined.

Fixpoint merge (U V : list Z) : list Z :=
  match U with
  | [] => V
  | u :: U' =>
      (fix go (V : list Z) : list Z :=
         match V with
         | [] => u :: U'
         | v :: V' => if less v u then v :: go V' else u :: merge U' (v :: V')
         end) V
  end.

Lemma merge_nil_r U : merge U [] = U.
Proof. by destruct U. Qed.
Lemma merge_cons u U v V :
  merge (u :: U) (v :: V) =
    if less v u then v :: merge (u :: U) V else u :: merge U (v :: V).
Proof. done. Qed.

(** The rest of the run that starts with [x], and what follows it. *)
Fixpoint take_run (x : Z) (B : list Z) : list Z * list Z :=
  match B with
  | [] => ([], [])
  | y :: B' =>
      if less y x then ([], B) else
      let '(R, rest) := take_run y B' in (y :: R, rest)
  end.

Fixpoint pass (fuel : nat) (X : list Z) : list Z * nat :=
  match fuel, X with
  | O, _ => (X, O)
  | S _, [] => ([], O)
  | S fuel, x :: B =>
      let '(R, X1) := take_run x B in
      match X1 with
      | [] => (x :: R, 1%nat)
      | y :: B1 =>
          let '(R1, X2) := take_run y B1 in
          let '(Y, c) := pass fuel X2 in
          (merge (x :: R) (y :: R1) ++ Y, S c)
      end
  end.

(** Number of maximal runs. *)
Fixpoint descents (x : Z) (B : list Z) : nat :=
  match B with
  | [] => O
  | y :: B' => ((if less y x then 1 else 0) + descents y B')%nat
  end.
Definition nruns (X : list Z) : nat :=
  match X with [] => O | x :: B => S (descents x B) end.

(** ** Order *)

Lemma le_trans a b c : le a b → le b c → le a c.
Proof using Type*. unfold le. intros. by eapply less_trans. Qed.
#[local] Instance le_Transitive : Transitive le.
Proof using Type*. intros a b c. apply le_trans. Qed.
Lemma less_le a b : less a b = true → le a b.
Proof using Type*. apply less_asym. Qed.

Lemma Sorted_strong X : Sorted le X → StronglySorted le X.
Proof using Type*. apply Sorted_StronglySorted. intros a b c. apply le_trans. Qed.

Lemma merge_perm U V : merge U V ≡ₚ U ++ V.
Proof using Type.
  revert V. induction U as [|u U IHU]; intros V; [done|].
  induction V as [|v V IHV]; [by rewrite merge_nil_r, app_nil_r|].
  rewrite merge_cons. destruct (less v u).
  - rewrite IHV. simpl. by rewrite <-!Permutation_middle, Permutation_swap.
  - by rewrite IHU.
Qed.

Lemma merge_sorted U V :
  StronglySorted le U → StronglySorted le V → StronglySorted le (merge U V).
Proof using Type*.
  intros HU. revert V. induction HU as [|u U HU IHU HuU]; intros V HV; [done|].
  induction HV as [|v V HV IHV HvV]; [rewrite merge_nil_r; by constructor|].
  rewrite merge_cons. destruct (less v u) eqn:E; constructor.
  - done.
  - rewrite merge_perm. apply Forall_app. split; [|done]. constructor; [by apply less_le|].
    eapply Forall_impl; [|exact HuU]. intros x Hx. eapply le_trans; [by apply less_le|done].
  - apply IHU. by constructor.
  - rewrite merge_perm. apply Forall_app. split; [done|]. constructor; [done|].
    eapply Forall_impl; [|exact HvV]. intros x Hx. by eapply le_trans.
Qed.

(** Nothing at or above [u] is equivalent to what is below [u]. *)
Lemma filter_eqv_above k v u U :
  less v u = true → Forall (le u) U → eqv k v → filter (eqv k) (u :: U) = [].
Proof using Type*.
  intros E HuU Hk.
  assert (∀ x, x ∈ u :: U → ¬ eqv k x) as Hnone.
  { intros x Hx [H1 H2]. destruct Hk as [H3 H4].
    assert (le u x) as Hux.
    { apply elem_of_cons in Hx as [->|Hx]; [|by eapply (proj1 (list.Forall_forall _ _) HuU)].
      unfold le. destruct (less u u) eqn:Eu; [|done]. by rewrite (less_asym _ _ Eu) in Eu. }
    assert (less v u = false); [|congruence].
    apply less_trans with k; [|done]. by apply less_trans with x. }
  clear -Hnone. induction (u :: U) as [|x X IH]; [done|].
  rewrite filter_cons_False by (apply Hnone; set_solver). apply IH. set_solver.
Qed.

Lemma merge_stable k U V :
  StronglySorted le U → StronglySorted le V →
  filter (eqv k) (merge U V) = filter (eqv k) U ++ filter (eqv k) V.
Proof using Type*.
  intros HU. revert V. induction HU as [|u U HU IHU HuU]; intros V HV; [done|].
  induction HV as [|v V HV IHV HvV]; [by rewrite merge_nil_r, app_nil_r|].
  rewrite merge_cons. destruct (less v u) eqn:E.
  - rewrite filter_cons, (filter_cons _ v), IHV. case_decide as Hk; [|done].
    by rewrite (filter_eqv_above k v).
  - rewrite filter_cons, (filter_cons _ u), IHU by (by constructor). by case_decide.
Qed.

Lemma take_run_app x B R rest : take_run x B = (R, rest) → B = R ++ rest.
Proof using Type.
  revert x R rest. induction B as [|y B IH]; intros x R rest; simpl; [naive_solver|].
  destruct (less y x); [naive_solver|]. destruct (take_run y B) as [R' rest'] eqn:E.
  intros [= <- <-]. simpl. f_equal. by eapply IH.
Qed.
Lemma take_run_sorted x B R rest : take_run x B = (R, rest) → StronglySorted le (x :: R).
Proof using Type*.
  intros H. apply Sorted_strong. revert x R rest H.
  induction B as [|y B IH]; intros x R rest; simpl; [intros [= <- <-]; by repeat constructor|].
  destruct (less y x) eqn:E; [intros [= <- <-]; by repeat constructor|].
  destruct (take_run y B) as [R' rest'] eqn:E'. intros [= <- <-].
  constructor; [by eapply IH|]. by constructor.
Qed.
Lemma take_run_descents x B R rest :
  take_run x B = (R, rest) → descents x B = nruns rest.
Proof using Type.
  revert x R rest. induction B as [|y B IH]; intros x R rest; simpl; [naive_solver|].
  destruct (less y x) eqn:E; [intros [= <- <-]; done|].
  destruct (take_run y B) as [R' rest'] eqn:E'. intros [= <- <-]. by eapply IH.
Qed.

Lemma sorted_descents x X : StronglySorted le (x :: X) → descents x X = O.
Proof using Type.
  revert x. induction X as [|y X IH]; intros x Hs; [done|]. simpl.
  apply StronglySorted_inv in Hs as [Hs Hx]. rewrite IH by done.
  inversion Hx as [|? ? Hxy]; subst. unfold le in Hxy. by rewrite Hxy.
Qed.
Lemma nruns_sorted X : StronglySorted le X → (nruns X ≤ 1)%nat.
Proof using Type. destruct X; simpl; [lia|]. intros. by rewrite sorted_descents. Qed.
Lemma nruns_le_1 X : (nruns X ≤ 1)%nat → StronglySorted le X.
Proof using Type*.
  intros H. apply Sorted_strong. destruct X as [|x X]; [constructor|]. simpl in H.
  assert (descents x X = O) as H' by lia. clear H.
  revert x H'. induction X as [|y X IH]; intros x H; [by repeat constructor|]. simpl in H.
  destruct (less y x) eqn:E; [done|]. constructor; [by apply IH|by constructor].
Qed.
Lemma descents_app x X Y : (descents x (X ++ Y) ≤ descents x X + nruns Y)%nat.
Proof using Type.
  revert x. induction X as [|y X IH]; intros x; simpl.
  - destruct Y; simpl; [lia|]. destruct (less _ _); lia.
  - specialize (IH y). lia.
Qed.
Lemma nruns_app X Y : (nruns (X ++ Y) ≤ nruns X + nruns Y)%nat.
Proof using Type. destruct X; simpl; [lia|]. pose proof (descents_app z X Y). lia. Qed.
Lemma nruns_length X : (nruns X ≤ length X)%nat.
Proof using Type.
  destruct X as [|x X]; simpl; [lia|]. apply le_n_S.
  revert x. induction X as [|y X IH]; intros x; simpl; [lia|]. specialize (IH y). destruct (less y x); lia.
Qed.

Record pass_ok (X Y : list Z) (c : nat) : Prop := {
  pass_perm : Y ≡ₚ X;
  pass_nruns : (nruns Y ≤ c)%nat;
  pass_count : (2 * c ≤ nruns X + 1)%nat;
  pass_stable : ∀ k, filter (eqv k) Y = filter (eqv k) X;
}.

Lemma pass_spec fuel X : (length X ≤ fuel)%nat → pass_ok X (pass fuel X).1 (pass fuel X).2.
Proof using Type*.
  revert X. induction fuel as [|fuel IH]; intros [|x B] Hf; simpl in Hf; try lia;
    try (split; simpl; first [done | lia]).
  cbn [pass]. destruct (take_run x B) as [R X1] eqn:E1.
  pose proof (take_run_app _ _ _ _ E1) as ->. pose proof (take_run_sorted _ _ _ _ E1) as S1.
  pose proof (take_run_descents _ _ _ _ E1) as D1.
  destruct X1 as [|y B1].
  { rewrite app_nil_r in *. split; simpl; try done; [|lia]. by rewrite sorted_descents. }
  destruct (take_run y B1) as [R1 X2] eqn:E2.
  pose proof (take_run_app _ _ _ _ E2) as ->. pose proof (take_run_sorted _ _ _ _ E2) as S2.
  pose proof (take_run_descents _ _ _ _ E2) as D2.
  rewrite length_app in Hf. simpl in Hf. rewrite length_app in Hf.
  specialize (IH X2 ltac:(lia)). destruct (pass fuel X2) as [Y c]. simpl in IH.
  destruct IH as [Hp Hr Hc Hs]. split; cbn [fst snd].
  - rewrite merge_perm, Hp. simpl. by rewrite <-app_assoc.
  - pose proof (nruns_app (merge (x :: R) (y :: R1)) Y).
    pose proof (nruns_sorted _ (merge_sorted _ _ S1 S2)). lia.
  - cbn [nruns] in *. rewrite D1, D2. lia.
  - intros k. rewrite list.filter_app, merge_stable, Hs by done.
    change (x :: R ++ y :: R1 ++ X2) with ((x :: R) ++ (y :: R1) ++ X2).
    by rewrite !list.filter_app, app_assoc.
Qed.
End pure.

(** ** The code on the store *)

Lemma nodes_perm l X Y : X ≡ₚ Y → nodes l X ≡ₚ nodes l Y.
Proof. unfold nodes. by intros ->. Qed.
Lemma same_outside_perm ns ns' h h' : ns ≡ₚ ns' → same_outside ns h h' → same_outside ns' h h'.
Proof. intros Hp H q Hq. apply H. by rewrite Hp. Qed.

(** Two positions of a list are equal only if nothing lies between them. *)
Lemma rep_pos_between {h l A B C} : list_rep h l (A ++ B ++ C) →
  (pos l (B ++ C) =? pos l C) = bool_decide (B = []).
Proof.
  intros Hrep. destruct B as [|x B]; simpl; [by rewrite Z.eqb_refl|].
  apply Z.eqb_neq. intros ->. pose proof (rep_nodup _ _ _ Hrep) as Hnd.
  destruct (pos_cons l C) as [C' EC]. unfold nodes in Hnd.
  rewrite <-!app_assoc, EC in Hnd. apply list.NoDup_cons in Hnd as [_ Hnd].
  apply list.NoDup_app in Hnd as (_ & _ & Hnd). apply list.NoDup_cons in Hnd as [Hnd _].
  apply Hnd, elem_of_app. right. apply list_elem_of_here.
Qed.

Section heap.
Context (less : Z → Z → bool) `{!StrictWeakOrder less}.
Notation le := (le less).
Notation take_run := (take_run less).
Notation merge := (merge less).

Lemma run_loop_spec h l A x B R rest fuel (Q : Z → store → Prop) :
  list_rep h l (A ++ x :: B) → take_run x B = (R, rest) → (length B < fuel)%nat →
  Q (pos l rest) h → runs (run_loop less fuel x (tail_of l)) h Q.
Proof using Type.
  revert A x B R rest. induction fuel as [|fuel IH]; intros A x B R rest Hrep HR Hf HQ; [lia|].
  cbn [run_loop]. run. eapply list_next_node; [done|].
  assert (list_rep h l ((A ++ [x]) ++ B)) as Hrep' by (by rewrite <-app_assoc).
  rewrite (rep_pos_end Hrep').
  destruct B as [|y B]; [simpl in *; by simplify_eq|]. simpl in *. run.
  eapply (list_prev_node _ _ A x (y :: B)); [done|].
  destruct (less y x); simpl; [by simplify_eq|].
  destruct (take_run y B) as [R' rest'] eqn:E. simplify_eq.
  eapply (IH (A ++ [x])); [done|done|lia|done].
Qed.

Lemma is_sorted_loop_spec h l A x B C fuel (Q : bool → store → Prop) :
  list_rep h l (A ++ x :: B ++ C) → StronglySorted le (x :: B) → (length B < fuel)%nat →
  Q true h → runs (is_sorted_loop less fuel x (pos l C)) h Q.
Proof using Type.
  revert A x B. induction fuel as [|fuel IH]; intros A x B Hrep HS Hf HQ; [lia|].
  cbn [is_sorted_loop]. run. eapply list_next_node; [done|].
  assert (list_rep h l ((A ++ [x]) ++ B ++ C)) as Hrep' by (by rewrite <-app_assoc).
  rewrite (rep_pos_between Hrep'). destruct B as [|y B]; [done|]. simpl in *. run.
  eapply (list_prev_node _ _ A x (y :: B ++ C)); [done|].
  apply StronglySorted_inv in HS as [HS Hx]. inversion Hx as [|? ? Hxy]; subst.
  unfold le in Hxy. rewrite Hxy. eapply (IH (A ++ [x])); [done|done|lia|done].
Qed.

Lemma is_sorted_spec h l A B C fuel (Q : bool → store → Prop) :
  list_rep h l (A ++ B ++ C) → StronglySorted le B → (length B < fuel)%nat →
  Q true h → runs (is_sorted less fuel (pos l (B ++ C)) (pos l C)) h Q.
Proof using Type.
  intros Hrep HS Hf HQ. unfold is_sorted. rewrite (rep_pos_between Hrep).
  destruct B as [|x B]; [done|]. simpl in *.
  eapply is_sorted_loop_spec; [done|done|lia|done].
Qed.

Lemma merge_loop_spec h l A U V D fuel :
  list_rep h l (A ++ U ++ V ++ D) → (length U + length V < fuel)%nat →
  runs (merge_loop less fuel (pos l (U ++ V ++ D)) (pos l (V ++ D)) (pos l D)) h (λ _ h',
    list_rep h' l (A ++ merge U V ++ D) ∧ same_outside (nodes l (A ++ U ++ V ++ D)) h h').
Proof using Type.
  revert h A U V. induction fuel as [|fuel IH]; intros h A U V Hrep Hf; [lia|].
  cbn [merge_loop]. rewrite (rep_pos_between Hrep).
  assert (list_rep h l ((A ++ U) ++ V ++ D)) as Hrep' by (by rewrite <-app_assoc).
  rewrite (rep_pos_between Hrep'). destruct U as [|u U]; [by split|].
  destruct V as [|v V]; [by split|].
  change (negb (bool_decide (u :: U = [])) && negb (bool_decide (v :: V = []))) with true.
  cbn iota. rewrite merge_cons. simpl pos in *. destruct (less v u); cbn [negb]; run.
  - eapply (list_next_node _ _ (A ++ u :: U)); [by rewrite <-app_assoc|]. run.
    eapply (list_prev_node _ _ (A ++ u :: U) v (V ++ D)); [by rewrite <-app_assoc|]. run.
    eapply runs_mono; [apply (list_splice_spec _ _ A (u :: U) [v] (V ++ D)); done|].
    intros _ h' [Hrep1 Hout].
    eapply runs_mono; [apply (IH h' (A ++ [v]) (u :: U) V)|].
    + by rewrite <-app_assoc.
    + simpl in *. lia.
    + intros _ h'' [Hrep2 Hout2]. split; [by rewrite <-app_assoc in Hrep2|].
      eapply same_outside_trans; [done|]. eapply same_outside_perm; [|done].
      apply nodes_perm. rewrite <-app_assoc. simpl.
      by rewrite <-(Permutation_middle U), (Permutation_swap v u).
  - eapply list_next_node; [done|].
    eapply runs_mono; [apply (IH h (A ++ [u]) U (v :: V))|].
    + by rewrite <-app_assoc.
    + simpl in *. lia.
    + intros _ h' [Hrep1 Hout]. by rewrite <-app_assoc in Hrep1, Hout.
Qed.

Lemma inplace_merge_spec h l A U V D fuel :
  list_rep h l (A ++ U ++ V ++ D) → (length U + length V < fuel)%nat →
  StronglySorted le U → StronglySorted le V →
  runs (inplace_merge less fuel (pos l (U ++ V ++ D)) (pos l (V ++ D)) (pos l D)) h (λ _ h',
    list_rep h' l (A ++ merge U V ++ D) ∧ same_outside (nodes l (A ++ U ++ V ++ D)) h h').
Proof using Type.
  intros Hrep Hf HU HV.
  assert (list_rep h l ((A ++ U) ++ V ++ D)) as Hrep' by (by rewrite <-app_assoc).
  assert (list_rep h l ((A ++ U ++ V) ++ D)) as Hrep'' by (by rewrite <-!app_assoc).
  destruct (rep_pos_next Hrep) as [? _]. destruct (rep_pos_next Hrep') as [? _].
  destruct (rep_pos_next Hrep'') as [? _].
  unfold inplace_merge. code.
  apply runs_assertM. eapply is_sorted_spec; [done|done|lia|]. split; [done|]. code.
  apply runs_assertM. eapply is_sorted_spec; [done|done|lia|]. split; [done|].
  by apply merge_loop_spec.
Qed.

Lemma find_end_of_run_spec h l A x B R rest fuel (Q : Z → store → Prop) :
  list_rep h l (A ++ x :: B) → take_run x B = (R, rest) → (length B < fuel)%nat →
  Q (pos l rest) h → runs (find_end_of_run less fuel x (tail_of l)) h Q.
Proof using Type.
  intros Hrep HR Hf HQ. destruct (rep_pos_next Hrep) as [? _].
  pose proof (rep_tail_nonnull Hrep). pose proof (rep_pos_end Hrep) as He. simpl in *.
  unfold find_end_of_run. code. apply runs_assert; [by rewrite He|]. by eapply run_loop_spec.
Qed.

Lemma pass_loop_spec h l A X bound fuel cnt :
  list_rep h l (A ++ X) → (length X < fuel)%nat → (length X < bound)%nat →
  0 ≤ cnt → cnt + zlen X < 2 ^ 32 →
  runs (pass_loop less bound fuel l (pos l X) cnt) h (λ r h',
    r = cnt + Z.of_nat (pass less fuel X).2 ∧ list_rep h' l (A ++ (pass less fuel X).1) ∧
    same_outside (nodes l (A ++ X)) h h').
Proof using StrictWeakOrder0.
  revert h A X cnt. induction fuel as [|fuel IH]; intros h A X cnt Hrep Hf Hb Hc Hw; [lia|].
  pose proof (rep_list_nonnull Hrep) as Hl.
  cbn [pass_loop]. run. apply list_end_spec; [done|]. rewrite (rep_pos_end Hrep).
  destruct X as [|x B]; [simpl in *; split_and!; [lia|done|done]|].
  rewrite zlen_cons in Hw. pose proof (zlen_nonneg B).
  rewrite u32_small by lia. simpl pos. cbn [bool_decide decide decide_rel negb list_eq_dec].
  simpl in Hf, Hb. cbn [pass]. destruct (take_run x B) as [R X1] eqn:E1. simpl.
  run. apply list_end_spec; [done|]. run.
  eapply find_end_of_run_spec; [done|done|lia|]. run. apply list_end_spec; [done|].
  pose proof (take_run_app _ _ _ _ _ E1) as ->. pose proof (take_run_sorted _ _ _ _ _ E1) as S1.
  assert (list_rep h l ((A ++ x :: R) ++ X1)) as Hrep1 by (by rewrite <-app_assoc).
  rewrite (rep_pos_end Hrep1). destruct X1 as [|y B1].
  { rewrite bool_decide_true by done. run. rewrite app_nil_r in *. split_and!; [simpl; lia|done|done]. }
  rewrite bool_decide_false by done. run. apply list_end_spec; [done|]. simpl pos. run.
  destruct (take_run y B1) as [R1 X2] eqn:E2. rewrite length_app in Hf, Hb. simpl in Hf, Hb.
  eapply find_end_of_run_spec; [done|done|lia|]. run.
  pose proof (take_run_app _ _ _ _ _ E2) as ->. pose proof (take_run_sorted _ _ _ _ _ E2) as S2.
  rewrite !length_app in Hf, Hb. rewrite zlen_app, zlen_cons, zlen_app in Hw.
  pose proof (zlen_nonneg R). pose proof (zlen_nonneg R1).
  eapply runs_mono; [apply (inplace_merge_spec h l A (x :: R) (y :: R1) X2); simpl; [done|lia|done..]|].
  intros _ h1 [Hrep2 Hout].
  eapply runs_mono; [apply (IH h1 (A ++ merge (x :: R) (y :: R1)) X2); [by rewrite <-app_assoc|lia..]|].
  intros r h2 (-> & Hrep3 & Hout2). destruct (pass less fuel X2) as [Y c]. cbn [fst snd] in *.
  rewrite <-app_assoc in Hrep3, Hout2. split_and!; [lia|done|].
  eapply same_outside_trans; [done|]. eapply same_outside_perm; [|done].
  apply nodes_perm. rewrite merge_perm. simpl. by rewrite <-app_assoc.
Qed.

Lemma sort_loop_spec h l X bound fuel :
  list_rep h l X → (nruns less X < fuel)%nat → (length X < bound)%nat → zlen X < 2 ^ 32 →
  runs (sort_loop less bound fuel l) h (λ _ h', ∃ Y,
    list_rep h' l Y ∧ Y ≡ₚ X ∧ StronglySorted le Y ∧
    (∀ k, filter (eqv less k) Y = filter (eqv less k) X) ∧ same_outside (nodes l X) h h').
Proof using StrictWeakOrder0.
  revert h X. induction fuel as [|fuel IH]; intros h X Hrep Hf Hb Hw; [lia|].
  cbn [sort_loop]. run. eapply list_begin_spec; [done|]. run.
  eapply runs_mono; [apply (pass_loop_spec h l [] X); done || lia|].
  intros r h1 (-> & Hrep1 & Hout1). simpl in Hrep1.
  destruct (pass_spec less bound X) as [Hperm Hn Hcnt Hst]; [lia|].
  destruct (pass less bound X) as [Y c]. simpl in *.
  destruct (Z.ltb_spec 1 (0 + Z.of_nat c)).
  - assert (length Y = length X) as EY by (by apply Permutation_length).
    eapply runs_mono; [apply (IH h1 Y); [done|lia|lia|unfold zlen in *; lia]|].
    intros _ h2 (Z' & ? & Hp & ? & Hs & Hout2). exists Z'. split_and!; [done|by rewrite Hp|done| |].
    + intros k. by rewrite Hs.
    + eapply same_outside_trans; [done|]. eapply same_outside_perm; [|done]. by apply nodes_perm.
  - run. exists Y. split_and!; try done. apply nruns_le_1; [done|lia].
Qed.

(** C31 [list_sort] sorts: on a list of fewer than 2^32 nodes it returns (its
    assertions hold, no bad pointer is followed, and a number of iterations
    bounded by the length of the list is enough for each loop), leaving the
    same nodes in nondecreasing order, equal nodes in their original order
    (the sort is stable), and every other node of the store untouched. *)
Theorem list_sort_correct h l X fuel :
  list_rep h l X → (length X < fuel)%nat → zlen X < 2 ^ 32 →
  runs (list_sort less fuel l) h (λ _ h', ∃ Y,
    list_rep h' l Y ∧ Y ≡ₚ X ∧ StronglySorted le Y ∧
    (∀ k, filter (eqv less k) Y = filter (eqv less k) X) ∧ same_outside (nodes l X) h h').
Proof using StrictWeakOrder0.
  intros Hrep Hf Hw. pose proof (rep_list_nonnull Hrep). pose proof (nruns_length less X).
  unfold list_sort. code. eapply runs_mono; [apply sort_loop_spec; [done|lia|done|done]|].
  intros _ h' (Y & HY & Hp & HS & Hst & Hout). run.
  eapply list_begin_spec; [done|]. run. apply list_end_spec; [done|].
  apply runs_assertM. pose proof (is_sorted_spec h' l [] Y [] fuel) as Hspec.
  rewrite app_nil_r in Hspec. apply Hspec; [done|done| |].
  - by rewrite Hp.
  - split; [done|]. by exists Y.
Qed.
End heap.
