(* ===== verification/KListOps.v ===== *)
(** * The remaining operations of list.c

    Pushing, popping, counting, reversing, ordered insertion, removal of
    duplicates, maximum and minimum, each against the operation on plain
    lists; and the refinement theorem that a client which only uses the list
    through these functions cannot tell it from a mathematical sequence. *)

From Stdlib Require Import Sorted.
From S2P Require Import Prelude KList KListSort.

(** ** Both ends *)

Lemma list_push_front_spec h l X x :
  list_rep h l X → x ≠ NULL → x ∉ nodes l X → is_Some (h !! x) →
  runs (list_push_front l x) h (λ _ h',
    list_rep h' l (x :: X) ∧ same_outside (x :: nodes l X) h h').
Proof.
  intros Hrep ???. unfold list_push_front. run. eapply list_begin_spec; [done|].
  by apply (list_insert_spec h l [] X x).
Qed.

Lemma list_push_back_spec h l X x :
  list_rep h l X → x ≠ NULL → x ∉ nodes l X → is_Some (h !! x) →
  runs (list_push_back l x) h (λ _ h',
    list_rep h' l (X ++ [x]) ∧ same_outside (x :: nodes l X) h h').
Proof.
  intros Hrep ???. unfold list_push_back. run.
  apply list_end_spec; [by apply (rep_list_nonnull Hrep)|].
  pose proof (list_insert_spec h l X [] x) as Hins. rewrite app_nil_r in Hins. by apply Hins.
Qed.

Lemma runs_not_empty h l X Q : list_rep h l X → X ≠ [] →
  Q tt h → runs (assertM (b ← list_empty l; mret (negb b))) h Q.
Proof.
  intros Hrep HX HQ. apply runs_assertM. run. eapply list_empty_spec; [done|]. run.
  by rewrite bool_decide_false.
Qed.

Lemma list_front_spec h l x X (Q : Z → store → Prop) :
  list_rep h l (x :: X) → Q x h → runs (list_front l) h Q.
Proof.
  intros Hrep HQ. pose proof (rep_list_nonnull Hrep).
  destruct (rep_link Hrep [] (head_of l) x (X ++ [tail_of l])) as (? & ? & ? & ?); [done|].
  unfold list_front. run. eapply runs_not_empty; [done..|]. by code.
Qed.

Lemma list_back_spec h l X x (Q : Z → store → Prop) :
  list_rep h l (X ++ [x]) → Q x h → runs (list_back l) h Q.
Proof.
  intros Hrep HQ. pose proof (rep_tail_nonnull Hrep). destruct (rep_prev Hrep) as [? _].
  unfold list_back. run. eapply runs_not_empty; [done|by destruct X|]. by code.
Qed.

Lemma list_pop_front_spec h l x X :
  list_rep h l (x :: X) →
  runs (list_pop_front l) h (λ r h', r = x ∧ list_rep h' l X ∧ h' !! x = h !! x ∧
    same_outside (nodes l X) h h').
Proof.
  intros Hrep. unfold list_pop_front. run. eapply list_front_spec; [done|]. run.
  eapply runs_mono; [apply (list_remove_spec h l [] x X); done|]. intros r h' (_ & ? & ? & ?).
  by run.
Qed.

Lemma list_pop_back_spec h l X x :
  list_rep h l (X ++ [x]) →
  runs (list_pop_back l) h (λ r h', r = x ∧ list_rep h' l X ∧ h' !! x = h !! x ∧
    same_outside (nodes l X) h h').
Proof.
  intros Hrep. unfold list_pop_back. run. eapply list_back_spec; [done|]. run.
  eapply runs_mono; [apply (list_remove_spec h l X x []); done|]. intros r h' (_ & ? & ? & ?).
  rewrite app_nil_r in *. by run.
Qed.

(** On an empty list the accessors stop the kernel. *)
Lemma list_front_empty h l : list_rep h l [] → list_front l h = Panic.
Proof.
  intros Hrep. unfold list_front, assertM.
  pose proof (list_empty_spec h l [] (λ b h', b = true ∧ h' = h) Hrep (conj eq_refl eq_refl)) as He.
  apply runs_done in He as (b & h' & E & -> & ->). unfold mbind, M_bind. by rewrite E.
Qed.

(** ** Counting *)

Lemma size_loop_spec h l A B fuel cnt (Q : Z → store → Prop) :
  list_rep h l (A ++ B) → (length B < fuel)%nat → 0 ≤ cnt → cnt + zlen B < 2 ^ 32 →
  Q (cnt + zlen B) h → runs (size_loop fuel l (pos l B) cnt) h Q.
Proof.
  revert A B cnt. induction fuel as [|fuel IH]; intros A B cnt Hrep Hf Hc Hw HQ; [lia|].
  cbn [size_loop]. run. apply list_end_spec; [by apply (rep_list_nonnull Hrep)|].
  rewrite (rep_pos_end Hrep). destruct B as [|x B]; simpl.
  { run. by rewrite zlen_nil, Z.add_0_r in HQ. }
  rewrite zlen_cons in Hw, HQ. pose proof (zlen_nonneg B). run.
  eapply list_next_node; [done|]. rewrite u32_small by lia.
  apply (IH (A ++ [x])); [by rewrite <-app_assoc|simpl in *; lia..|].
  by replace (cnt + 1 + zlen B) with (cnt + (1 + zlen B)) by lia.
Qed.

Lemma list_size_spec h l X fuel (Q : Z → store → Prop) :
  list_rep h l X → (length X < fuel)%nat → zlen X < 2 ^ 32 →
  Q (zlen X) h → runs (list_size fuel l) h Q.
Proof.
  intros Hrep ???. unfold list_size. run. eapply list_begin_spec; [done|].
  by apply (size_loop_spec h l [] X).
Qed.

(** ** Reversal *)

Definition swapped (e : list_elem) : list_elem := Elem (next e) (prev e).

Lemma swap_links_spec h e (Q : unit → store → Prop) :
  e ≠ NULL → is_Some (h !! e) → Q tt (alter swapped e h) → runs (swap_links e) h Q.
Proof.
  intros He [[p n] Hs] HQ. unfold swap_links. run.
  eapply runs_get_prev; [done|by unfold prv; rewrite Hs|]. run.
  eapply runs_get_next; [done|by unfold nxt; rewrite Hs|]. code.
  replace (upd_next _ _ _) with (alter swapped e h); [done|].
  unfold upd_next, upd_prev. apply map_eq. intros q.
  destruct (decide (e = q)) as [->|]; [|by rewrite !lookup_alter_ne].
  by rewrite !lookup_alter_eq, Hs.
Qed.

(** The links of the nodes in [ns] turned round. *)
Definition flipped (ns : list Z) (h h' : store) : Prop :=
  ∀ q, h' !! q = if decide (q ∈ ns) then swapped <$> h !! q else h !! q.

Lemma reverse_loop_spec h0 h l A B fuel :
  list_rep h0 l (A ++ B) → flipped A h0 h → (length B < fuel)%nat →
  runs (reverse_loop fuel l (pos l B)) h (λ _ h', flipped (A ++ B) h0 h').
Proof.
  revert h A B. induction fuel as [|fuel IH]; intros h A B Hrep Hfl Hf; [lia|].
  cbn [reverse_loop]. run. apply list_end_spec; [by apply (rep_list_nonnull Hrep)|].
  rewrite (rep_pos_end Hrep). destruct B as [|x B]; simpl.
  { run. by rewrite app_nil_r. }
  assert (x ∉ A) as HxA.
  { pose proof (rep_nodup _ _ _ Hrep) as Hnd. rewrite nodes_cut in Hnd.
    apply list.NoDup_app in Hnd as (_ & Hd & _). intros Hx. apply (Hd x); set_solver. }
  pose proof (rep_prev Hrep) as [_ Hn]. pose proof (nxt_is_Some _ _ _ Hn) as Sx.
  assert (h !! x = h0 !! x) as Ex by (rewrite Hfl; by case_decide).
  destruct (rep_pos_next Hrep) as [Hx _]. simpl in Hx.
  run. apply swap_links_spec; [done|by rewrite Ex|]. run.
  eapply (runs_get_prev _ _ (pos l B)); [done| |].
  { unfold prv. rewrite lookup_alter_eq, Ex. unfold nxt in Hn. by destruct (h0 !! x). }
  rewrite (cons_middle x A B), app_assoc. apply IH; [by rewrite <-app_assoc| |simpl in Hf; lia].
  intros q. destruct (decide (x = q)) as [<-|].
  - rewrite lookup_alter_eq, Ex, decide_True by set_solver. done.
  - rewrite lookup_alter_ne, Hfl by done. repeat case_decide; set_solver.
Qed.

Lemma chain_reverse h h' ns :
  (∀ q, q ∈ ns → nxt h' q = prv h q ∧ prv h' q = nxt h q) →
  chain h ns → chain h' (reverse ns).
Proof.
  induction ns as [|p [|q ns] IH]; intros Heq; [done|done|].
  intros (Hn & Hp & Hc). rewrite (reverse_cons (q :: ns)).
  rewrite reverse_cons in IH |- *. rewrite <-app_assoc. apply chain_cut. split_and!.
  - apply IH; [|done]. intros. apply Heq. set_solver.
  - rewrite (proj1 (Heq q ltac:(set_solver))). done.
  - rewrite (proj2 (Heq p ltac:(set_solver))). done.
  - done.
Qed.

(** The ends [x] and [z] of a non-empty list and the list's header nodes. *)
Section ends.
Context {h : store} {l : Z} {X : list Z} (Hrep : list_rep h l X).
Context {x z : Z} {Xt Xi : list Z} (EX : X = x :: Xt) (EX' : X = Xi ++ [z]).

Lemma ends_links : nxt h (head_of l) = Some x ∧ prv h x = Some (head_of l) ∧
  nxt h z = Some (tail_of l) ∧ prv h (tail_of l) = Some z ∧ chain h X.
Proof using Hrep EX EX'.
  destruct (Hrep) as [Hc _ _ _ _]. unfold nodes in Hc.
  assert (nxt h z = Some (tail_of l) ∧ prv h (tail_of l) = Some z ∧ chain h X) as (? & ? & ?).
  { rewrite EX' in Hc |- *. rewrite <-app_assoc in Hc. change (head_of l :: Xi ++ [z] ++ [tail_of l])
      with ((head_of l :: Xi) ++ z :: [tail_of l]) in Hc.
    apply chain_cut in Hc as (Hc & ? & ? & _). split_and!; [done..|].
    destruct Xi; [done|]. by destruct Hc as (_ & _ & Hc). }
  rewrite EX in Hc. destruct Hc as (? & ? & _). done.
Qed.

Lemma ends_apart :
  (x ∈ X ∧ z ∈ X ∧ head_of l ∉ X ∧ tail_of l ∉ X ∧ NoDup X) ∧ (x ≠ NULL ∧ z ≠ NULL) ∧
  head_of l ≠ tail_of l ∧ head_of l ≠ x ∧ head_of l ≠ z ∧ tail_of l ≠ x ∧ tail_of l ≠ z.
Proof using Hrep EX EX'.
  destruct (Hrep) as [_ _ _ Hnd Hnn]. unfold nodes in Hnd, Hnn.
  apply list.NoDup_cons in Hnd as [Hhd Hnd]. pose proof Hnd as Htl%NoDup_snoc.
  apply list.NoDup_app in Hnd as (HndX & _ & _).
  assert (x ∈ X ∧ z ∈ X) as [Mx Mz].
  { split; [rewrite EX; apply list_elem_of_here|].
    rewrite EX'. apply elem_of_app; right; apply list_elem_of_here. }
  rewrite elem_of_app in Hhd. split_and!; try tauto.
  - intros ->. apply Hnn, elem_of_cons; right; apply elem_of_app; tauto.
  - intros ->. apply Hnn, elem_of_cons; right; apply elem_of_app; tauto.
  - unfold head_of, tail_of. lia.
  - intros Heq; rewrite Heq in *; tauto.
  - intros Heq; rewrite Heq in *; tauto.
  - intros Heq; rewrite Heq in *; tauto.
  - intros Heq; rewrite Heq in *; tauto.
Qed.

(** The links at the ends once the links of the nodes are turned round. *)
Lemma flipped_links h1 : flipped X h h1 →
  (nxt h1 (head_of l) = Some x ∧ prv h1 (head_of l) = Some NULL) ∧
  (prv h1 (tail_of l) = Some z ∧ nxt h1 (tail_of l) = Some NULL) ∧
  nxt h1 x = Some (head_of l) ∧ prv h1 z = Some (tail_of l) ∧ chain h1 (reverse X).
Proof using Hrep EX EX'.
  intros Hfl. destruct ends_links as (L1 & L2 & L3 & L4 & L5).
  destruct ends_apart as ((Mx & Mz & ? & ? & _) & _).
  assert (∀ q, q ∈ X → nxt h1 q = prv h q ∧ prv h1 q = nxt h q) as Hin.
  { intros q Hq. unfold nxt, prv. rewrite Hfl, decide_True by done. by destruct (h !! q). }
  assert (∀ q, q ∉ X → h1 !! q = h !! q) as Hout by (intros q Hq; by rewrite Hfl, decide_False).
  pose proof (rep_head _ _ _ Hrep) as Hh. pose proof (rep_tail _ _ _ Hrep) as Ht.
  split_and!; [unfold nxt, prv in *; by rewrite Hout..| | |].
  - by rewrite (proj1 (Hin x Mx)).
  - by rewrite (proj2 (Hin z Mz)).
  - by apply (chain_reverse h).
Qed.
End ends.

Lemma list_reverse_spec h l X fuel :
  list_rep h l X → (length X < fuel)%nat →
  runs (list_reverse fuel l) h (λ _ h',
    list_rep h' l (reverse X) ∧ same_outside (nodes l X) h h').
Proof.
  intros Hrep Hf. unfold list_reverse. run. eapply list_empty_spec; [done|].
  destruct (decide (X = [])) as [->|HX]; [rewrite bool_decide_true by done; by run|].
  rewrite bool_decide_false by done. cbn [negb]. run. eapply list_begin_spec; [done|]. run.
  eapply runs_mono; [apply (reverse_loop_spec h h l [] X fuel); [done| |done]|].
  { intros q. by rewrite decide_False by apply not_elem_of_nil. }
  intros [] h1 Hfl. simpl in Hfl. destruct (segment_ends X HX) as (x & Xt & Xi & z & EX & EX').
  pose proof (rep_list_nonnull Hrep). pose proof (rep_tail_nonnull Hrep).
  destruct (ends_apart Hrep EX EX') as ((Mx & Mz & ? & ? & HndX) & (? & ?) & ? & ? & ? & ? & ?).
  destruct (flipped_links Hrep EX EX' h1 Hfl) as ((? & ?) & (? & ?) & ? & ? & Hc).
  assert (is_Some (h1 !! head_of l) ∧ is_Some (h1 !! tail_of l) ∧ is_Some (h1 !! x) ∧ is_Some (h1 !! z))
    as (? & ? & ? & ?) by (split_and!; eauto using nxt_is_Some, prv_is_Some).
  assert (∀ q, q ∉ X → q ∉ reverse X) as Hrv by (intros q; by rewrite elem_of_reverse).
  code. split; [split|].
  - assert (∃ Z Z', reverse X = z :: Z ∧ reverse X = Z' ++ [x] ∧ z ∉ Z ∧ x ∉ Z') as (Zs & Z' & E1 & E2 & ? & ?).
    { exists (reverse Xi), (reverse Xt). rewrite !elem_of_reverse. split_and!.
      - by rewrite EX', reverse_app.
      - by rewrite EX, reverse_cons.
      - apply NoDup_snoc. by rewrite <-EX'.
      - rewrite EX in HndX. by apply list.NoDup_cons in HndX as []. }
    unfold nodes. rewrite E2, <-(app_assoc Z' [x]), (app_comm_cons Z'). apply chain_cut.
    split_and!; [|by links|by links|done]. rewrite <-app_comm_cons, <-E2, E1.
    apply (chain_cut _ []). split_and!; [done|by links|by links|].
    rewrite <-E1, E2. frames. rewrite <-E2, E1. frames. rewrite <-E1.
    rewrite chain_frame_prev_out, chain_frame_next_out by auto. done.
  - by links.
  - by links.
  - pose proof (rep_nodup _ _ _ Hrep) as Hnd. by rewrite (nodes_perm l _ _ (reverse_Permutation X)).
  - pose proof (rep_nonnull _ _ _ Hrep) as Hnn. by rewrite (nodes_perm l _ _ (reverse_Permutation X)).
  - intros q Hq. unfold nodes in Hq. rewrite elem_of_cons, elem_of_app, list_elem_of_singleton in Hq.
    unfold upd_next, upd_prev. rewrite !lookup_alter_ne by (intros ?; subst q; tauto).
    rewrite Hfl, decide_False by tauto. done.
Qed.

(** ** Maximum and minimum *)

Section extremes.
Context (less : Z → Z → bool).

Definition argmax (m : Z) (B : list Z) : Z := foldl (λ m e, if less m e then e else m) m B.

Lemma max_loop_spec h l A B m fuel (Q : Z → store → Prop) :
  list_rep h l (A ++ B) → (length B < fuel)%nat →
  Q (argmax m B) h → runs (max_loop less fuel l m (pos l B)) h Q.
Proof.
  revert A B m. induction fuel as [|fuel IH]; intros A B m Hrep Hf HQ; [lia|].
  cbn [max_loop]. run. apply list_end_spec; [by apply (rep_list_nonnull Hrep)|].
  rewrite (rep_pos_end Hrep). destruct B as [|x B]; simpl; [done|]. run.
  eapply list_next_node; [done|].
  apply (IH (A ++ [x])); [by rewrite <-app_assoc|simpl in *; lia|done].
Qed.

Lemma list_max_spec h l X fuel (Q : Z → store → Prop) :
  list_rep h l X → (length X < fuel)%nat →
  Q (match X with [] => tail_of l | x :: B => argmax x B end) h →
  runs (list_max less fuel l) h Q.
Proof.
  intros Hrep Hf HQ. unfold list_max. run. eapply list_begin_spec; [done|]. run.
  apply list_end_spec; [by apply (rep_list_nonnull Hrep)|].
  rewrite (rep_pos_end (A := []) Hrep). destruct X as [|x B]; simpl; [done|]. run.
  eapply (list_next_node _ _ []); [done|].
  apply (max_loop_spec h l [x] B); [done|simpl in *; lia|done].
Qed.

Context `{!StrictWeakOrder less}.

Lemma less_irrefl a : less a a = false.
Proof using Type*. destruct (less a a) eqn:E; [|done]. by rewrite (less_asym _ _ E) in E. Qed.
Lemma less_le_trans a b c : less a b = true → less c b = false → less a c = true.
Proof using Type*.
  intros H1 H2. destruct (less a c) eqn:E; [done|].
  by rewrite (less_trans b c a H2 E) in H1.
Qed.

(** The first of the greatest elements: everything before it is less, nothing
    after it is greater. *)
Definition is_first_max (X : list Z) (r : Z) : Prop :=
  ∃ A B, X = A ++ r :: B ∧ (∀ a, a ∈ A → less a r = true) ∧ (∀ b, b ∈ B → less r b = false).

Lemma first_max_snoc X r x : is_first_max X r → is_first_max (X ++ [x]) (if less r x then x else r).
Proof using Type*.
  intros (A & B & -> & HA & HB). destruct (less r x) eqn:E.
  - exists (A ++ r :: B), []. split_and!; [done| |by intros ? ?%not_elem_of_nil].
    intros a [Ha|[->|Ha]%elem_of_cons]%elem_of_app; [|done|].
    + apply less_le_trans with r; [by apply HA|]. by apply less_asym.
    + destruct (less a x) eqn:Eax; [done|]. by rewrite (less_trans x a r Eax (HB a Ha)) in E.
  - exists A, (B ++ [x]). split_and!; [by rewrite <-app_assoc|done|].
    intros b [Hb| ->%list_elem_of_singleton]%elem_of_app; auto.
Qed.

Lemma argmax_first B X m : is_first_max X m → is_first_max (X ++ B) (argmax m B).
Proof using Type*.
  revert X m. induction B as [|b B IH]; intros X m Hm; [by rewrite app_nil_r|].
  simpl. rewrite (cons_middle b X B), app_assoc. by apply IH, first_max_snoc.
Qed.
Lemma argmax_is_first x B : is_first_max (x :: B) (argmax x B).
Proof using Type*.
  apply (argmax_first B [x]). exists [], []. split_and!; [done|..]; by intros ? ?%not_elem_of_nil.
Qed.

(** ** Ordered insertion *)

(** Where [list_insert_ordered] puts [x]. *)
Fixpoint ordered_split (x : Z) (X : list Z) : list Z * list Z :=
  match X with
  | [] => ([], [])
  | y :: X' => if less x y then ([], X) else
      let '(A, B) := ordered_split x X' in (y :: A, B)
  end.
Definition ordered_insert (x : Z) (X : list Z) : list Z :=
  let '(A, B) := ordered_split x X in A ++ x :: B.

Lemma ordered_split_app x X : X = (ordered_split x X).1 ++ (ordered_split x X).2.
Proof using Type.
  induction X as [|y X IH]; [done|]. simpl. destruct (less x y); [done|].
  destruct (ordered_split x X) as [A B]. simpl in *. by f_equal.
Qed.

Lemma insert_loop_spec h l C X x fuel (Q : Z → store → Prop) :
  list_rep h l (C ++ X) → (length X < fuel)%nat →
  Q (pos l (ordered_split x X).2) h → runs (insert_loop less fuel l x (pos l X)) h Q.
Proof using Type.
  revert C X. induction fuel as [|fuel IH]; intros C X Hrep Hf HQ; [lia|].
  cbn [insert_loop]. run. apply list_end_spec; [by apply (rep_list_nonnull Hrep)|].
  rewrite (rep_pos_end Hrep). destruct X as [|y X]; simpl in *; [done|].
  destruct (less x y); [done|]. run. eapply list_next_node; [done|].
  apply (IH (C ++ [y])); [by rewrite <-app_assoc|lia|]. by destruct (ordered_split x X).
Qed.

Lemma list_insert_ordered_spec h l X x fuel :
  list_rep h l X → (length X < fuel)%nat → x ≠ NULL → x ∉ nodes l X → is_Some (h !! x) →
  runs (list_insert_ordered less fuel l x) h (λ _ h',
    list_rep h' l (ordered_insert x X) ∧ same_outside (x :: nodes l X) h h').
Proof using Type.
  intros Hrep Hf Hx Hnew Sx. pose proof (rep_list_nonnull Hrep).
  unfold list_insert_ordered. code. eapply list_begin_spec; [done|]. run.
  eapply (insert_loop_spec h l [] X); [done..|]. unfold ordered_insert.
  pose proof (ordered_split_app x X) as E. destruct (ordered_split x X) as [A B]. simpl in *.
  subst X. by apply list_insert_spec.
Qed.

Lemma ordered_insert_perm x X : ordered_insert x X ≡ₚ x :: X.
Proof using Type.
  unfold ordered_insert. pose proof (ordered_split_app x X) as E.
  destruct (ordered_split x X) as [A B]. simpl in E. subst X. by rewrite Permutation_middle.
Qed.

Lemma ordered_insert_cons x y X :
  ordered_insert x (y :: X) = if less x y then x :: y :: X else y :: ordered_insert x X.
Proof using Type. unfold ordered_insert. simpl. destruct (less x y); [done|]. by destruct (ordered_split x X). Qed.

Lemma ordered_insert_sorted x X :
  StronglySorted (le less) X → StronglySorted (le less) (ordered_insert x X).
Proof using Type*.
  induction 1 as [|y X HS IH Hy]; [by repeat constructor|]. rewrite ordered_insert_cons.
  destruct (less x y) eqn:E.
  - constructor; [by constructor|]. constructor; [by apply less_asym|].
    eapply Forall_impl; [|exact Hy]. intros z Hz. eapply le_trans; [done| |exact Hz]. by apply less_asym.
  - constructor; [done|]. rewrite ordered_insert_perm. by constructor.
Qed.

(** The new element comes after its equals. *)
Lemma ordered_insert_stable x k X : StronglySorted (le less) X →
  filter (eqv less k) (ordered_insert x X) = filter (eqv less k) X ++ filter (eqv less k) [x].
Proof using Type*.
  induction 1 as [|y X HS IH Hy]; [done|]. rewrite ordered_insert_cons.
  destruct (less x y) eqn:E; [|by rewrite !(filter_cons _ y), IH; case_decide].
  rewrite (filter_cons _ x (y :: X)), (filter_cons _ x []). case_decide as Hk; [|by rewrite app_nil_r].
  by rewrite (filter_eqv_above less k x).
Qed.
End extremes.

(** [list_min] is [list_max] for the opposite order. *)
Lemma list_min_max less fuel l : list_min less fuel l = list_max (λ a b, less b a) fuel l.
Proof. done. Qed.
#[export] Instance swo_flip less `{!StrictWeakOrder less} : StrictWeakOrder (λ a b, less b a).
Proof. split; intros *; [apply less_asym|]. intros. by eapply less_trans. Qed.

(** ** Removing duplicates *)

Lemma list_rep_frame h h' l X ns :
  list_rep h l X → same_outside ns h h' → (∀ q, q ∈ nodes l X → q ∉ ns) → list_rep h' l X.
Proof.
  intros [Hc Hh Ht Hnd Hnn] Hout Hdisj.
  assert (∀ q, q ∈ nodes l X → h' !! q = h !! q) as Heq by (intros q Hq; apply Hout, Hdisj, Hq).
  assert (head_of l ∈ nodes l X ∧ tail_of l ∈ nodes l X) as [? ?] by (unfold nodes; set_solver).
  split; try done; [by eapply chain_same|..]; unfold prv, nxt in *; by rewrite Heq.
Qed.

Lemma nodes_middle l A y B : nodes l (A ++ y :: B) ≡ₚ y :: nodes l (A ++ B).
Proof. unfold nodes. rewrite <-!app_assoc. simpl. by rewrite <-(Permutation_middle A), Permutation_swap. Qed.

Definition dup_nodes (d : Z) (Dl : list Z) : list Z := if d =? NULL then [] else nodes d Dl.

(** The list of duplicates, if there is one, is a list apart from [l]. *)
Record dup_rep (h : store) (d : Z) (Dl : list Z) (apart : list Z) : Prop := {
  dup_list : d ≠ NULL → list_rep h d Dl;
  dup_apart : ∀ q, q ∈ dup_nodes d Dl → q ∉ apart;
}.

Lemma dup_push h h1 l A y B d Dl :
  list_rep h l (A ++ y :: B) → dup_rep h d Dl (nodes l (A ++ y :: B)) →
  list_rep h1 l (A ++ B) → h1 !! y = h !! y → same_outside (nodes l (A ++ B)) h h1 →
  runs (if negb (d =? NULL) then list_push_back d y else mret tt) h1 (λ _ h',
    list_rep h' l (A ++ B) ∧ dup_rep h' d (Dl ++ [y]) (nodes l (A ++ B)) ∧
    same_outside (nodes l (A ++ y :: B) ++ dup_nodes d Dl) h h').
Proof.
  intros Hrep [Hd Hap] Hrep1 Hy Hout.
  pose proof (nodes_middle l A y B) as Hn.
  assert (y ∉ nodes l (A ++ B)) as HyAB.
  { pose proof (rep_nodup _ _ _ Hrep) as Hnd. rewrite Hn in Hnd. by apply list.NoDup_cons in Hnd as []. }
  assert (∀ q, q ∈ dup_nodes d Dl → q ≠ y ∧ q ∉ nodes l (A ++ B)) as Hap'.
  { intros q Hq. specialize (Hap q Hq). rewrite Hn, elem_of_cons in Hap. tauto. }
  assert (same_outside (nodes l (A ++ y :: B) ++ dup_nodes d Dl) h h1) as Hout1.
  { intros q Hq. apply Hout. rewrite elem_of_app, Hn, elem_of_cons in Hq. tauto. }
  unfold dup_nodes in Hap', Hout1 |- *. destruct (Z.eqb_spec d NULL) as [->|Hdn]; cbn [negb].
  { run. split_and!; [done| |done]. split; [done|]. by intros q ?%not_elem_of_nil. }
  assert (list_rep h1 d Dl) as Hd1.
  { eapply list_rep_frame; [by apply Hd|exact Hout|]. intros q Hq. by apply Hap'. }
  eapply runs_mono; [apply (list_push_back_spec h1 d Dl y)|].
  - done.
  - apply (rep_node_nonnull Hrep). set_solver.
  - intros Hq. by destruct (Hap' y Hq).
  - rewrite Hy. apply (rep_is_Some Hrep). rewrite Hn. apply list_elem_of_here.
  - intros _ h2 [Hd2 Hout2]. split_and!.
    + eapply list_rep_frame; [done|done|]. intros q Hq [->|Hq']%elem_of_cons; [done|]. by destruct (Hap' q Hq').
    + split; [done|]. intros q. unfold dup_nodes. destruct (Z.eqb_spec d NULL); [done|].
      rewrite nodes_middle, app_nil_r. intros [->|Hq]%elem_of_cons; [done|]. by apply Hap'.
    + eapply same_outside_trans; [done|]. eapply same_outside_mono; [done|].
      intros q. rewrite elem_of_cons, elem_of_app, Hn, elem_of_cons. tauto.
Qed.

Section unique.
Context (less : Z → Z → bool).

(** What stays after [x], and what is removed. *)
Fixpoint uniq (x : Z) (B : list Z) : list Z * list Z :=
  match B with
  | [] => ([], [])
  | y :: B =>
      if negb (less x y) && negb (less y x)
      then let '(K, D) := uniq x B in (K, y :: D)
      else let '(K, D) := uniq y B in (y :: K, D)
  end.

Lemma unique_loop_spec h l A x B d Dl fuel :
  list_rep h l (A ++ x :: B) → dup_rep h d Dl (nodes l (A ++ x :: B)) → (length B < fuel)%nat →
  runs (unique_loop less fuel l d x) h (λ _ h',
    list_rep h' l (A ++ x :: (uniq x B).1) ∧
    dup_rep h' d (Dl ++ (uniq x B).2) (nodes l (A ++ x :: (uniq x B).1)) ∧
    same_outside (nodes l (A ++ x :: B) ++ dup_nodes d Dl) h h').
Proof using Type.
  revert h A x B Dl. induction fuel as [|fuel IH]; intros h A x B Dl Hrep Hd Hf; [lia|].
  cbn [unique_loop]. run. eapply list_next_node; [done|]. run.
  apply list_end_spec; [by apply (rep_list_nonnull Hrep)|].
  assert (list_rep h l ((A ++ [x]) ++ B)) as Hrep' by (by rewrite <-app_assoc).
  rewrite (rep_pos_end Hrep'). destruct B as [|y B].
  { simpl. run. by rewrite app_nil_r. }
  rewrite bool_decide_false by done. cbn [negb pos uniq].
  simpl in Hf. destruct (negb (less x y) && negb (less y x)).
  - run. eapply runs_mono; [apply (list_remove_spec h l (A ++ [x]) y B); done|].
    intros r h1 (_ & Hrep1 & Hy & Hout). run.
    rewrite (cons_middle x A (y :: B)), (app_assoc A) in Hd |- *.
    eapply runs_mono; [eapply dup_push; done|]. intros [] h2 (Hrep2 & Hd2 & Hout2).
    rewrite <-(app_assoc A) in Hrep2, Hd2. cbn [app] in Hrep2, Hd2.
    eapply runs_mono; [apply (IH h2 A x B (Dl ++ [y])); [done|done|lia]|].
    intros [] h3 (Hrep3 & Hd3 & Hout3). destruct (uniq x B) as [K D]. cbn [fst snd] in *.
    rewrite <-app_assoc in Hd3. split_and!; [done..|].
    eapply same_outside_trans; [done|]. eapply same_outside_mono; [done|].
    intros q. unfold dup_nodes. rewrite !elem_of_app, (nodes_middle l (A ++ [x]) y B), elem_of_cons, <-(app_assoc A [x] B).
    destruct (d =? NULL); [tauto|]. rewrite (nodes_middle d Dl y []), app_nil_r, elem_of_cons. tauto.
  - eapply runs_mono; [apply (IH h (A ++ [x]) y B Dl); rewrite <-?app_assoc; [done|done|lia]|].
    intros [] h1 (? & ? & ?). destruct (uniq y B) as [K D]. cbn [fst snd] in *. by rewrite <-!app_assoc in *.
Qed.

Lemma uniq_perm x B : (uniq x B).1 ++ (uniq x B).2 ≡ₚ B.
Proof using Type.
  revert x. induction B as [|y B IH]; intros x; [done|]. simpl.
  destruct (_ && _); [specialize (IH x); destruct (uniq x B) | specialize (IH y); destruct (uniq y B)];
    simpl in *; rewrite <-IH; [by rewrite Permutation_middle|done].
Qed.

(** No two neighbours are equal any more. *)
Lemma uniq_distinct x B : Sorted (λ a b, ¬ eqv less a b) (x :: (uniq x B).1).
Proof using Type.
  revert x. induction B as [|y B IH]; intros x; [by repeat constructor|]. simpl.
  destruct (negb (less x y) && negb (less y x)) eqn:E.
  - specialize (IH x). by destruct (uniq x B).
  - specialize (IH y). destruct (uniq y B). simpl in *. constructor; [done|].
    constructor. intros [H1 H2]. by rewrite H1, H2 in E.
Qed.

(** Each removed element equals one that stays. *)
Lemma uniq_removed x B y : y ∈ (uniq x B).2 → ∃ k, k ∈ x :: (uniq x B).1 ∧ eqv less k y.
Proof using Type.
  revert x. induction B as [|z B IH]; intros x; [by intros ?%not_elem_of_nil|]. simpl.
  destruct (negb (less x z) && negb (less z x)) eqn:E.
  - specialize (IH x). destruct (uniq x B). simpl in *. intros [->|?]%elem_of_cons; [|by apply IH].
    exists x. split; [apply list_elem_of_here|]. apply andb_prop in E as [?%negb_true_iff ?%negb_true_iff]. done.
  - specialize (IH z). destruct (uniq z B). simpl in *. intros Hy.
    destruct (IH Hy) as (k & Hk & ?). exists k. split; [|done]. by apply list_elem_of_further.
Qed.
End unique.

(** ** A list is a sequence

    What a client may ask of a list, and what a sequence would answer. *)

Inductive request : Type :=
  | PushFront (x : Z)
  | PushBack (x : Z)
  | PopFront
  | PopBack
  | Remove (x : Z)
  | InsertOrdered (x : Z)
  | Front
  | Back
  | Size
  | Empty
  | Reverse
  | Max.

Section refinement.
Context (less : Z → Z → bool).

(** The code, answering a request with the value the function returns (0 for
    none, truth values as 0 and 1). *)
Definition serve (fuel : nat) (l : Z) (r : request) : M store Z :=
  match r with
  | PushFront x => list_push_front l x;; mret 0
  | PushBack x => list_push_back l x;; mret 0
  | PopFront => list_pop_front l
  | PopBack => list_pop_back l
  | Remove x => list_remove x;; mret 0
  | InsertOrdered x => list_insert_ordered less fuel l x;; mret 0
  | Front => list_front l
  | Back => list_back l
  | Size => list_size fuel l
  | Empty => b ← list_empty l; mret (if b : bool then 1 else 0)
  | Reverse => list_reverse fuel l;; mret 0
  | Max => list_max less fuel l
  end.

Fixpoint serve_all (fuel : nat) (l : Z) (rs : list request) : M store (list Z) :=
  match rs with
  | [] => mret []
  | r :: rs => a ← serve fuel l r; a' ← serve_all fuel l rs; mret (a :: a')
  end.

(** The sequence.  A request is legal if the node to add is a node of [pool]
    that is not in the sequence, the node to remove is in it, and the sequence
    whose end is wanted is not empty. *)
Definition answer (pool : list Z) (X : list Z) (r : request) : option (Z * list Z) :=
  match r with
  | PushFront x => if decide (x ∈ pool ∧ x ∉ X) then Some (0, x :: X) else None
  | PushBack x => if decide (x ∈ pool ∧ x ∉ X) then Some (0, X ++ [x]) else None
  | InsertOrdered x => if decide (x ∈ pool ∧ x ∉ X) then Some (0, ordered_insert less x X) else None
  | PopFront => match X with x :: X' => Some (x, X') | [] => None end
  | PopBack => match reverse X with x :: X' => Some (x, reverse X') | [] => None end
  | Remove x => if decide (x ∈ X) then Some (0, filter (λ y, y ≠ x) X) else None
  | Front => match X with x :: _ => Some (x, X) | [] => None end
  | Back => match reverse X with x :: _ => Some (x, X) | [] => None end
  | Size => Some (zlen X, X)
  | Empty => Some (if decide (X = []) then 1 else 0, X)
  | Reverse => Some (0, reverse X)
  | Max => match X with x :: B => Some (argmax less x B, X) | [] => None end
  end.

Fixpoint answer_all (pool : list Z) (X : list Z) (rs : list request) : option (list Z * list Z) :=
  match rs with
  | [] => Some ([], X)
  | r :: rs =>
      match answer pool X r with
      | Some (a, X') =>
          match answer_all pool X' rs with
          | Some (a', X'') => Some (a :: a', X'')
          | None => None
          end
      | None => None
      end
  end.

End refinement.

(** The store holds the sequence [X] at [l] and the nodes of [pool]. *)
Record holds (pool : list Z) (l : Z) (h : store) (X : list Z) : Prop := {
  holds_rep : list_rep h l X;
  holds_sub : X ⊆ pool;
  holds_alloc : ∀ x, x ∈ pool → x ≠ NULL ∧ x ≠ head_of l ∧ x ≠ tail_of l ∧ is_Some (h !! x);
}.

Section simulation.
Context (pool : list Z) (l : Z).

Lemma holds_length h X : holds pool l h X → (length X ≤ length pool)%nat.
Proof.
  intros [Hrep Hsub _]. pose proof (rep_nodup _ _ _ Hrep) as Hnd. unfold nodes in Hnd.
  apply list.NoDup_cons in Hnd as [_ (Hnd & _ & _)%list.NoDup_app].
  apply submseteq_length, NoDup_submseteq; [done|]. intros x. apply Hsub.
Qed.

(** The new list is represented and only its own nodes were written: nothing
    else is needed to go on. *)
Definition step_ok (h : store) (a : Z) (X' : list Z) (r : Z) (h' : store) : Prop :=
  r = a ∧ holds pool l h' X' ∧ same_outside (nodes l pool) h h'.

Lemma holds_step h h' X X' a : holds pool l h X → list_rep h' l X' → X' ⊆ pool →
  same_outside (nodes l X') h h' → step_ok h a X' a h'.
Proof.
  intros [_ _ Ha] Hrep Hsub Hout. split_and!; [done| |].
  - split; [done..|]. intros x Hx. destruct (Ha x Hx) as (? & ? & ? & Hs). split_and!; try done.
    destruct (decide (x ∈ nodes l X')) as [Hin|Hin]; [by apply (rep_is_Some Hrep)|]. by rewrite Hout.
  - eapply same_outside_mono; [done|]. unfold nodes. intros x.
    rewrite !elem_of_cons, !elem_of_app. specialize (Hsub x). tauto.
Qed.
Lemma holds_stay h X a : holds pool l h X → step_ok h a X a h.
Proof. by intros. Qed.

(** The preconditions of an insertion. *)
Lemma holds_new h X x : holds pool l h X → x ∈ pool → x ∉ X →
  x ≠ NULL ∧ x ∉ nodes l X ∧ is_Some (h !! x).
Proof.
  intros [_ _ Ha] Hx HX. destruct (Ha x Hx) as (? & ? & ? & ?). split_and!; try done.
  unfold nodes. rewrite elem_of_cons, elem_of_app, list_elem_of_singleton. tauto.
Qed.
Lemma holds_insert h h' X X' x a : holds pool l h X → x ∈ pool → X' ≡ₚ x :: X →
  list_rep h' l X' → same_outside (x :: nodes l X) h h' → step_ok h a X' a h'.
Proof.
  intros Hh Hx Hp Hrep Hout. eapply holds_step; [done|done| |].
  - intros y. rewrite Hp, elem_of_cons. intros [->|?]; [done|]. by apply (holds_sub _ _ _ _ Hh).
  - eapply same_outside_perm; [|done]. symmetry.
    etransitivity; [by apply nodes_perm|apply (nodes_middle l [])].
Qed.

Lemma filter_ne_id (x : Z) (L : list Z) : x ∉ L → filter (λ y, y ≠ x) L = L.
Proof.
  induction L as [|y L IH]; intros Hx; [done|]. apply not_elem_of_cons in Hx as [? ?].
  rewrite filter_cons_True by congruence. by rewrite IH.
Qed.
Lemma filter_ne_middle (A : list Z) x B : NoDup (A ++ x :: B) → filter (λ y, y ≠ x) (A ++ x :: B) = A ++ B.
Proof.
  intros Hnd. rewrite list.filter_app, filter_cons_False by tauto.
  rewrite <-Permutation_middle in Hnd. apply list.NoDup_cons in Hnd as [Hx _]. rewrite elem_of_app in Hx.
  rewrite !filter_ne_id by tauto. done.
Qed.

Lemma serve_spec less fuel h X r a X' :
  (length pool < fuel)%nat → zlen pool < 2 ^ 32 →
  holds pool l h X → answer less pool X r = Some (a, X') →
  runs (serve less fuel l r) h (step_ok h a X').
Proof.
  intros Hfuel Hw Hh Ha. pose proof (holds_length _ _ Hh) as Hlen. pose proof (holds_rep _ _ _ _ Hh) as Hrep.
  pose proof (holds_sub _ _ _ _ Hh) as Hsub.
  assert (zlen X < 2 ^ 32) by (unfold zlen in *; lia).
  destruct r; simpl in Ha; repeat case_decide; simplify_eq; simpl; run.
  - destruct (holds_new h X x) as (? & ? & ?); try tauto.
    eapply runs_mono; [by apply list_push_front_spec|]. intros _ h' [? ?]. run.
    eapply (holds_insert h _ X _ x); [done|tauto|done..].
  - destruct (holds_new h X x) as (? & ? & ?); try tauto.
    eapply runs_mono; [by apply list_push_back_spec|]. intros _ h' [? ?]. run.
    eapply (holds_insert h _ X _ x); [done|tauto|symmetry; apply Permutation_cons_append|done..].
  - destruct X as [|x X]; simplify_eq. eapply runs_mono; [by eapply list_pop_front_spec|].
    intros r h' (-> & ? & ? & ?). eapply holds_step; [done|done| |done]. set_solver.
  - destruct X as [|x X _] using rev_ind; [done|]. rewrite reverse_snoc in Ha. simplify_eq.
    rewrite reverse_involutive. eapply runs_mono; [by eapply list_pop_back_spec|].
    intros r h' (-> & ? & ? & ?). eapply holds_step; [done|done| |done]. set_solver.
  - apply list_elem_of_split in H0 as (A & B & ->).
    eapply runs_mono; [by eapply list_remove_spec|]. intros r h' (_ & ? & ? & ?). run.
    rewrite filter_ne_middle.
    + eapply holds_step; [done|done| |done]. set_solver.
    + pose proof (rep_nodup _ _ _ Hrep) as Hnd. unfold nodes in Hnd.
      by apply list.NoDup_cons in Hnd as [_ (Hnd & _ & _)%list.NoDup_app].
  - destruct (holds_new h X x) as (? & ? & ?); try tauto.
    eapply runs_mono; [apply list_insert_ordered_spec; done || lia|]. intros _ h' [? ?]. run.
    eapply (holds_insert h _ X _ x); [done|tauto|apply ordered_insert_perm|done..].
  - destruct X as [|x X]; simplify_eq. by eapply list_front_spec.
  - destruct X as [|x X _] using rev_ind; [done|]. rewrite reverse_snoc in Ha. simplify_eq.
    by eapply list_back_spec.
  - eapply list_size_spec; [done|lia|done|done].
  - eapply list_empty_spec; [done|]. run. by case_bool_decide.
  - eapply list_empty_spec; [done|]. run. by case_bool_decide.
  - eapply runs_mono; [apply list_reverse_spec; [done|lia]|]. intros _ h' [? ?]. run.
    eapply holds_step; [done|done| |].
    + intros y. rewrite elem_of_reverse. apply Hsub.
    + eapply same_outside_perm; [|done]. apply nodes_perm. by rewrite reverse_Permutation.
  - destruct X as [|x X]; simplify_eq. eapply list_max_spec; [done|lia|done].
Qed.
End simulation.

(** ** The theorems *)

(** C10 A kernel list implements a sequence: for every series of requests that is
    legal for a sequence (no node added twice, none taken from an empty list),
    whatever the mixture of pushes, pops, removals, ordered insertions,
    reversals and queries, the functions of list.c return the sequence's
    answers, the list ends up holding the sequence's nodes in order, and no
    node outside the list and the pool is written.  Loops need no more
    iterations than the pool has nodes, and one. *)
Theorem list_refines_sequence less pool l fuel rs h X answers X' :
  (length pool < fuel)%nat → zlen pool < 2 ^ 32 → holds pool l h X →
  answer_all less pool X rs = Some (answers, X') →
  runs (serve_all less fuel l rs) h (λ r h',
    r = answers ∧ holds pool l h' X' ∧ same_outside (nodes l pool) h h').
Proof.
  intros Hf Hw. revert h X answers. induction rs as [|r rs IH]; intros h X answers Hh Ha; simpl in *.
  { simplify_eq. by run. }
  destruct (answer less pool X r) as [[a X1]|] eqn:E1; [|done].
  destruct (answer_all less pool X1 rs) as [[a' X2]|] eqn:E2; [|done]. simplify_eq. run.
  eapply runs_mono; [by eapply serve_spec|]. intros ? h1 (-> & Hh1 & Hout1). run.
  eapply runs_mono; [by eapply IH|]. intros ? h2 (-> & Hh2 & Hout2). run.
  split_and!; [done..|]. by eapply same_outside_trans.
Qed.

(** A list with its nodes, as memory holds it: header at 1000, nodes at
    multiples of ten. *)
Fixpoint linked (before : Z) (ns : list Z) : store :=
  match ns with
  | [] => ∅
  | p :: ns => <[p := Elem before (match ns with [] => NULL | q :: _ => q end)]> (linked p ns)
  end.
Definition demo (xs spare : list Z) : store :=
  foldr (λ p, <[p := Elem NULL NULL]>) (linked NULL (nodes 1000 xs)) spare.
Definition demo_less (a b : Z) : bool := a `mod` 30 <? b `mod` 30.
#[export] Instance demo_less_swo : StrictWeakOrder demo_less.
Proof. split; unfold demo_less; intros *; rewrite ?Z.ltb_lt, ?Z.ltb_ge; lia. Qed.

(** Decides [list_rep] for a concrete store. *)
Ltac concrete_rep :=
  split; [vm_compute; tauto|reflexivity|reflexivity
         |apply (bool_decide_unpack _); vm_compute; exact I
         |apply (bool_decide_unpack _); vm_compute; exact I].

Lemma list_refines_sequence_witness :
  runs (serve_all demo_less 5 1000
          [PushBack 40; InsertOrdered 30; Size; Reverse; PopFront; Max; Remove 30; Back])
       (demo [10; 20] [30; 40]) (λ r h',
    r = [0; 0; 4; 0; 40; 20; 0; 10] ∧ holds [10; 20; 30; 40] 1000 h' [20; 10] ∧
    same_outside (nodes 1000 [10; 20; 30; 40]) (demo [10; 20] [30; 40]) h').
Proof.
  apply (list_refines_sequence demo_less [10; 20; 30; 40] 1000 5
    [PushBack 40; InsertOrdered 30; Size; Reverse; PopFront; Max; Remove 30; Back]
    (demo [10; 20] [30; 40]) [10; 20]).
  - simpl. lia.
  - reflexivity.
  - split; [concrete_rep|set_solver|].
    apply (proj1 (list.Forall_forall _ _)). repeat constructor; try done; by eexists.
  - reflexivity.
Defined.

(** [list_insert_ordered] keeps an ordered list ordered, adds exactly the new
    node, puts it after the nodes equal to it, and does not disturb the order
    of the others. *)
Theorem list_insert_ordered_correct less `{!StrictWeakOrder less} h l X x fuel :
  list_rep h l X → StronglySorted (le less) X → (length X < fuel)%nat →
  x ≠ NULL → x ∉ nodes l X → is_Some (h !! x) →
  runs (list_insert_ordered less fuel l x) h (λ _ h', ∃ Y,
    list_rep h' l Y ∧ Y ≡ₚ x :: X ∧ StronglySorted (le less) Y ∧
    (∀ k, filter (eqv less k) Y = filter (eqv less k) X ++ filter (eqv less k) [x]) ∧
    same_outside (x :: nodes l X) h h').
Proof.
  intros. eapply runs_mono; [by apply list_insert_ordered_spec|]. intros _ h' [? ?].
  exists (ordered_insert less x X).
  split_and!; auto using ordered_insert_perm, ordered_insert_sorted, ordered_insert_stable.
Qed.

Lemma list_insert_ordered_correct_witness :
  runs (list_insert_ordered demo_less 3 1000 40) (demo [10; 20] [40]) (λ _ h', ∃ Y,
    list_rep h' 1000 Y ∧ Y ≡ₚ [40; 10; 20] ∧ StronglySorted (le demo_less) Y ∧
    (∀ k, filter (eqv demo_less k) Y = filter (eqv demo_less k) [10; 20] ++ filter (eqv demo_less k) [40]) ∧
    same_outside (40 :: nodes 1000 [10; 20]) (demo [10; 20] [40]) h').
Proof.
  apply (list_insert_ordered_correct demo_less _ 1000 [10; 20]).
  - concrete_rep.
  - repeat constructor.
  - simpl. lia.
  - done.
  - apply (bool_decide_unpack _). vm_compute. exact I.
  - by eexists.
Defined.

(** [list_unique] on a list, with a second list for the duplicates or none:
    no two neighbours of the remaining list are equal, the remaining and the
    removed nodes together are the original ones, each removed node equals one
    that stays, and the removed nodes are appended to the list of duplicates
    if one was given. *)
Theorem list_unique_correct less h l X d Dl fuel :
  list_rep h l X → dup_rep h d Dl (nodes l X) → (length X < fuel)%nat →
  runs (list_unique less fuel l d) h (λ _ h', ∃ Y D,
    list_rep h' l Y ∧ (d ≠ NULL → list_rep h' d (Dl ++ D)) ∧ Y ++ D ≡ₚ X ∧
    Sorted (λ a b, ¬ eqv less a b) Y ∧ (∀ y, y ∈ D → ∃ k, k ∈ Y ∧ eqv less k y) ∧
    same_outside (nodes l X ++ dup_nodes d Dl) h h').
Proof.
  intros Hrep Hd Hf. pose proof (rep_list_nonnull Hrep). unfold list_unique. code.
  eapply list_empty_spec; [done|]. destruct X as [|x B].
  { rewrite bool_decide_true by done. run. exists [], []. rewrite app_nil_r.
    split_and!; [done|apply Hd|done|constructor|by intros ? ?%not_elem_of_nil|done]. }
  rewrite bool_decide_false by done. run. eapply list_begin_spec; [done|].
  eapply runs_mono; [apply (unique_loop_spec less h l [] x B d Dl); [done..|simpl in Hf; lia]|].
  intros [] h' (? & Hd' & ?). exists (x :: (uniq less x B).1), (uniq less x B).2.
  split_and!; [done|apply Hd'| |apply uniq_distinct|apply uniq_removed|done].
  simpl. by rewrite uniq_perm.
Qed.

Lemma list_unique_correct_witness :
  runs (list_unique demo_less 5 1000 NULL) (demo [10; 40; 20; 50] []) (λ _ h', ∃ Y D,
    list_rep h' 1000 Y ∧ (NULL ≠ NULL → list_rep h' NULL ([] ++ D)) ∧ Y ++ D ≡ₚ [10; 40; 20; 50] ∧
    Sorted (λ a b, ¬ eqv demo_less a b) Y ∧ (∀ y, y ∈ D → ∃ k, k ∈ Y ∧ eqv demo_less k y) ∧
    same_outside (nodes 1000 [10; 40; 20; 50] ++ dup_nodes NULL []) (demo [10; 40; 20; 50] []) h').
Proof.
  apply list_unique_correct.
  - concrete_rep.
  - split; [done|]. by intros q ?%not_elem_of_nil.
  - simpl. lia.
Defined.

(** [list_max] and [list_min] return the first of the greatest and the first
    of the least nodes, or the tail of an empty list, and change nothing. *)
Theorem list_extremes_correct less `{!StrictWeakOrder less} h l X fuel :
  list_rep h l X → (length X < fuel)%nat →
  runs (list_max less fuel l) h (λ r h', h' = h ∧
    (X = [] ∧ r = tail_of l ∨ is_first_max less X r)) ∧
  runs (list_min less fuel l) h (λ r h', h' = h ∧
    (X = [] ∧ r = tail_of l ∨ is_first_max (λ a b, less b a) X r)).
Proof.
  intros Hrep Hf. rewrite list_min_max.
  split; (eapply list_max_spec; [done..|]; split; [done|]; destruct X; [by left|right]; by apply argmax_is_first, _).
Qed.

Lemma list_extremes_correct_witness :
  runs (list_max demo_less 5 1000) (demo [10; 20; 40; 50] []) (λ r h', h' = demo [10; 20; 40; 50] [] ∧
    ([10; 20; 40; 50] = [] ∧ r = tail_of 1000 ∨ is_first_max demo_less [10; 20; 40; 50] r)) ∧
  runs (list_min demo_less 5 1000) (demo [10; 20; 40; 50] []) (λ r h', h' = demo [10; 20; 40; 50] [] ∧
    ([10; 20; 40; 50] = [] ∧ r = tail_of 1000 ∨ is_first_max (λ a b, demo_less b a) [10; 20; 40; 50] r)).
Proof. apply (list_extremes_correct demo_less _ 1000); [concrete_rep|simpl; lia]. Defined.

Lemma list_sort_correct_witness :
  runs (list_sort demo_less 6 1000) (demo [50; 20; 40; 10; 30] []) (λ _ h', ∃ Y,
    list_rep h' 1000 Y ∧ Y ≡ₚ [50; 20; 40; 10; 30] ∧ StronglySorted (le demo_less) Y ∧
    (∀ k, filter (eqv demo_less k) Y = filter (eqv demo_less k) [50; 20; 40; 10; 30]) ∧
    same_outside (nodes 1000 [50; 20; 40; 10; 30]) (demo [50; 20; 40; 10; 30] []) h').
Proof. apply (list_sort_correct demo_less _ 1000); [concrete_rep|simpl; lia|reflexivity]. Defined.

(** The sort run on the concrete list. *)
Example list_sort_demo :
  match list_sort demo_less 6 1000 (demo [50; 20; 40; 10; 30] []) with
  | Done (_, h) => chain h (nodes 1000 [30; 40; 10; 50; 20])
  | _ => False
  end.
Proof. vm_compute. tauto. Qed.
