(* ===== verification/KHash.v ===== *)
(** * Hash tables (src/pintos/src/lib/kernel/hash.c)

    A table is an array of buckets, each a list of the addresses of the
    elements linked into it (list.c provides such sequences, see KListOps.v).
    The hash and comparison functions of the client are parameters, with what
    hash.h asks of them in the class [Hashable]; whether [malloc] succeeds on a
    request of a given size is a parameter of the operations that call it.

    The main theorem says that a table behaves as a set of pairwise different
    elements under any series of operations, whatever [malloc] does. *)

From S2P Require Import Prelude KList KListSort KListOps.

Record hash : Type := Hash { elem_cnt : Z; bucket_cnt : Z; buckets : list (list Z) }.
Definition set_elem_cnt (v : Z) (h : hash) : hash := Hash v (bucket_cnt h) (buckets h).
Definition set_buckets (v : list (list Z)) (h : hash) : hash := Hash (elem_cnt h) (bucket_cnt h) v.

(** What a client's functions must satisfy: [less] is a strict weak order, and
    elements neither of which is less than the other have the same hash. *)
Class Hashable (hash_func : Z → Z) (less : Z → Z → bool) : Prop := {
  hashable_order :: StrictWeakOrder less;
  hashable_eqv : ∀ a b, eqv less a b → hash_func a = hash_func b;
  hashable_range : ∀ a, is_u32 (hash_func a);
}.

(** [sizeof (struct list)]. *)
Definition LIST_SIZE : Z := 16.

Definition turn_off_least_1bit (x : Z) : Z := Z.land x (u32 (x - 1)).
Definition is_power_of_2 (x : Z) : bool := negb (x =? 0) && (turn_off_least_1bit x =? 0).

Definition MIN_ELEMS_PER_BUCKET : Z := 1.
Definition BEST_ELEMS_PER_BUCKET : Z := 2.
Definition MAX_ELEMS_PER_BUCKET : Z := 4.

Fixpoint round_loop (fuel : nat) (x : Z) : outcome Z :=
  match fuel with
  | O => NoFuel
  | S fuel => if is_power_of_2 x then Done x else round_loop fuel (turn_off_least_1bit x)
  end.

(** The number of buckets for [n] elements; 33 rounds are enough for 32 bits. *)
Definition ideal_bucket_cnt (n : Z) : outcome Z :=
  let c := n `div` BEST_ELEMS_PER_BUCKET in
  round_loop 33 (if c <? 4 then 4 else c).

Section table.
Context (hash_func : Z → Z) (less : Z → Z → bool).

Definition find_bucket (e : Z) : M hash Z := gets (λ h, Z.land (hash_func e) (u32 (bucket_cnt h - 1))).

Fixpoint find_loop (bucket : list Z) (e : Z) : Z :=
  match bucket with
  | [] => NULL
  | hi :: rest => if negb (less hi e) && negb (less e hi) then hi else find_loop rest e
  end.
Definition find_elem (bucket e : Z) : M hash Z :=
  h ← get; b ← lift (rd (buckets h) bucket); mret (find_loop b e).

(** [list_push_front (&h->buckets[bucket], &e->list_elem)]. *)
Definition push_bucket (bs : list (list Z)) (bucket e : Z) : outcome (list (list Z)) :=
  b ← rd bs bucket; wr bs bucket (e :: b).

Definition insert_elem (bucket e : Z) : M hash unit :=
  modify (λ h, set_elem_cnt (u32 (elem_cnt h + 1)) h);;
  h ← get; bs ← lift (push_bucket (buckets h) bucket e); put (set_buckets bs h).

Definition remove_elem (e : Z) : M hash unit :=
  modify (λ h, set_elem_cnt (u32 (elem_cnt h - 1)) h);;
  h ← get;
  if bool_decide (e ∈ concat (buckets h))
  then put (set_buckets (filter (λ x, x ≠ e) <$> buckets h) h)
  else undefined.

Fixpoint move_bucket (cnt : Z) (es : list Z) (bs : list (list Z)) : outcome (list (list Z)) :=
  match es with
  | [] => Done bs
  | e :: es =>
      bs ← push_bucket bs (Z.land (hash_func e) (u32 (cnt - 1))) e;
      move_bucket cnt es bs
  end.
Fixpoint move_buckets (cnt : Z) (old : list (list Z)) (bs : list (list Z)) : outcome (list (list Z)) :=
  match old with
  | [] => Done bs
  | b :: old => bs ← move_bucket cnt b bs; move_buckets cnt old bs
  end.

Definition rehash (malloc : Z → bool) : M hash unit :=
  h ← get;
  new_bucket_cnt ← lift (ideal_bucket_cnt (elem_cnt h));
  if new_bucket_cnt =? bucket_cnt h then mret tt
  else if negb (malloc (u32 (LIST_SIZE * new_bucket_cnt))) then mret tt
  else
    bs ← lift (move_buckets new_bucket_cnt (buckets h) (replicate (Z.to_nat new_bucket_cnt) []));
    put (Hash (elem_cnt h) new_bucket_cnt bs).

Definition hash_insert (malloc : Z → bool) (new : Z) : M hash Z :=
  bucket ← find_bucket new;
  old ← find_elem bucket new;
  (if old =? NULL then insert_elem bucket new else mret tt);;
  rehash malloc;;
  mret old.

Definition hash_replace (malloc : Z → bool) (new : Z) : M hash Z :=
  bucket ← find_bucket new;
  old ← find_elem bucket new;
  (if negb (old =? NULL) then remove_elem old else mret tt);;
  insert_elem bucket new;;
  rehash malloc;;
  mret old.

Definition hash_find (e : Z) : M hash Z := bucket ← find_bucket e; find_elem bucket e.

Definition hash_delete (malloc : Z → bool) (e : Z) : M hash Z :=
  bucket ← find_bucket e;
  found ← find_elem bucket e;
  if negb (found =? NULL) then remove_elem found;; rehash malloc;; mret found
  else mret found.

Definition hash_size : M hash Z := gets elem_cnt.
Definition hash_empty : M hash bool := gets (λ h, elem_cnt h =? 0).

(** The destructor, if there is one, is called for the elements in this order. *)
Definition hash_clear {A} (destructor : option (Z → A → A)) (a : A) : M hash A :=
  h ← get;
  put (Hash 0 (bucket_cnt h) ((λ _, []) <$> buckets h));;
  mret (match destructor with
        | Some d => foldl (λ a b, foldl (λ a e, d e a) a b) a (buckets h)
        | None => a
        end).

Definition hash_init (malloc : Z → bool) : option hash :=
  if malloc (LIST_SIZE * 4) then Some (Hash 0 4 (replicate 4 [])) else None.

Definition hash_destroy {A} (destructor : option (Z → A → A)) (a : A) : M hash A :=
  match destructor with Some _ => hash_clear destructor a | None => mret a end.

Definition hash_apply {A} (action : Z → A → A) (a : A) : M hash A :=
  gets (λ h, foldl (λ a b, foldl (λ a e, action e a) a b) a (buckets h)).
End table.

(** ** Iteration *)

(** An iterator points to an element of a bucket, to the bucket's head
    (position -1) or tail, or is null. *)
Record hash_iterator : Type := Iterator { it_bucket : Z; it_pos : option Z }.

Definition hash_first : hash_iterator := Iterator 0 (Some (-1)).

Definition bucket_len (h : hash) (i : Z) : outcome Z := b ← rd (buckets h) i; Done (zlen b).

(** [while (i->elem == list_elem_to_hash_elem (list_end (i->bucket)))], with at
    most [fuel] buckets to go. *)
Fixpoint next_loop (h : hash) (fuel : nat) (b pos : Z) : outcome hash_iterator :=
  match fuel with
  | O => NoFuel
  | S fuel =>
      n ← bucket_len h b;
      if pos =? n then
        if bucket_cnt h <=? b + 1 then Done (Iterator (b + 1) None)
        else next_loop h fuel (b + 1) 0
      else Done (Iterator b (Some pos))
  end.

Definition hash_cur (h : hash) (i : hash_iterator) : outcome Z :=
  match it_pos i with
  | None => Done NULL
  | Some pos => b ← rd (buckets h) (it_bucket i); rd b pos
  end.

Definition hash_next (h : hash) (i : hash_iterator) : outcome (Z * hash_iterator) :=
  match it_pos i with
  | None => Undef
  | Some pos =>
      i' ← next_loop h (S (Z.to_nat (bucket_cnt h))) (it_bucket i) (pos + 1);
      e ← hash_cur h i';
      Done (e, i')
  end.

(** [while (hash_next (&i))]: the elements met. *)
Fixpoint iterate (h : hash) (fuel : nat) (i : hash_iterator) : outcome (list Z) :=
  match fuel with
  | O => NoFuel
  | S fuel =>
      r ← hash_next h i;
      if r.1 =? NULL then Done [] else es ← iterate h fuel r.2; Done (r.1 :: es)
  end.

(** ** Hash functions *)

Definition FNV_32_PRIME : Z := 16777619.
Definition FNV_32_BASIS : Z := 2166136261.

Definition fnv_step (hash byte : Z) : Z := Z.lxor (u32 (hash * FNV_32_PRIME)) byte.
Definition hash_bytes (buf : list Z) : Z := foldl fnv_step FNV_32_BASIS buf.

(** [s] is the memory from the string's first byte on. *)
Fixpoint string_loop (hash : Z) (s : list Z) : outcome Z :=
  match s with
  | [] => Undef
  | c :: s => if c =? 0 then Done hash else string_loop (fnv_step hash c) s
  end.
Definition hash_string (s : list Z) : outcome Z := string_loop FNV_32_BASIS s.
Definition hash_int (i : Z) : Z := hash_bytes (le_bytes 4 (u32 i)).

(** ** Powers of two *)

Lemma testbit_pred j m : 0 ≤ j → Z.testbit (2 ^ j * m - 1) j = Z.even m.
Proof.
  intros Hj. rewrite Z.testbit_odd, Z.shiftr_div_pow2 by done.
  replace ((2 ^ j * m - 1) `div` 2 ^ j) with (m - 1).
  - rewrite Z.odd_sub. simpl. rewrite <-Z.negb_even. by destruct (Z.even m).
  - pose proof (Z.pow_pos_nonneg 2 j ltac:(lia) Hj) as Hp.
    apply Z.div_unique_pos with (2 ^ j - 1); lia.
Qed.

Lemma low_bits_divide j x : 0 ≤ j → (∀ i, 0 ≤ i < j → Z.testbit x i = false) ↔ (2 ^ j | x).
Proof.
  intros Hj. rewrite <-Z.mod_divide by (apply Z.pow_nonzero; lia). split.
  - intros H. apply Z.bits_inj'. intros i Hi. rewrite Z.bits_0. destruct (decide (i < j)).
    + rewrite Z.mod_pow2_bits_low by lia. by apply H.
    + by rewrite Z.mod_pow2_bits_high by lia.
  - intros H i Hi. rewrite <-(Z.mod_pow2_bits_low x j) by lia. by rewrite H, Z.bits_0.
Qed.

(** Clearing the lowest bit that is set. *)
Lemma turn_off_divide j x : 0 ≤ j → 0 < x < 2 ^ 32 → (2 ^ j | x) → (2 ^ (j + 1) | turn_off_least_1bit x).
Proof.
  intros Hj Hx Hd. unfold turn_off_least_1bit. rewrite u32_small by lia. apply low_bits_divide; [lia|].
  intros i Hi. rewrite Z.land_spec. destruct (decide (i < j)).
  - by rewrite (proj2 (low_bits_divide j x Hj) Hd) by lia.
  - replace i with j by lia. destruct Hd as [m ->]. rewrite Z.mul_comm, testbit_pred by done.
    rewrite Z.testbit_odd, Z.shiftr_div_pow2, Z.mul_comm, Z.div_mul by (try apply Z.pow_nonzero; lia).
    rewrite <-Z.negb_odd. by destruct (Z.odd m).
Qed.

Lemma turn_off_log2 x : 0 < x < 2 ^ 32 → x ≠ 2 ^ Z.log2 x →
  Z.log2 (turn_off_least_1bit x) = Z.log2 x ∧ 0 < turn_off_least_1bit x < 2 ^ 32.
Proof.
  intros Hx Hne. unfold turn_off_least_1bit. rewrite u32_small by lia.
  pose proof (Z.log2_spec x ltac:(lia)) as Hl. pose proof (Z.log2_nonneg x).
  assert (Z.log2 (x - 1) = Z.log2 x) as El.
  { apply Z.log2_unique; [done|]. replace (Z.succ (Z.log2 x)) with (Z.log2 x + 1) in * by lia. lia. }
  set (y := Z.land x (x - 1)).
  assert (Z.testbit y (Z.log2 x) = true) as Hb.
  { unfold y. rewrite Z.land_spec, Z.bit_log2 by lia. rewrite <-El, Z.bit_log2; [done|].
    assert (0 < 2 ^ Z.log2 x) by (apply Z.pow_pos_nonneg; lia). lia. }
  assert (0 ≤ y) as Hy by (apply Z.land_nonneg; lia).
  assert (y ≠ 0) by (intros E; by rewrite E, Z.bits_0 in Hb).
  assert (Z.log2 y = Z.log2 x) as E.
  { apply Z.le_antisymm.
    - unfold y. etransitivity; [apply Z.log2_land; lia|]. rewrite El. lia.
    - destruct (Z.le_gt_cases (Z.log2 x) (Z.log2 y)); [done|]. by rewrite (Z.bits_above_log2 y) in Hb by done. }
  split; [done|]. split; [lia|]. apply Z.log2_lt_pow2; [lia|]. rewrite E. apply Z.log2_lt_pow2; lia.
Qed.

Lemma is_power_of_2_spec x : 0 < x < 2 ^ 32 → is_power_of_2 x = bool_decide (x = 2 ^ Z.log2 x).
Proof.
  intros Hx. unfold is_power_of_2. destruct (Z.eqb_spec x 0); [lia|]. simpl.
  destruct (decide (x = 2 ^ Z.log2 x)) as [E|Hne].
  - rewrite bool_decide_true by done. apply Z.eqb_eq. unfold turn_off_least_1bit. rewrite u32_small by lia.
    pose proof (Z.log2_nonneg x). rewrite E at 1 2. replace (2 ^ Z.log2 x - 1) with (Z.ones (Z.log2 x)) by (rewrite Z.ones_equiv; lia).
    rewrite Z.land_ones by done. apply Z.mod_same. apply Z.pow_nonzero; lia.
  - rewrite bool_decide_false by done. apply Z.eqb_neq. pose proof (turn_off_log2 x Hx Hne). lia.
Qed.

Lemma round_loop_spec fuel j x : 0 ≤ j → 0 < x < 2 ^ 32 → (2 ^ j | x) → Z.log2 x < Z.of_nat fuel + j →
  round_loop fuel x = Done (2 ^ Z.log2 x).
Proof.
  revert j x. induction fuel as [|fuel IH]; intros j x Hj Hx Hd Hf.
  - apply Z.divide_pos_le in Hd; [|lia]. apply Z.log2_le_pow2 in Hd; lia.
  - cbn [round_loop]. rewrite is_power_of_2_spec by done. case_bool_decide as E; [by rewrite <-E|].
    destruct (turn_off_log2 x Hx E) as [El Hr]. rewrite <-El. apply (IH (j + 1)); [lia|done|by apply turn_off_divide|lia].
Qed.

(** The number of buckets chosen is a power of two, at least 4, and with it
    there are between 2 and 4 elements per bucket once there are 8 elements. *)
Lemma ideal_bucket_cnt_spec n : 0 ≤ n < 2 ^ 32 → ∃ p, ideal_bucket_cnt n = Done (2 ^ p) ∧ 2 ≤ p < 32 ∧
  (8 ≤ n → 2 * 2 ^ p ≤ n < 4 * 2 ^ p) ∧ (n < 8 → p = 2).
Proof.
  intros Hn. unfold ideal_bucket_cnt, BEST_ELEMS_PER_BUCKET. set (c := if _ <? 4 then 4 else _).
  assert (4 ≤ c < 2 ^ 31 ∧ (8 ≤ n → c = n `div` 2) ∧ (n < 8 → c = 4)) as (Hc & H8 & H4).
  { unfold c. destruct (Z.ltb_spec (n `div` 2) 4); Z.to_euclidean_division_equations; lia. }
  clearbody c. exists (Z.log2 c). pose proof (Z.log2_spec c ltac:(lia)) as Hl.
  replace (Z.succ (Z.log2 c)) with (Z.log2 c + 1) in Hl by lia. rewrite Z.pow_add_r in Hl by (try apply Z.log2_nonneg; lia).
  assert (2 ≤ Z.log2 c < 31) by (split; [change 2 with (Z.log2 4); apply Z.log2_le_mono; lia|apply Z.log2_lt_pow2; lia]).
  split_and!; [|lia..| |].
  - apply (round_loop_spec 33 0); [lia..|exists c; lia|lia].
  - intros Hge. specialize (H8 Hge). subst c. Z.to_euclidean_division_equations; lia.
  - intros Hlt. rewrite (H4 Hlt). done.
Qed.

(** ** Tables and the sets they stand for *)

Section table_proofs.
Context (hash_func : Z → Z) (less : Z → Z → bool) `{!Hashable hash_func less}.
Notation eqv := (eqv less).
Notation find_loop := (find_loop less).

Definition slot (cnt e : Z) : Z := Z.land (hash_func e) (u32 (cnt - 1)).

(** Every element is in the bucket its hash selects. *)
Definition in_place (cnt : Z) (bs : list (list Z)) : Prop :=
  ∀ i b e, bs@[i] = Some b → e ∈ b → slot cnt e = i.

(** Elements a table may hold at once: no two of them equal. *)
Record set_ok (X : list Z) : Prop := {
  so_null : NULL ∉ X;
  so_nodup : NoDup X;
  so_eqv : ∀ a b, a ∈ X → b ∈ X → eqv a b → a = b;
  so_size : zlen X < 2 ^ 32;
}.

(** The table [h] holds the elements [X]. *)
Record table_rep (h : hash) (X : list Z) : Prop := {
  tr_cnt : ∃ p, bucket_cnt h = 2 ^ p ∧ 2 ≤ p < 32;
  tr_len : zlen (buckets h) = bucket_cnt h;
  tr_place : in_place (bucket_cnt h) (buckets h);
  tr_elems : concat (buckets h) ≡ₚ X;
  tr_size : elem_cnt h = zlen X;
  tr_set : set_ok X;
}.

Lemma eqv_sym a b : eqv a b → eqv b a.
Proof using Type. unfold eqv. tauto. Qed.

Lemma find_loop_cases X e :
  (find_loop X e = NULL ∧ ∀ x, x ∈ X → ¬ eqv x e ∨ x = NULL) ∨
  (find_loop X e ∈ X ∧ eqv (find_loop X e) e).
Proof using Type.
  clear. induction X as [|x X IH]; simpl; [left; split; [done|by intros ? ?%not_elem_of_nil]|].
  unfold eqv in *. destruct (less x e) eqn:E1, (less e x) eqn:E2; simpl;
    try (right; split; [set_solver|done]);
    (destruct IH as [[-> IH]|[IH1 IH2]]; [left; split; [done|]|right; split; [set_solver|done]];
     intros y [->|Hy]%elem_of_cons; [left; intros []; congruence|by apply IH]).
Qed.

(** What is found does not depend on the order of the elements. *)
Lemma find_loop_unique X e r : set_ok X → r ∈ X → eqv r e → find_loop X e = r.
Proof using Hashable0.
  intros HX Hr He. destruct (find_loop_cases X e) as [[E Hno]|[Hin He']].
  - destruct (Hno r Hr) as [?| ->]; [done|]. by destruct (so_null _ HX).
  - apply (so_eqv _ HX); [done..|]. destruct He as [? ?], He' as [? ?].
    split; eapply less_trans; eauto.
Qed.
Lemma find_loop_null X e : set_ok X → (∀ x, x ∈ X → ¬ eqv x e) → find_loop X e = NULL.
Proof using Type.
  intros HX H. destruct (find_loop_cases X e) as [[E _]|[Hin He]]; [done|]. by destruct (H _ Hin).
Qed.
Lemma find_loop_perm X Y e : set_ok X → set_ok Y → (∀ x, eqv x e → x ∈ X ↔ x ∈ Y) → find_loop X e = find_loop Y e.
Proof using Hashable0.
  intros HX HY H. destruct (find_loop_cases Y e) as [[E Hno]|[Hin He]].
  - rewrite E. apply find_loop_null; [done|]. intros x Hx He. apply H in Hx; [|done].
    destruct (Hno x Hx) as [?| ->]; [done|]. by destruct (so_null _ HY).
  - apply find_loop_unique; [done|by apply H|done].
Qed.

Lemma slot_mod cnt p e : cnt = 2 ^ p → 0 ≤ p < 32 → slot cnt e = hash_func e `mod` cnt.
Proof using Type.
  intros -> Hp. unfold slot. assert (0 < 2 ^ p < 2 ^ 32) by (split; [apply Z.pow_pos_nonneg|apply Z.pow_lt_mono_r]; lia).
  rewrite u32_small by lia. rewrite <-Z.land_ones by lia. f_equal. rewrite Z.ones_equiv. lia.
Qed.
Lemma slot_range cnt e : (∃ p, cnt = 2 ^ p ∧ 2 ≤ p < 32) → 0 ≤ slot cnt e < cnt.
Proof using Type.
  intros (p & E & Hp). rewrite (slot_mod _ _ _ E) by lia. apply Z.mod_pos_bound. subst. apply Z.pow_pos_nonneg; lia.
Qed.
Lemma slot_eqv cnt a b : eqv a b → slot cnt a = slot cnt b.
Proof using Hashable0. intros H. unfold slot. by rewrite (hashable_eqv a b). Qed.

Lemma bucket_split {A} (bs : list (list A)) i b : bs@[i] = Some b →
  ∃ P S, bs = P ++ b :: S ∧ zlen P = i ∧ ∀ b', bs@[i := b'] = P ++ b' :: S.
Proof using Type.
  intros H. pose proof (zlookup_bound _ _ _ H) as Hi. apply zlookup_Some in H as [_ H].
  exists (take (Z.to_nat i) bs), (drop (S (Z.to_nat i)) bs). split_and!.
  - by rewrite take_drop_middle.
  - unfold zlen in *. rewrite length_take. lia.
  - intros b'. unfold zinsert. destruct (Z.ltb_spec i 0); [lia|]. apply insert_take_drop. unfold zlen in *. lia.
Qed.
Lemma elem_of_concat {A} (bs : list (list A)) x : x ∈ concat bs ↔ ∃ i b, bs@[i] = Some b ∧ x ∈ b.
Proof using Type.
  clear. split.
  - induction bs as [|b bs IH]; simpl; [by intros ?%not_elem_of_nil|]. intros [Hx|Hx]%elem_of_app.
    + by exists 0, b.
    + destruct (IH Hx) as (i & b' & Hi & Hb'). exists (i + 1), b'. split; [|done].
      pose proof (zlookup_bound _ _ _ Hi). rewrite (zlookup_app [b] bs). destruct (Z.ltb_spec (i + 1) (zlen [b])); [change (zlen [b]) with 1 in *; lia|].
      replace (i + 1 - zlen [b]) with i; [done|]. change (zlen [b]) with 1. lia.
  - intros (i & b & Hi & Hx). destruct (bucket_split _ _ _ Hi) as (P & S & -> & _ & _). rewrite concat_app. simpl. set_solver.
Qed.

Lemma push_bucket_spec bs cnt e b : in_place cnt bs → bs@[slot cnt e] = Some b →
  ∃ bs', push_bucket bs (slot cnt e) e = Done bs' ∧ in_place cnt bs' ∧ zlen bs' = zlen bs ∧ concat bs' ≡ₚ e :: concat bs.
Proof using Type.
  intros Hp Hb. exists (bs@[slot cnt e := e :: b]). unfold push_bucket. rewrite (rd_Some _ _ _ Hb). split_and!.
  - simpl. apply wr_in. by eapply zlookup_bound.
  - intros i b' x. destruct (decide (slot cnt e = i)) as [<-|Hne].
    + rewrite zlookup_insert_eq by (by eapply zlookup_bound). intros [= <-] [->|Hx]%elem_of_cons; [done|]. by eapply Hp.
    + rewrite zlookup_insert_ne by done. apply Hp.
  - by rewrite zlen_insert.
  - destruct (bucket_split _ _ _ Hb) as (P & S & E & _ & E'). rewrite E', E, !concat_app. simpl. symmetry. apply Permutation_middle.
Qed.

(** Moving the elements of the old buckets into the new ones. *)
Lemma move_bucket_spec cnt es bs : (∃ p, cnt = 2 ^ p ∧ 2 ≤ p < 32) → in_place cnt bs → zlen bs = cnt →
  ∃ bs', move_bucket hash_func cnt es bs = Done bs' ∧ in_place cnt bs' ∧ zlen bs' = cnt ∧ concat bs' ≡ₚ es ++ concat bs.
Proof using Type.
  intros Hc. revert bs. induction es as [|e es IH]; intros bs Hp Hl; cbn [move_bucket]; [by exists bs|].
  destruct (zlookup_lt bs (slot cnt e)) as [b Hb]; [rewrite Hl; by apply slot_range|].
  destruct (push_bucket_spec bs cnt e b Hp Hb) as (bs1 & E & Hp1 & Hl1 & Hc1).
  fold (slot cnt e). rewrite E. simpl. destruct (IH bs1) as (bs2 & E2 & Hp2 & Hl2 & Hc2); [done|congruence|].
  exists bs2. split_and!; [done..|]. rewrite Hc2, Hc1. simpl. symmetry. apply Permutation_middle.
Qed.
Lemma move_buckets_spec cnt old bs : (∃ p, cnt = 2 ^ p ∧ 2 ≤ p < 32) → in_place cnt bs → zlen bs = cnt →
  ∃ bs', move_buckets hash_func cnt old bs = Done bs' ∧ in_place cnt bs' ∧ zlen bs' = cnt ∧ concat bs' ≡ₚ concat old ++ concat bs.
Proof using Type.
  intros Hc. revert bs. induction old as [|b old IH]; intros bs Hp Hl; cbn [move_buckets]; [by exists bs|].
  destruct (move_bucket_spec cnt b bs Hc Hp Hl) as (bs1 & E & Hp1 & Hl1 & Hc1). rewrite E. simpl.
  destruct (IH bs1) as (bs2 & E2 & Hp2 & Hl2 & Hc2); [done..|]. exists bs2. split_and!; [done..|].
  rewrite Hc2, Hc1. simpl. rewrite <-(app_assoc b), !(app_assoc). f_equiv. apply Permutation_app_comm.
Qed.

Lemma concat_empty {A} n : concat (replicate n (@nil A)) = [].
Proof using Type. clear. by induction n. Qed.
Lemma in_place_empty cnt n : in_place cnt (replicate n []).
Proof using Type.
  intros i b e [_ H]%zlookup_Some. apply lookup_replicate_1 in H as [-> _]. by intros ?%not_elem_of_nil.
Qed.

(** [rehash] never changes what the table holds. *)
Lemma rehash_spec malloc h X (Q : unit → hash → Prop) : table_rep h X →
  (∀ h', table_rep h' X → elem_cnt h' = elem_cnt h →
    (malloc = (λ _, true) → ideal_bucket_cnt (elem_cnt h') = Done (bucket_cnt h')) → Q tt h') →
  runs (rehash hash_func malloc) h Q.
Proof using Type.
  intros Hr HQ. unfold rehash. run. destruct Hr as [Hc Hl Hp He Hs Hset].
  destruct (ideal_bucket_cnt_spec (elem_cnt h)) as (p & E & Hp2 & _ & _).
  { rewrite Hs. pose proof (so_size _ Hset). pose proof (zlen_nonneg X). lia. }
  rewrite E. run. simpl. destruct (Z.eqb_spec (2 ^ p) (bucket_cnt h)) as [Eb|Hne].
  { run. apply HQ; [by split|done|]. intros _. by rewrite E, Eb. }
  destruct (malloc _) eqn:Em; simpl; run.
  - destruct (move_buckets_spec (2 ^ p) (buckets h) (replicate (Z.to_nat (2 ^ p)) [])) as (bs & Em' & Hp' & Hl' & Hc').
    { eauto. } { apply in_place_empty. } { unfold zlen. rewrite length_replicate. pose proof (Z.pow_pos_nonneg 2 p). lia. }
    rewrite Em'. simpl. rewrite concat_empty, app_nil_r in Hc'. run. apply HQ; [split; simpl; eauto; by rewrite Hc'|done|].
    intros _. exact E.
  - apply HQ; [by split|done|]. intros ->. done.
Qed.

Lemma set_ok_part A B C : set_ok (A ++ B ++ C) → set_ok B.
Proof using Type.
  clear Hashable0 hash_func. intros [H1 H2 H3 H4]. split.
  - set_solver.
  - apply list.NoDup_app in H2 as (_ & _ & H2). by apply list.NoDup_app in H2 as (H2 & _).
  - intros a b Ha Hb. apply H3; set_solver.
  - rewrite !zlen_app in H4. pose proof (zlen_nonneg A). pose proof (zlen_nonneg C). lia.
Qed.
#[export] Instance set_ok_perm : Proper ((≡ₚ) ==> iff) set_ok.
Proof using Type.
  assert (∀ X Y, X ≡ₚ Y → set_ok X → set_ok Y) as H.
  { intros X Y HP [H1 H2 H3 H4]. split; [by rewrite <-HP..| |].
    - intros a b. rewrite <-!HP. apply H3.
    - unfold zlen in *. by rewrite <-HP. }
  intros X Y HP. split; apply H; by rewrite HP.
Qed.

(** Searching the bucket is as good as searching the whole table. *)
Lemma find_spec h X e (Q : Z → hash → Prop) : table_rep h X →
  Q (find_loop X e) h → runs (hash_find hash_func less e) h Q.
Proof using Hashable0.
  intros [Hc Hl Hp He Hs Hset] HQ. unfold hash_find, find_bucket, find_elem. run. fold (slot (bucket_cnt h) e).
  destruct (zlookup_lt (buckets h) (slot (bucket_cnt h) e)) as [b Hb]; [rewrite Hl; by apply slot_range|].
  rewrite (rd_Some _ _ _ Hb). simpl. run. replace (find_loop b e) with (find_loop X e); [done|].
  destruct (bucket_split _ _ _ Hb) as (P & S & E & _ & _).
  assert (set_ok (concat (buckets h))) as Hset' by (by rewrite He).
  apply find_loop_perm; [done| |].
  - rewrite E, concat_app in Hset'. simpl in Hset'. by eapply set_ok_part.
  - intros x Hx. rewrite <-He, elem_of_concat. split; [|eauto]. intros (i & b' & Hi & Hin).
    rewrite <-(Hp _ _ _ Hi Hin), (slot_eqv _ _ _ Hx) in Hi. by simplify_eq.
Qed.
Lemma find_first {A} e (f : Z → Z → M hash A) h X Q : table_rep h X →
  runs (f (slot (bucket_cnt h) e) (find_loop X e)) h Q →
  runs (bucket ← find_bucket hash_func e; old ← find_elem less bucket e; f bucket old) h Q.
Proof using Hashable0.
  intros Hr Hf. apply runs_bind. unfold find_bucket. run. fold (slot (bucket_cnt h) e).
  apply (find_spec h X e (λ r h', r = find_loop X e ∧ h' = h)) in Hr as H; [|done].
  unfold hash_find, find_bucket in H. apply runs_bind_inv in H. red in H. simpl in H. fold (slot (bucket_cnt h) e) in H.
  eapply runs_mono; [exact H|]. by intros r h' [-> ->].
Qed.

Lemma insert_elem_spec h X e (Q : unit → hash → Prop) : table_rep h X → set_ok (e :: X) →
  (∀ h', table_rep h' (e :: X) → Q tt h') → runs (insert_elem (slot (bucket_cnt h) e) e) h Q.
Proof using Type.
  intros [Hc Hl Hp He Hs Hset] Hset' HQ. unfold insert_elem. run. simpl.
  destruct (zlookup_lt (buckets h) (slot (bucket_cnt h) e)) as [b Hb]; [rewrite Hl; by apply slot_range|].
  destruct (push_bucket_spec (buckets h) (bucket_cnt h) e b Hp Hb) as (bs' & E & Hp' & Hl' & Hc').
  rewrite E. run. apply HQ. split; simpl; [done|congruence|done| | |done].
  - by rewrite Hc', He.
  - rewrite Hs, zlen_cons, u32_small; [lia|]. pose proof (so_size _ Hset') as H. rewrite zlen_cons in H.
    pose proof (zlen_nonneg X). lia.
Qed.

Lemma concat_filter {A} (P : A → Prop) `{∀ x, Decision (P x)} bs : concat (filter P <$> bs) = filter P (concat bs).
Proof using Type. clear. induction bs as [|b bs IH]; [done|]. rewrite fmap_cons. cbn [concat]. by rewrite list.filter_app, IH. Qed.
Lemma filter_remove (X : list Z) (e : Z) : NoDup X → e ∈ X → e :: filter (λ x, x ≠ e) X ≡ₚ X.
Proof using Type.
  clear. intros Hnd Hin. apply list_elem_of_split in Hin as (A & B & ->).
  apply list.NoDup_app in Hnd as (_ & HA & HB). apply list.NoDup_cons in HB as [HB _].
  rewrite list.filter_app, filter_cons_False by naive_solver.
  rewrite !filter_ne_id; [apply Permutation_middle|done|]. intros Hin. apply (HA e Hin). set_solver.
Qed.

Lemma remove_elem_spec h X e (Q : unit → hash → Prop) : table_rep h X → e ∈ X →
  (∀ h' Y, e :: Y ≡ₚ X → table_rep h' Y → bucket_cnt h' = bucket_cnt h → Q tt h') → runs (remove_elem e) h Q.
Proof using Type.
  intros [Hc Hl Hp He Hs Hset] Hin HQ. unfold remove_elem. run. simpl.
  rewrite bool_decide_true by (by rewrite He). run.
  pose proof (filter_remove X e (so_nodup _ Hset) Hin) as HX.
  apply (HQ _ (filter (λ x, x ≠ e) X)); [done| |done]. split; simpl; [done| | | | |].
  - unfold zlen. by rewrite length_fmap.
  - intros i b x. rewrite zlookup_Some. intros [Hi H]. apply list_lookup_fmap_Some in H as (b' & -> & Hb').
    intros [_ Hx]%list_elem_of_filter. apply (Hp i b'); [by apply zlookup_Some|done].
  - by rewrite concat_filter, He.
  - rewrite Hs. assert (zlen X = 1 + zlen (filter (λ x, x ≠ e) X)) as E by (unfold zlen; rewrite <-HX at 1; simpl; lia).
    rewrite E, u32_small; [lia|]. pose proof (so_size _ Hset). pose proof (zlen_nonneg (filter (λ x, x ≠ e) X)). lia.
  - rewrite <-HX in Hset. by apply (set_ok_part [e] _ []); rewrite app_nil_r.
Qed.
End table_proofs.

(** ** The contract *)

Inductive hash_op : Type :=
  | Insert (e : Z)
  | Replace (e : Z)
  | Find (e : Z)
  | Delete (e : Z)
  | Size.

Section contract.
Context (hash_func : Z → Z) (less : Z → Z → bool) `{!Hashable hash_func less}.

(** [r] is the element of [X] equal to [e], null if there is none. *)
Definition found (X : list Z) (e r : Z) : Prop :=
  (r ∈ X ∧ eqv less r e) ∨ (r = NULL ∧ ∀ x, x ∈ X → ¬ eqv less x e).

(** What an operation on the set [X] answers and leaves. *)
Definition op_spec (X : list Z) (o : hash_op) (r : Z) (X' : list Z) : Prop :=
  match o with
  | Insert e => found X e r ∧ X' = if decide (r = NULL) then e :: X else X
  | Replace e => found X e r ∧ X' = e :: filter (λ x, x ≠ r) X
  | Find e => found X e r ∧ X' = X
  | Delete e => found X e r ∧ X' = filter (λ x, x ≠ r) X
  | Size => r = zlen X ∧ X' = X
  end.

Definition op_legal (X : list Z) (o : hash_op) : Prop :=
  match o with
  | Insert e | Replace e => e ≠ NULL ∧ zlen X + 1 < 2 ^ 32
  | _ => True
  end.

Definition do_op (malloc : Z → bool) (o : hash_op) : M hash Z :=
  match o with
  | Insert e => hash_insert hash_func less malloc e
  | Replace e => hash_replace hash_func less malloc e
  | Find e => hash_find hash_func less e
  | Delete e => hash_delete hash_func less malloc e
  | Size => hash_size
  end.

Notation set_ok := (set_ok less).
Notation table_rep := (table_rep hash_func less).

Lemma found_find X e : set_ok X → found X e (find_loop less X e).
Proof using Type.
  intros HX. destruct (find_loop_cases less X e) as [[-> H]|H]; [right|by left]. split; [done|].
  intros x Hx. destruct (H x Hx) as [?| ->]; [done|]. by destruct (so_null _ _ HX).
Qed.

Lemma set_ok_insert X e : set_ok X → e ≠ NULL → zlen X + 1 < 2 ^ 32 → (∀ x, x ∈ X → ¬ eqv less x e) → set_ok (e :: X).
Proof using Hashable0.
  intros [H1 H2 H3 H4] He Hs Hno. split.
  - set_solver.
  - apply list.NoDup_cons. split; [|done]. intros Hin. apply (Hno e Hin). by split; apply (less_irrefl less).
  - intros a b [->|Ha]%elem_of_cons [->|Hb]%elem_of_cons Hab; [done| | |by apply H3].
    + destruct (Hno b Hb). by apply eqv_sym.
    + by destruct (Hno a Ha).
  - rewrite zlen_cons. lia.
Qed.

Lemma rep_elements h X Y : table_rep h X → X ≡ₚ Y → table_rep h Y.
Proof using Type.
  intros [Hc Hl Hp He Hs Hset] HXY. split; [done..| | |].
  - by rewrite He.
  - rewrite Hs. unfold zlen. by rewrite HXY.
  - by rewrite <-HXY.
Qed.

Lemma found_removed X e r : set_ok X → r ∈ X → eqv less r e → ∀ x, x ∈ filter (λ x, x ≠ r) X → ¬ eqv less x e.
Proof using Hashable0.
  intros HX Hr He x [Hne Hx]%list_elem_of_filter Hxe. apply Hne.
  apply (so_eqv _ _ HX); [done..|]. destruct He, Hxe. split; eapply less_trans; eauto.
Qed.

Lemma do_op_spec malloc o h X : table_rep h X → op_legal X o →
  runs (do_op malloc o) h (λ r h', ∃ X', op_spec X o r X' ∧ table_rep h' X').
Proof using Hashable0.
  intros Hr Hl. pose proof (tr_set _ _ _ _ Hr) as HX. destruct o as [e|e|e|e|]; cbn [do_op op_spec op_legal] in *.
  - apply (find_first hash_func less e _ h X); [done|]. pose proof (found_find X e HX) as Hf.
    set (r := find_loop less X e) in *. destruct (Z.eqb_spec r NULL) as [E|E].
    + destruct Hf as [[Hin _]|[_ Hno]]; [rewrite E in Hin; by destruct (so_null _ _ HX)|].
      run. eapply insert_elem_spec; [done|destruct Hl; by apply set_ok_insert|]. intros h1 Hr1.
      run. eapply rehash_spec; [done|]. intros h2 Hr2 _ _. run. exists (e :: X). split; [|done]. split; [by right|].
      by destruct (decide (r = NULL)).
    + run. eapply rehash_spec; [done|]. intros h2 Hr2 _ _. run. exists X. split; [|done]. split; [done|].
      by destruct (decide (r = NULL)).
  - apply (find_first hash_func less e _ h X); [done|]. pose proof (found_find X e HX) as Hf.
    set (r := find_loop less X e) in *. destruct (Z.eqb_spec r NULL) as [E|E]; simpl.
    + destruct Hf as [[Hin _]|[_ Hno]]; [rewrite E in Hin; by destruct (so_null _ _ HX)|].
      run. eapply insert_elem_spec; [done|destruct Hl; by apply set_ok_insert|]. intros h1 Hr1.
      run. eapply rehash_spec; [done|]. intros h2 Hr2 _ _. run. exists (e :: X). split; [|done]. split; [by right|].
      rewrite E, filter_ne_id; [done|]. apply HX.
    + destruct Hf as [[Hin He]|[? _]]; [|done]. run. eapply remove_elem_spec; [done..|]. intros h1 Y HY Hr1 Hc.
      rewrite <-Hc. run. assert (filter (λ x, x ≠ r) X ≡ₚ Y) as HY'.
      { apply (Permutation_cons_inv (a := r)). etransitivity; [apply filter_remove; [apply HX|done]|by symmetry]. }
      run. eapply insert_elem_spec; [done| |].
      { apply set_ok_insert; [by eapply tr_set|by destruct Hl| |].
        - destruct Hl as [_ Hl]. assert (zlen X = 1 + zlen Y) by (unfold zlen; rewrite <-HY; simpl; lia). lia.
        - intros x. rewrite <-HY'. by eapply found_removed. }
      intros h2 Hr2. run. eapply rehash_spec; [done|]. intros h3 Hr3 _ _. run. exists (e :: filter (λ x, x ≠ r) X).
      split; [split; [by left|done]|]. eapply rep_elements; [done|]. by rewrite HY'.
  - apply (find_spec hash_func less h X e); [done|]. exists X. split; [|done]. split; [by apply found_find|done].
  - apply (find_first hash_func less e _ h X); [done|]. pose proof (found_find X e HX) as Hf.
    set (r := find_loop less X e) in *. destruct (Z.eqb_spec r NULL) as [E|E]; simpl; run.
    + exists X. split; [|done]. split; [done|]. rewrite E, filter_ne_id; [done|]. apply HX.
    + destruct Hf as [[Hin He]|[? _]]; [|done]. eapply remove_elem_spec; [done..|]. intros h1 Y HY Hr1 _.
      run. eapply rehash_spec; [done|]. intros h2 Hr2 _ _. run. exists (filter (λ x, x ≠ r) X). split; [split; [by left|done]|].
      eapply rep_elements; [done|]. apply (Permutation_cons_inv (a := r)).
      etransitivity; [done|]. symmetry. apply filter_remove; [apply HX|done].
  - unfold hash_size. run. exists X. split; [|done]. split; [|done]. apply Hr.
Qed.

(** A series of operations, each with what [malloc] does meanwhile. *)
Fixpoint do_ops (os : list ((Z → bool) * hash_op)) : M hash (list Z) :=
  match os with
  | [] => mret []
  | (malloc, o) :: os => r ← do_op malloc o; rs ← do_ops os; mret (r :: rs)
  end.
Fixpoint ops_spec (X : list Z) (os : list ((Z → bool) * hash_op)) (rs : list Z) (X' : list Z) : Prop :=
  match os, rs with
  | [], [] => X' = X
  | (_, o) :: os, r :: rs => ∃ X1, op_spec X o r X1 ∧ ops_spec X1 os rs X'
  | _, _ => False
  end.

(** The elements inserted are not null; the number of operations bounds the
    number of elements. *)
Definition ops_legal (os : list ((Z → bool) * hash_op)) : Prop :=
  Forall (λ mo, match mo.2 with Insert e | Replace e => e ≠ NULL | _ => True end) os.

Lemma op_spec_size X o r X' : op_spec X o r X' → zlen X' ≤ zlen X + 1.
Proof using Type.
  assert (∀ r, zlen (filter (λ x, x ≠ r) X) ≤ zlen X) as Hf.
  { intros r'. unfold zlen. pose proof (length_filter (λ x, x ≠ r') X). lia. }
  destruct o as [e|e|e|e|]; simpl; intros [_ ->]; rewrite ?zlen_cons; try (specialize (Hf r); lia); try lia.
  destruct (decide _); rewrite ?zlen_cons; lia.
Qed.

Lemma do_ops_spec os h X : table_rep h X → ops_legal os → zlen X + zlen os < 2 ^ 32 →
  runs (do_ops os) h (λ rs h', ∃ X', ops_spec X os rs X' ∧ table_rep h' X').
Proof using Hashable0.
  revert h X. induction os as [|[malloc o] os IH]; intros h X Hr Hl Hs; cbn [do_ops ops_spec]; run; [by exists X|].
  apply Forall_cons_1 in Hl as [Ho Hl]. rewrite zlen_cons in Hs. pose proof (zlen_nonneg os).
  eapply runs_mono; [apply do_op_spec; [done|]|].
  { destruct o; simpl in *; try done; split; try done; lia. }
  intros r h1 (X1 & HX1 & Hr1). pose proof (op_spec_size _ _ _ _ HX1). run.
  eapply runs_mono; [apply IH; [done..|lia]|]. intros rs h2 (X2 & HX2 & Hr2). run. exists X2. split; [|done]. by exists X1.
Qed.
End contract.

Lemma init_rep hash_func less malloc h : hash_init malloc = Some h → table_rep hash_func less h [].
Proof.
  unfold hash_init. destruct (malloc _); [|done]. intros [= <-]. split; simpl; [by exists 2|done| |done|done|].
  - apply (in_place_empty hash_func 4 4).
  - split; [by intros ?%not_elem_of_nil|constructor|by intros ? ? ?%not_elem_of_nil|done].
Qed.

(** C11 A hash table is a set.  From [hash_init], any series of fewer than 2^32
    insertions, replacements, searches, deletions and size queries returns, and
    answers as a set of elements does in which no two are equal: an insertion
    or replacement reports the equal element there was, a search or deletion
    the one it found.  None of this depends on which of the calls of [malloc]
    made to resize the table succeed. *)
Theorem hash_refines_set hash_func less `{!Hashable hash_func less} malloc h os :
  hash_init malloc = Some h → ops_legal os → zlen os < 2 ^ 32 →
  runs (do_ops hash_func less os) h (λ rs h', ∃ X,
    ops_spec less [] os rs X ∧ concat (buckets h') ≡ₚ X ∧ elem_cnt h' = zlen X).
Proof.
  intros Hi Hl Hs. eapply runs_mono; [eapply do_ops_spec; [done|by eapply init_rep|done|done]|].
  intros rs h' (X & HX & Hr). exists X. split_and!; [done|apply Hr..].
Qed.

(** The table adapts: after an insertion, if memory could be allocated, there
    are 4 buckets for fewer than 8 elements, and for more the number of elements
    is at least 2 and less than 4 times the number of buckets, which is a power
    of 2. *)
Theorem insert_keeps_load_factor hash_func less `{!Hashable hash_func less} h X e :
  table_rep hash_func less h X → e ≠ NULL → zlen X + 1 < 2 ^ 32 →
  runs (hash_insert hash_func less (λ _, true) e) h (λ _ h', ∃ p,
    bucket_cnt h' = 2 ^ p ∧ zlen (buckets h') = 2 ^ p ∧
    (elem_cnt h' < 8 → bucket_cnt h' = 4) ∧
    (8 ≤ elem_cnt h' → BEST_ELEMS_PER_BUCKET * bucket_cnt h' ≤ elem_cnt h' < MAX_ELEMS_PER_BUCKET * bucket_cnt h')).
Proof.
  intros Hr He Hs. pose proof (tr_set _ _ _ _ Hr) as HX.
  assert (∀ h1 Y r, table_rep hash_func less h1 Y →
    runs (rehash hash_func (λ _, true);; mret r) h1 (λ (_ : Z) h', ∃ p, bucket_cnt h' = 2 ^ p ∧ zlen (buckets h') = 2 ^ p ∧
      (elem_cnt h' < 8 → bucket_cnt h' = 4) ∧
      (8 ≤ elem_cnt h' → BEST_ELEMS_PER_BUCKET * bucket_cnt h' ≤ elem_cnt h' < MAX_ELEMS_PER_BUCKET * bucket_cnt h'))) as Hre.
  { intros h1 Y r Hr1. run. eapply rehash_spec; [done|]. intros h2 Hr2 Ee Hc. specialize (Hc eq_refl). run.
    destruct (ideal_bucket_cnt_spec (elem_cnt h2)) as (p & E & Hp & H8 & H4).
    { rewrite (tr_size _ _ _ _ Hr2). pose proof (so_size _ _ (tr_set _ _ _ _ Hr2)). pose proof (zlen_nonneg Y). lia. }
    rewrite Hc in E. injection E as E. exists p. rewrite (tr_len _ _ _ _ Hr2). unfold BEST_ELEMS_PER_BUCKET, MAX_ELEMS_PER_BUCKET.
    rewrite E. split_and!; [done|done| |done]. intros H. by rewrite (H4 H). }
  apply (find_first hash_func less e _ h X); [done|]. pose proof (found_find less X e HX) as Hf.
  set (r := find_loop less X e) in *. destruct (Z.eqb_spec r NULL) as [E|E]; [|by apply (Hre h X)].
  destruct Hf as [[Hin _]|[_ Hno]]; [rewrite E in Hin; by destruct (so_null _ _ HX)|].
  apply runs_bind. eapply insert_elem_spec; [done|by eapply set_ok_insert|]. intros h1 Hr1. by eapply Hre.
Qed.

(** ** Iteration visits every element once *)

Section iteration.
Context (h : hash) (Hcnt : zlen (buckets h) = bucket_cnt h) (Hnull : NULL ∉ concat (buckets h)).

Lemma bucket_at P b S : buckets h = P ++ b :: S → rd (buckets h) (zlen P) = Done b.
Proof using Type.
  clear. intros ->. apply rd_Some. rewrite zlookup_app. destruct (Z.ltb_spec (zlen P) (zlen P)); [lia|]. by rewrite Z.sub_diag.
Qed.

Lemma next_loop_spec fuel P A R S : buckets h = P ++ (A ++ R) :: S → (length S < fuel)%nat →
  match R ++ concat S with
  | [] => ∃ b, next_loop h fuel (zlen P) (zlen A) = Done (Iterator b None)
  | e :: rest => ∃ P' A' R' S', buckets h = P' ++ (A' ++ e :: R') :: S' ∧ rest = R' ++ concat S' ∧
      next_loop h fuel (zlen P) (zlen A) = Done (Iterator (zlen P') (Some (zlen A')))
  end.
Proof using Hcnt.
  clear Hnull. revert P A R S. induction fuel as [|fuel IH]; intros P A R S E Hf; [lia|].
  cbn [next_loop]. unfold bucket_len. rewrite (bucket_at _ _ _ E). cbn [mbind outcome_bind]. rewrite zlen_app.
  assert (bucket_cnt h = zlen P + (1 + zlen S)) as Ec by (rewrite <-Hcnt, E, zlen_app, zlen_cons; lia).
  destruct R as [|e R].
  - rewrite zlen_nil, Z.add_0_r, Z.eqb_refl, Ec. simpl. destruct S as [|b S].
    + simpl. destruct (Z.leb_spec (zlen P + (1 + zlen (@nil (list Z)))) (zlen P + 1)); [eauto|]. change (zlen []) with 0 in *. lia.
    + pose proof (zlen_nonneg S). rewrite zlen_cons. destruct (Z.leb_spec (zlen P + (1 + (1 + zlen S))) (zlen P + 1)); [lia|].
      specialize (IH (P ++ [A ++ []]) [] b S). rewrite zlen_app in IH.
      change (zlen [A ++ []]) with 1 in IH. apply IH; [by rewrite <-app_assoc|simpl in Hf; lia].
  - rewrite zlen_cons. pose proof (zlen_nonneg R). destruct (Z.eqb_spec (zlen A) (zlen A + (1 + zlen R))); [lia|].
    simpl. exists P, A, R, S. done.
Qed.

Lemma iterate_spec fuel P A R S : buckets h = P ++ (A ++ R) :: S → (length (R ++ concat S) < fuel)%nat →
  iterate h fuel (Iterator (zlen P) (Some (zlen A - 1))) = Done (R ++ concat S).
Proof using Hcnt Hnull.
  revert P A R S. induction fuel as [|fuel IH]; intros P A R S E Hf; [lia|]. cbn [iterate]. unfold hash_next. cbn [it_pos it_bucket].
  rewrite Z.sub_add. assert (length S < Datatypes.S (Z.to_nat (bucket_cnt h)))%nat as Hfuel.
  { rewrite <-Hcnt, E. unfold zlen. rewrite length_app. simpl. lia. }
  pose proof (next_loop_spec _ P A R S E Hfuel) as Hn.
  destruct (R ++ concat S) as [|e rest].
  - destruct Hn as [b ->]. done.
  - destruct Hn as (P' & A' & R' & S' & E' & -> & ->). simpl. unfold hash_cur. cbn [it_pos it_bucket].
    rewrite (bucket_at _ _ _ E'). simpl. assert (rd (A' ++ e :: R') (zlen A') = Done e) as ->.
    { apply rd_Some. rewrite zlookup_app. destruct (Z.ltb_spec (zlen A') (zlen A')); [lia|]. by rewrite Z.sub_diag. }
    simpl. destruct (Z.eqb_spec e NULL) as [->|].
    { destruct Hnull. rewrite E', concat_app. simpl. set_solver. }
    specialize (IH P' (A' ++ [e]) R' S'). rewrite <-app_assoc, zlen_app in IH. change (zlen [e]) with 1 in IH.
    replace (zlen A' + 1 - 1) with (zlen A') in IH by lia. rewrite IH; [done|done|]. simpl in Hf. lia.
Qed.
End iteration.

(** Iterating over a table with [hash_first] and [hash_next] ends after one
    call more than there are elements, and meets every element exactly once. *)
Theorem iteration_complete hash_func less h X :
  table_rep hash_func less h X →
  ∃ es, iterate h (S (length X)) hash_first = Done es ∧ es ≡ₚ X ∧ NoDup es.
Proof.
  intros [(p & Hc & Hp) Hl _ He _ Hset]. exists (concat (buckets h)).
  assert (NULL ∉ concat (buckets h)) as Hn by (rewrite He; apply Hset).
  split_and!; [|done|rewrite He; apply Hset].
  assert (0 < 2 ^ p) by (apply Z.pow_pos_nonneg; lia).
  assert (∃ b bs, buckets h = b :: bs) as (b & bs & E).
  { destruct (buckets h) as [|b bs]; [change (zlen []) with 0 in Hl; lia|eauto]. }
  replace (concat (buckets h)) with (b ++ concat bs) by (by rewrite E).
  apply (iterate_spec h Hl Hn _ [] [] b bs); [done|]. rewrite E in He. simpl in He. rewrite He. lia.
Qed.

(** ** A concrete table: elements are numbers, equal if they are equal modulo 100 *)

Definition demo_hash (e : Z) : Z := hash_int (e `mod` 100).
Definition demo_less (a b : Z) : bool := a `mod` 100 <? b `mod` 100.

Lemma fnv_step_u32 hash byte : is_u8 byte → is_u32 (fnv_step hash byte).
Proof.
  intros Hb. unfold fnv_step. assert (is_u32 (u32 (hash * FNV_32_PRIME))) as Hu by (apply Z.mod_pos_bound; lia).
  assert (is_u32 byte) as Hb' by (unfold is_u8, is_u32 in *; lia).
  apply u32_of_bits; [apply Z.lxor_nonneg; unfold is_u32 in *; lia|]. intros k Hk.
  rewrite Z.lxor_spec, !u32_bits by done. done.
Qed.
Lemma hash_bytes_u32 buf : Forall is_u8 buf → is_u32 (hash_bytes buf).
Proof.
  unfold hash_bytes. assert (is_u32 FNV_32_BASIS) as H by (by split). revert H. generalize FNV_32_BASIS.
  intros h Hh Hb. revert h Hh. induction Hb as [|b buf Hb _ IH]; intros h Hh; [done|]. simpl. apply IH. by apply fnv_step_u32.
Qed.
#[export] Instance demo_hashable : Hashable demo_hash demo_less.
Proof.
  split.
  - split; unfold demo_less; intros *; rewrite ?Z.ltb_lt, ?Z.ltb_ge; lia.
  - intros a b [Ha Hb]. unfold demo_less in *. apply Z.ltb_ge in Ha, Hb. unfold demo_hash. f_equal. lia.
  - intros a. apply hash_bytes_u32, le_bytes_u8.
Qed.

Definition demo_ops : list ((Z → bool) * hash_op) :=
  ((λ e, ((λ _ : Z, e <? 18), Insert e)) <$> seqZ 1 20) ++
  [((λ _, true), Insert 105); ((λ _, true), Replace 107); ((λ _, false), Find 207); ((λ _, true), Delete 303); ((λ _, true), Size)].
Definition demo_table : hash := Hash 0 4 (replicate 4 []).

Lemma hash_refines_set_witness :
  runs (do_ops demo_hash demo_less demo_ops) demo_table (λ rs h',
    drop 20 rs = [5; 7; 107; 3; 19] ∧
    ∃ X, ops_spec demo_less [] demo_ops rs X ∧ concat (buckets h') ≡ₚ X ∧ elem_cnt h' = zlen X).
Proof.
  assert (hash_init (λ _, true) = Some demo_table) as Hi by reflexivity.
  assert (ops_legal demo_ops) as Hl by (unfold ops_legal, demo_ops; cbn;
    repeat (apply Forall_cons_2; [cbn; exact I || discriminate|]); apply Forall_nil_2).
  pose proof (hash_refines_set demo_hash demo_less (λ _, true) demo_table demo_ops Hi Hl ltac:(vm_compute; reflexivity)) as H.
  assert (match do_ops demo_hash demo_less demo_ops demo_table with Done (rs, _) => drop 20 rs | _ => [] end = [5; 7; 107; 3; 19]) as E
    by (vm_compute; reflexivity).
  unfold runs in *. destruct (do_ops _ _ _ _) as [[rs h']| | |]; [|exact H..]. exact (conj E H).
Defined.

(** The table after these operations holds 19 elements in 8 buckets. *)
Definition full_table : hash :=
  match do_ops demo_hash demo_less demo_ops demo_table with Done (_, h) => h | _ => demo_table end.
Lemma full_table_rep : ∃ X, table_rep demo_hash demo_less full_table X ∧ zlen X = 19.
Proof.
  assert (ops_legal demo_ops) as Hl by (unfold ops_legal, demo_ops; cbn;
    repeat (apply Forall_cons_2; [cbn; exact I || discriminate|]); apply Forall_nil_2).
  pose proof (do_ops_spec demo_hash demo_less demo_ops demo_table [] (init_rep _ _ (λ _, true) _ eq_refl) Hl ltac:(vm_compute; reflexivity)) as H.
  assert (elem_cnt full_table = 19) as E by (vm_compute; reflexivity). unfold full_table in *. unfold runs in H.
  destruct (do_ops _ _ _ _) as [[rs h']| | |]; try done. destruct H as (X & _ & Hr). exists X. split; [done|].
  by rewrite <-(tr_size _ _ _ _ Hr).
Qed.

Lemma insert_keeps_load_factor_witness :
  runs (hash_insert demo_hash demo_less (λ _, true) 50) full_table (λ _ h',
    8 ≤ elem_cnt h' → 2 * bucket_cnt h' ≤ elem_cnt h' < 4 * bucket_cnt h').
Proof.
  destruct full_table_rep as (X & Hr & Hn).
  refine (runs_mono _ _ _ _ (insert_keeps_load_factor demo_hash demo_less full_table X 50 Hr _ _) _).
  - discriminate.
  - rewrite Hn. reflexivity.
  - intros r h' (p & _ & _ & _ & H). exact H.
Defined.
Lemma iteration_complete_witness :
  ∃ X, zlen X = 19 ∧ ∃ es, iterate full_table (S (length X)) hash_first = Done es ∧ es ≡ₚ X ∧ NoDup es.
Proof.
  destruct full_table_rep as (X & Hr & Hn). exists X. split; [exact Hn|].
  exact (iteration_complete demo_hash demo_less full_table X Hr).
Defined.
