(* ===== verification/FixedPoint.v ===== *)
(** * Fixed-point arithmetic (src/pintos/src/threads/fixed-point.h)

    A real number is an integer that counts units of 1/[FRAC].  The macros are
    translated with C's division, which truncates towards zero ([Z.quot]); the
    width of a result is that of the variable it is stored in, and is applied
    where the macros are used. *)

From S2P Require Import Prelude.

Definition FRAC : Z := Z.shiftl 1 14.

Definition TO_FP (n : Z) : Z := n * FRAC.
Definition TO_INT (x : Z) : Z := x `quot` FRAC.
Definition ROUND_TO_INT (x : Z) : Z :=
  if 0 <=? x then (x + FRAC `quot` 2) `quot` FRAC else (x - FRAC `quot` 2) `quot` FRAC.

Definition FADD_F (x y : Z) : Z := x + y.
Definition FSUB_F (x y : Z) : Z := x - y.
Definition FMUL_F (x y : Z) : Z := (x * y) `quot` FRAC.
Definition FDIV_F (x y : Z) : Z := (x * FRAC) `quot` y.

Definition FADD_I (x n : Z) : Z := x + n * FRAC.
Definition FSUB_I (x n : Z) : Z := x - n * FRAC.
Definition FMUL_I (x n : Z) : Z := x * n.
Definition FDIV_I (x n : Z) : Z := x `quot` n.

(** ** Error of the operations *)

Lemma FRAC_eq : FRAC = 16384.
Proof. done. Qed.

(** Truncated division moves a number towards zero by less than one unit. *)
Lemma quot_error a b : 0 < b → Z.abs (a - b * (a `quot` b)) < b.
Proof. intros. pose proof (Z.quot_rem' a b). pose proof (Z.rem_bound_abs a b). lia. Qed.

Lemma TO_INT_FP n : TO_INT (TO_FP n) = n.
Proof. unfold TO_INT, TO_FP. by rewrite Z.quot_mul. Qed.

(** Rounding gives the nearest integer: the error is at most one half. *)
Lemma ROUND_TO_INT_nearest x : 2 * Z.abs (x - TO_FP (ROUND_TO_INT x)) ≤ FRAC.
Proof.
  unfold ROUND_TO_INT, TO_FP. rewrite FRAC_eq. change (16384 `quot` 2) with 8192.
  destruct (Z.leb_spec 0 x); Z.to_euclidean_division_equations; lia.
Qed.
Lemma ROUND_FP n : ROUND_TO_INT (TO_FP n) = n.
Proof.
  unfold ROUND_TO_INT, TO_FP. rewrite FRAC_eq. change (16384 `quot` 2) with 8192.
  destruct (Z.leb_spec 0 (n * 16384)); Z.to_euclidean_division_equations; lia.
Qed.

(** The fixed-point operations are exact up to one unit in the last place: the
    product and the quotient of two fixed-point numbers are the true values
    truncated towards zero, integers survive the conversion to fixed point and
    back in both roundings, and rounding is to the nearest integer. *)
Theorem fixed_point_accurate x y n :
  (Z.abs (x * y - FRAC * FMUL_F x y) < FRAC) ∧
  (0 < y → Z.abs (x * FRAC - y * FDIV_F x y) < y) ∧
  TO_INT (TO_FP n) = n ∧ ROUND_TO_INT (TO_FP n) = n ∧
  2 * Z.abs (x - TO_FP (ROUND_TO_INT x)) ≤ FRAC.
Proof.
  split_and!; [by apply quot_error| |apply TO_INT_FP|apply ROUND_FP|apply ROUND_TO_INT_nearest].
  intros. by apply quot_error.
Qed.

Lemma fixed_point_accurate_witness :
  Z.abs (TO_FP 59 * TO_FP 1 - FRAC * FMUL_F (TO_FP 59) (TO_FP 1)) < FRAC ∧
  Z.abs (TO_FP 59 * FRAC - TO_FP 60 * FDIV_F (TO_FP 59) (TO_FP 60)) < TO_FP 60.
Proof.
  split; [exact (proj1 (fixed_point_accurate (TO_FP 59) (TO_FP 1) 0))|].
  destruct (fixed_point_accurate (TO_FP 59) (TO_FP 60) 0) as (_ & H & _). apply H. reflexivity.
Defined.
