(* ===== verification/Arith64.v ===== *)
(** * 64-bit division on a 32-bit machine (src/pintos/src/lib/arithmetic.c)

    The i386 divides a 64-bit number by a 32-bit number, if the quotient fits in
    32 bits ([divl]; the processor traps otherwise).  The routines GCC calls
    for [/] and [%] on [long long] are built from that.  They are compared with
    division of integers. *)

From S2P Require Import Prelude.

(** The instruction; a divide error stops the kernel. *)
Definition divl (n d : Z) : outcome Z := if (d =? 0) || (2 ^ 32 <=? n `div` d) then Panic else Done (n `div` d).

Definition nlz (x : Z) : Z :=
  let n := 0 in
  let '(n, x) := if x <=? 0x0000FFFF then (n + 16, u32 (Z.shiftl x 16)) else (n, x) in
  let '(n, x) := if x <=? 0x00FFFFFF then (n + 8, u32 (Z.shiftl x 8)) else (n, x) in
  let '(n, x) := if x <=? 0x0FFFFFFF then (n + 4, u32 (Z.shiftl x 4)) else (n, x) in
  let '(n, x) := if x <=? 0x3FFFFFFF then (n + 2, u32 (Z.shiftl x 2)) else (n, x) in
  if x <=? 0x7FFFFFFF then n + 1 else n.

Definition udiv64 (n d : Z) : outcome Z :=
  if Z.shiftr d 32 =? 0 then
    let b := Z.shiftl 1 32 in
    let n1 := u32 (Z.shiftr n 32) in
    let n0 := u32 n in
    let d0 := u32 d in
    if d0 =? 0 then Undef else
    q ← divl (u64 (b * (n1 `mod` d0) + n0)) d0;
    Done (u64 (q + b * (n1 `div` d0)))
  else if n <? d then Done 0
  else
    let d1 := u32 (Z.shiftr d 32) in
    let s := nlz d1 in
    q ← divl (Z.shiftr n 1) (u32 (Z.shiftr (u64 (Z.shiftl d s)) 32));
    let q := Z.shiftr q (31 - s) in
    Done (if u64 (n - (q - 1) * d) <? d then u64 (q - 1) else q).

(** The result has type [uint32_t]. *)
Definition umod64 (n d : Z) : outcome Z := q ← udiv64 n d; Done (u32 (n - d * q)).

Definition sdiv64 (n d : Z) : outcome Z :=
  let n_abs := if 0 <=? n then n else u64 (- n) in
  let d_abs := if 0 <=? d then d else u64 (- d) in
  q_abs ← udiv64 n_abs d_abs;
  Done (if eqb (n <? 0) (d <? 0) then s64 q_abs else s64 (- s64 q_abs)).
(** The result has type [int32_t]. *)
Definition smod64 (n d : Z) : outcome Z := q ← sdiv64 n d; Done (s32 (n - d * q)).

Definition divdi3 (n d : Z) : outcome Z := sdiv64 n d.
Definition moddi3 (n d : Z) : outcome Z := smod64 n d.
Definition udivdi3 (n d : Z) : outcome Z := udiv64 n d.
Definition umoddi3 (n d : Z) : outcome Z := umod64 n d.

(** ** Leading zeros *)

Lemma shl_small x k : 0 ≤ k → 0 ≤ x * 2 ^ k < 2 ^ 32 → u32 (Z.shiftl x k) = x * 2 ^ k.
Proof. intros Hk Hx. rewrite Z.shiftl_mul_pow2 by done. by apply u32_small. Qed.
(** One of the tests of [nlz], and the shift by [k] if it holds. *)
Ltac nlz_test c k p :=
  match goal with |- context [Z.leb ?y c] => destruct (Z.leb_spec y c) end; rewrite ?shl_small by lia; change (2 ^ k) with p in *.
Lemma nlz_spec x : 0 < x < 2 ^ 32 → 0 ≤ nlz x ≤ 31 ∧ 2 ^ 31 ≤ x * 2 ^ nlz x < 2 ^ 32.
Proof.
  intros Hx. unfold nlz. nlz_test 0xFFFF 16 65536; nlz_test 0xFFFFFF 8 256; nlz_test 0xFFFFFFF 4 16; nlz_test 0x3FFFFFFF 2 4; nlz_test 0x7FFFFFFF 1 2;
    (split; [lia|]); cbn; lia.
Qed.

(** ** Division *)

Lemma u64_small x : 0 ≤ x < 2 ^ 64 → u64 x = x.
Proof. intros. by apply Z.mod_small. Qed.
Lemma u32_shiftr n : is_u64 n → u32 (Z.shiftr n 32) = n `div` 2 ^ 32.
Proof. intros [H0 H1]. rewrite Z.shiftr_div_pow2 by done. apply u32_small. split; [by apply Z.div_pos|]. apply Z.div_lt_upper_bound; lia. Qed.

(** A divisor of 32 bits: two steps of long division. *)
Lemma udiv64_short n d : is_u64 n → 0 < d < 2 ^ 32 → udiv64 n d = Done (n `div` d).
Proof.
  intros Hn Hd. unfold udiv64. rewrite Z.shiftr_div_pow2, Z.div_small, Z.eqb_refl by lia. rewrite u32_shiftr, (u32_small d) by (done || lia).
  destruct (Z.eqb_spec d 0) as [|_]; [lia|]. change (Z.shiftl 1 32) with (2 ^ 32). unfold u32. set (b := 2 ^ 32) in *. destruct Hn as [Hn0 Hn1].
  set (n1 := n `div` b). set (n0 := n `mod` b). assert (n = b * n1 + n0 ∧ 0 ≤ n0 < b ∧ 0 ≤ n1 < b) as (En & Hn0' & Hn1').
  { split; [apply Z.div_mod; lia|]. split; [apply Z.mod_pos_bound; lia|]. split; [apply Z.div_pos; lia|]. apply Z.div_lt_upper_bound; [lia|]. replace (b * b) with (2 ^ 64) by done. lia. }
  pose proof (Z.mod_pos_bound n1 d ltac:(lia)) as Hr. pose proof (Z.div_mod n1 d ltac:(lia)) as E1. set (r := n1 `mod` d) in *. set (q1 := n1 `div` d) in *.
  assert (0 ≤ b * r + n0 < b * d) as Hx by nia. assert (b * d < 2 ^ 64) as Hbd by (replace (2 ^ 64) with (b * b) by done; nia). rewrite u64_small by lia.
  assert ((b * r + n0) `div` d < b) as Hq by (apply Z.div_lt_upper_bound; lia).
  unfold divl. fold b. destruct (Z.eqb_spec d 0), (Z.leb_spec b ((b * r + n0) `div` d)); try lia. cbn.
  assert (n `div` d = (b * r + n0) `div` d + b * q1) as ->.
  { rewrite <-Z.div_add by lia. f_equal. rewrite En, E1. ring. }
  f_equal. apply u64_small. pose proof (Z.div_pos (b * r + n0) d). assert (0 ≤ q1) by (apply Z.div_pos; lia).
  assert (q1 < b) by (apply Z.div_lt_upper_bound; nia). replace (2 ^ 64) with (b * b) by done. nia.
Qed.

(** A longer divisor: the quotient by the leading 32 bits of the divisor is
    at most one too large. *)
Lemma estimate n d e v : 0 ≤ n < 2 ^ 64 → 2 ≤ e → v = d `div` e → 2 ^ 31 ≤ v → d ≤ n →
  let q := n `div` (v * e) in n `div` d ≤ q ≤ n `div` d + 1.
Proof.
  intros Hn He Ev Hv Hd q. pose proof (Z.div_mod d e ltac:(lia)) as Ed. pose proof (Z.mod_pos_bound d e ltac:(lia)) as Ht. rewrite <-Ev in Ed. set (t := d `mod` e) in *.
  assert (0 < v * e ≤ d) as Hve by nia. split; [apply Z.div_le_compat_l; lia|].
  assert (q * (v * e) ≤ n) as Hq by (pose proof (Z.mul_div_le n (v * e)); unfold q; lia).
  assert (0 < q) as Hq0 by (apply Z.div_str_pos; lia).
  assert (q * e ≤ 2 ^ 33) as Hqe.
  { apply Z.lt_succ_r. apply (Z.mul_lt_mono_pos_l (2 ^ 31)); [lia|]. assert (2 ^ 31 * (q * e) ≤ v * (q * e)) by nia. lia. }
  assert ((q - 1) * t ≤ v * e) as Hqt.
  { apply (Z.mul_le_mono_pos_r _ _ e); [lia|].
    assert (t * ((q - 1) * e) ≤ t * 2 ^ 33) by (apply Z.mul_le_mono_nonneg_l; lia). assert (4 * (e - 1) ≤ e * e) by (pose proof (Z.square_nonneg (e - 2)); lia).
    assert (2 ^ 31 * (e * e) ≤ v * (e * e)) by (apply Z.mul_le_mono_nonneg_r; lia). lia. }
  assert (q - 1 ≤ n `div` d); [|lia]. apply Z.div_le_lower_bound; [lia|]. rewrite Ed. nia.
Qed.

(** The leading 32 bits of the divisor. *)
Lemma normalise d : 2 ^ 32 ≤ d < 2 ^ 64 → let s := nlz (d `div` 2 ^ 32) in let v := u32 (Z.shiftr (u64 (Z.shiftl d s)) 32) in
  0 ≤ s ≤ 31 ∧ v = d `div` 2 ^ (32 - s) ∧ 2 ^ 31 ≤ v < 2 ^ 32.
Proof.
  intros Hd s v. set (d1 := d `div` 2 ^ 32) in *. assert (1 ≤ d1 < 2 ^ 32) as Hd1.
  { split; [apply Z.div_le_lower_bound; lia|apply Z.div_lt_upper_bound; lia]. }
  destruct (nlz_spec d1) as [Hs Hn]; [lia|]. fold s in Hs, Hn. set (e := 2 ^ (32 - s)). assert (2 ^ 32 = e * 2 ^ s) as Ee by (unfold e; rewrite <-Z.pow_add_r by lia; f_equal; lia).
  assert (0 < 2 ^ s) as H2s by (apply Z.pow_pos_nonneg; lia). assert (0 < e) as He by (apply Z.pow_pos_nonneg; lia).
  assert (d1 < e) as Hde by (apply (Z.mul_lt_mono_pos_r (2 ^ s)); lia).
  pose proof (Z.div_mod d (2 ^ 32) ltac:(lia)) as Ed. pose proof (Z.mod_pos_bound d (2 ^ 32) ltac:(lia)) as Hm. fold d1 in Ed.
  assert (d < 2 ^ 32 * e) as Hdl by lia. assert (0 ≤ d * 2 ^ s < 2 ^ 64) as Hsh.
  { split; [apply Z.mul_nonneg_nonneg; lia|]. replace (2 ^ 64) with (2 ^ 32 * e * 2 ^ s) by (rewrite <-Z.mul_assoc, <-Ee; done). apply Z.mul_lt_mono_pos_r; lia. }
  assert (d `div` e = (d * 2 ^ s) `div` 2 ^ 32) as Ev by (rewrite Ee, Z.div_mul_cancel_r by lia; done).
  assert (2 ^ 31 ≤ d `div` e < 2 ^ 32) as Hv.
  { split; [apply Z.div_le_lower_bound; [lia|]|apply Z.div_lt_upper_bound; lia].
    transitivity (e * (d1 * 2 ^ s)); [apply Z.mul_le_mono_nonneg_l; lia|]. replace (e * (d1 * 2 ^ s)) with (e * 2 ^ s * d1) by ring. rewrite <-Ee. lia. }
  split; [done|]. assert (v = d `div` e) as ->; [|done]. unfold v. rewrite Z.shiftl_mul_pow2, u64_small, Z.shiftr_div_pow2 by lia. rewrite <-Ev. apply u32_small. lia.
Qed.
Lemma udiv64_long n d : is_u64 n → 2 ^ 32 ≤ d < 2 ^ 64 → udiv64 n d = Done (n `div` d).
Proof.
  intros Hn Hd. unfold udiv64. destruct (Z.eqb_spec (Z.shiftr d 32) 0) as [E|_].
  { rewrite Z.shiftr_div_pow2 in E by done. apply Z.div_small_iff in E; lia. }
  destruct (Z.ltb_spec n d) as [Hlt|Hge]; [by rewrite Z.div_small by (destruct Hn; lia)|]. rewrite u32_shiftr by (split; lia).
  destruct (normalise d Hd) as (Hs & Ev & Hv). set (s := nlz (d `div` 2 ^ 32)) in *. set (v := u32 _) in *. set (e := 2 ^ (32 - s)) in *.
  assert (e = 2 * 2 ^ (31 - s)) as Ee by (unfold e; rewrite <-Z.pow_succ_r by lia; f_equal; lia). assert (0 < 2 ^ (31 - s)) by (apply Z.pow_pos_nonneg; lia).
  destruct Hn as [Hn0 Hn1]. rewrite Z.shiftr_div_pow2 by done. change (2 ^ 1) with 2.
  assert (n `div` 2 `div` v < 2 ^ 32) as Hq by (apply Z.div_lt_upper_bound; [lia|]; apply Z.div_lt_upper_bound; lia).
  unfold divl. destruct (Z.eqb_spec v 0), (Z.leb_spec (2 ^ 32) (n `div` 2 `div` v)); try lia. cbn -[Z.pow]. rewrite Z.shiftr_div_pow2 by lia.
  assert (n `div` 2 `div` v `div` 2 ^ (31 - s) = n `div` (v * e)) as -> by (rewrite !Z.div_div by lia; f_equal; lia).
  destruct (estimate n d e v) as [H1 H2]; [lia|lia|done|lia|done|]. set (q := n `div` (v * e)) in *.
  pose proof (Z.div_mod n d ltac:(lia)) as En. pose proof (Z.mod_pos_bound n d ltac:(lia)) as Hr. assert (1 ≤ n `div` d) by (apply Z.div_le_lower_bound; lia).
  assert (q < 2 ^ 64) by (apply Z.div_lt_upper_bound; nia).
  assert (q = n `div` d ∨ q = n `div` d + 1) as [-> | ->] by lia.
  - rewrite u64_small by nia. destruct (Z.ltb_spec (n - (n `div` d - 1) * d) d); [nia|done].
  - rewrite !u64_small by nia. destruct (Z.ltb_spec (n - (n `div` d + 1 - 1) * d) d); [f_equal; lia|nia].
Qed.
Lemma udiv64_spec n d : is_u64 n → 0 < d < 2 ^ 64 → udiv64 n d = Done (n `div` d).
Proof. intros Hn Hd. destruct (decide (d < 2 ^ 32)); [apply udiv64_short|apply udiv64_long]; done || lia. Qed.

Lemma s64_small x : - 2 ^ 63 ≤ x < 2 ^ 63 → s64 x = x.
Proof. intros. unfold s64. rewrite Z.mod_small; lia. Qed.
Lemma abs64 n : - 2 ^ 63 ≤ n < 2 ^ 63 → (if 0 <=? n then n else u64 (- n)) = Z.abs n.
Proof. intros Hn. destruct (Z.leb_spec 0 n); [lia|]. rewrite u64_small; lia. Qed.
Lemma sdiv64_spec n d : - 2 ^ 63 ≤ n < 2 ^ 63 → - 2 ^ 63 ≤ d < 2 ^ 63 → d ≠ 0 → ¬ (n = - 2 ^ 63 ∧ d = -1) → sdiv64 n d = Done (Z.quot n d).
Proof.
  intros Hn Hd Hd0 Hmin. unfold sdiv64. rewrite !abs64, udiv64_spec by (unfold is_u64; lia). cbn -[Z.pow].
  assert (0 ≤ Z.abs n `div` Z.abs d ≤ Z.abs n) as Hq by (split; [apply Z.div_pos; lia|apply Z.div_le_upper_bound; nia]).
  f_equal. rewrite Z.quot_div by done. destruct (Z.ltb_spec n 0), (Z.ltb_spec d 0); cbn [eqb].
  - rewrite (Z.sgn_neg n), (Z.sgn_neg d) by lia. assert (Z.abs n `div` Z.abs d < 2 ^ 63).
    { destruct (decide (d = -1)) as [->|]; [rewrite Z.div_1_r; lia|]. apply Z.div_lt_upper_bound; lia. }
    rewrite s64_small; lia.
  - rewrite (Z.sgn_neg n), (Z.sgn_pos d) by lia. destruct (decide (Z.abs n `div` Z.abs d = 2 ^ 63)) as [->|]; [done|]. rewrite (s64_small (_ `div` _)), s64_small; lia.
  - destruct (decide (n = 0)) as [->|]; [done|]. rewrite (Z.sgn_pos n), (Z.sgn_neg d) by lia. rewrite (s64_small (_ `div` _)), s64_small; lia.
  - destruct (decide (n = 0)) as [->|]; [done|]. rewrite (Z.sgn_pos n), (Z.sgn_pos d) by lia. rewrite s64_small; lia.
Qed.

(** C40 The 64-bit division routines agree with division of integers, and never
    trap on a divisor other than zero: [udiv64] computes the quotient rounded
    down, [sdiv64] the one rounded towards zero (except for the one quotient
    that does not fit), and the remainders are right in their low 32 bits. *)
Theorem division_is_exact n d :
  (is_u64 n → 0 < d < 2 ^ 64 → udivdi3 n d = Done (n `div` d) ∧ umoddi3 n d = Done (u32 (n `mod` d))) ∧
  (- 2 ^ 63 ≤ n < 2 ^ 63 → - 2 ^ 63 ≤ d < 2 ^ 63 → d ≠ 0 → ¬ (n = - 2 ^ 63 ∧ d = -1) →
    divdi3 n d = Done (Z.quot n d) ∧ moddi3 n d = Done (s32 (Z.rem n d))).
Proof.
  split.
  - intros Hn Hd. unfold udivdi3, umoddi3, umod64. rewrite udiv64_spec by done. split; [done|]. cbn. do 2 f_equal. rewrite Z.mod_eq by lia. done.
  - intros Hn Hd Hd0 Hmin. unfold divdi3, moddi3, smod64. rewrite sdiv64_spec by done. split; [done|]. cbn. do 2 f_equal. rewrite Z.rem_eq by done. done.
Qed.
Lemma division_is_exact_witness : udivdi3 (2 ^ 63) (2 ^ 40 + 1) = Done (2 ^ 63 `div` (2 ^ 40 + 1)).
Proof.
  destruct (division_is_exact (2 ^ 63) (2 ^ 40 + 1)) as [H _].
  destruct H as [-> _]; [split; [vm_compute; discriminate|reflexivity]|split; reflexivity|]. reflexivity.
Defined.

(** The remainder is cut to 32 bits. *)
Lemma remainder_truncated : umoddi3 (2 ^ 33) (2 ^ 34) = Done 0.
Proof. by vm_compute. Qed.
