(* ===== verification/Vaddr.v ===== *)
(** * Virtual addresses and page table entries
    (src/pintos/src/threads/vaddr.h, src/pintos/src/threads/pte.h)

    Addresses are 32-bit numbers.  The bit operations of the code are shown to
    be the arithmetic of page numbers and offsets, and page table entries to
    keep the page and the flags they are made from. *)

From S2P Require Import Prelude.

Definition BITMASK (shift cnt : Z) : Z := u32 (Z.shiftl (Z.shiftl 1 cnt - 1) shift).

Definition PGSHIFT : Z := 0.
Definition PGBITS : Z := 12.
Definition PGSIZE : Z := Z.shiftl 1 PGBITS.
Definition PGMASK : Z := BITMASK PGSHIFT PGBITS.
(** [~x] of an unsigned 32-bit number. *)
Definition not32 (x : Z) : Z := u32 (Z.lnot x).

Definition pg_ofs (va : Z) : Z := Z.land va PGMASK.
Definition pg_no (va : Z) : Z := Z.shiftr va PGBITS.
Definition pg_round_up (va : Z) : Z := Z.land (u32 (va + PGSIZE - 1)) (not32 PGMASK).
Definition pg_round_down (va : Z) : Z := Z.land va (not32 PGMASK).

Definition PHYS_BASE : Z := 0xc0000000.
Definition is_user_vaddr (vaddr : Z) : bool := vaddr <? PHYS_BASE.
Definition is_kernel_vaddr (vaddr : Z) : bool := PHYS_BASE <=? vaddr.
Definition ptov (paddr : Z) : outcome Z := ASSERT (paddr <? PHYS_BASE);; Done (u32 (paddr + PHYS_BASE)).
Definition vtop (vaddr : Z) : outcome Z := ASSERT (is_kernel_vaddr vaddr);; Done (vaddr - PHYS_BASE).

Definition PTSHIFT : Z := PGBITS.
Definition PTBITS : Z := 10.
Definition PTSPAN : Z := Z.shiftl (Z.shiftl 1 PTBITS) PGBITS.
Definition PTMASK : Z := BITMASK PTSHIFT PTBITS.
Definition PDSHIFT : Z := PTSHIFT + PTBITS.
Definition PDBITS : Z := 10.
Definition PDMASK : Z := BITMASK PDSHIFT PDBITS.

Definition pt_no (va : Z) : Z := Z.shiftr (Z.land va PTMASK) PTSHIFT.
Definition pd_no (va : Z) : Z := Z.shiftr va PDSHIFT.

Definition PTE_FLAGS : Z := 0x00000fff.
Definition PTE_ADDR : Z := 0xfffff000.
Definition PTE_AVL : Z := 0x00000e00.
Definition PTE_P : Z := 0x1.
Definition PTE_W : Z := 0x2.
Definition PTE_U : Z := 0x4.
Definition PTE_A : Z := 0x20.
Definition PTE_D : Z := 0x40.

(** [pte & flag] as a condition. *)
Definition has (pte flag : Z) : bool := negb (Z.land pte flag =? 0).

Definition pde_create (pt : Z) : outcome Z :=
  ASSERT (pg_ofs pt =? 0);; p ← vtop pt; Done (Z.lor (Z.lor (Z.lor p PTE_U) PTE_P) PTE_W).
Definition pde_get_pt (pde : Z) : outcome Z :=
  ASSERT (has pde PTE_P);; ptov (Z.land pde PTE_ADDR).
Definition pte_create_kernel (page : Z) (writable : bool) : outcome Z :=
  ASSERT (pg_ofs page =? 0);; p ← vtop page; Done (Z.lor (Z.lor p PTE_P) (if writable then PTE_W else 0)).
Definition pte_create_user (page : Z) (writable : bool) : outcome Z :=
  p ← pte_create_kernel page writable; Done (Z.lor p PTE_U).
Definition pte_get_page (pte : Z) : outcome Z := ptov (Z.land pte PTE_ADDR).

(** ** As arithmetic *)

Lemma PGSIZE_eq : PGSIZE = 4096.
Proof. done. Qed.
Lemma pg_ofs_mod va : pg_ofs va = va `mod` 4096.
Proof. unfold pg_ofs. change PGMASK with (Z.ones 12). by rewrite Z.land_ones. Qed.
Lemma pg_no_div va : pg_no va = va `div` 4096.
Proof. unfold pg_no, PGBITS. by rewrite Z.shiftr_div_pow2. Qed.

(** Masking off the low [n] bits of a 32-bit number. *)
Lemma land_high n x : 0 ≤ n < 32 → 0 ≤ x < 2 ^ 32 → Z.land x (2 ^ 32 - 2 ^ n) = 2 ^ n * (x `div` 2 ^ n).
Proof.
  intros Hn Hx. replace (2 ^ 32 - 2 ^ n) with (Z.shiftl (Z.ones (32 - n)) n).
  2: { rewrite Z.shiftl_mul_pow2, Z.ones_equiv by lia. unfold Z.pred. rewrite Z.mul_add_distr_r, <-Z.pow_add_r by lia.
       replace (32 - n + n) with 32 by lia. lia. }
  apply Z.bits_inj'. intros i Hi. rewrite Z.land_spec, Z.shiftl_spec by done.
  rewrite Z.mul_comm, <-Z.shiftl_mul_pow2, Z.shiftl_spec by lia. destruct (decide (i < n)).
  - rewrite (Z.testbit_neg_r _ (i - n)) by lia. rewrite (Z.testbit_neg_r (x `div` 2 ^ n)) by lia. apply andb_false_r.
  - rewrite <-Z.shiftr_div_pow2, Z.shiftr_spec by lia. replace (i - n + n) with i by lia.
    destruct (decide (i < 32)); [rewrite Z.ones_spec_low by lia; apply andb_true_r|].
    by rewrite (u32_bits x i) by (done || lia).
Qed.
Lemma pg_round_down_spec va : is_u32 va → pg_round_down va = 4096 * (va `div` 4096).
Proof. intros. unfold pg_round_down. change (not32 PGMASK) with (2 ^ 32 - 2 ^ 12). by apply land_high. Qed.
Lemma land_PTE_ADDR x : is_u32 x → Z.land x PTE_ADDR = 4096 * (x `div` 4096).
Proof. intros. change PTE_ADDR with (2 ^ 32 - 2 ^ 12). by apply land_high. Qed.

Lemma pd_no_div va : pd_no va = va `div` 2 ^ 22.
Proof. unfold pd_no. by rewrite Z.shiftr_div_pow2. Qed.
Lemma pt_no_mod va : pt_no va = (va `div` 4096) `mod` 1024.
Proof.
  unfold pt_no. change PTMASK with (Z.shiftl (Z.ones 10) 12). change PTSHIFT with 12.
  rewrite Z.shiftr_land, Z.shiftr_shiftl_l by lia. change (Z.shiftl (Z.ones 10) (12 - 12)) with (Z.ones 10).
  rewrite Z.land_ones by lia. by rewrite Z.shiftr_div_pow2.
Qed.

(** Or-ing flags into a page-aligned number adds them. *)
Lemma aligned_bits p i : p `mod` 4096 = 0 → 0 ≤ i < 12 → Z.testbit p i = false.
Proof. intros Hp Hi. rewrite <-(Z.mod_pow2_bits_low p 12) by lia. change (2 ^ 12) with 4096. by rewrite Hp, Z.bits_0. Qed.
Lemma flag_bits f i : 0 ≤ f < 4096 → 12 ≤ i → Z.testbit f i = false.
Proof.
  intros Hf Hi. destruct (decide (f = 0)) as [->|]; [apply Z.bits_0|]. apply Z.bits_above_log2; [lia|].
  apply Z.lt_le_trans with 12; [|done]. apply Z.log2_lt_pow2; lia.
Qed.
Lemma land_aligned p f : p `mod` 4096 = 0 → 0 ≤ f < 4096 → Z.land p f = 0.
Proof.
  intros Hp Hf. apply Z.bits_inj'. intros i Hi. rewrite Z.land_spec, Z.bits_0. destruct (decide (i < 12)).
  - by rewrite aligned_bits by (done || lia).
  - rewrite (flag_bits f i) by (done || lia). apply andb_false_r.
Qed.
Lemma lor_flags p f : p `mod` 4096 = 0 → 0 ≤ f < 4096 → Z.lor p f = p + f.
Proof. intros Hp Hf. rewrite Z.add_nocarry_lxor, Z.lxor_lor; [done|by apply land_aligned..]. Qed.

(** The flags and the address of an entry do not interfere. *)
Lemma has_entry p f flag : p `mod` 4096 = 0 → 0 ≤ f < 4096 → 0 ≤ flag < 4096 → has (p + f) flag = has f flag.
Proof.
  intros Hp Hf Hg. unfold has. rewrite <-lor_flags by done. by rewrite Z.land_lor_distr_l, (land_aligned p flag), Z.lor_0_l.
Qed.
Lemma entry_addr p f : p `mod` 4096 = 0 → 0 ≤ f < 4096 → 0 ≤ p → p + f < 2 ^ 32 → Z.land (p + f) PTE_ADDR = p.
Proof.
  intros Hp Hf H0 H. rewrite land_PTE_ADDR by (unfold is_u32; lia). Z.to_euclidean_division_equations; lia.
Qed.

(** Kernel addresses of pages: aligned, in the kernel's gigabyte. *)
Definition is_kpage (a : Z) : Prop := PHYS_BASE ≤ a < 2 ^ 32 ∧ a `mod` 4096 = 0.

Lemma vtop_kpage a : is_kpage a → vtop a = Done (a - PHYS_BASE) ∧ (a - PHYS_BASE) `mod` 4096 = 0.
Proof.
  intros [Hr Ha]. unfold vtop, is_kernel_vaddr, PHYS_BASE in *. destruct (Z.leb_spec 0xc0000000 a); [|lia].
  split; [done|]. Z.to_euclidean_division_equations; lia.
Qed.
Lemma ptov_vtop a : PHYS_BASE ≤ a < 2 ^ 32 → ptov (a - PHYS_BASE) = Done a.
Proof.
  unfold PHYS_BASE, ptov. intros Ha. unfold PHYS_BASE. destruct (Z.ltb_spec (a - 0xc0000000) 0xc0000000); [|lia].
  simpl. f_equal. rewrite u32_small; lia.
Qed.

(** The entry for a user page. *)
Definition user_flags (w : bool) : Z := if w then 7 else 5.
Lemma pte_create_user_spec a w : is_kpage a → pte_create_user a w = Done (a - PHYS_BASE + user_flags w).
Proof.
  intros Ha. destruct (vtop_kpage a Ha) as [Hv Hm]. destruct Ha as [_ Ha].
  unfold pte_create_user, pte_create_kernel. rewrite pg_ofs_mod, Ha, Hv. simpl. f_equal.
  rewrite <-!Z.lor_assoc, <-lor_flags by (done || (destruct w; unfold user_flags; lia)). by destruct w.
Qed.
Lemma entry_page a f : is_kpage a → 0 ≤ f < 4096 → pte_get_page (a - PHYS_BASE + f) = Done a.
Proof.
  intros Ha Hf. destruct (vtop_kpage a Ha) as [_ Hm]. destruct Ha as [Hr Ha]. unfold pte_get_page.
  rewrite entry_addr by (done || (unfold PHYS_BASE in *; lia)). by apply ptov_vtop.
Qed.
Lemma has_kpage a f flag : is_kpage a → 0 ≤ f < 4096 → 0 ≤ flag < 4096 → has (a - PHYS_BASE + f) flag = has f flag.
Proof. intros Ha Hf Hg. destruct (vtop_kpage a Ha) as [_ Hm]. by apply has_entry. Qed.

(** Addresses and entries: page number and offset make up the address and
    page directory index, page table index and offset do so too; rounding gives
    the nearest page boundaries; the conversions between physical and kernel
    virtual addresses are inverse to each other; and an entry made for a page
    gives back the page and exactly the flags it was made with. *)
Theorem address_arithmetic va :
  0 ≤ va < 2 ^ 32 →
  va = pg_no va * PGSIZE + pg_ofs va ∧ 0 ≤ pg_ofs va < PGSIZE ∧
  va = pd_no va * PTSPAN + pt_no va * PGSIZE + pg_ofs va ∧ 0 ≤ pd_no va < 1024 ∧ 0 ≤ pt_no va < 1024 ∧
  pg_round_down va = va - pg_ofs va ∧
  (va ≤ 2 ^ 32 - PGSIZE → va ≤ pg_round_up va < va + PGSIZE ∧ pg_ofs (pg_round_up va) = 0) ∧
  (is_kernel_vaddr va = true → ∃ pa, vtop va = Done pa ∧ ptov pa = Done va) ∧
  (is_kernel_vaddr va = true → pg_ofs va = 0 → ∀ w, ∃ e, pte_create_user va w = Done e ∧ pte_get_page e = Done va ∧
     has e PTE_P = true ∧ has e PTE_U = true ∧ has e PTE_W = w ∧ has e PTE_A = false ∧ has e PTE_D = false).
Proof.
  intros Hva. rewrite pg_no_div, pg_ofs_mod, pd_no_div, pt_no_mod, PGSIZE_eq, pg_round_down_spec by done.
  change PTSPAN with (2 ^ 22). split_and!.
  1-9: Z.to_euclidean_division_equations; lia.
  - intros Hle. unfold pg_round_up. rewrite PGSIZE_eq, u32_small by lia.
    change (not32 PGMASK) with (2 ^ 32 - 2 ^ 12). rewrite land_high by lia. rewrite pg_ofs_mod. change (2 ^ 12) with 4096.
    split; Z.to_euclidean_division_equations; lia.
  - intros Hk. apply Z.leb_le in Hk. exists (va - PHYS_BASE). split; [|apply ptov_vtop; lia].
    unfold vtop, is_kernel_vaddr. apply Z.leb_le in Hk. by rewrite Hk.
  - intros Hk Ho w. apply Z.leb_le in Hk. assert (is_kpage va) as Ha by (split; [lia|done]).
    assert (0 ≤ user_flags w < 4096) as Hf by (destruct w; unfold user_flags; lia).
    exists (va - PHYS_BASE + user_flags w). split; [by apply pte_create_user_spec|]. split; [by apply entry_page|].
    rewrite !has_kpage by (done || (unfold PTE_P, PTE_U, PTE_W, PTE_A, PTE_D; lia)). by destruct w.
Qed.

Lemma address_arithmetic_witness :
  ∃ e, pte_create_user 0xc0101000 true = Done e ∧ pte_get_page e = Done 0xc0101000.
Proof.
  destruct (address_arithmetic 0xc0101000) as (_ & _ & _ & _ & _ & _ & _ & _ & H); [lia|].
  destruct (H eq_refl eq_refl true) as (e & He & Hp & _). exists e. exact (conj He Hp).
Defined.
