(* ===== verification/Segments.v ===== *)
(** * Segment descriptors and the task state
    (src/pintos/src/userprog/gdt.c, src/pintos/src/userprog/tss.c)

    A descriptor is a 64-bit word that the processor takes apart again; [pack]
    is that format, a series of fields from the lowest bit up, and the theorems say
    that each function puts each value in the field where the processor looks
    for it.  Loading the tables with [lgdt] and [ltr] is the operand given to the
    instruction. *)

From S2P Require Import Prelude.

(** ** Fields of a word *)

Definition field (d lo w : Z) : Z := (d `div` 2 ^ lo) `mod` 2 ^ w.
Fixpoint pack (fs : list (Z * Z)) : Z := match fs with [] => 0 | (v, w) :: fs => v + 2 ^ w * pack fs end.
Definition widths (fs : list (Z * Z)) : Z := foldr (λ f n, f.2 + n) 0 fs.
Definition fits (f : Z * Z) : Prop := 0 ≤ f.2 ∧ 0 ≤ f.1 < 2 ^ f.2.

Lemma widths_nonneg fs : Forall fits fs → 0 ≤ widths fs.
Proof. induction 1 as [|f fs [Hf _] _ IH]; cbn; [done|]. unfold widths in IH. lia. Qed.
Lemma pack_range fs : Forall fits fs → 0 ≤ pack fs < 2 ^ widths fs.
Proof.
  induction 1 as [|[v w] fs [Hw Hv] Hfs IH]; [cbn; lia|]. apply widths_nonneg in Hfs. cbn in *. fold (widths fs) in *. rewrite Z.pow_add_r by done. nia.
Qed.
Lemma pack_field pre v w post : Forall fits (pre ++ (v, w) :: post) → field (pack (pre ++ (v, w) :: post)) (widths pre) w = v.
Proof.
  induction pre as [|[v' w'] pre IH]; intros H; cbn [app] in H; apply list.Forall_cons in H as [[Hw Hv] H].
  - unfold field. cbn in *. rewrite Z.div_1_r, (Z.mul_comm (2 ^ w)), Z_mod_plus_full. by apply Z.mod_small.
  - rewrite <-(IH H) at 2. apply Forall_app in H as [H _]. apply widths_nonneg in H. unfold field. cbn in *. fold (widths pre).
    rewrite Z.pow_add_r by done. assert (0 < 2 ^ w' ∧ 0 < 2 ^ widths pre) as [? ?] by (split; apply Z.pow_pos_nonneg; lia). rewrite <-Z.div_div, (Z.mul_comm (2 ^ w')) by lia. rewrite Z.div_add, (Z.div_small v') by lia. done.
Qed.
(** The [k]th field, which starts at bit [lo]. *)
Lemma pack_lookup fs k v w lo : Forall fits fs → fs !! k = Some (v, w) → widths (take k fs) = lo → field (pack fs) lo w = v.
Proof. intros Hf Hk <-. rewrite <-(take_drop_middle fs k (v, w) Hk) at 1. apply pack_field. by rewrite take_drop_middle. Qed.
(** Disjoint bits add up. *)
Lemma lor_above n a b : 0 ≤ n → 0 ≤ a < 2 ^ n → Z.lor a (2 ^ n * b) = a + 2 ^ n * b.
Proof.
  intros Hn Ha. assert (Z.land a (2 ^ n * b) = 0) as Hl; [|by rewrite Z.add_nocarry_lxor, Z.lxor_lor].
  apply Z.bits_inj'. intros i Hi. rewrite Z.land_spec, Z.bits_0, Z.mul_comm. destruct (decide (i < n)).
  - by rewrite Z.mul_pow2_bits_low, andb_false_r by lia.
  - rewrite <-(Z.mod_small a (2 ^ n)), Z.mod_pow2_bits_high by lia. done.
Qed.
Lemma land_ones_at x n w : 0 ≤ n → 0 ≤ w → Z.land x (2 ^ n * (2 ^ w - 1)) = 2 ^ n * field x n w.
Proof.
  intros Hn Hw. unfold field. replace (2 ^ w - 1) with (Z.ones w) by (rewrite Z.ones_equiv; lia).
  rewrite <-Z.shiftr_div_pow2, <-Z.land_ones, !(Z.mul_comm (2 ^ n)), <-!Z.shiftl_mul_pow2 by done.
  apply Z.bits_inj'. intros i Hi. rewrite Z.land_spec, !Z.shiftl_spec by done. destruct (decide (i < n)).
  - by rewrite !(Z.testbit_neg_r _ (i - n)), andb_false_r by lia.
  - rewrite Z.land_spec, Z.shiftr_spec by lia. by replace (i - n + n) with i by lia.
Qed.
Lemma field_range d lo w : 0 ≤ w → 0 ≤ field d lo w < 2 ^ w.
Proof. intros. unfold field. apply Z.mod_pos_bound. lia. Qed.
(** A value cut in two fields. *)
Lemma field_split x n w : 0 ≤ n → 0 ≤ w → 0 ≤ x < 2 ^ (n + w) → x = field x 0 n + 2 ^ n * field x n w.
Proof.
  intros Hn Hw Hx. unfold field. rewrite Z.div_1_r. rewrite Z.pow_add_r in Hx by done.
  rewrite (Z.mod_small (x `div` 2 ^ n)); [pose proof (Z.div_mod x (2 ^ n)); lia|].
  split; [apply Z.div_pos; lia|apply Z.div_lt_upper_bound; lia].
Qed.

(** ** Selectors and descriptors *)

Definition SEL_NULL : Z := 0.
Definition SEL_KCSEG : Z := 8.
Definition SEL_KDSEG : Z := 16.
Definition SEL_UCSEG : Z := 27.
Definition SEL_UDSEG : Z := 35.
Definition SEL_TSS : Z := 40.
Definition SEL_CNT : Z := 6.
Definition CLS_SYSTEM : Z := 0.
Definition CLS_CODE_DATA : Z := 1.
Definition GRAN_BYTE : Z := 0.
Definition GRAN_PAGE : Z := 1.

Definition make_seg_desc (base limit class type dpl granularity : Z) : outcome Z :=
  ASSERT (limit <=? 1048575);;
  ASSERT ((class =? CLS_SYSTEM) || (class =? CLS_CODE_DATA));;
  ASSERT ((0 <=? type) && (type <=? 15));;
  ASSERT ((0 <=? dpl) && (dpl <=? 3));;
  ASSERT ((granularity =? GRAN_BYTE) || (granularity =? GRAN_PAGE));;
  let e0 := Z.lor (Z.land limit 65535) (u32 (Z.shiftl base 16)) in
  let e1 :=
    Z.lor (Z.lor (Z.lor (Z.lor (Z.lor (Z.lor (Z.lor (Z.lor
      (Z.land (Z.shiftr base 16) 255) (Z.shiftl type 8)) (Z.shiftl class 12)) (Z.shiftl dpl 13)) (Z.shiftl 1 15))
      (Z.land limit 983040)) (Z.shiftl 1 22)) (Z.shiftl granularity 23)) (Z.land base 4278190080) in
  Done (Z.lor e0 (Z.shiftl e1 32)).
Definition make_code_desc (dpl : Z) : outcome Z := make_seg_desc 0 1048575 CLS_CODE_DATA 10 dpl GRAN_PAGE.
Definition make_data_desc (dpl : Z) : outcome Z := make_seg_desc 0 1048575 CLS_CODE_DATA 2 dpl GRAN_PAGE.
Definition make_tss_desc (laddr : Z) : outcome Z := make_seg_desc laddr 103 CLS_SYSTEM 9 0 GRAN_BYTE.
Definition make_gdtr_operand (limit base : Z) : Z := Z.lor limit (Z.shiftl base 16).

(** The table, the operand of [lgdt] and the operand of [ltr]; [gdt] is at
    [base]. *)
Record gdt_state := { gdt : list Z; gdtr : Z; tr : Z }.
Definition gdt_init (base tss : Z) (gdt : list Z) : outcome gdt_state :=
  gdt ← wr gdt (SEL_NULL `quot` 8) 0;
  d ← make_code_desc 0; gdt ← wr gdt (SEL_KCSEG `quot` 8) d;
  d ← make_data_desc 0; gdt ← wr gdt (SEL_KDSEG `quot` 8) d;
  d ← make_code_desc 3; gdt ← wr gdt (SEL_UCSEG `quot` 8) d;
  d ← make_data_desc 3; gdt ← wr gdt (SEL_UDSEG `quot` 8) d;
  ASSERT (negb (tss =? 0));;
  d ← make_tss_desc tss; gdt ← wr gdt (SEL_TSS `quot` 8) d;
  Done {| gdt := gdt; gdtr := make_gdtr_operand (8 * SEL_CNT - 1) base; tr := SEL_TSS |}.

(** ** What the processor reads *)

(** The descriptor with these contents, field by field from bit 0. *)
Definition seg_fields (base limit class type dpl granularity : Z) : list (Z * Z) :=
  [(field limit 0 16, 16); (field base 0 16, 16); (field base 16 8, 8); (type, 4); (class, 1); (dpl, 2); (1, 1);
   (field limit 16 4, 4); (0, 2); (1, 1); (granularity, 1); (field base 24 8, 8)].
Record segment := Segment { seg_base : Z; seg_limit : Z; seg_class : Z; seg_type : Z; seg_dpl : Z; seg_present : Z; seg_32bit : Z; seg_granularity : Z }.
Definition decode_segment (d : Z) : segment :=
  Segment (field d 16 16 + 2 ^ 16 * field d 32 8 + 2 ^ 24 * field d 56 8) (field d 0 16 + 2 ^ 16 * field d 48 4)
    (field d 44 1) (field d 40 4) (field d 45 2) (field d 47 1) (field d 54 1) (field d 55 1).

Section descriptor.
Context (base limit class type dpl granularity : Z).
Context (Hbase : is_u32 base) (Hlimit : 0 ≤ limit < 2 ^ 20) (Hclass : 0 ≤ class ≤ 1) (Htype : 0 ≤ type ≤ 15)
  (Hdpl : 0 ≤ dpl ≤ 3) (Hgran : 0 ≤ granularity ≤ 1).

Lemma seg_fields_fit : Forall fits (seg_fields base limit class type dpl granularity).
Proof.
  unfold seg_fields, fits. repeat apply Forall_cons_2; cbn [fst snd]; [..|done]; (split; [lia|]); (apply field_range; lia) || lia.
Qed.
Lemma make_seg_desc_packs : make_seg_desc base limit class type dpl granularity = Done (pack (seg_fields base limit class type dpl granularity)).
Proof.
  pose proof (field_range base 0 16) as H0. pose proof (field_range base 16 8) as H1. pose proof (field_range base 24 8) as H2.
  pose proof (field_range limit 0 16) as H3. pose proof (field_range limit 16 4) as H4.
  pose proof (land_ones_at limit 0 16 ltac:(lia) ltac:(lia)) as E1. change (2 ^ 0 * (2 ^ 16 - 1)) with 65535 in E1. change (2 ^ 0) with 1 in E1. rewrite Z.mul_1_l in E1.
  assert (u32 (Z.shiftl base 16) = 2 ^ 16 * field base 0 16) as E2.
  { unfold u32, field. rewrite Z.shiftl_mul_pow2, Z.div_1_r, (Z.mul_comm base) by lia. change (2 ^ 32) with (2 ^ 16 * 2 ^ 16). by rewrite Z.mul_mod_distr_l. }
  assert (Z.land (Z.shiftr base 16) 255 = field base 16 8) as E3 by (unfold field; rewrite <-Z.shiftr_div_pow2 by lia; by apply (Z.land_ones _ 8)).
  pose proof (land_ones_at limit 16 4 ltac:(lia) ltac:(lia)) as E4. change (2 ^ 16 * (2 ^ 4 - 1)) with 983040 in E4.
  pose proof (land_ones_at base 24 8 ltac:(lia) ltac:(lia)) as E5. change (2 ^ 24 * (2 ^ 8 - 1)) with 4278190080 in E5.
  unfold make_seg_desc. rewrite E1, E2, E3, E4, E5. unfold CLS_SYSTEM, CLS_CODE_DATA, GRAN_BYTE, GRAN_PAGE. unfold ASSERT.
  destruct (Z.leb_spec limit 1048575); [|lia]. destruct (Z.eqb_spec class 0), (Z.eqb_spec class 1); try lia;
  destruct (Z.leb_spec 0 type), (Z.leb_spec type 15), (Z.leb_spec 0 dpl), (Z.leb_spec dpl 3); try lia;
  destruct (Z.eqb_spec granularity 0), (Z.eqb_spec granularity 1); try lia; cbn [andb orb mbind outcome_bind]; f_equal;
  rewrite !Z.shiftl_mul_pow2 by lia; rewrite !(Z.mul_comm _ (2 ^ _));
  rewrite (lor_above 16), (lor_above 8), (lor_above 12), (lor_above 13), (lor_above 15), (lor_above 16), (lor_above 22), (lor_above 23), (lor_above 24), (lor_above 32) by lia;
  cbn [pack seg_fields]; lia.
Qed.

(** A descriptor is what was asked for. *)
Lemma make_seg_desc_decodes : ∃ d, make_seg_desc base limit class type dpl granularity = Done d ∧ is_u64 d ∧
  decode_segment d = Segment base limit class type dpl 1 1 granularity.
Proof.
  eexists. split; [apply make_seg_desc_packs|]. pose proof seg_fields_fit as Hf. split; [exact (pack_range _ Hf)|].
  set (fs := seg_fields _ _ _ _ _ _) in *. pose proof (λ k v w lo, pack_lookup fs k v w lo Hf) as Hp. unfold decode_segment.
  rewrite (Hp 0%nat _ 16 0 eq_refl eq_refl), (Hp 1%nat _ 16 16 eq_refl eq_refl), (Hp 2%nat _ 8 32 eq_refl eq_refl), (Hp 3%nat _ 4 40 eq_refl eq_refl),
    (Hp 4%nat _ 1 44 eq_refl eq_refl), (Hp 5%nat _ 2 45 eq_refl eq_refl), (Hp 6%nat _ 1 47 eq_refl eq_refl), (Hp 7%nat _ 4 48 eq_refl eq_refl),
    (Hp 9%nat _ 1 54 eq_refl eq_refl), (Hp 10%nat _ 1 55 eq_refl eq_refl), (Hp 11%nat _ 8 56 eq_refl eq_refl).
  f_equal; [|symmetry; by apply (field_split limit 16 4)].
  unfold field, is_u32 in *. div_lia.
Qed.
End descriptor.

(** Out of range arguments stop the kernel. *)
Lemma make_seg_desc_checks base limit class type dpl granularity d : make_seg_desc base limit class type dpl granularity = Done d →
  limit < 2 ^ 20 ∧ 0 ≤ class ≤ 1 ∧ 0 ≤ type ≤ 15 ∧ 0 ≤ dpl ≤ 3 ∧ 0 ≤ granularity ≤ 1.
Proof.
  unfold make_seg_desc, ASSERT, CLS_SYSTEM, CLS_CODE_DATA, GRAN_BYTE, GRAN_PAGE. intros H.
  repeat match type of H with (if ?b then _ else _) ≫= _ = _ => destruct b eqn:?; [cbn [mbind outcome_bind] in H|done] end.
  clear H. repeat match goal with H : _ && _ = true |- _ => apply andb_prop in H as [? ?] | H : _ || _ = true |- _ => apply orb_prop in H as [?|?] end; lia.
Qed.

(** ** The task state *)

Record tss := Tss {
  back_link : Z; esp0 : Z; ss0 : Z; esp1 : Z; ss1 : Z; esp2 : Z; ss2 : Z; cr3 : Z; tss_eip : Z; eflags : Z;
  eax : Z; ecx : Z; edx : Z; ebx : Z; esp : Z; ebp : Z; esi : Z; edi : Z; es : Z; cs : Z; ss : Z; ds : Z; fs : Z; gs : Z; ldt : Z; trace : Z; iomap : Z }.
Definition zero_tss : tss := Tss 0 0 0 0 0 0 0 0 0 0 0 0 0 0 0 0 0 0 0 0 0 0 0 0 0 0 0.
Definition set_stack (e s : Z) (t : tss) : tss :=
  Tss (back_link t) e s (esp1 t) (ss1 t) (esp2 t) (ss2 t) (cr3 t) (tss_eip t) (eflags t) (eax t) (ecx t) (edx t) (ebx t) (esp t) (ebp t) (esi t) (edi t)
    (es t) (cs t) (ss t) (ds t) (fs t) (gs t) (ldt t) (trace t) (iomap t).
Definition set_iomap (b : Z) (t : tss) : tss :=
  Tss (back_link t) (esp0 t) (ss0 t) (esp1 t) (ss1 t) (esp2 t) (ss2 t) (cr3 t) (tss_eip t) (eflags t) (eax t) (ecx t) (edx t) (ebx t) (esp t) (ebp t) (esi t) (edi t)
    (es t) (cs t) (ss t) (ds t) (fs t) (gs t) (ldt t) (trace t) b.
(** The pointer [tss], and what it points to; [thread_current] is a page. *)
Record task := Task { tss_ptr : Z; tss_at : tss; thread_page : Z }.
Definition set_tss (f : tss → tss) (s : task) : task := Task (tss_ptr s) (f (tss_at s)) (thread_page s).
Definition tss_get : M task Z := s ← get; assert (negb (tss_ptr s =? 0));; mret (tss_ptr s).
Definition tss_update : M task unit :=
  s ← get; assert (negb (tss_ptr s =? 0));; modify (set_tss (λ t, set_stack (u32 (thread_page s + 4096)) (ss0 t) t)).
(** [page] is what [palloc_get_page] finds; with [PAL_ASSERT] it stops when it
    finds none. *)
Definition tss_init (page : option Z) : M task unit :=
  match page with
  | None => lift Panic
  | Some p =>
      modify (λ s, Task p zero_tss (thread_page s));;
      modify (set_tss (λ t, set_stack (esp0 t) SEL_KDSEG t));;
      modify (set_tss (set_iomap 57343));;
      tss_update
  end.

(** ** The tables together *)

(** The segment a selector names, if its index is in the table. *)
Definition segment_of (g : gdt_state) (sel : Z) : option segment := decode_segment <$> (gdt g)@[field sel 3 13].
Definition rpl (sel : Z) : Z := field sel 0 2.
(** A flat segment: all 4 GB, in pages. *)
Definition flat (type dpl : Z) : segment := Segment 0 1048575 CLS_CODE_DATA type dpl 1 1 GRAN_PAGE.

(** The descriptor table after start-up.  The kernel's and the user's selectors name
    flat code and data segments whose privilege is that of the selector, the
    user's being 3; the selector of the task state names a segment that starts at the
    task state that [tss_init] made, whose stack for interrupts ends the page of the
    current thread and is in the kernel's data segment; the null descriptor is 0; and
    the register gets the address of the table and its length. *)
Theorem segments_set_up base p t old : is_u32 base → 0 < p < 2 ^ 32 → 0 ≤ thread_page t → thread_page t + 4096 < 2 ^ 32 → zlen old = SEL_CNT →
  ∃ t' g, tss_init (Some p) t = Done (tt, t') ∧ tss_get t' = Done (p, t') ∧ gdt_init base p old = Done g ∧
    (gdt g)@[0] = Some 0 ∧ zlen (gdt g) = SEL_CNT ∧
    segment_of g SEL_KCSEG = Some (flat 10 0) ∧ segment_of g SEL_KDSEG = Some (flat 2 0) ∧
    segment_of g SEL_UCSEG = Some (flat 10 3) ∧ segment_of g SEL_UDSEG = Some (flat 2 3) ∧
    rpl SEL_KCSEG = 0 ∧ rpl SEL_KDSEG = 0 ∧ rpl SEL_UCSEG = 3 ∧ rpl SEL_UDSEG = 3 ∧
    segment_of g (tr g) = Some (Segment p 103 CLS_SYSTEM 9 0 1 1 GRAN_BYTE) ∧
    esp0 (tss_at t') = thread_page t + 4096 ∧ segment_of g (ss0 (tss_at t')) = Some (flat 2 0) ∧ 103 < iomap (tss_at t') ∧
    gdtr g = pack [(8 * SEL_CNT - 1, 16); (base, 32)].
Proof.
  intros Hb Hp Ht Ht2 Hold.
  destruct old as [|o0 [|o1 [|o2 [|o3 [|o4 [|o5 [|o6 old]]]]]]]; unfold SEL_CNT in Hold; repeat rewrite zlen_cons in Hold; rewrite ?zlen_nil in Hold; try lia;
    try (pose proof (zlen_nonneg old); lia).
  destruct (make_seg_desc_decodes p 103 CLS_SYSTEM 9 0 GRAN_BYTE) as (d & Ed & _ & Dd); [unfold is_u32, CLS_SYSTEM, GRAN_BYTE; lia..|].
  destruct p as [|p|]; [lia| |lia].
  eexists (Task (Z.pos p) (Tss 0 (u32 (thread_page t + 4096)) SEL_KDSEG 0 0 0 0 0 0 0 0 0 0 0 0 0 0 0 0 0 0 0 0 0 0 0 57343) (thread_page t)), {| gdt := _; gdtr := make_gdtr_operand (8 * SEL_CNT - 1) base; tr := SEL_TSS |}.
  split; [unfold tss_init, tss_update; reflexivity|]. split; [reflexivity|].
  split; [unfold gdt_init, make_tss_desc; rewrite Ed; reflexivity|].
  cbn [gdt gdtr tr tss_at esp0 ss0 iomap]. unfold segment_of. cbn [gdt].
  split_and!. 1-10,13-14: vm_compute; reflexivity.
  - change ((_)@[_]) with (Some d). cbn [fmap option_fmap option_map]. by rewrite Dd.
  - apply u32_small. lia.
  - unfold make_gdtr_operand. cbn [pack]. rewrite Z.shiftl_mul_pow2, (Z.mul_comm base), lor_above by (unfold SEL_CNT; lia). lia.
Qed.
Lemma segments_set_up_witness : ∃ t' g, tss_init (Some 3221250048) (Task 0 zero_tss 3221241856) = Done (tt, t') ∧ gdt_init 3221230000 3221250048 (replicate 6 0) = Done g ∧
  segment_of g (tr g) = Some (Segment 3221250048 103 0 9 0 1 1 0) ∧ esp0 (tss_at t') = 3221245952.
Proof.
  destruct (segments_set_up 3221230000 3221250048 (Task 0 zero_tss 3221241856) (replicate 6 0)) as (t' & g & E1 & _ & E2 & H); [vm_compute; (done || (split; [discriminate|reflexivity]))..|].
  exists t', g. split_and!; [done|done|by apply H|by apply H].
Defined.
