(* ===== verification/Palloc.v ===== *)
(** * The page allocator (src/pintos/src/threads/palloc.c)

    Two pools of pages, each with a bitmap of the pages in use.  [pmem] is the
    contents of memory, byte by byte, as far as the allocator fills pages.  The
    pool's lock only serialises callers (see MachineSpec.v) and is left out.

    [PageAllocator] is what the allocator promises its clients, malloc.c and
    pagedir.c; [palloc_allocator] shows that the code keeps the promise. *)

From S2P Require Import Prelude KList Bitmap Vaddr.

Definition PAL_ASSERT : Z := 1.
Definition PAL_ZERO : Z := 2.
Definition PAL_USER : Z := 4.

Record pool : Type := Pool { used_map : bitmap; base : Z }.
Record palloc : Type := Palloc { kernel_pool : pool; user_pool : pool; pmem : Z → Z }.

Definition set_kernel_pool (p : pool) (s : palloc) : palloc := Palloc p (user_pool s) (pmem s).
Definition set_user_pool (p : pool) (s : palloc) : palloc := Palloc (kernel_pool s) p (pmem s).
Definition set_pmem (m : Z → Z) (s : palloc) : palloc := Palloc (kernel_pool s) (user_pool s) m.

(** [memset (a, c, n)]. *)
Definition memset (a c n : Z) : M palloc unit :=
  modify (λ s, set_pmem (λ x, if (a <=? x) && (x <? a + n) then c else pmem s x) s).

(** Which pool: true for the user pool. *)
Definition get_pool (user : bool) (s : palloc) : pool := if user then user_pool s else kernel_pool s.
Definition set_pool (user : bool) (p : pool) : palloc → palloc :=
  if user then set_user_pool p else set_kernel_pool p.

(** [words] is the storage the bitmap is created in. *)
Definition init_pool (words : list Z) (bas page_cnt : Z) : outcome pool :=
  let bm_pages := DIV_ROUND_UP (bitmap_buf_size page_cnt) PGSIZE in
  if page_cnt <? bm_pages then Panic else
  let page_cnt := page_cnt - bm_pages in
  b ← bitmap_create_in_buf page_cnt words (u32 (bm_pages * PGSIZE));
  Done (Pool b (u32 (bas + bm_pages * PGSIZE))).

Definition palloc_init (kwords uwords : list Z) (m : Z → Z) (init_ram_pages user_page_limit : Z) : outcome palloc :=
  free_start ← ptov (1024 * 1024);
  free_end ← ptov (u32 (init_ram_pages * PGSIZE));
  let free_pages := u32 (free_end - free_start) `div` PGSIZE in
  let user_pages := free_pages `div` 2 in
  let user_pages := if user_page_limit <? user_pages then user_page_limit else user_pages in
  let kernel_pages := free_pages - user_pages in
  k ← init_pool kwords free_start kernel_pages;
  u ← init_pool uwords (u32 (free_start + kernel_pages * PGSIZE)) user_pages;
  Done (Palloc k u m).

Definition palloc_get_multiple (flags page_cnt : Z) : M palloc Z :=
  let user := has flags PAL_USER in
  if page_cnt =? 0 then mret NULL else
  p ← gets (get_pool user);
  r ← lift (bitmap_scan_and_flip (used_map p) 0 page_cnt false);
  let '(page_idx, map) := r in
  modify (set_pool user (Pool map (base p)));;
  let pages := if negb (page_idx =? BITMAP_ERROR) then u32 (base p + PGSIZE * page_idx) else NULL in
  (if negb (pages =? NULL) then
     if has flags PAL_ZERO then memset pages 0 (u32 (PGSIZE * page_cnt)) else mret tt
   else assert (negb (has flags PAL_ASSERT)));;
  mret pages.

Definition palloc_get_page (flags : Z) : M palloc Z := palloc_get_multiple flags 1.

Definition page_from_pool (p : pool) (page : Z) : bool :=
  let page_no := pg_no page in
  let start_page := pg_no (base p) in
  let end_page := u32 (start_page + bitmap_size (used_map p)) in
  (start_page <=? page_no) && (page_no <? end_page).

(** Whether [page] is in the user pool; [NOT_REACHED] if it is in neither. *)
Definition owner (s : palloc) (page : Z) : outcome bool :=
  if page_from_pool (kernel_pool s) page then Done false
  else if page_from_pool (user_pool s) page then Done true
  else Panic.

Definition palloc_free_multiple (pages page_cnt : Z) : M palloc unit :=
  assert (pg_ofs pages =? 0);;
  if (pages =? NULL) || (page_cnt =? 0) then mret tt else
  s ← get;
  user ← lift (owner s pages);
  let p := get_pool user s in
  let page_idx := u32 (pg_no pages - pg_no (base p)) in
  memset pages 0xcc (u32 (PGSIZE * page_cnt));;
  all ← lift (bitmap_all (used_map p) page_idx page_cnt);
  assert all;;
  map ← lift (bitmap_set_multiple (used_map p) page_idx page_cnt false);
  modify (set_pool user (Pool map (base p))).

Definition palloc_free_page (page : Z) : M palloc unit := palloc_free_multiple page 1.

(** ** What clients may rely on *)

(** [S] is the allocator's state; pages are named by their numbers. *)
Class PageAllocator (S : Type) : Type := {
  get_pages : Z → M S Z;                (* palloc_get_multiple (0, cnt) *)
  free_pages : Z → Z → M S unit;        (* palloc_free_multiple *)
  alloc_ok : S → Prop;
  in_use : S → Z → Prop;                (* the page with this number is allocated *)
}.

(** The pages a group of [cnt] pages at [a] consists of. *)
Definition page_group (a cnt n : Z) : Prop := pg_no a ≤ n < pg_no a + cnt.

Class PageAllocatorLaws (S : Type) `{!PageAllocator S} : Prop := {
  get_pages_law : ∀ s cnt, alloc_ok s → 0 < cnt < 2 ^ 32 →
    runs (get_pages cnt) s (λ a s', alloc_ok s' ∧
      ((a = NULL ∧ ∀ n, in_use s' n ↔ in_use s n) ∨
       (is_kpage a ∧ a + cnt * PGSIZE ≤ 2 ^ 32 ∧
        (∀ n, page_group a cnt n → ¬ in_use s n) ∧
        (∀ n, in_use s' n ↔ in_use s n ∨ page_group a cnt n))));
  free_pages_law : ∀ s a cnt, alloc_ok s → is_kpage a → 0 < cnt < 2 ^ 32 →
    (∀ n, page_group a cnt n → in_use s n) →
    runs (free_pages a cnt) s (λ _ s', alloc_ok s' ∧ ∀ n, in_use s' n ↔ in_use s n ∧ ¬ page_group a cnt n);
}.

(** ** The invariant *)

Record pool_ok (p : pool) : Prop := {
  po_map : wf (used_map p);
  po_base : is_kpage (base p);
  po_end : base p + PGSIZE * bit_cnt (used_map p) ≤ 2 ^ 32;
}.
(** The page with number [n] is one of the pool's, and in use. *)
Definition pool_used (p : pool) (n : Z) : Prop :=
  0 ≤ n - pg_no (base p) < bit_cnt (used_map p) ∧ bit (used_map p) (n - pg_no (base p)) = true.

(** The pools do not touch: the user pool's bitmap lies between them. *)
Record palloc_ok (s : palloc) : Prop := {
  pa_kernel : pool_ok (kernel_pool s);
  pa_user : pool_ok (user_pool s);
  pa_gap : pg_no (base (kernel_pool s)) + bit_cnt (used_map (kernel_pool s)) < pg_no (base (user_pool s));
}.
Definition palloc_used (s : palloc) (n : Z) : Prop := pool_used (kernel_pool s) n ∨ pool_used (user_pool s) n.

Lemma kpage_no a : is_kpage a → a = PGSIZE * pg_no a.
Proof. intros [_ H]. rewrite PGSIZE_eq, pg_no_div. Z.to_euclidean_division_equations; lia. Qed.
Lemma kpage_at p idx : pool_ok p → 0 ≤ idx < bit_cnt (used_map p) →
  u32 (base p + PGSIZE * idx) = base p + PGSIZE * idx ∧ is_kpage (base p + PGSIZE * idx) ∧
  pg_no (base p + PGSIZE * idx) = pg_no (base p) + idx.
Proof.
  intros [_ [Hb Ha] He] Hi. rewrite PGSIZE_eq, !pg_no_div in *. unfold is_kpage, PHYS_BASE in *.
  rewrite u32_small by lia. split_and!; [done|lia..| |]; Z.to_euclidean_division_equations; lia.
Qed.

Lemma get_set_pool u p s : get_pool u (set_pool u p s) = p.
Proof. by destruct u. Qed.
Lemma pool_ok_get u s : palloc_ok s → pool_ok (get_pool u s).
Proof. intros []. by destruct u. Qed.

(** Replacing a pool's bitmap by one of the same size. *)
Lemma pool_ok_map p map : pool_ok p → wf map → bit_cnt map = bit_cnt (used_map p) → pool_ok (Pool map (base p)).
Proof. intros [] ? E. split; simpl; [done..|]. by rewrite E. Qed.
Lemma palloc_ok_set u s map : palloc_ok s → wf map → bit_cnt map = bit_cnt (used_map (get_pool u s)) →
  palloc_ok (set_pool u (Pool map (base (get_pool u s))) s).
Proof.
  intros [Hk Hu Hg] Hm E. destruct u; simpl in *; split; simpl; try done; try (by apply pool_ok_map). by rewrite E.
Qed.
Lemma palloc_used_set u s p n :
  palloc_used (set_pool u p s) n ↔ pool_used p n ∨ pool_used (get_pool (negb u) s) n.
Proof. unfold palloc_used. destruct u; simpl; tauto. Qed.
Lemma palloc_used_get u s n : palloc_used s n ↔ pool_used (get_pool u s) n ∨ pool_used (get_pool (negb u) s) n.
Proof. unfold palloc_used. destruct u; simpl; tauto. Qed.

(** The bits from [idx] on, [cnt] of them, change to [v]. *)
Lemma pool_used_updated p map idx cnt v n : 0 ≤ idx → idx + cnt ≤ bit_cnt (used_map p) →
  updated (used_map p) map (λ j, if (idx <=? j) && (j <? idx + cnt) then v else bit (used_map p) j) →
  pool_used (Pool map (base p)) n ↔
    if decide (pg_no (base p) + idx ≤ n < pg_no (base p) + idx + cnt) then v = true else pool_used p n.
Proof.
  intros Hi Hc [Hwf Hcnt _ Hbit]. unfold pool_used. simpl. rewrite Hcnt. set (j := n - pg_no (base p)).
  destruct (decide (0 ≤ j < bit_cnt (used_map p))) as [Hj|Hj].
  - rewrite Hbit by done. destruct (decide _) as [Hin|Hout].
    + destruct (Z.leb_spec idx j); [|lia]. destruct (Z.ltb_spec j (idx + cnt)); [|lia]. simpl. tauto.
    + destruct (Z.leb_spec idx j), (Z.ltb_spec j (idx + cnt)); simpl; tauto || lia.
  - destruct (decide _); [lia|]. tauto.
Qed.

(** ** Allocation *)

(** [cnt] free pages in a row, from index [idx] of the pool. *)
Definition free_run (p : pool) (idx cnt : Z) : Prop :=
  0 ≤ idx ∧ idx + cnt ≤ bit_cnt (used_map p) ∧ run_at (used_map p) idx cnt false.

Lemma free_run_used p idx cnt n : free_run p idx cnt →
  pg_no (base p) + idx ≤ n < pg_no (base p) + idx + cnt → ¬ pool_used p n.
Proof. intros (H0 & H1 & Hr) Hn [_ Hb]. rewrite Hr in Hb by lia. done. Qed.

Lemma other_pool_apart u s n : palloc_ok s →
  0 ≤ n - pg_no (base (get_pool u s)) < bit_cnt (used_map (get_pool u s)) → ¬ pool_used (get_pool (negb u) s) n.
Proof. intros [Hk Hu Hg] Hn [Hj _]. destruct u; simpl in *; lia. Qed.

(** What an allocation of [cnt] pages at index [idx] of a pool leaves. *)
Record allocated (u : bool) (zero : bool) (idx cnt : Z) (s s' : palloc) : Prop := {
  al_ok : palloc_ok s';
  al_used : ∀ n, palloc_used s' n ↔ palloc_used s n ∨ page_group (base (get_pool u s) + PGSIZE * idx) cnt n;
  al_mem : ∀ x, pmem s' x =
    if zero && (base (get_pool u s) + PGSIZE * idx <=? x) && (x <? base (get_pool u s) + PGSIZE * (idx + cnt)) then 0 else pmem s x;
}.

Lemma get_multiple_spec s flags cnt : palloc_ok s → 0 < cnt < 2 ^ 32 →
  let u := has flags PAL_USER in let p := get_pool u s in
  (∃ idx s', free_run p idx cnt ∧ (∀ k, k < idx → ¬ free_run p k cnt) ∧
     palloc_get_multiple flags cnt s = Done (base p + PGSIZE * idx, s') ∧
     allocated u (has flags PAL_ZERO) idx cnt s s') ∨
  ((∀ k, ¬ free_run p k cnt) ∧
     palloc_get_multiple flags cnt s = if has flags PAL_ASSERT then Panic else Done (NULL, s)).
Proof.
  intros Hs Hc u p. pose proof (pool_ok_get u s Hs) as Hp. fold p in Hp. pose proof (wf_cnt _ (po_map _ Hp)) as Hwf.
  destruct (scan_and_flip_spec (used_map p) 0 cnt false (po_map _ Hp)) as (r & map & E & H); [lia..|].
  unfold palloc_get_multiple. fold u. destruct (Z.eqb_spec cnt 0) as [|_]; [lia|].
  unfold mbind, M_bind, gets, lift. fold p. rewrite E. cbn [mbind outcome_bind]. unfold modify, mret, M_ret.
  destruct H as [(H0 & H1 & Hrun & Hmin & Hup)|(-> & -> & Hno)].
  - left. exists r. destruct (kpage_at p r Hp) as (Eu & Hk & Hpg); [lia|].
    destruct (Z.eqb_spec r BITMAP_ERROR) as [|_]; [unfold BITMAP_ERROR in *; lia|]. cbn [negb]. rewrite Eu.
    assert (base p + PGSIZE * r =? NULL = false) as ->.
    { apply Z.eqb_neq. destruct Hk as [Hk _]. unfold PHYS_BASE, NULL in *. lia. }
    set (s1 := set_pool u (Pool map (base p)) s).
    assert (palloc_ok s1 ∧ ∀ n, palloc_used s1 n ↔ palloc_used s n ∨ page_group (base p + PGSIZE * r) cnt n) as [Hok Hused].
    { split; [apply palloc_ok_set; [done|apply Hup|apply Hup]|]. intros n. unfold s1, page_group.
      rewrite palloc_used_set, (palloc_used_get u s n), (pool_used_updated p map r cnt true n) by done. fold p. rewrite Hpg.
      destruct (decide _); [tauto|]. tauto. }
    assert (∀ m, palloc_ok (set_pmem m s1) ∧ ∀ n, palloc_used (set_pmem m s1) n ↔ palloc_used s1 n) as Hset.
    { intros m. split; [destruct Hok; by split|done]. }
    assert (pmem s1 = pmem s) as Em by (unfold s1; by destruct u).
    assert (u32 (PGSIZE * cnt) = PGSIZE * cnt) as Ec.
    { apply u32_small. destruct Hp as [_ [Hb _] He]. rewrite PGSIZE_eq in *. unfold PHYS_BASE in Hb. lia. }
    destruct (has flags PAL_ZERO); cbn [negb].
    + unfold memset, modify. exists (set_pmem (λ x, if (base p + PGSIZE * r <=? x) && (x <? base p + PGSIZE * r + PGSIZE * cnt) then 0 else pmem s1 x) s1).
      rewrite Ec. split_and!; [done|intros k Hk' (? & _ & ?); apply (Hmin k); [lia|done]|done|]. split.
      * apply Hset.
      * intros n. rewrite (proj2 (Hset _)). apply Hused.
      * intros x. simpl. fold p. rewrite Em, Z.mul_add_distr_l, Z.add_assoc. done.
    + exists s1. split_and!; [done|intros k Hk' (? & _ & ?); apply (Hmin k); [lia|done]|done|].
      split; [done|done|]. intros x. by rewrite Em.
  - right. split; [intros k (? & ? & ?); by apply (Hno k)|].
    change (BITMAP_ERROR =? BITMAP_ERROR) with true. cbn [negb].
    assert (set_pool u (Pool (used_map p) (base p)) s = s) as ->.
    { unfold p. destruct s as [[] []], u; done. }
    change (NULL =? NULL) with true. cbn [negb]. unfold assert, lift, ASSERT. by destruct (has flags PAL_ASSERT).
Qed.

(** ** Freeing *)

Lemma page_from_pool_spec p a : pool_ok p → is_kpage a →
  page_from_pool p a = true ↔ 0 ≤ pg_no a - pg_no (base p) < bit_cnt (used_map p).
Proof.
  intros [Hw [Hb Hba] He] [Ha Haa]. unfold page_from_pool, bitmap_size. pose proof (wf_cnt _ Hw).
  rewrite PGSIZE_eq in He. rewrite !pg_no_div. unfold PHYS_BASE in *.
  rewrite u32_small by (Z.to_euclidean_division_equations; lia).
  rewrite andb_true_iff, Z.leb_le, Z.ltb_lt. lia.
Qed.
Lemma bitmap_all_spec b start cnt : wf b → 0 ≤ start → 0 ≤ cnt → start + cnt ≤ bit_cnt b →
  ∃ r, bitmap_all b start cnt = Done r ∧ (r = true ↔ run_at b start cnt true).
Proof.
  intros Hw H0 Hc Hs. unfold bitmap_all. destruct (contains_negb_spec b start cnt true Hw H0 Hc Hs) as (r & E & Hr).
  cbn [negb] in E. rewrite E. simpl. exists (negb r). split; [done|]. rewrite <-Hr. by destruct r.
Qed.
Lemma bitmap_all_out b start cnt : wf b → 0 ≤ start ≤ bit_cnt b → start + cnt < 2 ^ 32 → bit_cnt b < start + cnt →
  bitmap_all b start cnt = Panic.
Proof.
  intros Hw H0 Hc Hs. unfold bitmap_all, bitmap_contains, ASSERT. rewrite u32_small by lia. by bool_cases.
Qed.

(** The pool a page belongs to. *)
Lemma owner_spec s a : palloc_ok s → is_kpage a →
  match owner s a with
  | Done u => 0 ≤ pg_no a - pg_no (base (get_pool u s)) < bit_cnt (used_map (get_pool u s))
  | r => r = Panic ∧ ¬ palloc_used s (pg_no a)
  end.
Proof.
  intros [Hk Hu Hg] Ha. unfold owner. pose proof (page_from_pool_spec _ a Hk Ha) as H1. pose proof (page_from_pool_spec _ a Hu Ha) as H2.
  destruct (page_from_pool (kernel_pool s) a); [by apply H1|].
  destruct (page_from_pool (user_pool s) a); [by apply H2|]. split; [done|].
  intros [[H _]|[H _]]; [by apply H1 in H|by apply H2 in H].
Qed.

Lemma free_multiple_run s a cnt u : palloc_ok s → is_kpage a → 0 < cnt → a + cnt * PGSIZE ≤ 2 ^ 32 → owner s a = Done u →
  let p := get_pool u s in let idx := pg_no a - pg_no (base p) in
  palloc_free_multiple a cnt s =
      (all ← bitmap_all (used_map p) idx cnt;
       if all : bool then
         map ← bitmap_set_multiple (used_map p) idx cnt false;
         Done (tt, set_pool u (Pool map (base p)) (set_pmem (λ x, if (a <=? x) && (x <? a + PGSIZE * cnt) then 0xcc else pmem s x) s))
       else Panic).
Proof.
  intros Hs Ha Hc He E p idx. pose proof (owner_spec s a Hs Ha) as Hr. rewrite E in Hr. fold p idx in Hr.
  pose proof (pool_ok_get u s Hs) as [Hw _ _]. pose proof (wf_cnt _ Hw) as Hwc. fold p in Hwc.
  unfold palloc_free_multiple. rewrite pg_ofs_mod. destruct Ha as [Har Haa]. rewrite Haa.
  assert (a =? NULL = false) as -> by (apply Z.eqb_neq; unfold PHYS_BASE, NULL in *; lia).
  destruct (Z.eqb_spec cnt 0) as [|_]; [lia|].
  assert (u32 (PGSIZE * cnt) = PGSIZE * cnt) as Ec by (apply u32_small; unfold PHYS_BASE in *; rewrite PGSIZE_eq in *; lia).
  unfold mbind, M_bind, assert, lift, ASSERT, get. cbn [Z.eqb mbind outcome_bind orb]. rewrite E. cbn [mbind outcome_bind].
  unfold memset, modify. fold p idx. rewrite Ec, (u32_small idx) by lia.
  destruct (bitmap_all _ _ _) as [[]| | |]; try done. simpl.
  by destruct (bitmap_set_multiple _ _ _ _).
Qed.

Lemma free_multiple_spec s a cnt : palloc_ok s → is_kpage a → 0 < cnt → a + cnt * PGSIZE ≤ 2 ^ 32 →
  (∀ n, page_group a cnt n → palloc_used s n) →
  runs (palloc_free_multiple a cnt) s (λ _ s', palloc_ok s' ∧
    ∀ n, palloc_used s' n ↔ palloc_used s n ∧ ¬ page_group a cnt n).
Proof.
  intros Hs Ha Hc He Hall. unfold page_group in *.
  pose proof (owner_spec s a Hs Ha) as Ho. destruct (owner s a) as [u| | |] eqn:Eo;
    try (exfalso; apply (proj2 Ho), Hall; lia).
  pose proof (free_multiple_run s a cnt u Hs Ha Hc He Eo) as E.
  pose proof (pool_ok_get u s Hs) as Hp. set (p := get_pool u s) in *. cbv zeta in E.
  set (idx := pg_no a - pg_no (base p)) in *.
  assert (pool_used p (pg_no a)) as Hu.
  { destruct (proj1 (palloc_used_get u s (pg_no a)) (Hall (pg_no a) ltac:(lia))) as [H|H]; [done|].
    exfalso. by apply (other_pool_apart u s (pg_no a)) in Ho. }
  (* the group does not leave the pool *)
  assert (∀ n, pg_no a ≤ n < pg_no a + cnt → pool_used p n) as Hin.
  { assert (∀ j, 0 ≤ j → j < cnt → pool_used p (pg_no a + j)) as H.
    { apply (natlike_ind (λ j, j < cnt → pool_used p (pg_no a + j))); [by rewrite Z.add_0_r|].
      intros j Hj IH Hlt. destruct (IH ltac:(lia)) as [Hb _]. destruct (Hall (pg_no a + Z.succ j) ltac:(lia)) as [H|H];
        destruct Hs as [_ _ Hg]; unfold p in *; destruct u; simpl in *; try done; destruct H as [H _]; lia. }
    intros n Hn. replace n with (pg_no a + (n - pg_no a)) by lia. apply H; lia. }
  assert (idx + cnt ≤ bit_cnt (used_map p)).
  { destruct (Hin (pg_no a + cnt - 1) ltac:(lia)) as [H _]. lia. }
  unfold runs. rewrite E. destruct (bitmap_all_spec (used_map p) idx cnt) as (r & -> & Hr); [apply Hp|lia..|].
  assert (r = true) as ->.
  { apply Hr. intros j Hj. destruct (Hin (pg_no (base p) + j) ltac:(lia)) as [_ H1].
    by replace (pg_no (base p) + j - pg_no (base p)) with j in H1 by lia. }
  simpl. destruct (set_multiple_spec (used_map p) idx cnt false) as (map & -> & Hup); [apply Hp|lia..|]. simpl.
  set (s1 := set_pmem _ s).
  assert (palloc_ok s1) as Hs1 by (destruct Hs; by split).
  assert (get_pool u s1 = p) as E1 by (unfold s1, p; by destruct u).
  split; [rewrite <-E1; apply palloc_ok_set; [done|apply Hup|rewrite E1; apply Hup]|].
  intros n. rewrite palloc_used_set, (pool_used_updated p map idx cnt false n) by (done || lia).
  rewrite (palloc_used_get u s n). fold p. replace (get_pool (negb u) s1) with (get_pool (negb u) s) by (unfold s1; by destruct u).
  replace (pg_no (base p) + idx) with (pg_no a) by lia. destruct (decide _) as [Hg|Hg]; [|tauto].
  split; [intros [?|Hother]|tauto]; [done|]. exfalso. destruct (Hin n Hg) as [Hb _]. by eapply (other_pool_apart u s n).
Qed.

#[export] Instance palloc_allocator : PageAllocator palloc := {|
  get_pages := palloc_get_multiple 0;
  free_pages := palloc_free_multiple;
  alloc_ok := palloc_ok;
  in_use := palloc_used;
|}.

Lemma group_bound s a cnt : palloc_ok s → is_kpage a → 0 < cnt → (∀ n, page_group a cnt n → palloc_used s n) →
  a + cnt * PGSIZE ≤ 2 ^ 32.
Proof.
  intros Hs Ha Hc Hall. pose proof (kpage_no a Ha) as E. unfold page_group in Hall.
  destruct (Hall (pg_no a + cnt - 1) ltac:(lia)) as [[H _]|[H _]]; destruct Hs as [[_ Hb He] [_ Hb' He'] _];
    [pose proof (kpage_no _ Hb)|pose proof (kpage_no _ Hb')]; rewrite PGSIZE_eq in *; lia.
Qed.

#[export] Instance palloc_laws : PageAllocatorLaws palloc.
Proof.
  split.
  - intros s cnt Hs Hc. unfold runs. destruct (get_multiple_spec s 0 cnt Hs Hc) as [(idx & s' & (H0 & H1 & Hr) & _ & E & [Hok Hu _])|[_ E]];
      simpl in *; rewrite E.
    + split; [done|]. right. destruct (kpage_at (kernel_pool s) idx (pa_kernel _ Hs)) as (_ & Hk & Hpg); [lia|].
      split; [done|]. split; [pose proof (po_end _ (pa_kernel _ Hs)); rewrite PGSIZE_eq in *; lia|]. split; [|done].
      intros n Hn Hused. unfold page_group in Hn. rewrite Hpg in Hn. destruct Hused as [Hused|[Hused _]].
      * revert Hused. by apply (free_run_used _ idx cnt).
      * destruct Hs as [_ _ Hg]. lia.
    + split; [done|]. by left.
  - intros s a cnt Hs Ha Hc Hall. apply free_multiple_spec; [done|done|lia| |done]. eapply group_bound; [done..|lia|done].
Qed.

(** ** Initialisation *)

Lemma init_pool_spec words bas cnt : is_kpage bas → 1 ≤ cnt < 2 ^ 20 → bas + PGSIZE * cnt < 2 ^ 32 →
  Forall is_u32 words → cnt ≤ 32 * zlen words →
  ∃ p bm, init_pool words bas cnt = Done p ∧ pool_ok p ∧ 1 ≤ bm ≤ cnt ∧ base p = bas + PGSIZE * bm ∧
    bit_cnt (used_map p) = cnt - bm ∧ ∀ n, ¬ pool_used p n.
Proof.
  intros [Hb Hba] Hc He Hf Hw. rewrite PGSIZE_eq in *. unfold PHYS_BASE in *.
  unfold init_pool, bitmap_buf_size, byte_cnt, elem_cnt, DIV_ROUND_UP, ELEM_BITS, CHAR_BIT, sizeof_bitmap. rewrite PGSIZE_eq.
  set (e := u32 (cnt + 4 * 8 - 1) `div` (4 * 8)).
  assert (0 ≤ e ≤ cnt) by (unfold e; rewrite u32_small by lia; Z.to_euclidean_division_equations; lia).
  rewrite (u32_small (4 * e)), (u32_small (8 + 4 * e)), (u32_small (8 + 4 * e + 4096 - 1)) by lia.
  set (bm := (8 + 4 * e + 4096 - 1) `div` 4096).
  assert (1 ≤ bm ≤ cnt) as Hbm.
  { unfold bm, e. rewrite u32_small by lia. Z.to_euclidean_division_equations; lia. }
  destruct (Z.ltb_spec cnt bm); [lia|]. unfold bitmap_create_in_buf, bitmap_buf_size, byte_cnt, elem_cnt, DIV_ROUND_UP, ELEM_BITS, CHAR_BIT, sizeof_bitmap.
  set (e' := u32 (cnt - bm + 4 * 8 - 1) `div` (4 * 8)).
  assert (0 ≤ e' ≤ e) by (unfold e', e; rewrite !u32_small by lia; apply conj; [apply Z.div_pos; lia|apply Z.div_le_mono; lia]).
  rewrite (u32_small (4 * e')), (u32_small (8 + 4 * e')), (u32_small (bm * 4096)), (u32_small (bas + bm * 4096)) by lia.
  assert (8 + 4 * e' ≤ bm * 4096) by (unfold bm; Z.to_euclidean_division_equations; lia).
  destruct (Z.leb_spec (8 + 4 * e') (bm * 4096)); [|lia]. cbn [ASSERT mbind outcome_bind].
  unfold bitmap_set_all, bitmap_size. simpl.
  destruct (set_multiple_spec (Bitmap (cnt - bm) words) 0 (cnt - bm) false) as (b & -> & [Hwf Hcnt _ Hbit]).
  { split; simpl; [lia|lia|done]. } { lia. } { lia. } { simpl. lia. }
  simpl in *. exists (Pool b (bas + bm * 4096)), bm. split; [done|]. split; [|split; [done|]].
  - split; simpl; [done| |rewrite Hcnt, PGSIZE_eq; lia]. split; [unfold PHYS_BASE; lia|]. Z.to_euclidean_division_equations; lia.
  - split; [simpl; lia|]. split; [done|]. intros n [Hn Hb']. simpl in *. rewrite Hcnt in Hn. rewrite Hbit in Hb' by done.
    destruct (Z.leb_spec 0 (n - pg_no (bas + bm * 4096))); [|lia].
    by destruct (Z.ltb_spec (n - pg_no (bas + bm * 4096)) (0 + (cnt - bm))); [|lia].
Qed.

Lemma palloc_init_spec kwords uwords m ram limit :
  258 ≤ ram ≤ 2 ^ 18 - 1 → 1 ≤ limit →
  Forall is_u32 kwords → Forall is_u32 uwords → ram ≤ 32 * zlen kwords → ram ≤ 32 * zlen uwords →
  ∃ s, palloc_init kwords uwords m ram limit = Done s ∧ palloc_ok s ∧ ∀ n, ¬ palloc_used s n.
Proof.
  intros Hr Hl Hk Hu Hkl Hul. unfold palloc_init. change (ptov (1024 * 1024)) with (Done 3222274048). cbn [mbind outcome_bind].
  rewrite PGSIZE_eq, (u32_small (ram * 4096)) by lia. unfold ptov, PHYS_BASE. destruct (Z.ltb_spec (ram * 4096) 0xc0000000); [|lia].
  cbn [ASSERT mbind outcome_bind]. rewrite (u32_small (ram * 4096 + 3221225472)), (u32_small (ram * 4096 + 3221225472 - 3222274048)) by lia.
  replace ((ram * 4096 + 3221225472 - 3222274048) `div` 4096) with (ram - 256) by (Z.to_euclidean_division_equations; lia).
  set (up := if limit <? _ then _ else _).
  assert (1 ≤ up ∧ up ≤ (ram - 256) `div` 2) as [Hup1 Hup2].
  { unfold up. destruct (Z.ltb_spec limit ((ram - 256) `div` 2)); Z.to_euclidean_division_equations; lia. }
  assert (2 * up ≤ ram - 256) by (Z.to_euclidean_division_equations; lia). clear Hup2. clearbody up.
  assert (is_kpage 3222274048) as Hb by done.
  destruct (init_pool_spec kwords 3222274048 (ram - 256 - up)) as (k & bk & -> & Hk1 & Hbk & Ek & Hkc & Hkf); [done|lia|rewrite PGSIZE_eq; lia|done|lia|].
  cbn [mbind outcome_bind]. rewrite u32_small by lia.
  destruct (init_pool_spec uwords (3222274048 + (ram - 256 - up) * 4096) up) as (u & bu & -> & Hu1 & Hbu & Eu & Huc & Huf);
    [split; [unfold PHYS_BASE; lia|Z.to_euclidean_division_equations; lia]|lia|rewrite PGSIZE_eq; lia|done|lia|].
  exists (Palloc k u m). split; [done|]. split; [|intros n [H'|H']; [by apply (Hkf n)|by apply (Huf n)]].
  split; simpl; [done|done|]. rewrite Ek, Eu, Hkc, PGSIZE_eq, !pg_no_div. Z.to_euclidean_division_equations; lia.
Qed.

(** [palloc_init], on a machine with between 258 pages and the kernel's
    gigabyte of memory, at least one of them for users, sets up two separate
    pools in which every page is free. *)
Theorem palloc_init_ok kwords uwords m ram limit :
  258 ≤ ram ≤ 2 ^ 18 - 1 → 1 ≤ limit →
  Forall is_u32 kwords → Forall is_u32 uwords → ram ≤ 32 * zlen kwords → ram ≤ 32 * zlen uwords →
  ∃ s, palloc_init kwords uwords m ram limit = Done s ∧ palloc_ok s ∧ ∀ n, ¬ palloc_used s n.
Proof. apply palloc_init_spec. Qed.

(** [palloc_get_multiple] is first fit.  If the pool it is asked for has a run
    of that many free pages, it returns the first one; exactly these pages
    become used, and they are zeroed if [PAL_ZERO] is set, no other byte being
    changed.  If there is none it returns a null pointer and changes nothing,
    or panics if [PAL_ASSERT] is set. *)
Theorem palloc_get_first_fit s flags cnt :
  palloc_ok s → 0 < cnt < 2 ^ 32 →
  let u := has flags PAL_USER in let p := get_pool u s in
  (∀ idx, free_run p idx cnt → (∀ k, k < idx → ¬ free_run p k cnt) →
     ∃ s', palloc_get_multiple flags cnt s = Done (base p + PGSIZE * idx, s') ∧
           allocated u (has flags PAL_ZERO) idx cnt s s') ∧
  ((∀ k, ¬ free_run p k cnt) →
     palloc_get_multiple flags cnt s = if has flags PAL_ASSERT then Panic else Done (NULL, s)).
Proof.
  intros Hs Hc u p. pose proof (get_multiple_spec s flags cnt Hs Hc) as Hg. cbv zeta in Hg. fold u p in Hg.
  destruct Hg as [(idx & s' & Hf & Hmin & E & Ha)|[Hno E]].
  - split; [|intros H; by destruct (H idx)]. intros idx' Hf' Hmin'. assert (idx' = idx) as ->; [|by exists s'].
    destruct (Z.lt_trichotomy idx idx') as [Hlt|[->|Hlt]]; [by destruct (Hmin' idx)|done|by destruct (Hmin idx')].
  - split; [|done]. intros idx Hf. by destruct (Hno idx).
Qed.

(** C29 [palloc_free_multiple] gives back exactly the pages of an allocated group,
    and stops the kernel if one of them is not in use, as in a double free. *)
Theorem palloc_free_exact s a cnt :
  palloc_ok s → is_kpage a → 0 < cnt → a + cnt * PGSIZE ≤ 2 ^ 32 →
  ((∀ n, page_group a cnt n → palloc_used s n) →
     runs (palloc_free_multiple a cnt) s (λ _ s', palloc_ok s' ∧
       ∀ n, palloc_used s' n ↔ palloc_used s n ∧ ¬ page_group a cnt n)) ∧
  (∀ n, page_group a cnt n → ¬ palloc_used s n → palloc_free_multiple a cnt s = Panic).
Proof.
  intros Hs Ha Hc He. split; [by apply free_multiple_spec|]. intros n Hn Hno.
  unfold page_group in Hn. pose proof (owner_spec s a Hs Ha) as Ho. destruct (owner s a) as [u| | |] eqn:Eo; try (by destruct Ho).
  2: { unfold palloc_free_multiple, mbind, M_bind, assert, lift, ASSERT, get. rewrite pg_ofs_mod. destruct Ha as [Har ->].
       assert (a =? NULL = false) as -> by (apply Z.eqb_neq; unfold PHYS_BASE, NULL in *; lia).
       destruct (Z.eqb_spec cnt 0); [lia|]. cbn. by rewrite Eo. }
  rewrite (free_multiple_run s a cnt u) by done. cbv zeta. set (p := get_pool u s) in *. set (idx := pg_no a - pg_no (base p)) in *.
  pose proof (pool_ok_get u s Hs) as [Hw _ _]. fold p in Hw.
  assert (cnt < 2 ^ 20 ∧ 0 ≤ pg_no (base p) ∧ pg_no a < 2 ^ 20) as (? & ? & ?).
  { rewrite PGSIZE_eq in He. destruct Ha as [Ha _]. rewrite !pg_no_div. pose proof (po_base _ (pool_ok_get u s Hs)) as [Hb _]. fold p in Hb.
    unfold PHYS_BASE in *. Z.to_euclidean_division_equations; lia. }
  destruct (decide (idx + cnt ≤ bit_cnt (used_map p))) as [Hle|Hgt].
  - destruct (bitmap_all_spec (used_map p) idx cnt) as (r & -> & Hr); [done|lia..|]. destruct r; [|done]. exfalso. apply Hno.
    apply (palloc_used_get u). left. fold p. split; [lia|]. apply (proj1 Hr eq_refl). lia.
  - by rewrite bitmap_all_out by (done || lia).
Qed.

(** A machine with 2 MB of memory: 127 kernel pages and 127 user pages. *)
Definition demo_palloc : palloc :=
  match palloc_init (replicate 16 0) (replicate 16 0) (λ _, 1) 512 1000 with Done s => s | _ => Palloc (Pool (Bitmap 0 []) 0) (Pool (Bitmap 0 []) 0) (λ _, 0) end.

Lemma demo_words : Forall is_u32 (replicate 16 0).
Proof. by apply Forall_replicate. Qed.
Lemma demo_palloc_ok : palloc_ok demo_palloc ∧ ∀ n, ¬ palloc_used demo_palloc n.
Proof.
  destruct (palloc_init_spec (replicate 16 0) (replicate 16 0) (λ _, 1) 512 1000) as (s & E & H);
    [lia|lia|apply demo_words..|unfold zlen; simpl; lia|unfold zlen; simpl; lia|]. unfold demo_palloc. by rewrite E.
Qed.

Lemma palloc_init_ok_witness :
  ∃ s, palloc_init (replicate 16 0) (replicate 16 0) (λ _, 1) 512 1000 = Done s ∧ palloc_ok s ∧ ∀ n, ¬ palloc_used s n.
Proof.
  apply (palloc_init_ok (replicate 16 0) (replicate 16 0) (λ _, 1) 512 1000);
    [lia|lia|apply demo_words|apply demo_words|vm_compute; discriminate|vm_compute; discriminate].
Defined.

(** The first page of the kernel pool. *)
Lemma demo_first_free : free_run (kernel_pool demo_palloc) 0 2.
Proof.
  split; [lia|]. split; [vm_compute; discriminate|]. intros j Hj.
  assert (j = 0 ∨ j = 1) as [-> | ->] by lia; vm_compute; reflexivity.
Qed.
Lemma palloc_get_first_fit_witness :
  ∃ s', palloc_get_multiple PAL_ZERO 2 demo_palloc = Done (0xc0101000, s') ∧ allocated false true 0 2 demo_palloc s'.
Proof.
  destruct (palloc_get_first_fit demo_palloc PAL_ZERO 2 (proj1 demo_palloc_ok)) as [H _]; [lia|].
  apply (H 0 demo_first_free). intros k Hk [H0 _]. lia.
Defined.

(** Two pages are allocated, freed, and freed again. *)
Definition demo_taken : palloc :=
  match palloc_get_multiple 0 2 demo_palloc with Done (_, s) => s | _ => demo_palloc end.
Lemma demo_taken_ok : palloc_ok demo_taken ∧ ∀ n, palloc_used demo_taken n ↔ page_group 0xc0101000 2 n.
Proof.
  destruct (get_multiple_spec demo_palloc 0 2 (proj1 demo_palloc_ok)) as [(idx & s' & Hf & Hmin & E & [Ha Hu _])|[Hno _]];
    [lia| |by destruct (Hno 0); apply demo_first_free].
  assert (idx = 0) as ->.
  { destruct Hf as [? _]. destruct (decide (idx = 0)); [done|]. destruct (Hmin 0); [lia|apply demo_first_free]. }
  unfold demo_taken. rewrite E. split; [done|]. intros n. rewrite Hu. pose proof (proj2 demo_palloc_ok n). tauto.
Qed.
Lemma palloc_free_exact_witness :
  runs (palloc_free_multiple 0xc0101000 2) demo_taken (λ _ s', palloc_ok s') ∧
  palloc_free_multiple 0xc0101000 3 demo_taken = Panic.
Proof.
  split.
  - destruct (palloc_free_exact demo_taken 0xc0101000 2 (proj1 demo_taken_ok)) as [H _]; [split; vm_compute; done|lia|vm_compute; discriminate|].
    refine (runs_mono _ _ _ _ (H _) _); [intros n Hn; by apply demo_taken_ok|]. intros [] s' [Hs _]. exact Hs.
  - destruct (palloc_free_exact demo_taken 0xc0101000 3 (proj1 demo_taken_ok)) as [_ H]; [split; vm_compute; done|lia|vm_compute; discriminate|].
    apply (H (pg_no 0xc0101000 + 2)); [unfold page_group; lia|]. rewrite (proj2 demo_taken_ok). unfold page_group. lia.
Defined.
