(* ===== verification/Malloc.v ===== *)
(** * The block allocator (src/pintos/src/threads/malloc.c)

    Blocks of up to 1 kB come from arenas, pages divided into blocks of equal
    size that are kept in the free list of their descriptor; larger blocks are
    groups of pages of their own.  Pages come from the page allocator, of which
    only the interface [PageAllocator] is used.

    [arenas] are the arena headers in memory, by page address: a page that is
    not in the map does not carry [ARENA_MAGIC].  [hmem] is the memory outside
    headers and free blocks, byte by byte.  The lock of a descriptor only
    serialises callers and is left out.

    The theorems say that live blocks never overlap, are never lost, keep their
    contents, and that [free] undoes [malloc]. *)

From S2P Require Import Prelude KList KListOps Bitmap KHash Vaddr Palloc.

Record desc : Type := Desc { block_size : Z; blocks_per_arena : Z; free_list : list Z }.
(** [a_desc] is the index of the descriptor, none for a null pointer. *)
Record arena : Type := Arena { a_desc : option Z; free_cnt : Z }.
Record heap (S : Type) : Type := Heap {
  hpages : S;
  descs : list desc;
  arenas : gmap Z arena;
  hmem : Z → Z;
}.
Arguments Heap {S}.
Arguments hpages {S}.
Arguments descs {S}.
Arguments arenas {S}.
Arguments hmem {S}.

(** [sizeof (struct arena)]. *)
Definition ARENA_SIZE : Z := 12.

(** [malloc_init]: [for (block_size = 16; block_size < PGSIZE / 2; block_size *= 2)],
    after [cnt] rounds. *)
Fixpoint init_loop (fuel : nat) (cnt size : Z) : outcome (list desc) :=
  match fuel with
  | O => NoFuel
  | S fuel =>
      if size <? PGSIZE `div` 2 then
        ASSERT (cnt + 1 <=? 10);;
        ds ← init_loop fuel (cnt + 1) (u32 (size * 2));
        Done (Desc size ((PGSIZE - ARENA_SIZE) `div` size) [] :: ds)
      else Done []
  end.
Definition malloc_init : outcome (list desc) := init_loop 11 0 16.

(** [for (d = descs; d < descs + desc_cnt; d++) if (d->block_size >= size) break]. *)
Fixpoint find_desc (ds : list desc) (i size : Z) : option Z :=
  match ds with
  | [] => None
  | d :: ds => if size <=? block_size d then Some i else find_desc ds (i + 1) size
  end.

Section malloc.
Context {S : Type} `{!PageAllocator S}.
Abbreviation H := (heap S).

Definition set_hpages (p : S) (h : H) : H := Heap p (descs h) (arenas h) (hmem h).
Definition set_descs (d : list desc) (h : H) : H := Heap (hpages h) d (arenas h) (hmem h).
Definition set_arenas (a : gmap Z arena) (h : H) : H := Heap (hpages h) (descs h) a (hmem h).
Definition set_hmem (m : Z → Z) (h : H) : H := Heap (hpages h) (descs h) (arenas h) m.

Definition on_pages {A} (m : M S A) : M H A := λ h,
  match m (hpages h) with
  | Done (a, p) => Done (a, set_hpages p h)
  | Panic => Panic | Undef => Undef | NoFuel => NoFuel
  end.

Definition desc_at (i : Z) : M H desc := h ← get; lift (rd (descs h) i).
Definition set_free_list (i : Z) (l : list Z) : M H unit :=
  d ← desc_at i; h ← get;
  ds ← lift (wr (descs h) i (Desc (block_size d) (blocks_per_arena d) l));
  put (set_descs ds h).
(** The header at [a]; the assertion on its magic number fails if there is none. *)
Definition arena_at (a : Z) : M H arena := h ← get;
  match arenas h !! a with Some x => mret x | None => lift Panic end.
Definition set_arena (a : Z) (x : arena) : M H unit := modify (λ h, set_arenas (<[a := x]> (arenas h)) h).

Definition block_to_arena (b : Z) : M H Z :=
  let a := pg_round_down b in
  assert (negb (a =? NULL));;
  x ← arena_at a;
  (match a_desc x with
   | Some i => d ← desc_at i; assert (u32 (pg_ofs b - ARENA_SIZE) `mod` block_size d =? 0)
   | None => assert (pg_ofs b =? ARENA_SIZE)
   end);;
  mret a.

Definition arena_to_block (a idx : Z) : M H Z :=
  assert (negb (a =? NULL));;
  x ← arena_at a;
  match a_desc x with
  | Some i => d ← desc_at i; assert (idx <? blocks_per_arena d);; mret (u32 (a + ARENA_SIZE + idx * block_size d))
  | None => undefined
  end.

(** [for (i = 0; i < d->blocks_per_arena; i++)]: the blocks of an arena are added
    to, or removed from, the free list of descriptor [i]; [n] are left. *)
Fixpoint push_blocks (a i : Z) (n : nat) (idx : Z) : M H unit :=
  match n with
  | O => mret tt
  | Datatypes.S n =>
      b ← arena_to_block a idx;
      d ← desc_at i;
      set_free_list i (free_list d ++ [b]);;
      push_blocks a i n (idx + 1)
  end.
Fixpoint remove_blocks (a i : Z) (n : nat) (idx : Z) : M H unit :=
  match n with
  | O => mret tt
  | Datatypes.S n =>
      b ← arena_to_block a idx;
      d ← desc_at i;
      (if bool_decide (b ∈ free_list d) then set_free_list i (filter (λ x, x ≠ b) (free_list d)) else undefined);;
      remove_blocks a i n (idx + 1)
  end.

Definition malloc (size : Z) : M H Z :=
  if size =? 0 then mret NULL else
  ds ← gets descs;
  match find_desc ds 0 size with
  | None =>
      let page_cnt := DIV_ROUND_UP (u32 (size + ARENA_SIZE)) PGSIZE in
      a ← on_pages (get_pages page_cnt);
      if a =? NULL then mret NULL else
      set_arena a (Arena None page_cnt);;
      mret (u32 (a + ARENA_SIZE))
  | Some i =>
      d ← desc_at i;
      ok ← (if bool_decide (free_list d = []) then
              a ← on_pages (get_pages 1);
              if a =? NULL then mret false else
              set_arena a (Arena (Some i) (blocks_per_arena d));;
              push_blocks a i (Z.to_nat (blocks_per_arena d)) 0;;
              mret true
            else mret true);
      if ok : bool then
        d ← desc_at i;
        match free_list d with
        | [] => undefined
        | b :: l =>
            set_free_list i l;;
            a ← block_to_arena b;
            x ← arena_at a;
            set_arena a (Arena (a_desc x) (u32 (free_cnt x - 1)));;
            mret b
        end
      else mret NULL
  end.

(** [memset (p, c, n)] and [memcpy (dst, src, n)]. *)
Definition heap_set (p c n : Z) : M H unit :=
  modify (λ h, set_hmem (λ x, if (p <=? x) && (x <? p + n) then c else hmem h x) h).
Definition heap_copy (dst src n : Z) : M H unit :=
  modify (λ h, set_hmem (λ x, if (dst <=? x) && (x <? dst + n) then hmem h (src + (x - dst)) else hmem h x) h).

Definition calloc (a b : Z) : M H Z :=
  let size := u32 (a * b) in
  if (size <? a) || (size <? b) then mret NULL else
  p ← malloc size;
  (if negb (p =? NULL) then heap_set p 0 size else mret tt);;
  mret p.

(** [block_size (block)]. *)
Definition block_len (block : Z) : M H Z :=
  a ← block_to_arena block;
  x ← arena_at a;
  match a_desc x with
  | Some i => d ← desc_at i; mret (block_size d)
  | None => mret (u32 (PGSIZE * free_cnt x - pg_ofs block))
  end.

Definition free (p : Z) : M H unit :=
  if p =? NULL then mret tt else
  a ← block_to_arena p;
  x ← arena_at a;
  match a_desc x with
  | Some i =>
      d ← desc_at i;
      heap_set p 0xcc (block_size d);;
      set_free_list i (p :: free_list d);;
      set_arena a (Arena (a_desc x) (u32 (free_cnt x + 1)));;
      if blocks_per_arena d <=? u32 (free_cnt x + 1) then
        assert (u32 (free_cnt x + 1) =? blocks_per_arena d);;
        remove_blocks a i (Z.to_nat (blocks_per_arena d)) 0;;
        on_pages (free_pages a 1);;
        modify (λ h, set_arenas (delete a (arenas h)) h)
      else mret tt
  | None =>
      on_pages (free_pages a (free_cnt x));;
      modify (λ h, set_arenas (delete a (arenas h)) h)
  end.

Definition realloc (old_block new_size : Z) : M H Z :=
  if new_size =? 0 then free old_block;; mret NULL else
  new_block ← malloc new_size;
  (if negb (old_block =? NULL) && negb (new_block =? NULL) then
     old_size ← block_len old_block;
     let min_size := if new_size <? old_size then new_size else old_size in
     heap_copy new_block old_block min_size;;
     free old_block
   else mret tt);;
  mret new_block.
End malloc.

(** ** Blocks of an arena *)

Definition bs (i : Z) : Z := 2 ^ (4 + i).
Definition bpa (i : Z) : Z := 4084 `div` bs i.
Definition blk (a i j : Z) : Z := a + ARENA_SIZE + j * bs i.
Definition is_desc (i : Z) : Prop := 0 ≤ i < 7.

Lemma desc_sizes i : is_desc i → 16 ≤ bs i ≤ 1024 ∧ 3 ≤ bpa i ∧ bs i * bpa i ≤ 4084.
Proof.
  intros Hi. unfold is_desc in Hi.
  assert (i = 0 ∨ i = 1 ∨ i = 2 ∨ i = 3 ∨ i = 4 ∨ i = 5 ∨ i = 6) as H by lia.
  repeat destruct H as [-> |H]; subst; vm_compute; repeat split; discriminate.
Qed.
(** A block lies inside its page, after the header. *)
Lemma blk_bound i j : is_desc i → 0 ≤ j < bpa i → 0 ≤ j * bs i ∧ ARENA_SIZE + j * bs i + bs i ≤ 4096.
Proof.
  intros Hi Hj. destruct (desc_sizes i Hi) as (Hb & Hp & Hm). unfold ARENA_SIZE.
  assert ((j + 1) * bs i ≤ bpa i * bs i) by (apply Z.mul_le_mono_nonneg_r; lia). lia.
Qed.
Lemma blk_page a i j : is_kpage a → is_desc i → 0 ≤ j < bpa i →
  pg_round_down (blk a i j) = a ∧ pg_ofs (blk a i j) = ARENA_SIZE + j * bs i ∧ is_u32 (blk a i j).
Proof.
  intros [Hr Ha] Hi Hj. pose proof (blk_bound i j Hi Hj) as [H0 H1]. destruct (desc_sizes i Hi) as (Hb & _ & _).
  unfold blk, ARENA_SIZE, PHYS_BASE in *. set (o := j * bs i) in *.
  assert (is_u32 (a + 12 + o)) as Hu by (split; [lia|]; Z.to_euclidean_division_equations; lia).
  rewrite pg_round_down_spec, pg_ofs_mod by done. split_and!; [..|done]; Z.to_euclidean_division_equations; lia.
Qed.
Lemma blk_inj a i j j' : is_desc i → blk a i j = blk a i j' → j = j'.
Proof.
  intros Hi E. destruct (desc_sizes i Hi) as (Hb & _ & _). unfold blk in E.
  assert (j * bs i = j' * bs i) as E' by lia. apply Z.mul_cancel_r in E'; lia.
Qed.
Lemma big_page a : is_kpage a → pg_round_down (a + ARENA_SIZE) = a ∧ pg_ofs (a + ARENA_SIZE) = ARENA_SIZE ∧ is_u32 (a + ARENA_SIZE).
Proof.
  intros [Hr Ha]. unfold ARENA_SIZE, PHYS_BASE in *.
  assert (is_u32 (a + 12)) as Hu by (split; [lia|]; Z.to_euclidean_division_equations; lia).
  rewrite pg_round_down_spec, pg_ofs_mod by done. split_and!; [..|done]; Z.to_euclidean_division_equations; lia.
Qed.

(** The blocks of an arena in order. *)
Definition blocks (a i : Z) : list Z := blk a i <$> seqZ 0 (bpa i).
Lemma elem_of_blocks a i b : b ∈ blocks a i ↔ ∃ j, 0 ≤ j < bpa i ∧ b = blk a i j.
Proof.
  unfold blocks. rewrite list_elem_of_fmap. split; intros (j & H1 & H2).
  - apply elem_of_seqZ in H2. exists j. split; [lia|done].
  - exists j. split; [done|]. apply elem_of_seqZ. lia.
Qed.
Lemma NoDup_blocks a i : is_desc i → NoDup (blocks a i).
Proof. intros Hi. apply NoDup_fmap_2_strong; [|apply NoDup_seqZ]. intros j j' _ _. by apply blk_inj. Qed.
Lemma length_blocks a i : is_desc i → length (blocks a i) = Z.to_nat (bpa i).
Proof. intros. unfold blocks. by rewrite length_fmap, length_seqZ. Qed.

(** ** The invariant

    It concerns the free lists [F], by descriptor, and the arenas [A]. *)

(** The free blocks of the arena [a]. *)
Definition free_in (F : Z → list Z) (i a : Z) : list Z := filter (λ b, pg_round_down b = a) (F i).
(** The number of pages of an arena. *)
Definition arena_pages (x : arena) : Z := match a_desc x with Some _ => 1 | None => free_cnt x end.

(** A block that has been handed out and not freed. *)
Definition is_live (F : Z → list Z) (A : gmap Z arena) (b : Z) : Prop :=
  ∃ a x, A !! a = Some x ∧
    match a_desc x with
    | Some i => ∃ j, 0 ≤ j < bpa i ∧ b = blk a i j ∧ b ∉ F i
    | None => b = a + ARENA_SIZE
    end.
(** The number of bytes of a block. *)
Definition size_in (A : gmap Z arena) (b : Z) : Z :=
  match A !! pg_round_down b with
  | Some x => match a_desc x with Some i => bs i | None => PGSIZE * free_cnt x - ARENA_SIZE end
  | None => 0
  end.

Section invariant.
Context {S : Type} `{!PageAllocator S}.

Definition arena_ok (ex : option Z) (p : S) (F : Z → list Z) (a : Z) (x : arena) : Prop :=
  is_kpage a ∧ a + arena_pages x * PGSIZE ≤ 2 ^ 32 ∧ (∀ n, page_group a (arena_pages x) n → in_use p n) ∧
  match a_desc x with
  | Some i => is_desc i ∧ (free_cnt x < bpa i ∨ ex = Some a ∧ free_cnt x = bpa i) ∧ free_cnt x = zlen (free_in F i a)
  | None => 1 ≤ free_cnt x
  end.

(** [ex]: an arena all of whose blocks may be free, as happens inside [malloc]
    and [free]. *)
Record arenas_ok (ex : option Z) (p : S) (F : Z → list Z) (A : gmap Z arena) : Prop := {
  hk_alloc : alloc_ok p;
  hk_arena : ∀ a x, A !! a = Some x → arena_ok ex p F a x;
  hk_apart : ∀ a a' x x' n, A !! a = Some x → A !! a' = Some x' →
    page_group a (arena_pages x) n → page_group a' (arena_pages x') n → a = a';
  hk_free : ∀ i b, is_desc i → b ∈ F i → ∃ a j x, A !! a = Some x ∧ a_desc x = Some i ∧ 0 ≤ j < bpa i ∧ b = blk a i j;
  hk_nodup : ∀ i, is_desc i → NoDup (F i);
}.

Section facts.
Context (ex : option Z) (p : S) (F : Z → list Z) (A : gmap Z arena) (Hok : arenas_ok ex p F A).

(** A block belongs to the arena at the start of its page. *)
Lemma live_arena b : is_live F A b → ∃ x, A !! pg_round_down b = Some x ∧ arena_ok ex p F (pg_round_down b) x ∧
  match a_desc x with
  | Some i => is_desc i ∧ ∃ j, 0 ≤ j < bpa i ∧ b = blk (pg_round_down b) i j ∧ b ∉ F i
  | None => b = pg_round_down b + ARENA_SIZE
  end.
Proof using Hok.
  intros (a & x & Ha & Hb). pose proof (hk_arena _ _ _ _ Hok a x Ha) as Hax. pose proof Hax as (Hk & _ & _ & Hx).
  assert (pg_round_down b = a) as E.
  { destruct (a_desc x) as [i|].
    - destruct Hb as (j & Hj & -> & _). apply blk_page; [done|apply Hx|done].
    - subst b. by apply big_page. }
  rewrite E. exists x. split_and!; [done|done|]. destruct (a_desc x) as [i|]; [|done].
  split; [apply Hx|]. destruct Hb as (j & ? & ? & ?). by exists j.
Qed.
Lemma free_arena i b : is_desc i → b ∈ F i → ∃ j x, A !! pg_round_down b = Some x ∧ a_desc x = Some i ∧
  0 ≤ j < bpa i ∧ b = blk (pg_round_down b) i j ∧ is_kpage (pg_round_down b).
Proof using Hok.
  intros Hi Hb. destruct (hk_free _ _ _ _ Hok i b Hi Hb) as (a & j & x & Ha & Hd & Hj & E).
  destruct (hk_arena _ _ _ _ Hok a x Ha) as (Hk & _). destruct (blk_page a i j Hk Hi Hj) as (Ep & _ & _). rewrite <-E in Ep.
  rewrite Ep. by exists j, x.
Qed.

(** The bytes of a block are in its arena's pages. *)
Lemma live_extent b : is_live F A b → ∃ x, A !! pg_round_down b = Some x ∧
  pg_round_down b + ARENA_SIZE ≤ b ∧ 0 < size_in A b ∧ b + size_in A b ≤ pg_round_down b + PGSIZE * arena_pages x.
Proof using Hok.
  intros Hl. destruct (live_arena b Hl) as (x & Hx & (_ & _ & _ & Hax) & Hb). exists x. split; [done|].
  unfold size_in, arena_pages. rewrite Hx, PGSIZE_eq. destruct (a_desc x) as [i|].
  - destruct Hb as (Hi & j & Hj & E & _). pose proof (blk_bound i j Hi Hj). destruct (desc_sizes i Hi) as (? & _).
    unfold blk in E. lia.
  - unfold ARENA_SIZE in *. lia.
Qed.

Lemma page_of_byte a n x : is_kpage a → a ≤ x < a + PGSIZE * n → page_group a n (pg_no x).
Proof using Type.
  clear. intros [_ Ha] Hx. unfold page_group. rewrite PGSIZE_eq, !pg_no_div in *. Z.to_euclidean_division_equations; lia.
Qed.

(** Live blocks do not overlap. *)
Lemma live_apart b b' z : is_live F A b → is_live F A b' →
  b ≤ z < b + size_in A b → b' ≤ z < b' + size_in A b' → b = b'.
Proof using Hok.
  intros Hl Hl' Hz Hz'.
  destruct (live_extent b Hl) as (x & Hx & H1 & _ & H2). destruct (live_extent b' Hl') as (x' & Hx' & H1' & _ & H2').
  unfold ARENA_SIZE in *.
  assert (pg_round_down b = pg_round_down b') as E.
  { apply (hk_apart _ _ _ _ Hok _ _ x x' (pg_no z)); [done..| |]; (apply page_of_byte; [by eapply hk_arena|lia]). }
  destruct (live_arena b Hl) as (y & Hy & _ & Hb). destruct (live_arena b' Hl') as (y' & Hy' & _ & Hb').
  assert (y = x') as -> by congruence. assert (y' = x') as -> by congruence.
  unfold size_in in Hz, Hz'. rewrite E, Hx' in Hz. rewrite Hx' in Hz'. rewrite E in Hb.
  destruct (a_desc x') as [i|]; [|congruence].
  destruct Hb as (Hi & j & Hj & Eb & _), Hb' as (_ & j' & Hj' & Eb' & _). unfold blk in Eb, Eb'.
  assert (j = j') as <-; [|congruence]. destruct (desc_sizes i Hi) as (Hbs & _ & _).
  destruct (Z.lt_trichotomy j j') as [Hlt|[?|Hlt]]; [|done|].
  - assert ((j + 1) * bs i ≤ j' * bs i) by (apply Z.mul_le_mono_nonneg_r; lia). lia.
  - assert ((j' + 1) * bs i ≤ j * bs i) by (apply Z.mul_le_mono_nonneg_r; lia). lia.
Qed.

(** All blocks of an arena whose count says so are free. *)
Lemma all_free a x i : A !! a = Some x → a_desc x = Some i → free_cnt x = bpa i → ∀ b, b ∈ blocks a i → b ∈ F i.
Proof using Hok.
  intros Ha Hd Hc b Hb. destruct (hk_arena _ _ _ _ Hok a x Ha) as (Hk & _ & _ & Hx). rewrite Hd in Hx. destruct Hx as (Hi & _ & Hlen).
  assert (free_in F i a ⊆+ blocks a i) as Hsub.
  { apply NoDup_submseteq; [apply list.NoDup_filter, (hk_nodup _ _ _ _ Hok i Hi)|].
    intros y [Ey Hy]%list_elem_of_filter. destruct (free_arena i y Hi Hy) as (j & _ & _ & _ & Hj & E & _).
    apply elem_of_blocks. exists j. by rewrite Ey in E. }
  apply submseteq_length_Permutation in Hsub.
  - rewrite <-Hsub in Hb. by apply list_elem_of_filter in Hb as [_ ?].
  - rewrite length_blocks by done. unfold zlen in Hlen. lia.
Qed.
End facts.
End invariant.

(** Changing one of the free lists. *)
Definition upd (F : Z → list Z) (i : Z) (l : list Z) (k : Z) : list Z := if k =? i then l else F k.
Lemma upd_eq F i l : upd F i l i = l.
Proof. unfold upd. by rewrite Z.eqb_refl. Qed.
Lemma upd_ne F i l k : k ≠ i → upd F i l k = F k.
Proof. intros. unfold upd. by destruct (Z.eqb_spec k i). Qed.
Lemma free_in_ne F i l k a : k ≠ i → free_in (upd F i l) k a = free_in F k a.
Proof. intros. unfold free_in. by rewrite upd_ne. Qed.
Lemma free_in_eq F i l a : free_in (upd F i l) i a = filter (λ b, pg_round_down b = a) l.
Proof. unfold free_in. by rewrite upd_eq. Qed.

(** ** How the lists and arenas change *)

Section changes.
Context {S : Type} `{!PageAllocator S}.
Implicit Types (p : S) (F : Z → list Z) (A : gmap Z arena).

Lemma pages_of i c c' : arena_pages (Arena (Some i) c) = arena_pages (Arena (Some i) c').
Proof using Type. done. Qed.

(** Only the free count of the small arena [a] changes. *)
Lemma size_recount A a i x c y : A !! a = Some x → a_desc x = Some i → size_in (<[a := Arena (Some i) c]> A) y = size_in A y.
Proof using Type.
  intros Ha Hd. unfold size_in. destruct (decide (pg_round_down y = a)) as [->|].
  - by rewrite lookup_insert_eq, Ha, Hd.
  - by rewrite lookup_insert_ne.
Qed.
Lemma live_recount F F' A a i x c y : A !! a = Some x → a_desc x = Some i → (∀ k, k ≠ i → F' k = F k) →
  is_live F' (<[a := Arena (Some i) c]> A) y ↔ is_live F' A y.
Proof using Type.
  intros Ha Hd HF. split; intros (a' & x' & Ha' & Hy).
  - destruct (decide (a' = a)) as [->|]; [|rewrite lookup_insert_ne in Ha' by done; by exists a', x'].
    rewrite lookup_insert_eq in Ha'. injection Ha' as <-. exists a, x. split; [done|]. by rewrite Hd.
  - destruct (decide (a' = a)) as [->|]; [|exists a', x'; by rewrite lookup_insert_ne].
    exists a, (Arena (Some i) c). rewrite lookup_insert_eq. split; [done|]. simpl. assert (x' = x) as -> by congruence. by rewrite Hd in Hy.
Qed.

Section one_block.
Context (ex : option Z) (p : S) (F : Z → list Z) (A : gmap Z arena) (Hok : arenas_ok ex p F A).
Context (i b : Z) (x : arena) (Hi : is_desc i) (Ha : A !! pg_round_down b = Some x) (Hd : a_desc x = Some i).
Context (Hex : ∀ a0, ex = Some a0 → a0 = pg_round_down b).

(** The list of descriptor [i] becomes [l] and the count of the block's arena [c]. *)
Lemma recount_ok ex' l c :
  (∀ a, a ≠ pg_round_down b → filter (λ y, pg_round_down y = a) l = free_in F i a) →
  c = zlen (filter (λ y, pg_round_down y = pg_round_down b) l) →
  (c < bpa i ∨ ex' = Some (pg_round_down b) ∧ c = bpa i) → NoDup l →
  (∀ y, y ∈ l → y ∈ F i ∨ y = b ∧ ∃ j, 0 ≤ j < bpa i ∧ b = blk (pg_round_down b) i j) →
  arenas_ok ex' p (upd F i l) (<[pg_round_down b := Arena (Some i) c]> A).
Proof using Hok Hi Ha Hd Hex.
  intros Hother Hc Hlt Hnd Hl. destruct (hk_arena _ _ _ _ Hok _ _ Ha) as (Hk & H32 & Hu & _).
  assert (arena_pages (Arena (Some i) c) = arena_pages x) as Epg by (unfold arena_pages; simpl; by rewrite Hd).
  assert (∀ a y, <[pg_round_down b := Arena (Some i) c]> A !! a = Some y → ∃ y0, A !! a = Some y0 ∧ arena_pages y = arena_pages y0) as Hback.
  { intros a y. rewrite lookup_insert_Some. intros [[<- <-]|[_ ?]]; eauto. }
  split.
  - apply Hok.
  - intros a y. rewrite lookup_insert_Some. intros [[<- <-]|[Hne Hy]].
    + unfold arena_ok. rewrite Epg. simpl. rewrite free_in_eq. by split_and!.
    + destruct (hk_arena _ _ _ _ Hok _ _ Hy) as (Hk' & H32' & Hu' & Hx'). split_and!; [done..|]. destruct (a_desc y) as [i'|]; [|done].
      destruct Hx' as (Hi' & Hb' & Hc'). split_and!; [done| |].
      * destruct Hb' as [|[E _]]; [by left|]. by destruct Hne; rewrite (Hex _ E).
      * rewrite Hc'. destruct (decide (i' = i)) as [->|]; [by rewrite free_in_eq, Hother|by rewrite free_in_ne].
  - intros a a' y y' n (y0 & Hy0 & E0)%Hback (y0' & Hy0' & E0')%Hback. rewrite E0, E0'. by eapply (hk_apart _ _ _ _ Hok).
  - intros k y Hk' Hy. assert (∀ a j z, A !! a = Some z → a_desc z = Some k → 0 ≤ j < bpa k → y = blk a k j →
      ∃ a j z, <[pg_round_down b := Arena (Some i) c]> A !! a = Some z ∧ a_desc z = Some k ∧ 0 ≤ j < bpa k ∧ y = blk a k j) as Hkeep.
    { intros a j z Hz Hdz Hj E. destruct (decide (a = pg_round_down b)) as [->|].
      - exists (pg_round_down b), j, (Arena (Some i) c). rewrite lookup_insert_eq. simpl. split_and!; [done|congruence|lia..|done].
      - exists a, j, z. by rewrite lookup_insert_ne. }
    assert (y ∈ F k ∨ k = i ∧ y = b ∧ ∃ j, 0 ≤ j < bpa i ∧ b = blk (pg_round_down b) i j) as [Hin|(-> & -> & j & Hj & E)].
    { destruct (decide (k = i)) as [->|]; [rewrite upd_eq in Hy; destruct (Hl y Hy) as [|]; tauto|rewrite upd_ne in Hy by done; by left]. }
    + destruct (hk_free _ _ _ _ Hok k y Hk' Hin) as (a & j & z & ? & ? & ? & ?). by apply (Hkeep a j z).
    + by apply (Hkeep (pg_round_down b) j x).
  - intros k Hk'. destruct (decide (k = i)) as [->|]; [by rewrite upd_eq|rewrite upd_ne by done; by apply Hok].
Qed.
End one_block.

(** A block is taken from the front of a free list. *)
Lemma take_ok ex p F A i b l x : arenas_ok ex p F A → is_desc i → F i = b :: l → A !! pg_round_down b = Some x → a_desc x = Some i →
  (∀ a0, ex = Some a0 → a0 = pg_round_down b) →
  let F' := upd F i l in let A' := <[pg_round_down b := Arena (Some i) (free_cnt x - 1)]> A in
  arenas_ok None p F' A' ∧ 1 ≤ free_cnt x ≤ bpa i ∧ ¬ is_live F A b ∧
  (∀ y, is_live F' A' y ↔ is_live F A y ∨ y = b) ∧ (∀ y, size_in A' y = size_in A y).
Proof using Type.
  intros Hok Hi HF Ha Hd Hex F' A'. pose proof (hk_nodup _ _ _ _ Hok i Hi) as Hnd. rewrite HF in Hnd.
  apply list.NoDup_cons in Hnd as [Hnin Hnd]. destruct (hk_arena _ _ _ _ Hok _ _ Ha) as (Hk & _ & _ & Hx). rewrite Hd in Hx.
  destruct Hx as (_ & Hb & Hc). unfold free_in in Hc. rewrite HF, filter_cons_True, zlen_cons in Hc by done.
  pose proof (zlen_nonneg (filter (λ y, pg_round_down y = pg_round_down b) l)).
  assert (b ∈ F i) as Hin by (rewrite HF; set_solver).
  destruct (free_arena _ _ _ _ Hok i b Hi Hin) as (j & x' & _ & _ & Hj & E & _).
  split_and!.
  - eapply recount_ok; [done..| |lia|lia|done|].
    + intros a Hne. unfold free_in. by rewrite HF, filter_cons_False.
    + intros y Hy. left. rewrite HF. set_solver.
  - lia.
  - lia.
  - intros Hl. destruct (live_arena _ _ _ _ Hok b Hl) as (x2 & Hx2 & _ & H2). assert (x2 = x) as -> by congruence.
    rewrite Hd in H2. destruct H2 as (_ & _ & _ & _ & ?). done.
  - intros y. unfold A'. rewrite (live_recount F F' A (pg_round_down b) i x) by (done || intros; by apply upd_ne).
    assert (∀ k, y ∈ F' k ↔ y ∈ F k ∧ (k = i → y ≠ b)) as Hy.
    { intros k. unfold F'. destruct (decide (k = i)) as [->|]; [rewrite upd_eq, HF|rewrite upd_ne by done; naive_solver].
      rewrite elem_of_cons. split; [|naive_solver]. intros Hyl. split; [by right|]. intros _ ->. done. }
    split.
    + intros (a & z & Hz & Hyz). destruct (decide (y = b)) as [->|Hne]; [by right|left]. exists a, z. split; [done|].
      destruct (a_desc z) as [k|]; [|done]. destruct Hyz as (j' & ? & ? & Hno). exists j'. split_and!; [lia..|done|].
      intros Hyk. apply Hno, Hy. naive_solver.
    + intros [(a & z & Hz & Hyz)| ->].
      * exists a, z. split; [done|]. destruct (a_desc z) as [k|]; [|done]. destruct Hyz as (j' & ? & ? & Hno). exists j'. split_and!; [lia..|done|].
        intros [? _]%Hy. done.
      * exists (pg_round_down b), x. split; [done|]. rewrite Hd. exists j. split_and!; [lia..|done|]. unfold F'. by rewrite upd_eq.
  - intros y. by apply size_recount with x.
Qed.

(** A block is put back. *)
Lemma give_ok p F A i b x : arenas_ok None p F A → is_live F A b → A !! pg_round_down b = Some x → a_desc x = Some i →
  let F' := upd F i (b :: F i) in let A' := <[pg_round_down b := Arena (Some i) (free_cnt x + 1)]> A in
  arenas_ok (Some (pg_round_down b)) p F' A' ∧ is_desc i ∧ 0 ≤ free_cnt x < bpa i ∧
  (∀ y, is_live F' A' y ↔ is_live F A y ∧ y ≠ b) ∧ (∀ y, size_in A' y = size_in A y).
Proof using Type.
  intros Hok Hl Ha Hd F' A'. destruct (live_arena _ _ _ _ Hok b Hl) as (x' & Hx' & (_ & _ & _ & Hax) & Hb).
  assert (x' = x) as -> by congruence. rewrite Hd in Hb, Hax. destruct Hb as (Hi & j & Hj & E & Hnin).
  destruct Hax as (_ & [Hlt|[? _]] & Hc); [|done]. pose proof (zlen_nonneg (free_in F i (pg_round_down b))).
  split_and!; [|apply Hi|lia|lia| |].
  - eapply recount_ok; [done..| | | |constructor; [done|by apply Hok]|].
    + intros a Hne. unfold free_in. by rewrite filter_cons_False.
    + rewrite filter_cons_True, zlen_cons by done. unfold free_in in Hc. lia.
    + destruct (decide (free_cnt x + 1 < bpa i)); [by left|right]. split; [done|lia].
    + intros y [->|Hy]%elem_of_cons; [right|by left]. split; [done|]. by exists j.
  - intros y. unfold A'. rewrite (live_recount F F' A (pg_round_down b) i x) by (done || intros; by apply upd_ne).
    assert (∀ k, y ∈ F' k ↔ y ∈ F k ∨ k = i ∧ y = b) as Hy.
    { intros k. unfold F'. destruct (decide (k = i)) as [->|]; [rewrite upd_eq, elem_of_cons|rewrite upd_ne by done]; naive_solver. }
    split.
    + intros (a & z & Hz & Hyz). split.
      * exists a, z. split; [done|]. destruct (a_desc z) as [k|]; [|done]. destruct Hyz as (j' & ? & ? & Hno).
        exists j'. split_and!; [lia..|done|]. intros Hyk. apply Hno, Hy. by left.
      * intros ->. assert (is_live F' A b) as Hl' by (by exists a, z). destruct Hl' as (a1 & z1 & Hz1 & H1).
        destruct (live_arena _ _ _ _ Hok b Hl) as (x1 & Hx1 & _ & _).
        assert (a1 = pg_round_down b) as ->.
        { destruct (hk_arena _ _ _ _ Hok a1 z1 Hz1) as (Hk1 & _ & _ & Hax1). destruct (a_desc z1) as [k1|].
          - destruct H1 as (j1 & ? & Eb & _). rewrite Eb. symmetry. apply blk_page; [done|apply Hax1|done].
          - rewrite H1. symmetry. by apply big_page. }
        assert (z1 = x) as -> by congruence. rewrite Hd in H1. destruct H1 as (_ & _ & _ & Hno). apply Hno, Hy. by right.
    + intros [(a & z & Hz & Hyz) Hne]. exists a, z. split; [done|]. destruct (a_desc z) as [k|]; [|done].
      destruct Hyz as (j' & ? & ? & Hno). exists j'. split_and!; [lia..|done|]. intros [?|[_ ?]]%Hy; done.
  - intros y. by apply size_recount with x.
Qed.

(** Without an exception after all. *)
Lemma no_exception p F A a x i : arenas_ok (Some a) p F A → A !! a = Some x → a_desc x = Some i → free_cnt x < bpa i →
  arenas_ok None p F A.
Proof using Type.
  intros [H1 H2 H3 H4 H5] Ha Hd Hlt. split; try done. intros a' x' Ha'. destruct (H2 a' x' Ha') as (A1 & A2 & A3 & A4).
  split_and!; [done..|]. destruct (a_desc x') as [k|] eqn:Hk; [|done]. destruct A4 as (B1 & B2 & B3). split_and!; [done| |done].
  destruct B2 as [|[[= <-] Hc]]; [by left|]. assert (x' = x) as -> by congruence. left. congruence.
Qed.

(** Pages given to an arena of their own. *)
Record fresh_pages p p' (A : gmap Z arena) (a n : Z) : Prop := {
  fp_alloc : alloc_ok p';
  fp_page : is_kpage a;
  fp_bound : 0 < n ∧ a + n * PGSIZE ≤ 2 ^ 32;
  fp_free : ∀ k, page_group a n k → ¬ in_use p k;
  fp_use : ∀ k, in_use p' k ↔ in_use p k ∨ page_group a n k;
}.
Lemma fresh_arena ex p p' F A a n : arenas_ok ex p F A → fresh_pages p p' A a n → A !! a = None ∧
  ∀ a' x' k, A !! a' = Some x' → page_group a' (arena_pages x') k → ¬ page_group a n k.
Proof using Type.
  intros Hok Hf. assert (∀ a' x' k, A !! a' = Some x' → page_group a' (arena_pages x') k → ¬ page_group a n k) as Hap.
  { intros a' x' k Ha' Hk Hk'. destruct (hk_arena _ _ _ _ Hok a' x' Ha') as (_ & _ & Hu & _). by apply (fp_free _ _ _ _ _ Hf k Hk'), Hu. }
  split; [|done]. destruct (A !! a) as [x|] eqn:E; [|done]. destruct (hk_arena _ _ _ _ Hok a x E) as (_ & _ & _ & Hx).
  destruct (Hap a x (pg_no a) E); unfold page_group; [|pose proof (fp_bound _ _ _ _ _ Hf); lia].
  unfold arena_pages. destruct (a_desc x); lia.
Qed.

(** Adding an arena [x] on fresh pages; the free lists [F'] agree with it. *)
Lemma add_arena_ok ex p p' F F' A a x : arenas_ok None p F A → fresh_pages p p' A a (arena_pages x) → arena_ok ex p' F' a x →
  (∀ k b, is_desc k → b ∈ F' k → b ∈ F k ∨ a_desc x = Some k ∧ ∃ j, 0 ≤ j < bpa k ∧ b = blk a k j) →
  (∀ k a', is_desc k → a' ≠ a → free_in F' k a' = free_in F k a') → (∀ k, is_desc k → NoDup (F' k)) →
  arenas_ok ex p' F' (<[a := x]> A).
Proof using Type.
  intros Hok Hf Hx HF Hin Hnd. destruct (fresh_arena _ _ _ _ _ _ _ Hok Hf) as [Hnone Hap]. split.
  - apply Hf.
  - intros a' x'. rewrite lookup_insert_Some. intros [[<- <-]|[Hne Ha']]; [done|].
    destruct (hk_arena _ _ _ _ Hok a' x' Ha') as (A1 & A2 & A3 & A4). split_and!; [done..|intros k Hk; apply Hf; left; by apply A3|].
    destruct (a_desc x') as [k|]; [|done]. destruct A4 as (B1 & [B2|[? _]] & B3); [|done]. split_and!; [done|by left|].
    by rewrite Hin.
  - intros a1 a2 x1 x2 k. rewrite !lookup_insert_Some. intros [[<- <-]|[Hn1 H1]] [[<- <-]|[Hn2 H2]] G1 G2; [done| | |by eapply (hk_apart _ _ _ _ Hok)].
    + by destruct (Hap a2 x2 k).
    + by destruct (Hap a1 x1 k).
  - intros k b Hk Hb. destruct (HF k b Hk Hb) as [Hb'|(Hd & j & Hj & E)].
    + destruct (hk_free _ _ _ _ Hok k b Hk Hb') as (a' & j & x' & Ha' & ?). exists a', j, x'. rewrite lookup_insert_ne; [done|]. congruence.
    + exists a, j, x. by rewrite lookup_insert_eq.
  - done.
Qed.
Lemma size_add A a x y : pg_round_down y ≠ a → size_in (<[a := x]> A) y = size_in A y.
Proof using Type. intros H. unfold size_in. by rewrite lookup_insert_ne. Qed.
Lemma size_delete A a y : pg_round_down y ≠ a → size_in (delete a A) y = size_in A y.
Proof using Type. intros H. unfold size_in. by rewrite lookup_delete_ne. Qed.
(** A live block is not on fresh pages. *)
Lemma live_not_fresh ex p F A a y : arenas_ok ex p F A → A !! a = None → is_live F A y → pg_round_down y ≠ a.
Proof using Type. intros Hok Hn Hl E. destruct (live_arena _ _ _ _ Hok y Hl) as (x & Hx & _). congruence. Qed.

(** A page becomes an arena of descriptor [i], whose free list was empty. *)
Lemma small_arena_ok p p' F A a i : arenas_ok None p F A → fresh_pages p p' A a 1 → is_desc i → F i = [] →
  let F' := upd F i (blocks a i) in let A' := <[a := Arena (Some i) (bpa i)]> A in
  arenas_ok (Some a) p' F' A' ∧ (∀ y, is_live F' A' y ↔ is_live F A y) ∧ (∀ y, is_live F A y → size_in A' y = size_in A y).
Proof using Type.
  intros Hok Hf Hi HF F' A'. destruct (fresh_arena _ _ _ _ _ _ _ Hok Hf) as [Hnone _].
  pose proof (fp_page _ _ _ _ _ Hf) as Hk. pose proof (fp_bound _ _ _ _ _ Hf) as Hb.
  assert (∀ y, y ∈ blocks a i → pg_round_down y = a) as Hpg.
  { intros y (j & Hj & ->)%elem_of_blocks. by apply blk_page. }
  split_and!.
  - eapply add_arena_ok; [done|done| | | |].
    + split_and!; [done|unfold arena_pages; cbn [a_desc free_cnt]; lia|intros n Hn; apply Hf; by right|]. simpl. split_and!; [apply Hi..|by right|].
      unfold F'. rewrite free_in_eq, filter_all by done. unfold zlen. rewrite length_blocks by done.
      destruct (desc_sizes i Hi). lia.
    + intros k b Hkd. unfold F'. destruct (decide (k = i)) as [->|]; [rewrite upd_eq|rewrite upd_ne by done; by left].
      intros (j & Hj & ->)%elem_of_blocks. right. split; [done|]. by exists j.
    + intros k a' _ Hne. unfold F'. destruct (decide (k = i)) as [->|]; [|by rewrite free_in_ne].
      rewrite free_in_eq. unfold free_in. rewrite HF. apply filter_none. intros y Hy. rewrite (Hpg y Hy). done.
    + intros k Hkd. unfold F'. destruct (decide (k = i)) as [->|]; [rewrite upd_eq; by apply NoDup_blocks|].
      rewrite upd_ne by done. by apply Hok.
  - intros y. split.
    + intros (a' & x & Hx & Hy). unfold A' in Hx. rewrite lookup_insert_Some in Hx. destruct Hx as [[<- <-]|[Hne Hx]].
      { destruct Hy as (j & Hj & -> & Hno). destruct Hno. unfold F'. rewrite upd_eq. apply elem_of_blocks. by exists j. }
      exists a', x. split; [done|]. destruct (a_desc x) as [k|]; [|done]. destruct Hy as (j & Hj & E & Hno). exists j. split_and!; [lia..|done|].
      destruct (decide (k = i)) as [->|]; [rewrite HF; set_solver|]. unfold F' in Hno. by rewrite upd_ne in Hno.
    + intros Hl. pose proof (live_not_fresh _ _ _ _ _ _ Hok Hnone Hl) as Hne. destruct (live_arena _ _ _ _ Hok y Hl) as (x & Hx & _ & Hy).
      exists (pg_round_down y), x. unfold A'. rewrite lookup_insert_ne by done. split; [done|]. destruct (a_desc x) as [k|]; [|done].
      destruct Hy as (_ & j & Hj & E & Hno). exists j. split_and!; [lia..|done|]. unfold F'.
      destruct (decide (k = i)) as [->|]; [|by rewrite upd_ne]. rewrite upd_eq. intros Hb'. by apply Hne, Hpg.
  - intros y Hl. apply size_add. by eapply live_not_fresh.
Qed.

(** Pages become a block of their own. *)
Lemma big_arena_ok p p' F A a n : arenas_ok None p F A → fresh_pages p p' A a n →
  let A' := <[a := Arena None n]> A in
  arenas_ok None p' F A' ∧ (∀ y, is_live F A' y ↔ is_live F A y ∨ y = a + ARENA_SIZE) ∧ ¬ is_live F A (a + ARENA_SIZE) ∧
  (∀ y, is_live F A y → size_in A' y = size_in A y) ∧ size_in A' (a + ARENA_SIZE) = PGSIZE * n - ARENA_SIZE.
Proof using Type.
  intros Hok Hf A'. destruct (fresh_arena _ _ _ _ _ _ _ Hok Hf) as [Hnone _].
  pose proof (fp_page _ _ _ _ _ Hf) as Hk. pose proof (fp_bound _ _ _ _ _ Hf) as Hb. pose proof (big_page a Hk) as (Ep & _ & _).
  split_and!.
  - eapply add_arena_ok; [done|done| | | |].
    + split_and!; [done|unfold arena_pages; cbn [a_desc free_cnt]; lia|intros k Hk'; apply Hf; by right|]. simpl. lia.
    + intros k b Hkd. by left.
    + done.
    + apply Hok.
  - intros y. split.
    + intros (a' & x & Hx & Hy). unfold A' in Hx. rewrite lookup_insert_Some in Hx. destruct Hx as [[<- <-]|[Hne Hx]]; [by right|].
      left. by exists a', x.
    + intros [(a' & x & Hx & Hy)| ->].
      * exists a', x. unfold A'. rewrite lookup_insert_ne by congruence. done.
      * exists a, (Arena None n). unfold A'. by rewrite lookup_insert_eq.
  - intros Hl. by apply (live_not_fresh _ _ _ _ _ _ Hok Hnone Hl).
  - intros y Hl. apply size_add. by eapply live_not_fresh.
  - unfold size_in, A'. by rewrite Ep, lookup_insert_eq.
Qed.

(** An arena without live blocks is given up, and its free blocks with it. *)
Lemma drop_arena_ok ex p p' F F' A a x : arenas_ok ex p F A → (∀ a0, ex = Some a0 → a0 = a) → A !! a = Some x →
  alloc_ok p' → (∀ n, in_use p' n ↔ in_use p n ∧ ¬ page_group a (arena_pages x) n) →
  (∀ k, is_desc k → F' k = filter (λ b, pg_round_down b ≠ a) (F k)) →
  arenas_ok None p' F' (delete a A) ∧ (∀ y, is_live F' (delete a A) y ↔ is_live F A y ∧ pg_round_down y ≠ a) ∧
  (∀ y, pg_round_down y ≠ a → size_in (delete a A) y = size_in A y).
Proof using Type.
  intros Hok Hex Ha Hp Hu HF. split_and!; [split| |].
  - done.
  - intros a' x' [Hne Ha']%lookup_delete_Some. destruct (hk_arena _ _ _ _ Hok a' x' Ha') as (A1 & A2 & A3 & A4). split_and!; [done..| |].
    + intros n Hn. apply Hu. split; [by apply A3|]. intros Hn'. apply Hne. by apply (hk_apart _ _ _ _ Hok a a' x x' n).
    + destruct (a_desc x') as [k|]; [|done]. destruct A4 as (B1 & B2 & B3). split_and!; [done| |].
      * destruct B2 as [|[E _]]; [by left|]. by destruct Hne; rewrite (Hex _ E).
      * rewrite B3. unfold free_in. rewrite HF, list_filter_filter by done. f_equal. apply list_filter_iff. intros b. split; [intros ->; by split|tauto].
  - intros a1 a2 x1 x2 n [_ H1]%lookup_delete_Some [_ H2]%lookup_delete_Some. by apply (hk_apart _ _ _ _ Hok).
  - intros k b Hk. rewrite HF, list_elem_of_filter by done. intros [Hne Hb]. destruct (free_arena _ _ _ _ Hok k b Hk Hb) as (j & x' & ? & ? & ? & ? & _).
    exists (pg_round_down b), j, x'. by rewrite lookup_delete_ne.
  - intros k Hk. rewrite HF by done. by apply list.NoDup_filter, Hok.
  - intros y. assert (∀ k, is_desc k → pg_round_down y ≠ a → y ∈ F' k ↔ y ∈ F k) as HF'.
    { intros k Hk Hne. rewrite HF, list_elem_of_filter by done. tauto. }
    assert (∀ a' x', A !! a' = Some x' → ∀ k, a_desc x' = Some k → is_desc k) as Hdk.
    { intros a' x' Ha' k E. destruct (hk_arena _ _ _ _ Hok a' x' Ha') as (_ & _ & _ & Hx'). rewrite E in Hx'. apply Hx'. }
    split.
    + intros (a' & x' & [Hne Ha']%lookup_delete_Some & Hy). assert (pg_round_down y = a') as Ey.
      { destruct (hk_arena _ _ _ _ Hok a' x' Ha') as (Hk & _ & _ & Hx'). destruct (a_desc x') as [k|].
        - destruct Hy as (j & Hj & -> & _). apply blk_page; [done|apply Hx'|done].
        - subst y. by apply big_page. }
      split; [|congruence]. exists a', x'. split; [done|]. destruct (a_desc x') as [k|] eqn:Ek; [|done].
      destruct Hy as (j & Hj & E & Hno). exists j. split_and!; [lia..|done|]. rewrite <-HF'; [done|by eapply Hdk|congruence].
    + intros [Hl Hne]. destruct (live_arena _ _ _ _ Hok y Hl) as (x' & Hx' & _ & Hy). exists (pg_round_down y), x'.
      rewrite lookup_delete_ne by done. split; [done|]. destruct (a_desc x') as [k|]; [|done]. destruct Hy as (Hk & j & Hj & E & Hno).
      exists j. split_and!; [lia..|done|]. by rewrite HF'.
  - intros y. apply size_delete.
Qed.
End changes.
