(* ===== verification/MallocSpec.v ===== *)
(** * Correctness of the block allocator

    What [malloc], [calloc], [realloc] and [free] of Malloc.v do to the live
    blocks and to memory, over any page allocator that keeps its laws. *)

From S2P Require Import Prelude KList KListOps Bitmap KHash Vaddr Palloc Malloc.

Section spec.
Context {S : Type} `{!PageAllocator S, !PageAllocatorLaws S}.
Implicit Types (h : heap S) (F : Z → list Z).

(** ** The state *)

(** The descriptors have the free lists [F]. *)
Definition rep h F : Prop :=
  zlen (descs h) = 7 ∧ ∀ i, is_desc i → (descs h)@[i] = Some (Desc (bs i) (bpa i) (F i)).
(** The free list of descriptor [i]. *)
Definition fl h (i : Z) : list Z := match (descs h)@[i] with Some d => free_list d | None => [] end.
Definition heap_ok h : Prop := rep h (fl h) ∧ arenas_ok None (hpages h) (fl h) (arenas h).
(** The block at [b] has been handed out. *)
Definition live h (b : Z) : Prop := is_live (fl h) (arenas h) b.
(** The number of bytes at [b]. *)
Definition bytes h (b : Z) : Z := size_in (arenas h) b.
(** [z] is one of the bytes of the block [b]. *)
Definition in_block h (b z : Z) : Prop := b ≤ z < b + bytes h b.

Lemma live_ext ex (p : S) F F' A b : arenas_ok ex p F A → (∀ i, is_desc i → F' i = F i) → is_live F' A b ↔ is_live F A b.
Proof using Type.
  intros Hok HF. assert (∀ a x i, A !! a = Some x → a_desc x = Some i → F' i = F i) as HF'.
  { intros a x i Ha Hd. destruct (hk_arena _ _ _ _ Hok a x Ha) as (_ & _ & _ & Hx). rewrite Hd in Hx. apply HF, Hx. }
  split; intros (a & x & Ha & Hb); exists a, x; (split; [done|]); destruct (a_desc x) as [i|] eqn:E; try done;
    destruct Hb as (j & Hj & Hb & Hn); exists j; by rewrite (HF' a x i) in * by done.
Qed.
Lemma arenas_ext ex (p : S) F F' A : arenas_ok ex p F A → (∀ i, is_desc i → F' i = F i) → arenas_ok ex p F' A.
Proof using Type.
  intros [H1 H2 H3 H4 H5] HF. split; [done| |done| |].
  - intros a x Ha. destruct (H2 a x Ha) as (A1 & A2 & A3 & A4). split_and!; [done..|]. destruct (a_desc x) as [i|]; [|done].
    destruct A4 as (Hi & ? & ?). unfold free_in in *. by rewrite HF.
  - intros i b Hi. rewrite HF by done. by apply H4.
  - intros i Hi. rewrite HF by done. by apply H5.
Qed.
Lemma rep_fl h F i : rep h F → is_desc i → fl h i = F i.
Proof using Type. intros [_ HF] Hi. unfold fl. by rewrite (HF i Hi). Qed.
Lemma heap_ok_intro h F : rep h F → arenas_ok None (hpages h) F (arenas h) → heap_ok h ∧ ∀ b, live h b ↔ is_live F (arenas h) b.
Proof using Type.
  intros Hr Hok. assert (∀ i, is_desc i → fl h i = F i) as HF by (intros; by apply rep_fl). split; [split|].
  - split; [apply Hr|]. intros i Hi. rewrite HF by done. by apply Hr.
  - by apply arenas_ext with F.
  - intros b. by eapply live_ext.
Qed.
(** The heap of the goal is as the lists and arenas say. *)
Ltac heap_intro Hr Hok Hok2 Hl2 :=
  match goal with |- context [heap_ok ?h] => destruct (heap_ok_intro h _ Hr Hok) as [Hok2 Hl2] end.

(** ** Parts of the code *)

Lemma desc_at_spec h F i : rep h F → is_desc i → desc_at i h = Done (Desc (bs i) (bpa i) (F i), h).
Proof using Type. intros [_ HF] Hi. unfold desc_at, mbind, M_bind, get, lift, rd. by rewrite (HF i Hi). Qed.

(** The heap with another free list. *)
Definition with_list h (i : Z) (l : list Z) : heap S := set_descs ((descs h)@[i := Desc (bs i) (bpa i) l]) h.
Lemma set_free_list_spec h F i l : rep h F → is_desc i →
  set_free_list i l h = Done (tt, with_list h i l) ∧ rep (with_list h i l) (upd F i l).
Proof using Type.
  intros Hr Hi. split.
  - unfold set_free_list, mbind, M_bind. rewrite (desc_at_spec h F i Hr Hi). unfold get, lift, put. simpl.
    rewrite wr_in by (destruct Hr as [-> _]; apply Hi). done.
  - destruct Hr as [Hl HF]. split; [by unfold with_list; simpl; rewrite zlen_insert|]. intros k Hk. simpl.
    destruct (decide (k = i)) as [->|].
    + rewrite upd_eq, zlookup_insert_eq by (rewrite Hl; apply Hi). done.
    + rewrite upd_ne, zlookup_insert_ne by done. by apply HF.
Qed.
Lemma on_pages_spec {A} (m : M S A) h Q : runs m (hpages h) (λ a p, Q a (set_hpages p h)) → runs (on_pages m) h Q.
Proof using Type. unfold runs, on_pages. by destruct (m (hpages h)) as [[a p]| | |]. Qed.
Lemma arena_at_spec h a x : arenas h !! a = Some x → arena_at a h = Done (x, h).
Proof using Type. intros Ha. unfold arena_at, mbind, M_bind, get. by rewrite Ha. Qed.

(** A free or live block is found to be a block of its arena. *)
Lemma block_to_arena_spec h F b x : rep h F → arenas h !! pg_round_down b = Some x → is_kpage (pg_round_down b) →
  match a_desc x with
  | Some i => is_desc i ∧ ∃ j, 0 ≤ j < bpa i ∧ b = blk (pg_round_down b) i j
  | None => b = pg_round_down b + ARENA_SIZE
  end → block_to_arena b h = Done (pg_round_down b, h).
Proof using Type.
  intros Hr Hx Hk Hb.
  assert (negb (pg_round_down b =? NULL) = true) as Hz.
  { destruct Hk as [[? _] _]. unfold PHYS_BASE in *. apply negb_true_iff. bool_cases. unfold NULL in *. lia. }
  unfold block_to_arena, mbind, M_bind, assert, lift. rewrite Hz. simpl. rewrite (arena_at_spec h _ x Hx).
  destruct (a_desc x) as [i|].
  - destruct Hb as (Hi & j & Hj & E). rewrite (desc_at_spec h F i Hr Hi). simpl.
    destruct (blk_page _ i j Hk Hi Hj) as (_ & Eo & _). rewrite <-E in Eo. rewrite Eo.
    destruct (desc_sizes i Hi) as (Hbs & _ & _). pose proof (blk_bound i j Hi Hj) as [? ?].
    replace (ARENA_SIZE + j * bs i - ARENA_SIZE) with (j * bs i) by lia. unfold ARENA_SIZE in *.
    rewrite (u32_small (j * bs i)), Z.mod_mul by lia. done.
  - simpl. destruct (big_page _ Hk) as (_ & Eo & _). rewrite <-Hb in Eo. rewrite Eo. done.
Qed.
Lemma arena_to_block_spec h F a i c j : rep h F → is_kpage a → is_desc i → arenas h !! a = Some (Arena (Some i) c) →
  0 ≤ j < bpa i → arena_to_block a j h = Done (blk a i j, h).
Proof using Type.
  intros Hr Hk Hi Hx Hj. assert (negb (a =? NULL) = true) as Hz.
  { destruct Hk as [[? _] _]. unfold PHYS_BASE in *. apply negb_true_iff. bool_cases. unfold NULL in *. lia. }
  unfold arena_to_block, mbind, M_bind, assert, lift. rewrite Hz. simpl. rewrite (arena_at_spec h _ _ Hx). simpl.
  rewrite (desc_at_spec h F i Hr Hi). simpl. destruct (Z.ltb_spec j (bpa i)); [|lia]. simpl.
  destruct (blk_page a i j Hk Hi Hj) as (_ & _ & Hu). rewrite u32_small; [done|apply Hu].
Qed.

(** The heap with other descriptors only. *)
Definition only_lists h h' : Prop := hpages h' = hpages h ∧ arenas h' = arenas h ∧ hmem h' = hmem h.

Section loops.
Context (a i c : Z) (Hk : is_kpage a) (Hi : is_desc i).

Lemma push_blocks_spec n : ∀ h F idx, rep h F → arenas h !! a = Some (Arena (Some i) c) → 0 ≤ idx → idx + Z.of_nat n = bpa i →
  runs (push_blocks a i n idx) h (λ _ h', only_lists h h' ∧ ∃ F', rep h' F' ∧
    F' i = F i ++ (blk a i <$> seqZ idx (Z.of_nat n)) ∧ ∀ k, k ≠ i → F' k = F k).
Proof using Hk Hi.
  induction n as [|n IH]; intros h F idx Hr Ha H0 Hn.
  - cbn [push_blocks]. run. split; [done|]. exists F. split_and!; [done|by rewrite app_nil_r|done].
  - cbn [push_blocks]. apply runs_bind. apply (runs_intro _ _ _ _ _ (arena_to_block_spec h F a i c idx Hr Hk Hi Ha ltac:(lia))).
    apply runs_bind. apply (runs_intro _ _ _ _ _ (desc_at_spec h F i Hr Hi)). cbn [free_list].
    destruct (set_free_list_spec h F i (F i ++ [blk a i idx]) Hr Hi) as [E Hr']. apply runs_bind, (runs_intro _ _ _ _ _ E).
    eapply runs_mono; [apply (IH _ _ (idx + 1) Hr' Ha); lia|]. intros _ h' ((A1 & A2 & A3) & F' & Hr2 & HF & Hother).
    split; [done|]. exists F'. split_and!; [done| |].
    + rewrite HF, upd_eq, <-app_assoc. f_equal. rewrite (seqZ_cons idx (Z.of_nat (Datatypes.S n))) by lia. cbn. do 3 f_equal; lia.
    + intros k Hne. rewrite Hother, upd_ne by done. done.
Qed.

Lemma remove_blocks_spec n : ∀ h F idx, rep h F → arenas h !! a = Some (Arena (Some i) c) → 0 ≤ idx → idx + Z.of_nat n = bpa i →
  NoDup (F i) → (∀ j, idx ≤ j < bpa i → blk a i j ∈ F i) →
  runs (remove_blocks a i n idx) h (λ _ h', only_lists h h' ∧ ∃ F', rep h' F' ∧
    F' i = filter (λ b, b ∉ blk a i <$> seqZ idx (Z.of_nat n)) (F i) ∧ ∀ k, k ≠ i → F' k = F k).
Proof using Hk Hi.
  induction n as [|n IH]; intros h F idx Hr Ha H0 Hn Hnd Hin.
  - cbn [remove_blocks]. run. split; [done|]. exists F. split_and!; [done|by rewrite filter_all by (intros; apply not_elem_of_nil)|done].
  - cbn [remove_blocks]. apply runs_bind. apply (runs_intro _ _ _ _ _ (arena_to_block_spec h F a i c idx Hr Hk Hi Ha ltac:(lia))).
    apply runs_bind. apply (runs_intro _ _ _ _ _ (desc_at_spec h F i Hr Hi)). cbn [free_list].
    rewrite bool_decide_eq_true_2 by (apply Hin; lia).
    destruct (set_free_list_spec h F i (filter (λ x, x ≠ blk a i idx) (F i)) Hr Hi) as [E Hr']. apply runs_bind, (runs_intro _ _ _ _ _ E).
    eapply runs_mono; [apply (IH _ _ (idx + 1) Hr' Ha); [lia..|rewrite upd_eq; by apply list.NoDup_filter|]|].
    { intros j Hj. rewrite upd_eq. apply list_elem_of_filter. split; [|apply Hin; lia]. intros ?%blk_inj; [lia|done]. }
    intros _ h' ((A1 & A2 & A3) & F' & Hr2 & HF & Hother). split; [done|]. exists F'. split_and!; [done| |].
    + rewrite HF, upd_eq, list_filter_filter. apply list_filter_iff. intros b.
      rewrite (seqZ_cons idx (Z.of_nat (Datatypes.S n))) by lia. cbn [fmap list_fmap]. rewrite not_elem_of_cons.
      replace (Z.succ idx) with (idx + 1) by lia. replace (Z.pred (Z.of_nat (Datatypes.S n))) with (Z.of_nat n) by lia. tauto.
    + intros k Hne. rewrite Hother, upd_ne by done. done.
Qed.
End loops.

Lemma rep_descs h F : rep h F → descs h = (λ i, Desc (bs i) (bpa i) (F i)) <$> [0; 1; 2; 3; 4; 5; 6].
Proof using Type.
  intros [Hl HF]. apply array_ext; [done|]. intros i Hi. rewrite Hl in Hi. rewrite HF by done.
  assert (i = 0 ∨ i = 1 ∨ i = 2 ∨ i = 3 ∨ i = 4 ∨ i = 5 ∨ i = 6) as Hc by lia.
  repeat destruct Hc as [-> |Hc]; subst; done.
Qed.
Lemma find_desc_spec h F size : rep h F →
  match find_desc (descs h) 0 size with Some i => is_desc i ∧ size ≤ bs i | None => 1024 < size end.
Proof using Type.
  intros Hr. rewrite (rep_descs h F Hr). cbn [fmap list_fmap find_desc block_size].
  repeat (match goal with |- context [size <=? ?x] => destruct (Z.leb_spec size x) end; [split; [unfold is_desc; lia|done]|]).
  match goal with H : bs _ < _ |- _ => revert H end. by vm_compute.
Qed.

(** ** What the calls promise *)

(** Blocks that are live stay as they are; [b] is the one that is added. *)
Definition malloc_post h (size b : Z) h' : Prop :=
  heap_ok h' ∧ hmem h' = hmem h ∧ (∀ y, live h y → bytes h' y = bytes h y) ∧
  ((b = NULL ∧ ∀ y, live h' y ↔ live h y) ∨
   (0 < size ∧ b ≠ NULL ∧ ¬ live h b ∧ size ≤ bytes h' b ∧ ∀ y, live h' y ↔ live h y ∨ y = b)).

(** A block is removed from the front of the free list of descriptor [i]. *)
Definition take (i : Z) : M (heap S) Z :=
  d ← desc_at i;
  match free_list d with
  | [] => undefined
  | b :: l =>
      set_free_list i l;;
      a ← block_to_arena b;
      x ← arena_at a;
      set_arena a (Arena (a_desc x) (u32 (free_cnt x - 1)));;
      mret b
  end.
Lemma bpa_small i : is_desc i → bpa i < 2 ^ 31.
Proof using Type. intros Hi. destruct (desc_sizes i Hi) as (? & ? & ?). nia. Qed.
Lemma take_spec ex h F i b l : rep h F → arenas_ok ex (hpages h) F (arenas h) → is_desc i → F i = b :: l →
  (∀ a0, ex = Some a0 → a0 = pg_round_down b) →
  runs (take i) h (λ b' h', b' = b ∧ heap_ok h' ∧ hmem h' = hmem h ∧ ¬ is_live F (arenas h) b ∧ b ≠ NULL ∧ bytes h' b = bs i ∧
    (∀ y, live h' y ↔ is_live F (arenas h) y ∨ y = b) ∧ ∀ y, bytes h' y = bytes h y).
Proof using PageAllocatorLaws0.
  intros Hr Hok Hi HF Hex. unfold take. apply runs_bind, (runs_intro _ _ _ _ _ (desc_at_spec h F i Hr Hi)). cbn [free_list]. rewrite HF.
  destruct (free_arena _ _ _ _ Hok i b Hi ltac:(rewrite HF; set_solver)) as (j & x & Hx & Hd & Hj & E & Hk).
  destruct (take_ok _ _ _ _ i b l x Hok Hi HF Hx Hd Hex) as (Hok' & Hc & Hnl & Hlive & Hsz).
  destruct (set_free_list_spec h F i l Hr Hi) as [El Hr']. apply runs_bind, (runs_intro _ _ _ _ _ El).
  apply runs_bind, (runs_intro _ _ _ _ _ (block_to_arena_spec (with_list h i l) _ b x Hr' Hx Hk ltac:(rewrite Hd; eauto))).
  apply runs_bind, (runs_intro _ _ _ _ _ (arena_at_spec (with_list h i l) _ x Hx)). unfold set_arena. run.
  rewrite Hd, u32_small by (pose proof (bpa_small i Hi); lia).
  heap_intro Hr' Hok' Hok2 Hl2.
  split_and!; [done|apply Hok2|done|done| | | |done].
  - intros ->. destruct Hk as [[Hp _] _]. by vm_compute in Hp.
  - unfold bytes. simpl. rewrite Hsz. unfold size_in. by rewrite Hx, Hd.
  - intros y. rewrite <-Hlive. apply Hl2.
Qed.

(** Pages for a new arena, or nothing. *)
Lemma get_pages_fresh h F n : rep h F → arenas_ok None (hpages h) F (arenas h) → 0 < n < 2 ^ 32 →
  runs (on_pages (get_pages n)) h (λ a h', ∃ p', h' = set_hpages p' h ∧
    ((a = NULL ∧ arenas_ok None p' F (arenas h)) ∨ (a ≠ NULL ∧ fresh_pages (hpages h) p' (arenas h) a n))).
Proof using PageAllocatorLaws0.
  intros Hr Hok Hn. apply on_pages_spec. eapply runs_mono; [apply get_pages_law; [apply Hok|done]|].
  intros a p' (Hp & Hcase). exists p'. split; [done|]. destruct Hcase as [[-> Hu]|(Hk & H32 & Hfree & Hu)]; [left|right].
  - split; [done|]. destruct Hok as [H1 H2 H3 H4 H5]. split; try done. intros a x Ha. destruct (H2 a x Ha) as (A1 & A2 & A3 & A4).
    split_and!; [done..| |done]. intros k Hk. by apply Hu, A3.
  - split; [|split; [done..|lia|done|done]]. intros ->. destruct Hk as [[Hp' _] _]. by vm_compute in Hp'.
Qed.

Lemma malloc_big h F size : rep h F → arenas_ok None (hpages h) F (arenas h) → 1024 < size ≤ 2 ^ 32 - 8192 →
  let page_cnt := DIV_ROUND_UP (u32 (size + ARENA_SIZE)) PGSIZE in
  runs (a ← on_pages (get_pages page_cnt);
        if a =? NULL then mret NULL else set_arena a (Arena None page_cnt);; mret (u32 (a + ARENA_SIZE))) h (malloc_post h size).
Proof using PageAllocatorLaws0.
  intros Hr Hok Hsize n. destruct (heap_ok_intro h F Hr Hok) as [_ Hlv].
  assert (0 < n < 2 ^ 32 ∧ size ≤ PGSIZE * n - ARENA_SIZE) as [Hn Hfit].
  { unfold n, DIV_ROUND_UP, ARENA_SIZE. rewrite PGSIZE_eq, (u32_small (size + 12)), u32_small by lia.
    Z.to_euclidean_division_equations; lia. }
  apply runs_bind. eapply runs_mono; [by apply (get_pages_fresh h F)|]. intros a h1 (p' & -> & [[-> Hok']|[Hnz Hf]]).
  - cbn [Z.eqb NULL]. run. destruct (heap_ok_intro (set_hpages p' h) F Hr Hok') as [Hok2 Hl2].
    split_and!; [apply Hok2..|done|done|]. left. split; [done|]. intros y. by rewrite Hl2, Hlv.
  - destruct (Z.eqb_spec a NULL); [done|]. unfold set_arena. run.
    destruct (big_arena_ok _ _ F _ a n Hok Hf) as (Hok' & Hl' & Hnew & Hsz & Hlen).
    destruct (big_page a (fp_page _ _ _ _ _ Hf)) as (Ep & _ & Hu). rewrite u32_small by apply Hu.
    unfold malloc_post. heap_intro Hr Hok' Hok2 Hl2. split_and!; [apply Hok2..|done| |].
    + intros y Hy%Hlv. by apply Hsz.
    + right. split_and!; [lia| | | |].
      * intros E. rewrite E in Ep. assert (a = 0) by (by rewrite <-Ep). done.
      * by rewrite Hlv.
      * unfold bytes. simpl. rewrite Hlen. lia.
      * intros y. rewrite Hlv, <-Hl'. apply Hl2.
Qed.

Lemma malloc_small h F i size : rep h F → arenas_ok None (hpages h) F (arenas h) → is_desc i → 0 < size ≤ bs i →
  runs (d ← desc_at i;
        ok ← (if bool_decide (free_list d = []) then
                a ← on_pages (get_pages 1);
                if a =? NULL then mret false else
                set_arena a (Arena (Some i) (blocks_per_arena d));;
                push_blocks a i (Z.to_nat (blocks_per_arena d)) 0;;
                mret true
              else mret true);
        if ok : bool then take i else mret NULL) h (malloc_post h size).
Proof using PageAllocatorLaws0.
  intros Hr Hok Hi Hsize. destruct (heap_ok_intro h F Hr Hok) as [_ Hlv]. destruct (desc_sizes i Hi) as (_ & Hbpa & _).
  apply runs_bind, (runs_intro _ _ _ _ _ (desc_at_spec h F i Hr Hi)). cbn [free_list blocks_per_arena].
  case_bool_decide as HF.
  - apply runs_bind. apply runs_bind. eapply runs_mono; [by apply (get_pages_fresh h F)|]. intros a h1 (p' & -> & [[-> Hok']|[Hnz Hf]]).
    + cbn [Z.eqb NULL]. run. destruct (heap_ok_intro (set_hpages p' h) F Hr Hok') as [Hok2 Hl2].
      split_and!; [apply Hok2..|done|done|]. left. split; [done|]. intros y. by rewrite Hl2, Hlv.
    + destruct (Z.eqb_spec a NULL); [done|]. unfold set_arena. apply runs_bind, runs_modify, runs_bind.
      destruct (small_arena_ok _ _ _ _ a i Hok Hf Hi HF) as (Hok' & Hl' & Hsz).
      set (h1 := set_arenas _ _). assert (rep h1 F) as Hr1 by apply Hr.
      eapply runs_mono; [eapply (push_blocks_spec a i (bpa i) (fp_page _ _ _ _ _ Hf) Hi _ h1 F 0 Hr1); [apply lookup_insert_eq|lia..]|].
      intros _ h2 ((E1 & E2 & E3) & F2 & Hr2 & HF2 & Hother). rewrite HF in HF2. rewrite Z2Nat.id in HF2 by lia. run.
      assert (∀ k, F2 k = upd F i (blocks a i) k) as HF2'.
      { intros k. destruct (decide (k = i)) as [->|]; [by rewrite upd_eq|by rewrite upd_ne, Hother]. }
      assert (arenas_ok (Some a) (hpages h2) F2 (arenas h2)) as Hok2 by (rewrite E1, E2; by eapply arenas_ext).
      destruct (F2 i) as [|b l] eqn:Eb.
      { assert (length (blocks a i) = 0%nat) as Hz by (by rewrite <-(upd_eq F i (blocks a i)), <-HF2', Eb).
        rewrite length_blocks in Hz by done. lia. }
      assert (pg_round_down b = a) as Epg.
      { assert (b ∈ blocks a i) as (j & Hj & ->)%elem_of_blocks by (rewrite <-(upd_eq F i (blocks a i)), <-HF2', Eb; set_solver).
        apply blk_page; [apply Hf|done..]. }
      assert (∀ y, is_live F2 (arenas h2) y ↔ is_live F (arenas h) y) as Hlv2.
      { intros y. rewrite <-Hl', E2. by eapply live_ext. }
      eapply runs_mono; [apply (take_spec (Some a) h2 F2 i b l Hr2 Hok2 Hi Eb); by intros ? [= <-]|].
      intros b' h' (-> & Hok3 & Hm & Hn & Hnz' & Hb & Hl & Hsz3). rewrite Hlv2 in Hn. split_and!; [apply Hok3..|by rewrite Hm, E3| |right].
      * intros y Hy%Hlv. rewrite Hsz3. unfold bytes. rewrite E2. by apply Hsz.
      * split_and!; [lia|done|by rewrite Hlv|lia|]. intros y. by rewrite Hl, Hlv, Hlv2.
  - destruct (F i) as [|b l] eqn:E; [done|]. run. eapply runs_mono; [by apply (take_spec None h F i b l Hr Hok Hi E)|].
    intros b' h' (-> & Hok' & Hm & Hn & Hnz & Hb & Hl & Hsz). split_and!; [apply Hok'..|done|intros; apply Hsz|right].
    split_and!; [lia|done|by rewrite Hlv|lia|]. intros y. by rewrite Hl, Hlv.
Qed.

Lemma malloc_spec h size : heap_ok h → 0 ≤ size ≤ 2 ^ 32 - 8192 → runs (malloc size) h (malloc_post h size).
Proof using PageAllocatorLaws0.
  intros [Hr Hok] Hsize. unfold malloc. destruct (Z.eqb_spec size 0) as [->|Hnz].
  { run. unfold malloc_post, heap_ok. tauto. }
  apply runs_bind, runs_gets. pose proof (find_desc_spec h _ size Hr) as Hf. destruct (find_desc (descs h) 0 size) as [i|].
  - destruct Hf as [Hi Hs]. eapply malloc_small; [done..|lia].
  - eapply malloc_big; [done..|lia].
Qed.

(** Only the block [p] is gone; the other live blocks keep their contents. *)
Definition free_post h (p : Z) h' : Prop :=
  heap_ok h' ∧ (∀ y, live h' y ↔ live h y ∧ y ≠ p) ∧ (∀ y, live h y → y ≠ p → bytes h' y = bytes h y) ∧
  (∀ y z, live h y → y ≠ p → in_block h y z → hmem h' z = hmem h z).

Lemma live_not_null h p : heap_ok h → live h p → p ≠ NULL.
Proof using Type.
  intros [_ Hok] Hl ->. destruct (live_arena _ _ _ _ Hok NULL Hl) as (x & _ & ([[Hp _] _] & _) & _). by vm_compute in Hp.
Qed.

Lemma give_back_pages h F a x : rep h F → alloc_ok (hpages h) → is_kpage a → a + arena_pages x * PGSIZE ≤ 2 ^ 32 → 1 ≤ arena_pages x →
  (∀ n, page_group a (arena_pages x) n → in_use (hpages h) n) →
  runs (on_pages (free_pages a (arena_pages x));; modify (λ h, set_arenas (delete a (arenas h)) h)) h (λ _ h', ∃ p',
    h' = set_arenas (delete a (arenas h)) (set_hpages p' h) ∧ alloc_ok p' ∧
    ∀ n, in_use p' n ↔ in_use (hpages h) n ∧ ¬ page_group a (arena_pages x) n).
Proof using PageAllocatorLaws0.
  intros Hr Hp Hk H32 H1 Hu. apply runs_bind, on_pages_spec. eapply runs_mono; [apply free_pages_law; [done..| |done]|].
  { destruct Hk as [[? _] _]. unfold PHYS_BASE in *. rewrite PGSIZE_eq in H32. lia. }
  intros _ p' [Hp' Hu']. run. by exists p'.
Qed.

Lemma free_big h F p x : rep h F → arenas_ok None (hpages h) F (arenas h) → is_live F (arenas h) p →
  arenas h !! pg_round_down p = Some x → a_desc x = None →
  runs (on_pages (free_pages (pg_round_down p) (free_cnt x));;
        modify (λ h, set_arenas (delete (pg_round_down p) (arenas h)) h)) h (λ _ h', free_post h p h').
Proof using PageAllocatorLaws0.
  intros Hr Hok Hl Hx Hd. destruct (heap_ok_intro h F Hr Hok) as [_ Hlv]. destruct (hk_arena _ _ _ _ Hok _ _ Hx) as (Hk & H32 & Hu & H1).
  rewrite Hd in H1. assert (free_cnt x = arena_pages x) as Ec by (unfold arena_pages; by rewrite Hd). rewrite Ec in *.
  eapply runs_mono; [apply (give_back_pages h F); [done|apply Hok|done..]|]. intros _ h' (p' & -> & Hp' & Hu').
  assert (∀ k, is_desc k → F k = filter (λ b, pg_round_down b ≠ pg_round_down p) (F k)) as HF.
  { intros k Hkd. symmetry. apply filter_all. intros b Hb E. destruct (free_arena _ _ _ _ Hok k b Hkd Hb) as (_ & x' & Hx' & Hd' & _).
    rewrite E in Hx'. congruence. }
  destruct (drop_arena_ok None _ p' F F _ _ x Hok ltac:(done) Hx Hp' Hu' HF) as (Hok' & Hl' & Hsz).
  assert (∀ y, is_live F (arenas h) y → y ≠ p → pg_round_down y ≠ pg_round_down p) as Hother.
  { intros y Hy Hne E. apply Hne. destruct (live_arena _ _ _ _ Hok y Hy) as (x1 & Hx1 & _ & Hb1).
    destruct (live_arena _ _ _ _ Hok p Hl) as (x2 & Hx2 & _ & Hb2). rewrite E in Hx1, Hb1.
    assert (x1 = x) as -> by congruence. assert (x2 = x) as -> by congruence. rewrite Hd in Hb1, Hb2. congruence. }
  unfold free_post. heap_intro Hr Hok' Hok2 Hl2. split_and!; [apply Hok2..| | |done].
  - intros y. rewrite Hlv. etransitivity; [apply Hl2|]. simpl. rewrite Hl'. split; [|intros [??]; split; [done|by apply Hother]].
    intros [? Hne]. split; [done|]. by intros ->.
  - intros y Hy%Hlv Hne. unfold bytes. simpl. apply Hsz. by apply Hother.
Qed.

(** An arena all of whose blocks are free is given back. *)
Lemma drop_small h F a i x : rep h F → arenas_ok (Some a) (hpages h) F (arenas h) → arenas h !! a = Some x → x = Arena (Some i) (bpa i) →
  runs (remove_blocks a i (Z.to_nat (bpa i)) 0;; on_pages (free_pages a 1);; modify (λ h, set_arenas (delete a (arenas h)) h)) h
    (λ _ h', heap_ok h' ∧ hmem h' = hmem h ∧ (∀ y, live h' y ↔ is_live F (arenas h) y) ∧
       ∀ y, is_live F (arenas h) y → bytes h' y = bytes h y).
Proof using PageAllocatorLaws0.
  intros Hr Hok Hx ->. destruct (hk_arena _ _ _ _ Hok _ _ Hx) as (Hk & H32 & Hu & Hi & _). destruct (desc_sizes i Hi) as (_ & Hbpa & _).
  pose proof (all_free _ _ _ _ Hok a _ i Hx eq_refl eq_refl) as Hall. apply runs_bind.
  eapply runs_mono; [apply (remove_blocks_spec a i (bpa i) Hk Hi (Z.to_nat (bpa i)) h F 0 Hr Hx); [lia..|by apply Hok|]|].
  { intros j Hj. apply Hall, elem_of_blocks. by exists j. }
  intros _ h1 ((E1 & E2 & E3) & F1 & Hr1 & HF1 & Hother). rewrite Z2Nat.id in HF1 by lia. fold (blocks a i) in HF1.
  change 1 with (arena_pages (Arena (Some i) (bpa i))).
  eapply runs_mono; [apply (give_back_pages h1 F1); [done|rewrite E1; apply Hok|done..|by rewrite E1]|].
  intros _ h2 (p' & -> & Hp' & Hu'). rewrite E1 in Hu'.
  assert (∀ k, is_desc k → F1 k = filter (λ b, pg_round_down b ≠ a) (F k)) as HF.
  { intros k Hkd. destruct (decide (k = i)) as [->|Hne].
    - rewrite HF1. apply filter_ext_in. intros b Hb. destruct (free_arena _ _ _ _ Hok i b Hi Hb) as (j & _ & _ & _ & Hj & Eb & _).
      split; [intros Hnb Epg; apply Hnb, elem_of_blocks; exists j; by rewrite Epg in Eb|].
      intros Hpg (j' & Hj' & ->)%elem_of_blocks. by apply Hpg, blk_page.
    - rewrite Hother by done. symmetry. apply filter_all. intros b Hb E. destruct (free_arena _ _ _ _ Hok k b Hkd Hb) as (_ & x' & Hx' & Hd' & _).
      rewrite E, Hx in Hx'. injection Hx' as <-. simpl in Hd'. congruence. }
  destruct (drop_arena_ok (Some a) _ p' F F1 _ a _ Hok ltac:(by intros ? [= <-]) Hx Hp' Hu' HF) as (Hok' & Hl' & Hsz).
  assert (∀ y, is_live F (arenas h) y → pg_round_down y ≠ a) as Hlive.
  { intros y Hy Epg. destruct (live_arena _ _ _ _ Hok y Hy) as (x1 & Hx1 & _ & Hb1). rewrite Epg, Hx in Hx1. injection Hx1 as <-.
    destruct Hb1 as (_ & j & Hj & Eb & Hn). apply Hn, Hall, elem_of_blocks. exists j. by rewrite Epg in Eb. }
  rewrite <-E2 in Hok'. heap_intro Hr1 Hok' Hok2 Hl2. split_and!; [apply Hok2..|done| |].
  - intros y. etransitivity; [apply Hl2|]. simpl. rewrite E2, Hl'. naive_solver.
  - intros y Hy. unfold bytes. simpl. rewrite E2. by apply Hsz, Hlive.
Qed.

Lemma free_small h F p x i : rep h F → arenas_ok None (hpages h) F (arenas h) → is_live F (arenas h) p →
  arenas h !! pg_round_down p = Some x → a_desc x = Some i →
  runs (let a := pg_round_down p in
        heap_set p 0xcc (bs i);; set_free_list i (p :: F i);; set_arena a (Arena (a_desc x) (u32 (free_cnt x + 1)));;
        if bpa i <=? u32 (free_cnt x + 1) then
          assert (u32 (free_cnt x + 1) =? bpa i);;
          remove_blocks a i (Z.to_nat (bpa i)) 0;;
          on_pages (free_pages a 1);;
          modify (λ h, set_arenas (delete a (arenas h)) h)
        else mret tt) h (λ _ h', free_post h p h').
Proof using PageAllocatorLaws0.
  intros Hr Hok Hl Hx Hd. destruct (heap_ok_intro h F Hr Hok) as [_ Hlv]. cbv zeta.
  destruct (give_ok _ _ _ i p x Hok Hl Hx Hd) as (Hok' & Hi & Hc & Hl' & Hsz). pose proof (bpa_small i Hi).
  unfold heap_set. apply runs_bind, runs_modify. set (h1 := set_hmem _ h). assert (rep h1 F) as Hr1 by apply Hr.
  destruct (set_free_list_spec h1 F i (p :: F i) Hr1 Hi) as [E2 Hr2]. apply runs_bind, (runs_intro _ _ _ _ _ E2).
  unfold set_arena. apply runs_bind, runs_modify. rewrite Hd, u32_small by lia. set (h3 := set_arenas _ (with_list _ _ _)).
  assert (rep h3 (upd F i (p :: F i))) as Hr3 by apply Hr2.
  assert (∀ y z, live h y → y ≠ p → in_block h y z → hmem h3 z = hmem h z) as Hmem.
  { intros y z Hy%Hlv Hne Hz. simpl. destruct (Z.leb_spec p z), (Z.ltb_spec z (p + bs i)); try done. exfalso. apply Hne.
    apply (live_apart _ _ _ _ Hok y p z); [done..|]. unfold size_in. rewrite Hx, Hd. lia. }
  destruct (Z.leb_spec (bpa i) (free_cnt x + 1)) as [Hfull|Hnot].
  - apply runs_bind, runs_assert; [apply Z.eqb_eq; lia|]. assert (free_cnt x + 1 = bpa i) as Ec by lia.
    eapply runs_mono; [apply (drop_small h3 (upd F i (p :: F i)) (pg_round_down p) i (Arena (Some i) (free_cnt x + 1)) Hr3 Hok'); [apply lookup_insert_eq|by rewrite Ec]|].
    intros _ h4 (Hok4 & Hm4 & Hl4 & Hs4). split_and!; [apply Hok4..| | |].
    + intros y. rewrite Hl4, Hlv. apply Hl'.
    + intros y Hy%Hlv Hne. rewrite Hs4; [apply Hsz|]. apply Hl'. done.
    + intros y z Hy Hne Hz. rewrite Hm4. by apply (Hmem y).
  - run. assert (arenas_ok None (hpages h3) (upd F i (p :: F i)) (arenas h3)) as Hok3.
    { eapply no_exception; [apply Hok'|apply lookup_insert_eq|done|simpl; lia]. }
    destruct (heap_ok_intro h3 _ Hr3 Hok3) as [Hok4 Hl4]. split_and!; [apply Hok4..| | |done].
    + intros y. rewrite Hl4, Hlv. apply Hl'.
    + intros y _ _. apply Hsz.
Qed.

Lemma free_spec h p : heap_ok h → p = NULL ∨ live h p → runs (free p) h (λ _ h', free_post h p h').
Proof using PageAllocatorLaws0.
  intros Hh Hp. pose proof Hh as [Hr Hok]. unfold free. destruct (Z.eqb_spec p NULL) as [->|Hnz].
  { run. split_and!; [apply Hh..| |done|done]. intros y. split; [|tauto]. intros Hy. split; [done|]. by apply (live_not_null h). }
  destruct Hp as [|Hl]; [done|]. destruct (live_arena _ _ _ _ Hok p Hl) as (x & Hx & (Hk & _) & Hb).
  apply runs_bind, (runs_intro _ _ _ _ _ (block_to_arena_spec h _ p x Hr Hx Hk ltac:(destruct (a_desc x); naive_solver))).
  apply runs_bind, (runs_intro _ _ _ _ _ (arena_at_spec h _ x Hx)). destruct (a_desc x) as [i|] eqn:Hd.
  - apply runs_bind, (runs_intro _ _ _ _ _ (desc_at_spec h _ i Hr (proj1 Hb))). cbn [block_size free_list blocks_per_arena].
    rewrite <-Hd. eapply free_small; done.
  - eapply free_big; done.
Qed.

Lemma block_len_spec h p : heap_ok h → live h p → block_len p h = Done (bytes h p, h).
Proof using Type.
  intros [Hr Hok] Hl. destruct (live_arena _ _ _ _ Hok p Hl) as (x & Hx & (Hk & H32 & _ & Hax) & Hb). unfold block_len.
  unfold mbind, M_bind. rewrite (block_to_arena_spec h _ p x Hr Hx Hk) by (destruct (a_desc x); naive_solver).
  rewrite (arena_at_spec h _ x Hx). unfold bytes, size_in. rewrite Hx. destruct (a_desc x) as [i|] eqn:Hd.
  - rewrite (desc_at_spec h _ i Hr (proj1 Hb)). done.
  - destruct (big_page _ Hk) as (_ & Eo & _). rewrite <-Hb in Eo. rewrite Eo. unfold mret, M_ret. do 2 f_equal. unfold ARENA_SIZE.
    apply u32_small. unfold arena_pages in H32. rewrite Hd in H32. destruct Hk as [[? _] _]. unfold PHYS_BASE in *.
    rewrite PGSIZE_eq in *. lia.
Qed.

(** ** The theorems *)

(** C5 The block allocator keeps its books.  From a heap in order,
    [malloc] of any size up to 4 GB less two pages returns either NULL, with the
    live blocks as they were, or a new block of at least [size] bytes that
    overlaps no live block; all other blocks, their sizes and all of memory are
    unchanged, and the heap is in order again. *)
Theorem malloc_correct h size : heap_ok h → 0 ≤ size ≤ 2 ^ 32 - 8192 →
  runs (malloc size) h (λ b h', malloc_post h size b h' ∧
    (b ≠ NULL → ∀ y z, live h y → in_block h' b z → in_block h' y z → False)).
Proof using PageAllocatorLaws0.
  intros Hh Hsize. eapply runs_mono; [by apply malloc_spec|]. intros b h' Hpost. split; [done|]. intros Hnz y z Hy Hb Hz.
  destruct Hpost as ([_ Hok] & _ & _ & [[? _]|(_ & _ & Hn & _ & Hl)]); [done|].
  apply Hn. replace b with y; [done|]. apply (live_apart _ _ _ _ Hok y b z); [apply Hl; by left|apply Hl; by right|done..].
Qed.

(** C19 [free] of a live block removes exactly that block: the other live
    blocks stay, with their sizes and contents, whether the arena is kept or
    given back to the page allocator; [free (NULL)] does nothing to them. *)
Theorem free_correct h p : heap_ok h → p = NULL ∨ live h p →
  runs (free p) h (λ _ h', heap_ok h' ∧ (∀ y, live h' y ↔ live h y ∧ y ≠ p) ∧
    (∀ y, live h y → y ≠ p → bytes h' y = bytes h y ∧ ∀ z, in_block h y z → hmem h' z = hmem h z)).
Proof using PageAllocatorLaws0.
  intros Hh Hp. eapply runs_mono; [by apply free_spec|]. intros _ h' (H1 & H2 & H3 & H4). split_and!; [done..|].
  intros y Hy Hne. split; [by apply H3|]. intros z. by apply H4.
Qed.

(** [realloc (old, n)] moves a block: unless memory is exhausted, in which
    case nothing changes, the new block has at least [n] bytes and starts with
    the bytes of the old one, as many as both have; the old block is gone and
    the other live blocks keep their contents. *)
Theorem realloc_correct h old n : heap_ok h → old = NULL ∨ live h old → 0 < n ≤ 2 ^ 32 - 8192 →
  runs (realloc old n) h (λ b h', heap_ok h' ∧
    ((b = NULL ∧ hmem h' = hmem h ∧ ∀ y, (live h' y ↔ live h y) ∧ (live h y → bytes h' y = bytes h y)) ∨
     (b ≠ NULL ∧ ¬ live h b ∧ n ≤ bytes h' b ∧ (∀ y, live h' y ↔ live h y ∧ y ≠ old ∨ y = b) ∧
      (∀ y z, live h y → y ≠ old → in_block h y z → hmem h' z = hmem h z) ∧
      (live h old → ∀ k, 0 ≤ k < n → k < bytes h old → hmem h' (b + k) = hmem h (old + k))))).
Proof using PageAllocatorLaws0.
  intros Hh Hold Hn. unfold realloc. destruct (Z.eqb_spec n 0); [lia|]. apply runs_bind.
  eapply runs_mono; [by apply malloc_spec; [|lia]|]. intros b h1 (Hh1 & Hm & Hsz & [[-> Hl]|(_ & Hnz & Hnew & Hfit & Hl)]).
  { rewrite andb_false_r. run. split; [done|]. left. split_and!; [done..|]. intros y. split; [apply Hl|apply Hsz]. }
  destruct (Z.eqb_spec b NULL); [done|]. destruct Hold as [->|Hlo].
  { cbn [Z.eqb NULL negb andb]. run. split; [done|]. right. split_and!; [done..| |intros; by rewrite Hm|].
    - intros y. rewrite Hl. split; [|tauto]. intros [Hy| ->]; [left|by right]. split; [done|]. by apply (live_not_null h).
    - intros Hc. by destruct (live_not_null h NULL Hh Hc). }
  destruct (Z.eqb_spec old NULL) as [->|_]; [by destruct (live_not_null h NULL Hh Hlo)|]. cbn [negb andb].
  assert (live h1 old) as Hlo1 by (apply Hl; by left). assert (old ≠ b) as Hne by (by intros ->).
  apply runs_bind, runs_bind, (runs_intro _ _ _ _ _ (block_len_spec h1 old Hh1 Hlo1)). rewrite (Hsz old Hlo).
  set (m := if _ : bool then n else bytes h old). assert (m ≤ n ∧ m ≤ bytes h old ∧ ∀ k, k < n → k < bytes h old → k < m) as (Hm1 & Hm2 & Hm3).
  { unfold m. destruct (Z.ltb_spec n (bytes h old)); split_and!; intros; lia. }
  apply runs_bind. unfold heap_copy. apply runs_modify. set (h2 := set_hmem _ h1).
  assert (heap_ok h2) as Hh2 by exact Hh1.
  eapply runs_mono; [apply (free_spec h2 old Hh2); right; exact Hlo1|]. intros _ h3 (Hh3 & Hl3 & Hsz3 & Hm4). run. split; [done|]. right.
  change (live h2) with (live h1) in *. change (bytes h2) with (bytes h1) in *. change (in_block h2) with (in_block h1) in *.
  assert (live h1 b) as Hlb by (apply Hl; by right). split_and!; [done..| | | |].
  - rewrite Hsz3 by done. done.
  - intros y. rewrite Hl3, Hl. split; [tauto|]. intros [[??]| ->]; [tauto|]. split; [by right|done].
  - intros y z Hy Hny Hz. rewrite (Hm4 y z); [|apply Hl; by left|done|unfold in_block; by rewrite Hsz]. simpl. rewrite Hm.
    destruct (Z.leb_spec b z), (Z.ltb_spec z (b + m)); try done. exfalso. apply Hnew. replace b with y; [done|].
    apply (live_apart _ _ _ _ (proj2 Hh1) y b z); [apply Hl; by left|done|unfold in_block in Hz; rewrite <-Hsz in Hz by done; done|].
    fold (bytes h1 b). lia.
  - intros _ k Hk Hk'. rewrite (Hm4 b (b + k)); [|done|done|unfold in_block; lia]. simpl. rewrite Hm.
    pose proof (Hm3 k ltac:(lia) Hk'). destruct (Z.leb_spec b (b + k)), (Z.ltb_spec (b + k) (b + m)); try lia. f_equal. lia.
Qed.

(** [calloc (a, b)] allocates like [malloc (a * b)] when the product is in
    the range of [malloc], and the block it returns is all zero; no other
    block's contents change. *)
Theorem calloc_correct h a b : heap_ok h → 0 ≤ a → 0 ≤ b → a * b ≤ 2 ^ 32 - 8192 →
  runs (calloc a b) h (λ p h', heap_ok h' ∧
    ((p = NULL ∧ hmem h' = hmem h ∧ ∀ y, live h' y ↔ live h y) ∨
     (p ≠ NULL ∧ ¬ live h p ∧ a * b ≤ bytes h' p ∧ (∀ y, live h' y ↔ live h y ∨ y = p) ∧
      (∀ k, 0 ≤ k < a * b → hmem h' (p + k) = 0) ∧ (∀ y z, live h y → in_block h y z → hmem h' z = hmem h z)))).
Proof using PageAllocatorLaws0.
  intros Hh Ha Hb Hab. unfold calloc. rewrite u32_small by nia. destruct (_ || _).
  { run. split; [done|]. by left. }
  apply runs_bind. eapply runs_mono; [apply malloc_spec; [done|nia]|]. intros p h1 (Hh1 & Hm & Hsz & [[-> Hl]|(_ & Hnz & Hnew & Hfit & Hl)]).
  { cbn [Z.eqb NULL negb]. run. split; [done|]. by left. }
  destruct (Z.eqb_spec p NULL); [done|]. cbn [negb]. unfold heap_set. run. split; [exact Hh1|]. right. split_and!; [done..| |].
  - intros k Hk. simpl. destruct (Z.leb_spec p (p + k)), (Z.ltb_spec (p + k) (p + a * b)); lia || done.
  - intros y z Hy Hz. simpl. rewrite Hm. destruct (Z.leb_spec p z), (Z.ltb_spec z (p + a * b)); try done. exfalso. apply Hnew.
    replace p with y; [done|]. apply (live_apart _ _ _ _ (proj2 Hh1) y p z); [apply Hl; by left|apply Hl; by right| |fold (bytes h1 p); lia].
    fold (bytes h1 y). rewrite Hsz by done. done.
Qed.

(** A heap without arenas, as [malloc_init] leaves it. *)
Lemma malloc_init_spec (p : S) m : alloc_ok p →
  rets malloc_init (λ ds, heap_ok (Heap p ds ∅ m) ∧ ∀ y, ¬ live (Heap p ds ∅ m) y).
Proof using Type.
  intros Hp. unfold malloc_init. eapply (rets_mono (Done _)); [|intros ds Hds; exact Hds].
  assert (rep (Heap p ((λ i, Desc (bs i) (bpa i) []) <$> [0; 1; 2; 3; 4; 5; 6]) ∅ m) (λ _, [])) as Hr.
  { split; [done|]. intros i Hi. unfold is_desc in Hi.
    assert (i = 0 ∨ i = 1 ∨ i = 2 ∨ i = 3 ∨ i = 4 ∨ i = 5 ∨ i = 6) as Hc by lia. repeat destruct Hc as [-> |Hc]; subst; done. }
  assert (arenas_ok None p (λ _, []) ∅) as Hok.
  { split; [done|done|done| |].
    - intros i b _ Hb. by apply not_elem_of_nil in Hb.
    - intros. constructor. }
  destruct (heap_ok_intro (Heap p _ ∅ m) _ Hr Hok) as [Hh Hl]. split; [exact Hh|]. intros y Hy. apply Hl in Hy. by destruct Hy as (a & x & Hx & _).
Qed.
End spec.

(** ** Concrete runs, on the page allocator of Palloc.v *)

Definition demo_descs : list desc := match malloc_init with Done ds => ds | _ => [] end.
Definition demo_heap : heap palloc := Heap demo_palloc demo_descs ∅ (λ _, 7).
(** The heap after [malloc (20)], and the block. *)
Definition demo_heap1 : heap palloc := match malloc 20 demo_heap with Done (_, h) => h | _ => demo_heap end.
Definition demo_block : Z := 0xc010100c.

Lemma demo_heap_ok : heap_ok demo_heap.
Proof.
  pose proof (malloc_init_spec demo_palloc (λ _, 7) (proj1 demo_palloc_ok)) as H. unfold demo_heap, demo_descs.
  revert H. unfold rets. generalize malloc_init. intros [ds| | |]; [by intros [H _]|done..].
Qed.
Lemma demo_block_live : heap_ok demo_heap1 ∧ live demo_heap1 demo_block.
Proof.
  destruct (runs_done _ _ _ (malloc_spec demo_heap 20 demo_heap_ok ltac:(lia))) as (b & h & E & Hh & _ & _ & Hl).
  assert (b = demo_block) as ->.
  { apply (f_equal (λ o, match o with Done (b, _) => b | _ => 0 end)) in E. vm_compute in E. by rewrite <-E. }
  unfold demo_heap1. rewrite E. split; [done|]. destruct Hl as [[? _]|(_ & _ & _ & _ & Hl)]; [done|]. apply Hl. by right.
Qed.

Lemma malloc_correct_witness : runs (malloc 20) demo_heap (λ b h', malloc_post demo_heap 20 b h') ∧ demo_block ≠ NULL.
Proof.
  split; [|done]. refine (runs_mono _ _ _ _ (malloc_correct demo_heap 20 demo_heap_ok _) _); [lia|]. intros b h' [H _]. exact H.
Defined.
Lemma free_correct_witness : runs (free demo_block) demo_heap1 (λ _ h', heap_ok h' ∧ ¬ live h' demo_block).
Proof.
  refine (runs_mono _ _ _ _ (free_correct demo_heap1 demo_block (proj1 demo_block_live) _) _); [right; apply demo_block_live|].
  intros _ h' (H1 & H2 & _). split; [exact H1|]. intros [_ Hne]%H2. by apply Hne.
Defined.
Lemma realloc_correct_witness : runs (realloc demo_block 3000) demo_heap1 (λ b h', heap_ok h').
Proof.
  refine (runs_mono _ _ _ _ (realloc_correct demo_heap1 demo_block 3000 (proj1 demo_block_live) _ _) _);
    [right; apply demo_block_live|lia|]. intros b h' [H _]. exact H.
Defined.
Lemma calloc_correct_witness : runs (calloc 5 4) demo_heap (λ b h', heap_ok h').
Proof.
  refine (runs_mono _ _ _ _ (calloc_correct demo_heap 5 4 demo_heap_ok _ _ _) _); [lia..|]. intros b h' [H _]. exact H.
Defined.

(** [size + sizeof *a] wraps around for a size just below 4 GB: a single page
    is handed out for it. *)
Lemma malloc_size_wraps : runs (malloc (2 ^ 32 - 1)) demo_heap (λ b h', b ≠ NULL ∧ bytes h' b = 4084).
Proof. vm_compute. split; [discriminate|reflexivity]. Qed.
(** The test for overflow in [calloc] misses products whose low 32 bits are
    not smaller than the factors. *)
Lemma calloc_overflow_missed : runs (calloc 65537 65537) demo_heap (λ p h', p ≠ NULL ∧ bytes h' p = 135156).
Proof. vm_compute. split; [discriminate|reflexivity]. Qed.
