(* ===== verification/Pagedir.v ===== *)
(** * Page directories (src/pintos/src/userprog/pagedir.c)

    Page tables and page directories are pages obtained from the page
    allocator, of which only the interface [PageAllocator] is used.  [tables]
    is the contents of these pages, 1024 entries each; [cr3] is the page
    directory base register and [tlb] the pages whose translations the CPU may
    have cached since it was last loaded.

    Seen from outside a directory is a function from user pages to entries.
    The theorems say how each operation changes that function, and that it
    changes no other directory's. *)

From S2P Require Import Prelude KList Bitmap Vaddr Palloc.

Record mmu (S : Type) : Type := Mmu {
  frames : S;
  tables : gmap Z (Z → Z);
  cr3 : Z;
  tlb : gset Z;
}.
Arguments Mmu {S}.
Arguments frames {S}.
Arguments tables {S}.
Arguments cr3 {S}.
Arguments tlb {S}.

Section pagedir.
Context {S : Type} `{!PageAllocator S}.
(** The directory with only kernel mappings, and the number of pages of RAM. *)
Context (init_page_dir init_ram_pages : Z).
(** Whether the kernel is built with virtual memory ([VM] defined). *)
Context (vm : bool).

Definition set_frames (f : S) (s : mmu S) : mmu S := Mmu f (tables s) (cr3 s) (tlb s).
Definition set_tables (t : gmap Z (Z → Z)) (s : mmu S) : mmu S := Mmu (frames s) t (cr3 s) (tlb s).

(** Calls of the page allocator. *)
Definition on_frames {A} (m : M S A) : M (mmu S) A := λ s,
  match m (frames s) with
  | Done (a, f) => Done (a, set_frames f s)
  | Panic => Panic | Undef => Undef | NoFuel => NoFuel
  end.

(** [t[i]] and [t[i] = e], [t] pointing to a page of entries. *)
Definition read_entry (t i : Z) : M (mmu S) Z := λ s,
  match tables s !! t with Some f => Done (f i, s) | None => Undef end.
Definition write_entry (t i e : Z) : M (mmu S) unit := λ s,
  match tables s !! t with
  | Some f => Done (tt, set_tables (<[t := λ j, if j =? i then e else f j]> (tables s)) s)
  | None => Undef
  end.

Definition pagedir_create : M (mmu S) Z :=
  pd ← on_frames (get_pages 1);
  if pd =? NULL then mret NULL else
  s ← get;
  match tables s !! init_page_dir with
  | Some f => put (set_tables (<[pd := f]> (tables s)) s);; mret pd
  | None => undefined
  end.

Definition free_table (t : Z) : M (mmu S) unit :=
  on_frames (free_pages t 1);; modify (λ s, set_tables (delete t (tables s)) s).

Fixpoint destroy_pages (pt : Z) (n : nat) (j : Z) : M (mmu S) unit :=
  match n with
  | O => mret tt
  | Datatypes.S n =>
      pte ← read_entry pt j;
      (if has pte PTE_P then page ← lift (pte_get_page pte); on_frames (free_pages page 1) else mret tt);;
      destroy_pages pt n (j + 1)
  end.
Fixpoint destroy_tables (pd : Z) (n : nat) (i : Z) : M (mmu S) unit :=
  match n with
  | O => mret tt
  | Datatypes.S n =>
      pde ← read_entry pd i;
      (if has pde PTE_P then
         pt ← lift (pde_get_pt pde);
         (if vm then mret tt else destroy_pages pt 1024 0);;
         free_table pt
       else mret tt);;
      destroy_tables pd n (i + 1)
  end.
Definition pagedir_destroy (pd : Z) : M (mmu S) unit :=
  if pd =? NULL then mret tt else
  assert (negb (pd =? init_page_dir));;
  destroy_tables pd (Z.to_nat (pd_no PHYS_BASE)) 0;;
  free_table pd.

(** The entry's table and index, none for a null pointer. *)
Definition lookup_page (pd vaddr : Z) (create : bool) : M (mmu S) (option (Z * Z)) :=
  assert (negb (pd =? NULL));;
  assert (negb create || is_user_vaddr vaddr);;
  pde ← read_entry pd (pd_no vaddr);
  ok ← (if pde =? 0 then
          if create then
            pt ← on_frames (get_pages 1);
            if pt =? NULL then mret false else
            modify (λ s, set_tables (<[pt := λ _, 0]> (tables s)) s);;
            e ← lift (pde_create pt);
            write_entry pd (pd_no vaddr) e;;
            mret true
          else mret false
        else mret true);
  if ok : bool then
    pde ← read_entry pd (pd_no vaddr);
    pt ← lift (pde_get_pt pde);
    mret (Some (pt, pt_no vaddr))
  else mret None.

Definition pagedir_set_page (pd upage kpage : Z) (writable : bool) : M (mmu S) bool :=
  assert (pg_ofs upage =? 0);;
  assert (pg_ofs kpage =? 0);;
  assert (is_user_vaddr upage);;
  p ← lift (vtop kpage);
  assert (Z.shiftr p PTSHIFT <? init_ram_pages);;
  assert (negb (pd =? init_page_dir));;
  pte ← lookup_page pd upage true;
  match pte with
  | Some (pt, i) =>
      e ← read_entry pt i;
      assert (Z.land e PTE_P =? 0);;
      e ← lift (pte_create_user kpage writable);
      write_entry pt i e;;
      mret true
  | None => mret false
  end.

Definition pagedir_get_page (pd uaddr : Z) : M (mmu S) Z :=
  assert (is_user_vaddr uaddr);;
  pte ← lookup_page pd uaddr false;
  match pte with
  | Some (pt, i) =>
      e ← read_entry pt i;
      if has e PTE_P then page ← lift (pte_get_page e); mret (u32 (page + pg_ofs uaddr)) else mret NULL
  | None => mret NULL
  end.

Definition pagedir_activate (pd : Z) : M (mmu S) unit :=
  let pd := if pd =? NULL then init_page_dir else pd in
  p ← lift (vtop pd);
  modify (λ s, Mmu (frames s) (tables s) p ∅).
Definition active_pd : M (mmu S) Z := p ← gets cr3; lift (ptov p).
Definition invalidate_pagedir (pd : Z) : M (mmu S) unit :=
  a ← active_pd; if a =? pd then pagedir_activate pd else mret tt.

Definition pagedir_clear_page (pd upage : Z) : M (mmu S) unit :=
  assert (pg_ofs upage =? 0);;
  assert (is_user_vaddr upage);;
  pte ← lookup_page pd upage false;
  match pte with
  | Some (pt, i) =>
      e ← read_entry pt i;
      if has e PTE_P then write_entry pt i (Z.land e (not32 PTE_P));; invalidate_pagedir pd else mret tt
  | None => mret tt
  end.

(** [pagedir_is_dirty] and [pagedir_is_accessed]. *)
Definition pagedir_test (flag pd vpage : Z) : M (mmu S) bool :=
  pte ← lookup_page pd vpage false;
  match pte with
  | Some (pt, i) => e ← read_entry pt i; mret (has e flag)
  | None => mret false
  end.
Definition pagedir_is_dirty : Z → Z → M (mmu S) bool := pagedir_test PTE_D.
Definition pagedir_is_accessed : Z → Z → M (mmu S) bool := pagedir_test PTE_A.

(** [pagedir_set_dirty] and [pagedir_set_accessed]. *)
Definition pagedir_mark (flag pd vpage : Z) (value : bool) : M (mmu S) unit :=
  pte ← lookup_page pd vpage false;
  match pte with
  | Some (pt, i) =>
      e ← read_entry pt i;
      if value then write_entry pt i (Z.lor e flag)
      else write_entry pt i (Z.land e (not32 flag));; invalidate_pagedir pd
  | None => mret tt
  end.
Definition pagedir_set_dirty : Z → Z → bool → M (mmu S) unit := pagedir_mark PTE_D.
Definition pagedir_set_accessed : Z → Z → bool → M (mmu S) unit := pagedir_mark PTE_A.
End pagedir.

(** ** A directory as a function from pages to entries *)

Section meaning.
Context {S : Type} `{!PageAllocator S} `{!PageAllocatorLaws S}.
Implicit Types s : mmu S.

(** The entry of the table at [t] with index [i]. *)
Definition entry_at s (t i : Z) : Z := match tables s !! t with Some f => f i | None => 0 end.
(** The kernel address of the page an entry points to. *)
Definition entry_base (e : Z) : Z := PHYS_BASE + 4096 * (e `div` 4096).
(** The page table entry for a user address, 0 where there is no page table. *)
Definition pte_of s (pd va : Z) : Z :=
  let e := entry_at s pd (pd_no va) in
  if e =? 0 then 0 else entry_at s (entry_base e) (pt_no va).

Definition is_user (va : Z) : Prop := 0 ≤ va < PHYS_BASE.

(** The page table at [pt] serves directory [pd] at index [i]. *)
Definition serves s (pd i pt : Z) : Prop := entry_at s pd i = pt - PHYS_BASE + 7 ∧ is_kpage pt.

(** The directories [D] are in order: their user parts point to page tables, no
    page table serves twice, and all of these pages are allocated. *)
Record dirs_ok (D : gset Z) s : Prop := {
  do_alloc : alloc_ok (frames s);
  do_tables : ∀ t, is_Some (tables s !! t) → is_kpage t ∧ in_use (frames s) (pg_no t);
  do_dirs : ∀ pd, pd ∈ D → is_Some (tables s !! pd);
  do_pde : ∀ pd i, pd ∈ D → 0 ≤ i < 768 → entry_at s pd i = 0 ∨
    ∃ pt, serves s pd i pt ∧ is_Some (tables s !! pt) ∧ pt ∉ D;
  do_once : ∀ pd pd' i i' pt, pd ∈ D → pd' ∈ D → 0 ≤ i < 768 → 0 ≤ i' < 768 →
    serves s pd i pt → serves s pd' i' pt → pd = pd' ∧ i = i';
  do_range : ∀ pd va, pd ∈ D → is_user va → 0 ≤ pte_of s pd va < 2 ^ 30;
  do_cr3 : 0 ≤ cr3 s < 2 ^ 30;
}.

Lemma user_indices va : is_user va → 0 ≤ pd_no va < 768 ∧ 0 ≤ pt_no va < 1024.
Proof. unfold is_user, PHYS_BASE. rewrite pd_no_div, pt_no_mod. intros. split; Z.to_euclidean_division_equations; lia. Qed.
Lemma same_page va va' : pg_no va = pg_no va' ↔ pd_no va = pd_no va' ∧ pt_no va = pt_no va'.
Proof. rewrite !pd_no_div, !pt_no_mod, !pg_no_div. split; [intros|intros []]; Z.to_euclidean_division_equations; lia. Qed.

Lemma serves_base s pd i pt : serves s pd i pt → entry_base (entry_at s pd i) = pt ∧ entry_at s pd i ≠ 0.
Proof.
  intros [-> [Hr Ha]]. unfold entry_base, PHYS_BASE in *. split; Z.to_euclidean_division_equations; lia.
Qed.
Lemma serves_pte s pd va pt : serves s pd (pd_no va) pt → pte_of s pd va = entry_at s pt (pt_no va).
Proof.
  intros H. destruct (serves_base _ _ _ _ H) as [Hb Hn]. unfold pte_of. destruct (Z.eqb_spec (entry_at s pd (pd_no va)) 0); [done|].
  by rewrite Hb.
Qed.
Lemma serves_unique s pd i pt pt' : serves s pd i pt → serves s pd i pt' → pt = pt'.
Proof. intros [E1 _] [E2 _]. lia. Qed.
Lemma pde_get_serves s pd i pt : serves s pd i pt → pde_get_pt (entry_at s pd i) = Done pt.
Proof.
  intros [-> Hk]. unfold pde_get_pt. rewrite has_kpage by (done || (unfold PTE_P; lia)).
  change (has 7 PTE_P) with true. cbn [ASSERT mbind outcome_bind]. by apply (entry_page pt 7).
Qed.

Lemma runs_read t i s (Q : Z → mmu S → Prop) : is_Some (tables s !! t) → Q (entry_at s t i) s → runs (read_entry t i) s Q.
Proof. unfold runs, read_entry, entry_at. intros [f ->]. done. Qed.

(** ** Writing an entry *)

Definition wrote (t i e : Z) s : mmu S :=
  match tables s !! t with
  | Some f => set_tables (<[t := λ j, if j =? i then e else f j]> (tables s)) s
  | None => s
  end.
Lemma runs_write t i e s (Q : unit → mmu S → Prop) : is_Some (tables s !! t) → Q tt (wrote t i e s) → runs (write_entry t i e) s Q.
Proof. unfold runs, write_entry, wrote. intros [f ->]. done. Qed.
Lemma entry_wrote t i e s t' i' : is_Some (tables s !! t) →
  entry_at (wrote t i e s) t' i' = if decide (t' = t ∧ i' = i) then e else entry_at s t' i'.
Proof.
  intros [f Hf]. unfold wrote, entry_at. rewrite Hf. simpl. destruct (decide (t' = t)) as [->|].
  - rewrite lookup_insert_eq, Hf. destruct (Z.eqb_spec i' i) as [->|]; destruct (decide _) as [[]|]; naive_solver.
  - rewrite lookup_insert_ne by done. destruct (decide _) as [[]|]; naive_solver.
Qed.
Lemma some_wrote t i e s t' : is_Some (tables (wrote t i e s) !! t') ↔ is_Some (tables s !! t').
Proof.
  unfold wrote. destruct (tables s !! t) as [f|] eqn:E; [|done]. simpl. destruct (decide (t' = t)) as [->|].
  - rewrite lookup_insert_eq, E. split; intros _; by eexists.
  - by rewrite lookup_insert_ne.
Qed.
Lemma wrote_same t i e s : frames (wrote t i e s) = frames s ∧ cr3 (wrote t i e s) = cr3 s ∧ tlb (wrote t i e s) = tlb s.
Proof. unfold wrote. by destruct (tables s !! t). Qed.

Section write.
Context (D : gset Z) (s : mmu S) (Hok : dirs_ok D s) (pd va pt e : Z).
Context (Hpd : pd ∈ D) (Hva : is_user va) (Hserves : serves s pd (pd_no va) pt) (He : 0 ≤ e < 2 ^ 30).

Lemma table_apart : pt ∉ D ∧ is_Some (tables s !! pt).
Proof using Hok Hpd Hva Hserves.
  destruct (user_indices va Hva) as [Hi _]. destruct (serves_base _ _ _ _ Hserves) as [_ Hn].
  destruct (do_pde _ _ Hok pd (pd_no va) Hpd Hi) as [?|(pt' & Hs' & Hsome & Hnin)]; [done|].
  by rewrite (serves_unique _ _ _ _ _ Hserves Hs').
Qed.
Lemma dir_wrote pd' i : pd' ∈ D → entry_at (wrote pt (pt_no va) e s) pd' i = entry_at s pd' i.
Proof using Hok Hpd Hva Hserves.
  destruct table_apart as [Hnin Hsome]. intros H. rewrite entry_wrote by done. destruct (decide _) as [[-> _]|]; done.
Qed.
Lemma pte_wrote pd' va' : pd' ∈ D → is_user va' →
  pte_of (wrote pt (pt_no va) e s) pd' va' = if decide (pd' = pd ∧ pg_no va' = pg_no va) then e else pte_of s pd' va'.
Proof using Hok Hpd Hva Hserves.
  intros Hpd' Hva'. destruct (user_indices va' Hva') as [Hi' _]. destruct (user_indices va Hva) as [Hi _].
  destruct table_apart as [Hnin Hsome]. destruct (serves_base _ _ _ _ Hserves) as [Hb Hn].
  destruct (do_pde _ _ Hok pd' (pd_no va') Hpd' Hi') as [E|(pt' & Hs' & _)].
  - unfold pte_of. rewrite dir_wrote, E by done. simpl. destruct (decide _) as [[-> Hpg]|]; [|done].
    apply same_page in Hpg as [Hd _]. by rewrite <-Hd, E in Hn.
  - assert (serves (wrote pt (pt_no va) e s) pd' (pd_no va') pt') as Hs1 by (unfold serves in *; by rewrite dir_wrote).
    rewrite (serves_pte _ _ _ _ Hs1), (serves_pte _ _ _ _ Hs'), entry_wrote by done.
    destruct (decide (pt' = pt ∧ pt_no va' = pt_no va)) as [[-> Ht]|Hno].
    + destruct (do_once _ _ Hok pd pd' (pd_no va) (pd_no va') pt) as [-> Hd]; [done..|].
      destruct (decide _) as [|Hne]; [done|]. destruct Hne. split; [done|]. by apply same_page.
    + destruct (decide _) as [[-> Hpg]|]; [|done]. apply same_page in Hpg as [Hd Ht]. destruct Hno. split; [|done].
      rewrite Hd in Hs'. by apply (serves_unique s pd (pd_no va)).
Qed.
Lemma wrote_ok : dirs_ok D (wrote pt (pt_no va) e s).
Proof using Hok Hpd Hva Hserves He.
  destruct (wrote_same pt (pt_no va) e s) as (Ef & Ec & _). split.
  - rewrite Ef. apply Hok.
  - intros t Ht%some_wrote. rewrite Ef. by apply Hok.
  - intros pd' H. apply some_wrote. by apply Hok.
  - intros pd' i H Hi. rewrite dir_wrote by done. destruct (do_pde _ _ Hok pd' i H Hi) as [|(pt' & Hs' & Hsome & Hnin)]; [by left|right].
    exists pt'. split; [unfold serves in *; by rewrite dir_wrote|]. split; [by apply some_wrote|done].
  - intros pd1 pd2 i1 i2 pt' H1 H2 Hi1 Hi2 Hs1 Hs2. unfold serves in Hs1, Hs2. rewrite dir_wrote in Hs1, Hs2 by done.
    by eapply (do_once _ _ Hok).
  - intros pd' va' H Hva'. rewrite pte_wrote by done. destruct (decide _); [done|]. by apply (do_range _ _ Hok).
  - rewrite Ec. apply Hok.
Qed.
End write.

(** ** Finding an entry *)

(** Nothing visible has changed. *)
Definition same_view (D : gset Z) s s' : Prop :=
  dirs_ok D s' ∧ (∀ pd va, pd ∈ D → is_user va → pte_of s' pd va = pte_of s pd va) ∧ cr3 s' = cr3 s ∧ tlb s' = tlb s.

Lemma same_view_refl D s : dirs_ok D s → same_view D s s.
Proof. intros. by split. Qed.

Lemma kpage_null a : is_kpage a → a ≠ NULL.
Proof. intros [H _]. unfold PHYS_BASE, NULL in *. lia. Qed.

(** More pages have been allocated. *)
Lemma set_frames_view D s f : dirs_ok D s → alloc_ok f → (∀ n, in_use (frames s) n → in_use f n) → same_view D s (set_frames f s).
Proof.
  intros Hok Ha Hn. split; [|done]. destruct Hok as [H1 H2 H3 H4 H5 H6 H7]. split; try done.
  intros t Ht. destruct (H2 t Ht). split; [done|]. by apply Hn.
Qed.

Section add.
Context (D : gset Z) (s : mmu S) (Hok : dirs_ok D s) (pd i pt : Z).
Context (Hpd : pd ∈ D) (Hi : 0 ≤ i < 768) (Hzero : entry_at s pd i = 0).
Context (Hpt : is_kpage pt) (Hnew : tables s !! pt = None) (Huse : in_use (frames s) (pg_no pt)).

(** An empty page table is installed. *)
Definition added : mmu S := wrote pd i (pt - PHYS_BASE + 7) (set_tables (<[pt := λ _, 0]> (tables s)) s).

Lemma dir_not_new pd' : pd' ∈ D → pd' ≠ pt.
Proof using Hok Hnew. intros H ->. destruct (do_dirs _ _ Hok pt H) as [f Hf]. by rewrite Hnew in Hf. Qed.
Lemma added_some t : is_Some (tables added !! t) ↔ t = pt ∨ is_Some (tables s !! t).
Proof using Type.
  unfold added. rewrite some_wrote. simpl. destruct (decide (t = pt)) as [->|].
  - rewrite lookup_insert_eq. split; [by left|by eexists].
  - rewrite lookup_insert_ne by done. split; [by right|by intros [|]].
Qed.
Lemma added_entry t j : entry_at added t j = if decide (t = pd ∧ j = i) then pt - PHYS_BASE + 7 else if decide (t = pt) then 0 else entry_at s t j.
Proof using Hok Hpd Hnew.
  pose proof (dir_not_new pd Hpd) as Hne.
  unfold added. rewrite entry_wrote.
  2: { simpl. rewrite lookup_insert_ne by done. by apply (do_dirs _ _ Hok). }
  destruct (decide _); [done|]. unfold entry_at. simpl. destruct (decide (t = pt)) as [->|]; [by rewrite lookup_insert_eq|by rewrite lookup_insert_ne].
Qed.
Lemma added_serves pd' j pt' : pd' ∈ D → 0 ≤ j < 768 →
  serves added pd' j pt' ↔ if decide (pd' = pd ∧ j = i) then pt' = pt else serves s pd' j pt'.
Proof using Hok Hpd Hnew Hpt.
  intros Hpd' Hj. unfold serves. rewrite added_entry. destruct (decide _) as [|Hno].
  - split; [intros [E _]; lia|by intros ->].
  - destruct (decide (pd' = pt)) as [->|]; [|done]. by destruct (dir_not_new pt Hpd').
Qed.
Lemma added_pte pd' va : pd' ∈ D → is_user va → pte_of added pd' va = pte_of s pd' va.
Proof using Hok Hpd Hnew Hpt Hzero.
  clear Hi Huse. intros Hpd' Hva. destruct (user_indices va Hva) as [Hj _].
  pose proof (dir_not_new pd' Hpd') as Hne.
  destruct (decide (pd' = pd ∧ pd_no va = i)) as [[-> E]|Hno].
  - assert (serves added pd (pd_no va) pt) as Hs by (apply added_serves; [done..|]; by destruct (decide _); [|tauto]).
    rewrite (serves_pte _ _ _ _ Hs), added_entry. destruct (decide (pt = pd ∧ _)) as [[-> _]|]; [done|].
    destruct (decide (pt = pt)); [|done]. unfold pte_of. by rewrite E, Hzero.
  - destruct (do_pde _ _ Hok pd' (pd_no va) Hpd' Hj) as [E|(pt' & Hs' & Hsome & Hnin)].
    + unfold pte_of. rewrite added_entry. destruct (decide _); [done|]. destruct (decide (pd' = pt)); [done|]. by rewrite E.
    + assert (serves added pd' (pd_no va) pt') as Hs by (apply added_serves; [done..|]; by destruct (decide _); [tauto|]).
      rewrite (serves_pte _ _ _ _ Hs), (serves_pte _ _ _ _ Hs'), added_entry.
      destruct (decide (pt' = pd ∧ _)) as [[-> _]|]; [done|]. destruct (decide (pt' = pt)) as [->|]; [|done].
      destruct Hsome. congruence.
Qed.
Lemma added_view : same_view D s added.
Proof using Hok Hpd Hi Hzero Hpt Hnew Huse.
  destruct (wrote_same pd i (pt - PHYS_BASE + 7) (set_tables (<[pt := λ _, 0]> (tables s)) s)) as (Ef & Ec & Et). fold added in Ef, Ec, Et.
  simpl in *. split; [|by split; [intros; apply added_pte|]]. split.
  - rewrite Ef. apply Hok.
  - intros t [->|Ht]%added_some; rewrite Ef; [done|]. by apply Hok.
  - intros pd' H. apply added_some. right. by apply Hok.
  - intros pd' j Hpd' Hj. destruct (decide (pd' = pd ∧ j = i)) as [[-> ->]|Hno].
    + right. exists pt. split; [apply added_serves; [done..|]; by destruct (decide _); [|tauto]|].
      split; [apply added_some; by left|]. intros H. destruct (do_dirs _ _ Hok pt H). congruence.
    + rewrite added_entry. destruct (decide _); [done|]. destruct (decide (pd' = pt)); [by left|].
      destruct (do_pde _ _ Hok pd' j Hpd' Hj) as [|(pt' & Hs' & Hsome & Hnin)]; [by left|right]. exists pt'.
      split; [apply added_serves; [done..|]; by destruct (decide _); [tauto|]|]. split; [apply added_some; by right|done].
  - intros pd1 pd2 i1 i2 pt' H1 H2 Hi1 Hi2 Hs1 Hs2. apply added_serves in Hs1, Hs2; try done.
    assert (∀ pd' j, pd' ∈ D → 0 ≤ j < 768 → ¬ serves s pd' j pt) as Hfresh.
    { intros pd' j Hpd' Hj Hs. destruct (do_pde _ _ Hok pd' j Hpd' Hj) as [E|(pt2 & Hs2' & Hsome & _)].
      - by destruct (serves_base _ _ _ _ Hs).
      - rewrite (serves_unique _ _ _ _ _ Hs2' Hs) in Hsome. destruct Hsome. congruence. }
    destruct (decide (pd1 = pd ∧ i1 = i)) as [[-> ->]|], (decide (pd2 = pd ∧ i2 = i)) as [[-> ->]|]; subst; try done.
    + by destruct (Hfresh pd2 i2).
    + by destruct (Hfresh pd1 i1).
    + by eapply (do_once _ _ Hok).
  - intros pd' va Hpd' Hva. rewrite added_pte by done. by apply (do_range _ _ Hok).
  - rewrite Ec. apply Hok.
Qed.
End add.

Lemma pde_create_spec pt : is_kpage pt → pde_create pt = Done (pt - PHYS_BASE + 7).
Proof.
  intros Hk. destruct (vtop_kpage pt Hk) as [Hv Hm]. unfold pde_create. destruct Hk as [_ Ha]. rewrite pg_ofs_mod, Ha, Hv. simpl.
  f_equal. rewrite <-!Z.lor_assoc, <-lor_flags by (done || lia). done.
Qed.

Lemma lookup_spec D s pd va create : dirs_ok D s → pd ∈ D → is_user va →
  runs (lookup_page pd va create) s (λ r s', same_view D s s' ∧ (create = false → s' = s) ∧
    match r with
    | None => pte_of s pd va = 0
    | Some (pt, i) => i = pt_no va ∧ serves s' pd (pd_no va) pt
    end).
Proof.
  intros Hok Hpd Hva. destruct (user_indices va Hva) as [Hi _]. pose proof (do_dirs _ _ Hok pd Hpd) as Hsome.
  assert (is_kpage pd) as Hk by (by apply (do_tables _ _ Hok)).
  unfold lookup_page. run. apply runs_assert; [destruct (Z.eqb_spec pd NULL); [by destruct (kpage_null pd)|done]|].
  run. apply runs_assert.
  { destruct create; [|done]. simpl. unfold is_user_vaddr, is_user in *. apply Z.ltb_lt. lia. }
  run. apply runs_read; [done|]. run.
  (* once the directory has the table *)
  assert (∀ s1 pt, same_view D s s1 → (create = false → s1 = s) → serves s1 pd (pd_no va) pt →
    runs (pde ← read_entry pd (pd_no va); pt ← lift (pde_get_pt pde); mret (Some (pt, pt_no va))) s1
      (λ r s', same_view D s s' ∧ (create = false → s' = s) ∧
         match r with None => pte_of s pd va = 0 | Some (pt, i) => i = pt_no va ∧ serves s' pd (pd_no va) pt end)) as Hlast.
  { intros s1 pt Hv Hc Hs. run. apply runs_read; [by apply (do_dirs _ _ (proj1 Hv))|]. run.
    rewrite (pde_get_serves _ _ _ _ Hs). simpl. by run. }
  destruct (Z.eqb_spec (entry_at s pd (pd_no va)) 0) as [E|E].
  - destruct create.
    + run. unfold runs, on_frames.
      pose proof (get_pages_law (frames s) 1 (do_alloc _ _ Hok) ltac:(lia)) as Hget. unfold runs in Hget.
      destruct (get_pages 1 (frames s)) as [[pt f]| | |]; [|done..]. destruct Hget as [Ha Hcase].
      destruct Hcase as [[-> Hn]|(Hkp & _ & Hfree & Huse)].
      * simpl. split; [apply set_frames_view; [done..|]; intros n; by rewrite Hn|]. split; [done|]. unfold pte_of. by rewrite E.
      * destruct (Z.eqb_spec pt NULL) as [->|_]; [by destruct (kpage_null NULL)|].
        assert (same_view D s (set_frames f s)) as Hv1 by (apply set_frames_view; [done..|]; intros n ?; apply Huse; by left).
        assert (page_group pt 1 (pg_no pt)) as Hg by (unfold page_group; lia).
        assert (tables (set_frames f s) !! pt = None) as Hnone.
        { simpl. destruct (tables s !! pt) eqn:Et; [|done]. destruct (do_tables _ _ Hok pt) as [_ Hu]; [by eexists|].
          by destruct (Hfree (pg_no pt)). }
        assert (same_view D s (added (set_frames f s) pd (pd_no va) pt)) as Hv.
        { destruct (added_view D _ (proj1 Hv1) pd (pd_no va) pt) as (A & B & C & E'); [done..|simpl; apply Huse; by right|].
          split; [done|]. split; [|done]. intros. by rewrite B. }
        change (runs (modify (λ s, set_tables (<[pt := λ _, 0]> (tables s)) s);; e ← lift (pde_create pt);
            write_entry pd (pd_no va) e;; mret true) (set_frames f s) (λ (ok : bool) s1, runs (if ok then
            pde ← read_entry pd (pd_no va); pt ← lift (pde_get_pt pde); mret (Some (pt, pt_no va)) else mret None) s1
              (λ r s', same_view D s s' ∧ (true = false → s' = s) ∧
         match r with None => pte_of s pd va = 0 | Some (pt, i) => i = pt_no va ∧ serves s' pd (pd_no va) pt end))).
        run. rewrite pde_create_spec by done. simpl. run. apply runs_write.
        { simpl. destruct (decide (pd = pt)) as [->|]; [by rewrite lookup_insert_eq; eexists|by rewrite lookup_insert_ne]. }
        run. apply runs_bind_inv, (Hlast _ pt); [exact Hv|done|].
        apply (added_serves D _ (proj1 Hv1) pd (pd_no va) pt); [done..|]. by destruct (decide _); [|tauto].
    + run. split; [by apply same_view_refl|]. split; [done|]. unfold pte_of. by rewrite E.
  - run. destruct (do_pde _ _ Hok pd (pd_no va) Hpd Hi) as [|(pt & Hs & _)]; [done|].
    apply runs_bind_inv, (Hlast s pt); [by apply same_view_refl|done|done].
Qed.
End meaning.

(** ** Entries *)

Definition is_entry (e : Z) : Prop := 0 ≤ e < 2 ^ 30.

Lemma entry_parts e : is_entry e → ∃ a f, e = a - PHYS_BASE + f ∧ is_kpage a ∧ 0 ≤ f < 4096 ∧ a = entry_base e ∧ f = e `mod` 4096.
Proof.
  intros He. exists (entry_base e), (e `mod` 4096). unfold entry_base, is_kpage, is_entry, PHYS_BASE in *.
  split_and!; Z.to_euclidean_division_equations; lia.
Qed.
Lemma pte_get_page_base e : is_entry e → pte_get_page e = Done (entry_base e).
Proof. intros He. destruct (entry_parts e He) as (a & f & -> & Ha & Hf & Eb & _). rewrite <-Eb. by apply entry_page. Qed.
Lemma lor_entry e flag : is_entry e → 0 ≤ flag < 4096 → is_entry (Z.lor e flag).
Proof.
  intros He Hg. destruct (entry_parts e He) as (a & f & E & Ha & Hf & Eb & _). destruct (vtop_kpage a Ha) as [_ Hm].
  assert (0 ≤ Z.lor f flag < 4096) as Hlor.
  { split; [apply Z.lor_nonneg; lia|]. destruct (decide (Z.lor f flag = 0)) as [->|]; [lia|].
    assert (0 ≤ Z.lor f flag) by (apply Z.lor_nonneg; lia).
    assert (∀ x, 0 ≤ x < 4096 → Z.log2 x < 12) as Hl.
    { intros x Hx. destruct (decide (x = 0)) as [->|]; [done|]. apply Z.log2_lt_pow2; lia. }
    change 4096 with (2 ^ 12). apply Z.log2_lt_pow2; [lia|]. rewrite Z.log2_lor by lia.
    pose proof (Hl f Hf). pose proof (Hl flag Hg). lia. }
  assert (Z.lor e flag = a - PHYS_BASE + Z.lor f flag) as ->.
  { rewrite E, <-(lor_flags (a - PHYS_BASE) f), <-Z.lor_assoc, lor_flags by done. done. }
  unfold is_entry, is_kpage, PHYS_BASE in *. Z.to_euclidean_division_equations; lia.
Qed.
Lemma land_entry e m : is_entry e → 0 ≤ m → is_entry (Z.land e m).
Proof.
  intros [H0 H1] Hm. split; [apply Z.land_nonneg; lia|]. destruct (decide (Z.land e m = 0)) as [->|]; [lia|].
  assert (0 ≤ Z.land e m) by (apply Z.land_nonneg; lia). apply Z.log2_lt_pow2; [lia|].
  eapply Z.le_lt_trans; [apply Z.log2_land; lia|]. eapply Z.le_lt_trans; [apply Z.le_min_l|].
  destruct (decide (e = 0)) as [->|]; [done|]. apply Z.log2_lt_pow2; lia.
Qed.

Section operations.
Context {S : Type} `{!PageAllocator S} `{!PageAllocatorLaws S}.
Context (init_page_dir init_ram_pages : Z).
Implicit Types s : mmu S.

(** In [s'] the entry for the page of [va] in [pd] is [e], and all other entries
    of all directories are those of [s]. *)
Definition view_set (D : gset Z) (pd va e : Z) s s' : Prop :=
  dirs_ok D s' ∧ ∀ pd' va', pd' ∈ D → is_user va' →
    pte_of s' pd' va' = if decide (pd' = pd ∧ pg_no va' = pg_no va) then e else pte_of s pd' va'.

Lemma write_view D s s1 pd va pt e (Q : unit → mmu S → Prop) : same_view D s s1 → pd ∈ D → is_user va →
  serves s1 pd (pd_no va) pt → is_entry e →
  (∀ s', view_set D pd va e s s' → cr3 s' = cr3 s → tlb s' = tlb s → Q tt s') →
  runs (write_entry pt (pt_no va) e) s1 Q.
Proof using Type.
  intros (Hok & Hv & Hc & Ht) Hpd Hva Hs He HQ. destruct (table_apart D s1 Hok pd va pt Hpd Hva Hs) as [_ Hsome].
  apply runs_write; [done|]. destruct (wrote_same pt (pt_no va) e s1) as (_ & Ec & Et). apply HQ; [|congruence..].
  split; [by apply (wrote_ok D s1 Hok pd va pt e)|]. intros pd' va' Hpd' Hva'.
  rewrite (pte_wrote D s1 Hok pd va pt e Hpd Hva Hs) by done. by rewrite Hv.
Qed.

(** Reading the entry that was found. *)
Lemma read_view D s s1 pd va pt (Q : Z → mmu S → Prop) : same_view D s s1 → pd ∈ D → is_user va →
  serves s1 pd (pd_no va) pt → Q (pte_of s pd va) s1 → runs (read_entry pt (pt_no va)) s1 Q.
Proof using Type.
  intros (Hok & Hv & _ & _) Hpd Hva Hs HQ. destruct (table_apart D s1 Hok pd va pt Hpd Hva Hs) as [_ Hsome].
  apply runs_read; [done|]. rewrite <-(serves_pte _ _ _ _ Hs). by rewrite Hv.
Qed.

Lemma get_page_spec D s pd va : dirs_ok D s → pd ∈ D → is_user va →
  runs (pagedir_get_page pd va) s (λ r s', s' = s ∧
    r = if has (pte_of s pd va) PTE_P then u32 (entry_base (pte_of s pd va) + pg_ofs va) else NULL).
Proof using PageAllocatorLaws0.
  intros Hok Hpd Hva. pose proof (do_range _ _ Hok pd va Hpd Hva) as He. unfold pagedir_get_page. run. apply runs_assert.
  { unfold is_user_vaddr, is_user in *. apply Z.ltb_lt. lia. }
  run. eapply runs_mono; [by apply (lookup_spec D)|]. intros [[pt i]|] s1 (Hv & E & H); rewrite E in * by done.
  - destruct H as [-> Hs]. run. eapply read_view; [done..|]. destruct (has _ _); run; [|done].
    rewrite pte_get_page_base by done. simpl. by run.
  - run. by rewrite H.
Qed.

Lemma set_page_spec D s pd upage kpage w : dirs_ok D s → pd ∈ D → pd ≠ init_page_dir → is_user upage → pg_ofs upage = 0 →
  is_kpage kpage → (kpage - PHYS_BASE) `div` 4096 < init_ram_pages → has (pte_of s pd upage) PTE_P = false →
  runs (pagedir_set_page init_page_dir init_ram_pages pd upage kpage w) s (λ r s',
    cr3 s' = cr3 s ∧ tlb s' = tlb s ∧
    if r : bool then view_set D pd upage (kpage - PHYS_BASE + user_flags w) s s' else same_view D s s').
Proof using PageAllocatorLaws0.
  intros Hok Hpd Hinit Hu Hofs Hk Hram Hp. destruct (vtop_kpage kpage Hk) as [Hvt _]. unfold pagedir_set_page.
  run. apply runs_assert; [by rewrite Hofs|]. run. apply runs_assert; [rewrite pg_ofs_mod; destruct Hk as [_ ->]; done|].
  run. apply runs_assert; [unfold is_user_vaddr, is_user in *; apply Z.ltb_lt; lia|]. run. rewrite Hvt. simpl.
  run. apply runs_assert; [unfold PTSHIFT, PGBITS; rewrite Z.shiftr_div_pow2 by lia; by apply Z.ltb_lt|].
  run. apply runs_assert; [by destruct (Z.eqb_spec pd init_page_dir)|]. run.
  eapply runs_mono; [by apply (lookup_spec D)|]. intros [[pt i]|] s1 (Hv & _ & H).
  - destruct H as [-> Hs]. run. eapply read_view; [done..|]. run. apply runs_assert; [unfold has in Hp; by apply negb_false_iff in Hp|].
    run. rewrite pte_create_user_spec by done. simpl. run. eapply write_view; [done..| |].
    + unfold is_entry, is_kpage, PHYS_BASE, user_flags in *. destruct w; Z.to_euclidean_division_equations; lia.
    + intros s' Hset Hc Ht. by run.
  - run. by destruct Hv as (? & ? & ? & ?).
Qed.

(** Code that stops the kernel after a part that returns. *)
Lemma bind_panic {T A B} (m : M T A) (f : A → M T B) t : runs m t (λ a t', f a t' = Panic) → (m ≫= f) t = Panic.
Proof using Type. clear. unfold runs, mbind, M_bind. by destruct (m t) as [[]| | |]. Qed.

Lemma set_page_mapped D s pd upage kpage w : dirs_ok D s → pd ∈ D → pd ≠ init_page_dir → is_user upage → pg_ofs upage = 0 →
  is_kpage kpage → (kpage - PHYS_BASE) `div` 4096 < init_ram_pages → has (pte_of s pd upage) PTE_P = true →
  pagedir_set_page init_page_dir init_ram_pages pd upage kpage w s = Panic.
Proof using PageAllocatorLaws0.
  intros Hok Hpd Hinit Hu Hofs Hk Hram Hp. destruct (vtop_kpage kpage Hk) as [Hvt _]. unfold pagedir_set_page.
  apply bind_panic, runs_assert; [by rewrite Hofs|]. apply bind_panic, runs_assert; [rewrite pg_ofs_mod; destruct Hk as [_ ->]; done|].
  apply bind_panic, runs_assert; [unfold is_user_vaddr, is_user in *; apply Z.ltb_lt; lia|].
  apply bind_panic. rewrite Hvt. run. simpl.
  apply bind_panic, runs_assert; [unfold PTSHIFT, PGBITS; rewrite Z.shiftr_div_pow2 by lia; by apply Z.ltb_lt|].
  apply bind_panic, runs_assert; [by destruct (Z.eqb_spec pd init_page_dir)|].
  apply bind_panic. eapply runs_mono; [by apply (lookup_spec D)|]. intros [[pt i]|] s1 (Hv & _ & H); [|by rewrite H in Hp].
  destruct H as [-> Hs]. apply bind_panic. eapply read_view; [done..|]. unfold has in Hp. by apply negb_true_iff in Hp as ->.
Qed.

(** The TLB holds nothing of a directory whose entries have lost a flag. *)
Definition flushed pd s s' : Prop := cr3 s' = cr3 s ∧ (ptov (cr3 s) = Done pd → tlb s' = ∅).

Lemma invalidate_spec D s s1 pd va e (Q : unit → mmu S → Prop) : view_set D pd va e s s1 → pd ∈ D → cr3 s1 = cr3 s → 
  (∀ s', view_set D pd va e s s' → flushed pd s s' → Q tt s') → runs (invalidate_pagedir init_page_dir pd) s1 Q.
Proof using Type.
  intros [Hok Hv] Hpd Hc HQ. pose proof (do_cr3 _ _ Hok) as Hr. unfold invalidate_pagedir, active_pd. run.
  assert (is_kpage pd) as Hk by (apply (do_tables _ _ Hok), (do_dirs _ _ Hok); done).
  assert (ptov (cr3 s1) = Done (cr3 s1 + PHYS_BASE)) as Ep.
  { unfold ptov, PHYS_BASE in *. destruct (Z.ltb_spec (cr3 s1) 0xc0000000); [|lia]. cbn [ASSERT mbind outcome_bind]. by rewrite u32_small by lia. }
  rewrite Ep. simpl. destruct (Z.eqb_spec (cr3 s1 + PHYS_BASE) pd) as [E|E].
  - unfold pagedir_activate. destruct (Z.eqb_spec pd NULL) as [->|]; [by destruct (kpage_null NULL)|].
    destruct (vtop_kpage pd Hk) as [-> _]. run. simpl. run. assert (pd - PHYS_BASE = cr3 s1) as -> by lia. apply HQ.
    + split; [|done]. destruct Hok. by split.
    + split; [done|done].
  - run. apply HQ; [by split|]. split; [done|]. rewrite <-Hc, Ep. by intros [= ?].
Qed.

Lemma clear_page_spec D s pd upage : dirs_ok D s → pd ∈ D → is_user upage → pg_ofs upage = 0 →
  runs (pagedir_clear_page init_page_dir pd upage) s (λ _ s',
    if has (pte_of s pd upage) PTE_P then
      view_set D pd upage (Z.land (pte_of s pd upage) (not32 PTE_P)) s s' ∧ flushed pd s s'
    else s' = s).
Proof using PageAllocatorLaws0.
  intros Hok Hpd Hu Hofs. unfold pagedir_clear_page. run. apply runs_assert; [by rewrite Hofs|].
  run. apply runs_assert; [unfold is_user_vaddr, is_user in *; apply Z.ltb_lt; lia|]. run.
  eapply runs_mono; [by apply (lookup_spec D)|]. intros [[pt i]|] s1 (Hv & E & H); rewrite E in * by done.
  - destruct H as [-> Hs]. run. eapply read_view; [done..|]. destruct (has _ _); run; [|done]. eapply write_view; [done..| |].
    + apply land_entry; [by apply (do_range _ _ Hok)|done].
    + intros s' Hset Hc Ht. eapply invalidate_spec; [done..|]. by intros s2 Hset2 Hf.
  - run. by rewrite H.
Qed.

Lemma mark_spec D s pd va flag value : dirs_ok D s → pd ∈ D → is_user va → 0 ≤ flag < 4096 →
  runs (pagedir_mark init_page_dir flag pd va value) s (λ _ s', s' = s ∧ pte_of s pd va = 0 ∨
    (if value : bool then view_set D pd va (Z.lor (pte_of s pd va) flag) s s' ∧ cr3 s' = cr3 s
     else view_set D pd va (Z.land (pte_of s pd va) (not32 flag)) s s' ∧ flushed pd s s')).
Proof using PageAllocatorLaws0.
  intros Hok Hpd Hu Hfl. unfold pagedir_mark. run. pose proof (do_range _ _ Hok pd va Hpd Hu) as He.
  eapply runs_mono; [by apply (lookup_spec D)|]. intros [[pt i]|] s1 (Hv & E & H); rewrite E in * by done.
  - destruct H as [-> Hs]. run. eapply read_view; [done..|]. destruct value.
    + eapply write_view; [done..|by apply lor_entry|]. intros s' Hset Hc Ht. by right.
    + run. eapply write_view; [done..| |].
      * apply land_entry; [done|]. apply Z.mod_pos_bound. lia.
      * intros s' Hset Hc Ht. eapply invalidate_spec; [done..|]. intros s2 Hset2 Hf. by right.
  - run. by left.
Qed.
Lemma test_spec D s pd va flag : dirs_ok D s → pd ∈ D → is_user va →
  runs (pagedir_test flag pd va) s (λ r s', s' = s ∧ r = has (pte_of s pd va) flag).
Proof using PageAllocatorLaws0.
  intros Hok Hpd Hu. unfold pagedir_test. run. eapply runs_mono; [by apply (lookup_spec D)|].
  intros [[pt i]|] s1 (Hv & E & H); rewrite E in * by done.
  - destruct H as [-> Hs]. run. eapply read_view; [done..|]. by run.
  - run. by rewrite H.
Qed.
End operations.

(** ** Flags *)

Lemma has_testbit e k : 0 ≤ k → has e (2 ^ k) = Z.testbit e k.
Proof. apply land_pow2_testbit. Qed.

(** An update of bit [k], below 12, of an entry. *)
Lemma flag_update f k v e : acts_on f k v → 0 ≤ k < 12 → is_entry e →
  has (f e) (2 ^ k) = v (has e (2 ^ k)) ∧ entry_base (f e) = entry_base e ∧
  ∀ j, 0 ≤ j < 32 → j ≠ k → has (f e) (2 ^ j) = has e (2 ^ j).
Proof.
  intros Hf Hk [H0 H1]. assert (is_u32 e) as Hu by (split; lia). destruct (Hf e Hu) as [Hfu Hbit].
  rewrite !has_testbit by lia. split_and!.
  - rewrite Hbit by lia. by destruct (Z.eqb_spec k k).
  - unfold entry_base. do 2 f_equal. change 4096 with (2 ^ 12). rewrite <-!Z.shiftr_div_pow2 by lia.
    apply Z.bits_inj'. intros i Hi. rewrite !Z.shiftr_spec by done.
    destruct (decide (i + 12 < 32)); [|by rewrite !u32_bits by (done || lia)].
    rewrite Hbit by lia. by destruct (Z.eqb_spec (i + 12) k); [lia|].
  - intros j Hj Hne. rewrite !has_testbit by lia. rewrite Hbit by lia. by destruct (Z.eqb_spec j k).
Qed.

(** ** What directories promise *)

Section contract.
Context {S : Type} `{!PageAllocator S} `{!PageAllocatorLaws S}.
Context (init_page_dir init_ram_pages : Z).
Implicit Types s : mmu S.

(** [get_page] answers the same in both states. *)
Definition same_answer (pd va : Z) s s' : Prop :=
  ∃ a, runs (pagedir_get_page pd va) s (λ r _, r = a) ∧ runs (pagedir_get_page pd va) s' (λ r _, r = a).

Lemma answer_by D s pd va : dirs_ok D s → pd ∈ D → is_user va →
  runs (pagedir_get_page pd va) s (λ r _, r = if has (pte_of s pd va) PTE_P then u32 (entry_base (pte_of s pd va) + pg_ofs va) else NULL).
Proof using PageAllocatorLaws0. intros. eapply runs_mono; [by eapply get_page_spec|]. by intros r s' [_ ->]. Qed.
Lemma same_answer_by D s s' pd va : dirs_ok D s → dirs_ok D s' → pd ∈ D → is_user va →
  has (pte_of s' pd va) PTE_P = has (pte_of s pd va) PTE_P → entry_base (pte_of s' pd va) = entry_base (pte_of s pd va) → same_answer pd va s s'.
Proof using PageAllocatorLaws0.
  intros H1 H2 Hpd Hva Ep Eb. eexists. split; [by eapply answer_by|]. rewrite <-Ep, <-Eb. by eapply answer_by.
Qed.
Lemma user_shift upage ofs : is_user upage → pg_ofs upage = 0 → 0 ≤ ofs < PGSIZE →
  is_user (upage + ofs) ∧ pg_no (upage + ofs) = pg_no upage ∧ pg_ofs (upage + ofs) = ofs.
Proof using Type.
  clear. unfold is_user, PHYS_BASE. rewrite PGSIZE_eq, !pg_ofs_mod, !pg_no_div. intros. split_and!; Z.to_euclidean_division_equations; lia.
Qed.

Lemma pte_same_page s pd va va' : pg_no va = pg_no va' → pte_of s pd va = pte_of s pd va'.
Proof using Type. intros [Ed Et]%same_page. unfold pte_of. by rewrite Ed, Et. Qed.

(** C28 Mapping a page: [pagedir_set_page] refuses (stops the kernel) if the page
    is mapped already.  Otherwise it returns; if it reports success, every
    address of the page translates to the same offset in the frame, for the user to read, and to write exactly
    if [w] says so (bits 0 to 2 of the entry), and if it
    reports failure, for want of memory for a page table, no translation has
    changed.  In both cases no other page of this directory, and no page of any
    other directory, is affected. *)
Theorem set_page_maps_exactly D s pd upage kpage w :
  dirs_ok D s → pd ∈ D → pd ≠ init_page_dir → is_user upage → pg_ofs upage = 0 →
  is_kpage kpage → (kpage - PHYS_BASE) `div` PGSIZE < init_ram_pages →
  if has (pte_of s pd upage) PTE_P
  then pagedir_set_page init_page_dir init_ram_pages pd upage kpage w s = Panic
  else runs (pagedir_set_page init_page_dir init_ram_pages pd upage kpage w) s (λ r s', dirs_ok D s' ∧
    (r = true → ∀ ofs, 0 ≤ ofs < PGSIZE → runs (pagedir_get_page pd (upage + ofs)) s' (λ a _, a = kpage + ofs)) ∧
    (r = true → pte_of s' pd upage = kpage - PHYS_BASE + if w then 7 else 5) ∧
    (∀ pd' va, pd' ∈ D → is_user va → ¬ (r = true ∧ pd' = pd ∧ pg_no va = pg_no upage) → same_answer pd' va s s')).
Proof using PageAllocatorLaws0.
  intros Hok Hpd Hinit Hu Hofs Hk Hram. destruct (has (pte_of s pd upage) PTE_P) eqn:Hp; [by eapply set_page_mapped|].
  eapply runs_mono; [by eapply set_page_spec|]. intros [] s' (_ & _ & H).
  - destruct H as [Hok' Hv]. split; [done|]. split_and!.
    + intros _ ofs Ho. destruct (user_shift upage ofs Hu Hofs Ho) as (Hu' & Hpg & Ho').
      eapply runs_mono; [by eapply answer_by|]. intros a _ ->. rewrite Hv by done.
      destruct (decide _) as [_|[]]; [|done]. assert (0 ≤ user_flags w < 4096) by (destruct w; unfold user_flags; lia).
      rewrite has_kpage by (done || (unfold PTE_P; lia)). assert (has (user_flags w) PTE_P = true) as -> by (by destruct w).
      rewrite Ho'. rewrite PGSIZE_eq in Ho. destruct Hk as [Hk Ha]. unfold entry_base, PHYS_BASE in *.
      replace (0xc0000000 + 4096 * ((kpage - 0xc0000000 + user_flags w) `div` 4096)) with kpage by (Z.to_euclidean_division_equations; lia).
      apply u32_small. Z.to_euclidean_division_equations; lia.
    + intros _. rewrite Hv by done. rewrite decide_True by done. unfold user_flags. by destruct w.
    + intros pd' va Hpd' Hva Hno. eapply same_answer_by; [done..| |]; rewrite Hv by done; destruct (decide _); naive_solver.
  - destruct H as (Hok' & Hv & _ & _). split; [done|]. split; [done|]. split; [done|]. intros pd' va Hpd' Hva _.
    eapply same_answer_by; [done..| |]; by rewrite Hv.
Qed.

(** Unmapping a page: after [pagedir_clear_page] no address of the page
    translates, all other translations of all directories are as before, the
    other flags of the entry are kept, and if the directory is the active one
    the TLB holds nothing any more. *)
Theorem clear_page_unmaps_exactly D s pd upage :
  dirs_ok D s → pd ∈ D → is_user upage → pg_ofs upage = 0 →
  runs (pagedir_clear_page init_page_dir pd upage) s (λ _ s', dirs_ok D s' ∧
    (∀ ofs, 0 ≤ ofs < PGSIZE → runs (pagedir_get_page pd (upage + ofs)) s' (λ a _, a = NULL)) ∧
    (∀ pd' va, pd' ∈ D → is_user va → ¬ (pd' = pd ∧ pg_no va = pg_no upage) → same_answer pd' va s s') ∧
    (∀ j, 0 < j < 32 → has (pte_of s' pd upage) (2 ^ j) = has (pte_of s pd upage) (2 ^ j)) ∧
    (has (pte_of s pd upage) PTE_P = true → ptov (cr3 s) = Done pd → tlb s' = ∅)).
Proof using PageAllocatorLaws0.
  intros Hok Hpd Hu Hofs. pose proof (do_range _ _ Hok pd upage Hpd Hu) as He.
  eapply runs_mono; [by eapply clear_page_spec|]. intros [] s' H.
  assert (∀ s1, dirs_ok D s1 → has (pte_of s1 pd upage) PTE_P = false → ∀ ofs, 0 ≤ ofs < PGSIZE →
    pte_of s1 pd (upage + ofs) = pte_of s1 pd upage → runs (pagedir_get_page pd (upage + ofs)) s1 (λ a _, a = NULL)) as Hnone.
  { intros s1 Hok1 Hp ofs Ho E. destruct (user_shift upage ofs Hu Hofs Ho) as (Hu' & _ & _).
    eapply runs_mono; [by eapply answer_by|]. intros a _ ->. by rewrite E, Hp. }
  assert (∀ ofs s1, 0 ≤ ofs < PGSIZE → pte_of s1 pd (upage + ofs) = pte_of s1 pd upage) as Hshift.
  { intros ofs s1 Ho. destruct (user_shift upage ofs Hu Hofs Ho) as (_ & Hpg & _). by apply pte_same_page. }
  destruct (has (pte_of s pd upage) PTE_P) eqn:Hp.
  - destruct H as [[Hok' Hv] [Hc Ht]]. pose proof (Hv pd upage Hpd Hu) as E. destruct (decide _) as [_|[]] in E; [|done].
    destruct (flag_update _ 0 _ (pte_of s pd upage) (acts_on_land 0 ltac:(lia))) as (Hb & _ & Hother); [lia|done|].
    change (u32 (Z.lnot (2 ^ 0))) with (not32 PTE_P) in *. split_and!; [done| | | |by intros _].
    + intros ofs Ho. apply Hnone; [done| |done|by apply Hshift]. by rewrite E.
    + intros pd' va Hpd' Hva Hno. eapply same_answer_by; [done..| |]; rewrite Hv by done; by destruct (decide _).
    + intros j Hj. rewrite E. apply Hother; lia.
  - subst s'. split_and!; [done| | |done|done].
    + intros ofs Ho. by apply Hnone; [..|apply Hshift].
    + intros pd' va Hpd' Hva _. by eapply same_answer_by.
Qed.

(** The dirty and the accessed bit of a page: setting one of them to a value is
    seen by the corresponding test if the page has an entry at all, does not
    affect the other one, and leaves every translation as it is. *)
Theorem dirty_bit_roundtrip D s pd va value :
  dirs_ok D s → pd ∈ D → is_user va → pte_of s pd va ≠ 0 →
  runs (pagedir_set_dirty init_page_dir pd va value) s (λ _ s', dirs_ok D s' ∧
    runs (pagedir_is_dirty pd va) s' (λ r _, r = value) ∧
    runs (pagedir_is_accessed pd va) s' (λ r _, r = has (pte_of s pd va) PTE_A) ∧
    ∀ pd' va', pd' ∈ D → is_user va' → same_answer pd' va' s s').
Proof using PageAllocatorLaws0.
  intros Hok Hpd Hu Hne. pose proof (do_range _ _ Hok pd va Hpd Hu) as He.
  eapply runs_mono; [eapply (mark_spec _ D s pd va PTE_D value); [done..|unfold PTE_D; lia]|].
  intros [] s' [[_ ?]|H]; [done|].
  assert (∃ e', view_set D pd va e' s s' ∧ has e' PTE_D = value ∧ has e' PTE_A = has (pte_of s pd va) PTE_A ∧
    has e' PTE_P = has (pte_of s pd va) PTE_P ∧ entry_base e' = entry_base (pte_of s pd va)) as (e' & [Hok' Hv] & Ed & Ea & Ep & Eb).
  { destruct value.
    - destruct (flag_update _ 6 _ (pte_of s pd va) (acts_on_lor 6 ltac:(lia))) as (Hb & Hbase & Hother); [lia|done|].
      eexists. split; [apply H|]. split; [apply Hb|]. split; [by apply (Hother 5)|]. split; [by apply (Hother 0)|done].
    - destruct (flag_update _ 6 _ (pte_of s pd va) (acts_on_land 6 ltac:(lia))) as (Hb & Hbase & Hother); [lia|done|].
      eexists. split; [apply H|]. split; [apply Hb|]. split; [by apply (Hother 5)|]. split; [by apply (Hother 0)|done]. }
  pose proof (Hv pd va Hpd Hu) as E. destruct (decide _) as [_|[]] in E; [|done]. split_and!; [done| | |].
  - eapply runs_mono; [by eapply (test_spec D)|]. intros r _ [_ ->]. by rewrite E.
  - eapply runs_mono; [by eapply (test_spec D)|]. intros r _ [_ ->]. by rewrite E.
  - intros pd' va' Hpd' Hva'. eapply same_answer_by; [done..| |]; rewrite Hv by done; destruct (decide _) as [[-> Hpg]|]; try done;
      by rewrite (pte_same_page s pd va' va Hpg).
Qed.
End contract.

(** ** Creating and destroying directories *)

Section lifetime.
Context {S : Type} `{!PageAllocator S} `{!PageAllocatorLaws S}.
Context (init_page_dir : Z).
Implicit Types s : mmu S.

(** [pagedir_create]: if memory is available the new directory has the kernel
    mappings of [init_page_dir] and no user page, and is independent of all
    others, whose translations stay as they are; otherwise it returns a null
    pointer and nothing has changed. *)
Theorem pagedir_create_empty D s :
  dirs_ok D s → init_page_dir ∈ D → (∀ i, 0 ≤ i < 768 → entry_at s init_page_dir i = 0) →
  runs (pagedir_create init_page_dir) s (λ pd s',
    (∀ pd' va, pd' ∈ D → is_user va → pte_of s' pd' va = pte_of s pd' va) ∧
    (∀ pd' i, pd' ∈ D → entry_at s' pd' i = entry_at s pd' i) ∧ cr3 s' = cr3 s ∧
    (pd = NULL ∧ dirs_ok D s' ∨
     pd ∉ D ∧ dirs_ok ({[pd]} ∪ D) s' ∧ (∀ va, is_user va → pte_of s' pd va = 0) ∧
     ∀ i, entry_at s' pd i = entry_at s init_page_dir i)).
Proof using PageAllocatorLaws0.
  intros Hok Hinit Hzero. unfold pagedir_create. run. unfold runs, on_frames.
  pose proof (get_pages_law (frames s) 1 (do_alloc _ _ Hok) ltac:(lia)) as Hget. unfold runs in Hget.
  destruct (get_pages 1 (frames s)) as [[pd f]| | |]; [|done..]. destruct Hget as [Ha [[-> Hn]|(Hkp & _ & Hfree & Huse)]].
  { simpl. destruct (set_frames_view D s f Hok Ha) as (Hok' & Hv & _); [intros n; by rewrite Hn|]. split_and!; [done..|by left]. }
  destruct (set_frames_view D s f Hok Ha) as (Hok1 & Hv1 & _); [intros n ?; apply Huse; by left|].
  destruct (Z.eqb_spec pd NULL) as [->|_]; [by destruct (kpage_null NULL)|].
  assert (tables s !! pd = None) as Hnone.
  { destruct (tables s !! pd) eqn:Et; [|done]. destruct (do_tables _ _ Hok pd) as [_ Hu]; [by eexists|].
    destruct (Hfree (pg_no pd)); [unfold page_group; lia|done]. }
  assert (pd ∉ D) as HpdD by (intros H; destruct (do_dirs _ _ Hok pd H); congruence).
  destruct (do_dirs _ _ Hok init_page_dir Hinit) as [g Hg]. unfold get, put, mbind, M_bind, mret, M_ret. cbn [set_frames tables].
  rewrite Hg. set (s' := set_tables _ _).
  assert (∀ t i, entry_at s' t i = if decide (t = pd) then g i else entry_at s t i) as He.
  { intros t i. unfold entry_at, s'. simpl. destruct (decide (t = pd)) as [->|]; [by rewrite lookup_insert_eq|by rewrite lookup_insert_ne]. }
  assert (∀ t, is_Some (tables s' !! t) ↔ t = pd ∨ is_Some (tables s !! t)) as Hsome.
  { intros t. unfold s'. simpl. destruct (decide (t = pd)) as [->|].
    - rewrite lookup_insert_eq. split; [by left|by eexists].
    - rewrite lookup_insert_ne by done. split; [by right|by intros [|]]. }
  assert (∀ i, 0 ≤ i < 768 → entry_at s' pd i = 0) as Hz.
  { intros i Hi. rewrite He. destruct (decide _); [|done]. rewrite <-(Hzero i Hi). unfold entry_at. by rewrite Hg. }
  assert (∀ pd' i pt, pd' ∈ {[pd]} ∪ D → 0 ≤ i < 768 → serves s' pd' i pt → pd' ∈ D ∧ pd' ≠ pd ∧ serves s pd' i pt) as Hserve.
  { intros pd' i pt Hin Hi Hs. destruct (decide (pd' = pd)) as [->|Hne].
    - destruct (serves_base _ _ _ _ Hs) as [_ []]. by apply Hz.
    - assert (pd' ∈ D) by set_solver. split_and!; [done..|]. destruct Hs as [Hs Hk]. rewrite He in Hs. destruct (decide _); [done|]. by split. }
  assert (∀ pd' va, pd' ∈ D → is_user va → pte_of s' pd' va = pte_of s pd' va) as Hv.
  { intros pd' va Hpd' Hva. destruct (user_indices va Hva) as [Hi _]. assert (pd' ≠ pd) by congruence.
    destruct (do_pde _ _ Hok pd' (pd_no va) Hpd' Hi) as [E|(pt & Hs & [h Hpt] & _)].
    - unfold pte_of. rewrite He. destruct (decide _); [done|]. by rewrite E.
    - assert (serves s' pd' (pd_no va) pt) as Hs' by (destruct Hs; split; [|done]; rewrite He; by destruct (decide _)).
      rewrite (serves_pte _ _ _ _ Hs), (serves_pte _ _ _ _ Hs'), He. destruct (decide _) as [->|]; [congruence|done]. }
  assert (∀ va, is_user va → pte_of s' pd va = 0) as Hempty.
  { intros va Hva. destruct (user_indices va Hva) as [Hi _]. unfold pte_of. by rewrite Hz. }
  split; [done|]. split; [intros pd' i Hpd'; rewrite He; by destruct (decide _) as [->|]|]. split; [done|].
  right. split; [done|]. split; [|split; [done|]].
  - split.
    + done.
    + intros t [->|Ht]%Hsome; simpl; [split; [done|]; apply Huse; right; unfold page_group; lia|]. by apply (do_tables _ _ Hok1).
    + intros pd' [->%elem_of_singleton|Hpd']%elem_of_union; apply Hsome; [by left|right]. by apply (do_dirs _ _ Hok).
    + intros pd' i [->%elem_of_singleton|Hpd']%elem_of_union Hi; [left; by apply Hz|]. assert (pd' ≠ pd) by congruence.
      rewrite He. destruct (decide _); [done|]. destruct (do_pde _ _ Hok pd' i Hpd' Hi) as [|(pt & [Hs Hk] & [h Hpt] & Hnin)]; [by left|right].
      exists pt. split; [split; [|done]; rewrite He; by destruct (decide _)|]. split; [apply Hsome; by right; eexists|].
      rewrite not_elem_of_union, not_elem_of_singleton. split; [congruence|done].
    + intros pd1 pd2 i1 i2 pt H1 H2 Hi1 Hi2 Hs1%Hserve Hs2%Hserve; try done.
      destruct Hs1 as (? & _ & ?), Hs2 as (? & _ & ?). by eapply (do_once _ _ Hok).
    + intros pd' va [->%elem_of_singleton|Hpd']%elem_of_union Hva; [rewrite Hempty by done; lia|]. rewrite Hv by done. by apply (do_range _ _ Hok).
    + apply Hok.
  - intros i. rewrite He. destruct (decide _); [|done]. unfold entry_at. by rewrite Hg.
Qed.

(** The page tables of [pd] with an index below [i] have been given back. *)
Record dropped (D : gset Z) s (pd i : Z) s' : Prop := {
  dr_alloc : alloc_ok (frames s');
  dr_tables : ∀ t, tables s' !! t = None ∧ (∃ j, 0 ≤ j < i ∧ serves s pd j t) ∨
    tables s' !! t = tables s !! t ∧ ¬ ∃ j, 0 ≤ j < i ∧ serves s pd j t;
  dr_use : ∀ n, in_use (frames s') n ↔ in_use (frames s) n ∧ ¬ ∃ j pt, 0 ≤ j < i ∧ serves s pd j pt ∧ n = pg_no pt;
  dr_cr3 : cr3 s' = cr3 s;
}.

Lemma kpage_inj a b : is_kpage a → is_kpage b → pg_no a = pg_no b → a = b.
Proof using Type. clear. intros Ha Hb E. rewrite (kpage_no a Ha), (kpage_no b Hb). by rewrite E. Qed.

Lemma free_table_spec s t (Q : unit → mmu S → Prop) : alloc_ok (frames s) → is_kpage t → in_use (frames s) (pg_no t) →
  (∀ f, alloc_ok f → (∀ n, in_use f n ↔ in_use (frames s) n ∧ n ≠ pg_no t) → Q tt (Mmu f (delete t (tables s)) (cr3 s) (tlb s))) →
  runs (free_table t) s Q.
Proof using PageAllocatorLaws0.
  intros Ha Hk Hu HQ. unfold free_table. run. unfold runs, on_frames.
  pose proof (free_pages_law (frames s) t 1 Ha Hk ltac:(lia)) as H. unfold runs in H.
  assert (∀ n, page_group t 1 n ↔ n = pg_no t) as Hg by (intros n; unfold page_group; lia).
  destruct (free_pages t 1 (frames s)) as [[[] f]| | |]; [|exfalso; apply H; intros n ->%Hg; done..].
  destruct H as [Ha' Hn]; [by intros n ->%Hg|]. apply HQ; [done|]. intros n. by rewrite Hn, Hg.
Qed.

Lemma dropped_zero D s pd : dirs_ok D s → dropped D s pd 0 s.
Proof using Type.
  intros Hok. split; [apply Hok|intros t; right; split; [done|]; intros (j & ? & _); lia| |done].
  intros n. split; [|tauto]. intros H. split; [done|]. intros (j & pt & ? & _). lia.
Qed.
Lemma dropped_skip D s pd i s' : entry_at s pd i = 0 → dropped D s pd i s' → dropped D s pd (i + 1) s'.
Proof using Type.
  intros E [H1 H2 H3 H4]. assert (∀ j pt, 0 ≤ j < i + 1 → serves s pd j pt → 0 ≤ j < i) as Hj.
  { intros j pt Hj Hs. destruct (decide (j = i)) as [->|]; [|lia]. by destruct (serves_base _ _ _ _ Hs). }
  split; [done| |intros n; rewrite H3|done].
  - intros t. destruct (H2 t) as [[? (j & ? & ?)]|[? Hno]]; [left|right]; (split; [done|]).
    + exists j. split; [lia|done].
    + intros (j & ? & Hs). apply Hno. exists j. split; [|done]. by eapply Hj.
  - split; intros [? Hno]; (split; [done|]); intros (j & pt & ? & Hs & ->); apply Hno; exists j, pt; (split; [|done]); [by eapply Hj|lia].
Qed.
Lemma dropped_next D s pd i s' pt f : dirs_ok D s → pd ∈ D → 0 ≤ i < 768 → serves s pd i pt → dropped D s pd i s' →
  alloc_ok f → (∀ n, in_use f n ↔ in_use (frames s') n ∧ n ≠ pg_no pt) →
  dropped D s pd (i + 1) (Mmu f (delete pt (tables s')) (cr3 s') (tlb s')).
Proof using Type.
  intros Hok Hpd Hi Hs [H1 H2 H3 H4] Ha Hu. split; simpl; [done| |intros n; rewrite Hu, H3|done].
  - intros t. destruct (decide (t = pt)) as [->|Hne].
    + left. rewrite lookup_delete_eq. split; [done|]. exists i. split; [lia|done].
    + rewrite lookup_delete_ne by done. destruct (H2 t) as [[? (j & ? & ?)]|[? Hno]]; [left|right]; (split; [done|]).
      * exists j. split; [lia|done].
      * intros (j & ? & Hs'). destruct (decide (j = i)) as [->|]; [by destruct Hne; eapply serves_unique|].
        apply Hno. exists j. split; [lia|done].
  - split.
    + intros [[? Hno] Hn]. split; [done|]. intros (j & pt' & ? & Hs' & ->). destruct (decide (j = i)) as [->|].
      * by rewrite (serves_unique _ _ _ _ _ Hs' Hs) in Hn.
      * apply Hno. exists j, pt'. split; [lia|done].
    + intros [? Hno]. split; [split; [done|]|].
      * intros (j & pt' & ? & Hs' & ->). apply Hno. exists j, pt'. split; [lia|done].
      * intros ->. apply Hno. exists i, pt. split; [lia|done].
Qed.

Lemma destroy_tables_spec D s pd n i s' : dirs_ok D s → pd ∈ D → 0 ≤ i → i + Z.of_nat n ≤ 768 → dropped D s pd i s' →
  runs (destroy_tables true pd n i) s' (λ _ s'', dropped D s pd (i + Z.of_nat n) s'').
Proof using PageAllocatorLaws0.
  intros Hok Hpd. revert i s'. induction n as [|n IH]; intros i s' Hi Hn Hdr; cbn [destroy_tables]; run; [by rewrite Z.add_0_r|].
  replace (i + Z.of_nat (Datatypes.S n)) with (i + 1 + Z.of_nat n) by lia.
  assert (tables s' !! pd = tables s !! pd) as Epd.
  { destruct (dr_tables _ _ _ _ _ Hdr pd) as [[_ (j & Hj & Hs)]|[? _]]; [|done].
    destruct (do_pde _ _ Hok pd j Hpd ltac:(lia)) as [E|(pt & Hs' & _ & Hnin)]; [by destruct (serves_base _ _ _ _ Hs)|].
    by rewrite (serves_unique _ _ _ _ _ Hs' Hs) in Hnin. }
  assert (entry_at s' pd i = entry_at s pd i) as Ee by (unfold entry_at; by rewrite Epd).
  apply runs_read; [rewrite Epd; by apply (do_dirs _ _ Hok)|]. rewrite Ee.
  destruct (do_pde _ _ Hok pd i Hpd ltac:(lia)) as [E|(pt & Hs & Hpt & Hnin)].
  - rewrite E. simpl. run. apply IH; [lia..|]. by apply dropped_skip.
  - rewrite (pde_get_serves _ _ _ _ Hs). assert (has (entry_at s pd i) PTE_P = true) as ->.
    { destruct Hs as [-> Hk]. by rewrite has_kpage by (done || (unfold PTE_P; lia)). }
    run. simpl. run. destruct (do_tables _ _ Hok pt Hpt) as [Hk Hu].
    apply free_table_spec; [apply Hdr|done| |].
    + apply (dr_use _ _ _ _ _ Hdr). split; [done|]. intros (j & pt' & Hj & Hs' & Epg).
      assert (pt = pt') as <- by (apply kpage_inj; [done|by destruct Hs'|done]).
      destruct (do_once _ _ Hok pd pd i j pt) as [_ ?]; [done..|lia|lia|done|done|]. lia.
    + intros f Ha Hn'. apply IH; [lia..|]. apply dropped_next; [done|done|lia|done..].
Qed.

(** [pagedir_destroy], in a kernel with virtual memory, gives back the
    directory and exactly its page tables; the other directories, which do not
    include [init_page_dir], stay in order and translate as before. *)
Theorem pagedir_destroy_exact D s pd :
  dirs_ok D s → pd ∈ D → pd ≠ init_page_dir →
  runs (pagedir_destroy init_page_dir true pd) s (λ _ s', dirs_ok (D ∖ {[pd]}) s' ∧
    (∀ n, in_use (frames s') n ↔ in_use (frames s) n ∧ n ≠ pg_no pd ∧
       ¬ ∃ i pt, 0 ≤ i < 768 ∧ serves s pd i pt ∧ n = pg_no pt) ∧
    (∀ pd' va, pd' ∈ D → pd' ≠ pd → is_user va → pte_of s' pd' va = pte_of s pd' va) ∧
    (∀ pd' i, pd' ∈ D → pd' ≠ pd → entry_at s' pd' i = entry_at s pd' i) ∧ cr3 s' = cr3 s).
Proof using PageAllocatorLaws0.
  intros Hok Hpd Hinit. destruct (do_tables _ _ Hok pd (do_dirs _ _ Hok pd Hpd)) as [Hk Hu].
  unfold pagedir_destroy. destruct (Z.eqb_spec pd NULL) as [->|_]; [by destruct (kpage_null NULL)|].
  run. apply runs_assert; [by destruct (Z.eqb_spec pd init_page_dir)|]. run. change (Z.to_nat (pd_no PHYS_BASE)) with 768%nat.
  eapply runs_mono; [apply (destroy_tables_spec D s); [done|done|lia|lia|by apply dropped_zero]|].
  intros [] s1 Hdr. change (0 + Z.of_nat 768) with 768 in Hdr.
  assert (∀ i pt, 0 ≤ i < 768 → serves s pd i pt → pt ∉ D) as HptD.
  { intros i pt Hi Hs. destruct (do_pde _ _ Hok pd i Hpd Hi) as [E|(pt' & Hs' & _ & ?)]; [by destruct (serves_base _ _ _ _ Hs)|].
    by rewrite (serves_unique _ _ _ _ _ Hs Hs'). }
  apply free_table_spec; [apply Hdr|done| |].
  { apply (dr_use _ _ _ _ _ Hdr). split; [done|]. intros (j & pt & Hj & Hs & E).
    assert (pd = pt) as <- by (apply kpage_inj; [done|by destruct Hs|done]). by apply (HptD j pd Hj Hs). }
  intros f Ha Hn. set (s' := Mmu _ _ _ _).
  assert (∀ t, t ≠ pd → (¬ ∃ j, 0 ≤ j < 768 ∧ serves s pd j t) → tables s' !! t = tables s !! t) as Hkeep.
  { intros t Hne Hno. unfold s'. simpl. rewrite lookup_delete_ne by done. by destruct (dr_tables _ _ _ _ _ Hdr t) as [[_ ?]|[? _]]. }
  assert (∀ pd', pd' ∈ D → pd' ≠ pd → ∀ i, entry_at s' pd' i = entry_at s pd' i) as Hdir.
  { intros pd' Hpd' Hne i. unfold entry_at. rewrite Hkeep; [done|done|]. intros (j & Hj & Hs). by apply (HptD j pd' Hj Hs). }
  assert (∀ pd' i pt, pd' ∈ D → pd' ≠ pd → 0 ≤ i < 768 → serves s pd' i pt → is_Some (tables s !! pt) → tables s' !! pt = tables s !! pt) as Hpt.
  { intros pd' i pt Hpd' Hne Hi Hs Hsome. apply Hkeep.
    - intros ->. destruct (do_pde _ _ Hok pd' i Hpd' Hi) as [E|(pt' & Hs' & _ & Hx)]; [by destruct (serves_base _ _ _ _ Hs)|].
      by rewrite (serves_unique _ _ _ _ _ Hs' Hs) in Hx.
    - intros (j & Hj & Hs'). by destruct (do_once _ _ Hok pd' pd i j pt). }
  assert (∀ pd' va, pd' ∈ D → pd' ≠ pd → is_user va → pte_of s' pd' va = pte_of s pd' va) as Hv.
  { intros pd' va Hpd' Hne Hva. destruct (user_indices va Hva) as [Hi _].
    destruct (do_pde _ _ Hok pd' (pd_no va) Hpd' Hi) as [E|(pt & Hs & Hsome & _)]; [unfold pte_of; by rewrite Hdir, E|].
    assert (serves s' pd' (pd_no va) pt) as Hs' by (unfold serves in *; by rewrite Hdir).
    rewrite (serves_pte _ _ _ _ Hs), (serves_pte _ _ _ _ Hs'). unfold entry_at. by rewrite (Hpt pd' (pd_no va)). }
  assert (∀ n, in_use (frames s') n ↔ in_use (frames s) n ∧ n ≠ pg_no pd ∧ ¬ ∃ i pt, 0 ≤ i < 768 ∧ serves s pd i pt ∧ n = pg_no pt) as Huse.
  { intros n. unfold s'. simpl. rewrite Hn, (dr_use _ _ _ _ _ Hdr). tauto. }
  split_and!; [|done|done|by auto|apply (dr_cr3 _ _ _ _ _ Hdr)]. split.
  - done.
  - intros t Ht. assert (t ≠ pd) as Hne by (intros ->; unfold s' in Ht; simpl in Ht; rewrite lookup_delete_eq in Ht; by destruct Ht).
    assert (¬ ∃ j, 0 ≤ j < 768 ∧ serves s pd j t) as Hno.
    { intros Hex. unfold s' in Ht. simpl in Ht. rewrite lookup_delete_ne in Ht by done.
      destruct (dr_tables _ _ _ _ _ Hdr t) as [[E _]|[_ ?]]; [rewrite E in Ht; by destruct Ht|done]. }
    rewrite Hkeep in Ht by done. destruct (do_tables _ _ Hok t Ht) as [Hkt Hut]. split; [done|]. apply Huse. split_and!; [done| |].
    + intros E. by apply Hne, kpage_inj.
    + intros (i & pt & Hi & Hs & E). apply Hno. exists i. split; [done|].
      assert (t = pt) as -> by (apply kpage_inj; [done|by destruct Hs|done]). done.
  - intros pd' [Hpd' Hne%not_elem_of_singleton]%elem_of_difference. rewrite Hkeep; [by apply (do_dirs _ _ Hok)|done|].
    intros (j & Hj & Hs). by apply (HptD j pd' Hj Hs).
  - intros pd' i [Hpd' Hne%not_elem_of_singleton]%elem_of_difference Hi. rewrite Hdir by done.
    destruct (do_pde _ _ Hok pd' i Hpd' Hi) as [|(pt & Hs & Hsome & Hnin)]; [by left|right]. exists pt.
    split; [unfold serves in *; by rewrite Hdir|]. split; [by rewrite (Hpt pd' i)|set_solver].
  - intros pd1 pd2 i1 i2 pt [H1 N1%not_elem_of_singleton]%elem_of_difference [H2 N2%not_elem_of_singleton]%elem_of_difference Hi1 Hi2 Hs1 Hs2.
    unfold serves in Hs1, Hs2. rewrite Hdir in Hs1, Hs2 by done. by eapply (do_once _ _ Hok).
  - intros pd' va [Hpd' Hne%not_elem_of_singleton]%elem_of_difference Hva. rewrite Hv by done. by apply (do_range _ _ Hok).
  - unfold s'. simpl. rewrite (dr_cr3 _ _ _ _ _ Hdr). apply Hok.
Qed.
End lifetime.

(** ** Concrete directories *)

(** The page directory of the kernel and one of a process, both without user
    pages, the latter active. *)
Definition demo_init : Z := 0xc0101000.
Definition demo_pd : Z := 0xc0102000.
Definition demo_mmu : mmu palloc :=
  Mmu demo_taken (<[demo_init := λ _, 0]> {[demo_pd := λ _, 0]}) 0x102000 {[5]}.
Definition demo_dirs : gset Z := {[demo_init; demo_pd]}.

Lemma demo_entries t i : entry_at demo_mmu t i = 0.
Proof.
  unfold entry_at. cbn [demo_mmu tables]. destruct (decide (t = demo_init)) as [->|]; [by rewrite lookup_insert_eq|].
  rewrite lookup_insert_ne by done. destruct (decide (t = demo_pd)) as [->|]; [by rewrite lookup_singleton_eq|].
  by rewrite lookup_singleton_ne.
Qed.
Lemma demo_pte pd va : pte_of demo_mmu pd va = 0.
Proof. unfold pte_of. by rewrite demo_entries. Qed.
Lemma demo_dirs_ok : dirs_ok demo_dirs demo_mmu.
Proof.
  destruct demo_taken_ok as [Hok Hu].
  assert (∀ t, is_Some (tables demo_mmu !! t) → t = demo_init ∨ t = demo_pd) as Ht.
  { intros t [f Hf]. cbn [demo_mmu tables] in Hf. apply lookup_insert_Some in Hf as [[<- _]|[_ Hf]]; [by left|].
    apply lookup_singleton_Some in Hf as [<- _]. by right. }
  split.
  - exact Hok.
  - intros t [-> | ->]%Ht; (split; [by split|]); apply Hu; unfold page_group; vm_compute; (split; [discriminate|reflexivity]).
  - intros pd [Hpd%elem_of_singleton|Hpd%elem_of_singleton]%elem_of_union; subst pd; by eexists.
  - intros pd i _ _. left. apply demo_entries.
  - intros pd pd' i i' pt _ _ _ _ Hs. destruct (serves_base _ _ _ _ Hs) as [_ []]. apply demo_entries.
  - intros pd va _ _. rewrite demo_pte. lia.
  - cbn. lia.
Qed.

Lemma set_page_maps_exactly_witness :
  runs (pagedir_set_page demo_init 512 demo_pd 0x8048000 0xc0103000 true) demo_mmu (λ r s',
    r = true → runs (pagedir_get_page demo_pd 0x8048123) s' (λ a _, a = 0xc0103123)).
Proof.
  pose proof (set_page_maps_exactly demo_init 512 demo_dirs demo_mmu demo_pd 0x8048000 0xc0103000 true demo_dirs_ok
    ltac:(set_solver) ltac:(discriminate) ltac:(split; vm_compute; [discriminate|reflexivity]) eq_refl
    ltac:(split; [split; vm_compute; [discriminate|reflexivity]|reflexivity]) ltac:(vm_compute; reflexivity)) as H.
  rewrite demo_pte in H. refine (runs_mono _ _ _ _ H _). intros r s' (_ & Hget & _) Hr.
  exact (Hget Hr 0x123 ltac:(split; vm_compute; [discriminate|reflexivity])).
Defined.

(** The process has one page. *)
Definition mapped_mmu : mmu palloc :=
  match pagedir_set_page demo_init 512 demo_pd 0x8048000 0xc0103000 true demo_mmu with Done (_, s) => s | _ => demo_mmu end.
Lemma mapped_mmu_ok : dirs_ok demo_dirs mapped_mmu ∧ pte_of mapped_mmu demo_pd 0x8048000 = 0x103007.
Proof.
  pose proof (set_page_spec demo_init 512 demo_dirs demo_mmu demo_pd 0x8048000 0xc0103000 true demo_dirs_ok
    ltac:(set_solver) ltac:(discriminate) ltac:(split; vm_compute; [discriminate|reflexivity]) eq_refl
    ltac:(split; [split; vm_compute; [discriminate|reflexivity]|reflexivity]) ltac:(vm_compute; reflexivity)
    ltac:(rewrite demo_pte; reflexivity)) as H.
  assert (match pagedir_set_page demo_init 512 demo_pd 0x8048000 0xc0103000 true demo_mmu with Done (r, _) => r | _ => false end = true) as E
    by (vm_compute; reflexivity).
  unfold mapped_mmu, runs in *. destruct (pagedir_set_page _ _ _ _ _ _ _) as [[r s']| | |]; try done. subst r.
  destruct H as (_ & _ & Hok & Hv). split; [done|]. rewrite Hv; [|set_solver|split; vm_compute; [discriminate|reflexivity]].
  destruct (decide _) as [|[]]; [vm_compute; reflexivity|done].
Qed.

Lemma clear_page_unmaps_exactly_witness :
  runs (pagedir_clear_page demo_init demo_pd 0x8048000) mapped_mmu (λ _ s',
    tlb s' = ∅ ∧ runs (pagedir_get_page demo_pd 0x8048123) s' (λ a _, a = NULL)).
Proof.
  destruct mapped_mmu_ok as [Hok Hp].
  refine (runs_mono _ _ _ _ (clear_page_unmaps_exactly demo_init demo_dirs mapped_mmu demo_pd 0x8048000 Hok
    ltac:(set_solver) ltac:(split; vm_compute; [discriminate|reflexivity]) eq_refl) _).
  intros [] s' (_ & Hget & _ & _ & Ht). split; [apply Ht; [by rewrite Hp|vm_compute; reflexivity]|].
  exact (Hget 0x123 ltac:(split; vm_compute; [discriminate|reflexivity])).
Defined.
Lemma dirty_bit_roundtrip_witness :
  runs (pagedir_set_dirty demo_init demo_pd 0x8048000 true) mapped_mmu (λ _ s',
    runs (pagedir_is_dirty demo_pd 0x8048000) s' (λ r _, r = true)).
Proof.
  destruct mapped_mmu_ok as [Hok Hp].
  refine (runs_mono _ _ _ _ (dirty_bit_roundtrip demo_init demo_dirs mapped_mmu demo_pd 0x8048000 true Hok
    ltac:(set_solver) ltac:(split; vm_compute; [discriminate|reflexivity]) ltac:(by rewrite Hp)) _).
  intros [] s' (_ & H & _). exact H.
Defined.
Lemma pagedir_create_empty_witness :
  runs (pagedir_create demo_init) mapped_mmu (λ pd s', pte_of s' demo_pd 0x8048000 = 0x103007).
Proof.
  destruct mapped_mmu_ok as [Hok Hp].
  refine (runs_mono _ _ _ _ (pagedir_create_empty demo_init demo_dirs mapped_mmu Hok ltac:(set_solver) _) _).
  - intros i Hi. vm_compute. reflexivity.
  - intros pd s' [H _]. rewrite <-Hp. apply H; [set_solver|split; vm_compute; [discriminate|reflexivity]].
Defined.
Lemma pagedir_destroy_exact_witness :
  runs (pagedir_destroy demo_init true demo_pd) mapped_mmu (λ _ s', dirs_ok (demo_dirs ∖ {[demo_pd]}) s').
Proof.
  destruct mapped_mmu_ok as [Hok Hp].
  refine (runs_mono _ _ _ _ (pagedir_destroy_exact demo_init demo_dirs mapped_mmu demo_pd Hok ltac:(set_solver) ltac:(discriminate)) _).
  intros [] s' [H _]. exact H.
Defined.
