(* ===== verification/Paging.v ===== *)
(** * Paging at start-up (src/pintos/src/threads/init.c: paging_init)

    The page directory with only kernel mappings, built on the memory management
    unit of Pagedir.v: page [k] of RAM appears at [PHYS_BASE + k * PGSIZE], read-only where it holds
    the text of the kernel.  Without a free page the kernel stops, as PAL_ASSERT asks. *)

From S2P Require Import Prelude KList Bitmap Vaddr Palloc Pagedir.

Section paging.
Context {S : Type} `{!PageAllocator S}.
(** The number of pages of RAM and the text of the kernel, from the linker. *)
Context (init_ram_pages start end_kernel_text : Z).

(** [palloc_get_page (PAL_ASSERT | PAL_ZERO)], for a page of entries. *)
Definition get_table : M (mmu S) Z :=
  t ← on_frames (get_pages 1);
  if t =? NULL then lift Panic else
  modify (λ s, set_tables (<[t := λ _, 0]> (tables s)) s);; mret t.
Definition in_kernel_text (vaddr : Z) : bool := (start <=? vaddr) && (vaddr <? end_kernel_text).
(** The loop over the pages, [n] turns from [page] on. *)
Fixpoint map_ram (n : nat) (page pd pt : Z) : M (mmu S) unit :=
  match n with
  | O => mret tt
  | Datatypes.S n =>
      let paddr := u32 (page * PGSIZE) in
      vaddr ← lift (ptov paddr);
      pde ← read_entry pd (pd_no vaddr);
      pt ← (if pde =? 0 then t ← get_table; e ← lift (pde_create t); write_entry pd (pd_no vaddr) e;; mret t else mret pt);
      e ← lift (pte_create_kernel vaddr (negb (in_kernel_text vaddr)));
      write_entry pt (pt_no vaddr) e;;
      map_ram n (page + 1) pd pt
  end.
Definition paging_init : M (mmu S) Z :=
  pd ← get_table;
  map_ram (Z.to_nat init_ram_pages) 0 pd NULL;;
  p ← lift (vtop pd);
  modify (λ s, Mmu (frames s) (tables s) p ∅);; mret pd.

(** ** The kernel mapping *)

Context `{!PageAllocatorLaws S}.
Implicit Types s : mmu S.
(** Of [n] requests for a page, made one after the other, one is refused. *)
Fixpoint short (n : nat) (f : S) : Prop :=
  match n with
  | O => False
  | Datatypes.S n => ∃ t f', get_pages 1 f = Done (t, f') ∧ (t = NULL ∨ short n f')
  end.
(** [m] returns with [Q]; it stops the kernel only if [E] holds. *)
Definition runs_or_stops (E : Prop) {A} (m : M (mmu S) A) s (Q : A → mmu S → Prop) : Prop := match m s with Done (a, s') => Q a s' | Panic => E | _ => False end.
Section rules.
Context (E : Prop).
Lemma ros_bind {A B} (m : M (mmu S) A) (f : A → M (mmu S) B) s Q : runs_or_stops E m s (λ a s', runs_or_stops E (f a) s' Q) → runs_or_stops E (m ≫= f) s Q.
Proof. unfold runs_or_stops, mbind, M_bind. by destruct (m s) as [[a s']| | |]. Qed.
Lemma ros_runs {A} (m : M (mmu S) A) s Q : runs m s Q → runs_or_stops E m s Q.
Proof. unfold runs, runs_or_stops. by destruct (m s) as [[a s']| | |]. Qed.
Lemma ros_lift {A} (a : A) s (Q : A → mmu S → Prop) : Q a s → runs_or_stops E (lift (Done a)) s Q.
Proof. done. Qed.
Lemma ros_mono {A} (m : M (mmu S) A) s (Q Q' : A → mmu S → Prop) : runs_or_stops E m s Q → (∀ a s', Q a s' → Q' a s') → runs_or_stops E m s Q'.
Proof. unfold runs_or_stops. destruct (m s) as [[a s']| | |]; naive_solver. Qed.
End rules.

Definition tables_ok s : Prop := alloc_ok (frames s) ∧ ∀ t, is_Some (tables s !! t) → is_kpage t ∧ in_use (frames s) (pg_no t).
(** A page of zeros that was not a table before, if the request for it is not refused. *)
Lemma get_table_spec E n s : tables_ok s → (short (Datatypes.S n) (frames s) → E) →
  runs_or_stops E get_table s (λ t s', tables_ok s' ∧ is_kpage t ∧ tables s !! t = None ∧ tables s' = <[t := λ _, 0]> (tables s) ∧ (short n (frames s') → E)).
Proof.
  intros [Ha Ht] HE. unfold get_table. apply ros_bind. pose proof (get_pages_law (frames s) 1 Ha ltac:(lia)) as H. unfold runs_or_stops, on_frames. unfold runs in H.
  destruct (get_pages 1 (frames s)) as [[t f]| | |] eqn:Eg; [|done..]. destruct H as [Ha' H]. destruct (Z.eqb_spec t NULL) as [->|].
  { apply HE. exists NULL, f. split; [done|by left]. }
  destruct H as [[-> _]|(Hk & _ & Hfree & Hnew)]; [done|]. assert (page_group t 1 (pg_no t)) as Hg by (unfold page_group; lia). cbn. split_and!; [|done| |done|].
  - split; [done|]. cbn. intros t' Hs. destruct (decide (t' = t)) as [->|]; [split; [done|]; apply Hnew; by right|]. rewrite lookup_insert_ne in Hs by done. destruct (Ht t' Hs) as [H1 H2]. split; [done|]. apply Hnew. by left.
  - destruct (tables s !! t) eqn:E'; [|done]. destruct (Ht t) as [_ H]; [by eexists|]. by destruct (Hfree (pg_no t) Hg).
  - intros Hs. apply HE. exists t, f. split; [done|by right].
Qed.
(** The entry for page [k] of RAM. *)
Definition kernel_pte (k : Z) : Z := 4096 * k + if in_kernel_text (PHYS_BASE + 4096 * k) then 1 else 3.
(** The tables [T] have been filled in for the first [k] pages. *)
Record mapped (pd : Z) (T : list Z) (k : Z) s : Prop := {
  ma_ok : tables_ok s;
  ma_pd : is_kpage pd ∧ is_Some (tables s !! pd);
  ma_nodup : NoDup (pd :: T);
  ma_len : zlen T = (k + 1023) `div` 1024;
  ma_pde : ∀ i, 0 ≤ i < 1024 → entry_at s pd i = if 768 <=? i then match T@[i - 768] with Some t => t - PHYS_BASE + 7 | None => 0 end else 0;
  ma_pte : ∀ m t, T@[m] = Some t → is_kpage t ∧ is_Some (tables s !! t) ∧ ∀ j, 0 ≤ j < 1024 → entry_at s t j = if 1024 * m + j <? k then kernel_pte (1024 * m + j) else 0;
}.
Lemma kernel_address k : 0 ≤ k < 2 ^ 18 → ptov (u32 (k * PGSIZE)) = Done (PHYS_BASE + 4096 * k) ∧ pd_no (PHYS_BASE + 4096 * k) = 768 + k `div` 1024 ∧ pt_no (PHYS_BASE + 4096 * k) = k `mod` 1024 ∧ is_kpage (PHYS_BASE + 4096 * k).
Proof.
  intros Hk. unfold ptov, u32, PHYS_BASE, is_kpage. rewrite PGSIZE_eq, pd_no_div, pt_no_mod. rewrite (Z.mod_small (k * 4096)) by lia. destruct (Z.ltb_spec (k * 4096) 3221225472); [|lia]. cbn [ASSERT mbind outcome_bind].
  unfold PHYS_BASE. rewrite Z.mod_small by lia. split_and!; [f_equal; lia|div_lia|div_lia|lia..|div_lia].
Qed.
Lemma pte_create_kernel_spec a w : is_kpage a → pte_create_kernel a w = Done (a - PHYS_BASE + if w then 3 else 1).
Proof.
  intros Ha. destruct (vtop_kpage a Ha) as [Hv Hm]. destruct Ha as [_ Ha]. unfold pte_create_kernel. rewrite pg_ofs_mod, Ha, Hv. cbn. f_equal. rewrite <- Z.lor_assoc, <- lor_flags by (done || (destruct w; lia)). by destruct w.
Qed.

(** Writing an entry changes no other one. *)
Lemma wrote_tables_ok t i e s : tables_ok s → tables_ok (wrote t i e s).
Proof. intros [Ha Ht]. destruct (wrote_same t i e s) as (Ef & _ & _). split; [by rewrite Ef|]. intros t' H. rewrite Ef. apply Ht. by rewrite some_wrote in H. Qed.
(** The table for the next page, which is added to the directory if it is the
    first of its table. *)
Lemma next_table pd T k s : mapped pd T k s → 0 ≤ k < 2 ^ 18 →
  ∃ i, i = 768 + k `div` 1024 ∧
  (k `mod` 1024 = 0 → entry_at s pd i = 0 ∧ ∀ t s', tables_ok s' → is_kpage t → tables s !! t = None → tables s' = <[t := λ _, 0]> (tables s) →
     let s2 := wrote pd i (t - PHYS_BASE + 7) s' in
     tables_ok s2 ∧ NoDup (pd :: T ++ [t]) ∧ is_Some (tables s2 !! pd) ∧ is_Some (tables s2 !! t) ∧
     (∀ i', 0 ≤ i' < 1024 → entry_at s2 pd i' = if 768 <=? i' then match (T ++ [t])@[i' - 768] with Some t => t - PHYS_BASE + 7 | None => 0 end else 0) ∧
     (∀ m t', (T ++ [t])@[m] = Some t' → is_kpage t' ∧ is_Some (tables s2 !! t') ∧ ∀ j, 0 ≤ j < 1024 → entry_at s2 t' j = if 1024 * m + j <? k then kernel_pte (1024 * m + j) else 0)) ∧
  (k `mod` 1024 ≠ 0 → entry_at s pd i ≠ 0).
Proof.
  intros [Hok [Hpk Hps] Hnd Hlen Hpde Hpte] Hk. eexists. split; [done|]. split.
  - intros Hk0. assert (zlen T = k `div` 1024) as Hl by (rewrite Hlen; div_lia). assert (T@[k `div` 1024] = None) as Hnone by (destruct (T@[k `div` 1024]) eqn:E; [apply zlookup_bound in E; lia|done]).
    split. { rewrite Hpde by div_lia. destruct (Z.leb_spec 768 (768 + k `div` 1024)); [|div_lia]. replace (768 + k `div` 1024 - 768) with (k `div` 1024) by lia. by rewrite Hnone. }
    intros t s' Hok' Htk Hfresh Htab s2. assert (is_Some (tables s' !! pd)) as Hpd' by (rewrite Htab; apply lookup_insert_is_Some'; by right). assert (∀ t', t' ∈ T → is_Some (tables s !! t')) as HT by (intros t' Hin; apply list_elem_of_lookup in Hin as [m Hm]; apply (Hpte (Z.of_nat m)); apply zlookup_Some; split; [lia|by rewrite Nat2Z.id]).
    assert (pd ≠ t) as Hne by (intros ->; rewrite Hfresh in Hps; by destruct Hps). assert (t ∉ T) as HtT by (intros Hin; destruct (HT t Hin) as [x Hx]; by rewrite Hfresh in Hx).
    apply list.NoDup_cons in Hnd as [HpT HndT]. assert (∀ t' j, t' ≠ t → entry_at s' t' j = entry_at s t' j) as Hsame by (intros t' j Ht'; unfold entry_at; by rewrite Htab, lookup_insert_ne).
    assert (∀ t' j, t' ≠ pd → entry_at s2 t' j = entry_at s' t' j) as Hs2 by (intros t' j Ht'; unfold s2; rewrite entry_wrote by done; by destruct (decide _) as [[-> _]|]).
    split_and!; [by apply wrote_tables_ok| |by apply some_wrote|apply some_wrote; rewrite Htab; rewrite lookup_insert_eq; by eexists| |].
    + apply list.NoDup_cons. split; [set_solver|]. apply list.NoDup_app. split_and!; [done|set_solver|apply NoDup_singleton].
    + intros i' Hi'. unfold s2. rewrite entry_wrote by done. rewrite zlookup_app, Hl. destruct (decide (pd = pd ∧ i' = 768 + k `div` 1024)) as [[_ ->]|Hn].
      * destruct (Z.leb_spec 768 (768 + k `div` 1024)); [|div_lia]. destruct (Z.ltb_spec (768 + k `div` 1024 - 768) (k `div` 1024)); [lia|]. by replace (768 + k `div` 1024 - 768 - k `div` 1024) with 0 by lia.
      * rewrite Hsame, Hpde by done. destruct (Z.leb_spec 768 i'); [|done]. destruct (Z.ltb_spec (i' - 768) (k `div` 1024)); [done|]. destruct (T@[i' - 768]) eqn:E; [apply zlookup_bound in E; lia|]. destruct ([t]@[i' - 768 - k `div` 1024]) eqn:E2; [|done]. apply zlookup_bound in E2. change (zlen [t]) with 1 in E2. destruct Hn. split; [done|lia].
    + intros m t' Hm. rewrite zlookup_app, Hl in Hm. destruct (Z.ltb_spec m (k `div` 1024)).
      * destruct (Hpte m t' Hm) as (H1 & H2 & H3). assert (t' ∈ T) as Hin by (apply zlookup_Some in Hm as [_ Hm]; by eapply list_elem_of_lookup_2). assert (t' ≠ pd ∧ t' ≠ t) as [Hn1 Hn2] by set_solver. split_and!; [done|apply some_wrote; rewrite Htab, lookup_insert_ne; done|]. intros j Hj. rewrite Hs2, Hsame by done. by apply H3.
      * pose proof (zlookup_bound _ _ _ Hm) as Hb. change (zlen [t]) with 1 in Hb. assert (m = k `div` 1024) as -> by lia. rewrite Z.sub_diag in Hm. injection Hm as <-. split_and!; [done|apply some_wrote; rewrite Htab, lookup_insert_eq; by eexists|].
        intros j Hj. rewrite Hs2 by done. unfold entry_at. rewrite Htab, lookup_insert_eq. destruct (Z.ltb_spec (1024 * (k `div` 1024) + j) k); [div_lia|done].
  - intros Hk0. rewrite Hpde by div_lia. destruct (Z.leb_spec 768 (768 + k `div` 1024)); [|div_lia]. replace (768 + k `div` 1024 - 768) with (k `div` 1024) by lia. destruct (zlookup_lt T (k `div` 1024)) as [t Ht]; [rewrite Hlen; div_lia|]. rewrite Ht. destruct (Hpte _ _ Ht) as ([Hr _] & _). unfold PHYS_BASE in *. lia.
Qed.

Lemma fill_entry pd T k s t : tables_ok s → is_kpage pd → is_Some (tables s !! pd) → NoDup (pd :: T) → zlen T = k `div` 1024 + 1 → 0 ≤ k →
  (∀ i, 0 ≤ i < 1024 → entry_at s pd i = if 768 <=? i then match T@[i - 768] with Some t => t - PHYS_BASE + 7 | None => 0 end else 0) →
  (∀ m t', T@[m] = Some t' → is_kpage t' ∧ is_Some (tables s !! t') ∧ ∀ j, 0 ≤ j < 1024 → entry_at s t' j = if 1024 * m + j <? k then kernel_pte (1024 * m + j) else 0) →
  T@[k `div` 1024] = Some t → mapped pd T (k + 1) (wrote t (k `mod` 1024) (kernel_pte k) s).
Proof.
  intros Hok Hpk Hps Hnd Hlen Hk Hpde Hpte Ht. destruct (Hpte _ _ Ht) as (_ & Hts & _). pose proof Hnd as [HpT HndT]%list.NoDup_cons. assert (t ∈ T) as Hin by (apply zlookup_Some in Ht as [_ H]; by eapply list_elem_of_lookup_2).
  split; [by apply wrote_tables_ok|split; [done|by apply some_wrote]|done|rewrite Hlen; div_lia| |].
  - intros i Hi. rewrite entry_wrote by done. destruct (decide _) as [[-> _]|]; [done|]. by apply Hpde.
  - intros m t' Hm. destruct (Hpte m t' Hm) as (H1 & H2 & H3). split_and!; [done|by apply some_wrote|]. intros j Hj. rewrite entry_wrote by done. rewrite H3 by done. destruct (decide (t' = t ∧ j = k `mod` 1024)) as [[-> ->]|Hn].
    + assert (m = k `div` 1024) as ->. { apply zlookup_Some in Ht as [H4 H5], Hm as [H6 H7]. pose proof (NoDup_lookup _ _ _ _ HndT H5 H7). lia. }
      replace (1024 * (k `div` 1024) + k `mod` 1024) with k by div_lia. by destruct (Z.ltb_spec k (k + 1)); [|lia].
    + destruct (Z.ltb_spec (1024 * m + j) k), (Z.ltb_spec (1024 * m + j) (k + 1)); try done; try lia. assert (1024 * m + j = k) as Ek by lia. destruct Hn. assert (m = k `div` 1024 ∧ j = k `mod` 1024) as [Em Ej] by div_lia. subst m. rewrite Ht in Hm. by simplify_eq.
Qed.
(** The tables that are still to be allocated for [n] pages from page [k] on. *)
Definition needed (k : Z) (n : nat) : nat := Z.to_nat ((k + Z.of_nat n + 1023) `div` 1024 - (k + 1023) `div` 1024).
Lemma needed_step k n : 0 ≤ k → needed k (Datatypes.S n) = if decide (k `mod` 1024 = 0) then Datatypes.S (needed (k + 1) n) else needed (k + 1) n.
Proof. intros Hk. unfold needed. replace (k + Z.of_nat (Datatypes.S n) + 1023) with (k + 1 + Z.of_nat n + 1023) by lia. case_decide; div_lia. Qed.
Lemma map_ram_spec E n : ∀ k pd pt T s, mapped pd T k s → 0 ≤ k → k + Z.of_nat n ≤ 2 ^ 18 → (k `mod` 1024 ≠ 0 → T@[k `div` 1024] = Some pt) → (short (needed k n) (frames s) → E) →
  runs_or_stops E (map_ram n k pd pt) s (λ _ s', ∃ T', mapped pd T' (k + Z.of_nat n) s').
Proof.
  induction n as [|n IH]; intros k pd pt T s Hm Hk Hn Hpt HE; cbn [map_ram]; [exists T; by rewrite Z.add_0_r|]. destruct (kernel_address k) as (Ep & Epd & Ept & Hkp); [lia|]. rewrite Ep. apply ros_bind, ros_lift.
  rewrite Epd, Ept. destruct (next_table pd T k s Hm ltac:(lia)) as (i & -> & Hnew & Hold). pose proof Hm as [Hok [Hpk Hps] Hnd Hlen Hpde Hpte]. apply ros_bind, ros_runs, runs_read; [done|]. apply ros_bind.
  assert (pte_create_kernel (PHYS_BASE + 4096 * k) (negb (in_kernel_text (PHYS_BASE + 4096 * k))) = Done (kernel_pte k)) as Epte by (rewrite pte_create_kernel_spec by done; unfold kernel_pte; f_equal; destruct (in_kernel_text _); cbn; lia).
  assert (∀ T2 t s2, tables_ok s2 → is_Some (tables s2 !! pd) → NoDup (pd :: T2) → zlen T2 = k `div` 1024 + 1 → 
    (∀ i, 0 ≤ i < 1024 → entry_at s2 pd i = if 768 <=? i then match T2@[i - 768] with Some t => t - PHYS_BASE + 7 | None => 0 end else 0) →
    (∀ m t', T2@[m] = Some t' → is_kpage t' ∧ is_Some (tables s2 !! t') ∧ ∀ j, 0 ≤ j < 1024 → entry_at s2 t' j = if 1024 * m + j <? k then kernel_pte (1024 * m + j) else 0) → T2@[k `div` 1024] = Some t → (short (needed (k + 1) n) (frames s2) → E) →
    runs_or_stops E (e ← lift (pte_create_kernel (PHYS_BASE + 4096 * k) (negb (in_kernel_text (PHYS_BASE + 4096 * k)))); write_entry t (k `mod` 1024) e;; map_ram n (k + 1) pd t) s2 (λ _ s', ∃ T', mapped pd T' (k + Z.of_nat (Datatypes.S n)) s')) as Hrest.
  { intros T2 t s2 H1 H2 H3 H4 H5 H6 H7 H8. rewrite Epte. apply ros_bind, ros_lift. apply ros_bind, ros_runs, runs_write; [by apply (H6 _ _ H7)|]. replace (k + Z.of_nat (Datatypes.S n)) with (k + 1 + Z.of_nat n) by lia.
    apply (IH (k + 1) pd t T2); [by apply fill_entry|lia|lia| |by rewrite (proj1 (wrote_same t _ _ s2))]. intros Hk1. by replace ((k + 1) `div` 1024) with (k `div` 1024) by div_lia. }
  rewrite needed_step in HE by done. destruct (decide (k `mod` 1024 = 0)) as [E0|E0].
  - destruct (Hnew E0) as [-> Hadd]. cbn [Z.eqb]. apply ros_bind. eapply ros_mono; [by apply (get_table_spec E (needed (k + 1) n))|]. intros t s' (Hok' & Htk & Hfresh & Htab & HE'). rewrite pde_create_spec by done. apply ros_bind, ros_lift.
    destruct (Hadd t s' Hok' Htk Hfresh Htab) as (H1 & H2 & H3 & H4 & H5 & H6). apply ros_bind, ros_runs, runs_write; [by rewrite some_wrote in H3|]. apply ros_runs, runs_ret. assert (zlen T = k `div` 1024) as Hl by (rewrite Hlen; div_lia).
    apply (Hrest (T ++ [t])); try done; [rewrite zlen_app, Hl; done| |by rewrite (proj1 (wrote_same pd _ _ s'))]. rewrite zlookup_app, Hl. destruct (Z.ltb_spec (k `div` 1024) (k `div` 1024)); [lia|]. by rewrite Z.sub_diag.
  - destruct (Z.eqb_spec (entry_at s pd (768 + k `div` 1024)) 0); [by destruct (Hold E0)|]. apply ros_runs, runs_ret. apply (Hrest T); try done; [rewrite Hlen; div_lia|by apply Hpt].
Qed.
(** C26 [paging_init] maps all of RAM at [PHYS_BASE], page by page: the entry for each
    page of RAM points to this page and is writable exactly if it is not in the
    text of the kernel; there is no other entry, neither for the rest of the kernel's addresses
    nor for user addresses; the directory is activated.  It stops the kernel
    only for want of memory: if the allocator refuses one of the pages it needs,
    one for the directory and one for each 1024 pages of RAM ([short]). *)
Theorem paging_maps_ram s : tables_ok s → 0 ≤ init_ram_pages ≤ 2 ^ 18 →
  runs_or_stops (short (Datatypes.S (Z.to_nat ((init_ram_pages + 1023) `div` 1024))) (frames s)) paging_init s (λ pd s', cr3 s' = pd - PHYS_BASE ∧ tlb s' = ∅ ∧
    (∀ k, 0 ≤ k < init_ram_pages → pte_of s' pd (PHYS_BASE + 4096 * k) = 4096 * k + if in_kernel_text (PHYS_BASE + 4096 * k) then 1 else 3) ∧
    (∀ k, init_ram_pages ≤ k < 2 ^ 18 → pte_of s' pd (PHYS_BASE + 4096 * k) = 0) ∧
    ∀ va, is_user va → pte_of s' pd va = 0).
Proof.
  intros Hok Hr. set (E := short _ _). unfold paging_init. apply ros_bind. eapply ros_mono; [by apply (get_table_spec E (Z.to_nat ((init_ram_pages + 1023) `div` 1024)))|]. intros pd s1 (Hok1 & Hpk & Hfresh & Htab & HE). apply ros_bind.
  assert (mapped pd [] 0 s1) as Hm0. { split; [done|split; [done|rewrite Htab, lookup_insert_eq; by eexists]|apply NoDup_singleton|done| |intros m t H%zlookup_bound; unfold zlen in H; cbn in H; lia]. intros i Hi. unfold entry_at. rewrite Htab, lookup_insert_eq. destruct (768 <=? i); [|done]. unfold zlookup. rewrite lookup_nil. by destruct (_ <? 0). }
  eapply ros_mono; [apply (map_ram_spec E _ 0 pd NULL [] s1 Hm0); [lia|lia|done|]|].
  { unfold needed. rewrite Z2Nat.id, Z.add_0_l by lia. change ((0 + 1023) `div` 1024) with 0. by rewrite Z.sub_0_r. }
  intros [] s2 [T Hm]. rewrite Z.add_0_l, Z2Nat.id in Hm by lia. destruct (vtop_kpage pd Hpk) as [-> _]. apply ros_bind, ros_lift.
  destruct Hm as [_ _ _ Hlen Hpde Hpte]. assert (∀ k, 0 ≤ k < 2 ^ 18 → pte_of s2 pd (PHYS_BASE + 4096 * k) = if k <? init_ram_pages then kernel_pte k else 0) as Hall.
  { intros k Hk. destruct (kernel_address k Hk) as (_ & Epd & Ept & _). unfold pte_of. rewrite Epd, Ept, Hpde by div_lia. destruct (Z.leb_spec 768 (768 + k `div` 1024)); [|div_lia]. replace (768 + k `div` 1024 - 768) with (k `div` 1024) by lia. destruct (T@[k `div` 1024]) as [t|] eqn:Et.
    - destruct (Hpte _ _ Et) as (Hkt & Hst & Hj). assert (entry_base (t - PHYS_BASE + 7) = t) as -> by (destruct Hkt as [? ?]; unfold entry_base, PHYS_BASE in *; div_lia). destruct (Z.eqb_spec (t - PHYS_BASE + 7) 0); [destruct Hkt; lia|]. rewrite Hj by div_lia. by replace (1024 * (k `div` 1024) + k `mod` 1024) with k by div_lia.
    - cbn. destruct (Z.ltb_spec k init_ram_pages); [|done]. destruct (zlookup_lt T (k `div` 1024)) as [x Hx]; [rewrite Hlen; div_lia|]. by rewrite Hx in Et. }
  unfold runs_or_stops, pte_of, entry_at. cbn. fold (entry_at s2). split_and!; [done|done| | |].
  - intros k Hk. etransitivity; [apply Hall; lia|]. by destruct (Z.ltb_spec k init_ram_pages); [|lia].
  - intros k Hk. etransitivity; [apply Hall; lia|]. by destruct (Z.ltb_spec k init_ram_pages); [lia|].
  - intros va Hva. destruct (user_indices va Hva) as [Hi _]. change (pte_of s2 pd va = 0). unfold pte_of. rewrite Hpde by lia. destruct (Z.leb_spec 768 (pd_no va)); [lia|done].
Qed.
End paging.

(** The first three pages of RAM, the first of which holds kernel text. *)
Definition demo_mmu : mmu palloc := Mmu demo_palloc ∅ 0 ∅.
Lemma demo_tables_ok : tables_ok demo_mmu.
Proof. split; [apply demo_palloc_ok|]. intros t [x H]. discriminate. Qed.
Lemma paging_maps_ram_witness : ∃ pd s', paging_init 3 0xc0000000 0xc0001000 demo_mmu = Done (pd, s') ∧ pte_of s' pd 0xc0000000 = 1 ∧ pte_of s' pd 0xc0002000 = 0x2003.
Proof.
  pose proof (paging_maps_ram 3 0xc0000000 0xc0001000 demo_mmu demo_tables_ok ltac:(lia)) as H. unfold runs_or_stops in H.
  assert (paging_init 3 0xc0000000 0xc0001000 demo_mmu ≠ Panic) as Hn by (vm_compute; discriminate). destruct (paging_init 3 0xc0000000 0xc0001000 demo_mmu) as [[pd s']| | |]; [|destruct (Hn eq_refl)|destruct H..].
  exists pd, s'. destruct H as (_ & _ & H & _). split; [reflexivity|]. split; [exact (H 0 ltac:(lia))|exact (H 2 ltac:(lia))].
Defined.
