(* ===== verification/AddressSpace.v ===== *)
(** * Address spaces of processes (process_activate, and the parts of [load] and
    [process_exit] of src/pintos/src/userprog/process.c that make and give back a
    page directory)

    A process has a page directory in [t->pagedir]; every switch to a thread loads the
    directory of that thread ([thread_schedule_tail] calls [process_activate]).  While
    a thread makes or gives back its directory it can be interrupted between any two
    statements, and a switch back to it loads whatever [t->pagedir] says by
    then.  The model is a step relation: the statements of the running thread, and
    switches to any thread in between.  The theorem is what the comment in
    [process_exit] on their order is about: the processor never translates through a
    directory that has been freed. *)

From stdpp Require Import relations.
From S2P Require Import Prelude KList Vaddr Segments Palloc Pagedir.

(** ** The state *)

(** Where a thread is: before [load]; between [pagedir_create] and the assignment
    of its result; between the assignment and [process_activate]; with its directory, or without one; in
    [process_exit], after [cur->pagedir = NULL] and after [pagedir_activate (NULL)], with
    the directory in [pd]; and after that. *)
Inductive stage : Type := Fresh | Creating (pd : Z) | Loading | Live | Leaving (pd : Z) | Left (pd : Z) | Gone.
(** Page tables and CR3, the task state with the page of the current thread, [pagedir] of the
    threads, and their stages.  A thread is named by its page. *)
Record spaces (S : Type) : Type := Spaces { sp_mmu : mmu S; sp_task : task; sp_pagedir : gmap Z Z; sp_stage : gmap Z stage }.
Arguments Spaces {S}.
Arguments sp_mmu {S}.
Arguments sp_task {S}.
Arguments sp_pagedir {S}.
Arguments sp_stage {S}.

Section code.
Context {S : Type} `{!PageAllocator S} (init_page_dir init_ram_pages : Z).
Definition on_mmu {A} (m : M (mmu S) A) : M (spaces S) A := λ s,
  match m (sp_mmu s) with
  | Done (a, x) => Done (a, Spaces x (sp_task s) (sp_pagedir s) (sp_stage s))
  | Panic => Panic | Undef => Undef | NoFuel => NoFuel
  end.
Definition on_task {A} (m : M task A) : M (spaces S) A := λ s,
  match m (sp_task s) with
  | Done (a, x) => Done (a, Spaces (sp_mmu s) x (sp_pagedir s) (sp_stage s))
  | Panic => Panic | Undef => Undef | NoFuel => NoFuel
  end.
(** A new thread has a null pointer ([init_thread] clears its page). *)
Definition pagedir_of (s : spaces S) (t : Z) : Z := default NULL (sp_pagedir s !! t).
Definition stage_of (s : spaces S) (t : Z) : stage := default Fresh (sp_stage s !! t).
Definition running (s : spaces S) : Z := thread_page (sp_task s).
Definition set_pagedir (pd : Z) : M (spaces S) unit :=
  modify (λ s, Spaces (sp_mmu s) (sp_task s) (<[running s := pd]> (sp_pagedir s)) (sp_stage s)).
Definition set_stage (g : stage) : M (spaces S) unit :=
  modify (λ s, Spaces (sp_mmu s) (sp_task s) (sp_pagedir s) (<[running s := g]> (sp_stage s))).

(** ** The code *)

Definition process_activate : M (spaces S) unit :=
  pd ← gets (λ s, pagedir_of s (running s)); on_mmu (pagedir_activate init_page_dir pd);; on_task tss_update.
(** [schedule], as far as address spaces are concerned; interrupts are off. *)
Definition switch_to (t : Z) : M (spaces S) unit :=
  on_task (modify (λ k, Task (tss_ptr k) (tss_at k) t));; process_activate.

(** [t->pagedir = pagedir_create ()], [if (t->pagedir == NULL) goto done] and
    [process_activate ()] of [load]. *)
Definition load_create : M (spaces S) unit := pd ← on_mmu (pagedir_create init_page_dir); set_stage (Creating pd).
Definition load_assign (pd : Z) : M (spaces S) unit := set_pagedir pd;; set_stage (if pd =? NULL then Live else Loading).
Definition load_activate : M (spaces S) unit := process_activate;; set_stage Live.

(** [install_page]: the process enters a page in its directory. *)
Definition map_page (upage kpage : Z) (writable : bool) : M (spaces S) bool :=
  pd ← gets (λ s, pagedir_of s (running s));
  p ← on_mmu (pagedir_get_page pd upage);
  if p =? NULL then on_mmu (pagedir_set_page init_page_dir init_ram_pages pd upage kpage writable) else mret false.

(** [process_exit]: [cur->pagedir = NULL], [pagedir_activate (NULL)] and
    [pagedir_destroy (pd)], if there is a directory. *)
Definition exit_forget : M (spaces S) unit :=
  pd ← gets (λ s, pagedir_of s (running s));
  if negb (pd =? NULL) then set_pagedir NULL;; set_stage (Leaving pd) else set_stage Gone.
Definition exit_activate (pd : Z) : M (spaces S) unit := on_mmu (pagedir_activate init_page_dir NULL);; set_stage (Left pd).
Definition exit_destroy (pd : Z) : M (spaces S) unit := on_mmu (pagedir_destroy init_page_dir true pd);; set_stage Gone.

(** What can happen next: a switch, or the next statement of the running thread. *)
Inductive enabled (s : spaces S) : M (spaces S) unit → Prop :=
  | en_switch t : enabled s (switch_to t)
  | en_create : stage_of s (running s) = Fresh → enabled s load_create
  | en_assign pd : stage_of s (running s) = Creating pd → enabled s (load_assign pd)
  | en_activate : stage_of s (running s) = Loading → enabled s load_activate
  | en_map upage kpage w : stage_of s (running s) = Live → pagedir_of s (running s) ≠ NULL →
      is_user upage → pg_ofs upage = 0 → is_kpage kpage → (kpage - PHYS_BASE) `div` 4096 < init_ram_pages → enabled s (map_page upage kpage w;; mret tt)
  | en_forget : stage_of s (running s) = Fresh ∨ stage_of s (running s) = Live → enabled s exit_forget
  | en_leave pd : stage_of s (running s) = Leaving pd → enabled s (exit_activate pd)
  | en_destroy pd : stage_of s (running s) = Left pd → enabled s (exit_destroy pd).
Definition space_step (s s' : spaces S) : Prop := ∃ p, enabled s p ∧ p s = Done (tt, s').
End code.

(** ** Entries of other directories *)

Section frame.
Context {S : Type} `{!PageAllocator S} `{!PageAllocatorLaws S} (init_page_dir init_ram_pages : Z).
Implicit Types s : mmu S.
(** The directories other than [pd] have the entries they had. *)
Definition others_kept (D : gset Z) (pd : Z) s s' : Prop := ∀ pd' i, pd' ∈ D → pd' ≠ pd → entry_at s' pd' i = entry_at s pd' i.
Lemma lookup_kept D s pd va r s' : dirs_ok D s → pd ∈ D → is_user va → lookup_page pd va true s = Done (r, s') → others_kept D pd s s'.
Proof.
  intros Hok Hpd Hva. unfold lookup_page. intros E pd' j Hpd' Hne. revert E.
  unfold assert, lift, ASSERT, mbind, M_bind, outcome_bind. destruct (negb _); [|done]. destruct (_ || _); [|done]. unfold read_entry at 1.
  destruct (tables s !! pd) as [f|] eqn:Ef; [|done]. destruct (f (pd_no va) =? 0).
  - unfold on_frames at 1. pose proof (get_pages_law (frames s) 1 (do_alloc _ _ Hok) ltac:(lia)) as Hget. unfold runs in Hget.
    destruct (get_pages 1 (frames s)) as [[p fr]| | |]; [|done..]. destruct (Z.eqb_spec p NULL) as [->|Hp]; [by intros [= _ <-]|].
    destruct Hget as [_ [[? _]|(Hk & _ & Hfree & _)]]; [done|]. assert (pd' ≠ p) as Hpd'p.
    { intros ->. destruct (do_tables _ _ Hok p (do_dirs _ _ Hok p Hpd')) as [_ Hu]. apply (Hfree (pg_no p)); [unfold page_group; lia|done]. }
    unfold modify. destruct (pde_create p) as [e| | |]; [|done..]. unfold write_entry. cbn [tables set_tables set_frames].
    destruct (<[p := _]> (tables s) !! pd) as [g|]; [|done]. unfold mret, M_ret, read_entry. cbn [tables set_tables].
    destruct (<[pd := _]> _ !! pd) as [h|]; [|done]. destruct (pde_get_pt (h _)); [|done..]. intros [= _ <-]. unfold entry_at. cbn [tables set_tables]. by rewrite !lookup_insert_ne.
  - unfold mret, M_ret, read_entry. rewrite Ef. destruct (pde_get_pt (f _)); [|done..]. by intros [= _ <-].
Qed.
Lemma runs_both {T A} (m : M T A) t (Q R : A → T → Prop) : runs m t Q → (∀ a t', m t = Done (a, t') → R a t') → runs m t (λ a t', Q a t' ∧ R a t').
Proof. clear. unfold runs. destruct (m t) as [[a t']| | |]; auto. Qed.
Lemma set_page_kept D s pd upage kpage w : dirs_ok D s → pd ∈ D → pd ≠ init_page_dir → is_user upage → pg_ofs upage = 0 →
  is_kpage kpage → (kpage - PHYS_BASE) `div` 4096 < init_ram_pages → has (pte_of s pd upage) PTE_P = false →
  runs (pagedir_set_page init_page_dir init_ram_pages pd upage kpage w) s (λ _ s', dirs_ok D s' ∧ cr3 s' = cr3 s ∧ others_kept D pd s s').
Proof using PageAllocatorLaws0.
  intros Hok Hpd Hinit Hu Hofs Hk Hram Hp. destruct (vtop_kpage kpage Hk) as [Hvt _]. unfold pagedir_set_page.
  run. apply runs_assert; [by rewrite Hofs|]. run. apply runs_assert; [rewrite pg_ofs_mod; destruct Hk as [_ ->]; done|].
  run. apply runs_assert; [unfold is_user_vaddr, is_user in *; apply Z.ltb_lt; lia|]. run. rewrite Hvt. simpl.
  run. apply runs_assert; [unfold PTSHIFT, PGBITS; rewrite Z.shiftr_div_pow2 by lia; by apply Z.ltb_lt|].
  run. apply runs_assert; [by destruct (Z.eqb_spec pd init_page_dir)|]. run.
  eapply runs_mono; [apply runs_both; [by apply (lookup_spec D)|]; intros a t E; exact (lookup_kept D s pd upage a t Hok Hpd Hu E)|].
  intros [[pt i]|] s1 [(Hv & _ & H) Hl]; [|run; by destruct Hv as (? & _ & ? & _)]. destruct H as [-> Hs]. run. eapply read_view; [done..|].
  run. apply runs_assert; [unfold has in Hp; by apply negb_false_iff in Hp|]. run. rewrite pte_create_user_spec by done. simpl. run.
  assert (is_entry (kpage - PHYS_BASE + user_flags w)) as He by (unfold is_entry, is_kpage, PHYS_BASE, user_flags in *; destruct w; Z.to_euclidean_division_equations; lia).
  destruct Hv as (Hok1 & _ & Hc & _). destruct (table_apart D s1 Hok1 pd upage pt Hpd Hu Hs) as [_ Hsome]. apply runs_write; [done|]. run.
  destruct (wrote_same pt (pt_no upage) (kpage - PHYS_BASE + user_flags w) s1) as (_ & Ec & _). split; [by apply (wrote_ok D s1 Hok1 pd upage pt)|]. split; [congruence|].
  intros pd' i Hpd' Hne. rewrite (dir_wrote D s1 Hok1 pd upage pt); [by apply Hl|done..].
Qed.
End frame.

(** ** The invariant *)

Section safe.
Context {S : Type} `{!PageAllocator S} `{!PageAllocatorLaws S} (init_page_dir init_ram_pages : Z).
Implicit Types s : spaces S.
(** The directory a thread is responsible for, be it in [t->pagedir] or in a local variable. *)
Definition owns s (t : Z) : Z := match stage_of s t with Creating pd | Leaving pd | Left pd => pd | _ => pagedir_of s t end.
(** The directory [process_activate] loads for a thread. *)
Definition space_of s (t : Z) : Z := if pagedir_of s t =? NULL then init_page_dir else pagedir_of s t.
(** The directory in CR3: that one, except between two statements that are about to change it. *)
Definition active_ok s : Prop :=
  cr3 (sp_mmu s) + PHYS_BASE = space_of s (running s) ∨
  match stage_of s (running s) with
  | Loading => cr3 (sp_mmu s) + PHYS_BASE = init_page_dir
  | Leaving pd => cr3 (sp_mmu s) + PHYS_BASE = pd
  | _ => False
  end.
(** Only threads with a directory have one in [t->pagedir]. *)
Definition field_ok (g : stage) (pd : Z) : Prop := match g with Loading | Live => True | _ => pd = NULL end.
Definition task_ok (k : task) : Prop := tss_ptr k ≠ 0 ∧ esp0 (tss_at k) = u32 (thread_page k + 4096).
(** [D] is the set of directories. *)
Record spaces_ok (D : gset Z) s : Prop := {
  so_dirs : dirs_ok D (sp_mmu s);
  so_init : init_page_dir ∈ D;
  so_empty : ∀ i, 0 ≤ i < 768 → entry_at (sp_mmu s) init_page_dir i = 0;
  so_own : ∀ t, owns s t ≠ NULL → owns s t ∈ D ∧ owns s t ≠ init_page_dir;
  so_apart : ∀ t t', owns s t ≠ NULL → owns s t = owns s t' → t = t';
  so_field : ∀ t, field_ok (stage_of s t) (pagedir_of s t);
  so_active : active_ok s;
  so_task : task_ok (sp_task s);
}.

Lemma runs_on_mmu {A} (m : M (mmu S) A) s (Q : A → spaces S → Prop) :
  runs m (sp_mmu s) (λ a x, Q a (Spaces x (sp_task s) (sp_pagedir s) (sp_stage s))) → runs (on_mmu m) s Q.
Proof using Type. clear. unfold runs, on_mmu. by destruct (m (sp_mmu s)) as [[a x]| | |]. Qed.
Lemma runs_on_task {A} (m : M task A) s (Q : A → spaces S → Prop) :
  runs m (sp_task s) (λ a x, Q a (Spaces (sp_mmu s) x (sp_pagedir s) (sp_stage s))) → runs (on_task m) s Q.
Proof using Type. clear. unfold runs, on_task. by destruct (m (sp_task s)) as [[a x]| | |]. Qed.
Lemma stage_set x k P G r g : stage_of (Spaces x k P (<[r := g]> G) : spaces S) r = g.
Proof using Type. clear. unfold stage_of. cbn [sp_stage]. by rewrite lookup_insert_eq. Qed.
Lemma pagedir_set x k P G r pd : pagedir_of (Spaces x k (<[r := pd]> P) G : spaces S) r = pd.
Proof using Type. clear. unfold pagedir_of. cbn [sp_pagedir]. by rewrite lookup_insert_eq. Qed.
Lemma owns_set x k P G r g : owns (Spaces x k P (<[r := g]> G) : spaces S) r =
  match g with Creating pd | Leaving pd | Left pd => pd | _ => default NULL (P !! r) end.
Proof using Type. clear. unfold owns. by rewrite stage_set. Qed.

(** Loading CR3 does not change the tables. *)
Lemma load_cr3_ok D (x : mmu S) c b : dirs_ok D x → 0 ≤ c < 2 ^ 30 → dirs_ok D (Mmu (frames x) (tables x) c b).
Proof using Type. clear. intros [? ? ? ? ? ? ?] ?. by split. Qed.
Lemma dir_kpage D (x : mmu S) pd : dirs_ok D x → pd ∈ D → is_kpage pd.
Proof using Type. intros H Hpd. by apply (do_tables _ _ H), (do_dirs _ _ H). Qed.
Lemma kpage_phys pd : is_kpage pd → 0 ≤ pd - PHYS_BASE < 2 ^ 30.
Proof using Type. clear. unfold is_kpage, PHYS_BASE. lia. Qed.
Lemma runs_activate D (x : mmu S) pd (Q : unit → mmu S → Prop) : dirs_ok D x → (if pd =? NULL then init_page_dir else pd) ∈ D →
  Q tt (Mmu (frames x) (tables x) ((if pd =? NULL then init_page_dir else pd) - PHYS_BASE) ∅) → runs (pagedir_activate init_page_dir pd) x Q.
Proof using Type.
  intros Hok Hin HQ. unfold pagedir_activate. destruct (vtop_kpage _ (dir_kpage D x _ Hok Hin)) as [Hv _]. run. rewrite Hv. simpl. by run.
Qed.

(** Only the running thread has changed its directory and its stage. *)
Lemma changed_ok D D' s x P G : spaces_ok D s → dirs_ok D' x → init_page_dir ∈ D' → (∀ i, 0 ≤ i < 768 → entry_at x init_page_dir i = 0) →
  let s' := Spaces x (sp_task s) P G in
  (∀ t, t ≠ running s → P !! t = sp_pagedir s !! t ∧ G !! t = sp_stage s !! t) →
  (∀ t, t ≠ running s → owns s t ≠ NULL → owns s t ∈ D' ∧ owns s t ≠ owns s' (running s)) →
  (owns s' (running s) ≠ NULL → owns s' (running s) ∈ D' ∧ owns s' (running s) ≠ init_page_dir) →
  field_ok (stage_of s' (running s)) (pagedir_of s' (running s)) → active_ok s' → spaces_ok D' s'.
Proof using Type.
  intros H Hx Hi He s' Hsame Hothers Hown Hf Ha.
  assert (∀ t, t ≠ running s → stage_of s' t = stage_of s t ∧ pagedir_of s' t = pagedir_of s t ∧ owns s' t = owns s t) as Heq.
  { intros t Ht. destruct (Hsame t Ht) as [E1 E2]. unfold owns, stage_of, pagedir_of, s'. cbn [sp_pagedir sp_stage]. by rewrite E1, E2. }
  split; try done.
  - intros t. destruct (decide (t = running s)) as [->|Ht]; [done|]. destruct (Heq t Ht) as (_ & _ & ->). intros Hn. split; [by apply Hothers|by apply H].
  - intros t t'. destruct (decide (t = running s)) as [->|Ht], (decide (t' = running s)) as [->|Ht']; [done| | |].
    + destruct (Heq t' Ht') as (_ & _ & ->). intros Hn E. rewrite E in Hn. by destruct (Hothers t' Ht' Hn) as [_ []].
    + destruct (Heq t Ht) as (_ & _ & ->). intros Hn E. by destruct (Hothers t Ht Hn) as [_ []].
    + destruct (Heq t Ht) as (_ & _ & ->), (Heq t' Ht') as (_ & _ & ->). apply H.
  - intros t. destruct (decide (t = running s)) as [->|Ht]; [done|]. destruct (Heq t Ht) as (-> & -> & _). apply H.
  - apply (so_task _ _ H).
Qed.
Lemma field_owned D s t : spaces_ok D s → pagedir_of s t ≠ NULL → owns s t = pagedir_of s t.
Proof using Type. intros H Hn. pose proof (so_field _ _ H t) as Hf. unfold owns. by destruct (stage_of s t). Qed.
Lemma space_in D s t : spaces_ok D s → space_of s t ∈ D.
Proof using Type.
  intros H. unfold space_of. destruct (Z.eqb_spec (pagedir_of s t) NULL) as [E|E]; [apply H|]. rewrite <- (field_owned D s t H E). apply H. by rewrite (field_owned D s t H E).
Qed.
Lemma runs_process_activate D s (Q : unit → spaces S → Prop) : dirs_ok D (sp_mmu s) → space_of s (running s) ∈ D → tss_ptr (sp_task s) ≠ 0 →
  (∀ k, task_ok k → thread_page k = running s → Q tt (Spaces (Mmu (frames (sp_mmu s)) (tables (sp_mmu s)) (space_of s (running s) - PHYS_BASE) ∅) k (sp_pagedir s) (sp_stage s))) →
  runs (process_activate init_page_dir) s Q.
Proof using Type.
  intros Hok Hin Hp HQ. unfold process_activate. run. apply runs_on_mmu. eapply runs_activate; [done|exact Hin|]. apply runs_on_task. cbn [sp_task sp_mmu sp_pagedir sp_stage].
  unfold tss_update. run. apply runs_assert; [by destruct (Z.eqb_spec (tss_ptr (sp_task s)) 0)|]. run. apply HQ; [by split|done].
Qed.
(** A state in which CR3 has been loaded for the thread in [k]. *)
Lemma activated_ok D s k P : spaces_ok D s → P = space_of s (thread_page k) → task_ok k →
  spaces_ok D (Spaces (Mmu (frames (sp_mmu s)) (tables (sp_mmu s)) (P - PHYS_BASE) ∅) k (sp_pagedir s) (sp_stage s)).
Proof using Type.
  intros H -> Hk. pose proof (space_in D s (thread_page k) H) as Hin. destruct H as [H1 H2 H3 H4 H5 H6 _ _]. split; try done.
  - apply load_cr3_ok; [done|]. apply kpage_phys. by eapply dir_kpage.
  - left. unfold running. cbn [sp_mmu cr3 sp_task]. rewrite Z.sub_add. done.
Qed.

(** ** Each statement keeps it *)

Lemma switch_keeps D s t : spaces_ok D s → runs (switch_to init_page_dir t) s (λ _ s', spaces_ok D s').
Proof using Type.
  intros H. unfold switch_to. run. apply runs_on_task. run. eapply runs_process_activate; [apply H|exact (space_in D s t H)|exact (proj1 (so_task _ _ H))|].
  intros k Hk Ht. cbn [sp_mmu sp_pagedir sp_stage]. apply activated_ok; [done| |done]. by rewrite Ht.
Qed.
Lemma create_keeps D s : spaces_ok D s → stage_of s (running s) = Fresh → runs (load_create init_page_dir) s (λ _ s', ∃ D', spaces_ok D' s').
Proof using PageAllocatorLaws0.
  intros H Hs. unfold load_create. run. apply runs_on_mmu. eapply runs_mono; [apply (pagedir_create_empty init_page_dir D); apply H|].
  intros pd x (_ & He & Hc & Hcase). unfold set_stage. run. cbn [sp_mmu sp_task sp_pagedir sp_stage]. change (running (Spaces x _ _ _)) with (running s).
  assert (∃ D', dirs_ok D' x ∧ D ⊆ D' ∧ (pd ≠ NULL → pd ∈ D' ∧ pd ∉ D)) as (D' & Hx & Hsub & Hpd).
  { destruct Hcase as [[-> Hx]|(Hn & Hx & _)]; [by exists D|]. exists ({[pd]} ∪ D). split; [done|]. set_solver. }
  exists D'. pose proof (so_init _ _ H) as Hi. eapply changed_ok; [done|done|set_solver|by intros i Hr; rewrite He by done; apply H| | | | |].
  - intros t Ht. by rewrite lookup_insert_ne.
  - rewrite owns_set. intros t Ht Hn. destruct (so_own _ _ H t Hn) as [Hin _].
    split; [set_solver|]. intros E. rewrite E in Hin. destruct Hpd; [congruence|done].
  - rewrite owns_set. intros Hn. destruct (Hpd Hn). split; [done|]. intros ->. done.
  - rewrite stage_set. pose proof (so_field _ _ H (running s)) as Hf. by rewrite Hs in Hf.
  - left. cbn [sp_mmu]. rewrite Hc. pose proof (so_active _ _ H) as Ha. unfold active_ok in Ha. rewrite Hs in Ha. by destruct Ha.
Qed.
Lemma assign_keeps D s pd : spaces_ok D s → stage_of s (running s) = Creating pd → runs (load_assign pd) s (λ _ s', spaces_ok D s').
Proof using Type.
  intros H Hs. unfold load_assign, set_pagedir, set_stage. run. cbn [sp_mmu sp_task sp_pagedir sp_stage]. change (running (Spaces _ (sp_task s) _ _)) with (running s).
  assert (owns s (running s) = pd) as Eo by (unfold owns; by rewrite Hs).
  set (g := if pd =? NULL then Live else Loading). assert (match g with Creating p | Leaving p | Left p => p | _ => default NULL (<[running s := pd]> (sp_pagedir s) !! running s) end = pd) as Eg.
  { rewrite lookup_insert_eq. unfold g. by destruct (pd =? NULL). }
  eapply changed_ok; [done|apply H|apply H|apply H| | | | |].
  - intros t Ht. by rewrite !lookup_insert_ne.
  - rewrite owns_set, Eg. intros t Ht Hn. split; [by apply H|]. intros E. apply Ht, (so_apart _ _ H); [done|congruence].
  - rewrite owns_set, Eg, <- Eo. apply H.
  - rewrite stage_set. unfold g. by destruct (pd =? NULL).
  - pose proof (so_active _ _ H) as Ha. pose proof (so_field _ _ H (running s)) as Hf. unfold active_ok, space_of in *. rewrite Hs in *. cbn in Hf. rewrite Hf in Ha. destruct Ha as [Ha|[]].
    change (running (Spaces _ (sp_task s) _ _)) with (running s). rewrite pagedir_set, stage_set. cbn [sp_mmu]. unfold g. destruct (pd =? NULL); [by left|by right].
Qed.
(** The running thread, whose directory is in CR3, goes on to [g]. *)
Lemma stage_keeps D s g : spaces_ok D s → match g with Creating p | Leaving p | Left p => p | _ => pagedir_of s (running s) end = owns s (running s) →
  field_ok g (pagedir_of s (running s)) → cr3 (sp_mmu s) + PHYS_BASE = space_of s (running s) →
  spaces_ok D (Spaces (sp_mmu s) (sp_task s) (sp_pagedir s) (<[running s := g]> (sp_stage s))).
Proof using Type.
  intros H Ho Hf Ha. eapply changed_ok; [done|apply H|apply H|apply H| | | | |by left].
  - intros t Ht. by rewrite lookup_insert_ne.
  - rewrite owns_set. fold (pagedir_of s (running s)). rewrite Ho. intros t Ht Hn. split; [by apply H|]. intros E. by apply Ht, (so_apart _ _ H).
  - rewrite owns_set. fold (pagedir_of s (running s)). rewrite Ho. apply H.
  - by rewrite stage_set.
Qed.
Lemma activate_keeps D s : spaces_ok D s → stage_of s (running s) = Loading → runs (load_activate init_page_dir) s (λ _ s', spaces_ok D s').
Proof using Type.
  intros H Hs. unfold load_activate. run. eapply runs_process_activate; [apply H|by apply space_in|apply (so_task _ _ H)|]. intros k Hk Ht. unfold set_stage. run.
  set (s1 := Spaces _ k _ _). assert (spaces_ok D s1) as H1 by (apply activated_ok; [done|by rewrite Ht|done]). apply (stage_keeps D s1 Live H1); [|done|].
  - unfold owns. change (running s1) with (thread_page k). rewrite Ht. change (stage_of s1 (running s)) with (stage_of s (running s)). by rewrite Hs.
  - change (running s1) with (thread_page k). rewrite Ht. unfold s1. cbn [sp_mmu cr3]. by rewrite Z.sub_add.
Qed.
(** Outside [load] and [process_exit] the directory of the running thread is in CR3. *)
Lemma settled D s : spaces_ok D s → match stage_of s (running s) with Loading | Leaving _ => False | _ => True end → cr3 (sp_mmu s) + PHYS_BASE = space_of s (running s).
Proof using Type. intros H Hs. pose proof (so_active _ _ H) as Ha. unfold active_ok in Ha. by destruct Ha as [|Ha], (stage_of s (running s)). Qed.
Lemma map_keeps D s upage kpage w : spaces_ok D s → stage_of s (running s) = Live → pagedir_of s (running s) ≠ NULL →
  is_user upage → pg_ofs upage = 0 → is_kpage kpage → (kpage - PHYS_BASE) `div` 4096 < init_ram_pages →
  runs (map_page init_page_dir init_ram_pages upage kpage w;; mret tt) s (λ _ s', spaces_ok D s').
Proof using PageAllocatorLaws0.
  intros H Hs Hn Hu Ho Hk Hr. pose proof (field_owned D s _ H Hn) as Eo. destruct (so_own _ _ H (running s)) as [Hin Hni]; [by rewrite Eo|]. rewrite Eo in Hin, Hni.
  unfold map_page. run. apply runs_on_mmu. eapply runs_mono; [by apply (get_page_spec D); [apply H|..]|]. intros p x [-> Ep]. destruct (Z.eqb_spec p NULL) as [->|_]; run; [|by destruct s].
  assert (has (pte_of (sp_mmu s) (pagedir_of s (running s)) upage) PTE_P = false) as Hp.
  { pose proof (do_range _ _ (so_dirs _ _ H) _ upage Hin Hu) as He. destruct (has _ PTE_P); [|done]. exfalso. revert Ep. rewrite Ho. unfold entry_base, PHYS_BASE, NULL. rewrite u32_small; div_lia. }
  apply runs_on_mmu. eapply runs_mono; [by apply (set_page_kept init_page_dir init_ram_pages D); [apply H|..]|]. intros b x (Hx & Hc & Hkept). run. cbn [sp_mmu sp_task sp_pagedir sp_stage] in *.
  eapply (changed_ok D D s); [done|done|apply H| |done| | | |].
  - intros i Hi. rewrite Hkept; [by apply H|apply H|done].
  - intros t Ht Hnt. split; [by apply H|]. intros E. by apply Ht, (so_apart _ _ H).
  - exact (so_own _ _ H (running s)).
  - exact (so_field _ _ H (running s)).
  - left. cbn [sp_mmu]. rewrite Hc. apply (settled D s H). by rewrite Hs.
Qed.
Lemma forget_keeps D s : spaces_ok D s → stage_of s (running s) = Fresh ∨ stage_of s (running s) = Live → runs exit_forget s (λ _ s', spaces_ok D s').
Proof using Type.
  intros H Hs. assert (cr3 (sp_mmu s) + PHYS_BASE = space_of s (running s)) as Ha by (apply (settled D s H); by destruct Hs as [-> | ->]).
  assert (owns s (running s) = pagedir_of s (running s)) as Eo by (unfold owns; by destruct Hs as [-> | ->]).
  unfold exit_forget. run. destruct (Z.eqb_spec (pagedir_of s (running s)) NULL) as [E|E]; cbn [negb].
  { unfold set_stage. run. apply (stage_keeps D s Gone H); [by rewrite Eo|done|done]. }
  unfold set_pagedir, set_stage. run. cbn [sp_mmu sp_task sp_pagedir sp_stage]. change (running (Spaces _ (sp_task s) _ _)) with (running s).
  eapply changed_ok; [done|apply H|apply H|apply H| | | | |].
  - intros t Ht. by rewrite !lookup_insert_ne.
  - rewrite owns_set, <- Eo. intros t Ht Hn. split; [by apply H|]. intros E'. by apply Ht, (so_apart _ _ H).
  - rewrite owns_set, <- Eo. apply H.
  - rewrite stage_set, pagedir_set. done.
  - right. change (running (Spaces _ (sp_task s) _ _)) with (running s). rewrite stage_set. cbn [sp_mmu]. rewrite Ha. unfold space_of. by destruct (Z.eqb_spec (pagedir_of s (running s)) NULL).
Qed.
Lemma leave_keeps D s pd : spaces_ok D s → stage_of s (running s) = Leaving pd → runs (exit_activate init_page_dir pd) s (λ _ s', spaces_ok D s').
Proof using Type.
  intros H Hs. unfold exit_activate. run. apply runs_on_mmu. eapply runs_activate; [apply H|apply H|]. cbn [Z.eqb NULL]. unfold set_stage. run.
  pose proof (so_field _ _ H (running s)) as Hf. rewrite Hs in Hf. cbn in Hf. assert (init_page_dir = space_of s (running s)) as Ei by (unfold space_of; by rewrite Hf).
  set (s1 := Spaces _ (sp_task s) _ _). assert (spaces_ok D s1) as H1 by (apply activated_ok; [done|exact Ei|apply H]). apply (stage_keeps D s1 (Left pd) H1).
  - unfold owns. change (running s1) with (running s). change (stage_of s1 (running s)) with (stage_of s (running s)). by rewrite Hs.
  - exact Hf.
  - unfold s1. cbn [sp_mmu cr3]. rewrite Z.sub_add. exact Ei.
Qed.
Lemma destroy_keeps D s pd : spaces_ok D s → stage_of s (running s) = Left pd → runs (exit_destroy init_page_dir pd) s (λ _ s', ∃ D', spaces_ok D' s').
Proof using PageAllocatorLaws0.
  intros H Hs. assert (owns s (running s) = pd) as Eo by (unfold owns; by rewrite Hs). pose proof (so_field _ _ H (running s)) as Hf. rewrite Hs in Hf. cbn in Hf.
  destruct (decide (pd = NULL)) as [->|Hn].
  { exists D. destruct s. apply (stage_keeps D _ Gone H); [by rewrite Hf, Eo|done|]. apply (settled D _ H). by rewrite Hs. }
  destruct (so_own _ _ H (running s)) as [Hin Hni]; [by rewrite Eo|]. rewrite Eo in Hin, Hni. pose proof (so_init _ _ H) as Hi.
  unfold exit_destroy. run. apply runs_on_mmu. eapply runs_mono; [by apply (pagedir_destroy_exact init_page_dir D); [apply H|..]|]. intros [] x (Hx & _ & _ & He & Hc).
  unfold set_stage. run. cbn [sp_mmu sp_task sp_pagedir sp_stage]. change (running (Spaces _ (sp_task s) _ _)) with (running s). exists (D ∖ {[pd]}).
  eapply changed_ok; [done|done|set_solver| | | | | |].
  - intros i Hr. rewrite He by done. by apply H.
  - intros t Ht. by rewrite lookup_insert_ne.
  - rewrite owns_set. fold (pagedir_of s (running s)). rewrite Hf. intros t Ht Hnt. destruct (so_own _ _ H t Hnt) as [Htin _]. split; [|done].
    apply elem_of_difference. split; [done|]. rewrite elem_of_singleton. intros E. apply Ht, (so_apart _ _ H); [done|congruence].
  - rewrite owns_set. fold (pagedir_of s (running s)). by rewrite Hf.
  - rewrite stage_set. exact Hf.
  - left. cbn [sp_mmu]. rewrite Hc. apply (settled D s H). by rewrite Hs.
Qed.
Lemma enabled_keeps D s p : spaces_ok D s → enabled init_page_dir init_ram_pages s p → runs p s (λ _ s', ∃ D', spaces_ok D' s').
Proof using PageAllocatorLaws0.
  intros H Hp. assert (∀ m : M (spaces S) unit, runs m s (λ _ s', spaces_ok D s') → runs m s (λ _ s', ∃ D', spaces_ok D' s')) as Hex
    by (intros m Hm; eapply runs_mono; [exact Hm|]; intros a s' Hs'; by exists D).
  destruct Hp; eauto using create_keeps, destroy_keeps, switch_keeps, assign_keeps, activate_keeps, map_keeps, forget_keeps, leave_keeps.
Qed.
(** After start-up: the kernel runs on [init_page_dir], and no thread has a directory. *)
Definition started s : Prop :=
  (∃ D, dirs_ok D (sp_mmu s) ∧ init_page_dir ∈ D) ∧ (∀ i, 0 ≤ i < 768 → entry_at (sp_mmu s) init_page_dir i = 0) ∧
  sp_pagedir s = ∅ ∧ sp_stage s = ∅ ∧ cr3 (sp_mmu s) + PHYS_BASE = init_page_dir ∧ task_ok (sp_task s).
Lemma reachable_spaces_ok s0 s : started s0 → rtc (space_step init_page_dir init_ram_pages) s0 s → ∃ D, spaces_ok D s.
Proof using PageAllocatorLaws0.
  intros (HD & He & Hp & Hg & Hc & Hk) Hr. assert (∃ D, spaces_ok D s0) as H0.
  { destruct HD as (D & Hd & Hi). exists D. assert (∀ t, stage_of s0 t = Fresh ∧ pagedir_of s0 t = NULL ∧ owns s0 t = NULL) as Hz
      by (intros t; unfold owns, stage_of, pagedir_of; rewrite Hp, Hg, !lookup_empty; by split_and!).
    split; try done.
    - intros t. by destruct (Hz t) as (_ & _ & ->).
    - intros t t'. by destruct (Hz t) as (_ & _ & ->).
    - intros t. by destruct (Hz t) as (-> & -> & _).
    - left. unfold space_of. by destruct (Hz (running s0)) as (_ & -> & _). }
  clear -H0 Hr PageAllocatorLaws0. induction Hr as [|s1 s2 s3 (p & Hp & E) _ IH]; [done|]. apply IH. destruct H0 as (D & H0).
  pose proof (enabled_keeps D s1 p H0 Hp) as Hruns. unfold runs in Hruns. by rewrite E in Hruns.
Qed.
End safe.

(** C25 Address spaces.  In every history of threads that load programs, map pages and exit,
    with switches between any two statements: the directory in CR3 is a page directory that is
    allocated; a process runs on its own directory and has it to itself; the stack for interrupts is
    that of the running thread; and no statement stops the kernel or touches a page
    table that was freed. *)
Theorem address_space_alive {S : Type} `{!PageAllocator S} `{!PageAllocatorLaws S} (init_page_dir init_ram_pages : Z) (s0 s : spaces S) :
  started init_page_dir s0 → rtc (space_step init_page_dir init_ram_pages) s0 s →
  (∃ pd, cr3 (sp_mmu s) + PHYS_BASE = pd ∧ is_Some (tables (sp_mmu s) !! pd) ∧ in_use (frames (sp_mmu s)) (pg_no pd)) ∧
  (stage_of s (running s) = Live → pagedir_of s (running s) ≠ NULL → cr3 (sp_mmu s) + PHYS_BASE = pagedir_of s (running s)) ∧
  (∀ t t', pagedir_of s t ≠ NULL → pagedir_of s t = pagedir_of s t' → t = t') ∧
  esp0 (tss_at (sp_task s)) = u32 (running s + PGSIZE) ∧
  ∀ p, enabled init_page_dir init_ram_pages s p → runs p s (λ _ _, True).
Proof.
  intros H0 Hr. destruct (reachable_spaces_ok init_page_dir init_ram_pages s0 s H0 Hr) as (D & H). split_and!.
  - assert (∃ pd, cr3 (sp_mmu s) + PHYS_BASE = pd ∧ pd ∈ D) as (pd & E & Hin).
    { eexists. split; [done|]. destruct (so_active _ _ _ H) as [-> |Ha]; [by eapply space_in|]. destruct (stage_of s (running s)) as [| | | |pd| |] eqn:Es; try done; rewrite Ha; [apply H|].
      destruct (decide (pd = NULL)) as [->|Hn]; [pose proof (do_cr3 _ _ (so_dirs _ _ _ H)); unfold PHYS_BASE, NULL in Ha; lia|].
      pose proof (so_own _ _ _ H (running s)) as Ho. unfold owns in Ho. rewrite Es in Ho. by apply Ho. }
    exists pd. pose proof (do_dirs _ _ (so_dirs _ _ _ H) pd Hin) as Hs. split_and!; [done|done|]. by apply (do_tables _ _ (so_dirs _ _ _ H)).
  - intros Hs Hn. rewrite (settled init_page_dir D s H) by (by rewrite Hs). unfold space_of. by destruct (Z.eqb_spec (pagedir_of s (running s)) NULL).
  - intros t t' Hn E. assert (pagedir_of s t' ≠ NULL) as Hn' by congruence. apply (so_apart _ _ _ H); rewrite (field_owned _ D s t H Hn); [done|]. by rewrite (field_owned _ D s t' H Hn').
  - apply (so_task _ _ _ H).
  - intros p Hp. eapply runs_mono; [by eapply enabled_keeps|]. done.
Qed.

(** ** A process that comes and goes *)

Definition demo_spaces : spaces palloc :=
  Spaces (Mmu demo_taken (<[demo_init := λ _, 0]> {[demo_pd := λ _, 0]}) 0x101000 ∅) (Task 0xc0109000 (set_stack 0xc0106000 16 zero_tss) 0xc0105000) ∅ ∅.
Lemma demo_started : started demo_init demo_spaces.
Proof.
  split; [|split; [|by split_and!]].
  - exists demo_dirs. split; [|set_solver]. apply (load_cr3_ok _ demo_mmu 0x101000 ∅ demo_dirs_ok). lia.
  - intros i _. exact (demo_entries demo_init i).
Qed.
(** A thread loads a program and exits; between two statements of [process_exit] another thread runs. *)
Definition demo_history : list (M (spaces palloc) unit) :=
  [load_create demo_init; load_assign 0xc0103000; load_activate demo_init; exit_forget; switch_to demo_init 0xc0107000; switch_to demo_init 0xc0105000;
   exit_activate demo_init 0xc0103000; exit_destroy demo_init 0xc0103000].
(** The state after the first [n] of them. *)
Definition demo_after (n : nat) : spaces palloc := foldl (λ s p, match p s with Done (_, s') => s' | _ => s end) demo_spaces (take n demo_history).
Lemma demo_run n p : demo_history !! n = Some p → enabled demo_init 512 (demo_after n) p → (∃ s', p (demo_after n) = Done (tt, s')) →
  space_step demo_init 512 (demo_after n) (demo_after (S n)).
Proof.
  intros Hn Hp (s' & E). exists p. split; [done|]. rewrite E. do 2 f_equal. unfold demo_after. rewrite (take_S_r _ _ _ Hn), foldl_app. cbn [foldl].
  fold (demo_after n). by rewrite E.
Qed.
Lemma demo_reaches : rtc (space_step demo_init 512) demo_spaces (demo_after 6).
Proof.
  assert (∀ n, (n < 6)%nat → space_step demo_init 512 (demo_after n) (demo_after (S n))) as Hstep.
  { intros n Hn. destruct n as [|[|[|[|[|[|n]]]]]]; [..|lia]; (eapply demo_run; [reflexivity| |vm_compute; by eexists]).
    - apply en_create. vm_compute. reflexivity.
    - apply en_assign. vm_compute. reflexivity.
    - apply en_activate. vm_compute. reflexivity.
    - apply en_forget. right. vm_compute. reflexivity.
    - apply en_switch.
    - apply en_switch. }
  change demo_spaces with (demo_after 0). do 6 (eapply rtc_l; [apply Hstep; lia|]). apply rtc_refl.
Qed.
Lemma address_space_alive_witness : cr3 (sp_mmu (demo_after 3)) = 0x103000 ∧
  (∃ pd, cr3 (sp_mmu (demo_after 6)) + PHYS_BASE = pd ∧ in_use (frames (sp_mmu (demo_after 6))) (pg_no pd)) ∧ runs (exit_activate demo_init 0xc0103000) (demo_after 6) (λ _ _, True).
Proof.
  destruct (address_space_alive demo_init 512 demo_spaces (demo_after 6) demo_started demo_reaches) as ((pd & E & _ & Hu) & _ & _ & _ & Hrun).
  split; [vm_compute; reflexivity|]. split; [exists pd; split; [exact E|exact Hu]|]. apply Hrun. apply en_leave. vm_compute. reflexivity.
Defined.
(** At the end the directory has been given back and the kernel's is in use. *)
Example demo_exited : cr3 (sp_mmu (demo_after 8)) = 0x101000 ∧ tables (sp_mmu (demo_after 8)) !! 0xc0103000 = None ∧ tables (sp_mmu (demo_after 7)) !! 0xc0103000 ≠ None.
Proof. vm_compute. by split_and!. Qed.
