(* ===== verification/Cache.v ===== *)
(** * Block devices and the buffer cache
    (src/pintos/src/devices/block.c, src/pintos/src/filesys/cache.c)

    The cache keeps 64 sectors of the file system device in memory.  A buffer
    is named by its sequence number; [buffer_cache], the hash table, maps the
    number of a sector to its buffer (hash.c is such a map, see KHash.v);
    [list_lru] holds the buffers that may be reused, least recently used first.
    The free map and the root directory, sectors 0 and 1, are pinned.

    The calls are run one at a time: waiting on [lock_shared] or [sema_lru]
    can then never end, and is [out_of_fuel].  That the theorems say a call
    returns means that it never has to wait for a buffer its own thread left
    locked.  The readers-writer lock itself is the subject of SharedLock.v.

    [BlockStore] is what the cache promises inode.c: an array of sectors. *)

From S2P Require Import Prelude.

(** ** Block devices *)

Definition BLOCK_SECTOR_SIZE : Z := 512.
Inductive block_type : Type :=
  | BLOCK_KERNEL | BLOCK_FILESYS | BLOCK_SCRATCH | BLOCK_SWAP | BLOCK_RAW | BLOCK_FOREIGN.
#[export] Instance block_type_eq : EqDecision block_type.
Proof. solve_decision. Defined.

(** [struct block], with the sectors behind the driver's operations. *)
Record block : Type := Block {
  btype : block_type;
  bsize : Z;
  sectors : Z → list Z;
  read_cnt : Z;
  write_cnt : Z;
}.

(** A byte buffer of one sector. *)
Definition is_sector (d : list Z) : Prop := zlen d = BLOCK_SECTOR_SIZE ∧ Forall is_u8 d.

Lemma replicate_sector x : is_u8 x → is_sector (replicate 512 x).
Proof. intros Hx. split; [done|]. by apply Forall_replicate. Qed.

Definition supd {A} (f : Z → A) (n : Z) (d : A) (m : Z) : A := if m =? n then d else f m.

(** [check_sector] panics past the end of the device. *)
Definition check_sector (n : Z) : M block unit := b ← get; if bsize b <=? n then lift Panic else mret tt.
Definition block_read (n : Z) : M block (list Z) :=
  check_sector n;;
  b ← get;
  put (Block (btype b) (bsize b) (sectors b) (u64 (read_cnt b + 1)) (write_cnt b));;
  mret (sectors b n).
Definition block_write (n : Z) (buffer : list Z) : M block unit :=
  check_sector n;;
  b ← get;
  assert (negb (bool_decide (btype b = BLOCK_FOREIGN)));;
  put (Block (btype b) (bsize b) (supd (sectors b) n buffer) (read_cnt b) (u64 (write_cnt b + 1))).

(** ** The cache *)

Definition BUFFER_CACHE_SIZE : Z := 64.
Definition CACHE_DELAYED : Z := 1.
Definition ROOT_DIR_SECTOR : Z := 1.
Definition FREE_MAP_SECTOR : Z := 0.
(** [(block_sector_t) -1]. *)
Definition NO_SECTOR : Z := 2 ^ 32 - 1.

(** [shared] is [lock_shared.i]: the number of readers, or -1 for a writer. *)
Record cache_entry : Type := Entry { sector : Z; status : Z; shared : Z; data : list Z }.
Record cache : Type := Cache {
  fs_device : block;
  buffers : list cache_entry;
  buffer_cache : gmap Z Z;
  list_lru : list Z;
  sema_lru : Z;
}.

Definition set_device (d : block) (c : cache) : cache := Cache d (buffers c) (buffer_cache c) (list_lru c) (sema_lru c).
Definition set_buffers (l : list cache_entry) (c : cache) : cache := Cache (fs_device c) l (buffer_cache c) (list_lru c) (sema_lru c).
Definition set_table (m : gmap Z Z) (c : cache) : cache := Cache (fs_device c) (buffers c) m (list_lru c) (sema_lru c).
Definition set_lru (l : list Z) (c : cache) : cache := Cache (fs_device c) (buffers c) (buffer_cache c) l (sema_lru c).
Definition set_sema (v : Z) (c : cache) : cache := Cache (fs_device c) (buffers c) (buffer_cache c) (list_lru c) v.

Definition on_device {A} (m : M block A) : M cache A := λ c,
  match m (fs_device c) with
  | Done (a, d) => Done (a, set_device d c)
  | Panic => Panic | Undef => Undef | NoFuel => NoFuel
  end.

Definition buffer_at (b : Z) : M cache cache_entry := c ← get; lift (rd (buffers c) b).
Definition set_buffer (b : Z) (e : cache_entry) : M cache unit :=
  c ← get; l ← lift (wr (buffers c) b e); put (set_buffers l c).
Definition modify_buffer (b : Z) (f : cache_entry → cache_entry) : M cache unit := e ← buffer_at b; set_buffer b (f e).

Definition set_sector (n : Z) (e : cache_entry) : cache_entry := Entry n (status e) (shared e) (data e).
Definition set_status (s : Z) (e : cache_entry) : cache_entry := Entry (sector e) s (shared e) (data e).
Definition set_shared (i : Z) (e : cache_entry) : cache_entry := Entry (sector e) (status e) i (data e).
Definition set_data (d : list Z) (e : cache_entry) : cache_entry := Entry (sector e) (status e) (shared e) d.

Definition buffer_is_delayed (e : cache_entry) : bool := negb (Z.land (status e) CACHE_DELAYED =? 0).
Definition buffer_set_delayed (b : Z) (flag : bool) : M cache unit :=
  modify_buffer b (λ e, set_status (if flag then Z.lor (status e) CACHE_DELAYED else Z.land (status e) (Z.lnot CACHE_DELAYED)) e).

(** The readers-writer lock of a buffer with no other thread around: the loops
    around [cond_wait] never end, and there is nobody to wake. *)
Definition acquire_shared (b : Z) : M cache unit :=
  e ← buffer_at b; if shared e <? 0 then out_of_fuel else set_buffer b (set_shared (shared e + 1) e).
Definition acquire_exclusive (b : Z) : M cache unit :=
  e ← buffer_at b; if negb (shared e =? 0) then out_of_fuel else set_buffer b (set_shared (-1) e).
Definition release_shared (b : Z) : M cache unit := modify_buffer b (λ e, set_shared (shared e - 1) e).
Definition release_exclusive (b : Z) : M cache unit := modify_buffer b (set_shared 0).

(** [malloc] of a buffer is taken to succeed, as the code takes it. *)
Definition cache_init (d : block) : cache :=
  Cache d (replicate 64 (Entry NO_SECTOR 0 0 (replicate 512 0))) ∅ (seqZ 0 BUFFER_CACHE_SIZE) 0.

Definition cache_lookup (n : Z) (c : cache) : option Z := buffer_cache c !! n.

Definition cache_flush_buffer (b : Z) : M cache unit :=
  e ← buffer_at b; on_device (block_write (sector e) (data e));; buffer_set_delayed b false.

Fixpoint cache_get_block (fuel : nat) (n : Z) : M cache Z :=
  match fuel with
  | O => out_of_fuel
  | S fuel =>
      found ← gets (cache_lookup n);
      match found with
      | Some b =>
          acquire_exclusive b;;
          e ← buffer_at b;
          if negb (sector e =? n) then release_exclusive b;; cache_get_block fuel n
          else
            (if ROOT_DIR_SECTOR <? n then
               c ← get; if bool_decide (b ∈ list_lru c) then put (set_lru (filter (λ x, x ≠ b) (list_lru c)) c) else undefined
             else mret tt);;
            mret b
      | None =>
          c ← get;
          match list_lru c with
          | [] => if 0 <? sema_lru c then put (set_sema (sema_lru c - 1) c);; cache_get_block fuel n else out_of_fuel
          | b :: rest =>
              put (set_lru rest c);;
              e ← buffer_at b;
              (if buffer_is_delayed e then acquire_shared b;; cache_flush_buffer b;; release_shared b else mret tt);;
              acquire_exclusive b;;
              e ← buffer_at b;
              modify (λ c, set_table (delete (sector e) (buffer_cache c)) c);;
              mret b
          end
      end
  end.

Definition cache_release (b : Z) : M cache unit :=
  e ← buffer_at b;
  (if ROOT_DIR_SECTOR <? sector e then
     modify (λ c, set_lru (list_lru c ++ [b]) c);; modify (λ c, set_sema (u32 (sema_lru c + 1)) c)
   else mret tt);;
  release_exclusive b.

(** [hash_insert]: an element that is there already stays. *)
Definition table_insert (b : Z) : M cache unit :=
  e ← buffer_at b;
  modify (λ c, match buffer_cache c !! sector e with Some _ => c | None => set_table (<[sector e := b]> (buffer_cache c)) c end).

Definition cache_block_read (n : Z) : M cache (list Z) :=
  b ← cache_get_block 1 n;
  e ← buffer_at b;
  (if negb (sector e =? n) then
     modify_buffer b (set_sector n);;
     table_insert b;;
     d ← on_device (block_read n);
     modify_buffer b (set_data d)
   else mret tt);;
  cache_release b;;
  acquire_shared b;;
  e ← buffer_at b;
  release_shared b;;
  mret (data e).

Definition cache_block_write (n : Z) (d : list Z) : M cache unit :=
  b ← cache_get_block 1 n;
  modify_buffer b (set_sector n);;
  modify_buffer b (set_data d);;
  if negb (n =? NO_SECTOR) then
    table_insert b;;
    buffer_set_delayed b true;;
    cache_release b
  else mret tt.

(** [cache_flush_cache] visits every element of the hash table once, in an
    order that is up to the table. *)
Fixpoint cache_flush_cache (order : list Z) : M cache unit :=
  match order with
  | [] => mret tt
  | b :: order =>
      e ← buffer_at b;
      (if buffer_is_delayed e then acquire_shared b;; cache_flush_buffer b;; release_shared b else mret tt);;
      cache_flush_cache order
  end.

(** What [inode_flush] does with one sector. *)
Definition flush_sector (n : Z) : M cache unit :=
  found ← gets (cache_lookup n);
  match found with
  | Some b =>
      e ← buffer_at b;
      if buffer_is_delayed e then acquire_shared b;; cache_flush_buffer b;; release_shared b else mret tt
  | None => mret tt
  end.

(** ** The invariant *)

(** The sectors as the users of the cache see them. *)
Definition view (c : cache) (n : Z) : list Z :=
  match buffer_cache c !! n with
  | Some b => match (buffers c)@[b] with Some e => data e | None => [] end
  | None => sectors (fs_device c) n
  end.

Record dev_ok (d : block) : Prop := {
  dv_type : btype d ≠ BLOCK_FOREIGN;
  dv_size : 0 ≤ bsize d ≤ NO_SECTOR;
  dv_data : ∀ n, is_sector (sectors d n);
}.

(** A buffer that is not in use: it is fresh, or holds the sector the table says;
    unless it is marked for writing, its data are those of the device. *)
Definition buf_ok (c : cache) (b : Z) (e : cache_entry) : Prop :=
  shared e = 0 ∧ is_sector (data e) ∧
  ((sector e = NO_SECTOR ∧ status e = 0) ∨
   (buffer_cache c !! sector e = Some b ∧
    (status e = 1 ∨ status e = 0 ∧ data e = sectors (fs_device c) (sector e)))).

(** [held]: the buffer the caller has locked, if any. *)
Record cache_inv (held : option Z) (c : cache) : Prop := {
  co_dev : dev_ok (fs_device c);
  co_len : zlen (buffers c) = BUFFER_CACHE_SIZE;
  co_buf : ∀ b e, Some b ≠ held → (buffers c)@[b] = Some e → buf_ok c b e;
  co_tab : ∀ n b, buffer_cache c !! n = Some b → 0 ≤ n < bsize (fs_device c) ∧ ∃ e, (buffers c)@[b] = Some e ∧ sector e = n;
  co_lru : NoDup (list_lru c);
  co_free : ∀ b, b ∈ list_lru c ↔ Some b ≠ held ∧ ∃ e, (buffers c)@[b] = Some e ∧ ROOT_DIR_SECTOR < sector e;
}.
Definition cache_ok (c : cache) : Prop := cache_inv None c.


Section facts.
Context (c : cache) (Hc : cache_ok c).

(** At most two buffers are pinned, so one can always be reused. *)
Lemma lru_nonempty : list_lru c ≠ [].
Proof using Hc.
  intros E. assert (∀ b, 0 ≤ b < 3 → buffer_cache c !! 0 = Some b ∨ buffer_cache c !! 1 = Some b) as Hpin.
  { intros b Hb. destruct (zlookup_lt (buffers c) b) as [e He]; [rewrite (co_len _ _ Hc); unfold BUFFER_CACHE_SIZE; lia|].
    destruct (decide (ROOT_DIR_SECTOR < sector e)) as [Hgt|Hle].
    - assert (b ∈ list_lru c) as Hin by (apply (co_free _ _ Hc); by eauto). rewrite E in Hin. by apply not_elem_of_nil in Hin.
    - destruct (co_buf _ _ Hc b e ltac:(done) He) as (_ & _ & [[Hs _]|[Ht _]]).
      { rewrite Hs in Hle. unfold NO_SECTOR, ROOT_DIR_SECTOR in Hle. lia. }
      destruct (co_tab _ _ Hc _ _ Ht) as [Hr _]. unfold ROOT_DIR_SECTOR in Hle.
      assert (sector e = 0 ∨ sector e = 1) as [Es|Es] by lia; rewrite Es in Ht; auto. }
  destruct (Hpin 0 ltac:(lia)) as [H0|H0], (Hpin 1 ltac:(lia)) as [H1|H1], (Hpin 2 ltac:(lia)) as [H2|H2]; congruence.
Qed.
(** Each sector is in one buffer. *)
Lemma table_inj n m b : buffer_cache c !! n = Some b → buffer_cache c !! m = Some b → n = m.
Proof using Hc.
  intros Hn Hm. destruct (co_tab _ _ Hc _ _ Hn) as (_ & e & He & <-), (co_tab _ _ Hc _ _ Hm) as (_ & e' & He' & <-). congruence.
Qed.
Lemma view_sector n : is_sector (view c n).
Proof using Hc.
  unfold view. destruct (buffer_cache c !! n) as [b|] eqn:E; [|apply Hc].
  destruct (co_tab _ _ Hc _ _ E) as (_ & e & He & _). rewrite He. by apply (co_buf _ _ Hc b).
Qed.
Lemma buffer_at_spec b e : (buffers c)@[b] = Some e → buffer_at b c = Done (e, c).
Proof using Type. intros H. unfold buffer_at, mbind, M_bind, get, lift. by rewrite (rd_Some _ _ _ H). Qed.
End facts.

Lemma set_buffer_spec c b e e0 : (buffers c)@[b] = Some e0 → set_buffer b e c = Done (tt, set_buffers ((buffers c)@[b := e]) c).
Proof. intros H%zlookup_bound. unfold set_buffer, mbind, M_bind, get, lift, put. by rewrite wr_in. Qed.
Lemma modify_buffer_spec c b f e0 : (buffers c)@[b] = Some e0 → modify_buffer b f c = Done (tt, set_buffers ((buffers c)@[b := f e0]) c).
Proof. intros H. unfold modify_buffer, mbind, M_bind. rewrite (buffer_at_spec c b e0 H). by apply (set_buffer_spec _ _ _ e0). Qed.

(** ** A buffer is taken *)

Section take.
Context (c : cache) (Hc : cache_ok c) (b : Z) (e : cache_entry) (He : (buffers c)@[b] = Some e).

Lemma buf_bound : 0 ≤ b < zlen (buffers c).
Proof using He. by apply zlookup_bound in He. Qed.

(** The sector is in the buffer [b]. *)
Lemma hit_ok n : buffer_cache c !! n = Some b →
  let c' := Cache (fs_device c) ((buffers c)@[b := set_shared (-1) e]) (buffer_cache c)
              (if ROOT_DIR_SECTOR <? n then filter (λ x, x ≠ b) (list_lru c) else list_lru c) (sema_lru c) in
  cache_inv (Some b) c' ∧ ∀ m, view c' m = view c m.
Proof using Hc He.
  intros Hn c'. destruct (co_tab _ _ Hc _ _ Hn) as (Hr & e' & He' & Hs). assert (e' = e) as -> by congruence. split.
  - split; simpl.
    + apply Hc.
    + rewrite zlen_insert. apply Hc.
    + intros b' e' Hne. rewrite zlookup_insert_ne by congruence. intros Hb'. by apply (co_buf _ _ Hc).
    + intros m b' Hm. destruct (co_tab _ _ Hc _ _ Hm) as (Hrm & e' & He2 & Hs'). split; [done|].
      destruct (decide (b' = b)) as [->|]; [|exists e'; by rewrite zlookup_insert_ne].
      exists (set_shared (-1) e). rewrite zlookup_insert_eq by apply buf_bound. split; [done|]. simpl. congruence.
    + destruct (ROOT_DIR_SECTOR <? n); [apply list.NoDup_filter|]; apply Hc.
    + intros b'. assert (b' ∈ (if ROOT_DIR_SECTOR <? n then filter (λ x, x ≠ b) (list_lru c) else list_lru c) ↔ b' ≠ b ∧ b' ∈ list_lru c) as ->.
      { destruct (Z.ltb_spec ROOT_DIR_SECTOR n) as [|Hle]; [by rewrite list_elem_of_filter|].
        split; [|tauto]. intros Hin. split; [|done]. intros ->. apply (co_free _ _ Hc) in Hin as (_ & e' & He2 & Hlt).
        rewrite He in He2. injection He2 as <-. lia. }
      rewrite (co_free _ _ Hc). split.
      * intros (Hne & _ & e' & He2 & Hlt). split; [congruence|]. exists e'. by rewrite zlookup_insert_ne.
      * intros (Hne & e' & He2 & Hlt). assert (b' ≠ b) by congruence. rewrite zlookup_insert_ne in He2 by done. eauto 10.
  - intros m. unfold view. simpl. destruct (buffer_cache c !! m) as [b'|]; [|done].
    destruct (decide (b' = b)) as [->|]; [|by rewrite zlookup_insert_ne]. by rewrite zlookup_insert_eq, He by apply buf_bound.
Qed.

(** The buffer is the least recently used one; it has been written back. *)
Lemma miss_ok d rest : list_lru c = b :: rest → dev_ok d → bsize d = bsize (fs_device c) →
  (∀ m, sectors d m = if decide (buffer_cache c !! m = Some b) then data e else sectors (fs_device c) m) →
  let c' := Cache d ((buffers c)@[b := Entry (sector e) 0 (-1) (data e)]) (delete (sector e) (buffer_cache c)) rest (sema_lru c) in
  cache_inv (Some b) c' ∧ (∀ m, view c' m = view c m) ∧ ∀ m, buffer_cache c' !! m ≠ Some b.
Proof using Hc He.
  intros Hl Hd Hsz Hsec c'.
  assert (∀ m, buffer_cache c !! m = Some b ↔ m = sector e ∧ sector e ≠ NO_SECTOR) as Hb.
  { intros m. destruct (co_buf _ _ Hc b e ltac:(done) He) as (_ & _ & Hcase). split.
    - intros Hm. destruct (co_tab _ _ Hc _ _ Hm) as (Hr & e' & He' & <-). assert (e' = e) as -> by congruence. split; [done|].
      pose proof (dv_size _ (co_dev _ _ Hc)). lia.
    - intros [-> Hne]. destruct Hcase as [[? _]|[? _]]; done. }
  assert (∀ m, buffer_cache c' !! m = if decide (m = sector e) then None else buffer_cache c !! m) as Htab.
  { intros m. simpl. destruct (decide (m = sector e)) as [->|]; [apply lookup_delete_eq|by rewrite lookup_delete_ne]. }
  assert (∀ m b', buffer_cache c' !! m = Some b' → buffer_cache c !! m = Some b' ∧ b' ≠ b) as Hkeep.
  { intros m b'. rewrite Htab. case_decide as Hm; [done|]. intros H. split; [done|]. intros ->. by apply Hb in H as [? _]. }
  pose proof (co_lru _ _ Hc) as Hnd. rewrite Hl in Hnd. apply list.NoDup_cons in Hnd as [Hnin Hnd].
  split_and!; [split| |].
  - done.
  - simpl. rewrite zlen_insert. apply Hc.
  - intros b' e' Hne. simpl. rewrite zlookup_insert_ne by congruence. intros He'.
    destruct (co_buf _ _ Hc b' e' ltac:(done) He') as (H1 & H2 & Hcase). split_and!; [done..|].
    destruct Hcase as [?|[Ht Hst]]; [by left|right]. assert (sector e' ≠ sector e) as Hse.
    { intros E. destruct (decide (sector e = NO_SECTOR)) as [En|En].
      - destruct (co_tab _ _ Hc _ _ Ht) as [Hr _]. pose proof (dv_size _ (co_dev _ _ Hc)). lia.
      - assert (buffer_cache c !! sector e = Some b) by (by apply Hb). rewrite E in Ht. congruence. }
    rewrite Htab, decide_False by done. split; [done|]. destruct Hst as [|[? Hdat]]; [by left|right]. split; [done|]. simpl.
    rewrite Hsec, decide_False; [done|]. rewrite Ht. congruence.
  - intros m b' [Hm Hne]%Hkeep. destruct (co_tab _ _ Hc _ _ Hm) as (Hr & e' & He' & Hs'). simpl. rewrite Hsz. split; [done|].
    exists e'. by rewrite zlookup_insert_ne.
  - done.
  - intros b'. simpl. assert (b' ∈ rest ↔ b' ≠ b ∧ b' ∈ list_lru c) as ->.
    { rewrite Hl, elem_of_cons. split; [|tauto]. intros Hin. split; [|by right]. by intros ->. }
    rewrite (co_free _ _ Hc). split.
    + intros (Hne & _ & e' & He' & Hlt). split; [congruence|]. exists e'. by rewrite zlookup_insert_ne.
    + intros (Hne & e' & He' & Hlt). assert (b' ≠ b) by congruence. rewrite zlookup_insert_ne in He' by done. eauto 10.
  - intros m. unfold view. rewrite Htab. case_decide as Hm.
    + subst m. destruct (decide (sector e = NO_SECTOR)) as [En|En].
      * destruct (buffer_cache c !! sector e) as [b'|] eqn:Hn.
        { destruct (co_tab _ _ Hc _ _ Hn) as [Hr _]. pose proof (dv_size _ (co_dev _ _ Hc)). lia. }
        simpl. rewrite Hsec, decide_False; [done|]. congruence.
      * assert (buffer_cache c !! sector e = Some b) as Hn by (by apply Hb). rewrite Hn, He. simpl. by rewrite Hsec, decide_True.
    + destruct (buffer_cache c !! m) as [b'|] eqn:Hn.
      * simpl. rewrite zlookup_insert_ne; [done|]. intros <-. by apply Hb in Hn as [? _].
      * simpl. rewrite Hsec, decide_False; [done|]. congruence.
  - intros m Hm. by apply Hkeep in Hm as [_ ?].
Qed.
End take.

(** ** Writing back *)

Definition written (n : Z) (d : list Z) (dev : block) : block :=
  Block (btype dev) (bsize dev) (supd (sectors dev) n d) (read_cnt dev) (u64 (write_cnt dev + 1)).
Lemma on_device_spec {A} (m : M block A) c a d : m (fs_device c) = Done (a, d) → on_device m c = Done (a, set_device d c).
Proof. unfold on_device. by intros ->. Qed.
Lemma block_write_spec dev n d : btype dev ≠ BLOCK_FOREIGN → n < bsize dev → block_write n d dev = Done (tt, written n d dev).
Proof.
  intros Ht Hn. unfold block_write, check_sector, mbind, M_bind, get. destruct (Z.leb_spec (bsize dev) n); [lia|].
  simpl. rewrite bool_decide_eq_false_2 by done. done.
Qed.
Lemma block_read_spec dev n : n < bsize dev → ∃ dev', block_read n dev = Done (sectors dev n, dev') ∧
  btype dev' = btype dev ∧ bsize dev' = bsize dev ∧ sectors dev' = sectors dev.
Proof.
  intros Hn. unfold block_read, check_sector, mbind, M_bind, get. destruct (Z.leb_spec (bsize dev) n); [lia|]. eexists. done.
Qed.
Lemma write_back_spec c b e : (buffers c)@[b] = Some e → shared e = 0 → status e = 1 → btype (fs_device c) ≠ BLOCK_FOREIGN →
  sector e < bsize (fs_device c) →
  (acquire_shared b;; cache_flush_buffer b;; release_shared b) c =
  Done (tt, Cache (written (sector e) (data e) (fs_device c)) ((buffers c)@[b := Entry (sector e) 0 0 (data e)]) (buffer_cache c) (list_lru c) (sema_lru c)).
Proof.
  intros He Hs Hst Ht Hn. pose proof (zlookup_bound _ _ _ He) as Hb. unfold mbind, M_bind, acquire_shared.
  unfold mbind, M_bind at 1. rewrite (buffer_at_spec c b e He), Hs. simpl. rewrite (set_buffer_spec c b _ e He).
  unfold cache_flush_buffer, mbind, M_bind. erewrite buffer_at_spec by (simpl; by apply zlookup_insert_eq). simpl.
  erewrite on_device_spec by (simpl; by apply block_write_spec). unfold buffer_set_delayed.
  erewrite modify_buffer_spec by (simpl; by apply zlookup_insert_eq). unfold release_shared. simpl.
  erewrite modify_buffer_spec by (simpl; rewrite zlookup_insert_eq by (by rewrite zlen_insert); done). simpl.
  unfold set_buffers, set_device, set_shared, set_status. simpl. rewrite !zinsert_insert, Hst. done.
Qed.
Lemma written_ok dev n d : dev_ok dev → is_sector d → dev_ok (written n d dev).
Proof. intros [H1 H2 H3] Hd. split; [done..|]. intros m. simpl. unfold supd. by destruct (m =? n). Qed.

(** ** A buffer is given back *)

(** The buffer [b] now holds the sector [n], marked ([st] = 1) or as on the device. *)
Lemma commit_ok c b e n st d sema dev : cache_inv (Some b) c → (buffers c)@[b] = Some e → is_sector d → 0 ≤ n < bsize (fs_device c) →
  (∀ m, buffer_cache c !! m = Some b → m = n) → (buffer_cache c !! n = None ∨ buffer_cache c !! n = Some b) →
  dev_ok dev → bsize dev = bsize (fs_device c) → (∀ m, sectors dev m = sectors (fs_device c) m) →
  st = 1 ∨ st = 0 ∧ d = sectors (fs_device c) n →
  let c' := Cache dev ((buffers c)@[b := Entry n st 0 d]) (<[n := b]> (buffer_cache c))
              (if ROOT_DIR_SECTOR <? n then list_lru c ++ [b] else list_lru c) sema in
  cache_ok c' ∧ ∀ m, view c' m = supd (view c) n d m.
Proof.
  intros Hc He Hd Hn Hb Htn Hdev Hsz Hsec Hst c'. pose proof (zlookup_bound _ _ _ He) as Hbb.
  assert (∀ m b', buffer_cache c !! m = Some b' → m ≠ n → b' ≠ b) as Hother by (intros m b' Hm Hne ->; by apply Hne, Hb).
  assert (b ∉ list_lru c) as Hnin by (rewrite (co_free _ _ Hc); intros [? _]; done).
  split; [split|].
  - done.
  - simpl. rewrite zlen_insert. apply Hc.
  - intros b' e' _. simpl. destruct (decide (b' = b)) as [->|Hne].
    + rewrite zlookup_insert_eq by done. intros [= <-]. split_and!; [done..|right]. simpl. rewrite lookup_insert_eq. split; [done|].
      destruct Hst as [|[? ->]]; [by left|right]. by rewrite Hsec.
    + rewrite zlookup_insert_ne by done. intros He'. destruct (co_buf _ _ Hc b' e' ltac:(congruence) He') as (H1 & H2 & Hcase).
      split_and!; [done..|]. destruct Hcase as [?|[Ht Hs]]; [by left|right]. simpl.
      rewrite lookup_insert_ne; [|intros E; rewrite <-E in Ht; destruct Htn; congruence]. split; [done|]. by rewrite Hsec.
  - intros m b'. simpl. rewrite lookup_insert_Some, Hsz. intros [[<- <-]|[Hne Hm]].
    + split; [done|]. eexists. rewrite zlookup_insert_eq by done. done.
    + destruct (co_tab _ _ Hc _ _ Hm) as (Hr & e' & He' & Hs'). split; [done|]. exists e'.
      rewrite zlookup_insert_ne; [done|]. intros <-. by destruct (Hother m b).
  - simpl. destruct (ROOT_DIR_SECTOR <? n); [|apply Hc]. apply list.NoDup_app. split_and!; [apply Hc| |apply NoDup_singleton].
    intros x Hx ->%list_elem_of_singleton. done.
  - intros b'. simpl. assert (b' ∈ (if ROOT_DIR_SECTOR <? n then list_lru c ++ [b] else list_lru c) ↔ b' ∈ list_lru c ∨ ROOT_DIR_SECTOR < n ∧ b' = b) as ->.
    { destruct (Z.ltb_spec ROOT_DIR_SECTOR n); [rewrite elem_of_app, list_elem_of_singleton|]; naive_solver lia. }
    rewrite (co_free _ _ Hc). destruct (decide (b' = b)) as [->|Hne].
    + rewrite zlookup_insert_eq by done. split.
      * intros [[? _]|[? _]]; [done|]. split; [done|]. eexists. split; [done|]. done.
      * intros (_ & e' & [= <-] & Hlt). right. done.
    + rewrite zlookup_insert_ne by done. split.
      * intros [(_ & ?)|[_ ?]]; [|done]. done.
      * intros (_ & ?). left. split; [congruence|done].
  - intros m. unfold view, supd. simpl. destruct (Z.eqb_spec m n) as [->|Hne].
    + by rewrite lookup_insert_eq, zlookup_insert_eq.
    + rewrite lookup_insert_ne by done. destruct (buffer_cache c !! m) as [b'|] eqn:Hm; [|by rewrite Hsec].
      by rewrite zlookup_insert_ne by (intros <-; by destruct (Hother m b)).
Qed.

(** ** The operations *)

(** One step of a run whose result is known. *)
Ltac step_with E := apply runs_bind, (runs_intro _ _ _ _ _ E).

Record taken (c : cache) (n b : Z) (c' : cache) (e : cache_entry) : Prop := {
  tk_inv : cache_inv (Some b) c';
  tk_view : ∀ m, view c' m = view c m;
  tk_size : bsize (fs_device c') = bsize (fs_device c);
  tk_buf : (buffers c')@[b] = Some e;
  tk_lock : shared e = -1;
  tk_data : is_sector (data e);
  tk_only : ∀ m, buffer_cache c' !! m = Some b → m = n;
  tk_case : sector e = n ∧ buffer_cache c' !! n = Some b ∧ (status e = 1 ∨ status e = 0 ∧ data e = sectors (fs_device c') n) ∨
            sector e ≠ n ∧ buffer_cache c' !! n = None ∧ status e = 0;
}.

Lemma get_block_hit c n b : cache_ok c → buffer_cache c !! n = Some b →
  runs (cache_get_block 1 n) c (λ b c', ∃ e, taken c n b c' e).
Proof.
  intros Hc Hb. destruct (co_tab _ _ Hc _ _ Hb) as (Hr & e & He & Hs). pose proof (zlookup_bound _ _ _ He) as Hbb.
  destruct (co_buf _ _ Hc b e ltac:(done) He) as (Hsh & Hd & Hcase). destruct (hit_ok c Hc b e He n Hb) as [Hinv Hview].
  cbn [cache_get_block]. apply runs_bind, runs_gets. unfold cache_lookup. rewrite Hb. unfold acquire_exclusive. apply runs_bind.
  step_with (buffer_at_spec c b e He). rewrite Hsh. cbn [Z.eqb negb]. apply (runs_intro _ _ _ _ _ (set_buffer_spec c b (set_shared (-1) e) e He)).
  apply runs_bind. eapply runs_intro; [apply buffer_at_spec; simpl; by apply zlookup_insert_eq|]. simpl. rewrite Hs, Z.eqb_refl. simpl.
  assert (∃ e', taken c n b (Cache (fs_device c) ((buffers c)@[b := set_shared (-1) e]) (buffer_cache c)
              (if ROOT_DIR_SECTOR <? n then filter (λ x, x ≠ b) (list_lru c) else list_lru c) (sema_lru c)) e') as Htk.
  { exists (set_shared (-1) e). split; [done..|simpl; by apply zlookup_insert_eq|done|done| |].
    - simpl. intros m Hm. by apply (table_inj c Hc m n b).
    - left. simpl. split_and!; [done..|]. destruct Hcase as [[Hno _]|[_ Hst]]; [|by rewrite Hs in Hst].
      pose proof (dv_size _ (co_dev _ _ Hc)). lia. }
  destruct (Z.ltb_spec ROOT_DIR_SECTOR n) as [Hlt|Hle]; [|by run].
  apply runs_bind, runs_bind, runs_get. simpl. rewrite bool_decide_eq_true_2; [by run|]. apply (co_free _ _ Hc). split; [done|].
  exists e. by rewrite Hs.
Qed.

Lemma get_block_miss c n : cache_ok c → 0 ≤ n < bsize (fs_device c) → buffer_cache c !! n = None →
  runs (cache_get_block 1 n) c (λ b c', ∃ e, taken c n b c' e).
Proof.
  intros Hc Hn Ht. cbn [cache_get_block]. apply runs_bind, runs_gets. unfold cache_lookup. rewrite Ht. apply runs_bind, runs_get.
  destruct (list_lru c) as [|b rest] eqn:Hl; [by destruct (lru_nonempty c Hc)|].
  assert (b ∈ list_lru c) as (_ & e & He & Hroot)%(co_free _ _ Hc) by (rewrite Hl; set_solver). pose proof (zlookup_bound _ _ _ He) as Hbb.
  destruct (co_buf _ _ Hc b e ltac:(done) He) as (Hsh & Hd & Hcase). pose proof (dv_size _ (co_dev _ _ Hc)) as Hsz.
  apply runs_bind, runs_put. step_with (buffer_at_spec (set_lru rest c) b e He).
  (* the state once the buffer is written back *)
  assert (∃ d, dev_ok d ∧ bsize d = bsize (fs_device c) ∧
    (∀ m, sectors d m = if decide (buffer_cache c !! m = Some b) then data e else sectors (fs_device c) m) ∧
    (if buffer_is_delayed e then acquire_shared b;; cache_flush_buffer b;; release_shared b else mret tt) (set_lru rest c) =
    Done (tt, Cache d ((buffers c)@[b := Entry (sector e) 0 0 (data e)]) (buffer_cache c) rest (sema_lru c))) as (d & Hdev & Hds & Hsec & E).
  { unfold buffer_is_delayed. destruct Hcase as [[Hno Hst]|[Htb [Hst|[Hst Hdat]]]].
    - exists (fs_device c). split_and!; [apply Hc|done| |].
      + intros m. rewrite decide_False; [done|]. intros Hm. destruct (co_tab _ _ Hc _ _ Hm) as (? & e' & He' & <-). 
        assert (e' = e) as -> by congruence. lia.
      + rewrite Hst. simpl. rewrite (zinsert_id _ b); [done|]. rewrite He. f_equal. destruct e; simpl in *; congruence.
    - destruct (co_tab _ _ Hc _ _ Htb) as [Hr _]. exists (written (sector e) (data e) (fs_device c)). split_and!; [by apply written_ok; [apply Hc|]|done| |].
      + intros m. simpl. unfold supd. case_decide as Hm.
        * rewrite (table_inj c Hc _ _ _ Hm Htb), Z.eqb_refl. done.
        * destruct (Z.eqb_spec m (sector e)) as [->|]; done.
      + replace (negb (Z.land (status e) CACHE_DELAYED =? 0)) with true by (by rewrite Hst). rewrite (write_back_spec (set_lru rest c) b e); [done..|apply Hc|apply Hr].
    - exists (fs_device c). split_and!; [apply Hc|done| |].
      + intros m. case_decide as Hm; [|done]. by rewrite (table_inj c Hc _ _ _ Hm Htb).
      + rewrite Hst. simpl. rewrite (zinsert_id _ b); [done|]. rewrite He. f_equal. destruct e; simpl in *; congruence. }
  step_with E. destruct (miss_ok c Hc b e He d rest Hl Hdev Hds Hsec) as (Hinv & Hview & Hgone).
  unfold acquire_exclusive. apply runs_bind. apply runs_bind. eapply runs_intro; [apply buffer_at_spec; simpl; by apply zlookup_insert_eq|]. simpl.
  eapply runs_intro; [eapply set_buffer_spec; simpl; by apply zlookup_insert_eq|]. apply runs_bind.
  eapply runs_intro; [apply buffer_at_spec; simpl; rewrite zlookup_insert_eq by (by rewrite zlen_insert); done|]. simpl. run.
  unfold set_table, set_buffers. simpl. rewrite zinsert_insert. eexists. split; [apply Hinv|apply Hview|done|simpl; by apply zlookup_insert_eq|done|done| |].
  - intros m Hm. by destruct (Hgone m).
  - right. simpl. split_and!; [|by rewrite lookup_delete_None; right|done]. intros <-.
    destruct Hcase as [[? _]|[? _]]; [lia|congruence].
Qed.

Lemma get_block_spec c n : cache_ok c → 0 ≤ n < bsize (fs_device c) → runs (cache_get_block 1 n) c (λ b c', ∃ e, taken c n b c' e).
Proof.
  intros Hc Hn. destruct (buffer_cache c !! n) as [b|] eqn:E; [by apply get_block_hit with b|by apply get_block_miss].
Qed.

Lemma release_spec c b e : (buffers c)@[b] = Some e → ∃ sema, cache_release b c =
  Done (tt, Cache (fs_device c) ((buffers c)@[b := set_shared 0 e]) (buffer_cache c)
              (if ROOT_DIR_SECTOR <? sector e then list_lru c ++ [b] else list_lru c) sema).
Proof.
  intros He. unfold cache_release, release_exclusive, mbind, M_bind. rewrite (buffer_at_spec c b e He).
  destruct (ROOT_DIR_SECTOR <? sector e); unfold modify; simpl; erewrite modify_buffer_spec by done; by eexists.
Qed.
Lemma read_out_spec c b e : (buffers c)@[b] = Some e → shared e = 0 →
  (acquire_shared b;; e ← buffer_at b; release_shared b;; mret (data e)) c = Done (data e, c).
Proof.
  intros He Hs. pose proof (zlookup_bound _ _ _ He) as Hb. unfold acquire_shared, release_shared, mbind, M_bind.
  rewrite (buffer_at_spec c b e He), Hs. simpl. rewrite (set_buffer_spec c b _ e He).
  erewrite buffer_at_spec by (simpl; by apply zlookup_insert_eq). erewrite modify_buffer_spec by (simpl; by apply zlookup_insert_eq). simpl.
  unfold mret, M_ret, set_buffers. simpl. rewrite zinsert_insert, zinsert_id; [by destruct c|]. rewrite He. unfold set_shared. simpl.
  destruct e as [? ? sh ?]; simpl in *; by subst sh.
Qed.
Lemma table_insert_spec c b e : (buffers c)@[b] = Some e → buffer_cache c !! sector e = None ∨ buffer_cache c !! sector e = Some b →
  table_insert b c = Done (tt, set_table (<[sector e := b]> (buffer_cache c)) c).
Proof.
  intros He Ht. unfold table_insert, mbind, M_bind. rewrite (buffer_at_spec c b e He). unfold modify. destruct Ht as [->|Ht]; [done|].
  rewrite Ht. unfold set_table. rewrite insert_id by done. by destruct c.
Qed.

Lemma cache_read_spec c n : cache_ok c → 0 ≤ n < bsize (fs_device c) →
  runs (cache_block_read n) c (λ d c', d = view c n ∧ cache_ok c' ∧ bsize (fs_device c') = bsize (fs_device c) ∧ ∀ m, view c' m = view c m).
Proof.
  intros Hc Hn. unfold cache_block_read. apply runs_bind. eapply runs_mono; [by apply get_block_spec|].
  intros b c1 (e & [Hinv Hview Hsz He Hl Hd Honly Hcase]). pose proof (zlookup_bound _ _ _ He) as Hb.
  step_with (buffer_at_spec c1 b e He).
  (* once the buffer holds the sector *)
  assert (∀ dev st d, dev_ok dev → bsize dev = bsize (fs_device c1) → (∀ m, sectors dev m = sectors (fs_device c1) m) → is_sector d →
    (st = 1 ∨ st = 0 ∧ d = sectors (fs_device c1) n) → d = view c1 n →
    runs (cache_release b;; acquire_shared b;; e ← buffer_at b; release_shared b;; mret (data e))
      (Cache dev ((buffers c1)@[b := Entry n st (-1) d]) (<[n := b]> (buffer_cache c1)) (list_lru c1) (sema_lru c1))
      (λ d c', d = view c n ∧ cache_ok c' ∧ bsize (fs_device c') = bsize (fs_device c) ∧ ∀ m, view c' m = view c m)) as Hfin.
  { intros dev st d Hdev Hds Hsec Hdd Hst Hv. set (c2 := Cache _ _ _ _ _).
    destruct (release_spec c2 b (Entry n st (-1) d)) as [sema E]; [by apply zlookup_insert_eq|]. step_with E.
    simpl. rewrite zinsert_insert. unfold set_shared. simpl.
    destruct (commit_ok c1 b e n st d sema dev Hinv He Hdd) as [Hok' Hview']; [lia|done|tauto|done..|].
    eapply runs_intro; [apply (read_out_spec _ _ (Entry n st 0 d)); simpl; [by apply zlookup_insert_eq|done]|].
    split_and!; [simpl; by rewrite Hv, Hview|apply Hok'..|simpl; congruence|]. intros m. rewrite Hview'. unfold supd.
    destruct (Z.eqb_spec m n) as [->|]; [by rewrite Hv, Hview|apply Hview]. }
  destruct Hcase as [(Hs & Ht & Hst)|(Hs & Ht & Hst)].
  - rewrite Hs, Z.eqb_refl. simpl. apply runs_bind, runs_ret.
    replace c1 with (Cache (fs_device c1) ((buffers c1)@[b := Entry n (status e) (-1) (data e)]) (<[n := b]> (buffer_cache c1)) (list_lru c1) (sema_lru c1)).
    + apply Hfin; [apply Hinv|done..|]. unfold view. by rewrite Ht, He.
    + rewrite insert_id by done. rewrite zinsert_id; [by destruct c1|]. rewrite He. f_equal. destruct e; simpl in *; congruence.
  - destruct (Z.eqb_spec (sector e) n); [done|]. simpl. apply runs_bind.
    step_with (modify_buffer_spec c1 b (set_sector n) e He). unfold set_sector. rewrite Hst, Hl. set (c2 := set_buffers _ c1).
    assert ((buffers c2)@[b] = Some (Entry n 0 (-1) (data e))) as He2 by (by apply zlookup_insert_eq).
    step_with (table_insert_spec c2 b _ He2 (or_introl Ht)). simpl.
    destruct (block_read_spec (fs_device c1) n) as (dev & Erd & Ht' & Hs' & Hsec'); [lia|].
    apply runs_bind. eapply runs_intro; [by apply on_device_spec|]. eapply runs_intro; [eapply modify_buffer_spec; apply He2|].
    unfold set_buffers, set_device. simpl. rewrite zinsert_insert. unfold set_data. simpl.
    apply Hfin; [|done|by rewrite Hsec'|apply Hinv|by right|by unfold view; rewrite Ht].
    destruct (co_dev _ _ Hinv) as [D1 D2 D3]. split; [by rewrite Ht'|by rewrite Hs'|by rewrite Hsec'].
Qed.

Lemma cache_write_spec c n d : cache_ok c → 0 ≤ n < bsize (fs_device c) → is_sector d →
  runs (cache_block_write n d) c (λ _ c', cache_ok c' ∧ bsize (fs_device c') = bsize (fs_device c) ∧ ∀ m, view c' m = supd (view c) n d m).
Proof.
  intros Hc Hn Hd. unfold cache_block_write. apply runs_bind. eapply runs_mono; [by apply get_block_spec|].
  intros b c1 (e & [Hinv Hview Hsz He Hl _ Honly Hcase]). pose proof (zlookup_bound _ _ _ He) as Hb. pose proof (dv_size _ (co_dev _ _ Hinv)) as Hdv.
  step_with (modify_buffer_spec c1 b (set_sector n) e He). apply runs_bind.
  eapply runs_intro; [eapply modify_buffer_spec; simpl; by apply zlookup_insert_eq|]. unfold set_buffers, set_data, set_sector. simpl. rewrite zinsert_insert.
  destruct (Z.eqb_spec n NO_SECTOR); [lia|]. simpl. apply runs_bind. assert (status e = 0 ∨ status e = 1) as Hst by tauto.
  eapply runs_intro; [eapply table_insert_spec; [simpl; by apply zlookup_insert_eq|simpl; tauto]|]. simpl. apply runs_bind.
  eapply runs_intro; [eapply modify_buffer_spec; simpl; by apply zlookup_insert_eq|]. unfold set_buffers, set_status. simpl. rewrite zinsert_insert.
  replace (Z.lor (status e) CACHE_DELAYED) with 1 by (by destruct Hst as [->| ->]). rewrite Hl.
  edestruct release_spec as [sema E]; [|eapply runs_intro; [apply E|]]; [simpl; by apply zlookup_insert_eq|]. simpl. rewrite zinsert_insert.
  destruct (commit_ok c1 b e n 1 d sema (fs_device c1) Hinv He Hd) as [Hok' Hview']; [lia|done|tauto|apply Hinv|done|done|by left|].
  split_and!; [apply Hok'..|done|]. intros m. rewrite Hview'. unfold supd. destruct (m =? n); [done|apply Hview].
Qed.

(** ** Flushing *)

(** The buffer [b] is clean. *)
Definition clean (c : cache) (b : Z) : Prop := ∃ e, (buffers c)@[b] = Some e ∧ status e = 0.
(** Only the device and the marks have changed; what was clean stays clean. *)
Record flushed (c c' : cache) : Prop := {
  fl_ok : cache_ok c';
  fl_size : bsize (fs_device c') = bsize (fs_device c);
  fl_table : buffer_cache c' = buffer_cache c;
  fl_view : ∀ m, view c' m = view c m;
  fl_clean : ∀ b, clean c b → clean c' b;
}.
#[export] Instance flushed_trans : Transitive flushed.
Proof.
  intros c1 c2 c3 [H1 H2 H3 H4 H5] [G1 G2 G3 G4 G5]. split; [done|congruence|congruence| |].
  - intros m. by rewrite G4.
  - auto.
Qed.

Definition flush_one (b : Z) : M cache unit :=
  e ← buffer_at b;
  if buffer_is_delayed e then acquire_shared b;; cache_flush_buffer b;; release_shared b else mret tt.
Lemma flush_one_spec c b e : cache_ok c → (buffers c)@[b] = Some e → runs (flush_one b) c (λ _ c', flushed c c' ∧ clean c' b).
Proof.
  intros Hc He. pose proof (zlookup_bound _ _ _ He) as Hb. unfold flush_one. step_with (buffer_at_spec c b e He).
  destruct (co_buf _ _ Hc b e ltac:(done) He) as (Hsh & Hd & Hcase). unfold buffer_is_delayed. assert (status e = 0 ∨ status e = 1) as [Hst|Hst] by tauto.
  { rewrite Hst. simpl. run. split; [|by exists e]. split; [done..|]. auto. }
  rewrite Hst. simpl. assert (buffer_cache c !! sector e = Some b) as Ht by (destruct Hcase as [[_ ?]|[? _]]; [lia|done]).
  destruct (co_tab _ _ Hc _ _ Ht) as [Hr _]. eapply runs_intro; [apply (write_back_spec c b e); [done..|apply Hc|apply Hr]|].
  assert (∀ m b', buffer_cache c !! m = Some b' → m ≠ sector e → b' ≠ b) as Hother.
  { intros m b' Hm Hne ->. by apply Hne, (table_inj c Hc m (sector e) b). }
  split; [|by eexists; split; [simpl; by apply zlookup_insert_eq|]]. split; [split; simpl| | | |].
  - apply written_ok; [apply Hc|done].
  - rewrite zlen_insert. apply Hc.
  - intros b' e' _. destruct (decide (b' = b)) as [->|Hne].
    + rewrite zlookup_insert_eq by done. intros [= <-]. split_and!; [done..|right]. simpl. split; [done|]. right. unfold supd. by rewrite Z.eqb_refl.
    + rewrite zlookup_insert_ne by done. intros He'. destruct (co_buf _ _ Hc b' e' ltac:(done) He') as (H1 & H2 & [?|[Ht' Hs]]); (split_and!; [done..|]).
      * by left.
      * right. simpl. split; [done|]. unfold supd. destruct (Z.eqb_spec (sector e') (sector e)) as [E|]; [|done]. congruence.
  - intros m b' Hm. destruct (co_tab _ _ Hc _ _ Hm) as (Hrm & e' & He' & Hs'). split; [done|]. destruct (decide (b' = b)) as [->|].
    + eexists. rewrite zlookup_insert_eq by done. split; [done|]. simpl. congruence.
    + exists e'. by rewrite zlookup_insert_ne.
  - apply Hc.
  - intros b'. rewrite (co_free _ _ Hc). destruct (decide (b' = b)) as [->|]; [|by rewrite zlookup_insert_ne].
    rewrite zlookup_insert_eq, He by done. split; intros (Hn & e' & [= <-] & ?); (split; [done|]); by eexists.
  - done.
  - done.
  - intros m. unfold view. simpl. destruct (buffer_cache c !! m) as [b'|] eqn:Hm.
    + destruct (decide (b' = b)) as [->|]; [by rewrite zlookup_insert_eq, He|by rewrite zlookup_insert_ne].
    + unfold supd. destruct (Z.eqb_spec m (sector e)) as [->|]; [congruence|done].
  - intros b' (e' & He' & Hs'). destruct (decide (b' = b)) as [->|].
    + eexists. simpl. by rewrite zlookup_insert_eq.
    + exists e'. simpl. by rewrite zlookup_insert_ne.
Qed.

Lemma flush_sector_spec c n : cache_ok c → runs (flush_sector n) c (λ _ c', flushed c c').
Proof.
  intros Hc. unfold flush_sector. apply runs_bind, runs_gets. unfold cache_lookup. destruct (buffer_cache c !! n) as [b|] eqn:E.
  - destruct (co_tab _ _ Hc _ _ E) as (_ & e & He & _). eapply runs_mono; [by apply (flush_one_spec c b e)|]. by intros _ c' [? _].
  - run. split; auto.
Qed.

Lemma flush_all_spec order : ∀ c, cache_ok c → (∀ b, b ∈ order → is_Some ((buffers c)@[b])) →
  runs (cache_flush_cache order) c (λ _ c', flushed c c' ∧ ∀ b, b ∈ order → clean c' b).
Proof.
  induction order as [|b order IH]; intros c Hc Hord; cbn [cache_flush_cache].
  - run. split; [split; auto|]. intros b Hb. by apply not_elem_of_nil in Hb.
  - destruct (Hord b ltac:(set_solver)) as [e He]. pose proof (flush_one_spec c b e Hc He) as H1. unfold flush_one in H1.
    apply runs_bind, (runs_intro _ _ _ _ _ (buffer_at_spec c b e He)).
    apply runs_bind_inv in H1. unfold runs in H1 at 1. rewrite (buffer_at_spec c b e He) in H1.
    apply runs_bind. eapply runs_mono; [apply H1|]. intros _ c1 [Hf Hcl].
    eapply runs_mono; [apply (IH c1); [apply Hf|]|].
    + intros b' Hb'. destruct (Hord b' ltac:(set_solver)) as [e' He']. apply zlookup_bound in He'. rewrite (co_len _ _ Hc) in He'.
      destruct (zlookup_lt (buffers c1) b') as [x ?]; [by rewrite (co_len _ _ (fl_ok _ _ Hf))|by exists x].
    + intros _ c2 [Hf2 Hcl2]. split; [by transitivity c1|]. intros b' [->|Hb']%elem_of_cons; [by apply Hf2|by apply Hcl2].
Qed.

(** ** The theorems *)

Lemma replicate_lookup_z {A} (x : A) n i : (replicate (Z.to_nat n) x)@[i] = if (0 <=? i) && (i <? n) then Some x else None.
Proof.
  unfold zlookup. destruct (Z.ltb_spec i 0), (Z.leb_spec 0 i); try lia; [done|]. cbn [andb]. destruct (Z.ltb_spec i n).
  - apply lookup_replicate_2. lia.
  - apply lookup_replicate_None. lia.
Qed.
Lemma cache_init_ok d : dev_ok d → cache_ok (cache_init d) ∧ ∀ n, view (cache_init d) n = sectors d n.
Proof.
  intros Hd. split; [|done]. pose proof (replicate_lookup_z (Entry NO_SECTOR 0 0 (replicate 512 0)) 64) as Hrep.
  change (Z.to_nat 64) with 64%nat in Hrep. split; cbn [cache_init fs_device buffers buffer_cache list_lru].
  - done.
  - done.
  - intros b e _. rewrite Hrep. destruct (_ && _); [|done]. intros E. injection E as E. rewrite <-E. split_and!; [done|by apply replicate_sector|by left].
  - intros n b. by rewrite lookup_empty.
  - apply NoDup_seqZ.
  - intros b. rewrite elem_of_seqZ, Hrep. unfold BUFFER_CACHE_SIZE. split.
    + intros Hb. split; [done|]. eexists. destruct (Z.leb_spec 0 b), (Z.ltb_spec b 64); try lia. split; [done|]. by vm_compute.
    + intros (_ & e & He & _). destruct (Z.leb_spec 0 b), (Z.ltb_spec b 64); done || lia.
Qed.

(** C8 The buffer cache is transparent: whatever is cached, evicted or written
    back, [cache_block_read] returns what was last written to the sector (or
    was on the device), [cache_block_write] changes that one sector, and neither
    waits forever.  In particular an evicted buffer never loses data. *)
Theorem cache_refines_sectors c n d : cache_ok c → 0 ≤ n < bsize (fs_device c) → is_sector d →
  runs (cache_block_read n) c (λ r c', r = view c n ∧ cache_ok c' ∧ ∀ m, view c' m = view c m) ∧
  runs (cache_block_write n d) c (λ _ c', cache_ok c' ∧ view c' n = d ∧ ∀ m, m ≠ n → view c' m = view c m).
Proof.
  intros Hc Hn Hd. split.
  - eapply runs_mono; [by apply cache_read_spec|]. intros r c' (? & ? & _ & ?). done.
  - eapply runs_mono; [by apply cache_write_spec|]. intros _ c' (? & _ & Hv). split_and!; [done|..]; intros; rewrite Hv; unfold supd.
    + by rewrite Z.eqb_refl.
    + by destruct (Z.eqb_spec m n).
Qed.

(** [cache_flush_cache], in whatever order it meets the buffers, puts every
    sector of the view on the device and leaves the view as it is. *)
Theorem flush_makes_durable c order : cache_ok c → (∀ b, b ∈ order ↔ ∃ n, buffer_cache c !! n = Some b) →
  runs (cache_flush_cache order) c (λ _ c', cache_ok c' ∧ (∀ n, view c' n = view c n) ∧ ∀ n, sectors (fs_device c') n = view c n).
Proof.
  intros Hc Hord. eapply runs_mono; [apply flush_all_spec; [done|]|].
  { intros b (n & Hn)%Hord. destruct (co_tab _ _ Hc _ _ Hn) as (_ & e & He & _). by exists e. }
  intros _ c' [[Hok _ Ht Hv _] Hcl]. split_and!; [done..|]. intros n. rewrite <-Hv. unfold view.
  destruct (buffer_cache c' !! n) as [b|] eqn:E; [|done]. destruct (Hcl b) as (e & He & Hst); [apply Hord; exists n; by rewrite <-Ht|].
  rewrite He. destruct (co_buf _ _ Hok b e ltac:(done) He) as (_ & _ & Hcase). destruct (co_tab _ _ Hok _ _ E) as (Hr & e' & He' & <-).
  assert (e' = e) as -> by congruence. pose proof (dv_size _ (co_dev _ _ Hok)). destruct Hcase as [[? _]|[_ [?|[_ ?]]]]; [lia..|done].
Qed.

(** ** What inode.c relies on *)

Class BlockStore (S : Type) : Type := {
  bread : Z → M S (list Z);               (* cache_block_read (fs_device, n, buffer) *)
  bwrite : Z → list Z → M S unit;         (* cache_block_write (fs_device, n, buffer) *)
  bflush : Z → M S unit;                  (* writes the sector back if it is cached *)
  device_read : Z → M S (list Z);         (* block_read (fs_device, n, buffer) *)
  store_ok : S → Prop;
  store_size : S → Z;
  store_view : S → Z → list Z;
}.
Class BlockStoreLaws (S : Type) `{!BlockStore S} : Prop := {
  bread_law : ∀ s n, store_ok s → 0 ≤ n < store_size s →
    runs (bread n) s (λ d s', d = store_view s n ∧ store_ok s' ∧ store_size s' = store_size s ∧ ∀ m, store_view s' m = store_view s m);
  bwrite_law : ∀ s n d, store_ok s → 0 ≤ n < store_size s → is_sector d →
    runs (bwrite n d) s (λ _ s', store_ok s' ∧ store_size s' = store_size s ∧ ∀ m, store_view s' m = supd (store_view s) n d m);
  bflush_law : ∀ s n, store_ok s →
    runs (bflush n) s (λ _ s', store_ok s' ∧ store_size s' = store_size s ∧ ∀ m, store_view s' m = store_view s m);
  view_law : ∀ s n, store_ok s → is_sector (store_view s n);
  size_law : ∀ s, store_ok s → 0 ≤ store_size s ≤ NO_SECTOR;
}.

#[export] Instance cache_store : BlockStore cache := {|
  bread := cache_block_read;
  bwrite := cache_block_write;
  bflush := flush_sector;
  device_read := λ n, on_device (block_read n);
  store_ok := cache_ok;
  store_size := λ c, bsize (fs_device c);
  store_view := view;
|}.
#[export] Instance cache_store_laws : BlockStoreLaws cache.
Proof.
  split.
  - apply cache_read_spec.
  - apply cache_write_spec.
  - intros s n Hs. eapply runs_mono; [by apply (flush_sector_spec s n)|]. by intros _ s' [? ? _ ? _].
  - intros s n Hs. by apply view_sector.
  - intros s Hs. apply (dv_size _ (co_dev _ _ Hs)).
Qed.

(** ** Concrete runs *)

Definition demo_dev : block := Block BLOCK_FILESYS 100 (λ n, replicate 512 (n `mod` 256)) 0 0.
Lemma demo_dev_ok : dev_ok demo_dev.
Proof.
  split; [done|by vm_compute|]. intros n. apply replicate_sector. unfold is_u8. apply Z.mod_pos_bound. lia.
Qed.
Definition demo_cache : cache := cache_init demo_dev.
Lemma demo_sector : is_sector (replicate 512 7).
Proof. by apply replicate_sector. Qed.

Lemma cache_refines_sectors_witness : runs (cache_block_read 5) demo_cache (λ r _, r = replicate 512 5).
Proof.
  destruct (cache_refines_sectors demo_cache 5 (replicate 512 7) (proj1 (cache_init_ok _ demo_dev_ok))) as [H _];
    [unfold demo_cache; simpl; lia|apply demo_sector|].
  refine (runs_mono _ _ _ _ H _). intros r c' (-> & _). reflexivity.
Defined.
(** The cache after sector 5 has been written. *)
Definition demo_written : cache := match cache_block_write 5 (replicate 512 7) demo_cache with Done (_, c) => c | _ => demo_cache end.
Lemma demo_written_ok : cache_ok demo_written.
Proof.
  destruct (runs_done _ _ _ (cache_write_spec demo_cache 5 (replicate 512 7) (proj1 (cache_init_ok _ demo_dev_ok)) ltac:(unfold demo_cache; simpl; lia) demo_sector))
    as ([] & c & E & Hok & _). unfold demo_written. by rewrite E.
Qed.
Lemma flush_makes_durable_witness : runs (cache_flush_cache [0]) demo_written (λ _ c', sectors (fs_device c') 5 = replicate 512 7).
Proof.
  refine (runs_mono _ _ _ _ (flush_makes_durable demo_written [0] demo_written_ok _) _).
  - replace (buffer_cache demo_written) with ({[5 := 0]} : gmap Z Z) by (vm_compute; reflexivity).
    intros b. rewrite list_elem_of_singleton. split; [intros ->; exists 5; apply lookup_singleton_eq|].
    intros (n & [_ <-]%lookup_singleton_Some). reflexivity.
  - intros [] c' (_ & _ & H). rewrite H. vm_compute. reflexivity.
Defined.
