(* ===== verification/SharedLock.v ===== *)
(** * The readers-writer lock of the buffer cache (src/pintos/src/filesys/cache.c)

    [acquire_shared], [acquire_exclusive] and their releases form a monitor:
    each holds the lock [s->lock] except while it waits on the condition
    [s->cond], so between two waits a call is one atomic step.  A call that
    waits leaves itself in [waiters] and takes another turn of its loop when it
    has been woken.  Which waiter [cond_signal] selects (the one with the
    greatest priority, see Synch.v) does not matter here: any may be.

    The threads, their calls and the order in which they run are arbitrary.  The
    theorems are about every state that can be reached. *)

From S2P Require Import Prelude.

Record shared_lock : Type := SharedLock { si : Z; waiters : list Z }.

Definition init_shared : shared_lock := SharedLock 0 [].

(** One turn of the loop; true if the lock was acquired, false if the caller
    waits. *)
Definition acquire_shared_turn (self : Z) : M shared_lock bool :=
  s ← get;
  if si s <? 0 then put (SharedLock (si s) (waiters s ++ [self]));; mret false
  else put (SharedLock (si s + 1) (waiters s));; mret true.
Definition acquire_exclusive_turn (self : Z) : M shared_lock bool :=
  s ← get;
  if negb (si s =? 0) then put (SharedLock (si s) (waiters s ++ [self]));; mret false
  else put (SharedLock (-1) (waiters s));; mret true.

(** The releases return the threads they wake; [w] is the waiter that
    [cond_signal] selects if there is one. *)
Definition release_shared (w : Z) : M shared_lock (list Z) :=
  s ← get;
  let i := si s - 1 in
  if negb (negb (i =? 0)) then
    match waiters s with
    | [] => put (SharedLock i []);; mret []
    | ws => if bool_decide (w ∈ ws) then put (SharedLock i (filter (λ x, x ≠ w) ws));; mret [w] else undefined
    end
  else put (SharedLock i (waiters s));; mret [].
Definition release_exclusive : M shared_lock (list Z) :=
  s ← get; put (SharedLock 0 []);; mret (waiters s).

(** ** Threads *)

(** Where a thread is: not using the lock, about to take a turn of a loop,
    waiting, or holding the lock. *)
Inductive mode : Type :=
  | Outside
  | AskShared | WaitShared | InShared
  | AskExclusive | WaitExclusive | InExclusive.
#[export] Instance mode_eq : EqDecision mode.
Proof. solve_decision. Defined.

Record world : Type := World { lock : shared_lock; modes : list mode }.

(** A waiter that is woken takes another turn. *)
Definition wake (m : mode) : mode :=
  match m with WaitShared => AskShared | WaitExclusive => AskExclusive | m => m end.
Fixpoint wake_all (ws : list Z) (ms : list mode) : list mode :=
  match ws with
  | [] => ms
  | w :: ws => wake_all ws (match ms@[w] with Some m => ms@[w := wake m] | None => ms end)
  end.

Inductive step : world → world → Prop :=
  | step_call s ms t m : ms@[t] = Some Outside → m = AskShared ∨ m = AskExclusive →
      step (World s ms) (World s (ms@[t := m]))
  | step_shared s ms t ok s' : ms@[t] = Some AskShared → acquire_shared_turn t s = Done (ok, s') →
      step (World s ms) (World s' (ms@[t := if ok : bool then InShared else WaitShared]))
  | step_exclusive s ms t ok s' : ms@[t] = Some AskExclusive → acquire_exclusive_turn t s = Done (ok, s') →
      step (World s ms) (World s' (ms@[t := if ok : bool then InExclusive else WaitExclusive]))
  | step_release_shared s ms t w ws s' : ms@[t] = Some InShared → release_shared w s = Done (ws, s') →
      step (World s ms) (World s' (wake_all ws (ms@[t := Outside])))
  | step_release_exclusive s ms t ws s' : ms@[t] = Some InExclusive → release_exclusive s = Done (ws, s') →
      step (World s ms) (World s' (wake_all ws (ms@[t := Outside]))).
Definition steps : world → world → Prop := rtc step.
(** Any number of threads, none of which uses the lock yet. *)
Definition initial (w : world) : Prop := lock w = init_shared ∧ Forall (λ m, m = Outside) (modes w).

(** ** The invariant *)

Definition count (m : mode) (ms : list mode) : Z := zlen (filter (λ x, x = m) ms).
Definition one (b : bool) : Z := if b then 1 else 0.

Lemma count_nonneg m ms : 0 ≤ count m ms.
Proof. apply zlen_nonneg. Qed.
Lemma count_app m l l' : count m (l ++ l') = count m l + count m l'.
Proof. unfold count. by rewrite list.filter_app, zlen_app. Qed.
Lemma count_cons m x l : count m (x :: l) = one (bool_decide (x = m)) + count m l.
Proof. unfold count. rewrite filter_cons. case_decide; case_bool_decide; try done. unfold one. by rewrite zlen_cons. Qed.
Lemma count_insert m ms t x y : ms@[t] = Some x →
  count m (ms@[t := y]) = count m ms - one (bool_decide (x = m)) + one (bool_decide (y = m)).
Proof.
  intros [Ht Hx]%zlookup_Some. unfold zinsert. destruct (Z.ltb_spec t 0); [lia|].
  rewrite <-(take_drop_middle ms (Z.to_nat t) x Hx) at 2. rewrite insert_take_drop by (by apply lookup_lt_Some in Hx).
  rewrite !count_app, !count_cons. lia.
Qed.
Lemma count_pos m ms t : ms@[t] = Some m → 0 < count m ms.
Proof.
  intros [_ H]%zlookup_Some. unfold count, zlen. apply list_elem_of_lookup_2 in H.
  destruct (filter (λ x, x = m) ms) as [|y l] eqn:E; simpl; [|lia]. exfalso.
  assert (m ∈ filter (λ x, x = m) ms) as Hin by (by apply list_elem_of_filter). rewrite E in Hin. by apply not_elem_of_nil in Hin.
Qed.
Lemma count_ex m ms : 0 < count m ms → ∃ t, ms@[t] = Some m.
Proof.
  intros H. unfold count, zlen in H. destruct (filter (λ x, x = m) ms) as [|y l] eqn:E; [simpl in H; lia|].
  assert (y ∈ filter (λ x, x = m) ms) as [-> Hin]%list_elem_of_filter by (rewrite E; set_solver).
  apply list_elem_of_lookup in Hin as [i Hi]. exists (Z.of_nat i). apply zlookup_Some. rewrite Nat2Z.id. split; [lia|done].
Qed.

Definition asking (ms : list mode) : Prop := 0 < count AskShared ms ∨ 0 < count AskExclusive ms.

Record inv (w : world) : Prop := {
  iv_exclusive : count InExclusive (modes w) = 1 ∧ count InShared (modes w) = 0 ∧ si (lock w) = -1 ∨
                 count InExclusive (modes w) = 0 ∧ si (lock w) = count InShared (modes w);
  iv_waiters : ∀ t, t ∈ waiters (lock w) ↔ (modes w)@[t] = Some WaitShared ∨ (modes w)@[t] = Some WaitExclusive;
  iv_nodup : NoDup (waiters (lock w));
  (* readers wait for a writer only *)
  iv_readers : 0 ≤ si (lock w) → count WaitShared (modes w) = 0;
  (* when the lock is free, a waiter has been woken *)
  iv_woken : si (lock w) = 0 → waiters (lock w) = [] ∨ asking (modes w);
}.

Lemma lookup_wake_all ws : ∀ ms t, (wake_all ws ms)@[t] = if decide (t ∈ ws) then wake <$> ms@[t] else ms@[t].
Proof.
  induction ws as [|w ws IH]; intros ms t; cbn [wake_all]; [by rewrite decide_False by apply not_elem_of_nil|]. rewrite IH.
  assert ((match ms@[w] with Some m => ms@[w := wake m] | None => ms end)@[t] = if decide (t = w) then wake <$> ms@[t] else ms@[t]) as ->.
  { case_decide as E; [subst t|].
    - destruct (ms@[w]) as [m|] eqn:Hw; [|by rewrite Hw]. apply zlookup_insert_eq. by apply zlookup_bound in Hw.
    - destruct (ms@[w]); [by apply zlookup_insert_ne|done]. }
  assert (∀ m, wake (wake m) = wake m) as Hid by (by intros []). destruct (ms@[t]) as [m|]; simpl; repeat case_decide; simpl; try done; try congruence; set_solver.
Qed.
Lemma count_wake_all m ws : m = InShared ∨ m = InExclusive → ∀ ms, count m (wake_all ws ms) = count m ms.
Proof.
  intros Hm. induction ws as [|w ws IH]; intros ms; cbn [wake_all]; [done|]. rewrite IH. destruct (ms@[w]) as [x|] eqn:E; [|done].
  rewrite (count_insert m ms w x _ E). destruct Hm as [->| ->], x; simpl; unfold one; repeat case_bool_decide; lia || done.
Qed.

(** One thread changes its mode: what happens to the counts and to the modes. *)
Section change.
Context (ms : list mode) (t : Z) (x y : mode) (Hx : ms@[t] = Some x).
Lemma lookup_change t' : (ms@[t := y])@[t'] = if decide (t' = t) then Some y else ms@[t'].
Proof using Hx.
  case_decide as E; [subst t'; apply zlookup_insert_eq; by apply zlookup_bound in Hx|by apply zlookup_insert_ne].
Qed.
Lemma count_gone m : x = m → y ≠ m → count m (ms@[t := y]) = count m ms - 1.
Proof using Hx. intros <- Hy. rewrite (count_insert _ ms t x y Hx), bool_decide_true, bool_decide_false by done. unfold one. lia. Qed.
Lemma count_come m : x ≠ m → y = m → count m (ms@[t := y]) = count m ms + 1.
Proof using Hx. intros Hne <-. rewrite (count_insert _ ms t x y Hx), bool_decide_false, bool_decide_true by done. unfold one. lia. Qed.
Lemma count_same m : x ≠ m → y ≠ m → count m (ms@[t := y]) = count m ms.
Proof using Hx. intros Hxm Hym. rewrite (count_insert _ ms t x y Hx), !bool_decide_false by done. unfold one. lia. Qed.
End change.

Ltac counts H :=
  repeat first [rewrite (count_gone _ _ _ _ H) by done | rewrite (count_come _ _ _ _ H) by done | rewrite (count_same _ _ _ _ H) by done].

Lemma no_count m ms : (∀ t, ms@[t] ≠ Some m) → count m ms = 0.
Proof.
  intros H. pose proof (count_nonneg m ms). destruct (decide (count m ms = 0)) as [|Hne]; [done|]. destruct (count_ex m ms) as [t Ht]; [lia|]. by destruct (H t).
Qed.

Lemma inv_initial w : initial w → inv w.
Proof.
  intros [Hl Hm]. assert (∀ m, m ≠ Outside → ∀ t, (modes w)@[t] ≠ Some m) as Hno.
  { intros m Hne t [_ H]%zlookup_Some. rewrite Forall_lookup in Hm. apply Hne. by rewrite (Hm _ _ H). }
  split; rewrite Hl; simpl.
  - right. by rewrite !no_count by (apply Hno; done).
  - intros t. split; [by intros ?%not_elem_of_nil|]. intros [H|H]; [by destruct (Hno WaitShared ltac:(done) t)|by destruct (Hno WaitExclusive ltac:(done) t)].
  - constructor.
  - intros _. by apply no_count, Hno.
  - by left.
Qed.

(** A thread starts to wait. *)
Lemma inv_wait s ms t x y : inv (World s ms) → ms@[t] = Some x → si s ≠ 0 → x = AskShared ∧ y = WaitShared ∧ si s < 0 ∨ x = AskExclusive ∧ y = WaitExclusive →
  inv (World (SharedLock (si s) (waiters s ++ [t])) (ms@[t := y])).
Proof.
  intros [H1 H2 H3 H4 H5] Hx Hne Hcase. simpl in *. assert (x ≠ InShared ∧ x ≠ InExclusive ∧ y ≠ InShared ∧ y ≠ InExclusive) as (?&?&?&?).
  { destruct Hcase as [(->&->&_)|[-> ->]]; done. }
  assert (t ∉ waiters s) as Hnin by (rewrite H2, Hx; destruct Hcase as [(->&_)|[-> _]]; by intros [|]).
  split; simpl.
  - by counts Hx.
  - intros t'. rewrite elem_of_app, list_elem_of_singleton, H2, (lookup_change _ _ _ _ Hx). case_decide as E; [subst t'|naive_solver].
    split; [|by right]. intros _. destruct Hcase as [(_&->&_)|[_ ->]]; auto.
  - apply list.NoDup_app. split_and!; [done| |apply NoDup_singleton]. by intros z Hz ->%list_elem_of_singleton.
  - intros Hs. destruct Hcase as [(_&_&?)|[-> ->]]; [lia|]. counts Hx. by apply H4.
  - done.
Qed.

(** A thread calls. *)
Lemma inv_asks s ms t m : inv (World s ms) → ms@[t] = Some Outside → m = AskShared ∨ m = AskExclusive → inv (World s (ms@[t := m])).
Proof.
  intros Hinv Ht Hm.
  destruct Hinv as [H1 H2 H3 H4 H5]. simpl in *. assert (m ≠ InShared ∧ m ≠ InExclusive ∧ m ≠ WaitShared ∧ m ≠ WaitExclusive) as (?&?&?&?) by (by destruct Hm as [->| ->]).
  split; simpl; [by counts Ht| |done|by counts Ht|].
  + intros t'. rewrite H2, (lookup_change _ _ _ _ Ht). case_decide as E; [subst t'|done]. rewrite Ht. naive_solver.
  + intros Hs. right. unfold asking. destruct Hm as [->| ->]; [left|right]; apply (count_pos _ _ t); rewrite (lookup_change _ _ _ _ Ht); by rewrite decide_True.
Qed.
(** A turn of [acquire_shared]. *)
Lemma inv_shared s ms t ok s' : inv (World s ms) → ms@[t] = Some AskShared → acquire_shared_turn t s = Done (ok, s') → inv (World s' (ms@[t := if ok : bool then InShared else WaitShared])).
Proof.
  intros Hinv Ht E.
  unfold acquire_shared_turn, mbind, M_bind, get in E. destruct (Z.ltb_spec (si s) 0) as [Hlt|Hge]; injection E as <- <-.
  { eapply inv_wait; [done|done|lia|by left]. }
  destruct Hinv as [H1 H2 H3 H4 H5]. simpl in *. pose proof (count_nonneg InShared ms). split; simpl; [|intros t'|done|intros _; counts Ht; by apply H4|lia].
  + right. counts Ht. lia.
  + rewrite H2, (lookup_change _ _ _ _ Ht). case_decide as E'; [subst t'|done]. rewrite Ht. naive_solver.
Qed.
(** A turn of [acquire_exclusive]. *)
Lemma inv_exclusive s ms t ok s' : inv (World s ms) → ms@[t] = Some AskExclusive → acquire_exclusive_turn t s = Done (ok, s') → inv (World s' (ms@[t := if ok : bool then InExclusive else WaitExclusive])).
Proof.
  intros Hinv Ht E.
  unfold acquire_exclusive_turn, mbind, M_bind, get in E. destruct (Z.eqb_spec (si s) 0) as [Hz|Hnz]; simpl in E; injection E as <- <-.
  2:{ eapply inv_wait; [done|done|lia|by right]. }
  destruct Hinv as [H1 H2 H3 H4 H5]. simpl in *. split; simpl; [|intros t'|done|lia|lia].
  + left. counts Ht. lia.
  + rewrite H2, (lookup_change _ _ _ _ Ht). case_decide as E'; [subst t'|done]. rewrite Ht. naive_solver.
Qed.
Lemma inv_release_shared s ms t w ws s' : inv (World s ms) → ms@[t] = Some InShared → release_shared w s = Done (ws, s') → inv (World s' (wake_all ws (ms@[t := Outside]))).
Proof.
  intros Hinv Ht E.
  destruct Hinv as [H1 H2 H3 H4 H5]. simpl in *. pose proof (count_pos _ _ _ Ht) as Hpos.
  assert (count InExclusive ms = 0 ∧ si s = count InShared ms) as [Hx Hs] by lia. clear H1.
  assert (∀ t', t' ∈ waiters s → t' ≠ t) as Hwt by (intros t' Hin ->; apply H2 in Hin; rewrite Ht in Hin; naive_solver).
  assert (inv (World (SharedLock (si s - 1) (waiters s)) (ms@[t := Outside])) ∨ si s - 1 = 0 ∧ waiters s ≠ []) as Hmost.
  { destruct (decide (si s - 1 = 0 ∧ waiters s ≠ [])) as [|Hno]; [by right|left]. split; simpl.
    - right. counts Ht. lia.
    - intros t'. rewrite H2, (lookup_change _ _ _ _ Ht). case_decide as E'; [subst t'|done]. rewrite Ht. naive_solver.
    - done.
    - intros _. counts Ht. apply H4. lia.
    - intros Hz. left. destruct (waiters s); [done|]. by destruct Hno. }
  unfold release_shared, mbind, M_bind, get in E. destruct (Z.eqb_spec (si s - 1) 0) as [Hz|Hnz]; simpl in E.
  2:{ injection E as <- <-. destruct Hmost as [|[? _]]; done. }
  destruct (waiters s) as [|w0 ws0] eqn:Ews; [injection E as <- <-; destruct Hmost as [|[_ ?]]; done|]. rewrite <-Ews in *. clear Ews.
  case_bool_decide as Hw; [|done]. injection E as <- <-. clear Hmost.
  assert (ms@[w] = Some WaitExclusive) as Hwx.
  { apply H2 in Hw as [Hw|Hw]; [|done]. pose proof (count_pos _ _ _ Hw). rewrite H4 in *; lia. }
  split; cbn [lock modes si waiters].
  + right. rewrite !count_wake_all by auto. counts Ht. lia.
  + intros t'. rewrite list_elem_of_filter, H2, lookup_wake_all, (lookup_change _ _ _ _ Ht).
    destruct (decide (t' ∈ [w])) as [->%list_elem_of_singleton|Hne%not_elem_of_cons].
    * rewrite decide_False, Hwx by (by apply Hwt). simpl. naive_solver.
    * case_decide as E'; [subst t'; rewrite Ht; naive_solver|]. destruct Hne as [Hne _]. naive_solver.
  + by apply list.NoDup_filter.
  + intros _. apply no_count. intros t'. rewrite lookup_wake_all, (lookup_change _ _ _ _ Ht).
    assert (ms@[t'] ≠ Some WaitShared) by (intros Hc; pose proof (count_pos _ _ _ Hc); rewrite H4 in *; lia).
    repeat case_decide; try done. destruct (ms@[t']) as [[]|]; done.
  + intros _. right. right. apply (count_pos _ _ w). rewrite lookup_wake_all, decide_True by set_solver.
    rewrite (lookup_change _ _ _ _ Ht), decide_False, Hwx by (by apply Hwt). done.
Qed.
Lemma inv_release_exclusive s ms t ws s' : inv (World s ms) → ms@[t] = Some InExclusive → release_exclusive s = Done (ws, s') → inv (World s' (wake_all ws (ms@[t := Outside]))).
Proof.
  intros Hinv Ht E.
  unfold release_exclusive, mbind, M_bind, get in E. injection E as <- <-. destruct Hinv as [H1 H2 H3 H4 H5]. simpl in *.
  pose proof (count_pos _ _ _ Ht) as Hpos. assert (count InExclusive ms = 1 ∧ count InShared ms = 0) as [Hx Hs] by lia.
  assert (∀ t', t' ∈ waiters s → t' ≠ t) as Hwt by (intros t' Hin ->; apply H2 in Hin; rewrite Ht in Hin; naive_solver).
  assert (∀ t' m, (wake_all (waiters s) (ms@[t := Outside]))@[t'] = Some m → m ≠ WaitShared ∧ m ≠ WaitExclusive) as Hnone.
  { intros t' m. rewrite lookup_wake_all, (lookup_change _ _ _ _ Ht). destruct (decide (t' = t)) as [->|Hne].
    - case_decide as Hin; [by destruct (Hwt t Hin)|]. by intros [= <-].
    - case_decide as Hin; rewrite H2 in Hin; destruct (ms@[t']) as [[]|]; simpl; intros [= <-]; naive_solver. }
  split; cbn [lock modes si waiters].
  + right. rewrite !count_wake_all by auto. counts Ht. lia.
  + intros t'. split; [by intros ?%not_elem_of_nil|]. intros [Hc|Hc]; by destruct (Hnone _ _ Hc).
  + constructor.
  + intros _. apply no_count. intros t' Hc. by destruct (Hnone _ _ Hc).
  + by left.
Qed.
Lemma inv_step w w' : inv w → step w w' → inv w'.
Proof.
  intros Hinv Hst. destruct Hst; [by apply inv_asks|by eapply inv_shared|by eapply inv_exclusive|by eapply inv_release_shared|by eapply inv_release_exclusive].
Qed.

Lemma inv_steps w w' : initial w → steps w w' → inv w'.
Proof.
  intros Hi Hs. apply inv_initial in Hi. induction Hs as [|w1 w2 w3 Hst _ IH]; [done|]. apply IH. by eapply inv_step.
Qed.

(** ** The theorems *)

(** C35 In every reachable state a thread that holds the lock exclusively
    is the only thread that holds it. *)
Theorem exclusive_is_exclusive w0 w t t' m : initial w0 → steps w0 w →
  (modes w)@[t] = Some InExclusive → (modes w)@[t'] = Some m → m = InShared ∨ m = InExclusive → t' = t.
Proof.
  intros Hi Hs Ht Ht' Hm. destruct (inv_steps _ _ Hi Hs) as [Hx _ _ _ _]. pose proof (count_pos _ _ _ Ht) as H1.
  destruct (decide (t' = t)) as [|Hne]; [done|exfalso]. destruct Hm as [->| ->].
  - pose proof (count_pos _ _ _ Ht'). lia.
  - assert (0 < count InExclusive ((modes w)@[t := Outside])) as Hpos by (apply (count_pos _ _ t'); by rewrite zlookup_insert_ne).
    rewrite (count_gone _ _ _ _ Ht) in Hpos by done. lia.
Qed.

(** The waiters of a free lock do not sleep forever: some thread is on its way. *)
Lemma free_lock_progress w t m : inv w → (modes w)@[t] = Some m → m = WaitShared ∨ m = WaitExclusive →
  count InShared (modes w) = 0 → count InExclusive (modes w) = 0 →
  ∃ t' w', step w w' ∧ ((modes w)@[t'] = Some AskShared ∧ (modes w')@[t'] = Some InShared ∨
                         (modes w)@[t'] = Some AskExclusive ∧ (modes w')@[t'] = Some InExclusive).
Proof.
  destruct w as [[i ws] ms]. intros [Hx Hw _ _ Hwoken] Ht Hm Hs He. simpl in *. assert (i = 0) as -> by lia.
  destruct (Hwoken eq_refl) as [->|[Ha|Ha]].
  - exfalso. apply (not_elem_of_nil t), Hw. destruct Hm as [->| ->]; auto.
  - destruct (count_ex _ _ Ha) as [t' Ht']. exists t', (World (SharedLock 1 ws) (ms@[t' := InShared])). split.
    + by apply (step_shared (SharedLock 0 ws) ms t' true).
    + left. split; [done|]. simpl. apply zlookup_insert_eq. by apply zlookup_bound in Ht'.
  - destruct (count_ex _ _ Ha) as [t' Ht']. exists t', (World (SharedLock (-1) ws) (ms@[t' := InExclusive])). split.
    + by apply (step_exclusive (SharedLock 0 ws) ms t' true).
    + right. split; [done|]. simpl. apply zlookup_insert_eq. by apply zlookup_bound in Ht'.
Qed.

(** C36 No wake-up is lost: in every reachable state in which nobody holds the
    lock although threads wait for it, some thread has been woken (or has just
    asked) and acquires the lock as soon as it runs. *)
Theorem waiters_make_progress w0 w t m : initial w0 → steps w0 w →
  (modes w)@[t] = Some m → m = WaitShared ∨ m = WaitExclusive →
  (∀ t' m', (modes w)@[t'] = Some m' → m' ≠ InShared ∧ m' ≠ InExclusive) →
  ∃ t' w', step w w' ∧ ((modes w)@[t'] = Some AskShared ∧ (modes w')@[t'] = Some InShared ∨
                         (modes w)@[t'] = Some AskExclusive ∧ (modes w')@[t'] = Some InExclusive).
Proof.
  intros Hi Hs Ht Hm Hno. apply (free_lock_progress w t m); [by eapply inv_steps|done..| |]; apply no_count; intros t' Ht'; by destruct (Hno _ _ Ht').
Qed.

(** ** Concrete runs *)

(** Two threads: the first holds the lock exclusively, the second waits to read. *)
Definition demo0 : world := World init_shared [Outside; Outside].
Definition demo1 : world := World (SharedLock (-1) [1]) [InExclusive; WaitShared].
Definition demo3 : world := World init_shared [Outside; Outside; Outside].

Lemma demo0_initial : initial demo0.
Proof. split; [done|]. by repeat constructor. Qed.
Lemma demo1_reached : steps demo0 demo1.
Proof.
  apply rtc_l with (World init_shared [AskExclusive; Outside]); [by apply (step_call init_shared [Outside; Outside] 0 AskExclusive); auto|].
  apply rtc_l with (World (SharedLock (-1) []) [InExclusive; Outside]); [by apply (step_exclusive init_shared [AskExclusive; Outside] 0 true)|].
  apply rtc_l with (World (SharedLock (-1) []) [InExclusive; AskShared]); [by apply (step_call (SharedLock (-1) []) [InExclusive; Outside] 1 AskShared); auto|].
  apply rtc_once. by apply (step_shared (SharedLock (-1) []) [InExclusive; AskShared] 1 false).
Qed.
Lemma exclusive_is_exclusive_witness : (modes demo1)@[0] = Some InExclusive ∧ ∀ t', (modes demo1)@[t'] = Some InShared → t' = 0.
Proof.
  split; [reflexivity|]. intros t' Ht'.
  apply (exclusive_is_exclusive demo0 demo1 0 t' InShared demo0_initial demo1_reached); [reflexivity|exact Ht'|left; reflexivity].
Defined.

(** A writer waits while a reader leaves and another thread asks. *)
Definition demo4 : world := World (SharedLock 0 [2]) [Outside; AskExclusive; WaitExclusive].
Lemma demo3_initial : initial demo3.
Proof. split; [done|]. by repeat constructor. Qed.
Lemma demo4_reached : steps demo3 demo4.
Proof.
  apply rtc_l with (World init_shared [AskShared; Outside; Outside]); [by apply (step_call init_shared [Outside; Outside; Outside] 0 AskShared); auto|].
  apply rtc_l with (World (SharedLock 1 []) [InShared; Outside; Outside]); [by apply (step_shared init_shared [AskShared; Outside; Outside] 0 true)|].
  apply rtc_l with (World (SharedLock 1 []) [InShared; AskExclusive; Outside]); [by apply (step_call (SharedLock 1 []) [InShared; Outside; Outside] 1 AskExclusive); auto|].
  apply rtc_l with (World (SharedLock 1 [1]) [InShared; WaitExclusive; Outside]); [by apply (step_exclusive (SharedLock 1 []) [InShared; AskExclusive; Outside] 1 false)|].
  apply rtc_l with (World (SharedLock 1 [1]) [InShared; WaitExclusive; AskExclusive]); [by apply (step_call (SharedLock 1 [1]) [InShared; WaitExclusive; Outside] 2 AskExclusive); auto|].
  apply rtc_l with (World (SharedLock 1 [1; 2]) [InShared; WaitExclusive; WaitExclusive]); [by apply (step_exclusive (SharedLock 1 [1]) [InShared; WaitExclusive; AskExclusive] 2 false)|].
  apply rtc_once. by apply (step_release_shared (SharedLock 1 [1; 2]) [InShared; WaitExclusive; WaitExclusive] 0 1 [1]).
Qed.
Lemma waiters_make_progress_witness : ∃ t' w', step demo4 w' ∧ t' ≠ 2 ∧ (modes w')@[t'] = Some InExclusive.
Proof.
  destruct (waiters_make_progress demo3 demo4 2 WaitExclusive demo3_initial demo4_reached) as (t' & w' & Hst & Hcase).
  - reflexivity.
  - right; reflexivity.
  - intros t' m' [_ H]%zlookup_Some. simpl in H. destruct (Z.to_nat t') as [|[|[|]]]; simpl in H; injection H as <- || discriminate H; split; discriminate.
  - exists t', w'. split; [exact Hst|]. destruct Hcase as [[H _]|[H1 H2]].
    + exfalso. apply zlookup_Some in H as [_ H]. simpl in H. destruct (Z.to_nat t') as [|[|[|]]]; discriminate H.
    + split; [|exact H2]. intros ->. discriminate H1.
Defined.
