(* ===== verification/Inode.v ===== *)
(** * Inodes (src/pintos/src/filesys/inode.c, free-map.c)

    An inode's sector holds its length and 125 sector numbers: 123 direct
    blocks, an indirect block and a doubly indirect block.  A sector number is
    [NO_SECTOR] (-1) if the block does not exist, 0 if it is a hole that reads as
    zeros and gets a sector when it is first used.

    The state is the sectors, known only through the interface [BlockStore] the
    buffer cache provides, the free map, and the open inodes.  A sector is a
    list of 512 bytes; the structures on disk are read from and written to it
    by [decode_inode], [encode_inode], [bytes_to_words] and [words_to_bytes].

    [free_map_allocate] saves the free map by writing to the free map's file,
    that is by calling [inode_write_at], which may itself allocate: the
    recursion is given a depth.  The free map's file never grows, so that depth 1
    is enough for every other file.  [alloc] says whether [malloc] succeeds on a
    request of a given size.  The lock of an inode only serialises writers and
    is left out. *)

From S2P Require Import Prelude KList Bitmap Cache.

Definition INODE_MAGIC : Z := 0x494e4f44.
Definition BLOCKS_NUM : Z := 125.
Definition INDIRECT_BEGIN : Z := 123.
Definition DIRECT_BLK_LEN : Z := 123.
Definition BLOCK_SLOTS : Z := 128.
Definition DBL_INDIRECT_BEGIN : Z := DIRECT_BLK_LEN + BLOCK_SLOTS.
Definition INDIRECT_BLK : Z := 123.
Definition DBL_INDIRECT_BLK : Z := 124.
Definition MAX_FILE_SECTOR : Z := DIRECT_BLK_LEN + BLOCK_SLOTS + BLOCK_SLOTS * BLOCK_SLOTS.
Definition BLOCK_ERROR : Z := NO_SECTOR.
(** [sizeof (struct inode)]. *)
Definition INODE_SIZE : Z := 576.

Record inode_disk : Type := InodeDisk { dlength : Z; magic : Z; is_dir : Z; blocks : list Z }.
Record inode : Type := Inode { isector : Z; open_cnt : Z; removed : bool; deny_write_cnt : Z; idata : inode_disk }.

Definition encode_inode (d : inode_disk) : list Z := words_to_bytes (u32 (dlength d) :: magic d :: is_dir d :: blocks d).
Definition decode_inode (l : list Z) : inode_disk :=
  match bytes_to_words l with
  | len :: mag :: dir :: bl => InodeDisk (s32 len) mag dir bl
  | _ => InodeDisk 0 0 0 []
  end.

Definition bytes_to_sectors (size : Z) : Z := DIV_ROUND_UP (u32 size) BLOCK_SECTOR_SIZE.

Definition zeros : list Z := replicate 512 0.
Definition no_blocks : list Z := replicate 128 BLOCK_ERROR.

(** [free_map_file] is the inode of the free map's file, once it is open. *)
Record fs (S : Type) : Type := Fs {
  store : S;
  free_map : bitmap;
  free_map_file : option Z;
  open_inodes : list Z;
  inodes : gmap Z inode;
}.
Arguments Fs {S}.
Arguments store {S}.
Arguments free_map {S}.
Arguments free_map_file {S}.
Arguments open_inodes {S}.
Arguments inodes {S}.

Section inode.
Context {S : Type} `{!BlockStore S} (alloc : Z → bool).
Abbreviation F := (fs S).

Definition set_store (s : S) (f : F) : F := Fs s (free_map f) (free_map_file f) (open_inodes f) (inodes f).
Definition set_free_map (b : bitmap) (f : F) : F := Fs (store f) b (free_map_file f) (open_inodes f) (inodes f).
Definition set_open (l : list Z) (f : F) : F := Fs (store f) (free_map f) (free_map_file f) l (inodes f).
Definition set_inodes (m : gmap Z inode) (f : F) : F := Fs (store f) (free_map f) (free_map_file f) (open_inodes f) m.
Definition set_map_file (m : option Z) (f : F) : F := Fs (store f) (free_map f) m (open_inodes f) (inodes f).

Definition on_store {A} (m : M S A) : M F A := λ f,
  match m (store f) with
  | Done (a, s) => Done (a, set_store s f)
  | Panic => Panic | Undef => Undef | NoFuel => NoFuel
  end.

(** The inode at the address [i]; undefined for a null or dangling pointer. *)
Definition inode_at (i : Z) : M F inode := f ← get; match inodes f !! i with Some x => mret x | None => undefined end.
Definition set_inode (i : Z) (x : inode) : M F unit := modify (λ f, set_inodes (<[i := x]> (inodes f)) f).
Definition set_idata (d : inode_disk) (x : inode) : inode := Inode (isector x) (open_cnt x) (removed x) (deny_write_cnt x) d.
Definition set_open_cnt (n : Z) (x : inode) : inode := Inode (isector x) n (removed x) (deny_write_cnt x) (idata x).
Definition set_removed (b : bool) (x : inode) : inode := Inode (isector x) (open_cnt x) b (deny_write_cnt x) (idata x).
Definition set_deny (n : Z) (x : inode) : inode := Inode (isector x) (open_cnt x) (removed x) n (idata x).
Definition set_blocks (l : list Z) (d : inode_disk) : inode_disk := InodeDisk (dlength d) (magic d) (is_dir d) l.
Definition set_length (n : Z) (d : inode_disk) : inode_disk := InodeDisk n (magic d) (is_dir d) (blocks d).

(** [inode->data.block[k] = v]. *)
Definition set_block (i k v : Z) : M F unit :=
  x ← inode_at i; l ← lift (wr (blocks (idata x)) k v); set_inode i (set_idata (set_blocks l (idata x)) x).
(** [cache_block_write (fs_device, inode->sector, &inode->data)]. *)
Definition write_inode (i : Z) : M F unit := x ← inode_at i; on_store (bwrite (isector x) (encode_inode (idata x))).

Definition inode_length (i : Z) : M F Z := x ← inode_at i; mret (dlength (idata x)).

(** A buffer of one sector; the code does not check that it got one. *)
Definition need_buffer : M F unit := if alloc BLOCK_SECTOR_SIZE then mret tt else undefined.

Section depth.
(** [bitmap_write (free_map, free_map_file)]. *)
Context (save_map : M F bool).

(** The sector found, if any. *)
Definition free_map_allocate (cnt : Z) : M F (option Z) :=
  f ← get;
  r ← lift (bitmap_scan_and_flip (free_map f) 0 cnt false);
  let '(n, m) := r in
  modify (set_free_map m);;
  ok ← (if negb (n =? BITMAP_ERROR) && bool_decide (free_map_file f ≠ None) then save_map else mret true);
  if ok : bool then mret (if n =? BITMAP_ERROR then None else Some n)
  else
    f ← get;
    m ← lift (bitmap_set_multiple (free_map f) n cnt false);
    modify (set_free_map m);;
    mret None.

Definition free_map_release (n cnt : Z) : M F unit :=
  f ← get;
  a ← lift (bitmap_all (free_map f) n cnt);
  assert a;;
  m ← lift (bitmap_set_multiple (free_map f) n cnt false);
  modify (set_free_map m);;
  match free_map_file f with Some _ => save_map;; mret tt | None => undefined end.

(** The first component is the result, the second the variable [*sector], which
    was 0 before. *)
Definition inode_alloc_zeros : M F (Z * Z) :=
  r ← free_map_allocate 1;
  match r with
  | Some n => on_store (bwrite n zeros);; mret (n, n)
  | None => mret (BLOCK_ERROR, 0)
  end.

(** A sector of sector numbers is read, the number at [idx] is looked at, and
    a hole is filled. *)
Definition segment_slot (seg idx : Z) : M F Z :=
  need_buffer;;
  d ← on_store (bread seg);
  let ws := bytes_to_words d in
  sector ← lift (rd ws idx);
  if sector =? 0 then
    r ← inode_alloc_zeros;
    let '(v, sector) := r in
    ws ← lift (wr ws idx v);
    on_store (bwrite seg (words_to_bytes ws));;
    mret sector
  else mret sector.

Definition byte_to_sector (i pos : Z) : M F Z :=
  assert (negb (i =? NULL));;
  x ← inode_at i;
  let pos_sector := u32 (Z.quot pos BLOCK_SECTOR_SIZE) in
  need_buffer;;
  d ← on_store (bread (isector x));
  let inode_block := decode_inode d in
  if pos_sector <? INDIRECT_BEGIN then
    sector ← lift (rd (blocks inode_block) pos_sector);
    if sector =? 0 then
      r ← inode_alloc_zeros;
      let '(v, sector) := r in
      l ← lift (wr (blocks inode_block) pos_sector v);
      on_store (bwrite (isector x) (encode_inode (set_blocks l inode_block)));;
      mret sector
    else mret sector
  else if pos_sector <? DBL_INDIRECT_BEGIN then
    sector ← lift (rd (blocks inode_block) INDIRECT_BLK);
    if negb (sector =? BLOCK_ERROR) then segment_slot sector (pos_sector - INDIRECT_BEGIN) else mret sector
  else if pos_sector <? MAX_FILE_SECTOR then
    let indirect_idx := (pos_sector - DBL_INDIRECT_BEGIN) `div` BLOCK_SLOTS in
    let dbl_indirect_idx := (pos_sector - DBL_INDIRECT_BEGIN) `mod` BLOCK_SLOTS in
    sector ← lift (rd (blocks inode_block) DBL_INDIRECT_BLK);
    if negb (sector =? BLOCK_ERROR) then
      need_buffer;;
      d ← on_store (bread sector);
      sector ← lift (rd (bytes_to_words d) indirect_idx);
      if negb (sector =? BLOCK_ERROR) then segment_slot sector dbl_indirect_idx else mret sector
    else mret sector
  else undefined.  (* [sector] is not initialised *)

(** A segment of sector numbers that is read, or allocated and empty; the
    number of its sector is stored by [put_seg]. *)
Definition open_segment (seg : Z) (put_seg : Z → M F unit) : M F (option (Z * list Z)) :=
  if negb (seg =? BLOCK_ERROR) then d ← on_store (bread seg); mret (Some (seg, bytes_to_words d))
  else
    r ← free_map_allocate 1;
    match r with
    | Some n => put_seg n;; mret (Some (n, no_blocks))
    | None => mret None
    end.
(** The number at [idx] becomes 0 unless the block exists. *)
Definition mark_hole (seg idx : Z) (ws : list Z) : M F unit :=
  v ← lift (rd ws idx);
  ws ← (if v =? BLOCK_ERROR then lift (wr ws idx 0) else mret ws);
  on_store (bwrite seg (words_to_bytes ws)).

Definition inode_expand_sector (i pos_sector : Z) : M F bool :=
  assert (negb (i =? NULL));;
  x ← inode_at i;
  if pos_sector <? INDIRECT_BEGIN then
    v ← lift (rd (blocks (idata x)) pos_sector);
    (if v =? BLOCK_ERROR then set_block i pos_sector 0 else mret tt);;
    write_inode i;;
    mret true
  else if pos_sector <? DBL_INDIRECT_BEGIN then
    seg ← lift (rd (blocks (idata x)) INDIRECT_BLK);
    r ← open_segment seg (λ n, set_block i INDIRECT_BLK n;; write_inode i);
    match r with
    | Some (seg, ws) => mark_hole seg (pos_sector - DIRECT_BLK_LEN) ws;; mret true
    | None => mret false
    end
  else if pos_sector <? MAX_FILE_SECTOR then
    let indirect_idx := (pos_sector - DBL_INDIRECT_BEGIN) `div` BLOCK_SLOTS in
    let dbl_indirect_idx := (pos_sector - DBL_INDIRECT_BEGIN) `mod` BLOCK_SLOTS in
    seg ← lift (rd (blocks (idata x)) DBL_INDIRECT_BLK);
    r ← open_segment seg (λ n, set_block i DBL_INDIRECT_BLK n;; write_inode i);
    match r with
    | Some (seg, ws) =>
        seg2 ← lift (rd ws indirect_idx);
        r ← open_segment seg2 (λ n, ws ← lift (wr ws indirect_idx n); on_store (bwrite seg (words_to_bytes ws)));
        match r with
        | Some (seg2, ws2) => mark_hole seg2 dbl_indirect_idx ws2;; mret true
        | None => mret false
        end
    | None => mret false
    end
  else mret false.

(** The number of bytes of a turn of the loops below. *)
Definition chunk (size inode_left sector_left : Z) : Z :=
  let min_left := if inode_left <? sector_left then inode_left else sector_left in
  if size <? min_left then size else min_left.
(** [src] copied over [dst] from the offset [ofs]. *)
Definition overwrite (ofs : Z) (src dst : list Z) : list Z :=
  take (Z.to_nat ofs) dst ++ src ++ drop (Z.to_nat ofs + length src) dst.
Definition slice (ofs n : Z) (l : list Z) : list Z := take (Z.to_nat n) (drop (Z.to_nat ofs) l).

(** The bytes read; the result of the call is their number. *)
Fixpoint inode_read_loop (fuel : nat) (i size offset : Z) : M F (list Z) :=
  match fuel with
  | O => out_of_fuel
  | Datatypes.S fuel =>
      if 0 <? size then
        sector_idx ← byte_to_sector i offset;
        if sector_idx =? BLOCK_ERROR then mret [] else
        let sector_ofs := Z.rem offset BLOCK_SECTOR_SIZE in
        len ← inode_length i;
        let chunk_size := chunk size (len - offset) (BLOCK_SECTOR_SIZE - sector_ofs) in
        if chunk_size <=? 0 then mret [] else
        if (sector_ofs =? 0) && (chunk_size =? BLOCK_SECTOR_SIZE) then
          d ← on_store (bread sector_idx);
          rest ← inode_read_loop fuel i (size - chunk_size) (offset + chunk_size);
          mret (d ++ rest)
        else if negb (alloc BLOCK_SECTOR_SIZE) then mret []
        else
          bounce ← on_store (bread sector_idx);
          rest ← inode_read_loop fuel i (size - chunk_size) (offset + chunk_size);
          mret (slice sector_ofs chunk_size bounce ++ rest)
      else mret []
  end.
Definition inode_read_at (i size offset : Z) : M F (list Z) := inode_read_loop (Datatypes.S (Z.to_nat size)) i size offset.

(** The loop returns the offset it has reached. *)
Fixpoint expand_zero_loop (fuel : nat) (i size offset : Z) : M F Z :=
  match fuel with
  | O => out_of_fuel
  | Datatypes.S fuel =>
      if 0 <? size then
        sector_idx ← byte_to_sector i offset;
        let sector_ofs := Z.rem offset BLOCK_SECTOR_SIZE in
        r ← (if sector_idx =? BLOCK_ERROR then
               ok ← inode_expand_sector i (u32 (Z.quot offset BLOCK_SECTOR_SIZE));
               mret (if ok : bool then Some 0 else None)
             else mret (Some sector_idx));
        match r with
        | None => mret offset
        | Some sector_idx =>
            len ← inode_length i;
            let sector_left := BLOCK_SECTOR_SIZE - sector_ofs in
            let chunk_size := chunk size (len - offset) sector_left in
            if chunk_size <=? 0 then mret offset else
            if (sector_ofs =? 0) && (chunk_size =? BLOCK_SECTOR_SIZE) then
              expand_zero_loop fuel i (size - chunk_size) (offset + chunk_size)
            else
              sector_idx ← (if sector_idx =? 0 then byte_to_sector i offset else mret sector_idx);
              if negb (alloc BLOCK_SECTOR_SIZE) then mret offset else
              bounce ← (if (0 <? sector_ofs) || (chunk_size <? sector_left) then on_store (device_read sector_idx) else mret zeros);
              on_store (bwrite sector_idx (overwrite sector_ofs (replicate (Z.to_nat chunk_size) 0) bounce));;
              expand_zero_loop fuel i (size - chunk_size) (offset + chunk_size)
        end
      else mret offset
  end.
Definition inode_expand_zero (i size offset : Z) : M F Z :=
  x ← inode_at i;
  if negb (deny_write_cnt x =? 0) then mret 0 else
  set_inode i (set_idata (set_length (offset + size) (idata x)) x);;
  write_inode i;;
  e ← expand_zero_loop (Datatypes.S (Z.to_nat size)) i size offset;
  x ← inode_at i;
  set_inode i (set_idata (set_length e (idata x)) x);;
  mret (e - offset).

(** [buffer] is what is left to write. *)
Fixpoint inode_write_loop (fuel : nat) (i : Z) (buffer : list Z) (size offset : Z) : M F Z :=
  match fuel with
  | O => out_of_fuel
  | Datatypes.S fuel =>
      if 0 <? size then
        sector_idx ← byte_to_sector i offset;
        let sector_ofs := Z.rem offset BLOCK_SECTOR_SIZE in
        r ← (if sector_idx =? BLOCK_ERROR then
               ok ← inode_expand_sector i (u32 (Z.quot offset BLOCK_SECTOR_SIZE));
               if ok : bool then
                 sector_idx ← byte_to_sector i offset;
                 x ← inode_at i;
                 d ← on_store (bread (isector x));
                 set_inode i (set_idata (decode_inode d) x);;
                 mret (Some sector_idx)
               else mret None
             else mret (Some sector_idx));
        match r with
        | None => mret 0
        | Some sector_idx =>
            len ← inode_length i;
            let sector_left := BLOCK_SECTOR_SIZE - sector_ofs in
            let chunk_size := chunk size (len - offset) sector_left in
            if chunk_size <=? 0 then mret 0 else
            let src := take (Z.to_nat chunk_size) buffer in
            let more := drop (Z.to_nat chunk_size) buffer in
            if (sector_ofs =? 0) && (chunk_size =? BLOCK_SECTOR_SIZE) then
              on_store (bwrite sector_idx src);;
              n ← inode_write_loop fuel i more (size - chunk_size) (offset + chunk_size);
              mret (chunk_size + n)
            else if negb (alloc BLOCK_SECTOR_SIZE) then mret 0
            else
              bounce ← (if (0 <? sector_ofs) || (chunk_size <? sector_left) then on_store (bread sector_idx) else mret zeros);
              on_store (bwrite sector_idx (overwrite sector_ofs src bounce));;
              n ← inode_write_loop fuel i more (size - chunk_size) (offset + chunk_size);
              mret (chunk_size + n)
        end
      else mret 0
  end.
Definition inode_write_at (i : Z) (buffer : list Z) (size offset : Z) : M F Z :=
  x ← inode_at i;
  let inode_size := dlength (idata x) in
  if negb (deny_write_cnt x =? 0) then mret 0 else
  (if inode_size <? offset then inode_expand_zero i (offset + size - inode_size) inode_size;; mret tt else mret tt);;
  x ← inode_at i;
  (if dlength (idata x) <? offset + size then
     set_inode i (set_idata (set_length (offset + size) (idata x)) x);; write_inode i
   else mret tt);;
  n ← inode_write_loop (Datatypes.S (Z.to_nat size)) i buffer size offset;
  write_inode i;;
  mret n.

(** ** Opening, closing, creating *)

Definition inode_init : M F unit := modify (set_open []).

Definition inode_reopen (i : Z) : M F Z :=
  (if i =? NULL then mret tt else x ← inode_at i; set_inode i (set_open_cnt (open_cnt x + 1) x));; mret i.

(** The open inode for a sector. *)
Definition find_open (n : Z) (f : F) : option Z :=
  List.find (λ i, match inodes f !! i with Some x => isector x =? n | None => false end) (open_inodes f).

(** [new] is the block [malloc] returns. *)
Definition inode_open (new n : Z) : M F Z :=
  found ← gets (find_open n);
  match found with
  | Some i => inode_reopen i
  | None =>
      if negb (alloc INODE_SIZE) then mret NULL else
      modify (λ f, set_open (new :: open_inodes f) f);;
      d ← on_store (bread n);
      set_inode new (Inode n 1 false 0 (decode_inode d));;
      mret new
  end.

Definition inode_get_inumber (i : Z) : M F Z := x ← inode_at i; mret (isector x).
Definition inode_remove (i : Z) : M F unit := assert (negb (i =? NULL));; x ← inode_at i; set_inode i (set_removed true x).
Definition inode_deny_write (i : Z) : M F unit :=
  x ← inode_at i;
  set_inode i (set_deny (deny_write_cnt x + 1) x);;
  assert (deny_write_cnt x + 1 <=? open_cnt x).
Definition inode_allow_write (i : Z) : M F unit :=
  x ← inode_at i;
  assert (0 <? deny_write_cnt x);;
  assert (deny_write_cnt x <=? open_cnt x);;
  set_inode i (set_deny (deny_write_cnt x - 1) x).
Definition inode_open_cnt (i : Z) : M F Z := x ← inode_at i; mret (open_cnt x).
Definition inode_is_dir (i : Z) : M F bool :=
  if i =? NULL then mret false else x ← inode_at i; mret (negb (is_dir (idata x) =? 0)).

(** [for (i = 0; i < sectors; i++)] of [inode_flush], with [n] turns left. *)
Fixpoint flush_loop (n : nat) (i k : Z) : M F unit :=
  match n with
  | O => mret tt
  | Datatypes.S n =>
      sector ← byte_to_sector i (k * BLOCK_SECTOR_SIZE);
      on_store (bflush sector);;
      flush_loop n i (k + 1)
  end.
Definition inode_flush (i : Z) : M F unit :=
  x ← inode_at i;
  on_store (bflush (isector x));;
  flush_loop (Z.to_nat (bytes_to_sectors (dlength (idata x)))) i 0.

(** The loops of [inode_release], over the sectors [k] and following, [n] turns
    left.  A segment that has not been read is not initialised ([None]). *)
Definition release_unless_hole (n : Z) : M F unit := if n =? 0 then mret tt else free_map_release n 1.
Definition seg_rd (seg : option (list Z)) (idx : Z) : M F Z :=
  match seg with Some ws => lift (rd ws idx) | None => undefined end.
Fixpoint release_direct (n : nat) (bl : list Z) (k : Z) : M F unit :=
  match n with
  | O => mret tt
  | Datatypes.S n => v ← lift (rd bl k); release_unless_hole v;; release_direct n bl (k + 1)
  end.
Fixpoint release_indirect (n : nat) (bl : list Z) (indirect : option (list Z)) (k : Z) : M F (option (list Z)) :=
  match n with
  | O => mret indirect
  | Datatypes.S n =>
      indirect ← (if k =? INDIRECT_BLK then
                    v ← lift (rd bl k);
                    if negb (v =? BLOCK_ERROR) then d ← on_store (bread v); mret (Some (bytes_to_words d)) else mret indirect
                  else mret indirect);
      v ← seg_rd indirect k;
      release_unless_hole v;;
      release_indirect n bl indirect (k + 1)
  end.
Fixpoint release_double (n : nat) (bl : list Z) (indirect dbl : option (list Z)) (k : Z) : M F (option (list Z)) :=
  match n with
  | O => mret indirect
  | Datatypes.S n =>
      let indirect_idx := (k - DBL_INDIRECT_BEGIN) `div` BLOCK_SLOTS in
      let dbl_indirect_idx := (k - DBL_INDIRECT_BEGIN) `mod` BLOCK_SLOTS in
      indirect ← (if k =? DBL_INDIRECT_BLK then
                    v ← lift (rd bl k);
                    if negb (v =? BLOCK_ERROR) then
                      w ← lift (rd bl DBL_INDIRECT_BLK); d ← on_store (bread w); mret (Some (bytes_to_words d))
                    else mret indirect
                  else mret indirect);
      dbl ← (if indirect_idx =? 0 then
               v ← seg_rd indirect indirect_idx;
               if negb (v =? BLOCK_ERROR) then d ← on_store (bread v); mret (Some (bytes_to_words d)) else mret dbl
             else mret dbl);
      v ← seg_rd dbl dbl_indirect_idx;
      release_unless_hole v;;
      (if dbl_indirect_idx =? BLOCK_SLOTS - 1 then v ← seg_rd indirect indirect_idx; free_map_release v 1 else mret tt);;
      release_double n bl indirect dbl (k + 1)
  end.
Definition inode_release (i : Z) : M F unit :=
  assert (negb (i =? NULL));;
  x ← inode_at i;
  let sectors := bytes_to_sectors (dlength (idata x)) in
  let bl := blocks (idata x) in
  free_map_release (isector x) 1;;
  release_direct (Z.to_nat (sectors `min` INDIRECT_BEGIN)) bl 0;;
  indirect ← release_indirect (Z.to_nat (sectors `min` DBL_INDIRECT_BEGIN - INDIRECT_BEGIN)) bl None INDIRECT_BEGIN;
  let dbl_min := sectors `min` MAX_FILE_SECTOR in
  indirect ← release_double (Z.to_nat (dbl_min - DBL_INDIRECT_BEGIN)) bl indirect None DBL_INDIRECT_BEGIN;
  let last := DBL_INDIRECT_BEGIN `max` dbl_min in
  if last =? dbl_min then
    let indirect_idx := if DBL_INDIRECT_BEGIN <? dbl_min then (dbl_min - 1 - DBL_INDIRECT_BEGIN) `div` BLOCK_SLOTS else 0 in
    v ← seg_rd indirect indirect_idx;
    free_map_release v 1;;
    w ← lift (rd bl DBL_INDIRECT_BLK);
    free_map_release w 1
  else mret tt.

Definition inode_close (i : Z) : M F unit :=
  if i =? NULL then mret tt else
  inode_flush i;;
  x ← inode_at i;
  set_inode i (set_open_cnt (open_cnt x - 1) x);;
  if open_cnt x - 1 =? 0 then
    modify (λ f, set_open (filter (λ y, y ≠ i) (open_inodes f)) f);;
    (if removed x then inode_release i else mret tt);;
    modify (λ f, set_inodes (delete i (inodes f)) f)
  else mret tt.

(** [for (i = 0; i < sectors; i++)] of [inode_create]. *)
Fixpoint create_loop (n : nat) (i k : Z) : M F bool :=
  match n with
  | O => mret true
  | Datatypes.S n => ok ← inode_expand_sector i k; if ok : bool then create_loop n i (k + 1) else mret false
  end.
Definition inode_create (new n length : Z) (dir : bool) : M F bool :=
  assert (0 <=? length);;
  if negb (alloc BLOCK_SECTOR_SIZE) then mret false else
  let sectors := bytes_to_sectors length in
  on_store (bwrite n (encode_inode (InodeDisk length INODE_MAGIC (if dir then 1 else 0) (replicate 125 BLOCK_ERROR))));;
  if 0 <? sectors then
    i ← inode_open new n;
    ok ← create_loop (Z.to_nat sectors) i 0;
    if ok : bool then inode_close i;; mret true else mret false
  else mret true.
End depth.

(** [bitmap_write (free_map, free_map_file)] at the given depth of the recursion. *)
Fixpoint save_map (depth : nat) : M F bool :=
  match depth with
  | O => out_of_fuel
  | Datatypes.S depth =>
      f ← get;
      match free_map_file f with
      | Some i =>
          let b := free_map f in
          n ← inode_write_at (save_map depth) i (bitmap_write_data b) (byte_cnt (bit_cnt b)) 0;
          mret (bitmap_write b n)
      | None => undefined
      end
  end.
End inode.
