(* ===== verification/InodeLayout.v ===== *)
(** * How the blocks of a file are laid out on disk

    The sectors a file uses, by the role each plays, and what the sectors of
    sector numbers hold.  A layout says where every block of the file is; the
    lemmas say which words of which sector change when a block is added to the
    file or moves. *)

From S2P Require Import Prelude KList Bitmap Cache Inode.

(** ** Tables of sector numbers *)

Lemma supd_eq {A} (D : Z → A) k v : supd D k v k = v.
Proof. unfold supd. by rewrite Z.eqb_refl. Qed.
Lemma supd_ne {A} (D : Z → A) k v j : j ≠ k → supd D k v j = D j.
Proof. intros Hj. unfold supd. destruct (Z.eqb_spec j k); done. Qed.

(** The [m] values of [D] from [b] on. *)
Definition part (D : Z → Z) (b m : Z) : list Z := (λ j, D (b + j)) <$> seqZ 0 m.

Lemma zlen_part D b m : 0 ≤ m → zlen (part D b m) = m.
Proof. intros. unfold zlen, part. rewrite length_fmap, length_seqZ. lia. Qed.
Lemma part_lookup D b m j : 0 ≤ j < m → (part D b m)@[j] = Some (D (b + j)).
Proof.
  intros Hj. apply zlookup_Some. split; [lia|]. unfold part. rewrite list_lookup_fmap, lookup_seqZ_lt by lia. simpl. do 2 f_equal. lia.
Qed.
Lemma part_ext D D' b m : (∀ j, 0 ≤ j < m → D (b + j) = D' (b + j)) → part D b m = part D' b m.
Proof. intros H. unfold part. apply list_fmap_ext. intros i j [-> Hi]%lookup_seqZ. apply H. lia. Qed.
Lemma part_supd D b m k v : b ≤ k < b + m → part (supd D k v) b m = (part D b m)@[k - b := v].
Proof.
  intros Hk. apply array_ext; [rewrite zlen_insert, !zlen_part; lia|]. intros j. rewrite zlen_part by lia. intros Hj.
  rewrite part_lookup by done. unfold supd. destruct (Z.eqb_spec (b + j) k) as [E|E].
  - rewrite <-E. replace (b + j - b) with j by lia. rewrite zlookup_insert_eq; [done|]. rewrite zlen_part; lia.
  - rewrite zlookup_insert_ne by lia. by rewrite part_lookup.
Qed.
Lemma part_supd_out D b m k v : ¬ (b ≤ k < b + m) → part (supd D k v) b m = part D b m.
Proof. intros Hk. apply part_ext. intros j Hj. unfold supd. destruct (Z.eqb_spec (b + j) k); [lia|done]. Qed.
Lemma part_u32 D b m : (∀ j, 0 ≤ j < m → is_u32 (D (b + j))) → Forall is_u32 (part D b m).
Proof.
  intros H. apply list.Forall_forall. intros x (j & -> & Hj%elem_of_seqZ)%list_elem_of_fmap. apply H. lia.
Qed.
#[global] Opaque part.
Lemma rd_part D b m j : 0 ≤ j < m → rd (part D b m) j = Done (D (b + j)).
Proof. intros. by apply rd_Some, part_lookup. Qed.
Lemma wr_part D b m k v : 0 ≤ k < m → wr (part D b m) k v = Done (part (supd D (b + k) v) b m).
Proof.
  intros. rewrite wr_in by (rewrite zlen_part; lia). rewrite part_supd by lia. do 2 f_equal. lia.
Qed.

(** ** Inodes as sectors *)

Record disk_ok (d : inode_disk) : Prop := {
  do_length : 0 ≤ dlength d < 2 ^ 31;
  do_magic : is_u32 (magic d);
  do_dir : is_u32 (is_dir d);
  do_blocks : Forall is_u32 (blocks d) ∧ zlen (blocks d) = BLOCKS_NUM;
}.
Lemma words_sector ws : zlen ws = BLOCK_SLOTS → is_sector (words_to_bytes ws).
Proof.
  intros Hl. split.
  - unfold zlen in *. rewrite length_words_to_bytes. unfold BLOCK_SLOTS, BLOCK_SECTOR_SIZE in *. lia.
  - clear. induction ws as [|w ws IH]; [constructor|]. rewrite words_to_bytes_cons. apply Forall_app. split; [apply le_bytes_u8|done].
Qed.
Lemma s32_of_u32 n : 0 ≤ n < 2 ^ 31 → s32 (u32 n) = n.
Proof. intros Hn. rewrite (u32_small n) by lia. unfold s32. rewrite Z.mod_small by lia. lia. Qed.
Lemma decode_encode d : disk_ok d → decode_inode (encode_inode d) = d.
Proof.
  intros [H1 H2 H3 [H4 _]]. unfold decode_inode, encode_inode. rewrite bytes_to_words_to_bytes.
  - rewrite s32_of_u32 by done. by destruct d.
  - apply Forall_cons_2; [apply Z.mod_pos_bound; lia|]. by repeat (apply Forall_cons_2; [done|]).
Qed.
Lemma encode_sector d : disk_ok d → is_sector (encode_inode d).
Proof.
  intros [_ _ _ [_ Hl]]. apply words_sector. rewrite !zlen_cons, Hl. done.
Qed.
Lemma zero_sector : is_sector zeros.
Proof. by apply replicate_sector. Qed.

(** ** Layouts *)

(** [lo_n] blocks, block [k] in sector [lo_data k] (0 for a hole); the sector
    numbers beyond the direct ones are in [lo_ind], [lo_dbl] and [lo_seg]. *)
Record layout : Type := Layout {
  lo_inode : Z; lo_ind : Z; lo_dbl : Z; lo_seg : Z → Z; lo_data : Z → Z; lo_n : Z }.

Inductive role : Type := RInode | RInd | RDbl | RSeg (j : Z) | RData (k : Z).
#[export] Instance role_eq : EqDecision role.
Proof. solve_decision. Defined.
Definition sec (L : layout) (r : role) : Z :=
  match r with RInode => lo_inode L | RInd => lo_ind L | RDbl => lo_dbl L | RSeg j => lo_seg L j | RData k => lo_data L k end.
(** The role is filled. *)
Definition filled (L : layout) (r : role) : Prop :=
  match r with
  | RInode => True
  | RInd => INDIRECT_BEGIN < lo_n L
  | RDbl => DBL_INDIRECT_BEGIN < lo_n L
  | RSeg j => 0 ≤ j ∧ DBL_INDIRECT_BEGIN + BLOCK_SLOTS * j < lo_n L
  | RData k => 0 ≤ k < lo_n L ∧ lo_data L k ≠ 0
  end.
Definition owned (L : layout) (n : Z) : Prop := ∃ r, filled L r ∧ sec L r = n.

(** What the sectors [V] hold for the layout [L] of an inode [d]. *)
Record laid_out (V : Z → list Z) (d : inode_disk) (L : layout) : Prop := {
  ly_disk : disk_ok d;
  ly_n : 0 ≤ lo_n L ≤ MAX_FILE_SECTOR;
  ly_inode : V (lo_inode L) = encode_inode d;
  ly_blocks : blocks d = part (lo_data L) 0 INDIRECT_BEGIN ++ [lo_ind L; lo_dbl L];
  ly_ind : INDIRECT_BEGIN < lo_n L → V (lo_ind L) = words_to_bytes (part (lo_data L) INDIRECT_BEGIN BLOCK_SLOTS);
  ly_no_ind : lo_n L ≤ INDIRECT_BEGIN → lo_ind L = BLOCK_ERROR;
  ly_dbl : DBL_INDIRECT_BEGIN < lo_n L → V (lo_dbl L) = words_to_bytes (part (lo_seg L) 0 BLOCK_SLOTS);
  ly_no_dbl : lo_n L ≤ DBL_INDIRECT_BEGIN → lo_dbl L = BLOCK_ERROR;
  ly_seg : ∀ j, filled L (RSeg j) →
    V (lo_seg L j) = words_to_bytes (part (lo_data L) (DBL_INDIRECT_BEGIN + BLOCK_SLOTS * j) BLOCK_SLOTS);
  ly_no_seg : ∀ j, 0 ≤ j → ¬ filled L (RSeg j) → lo_seg L j = BLOCK_ERROR;
  ly_no_data : ∀ k, lo_n L ≤ k → lo_data L k = BLOCK_ERROR;
  ly_u32 : ∀ k, 0 ≤ k → is_u32 (lo_data L k);
  ly_seg_u32 : ∀ j, 0 ≤ j → is_u32 (lo_seg L j);
}.

(** The sectors of the file are different sectors of the device, and marked in
    the free map. *)
Record placed (size : Z) (fm : bitmap) (L : layout) : Prop := {
  pl_apart : ∀ r r', filled L r → filled L r' → sec L r = sec L r' → r = r';
  pl_used : ∀ n, owned L n → 0 ≤ n < size ∧ bit fm n = true;
}.
Definition no_holes (L : layout) : Prop := ∀ k, 0 ≤ k < lo_n L → lo_data L k ≠ 0.

(** The contents of the file, byte by byte. *)
Definition byte (V : Z → list Z) (L : layout) (o : Z) : Z :=
  default 0 ((V (lo_data L (o `div` BLOCK_SECTOR_SIZE)))@[o `mod` BLOCK_SECTOR_SIZE]).

(** The sectors of sector numbers. *)
Definition is_meta (r : role) : Prop := match r with RData _ => False | _ => True end.

(** Only these matter for the layout. *)
Lemma laid_out_frame V V' d L : laid_out V d L → (∀ r, is_meta r → filled L r → V' (sec L r) = V (sec L r)) → laid_out V' d L.
Proof.
  intros [H1 H2 H3 H4 H5 H6 H7 H8 H9 H10 H11 H12 H13] HV. split; try done.
  - etransitivity; [by apply (HV RInode)|done].
  - intros Hn. etransitivity; [by apply (HV RInd)|by apply H5].
  - intros Hn. etransitivity; [by apply (HV RDbl)|by apply H7].
  - intros j Hj. etransitivity; [by apply (HV (RSeg j))|by apply H9].
Qed.

(** ** Changing one block *)

(** The sector that holds the number of block [k]. *)
Definition home (k : Z) : role :=
  if k <? INDIRECT_BEGIN then RInode
  else if k <? DBL_INDIRECT_BEGIN then RInd
  else RSeg ((k - DBL_INDIRECT_BEGIN) `div` BLOCK_SLOTS).
(** Block [k] is in sector [v]; if it is the one after the last it is added. *)
Definition with_data (L : layout) (k v : Z) : layout :=
  Layout (lo_inode L) (lo_ind L) (lo_dbl L) (lo_seg L) (supd (lo_data L) k v) (lo_n L `max` (k + 1)).
(** The inode of a layout. *)
Definition inode_of (d : inode_disk) (L : layout) : inode_disk :=
  set_blocks (part (lo_data L) 0 INDIRECT_BEGIN ++ [lo_ind L; lo_dbl L]) d.
(** What a sector of sector numbers holds. *)
Definition meta_bytes (d : inode_disk) (L : layout) (r : role) : list Z :=
  match r with
  | RInode => encode_inode d
  | RInd => words_to_bytes (part (lo_data L) INDIRECT_BEGIN BLOCK_SLOTS)
  | RDbl => words_to_bytes (part (lo_seg L) 0 BLOCK_SLOTS)
  | RSeg j => words_to_bytes (part (lo_data L) (DBL_INDIRECT_BEGIN + BLOCK_SLOTS * j) BLOCK_SLOTS)
  | RData _ => []
  end.

Ltac sizes := unfold MAX_FILE_SECTOR, DBL_INDIRECT_BEGIN, INDIRECT_BEGIN, DIRECT_BLK_LEN, BLOCK_SLOTS, BLOCKS_NUM, BLOCK_SECTOR_SIZE in *.

(** A layout is determined by what its sectors hold. *)
Lemma laid_out_meta V d L : laid_out V d L ↔
  disk_ok d ∧ 0 ≤ lo_n L ≤ MAX_FILE_SECTOR ∧ d = inode_of d L ∧
  (∀ r, is_meta r → filled L r → V (sec L r) = meta_bytes d L r) ∧
  (lo_n L ≤ INDIRECT_BEGIN → lo_ind L = BLOCK_ERROR) ∧ (lo_n L ≤ DBL_INDIRECT_BEGIN → lo_dbl L = BLOCK_ERROR) ∧
  (∀ j, 0 ≤ j → ¬ filled L (RSeg j) → lo_seg L j = BLOCK_ERROR) ∧ (∀ k, lo_n L ≤ k → lo_data L k = BLOCK_ERROR) ∧
  (∀ k, 0 ≤ k → is_u32 (lo_data L k)) ∧ (∀ j, 0 ≤ j → is_u32 (lo_seg L j)).
Proof.
  split.
  - intros [H1 H2 H3 H4 H5 H6 H7 H8 H9 H10 H11 H12 H13]. split_and!; try done; [lia..| |].
    + unfold inode_of, set_blocks. rewrite <-H4. by destruct d.
    + intros [] Hm Hf; simpl in *; auto; try done.
  - intros (H1 & H2 & H3 & H4 & H5 & H6 & H7 & H8 & H9 & H10). split; try done.
    + by apply (H4 RInode).
    + rewrite H3. done.
    + by apply (H4 RInd).
    + by apply (H4 RDbl).
    + intros j. by apply (H4 (RSeg j)).
Qed.
Lemma inode_of_idem d L L' : inode_of (inode_of d L) L' = inode_of d L'.
Proof. done. Qed.
Lemma inode_of_ok d L : disk_ok d → (∀ k, 0 ≤ k → is_u32 (lo_data L k)) → is_u32 (lo_ind L) → is_u32 (lo_dbl L) → disk_ok (inode_of d L).
Proof.
  intros [H1 H2 H3 _] Hd Hi Hb. split; [done..|]. simpl. split.
  - apply Forall_app. split; [apply part_u32; intros; apply Hd; lia|].
    apply Forall_cons_2; [done|]. apply Forall_cons_2; [done|]. apply Forall_nil_2.
  - rewrite zlen_app, zlen_part; done.
Qed.
Lemma error_u32 : is_u32 BLOCK_ERROR.
Proof. by vm_compute. Qed.
Lemma ind_u32 V d L : laid_out V d L → is_u32 (lo_ind L) ∧ is_u32 (lo_dbl L).
Proof.
  intros H. destruct (ly_disk _ _ _ H) as [_ _ _ [Hb _]]. rewrite (ly_blocks _ _ _ H) in Hb. apply Forall_app in Hb as [_ Hb].
  inversion Hb as [|? ? ? Hb']; subst. inversion Hb'; subst. done.
Qed.

Section with_data.
Context (V : Z → list Z) (d : inode_disk) (L : layout) (k v : Z).
Context (HL : laid_out V d L) (Hk : 0 ≤ k ≤ lo_n L) (Hmax : k < MAX_FILE_SECTOR) (Hv : is_u32 v) (Hhome : filled L (home k)).

(** No sector of sector numbers is added. *)
Lemma with_data_filled r : is_meta r → filled (with_data L k v) r ↔ filled L r.
Proof using Hk Hhome.
  intros Hm. revert Hhome. unfold home.
  destruct (Z.ltb_spec k INDIRECT_BEGIN); [|destruct (Z.ltb_spec k DBL_INDIRECT_BEGIN)]; simpl; intros Hh;
    destruct r as [| | |j|j]; simpl; try done; sizes; (lia || (Z.to_euclidean_division_equations; lia)).
Qed.
(** The other sectors of sector numbers are unaffected. *)
Lemma with_data_other r : is_meta r → r ≠ home k → r ≠ RInode → filled L r → meta_bytes (inode_of d (with_data L k v)) (with_data L k v) r = meta_bytes d L r.
Proof using Hk.
  unfold home. destruct r as [| | |j|j]; simpl; try done; intros _ Hr _ Hf.
  - f_equal. apply part_supd_out. sizes. intros ?. destruct (Z.ltb_spec k 123), (Z.ltb_spec k (123 + 128)); lia || done.
  - f_equal. apply part_supd_out. sizes. intros ?. destruct (Z.ltb_spec k 123), (Z.ltb_spec k (123 + 128)); try lia. apply Hr. f_equal.
    Z.to_euclidean_division_equations; lia.
Qed.
Lemma with_data_inode : home k ≠ RInode → inode_of d (with_data L k v) = d.
Proof using HL Hk.
  intros Hr. unfold home in Hr. destruct (Z.ltb_spec k INDIRECT_BEGIN); [done|]. apply laid_out_meta in HL as (_ & _ & Hd & _).
  rewrite Hd at 2. unfold inode_of. simpl. rewrite part_supd_out; [done|]. sizes. lia.
Qed.

Lemma with_data_laid V' : (∀ r, is_meta r → filled L r → r ≠ home k → V' (sec L r) = V (sec L r)) →
  V' (sec L (home k)) = meta_bytes (inode_of d (with_data L k v)) (with_data L k v) (home k) →
  laid_out V' (inode_of d (with_data L k v)) (with_data L k v).
Proof using HL Hk Hmax Hv Hhome.
  intros Hother Hnew. pose proof (ind_u32 _ _ _ HL) as [Hi Hb]. pose proof HL as (H1 & H2 & H3 & H4 & H5 & H6 & H7 & H8 & H9 & H10)%laid_out_meta.
  assert (∀ j, 0 ≤ j → is_u32 (lo_data (with_data L k v) j)) as Hu.
  { intros j Hj. simpl. unfold supd. destruct (j =? k); [done|by apply H9]. }
  apply laid_out_meta. split_and!.
  - by apply inode_of_ok.
  - simpl. lia.
  - simpl. lia.
  - by rewrite inode_of_idem.
  - intros r Hm Hf%with_data_filled; [|done]. replace (sec (with_data L k v) r) with (sec L r) by (by destruct r).
    destruct (decide (r = home k)) as [->|Hr]; [done|]. rewrite Hother by done. rewrite H4 by done. destruct (decide (r = RInode)) as [->|Hri].
    + simpl. f_equal. symmetry. by apply with_data_inode.
    + symmetry. by apply with_data_other.
  - simpl. intros Hn. apply H5. lia.
  - simpl. intros Hn. apply H6. lia.
  - intros j Hj Hno. simpl. apply H7; [done|]. intros Hf. apply Hno. by apply (with_data_filled (RSeg j)).
  - intros j Hj. simpl in *. unfold supd. destruct (Z.eqb_spec j k); [lia|]. apply H8. lia.
  - done.
  - done.
Qed.
End with_data.

(** ** Adding a sector of sector numbers *)

(** The first block that needs the indirect block, which is put in sector [m]. *)
Definition with_ind (L : layout) (m : Z) : layout :=
  Layout (lo_inode L) m (lo_dbl L) (lo_seg L) (supd (lo_data L) INDIRECT_BEGIN 0) (INDIRECT_BEGIN + 1).
(** The first block of segment [j] of the doubly indirect block, which is in
    sector [b]; the segment is put in sector [m]. *)
Definition with_seg (L : layout) (b j m : Z) : layout :=
  Layout (lo_inode L) (lo_ind L) b (supd (lo_seg L) j m) (supd (lo_data L) (lo_n L) 0) (lo_n L + 1).

Lemma supd_u32 D k v : (∀ j, 0 ≤ j → is_u32 (D j)) → is_u32 v → ∀ j, 0 ≤ j → is_u32 (supd D k v j).
Proof. intros HD Hv j Hj. unfold supd. destruct (j =? k); auto. Qed.
Lemma zero_u32 : is_u32 0.
Proof. by vm_compute. Qed.

Lemma with_ind_laid V V' d L m : laid_out V d L → lo_n L = INDIRECT_BEGIN → is_u32 m → let L' := with_ind L m in
  V' (lo_inode L) = encode_inode (inode_of d L') → V' m = meta_bytes d L' RInd → laid_out V' (inode_of d L') L'.
Proof.
  intros HL Hn Hm L' H1' H2'. subst L'. pose proof (ind_u32 _ _ _ HL) as [_ Hb]. apply laid_out_meta in HL as (H1 & H2 & H3 & H4 & H5 & H6 & H7 & H8 & H9 & H10).
  assert (∀ j, 0 ≤ j → is_u32 (lo_data (with_ind L m) j)) as Hu by (apply supd_u32; [done|apply zero_u32]).
  apply laid_out_meta. split_and!.
  - by apply inode_of_ok.
  - simpl. sizes. lia.
  - simpl. sizes. lia.
  - done.
  - intros [| | |j|k] Hmeta Hf; [exact H1'|exact H2'| | |done]; simpl in Hf; sizes; lia.
  - simpl. lia.
  - simpl. intros _. apply H6. rewrite Hn. sizes. lia.
  - intros j Hj Hno. apply H7; [done|]. simpl. rewrite Hn. sizes. lia.
  - intros k Hk. simpl in *. unfold supd. destruct (Z.eqb_spec k INDIRECT_BEGIN); [lia|]. apply H8. lia.
  - done.
  - done.
Qed.

Lemma with_seg_laid V V' d L b j m : laid_out V d L → 0 ≤ j < BLOCK_SLOTS → lo_n L = DBL_INDIRECT_BEGIN + BLOCK_SLOTS * j →
  is_u32 b → is_u32 m → let L' := with_seg L b j m in let d' := inode_of d L' in
  V' (lo_inode L) = encode_inode d' → V' b = meta_bytes d' L' RDbl → V' m = meta_bytes d' L' (RSeg j) →
  (∀ r, r = RInd ∨ (∃ i, r = RSeg i) → filled L r → V' (sec L r) = V (sec L r)) → laid_out V' d' L'.
Proof.
  intros HL Hj Hn Hb Hm L' d' Hi Hd Hs Hother. subst d' L'. pose proof (ind_u32 _ _ _ HL) as [Hi' _]. apply laid_out_meta in HL as (H1 & H2 & H3 & H4 & H5 & H6 & H7 & H8 & H9 & H10).
  assert (∀ k, 0 ≤ k → is_u32 (lo_data (with_seg L b j m) k)) as Hu by (apply supd_u32; [done|apply zero_u32]).
  apply laid_out_meta. split_and!.
  - by apply inode_of_ok.
  - simpl. lia.
  - simpl. rewrite Hn. sizes. lia.
  - done.
  - intros [| | |i|k] Hmeta Hf; [done| |done| |done].
    + simpl. etransitivity; [apply (Hother RInd); [by left|simpl; rewrite Hn; sizes; lia]|]. rewrite H4; [|done|simpl; rewrite Hn; sizes; lia].
      simpl. f_equal. symmetry. apply part_supd_out. rewrite Hn. sizes. lia.
    + simpl. unfold supd at 1. destruct (Z.eqb_spec i j) as [->|Hne]; [done|]. simpl in Hf.
      assert (filled L (RSeg i)) as Hfi by (simpl; rewrite Hn in *; sizes; lia).
      etransitivity; [apply (Hother (RSeg i)); [right; by eexists|done]|]. rewrite H4 by done. simpl. f_equal. symmetry. apply part_supd_out.
      simpl in Hfi. rewrite Hn in *. sizes. lia.
  - simpl. rewrite Hn. sizes. lia.
  - simpl. rewrite Hn. sizes. lia.
  - intros i Hi0 Hno. simpl in *. unfold supd. destruct (Z.eqb_spec i j) as [->|]; [rewrite Hn in Hno; sizes; lia|]. apply H7; [done|]. simpl. lia.
  - intros k Hk. simpl in *. unfold supd. destruct (Z.eqb_spec k (lo_n L)); [lia|]. apply H8. lia.
  - done.
  - simpl. by apply supd_u32.
Qed.

(** ** Staying apart *)

Lemma placed_mono size fm fm' L L' : placed size fm L → (∀ n, 0 ≤ n < size → bit fm n = true → bit fm' n = true) →
  (∀ r, filled L' r → (filled L r ∧ sec L' r = sec L r) ∨ (0 ≤ sec L' r < size ∧ bit fm (sec L' r) = false ∧ bit fm' (sec L' r) = true)) →
  (∀ r r', filled L' r → filled L' r' → bit fm (sec L' r) = false → sec L' r = sec L' r' → r = r') → placed size fm' L'.
Proof.
  intros [Hap Hus] Hmono Hr Hnew. split.
  - intros r r' Hf Hf' E. destruct (Hr r Hf) as [[Ho Es]|(_ & Hb & _)]; [|by apply Hnew].
    destruct (Hr r' Hf') as [[Ho' Es']|(_ & Hb' & _)]; [apply Hap; congruence|]. symmetry. by apply Hnew.
  - intros n (r & Hf & <-). destruct (Hr r Hf) as [[Ho ->]|(? & _ & ?)]; [|done].
    destruct (Hus (sec L r)) as [? ?]; [by exists r|]. split; [done|]. by apply Hmono.
Qed.

(** ** Where a block is *)

Section lookup.
Context (V : Z → list Z) (d : inode_disk) (L : layout) (HL : laid_out V d L).

Lemma read_inode : decode_inode (V (lo_inode L)) = d.
Proof using HL. rewrite (ly_inode _ _ _ HL). apply decode_encode, HL. Qed.
Lemma rd_direct k : 0 ≤ k < INDIRECT_BEGIN → rd (blocks d) k = Done (lo_data L k).
Proof using HL.
  intros Hk. apply rd_Some. rewrite (ly_blocks _ _ _ HL), zlookup_app, zlen_part by done. destruct (Z.ltb_spec k INDIRECT_BEGIN); [|lia].
  rewrite part_lookup by done. done.
Qed.
Lemma rd_ind : rd (blocks d) INDIRECT_BLK = Done (lo_ind L).
Proof using HL. apply rd_Some. rewrite (ly_blocks _ _ _ HL), zlookup_app, zlen_part by done. done. Qed.
Lemma rd_dbl : rd (blocks d) DBL_INDIRECT_BLK = Done (lo_dbl L).
Proof using HL. apply rd_Some. rewrite (ly_blocks _ _ _ HL), zlookup_app, zlen_part by done. done. Qed.
Lemma read_ind : INDIRECT_BEGIN < lo_n L → bytes_to_words (V (lo_ind L)) = part (lo_data L) INDIRECT_BEGIN BLOCK_SLOTS.
Proof using HL.
  intros Hn. rewrite (ly_ind _ _ _ HL Hn). apply bytes_to_words_to_bytes, part_u32. intros j Hj. apply HL. sizes. lia.
Qed.
Lemma read_dbl : DBL_INDIRECT_BEGIN < lo_n L → bytes_to_words (V (lo_dbl L)) = part (lo_seg L) 0 BLOCK_SLOTS.
Proof using HL.
  intros Hn. rewrite (ly_dbl _ _ _ HL Hn). apply bytes_to_words_to_bytes, part_u32. intros j Hj. apply HL. lia.
Qed.
Lemma read_seg j : filled L (RSeg j) → bytes_to_words (V (lo_seg L j)) = part (lo_data L) (DBL_INDIRECT_BEGIN + BLOCK_SLOTS * j) BLOCK_SLOTS.
Proof using HL.
  intros Hf. rewrite (ly_seg _ _ _ HL j Hf). apply bytes_to_words_to_bytes, part_u32. intros i Hi. apply HL. destruct Hf. sizes. lia.
Qed.
(** The entries of the inode are updated in place. *)
Lemma wr_direct k v : 0 ≤ k < INDIRECT_BEGIN → wr (blocks d) k v = Done (blocks (inode_of d (with_data L k v))).
Proof using HL.
  intros Hk. rewrite (ly_blocks _ _ _ HL). simpl. rewrite part_supd, Z.sub_0_r by (sizes; lia).
  rewrite wr_in by (rewrite zlen_app, zlen_part by done; change (zlen [lo_ind L; lo_dbl L]) with 2; lia).
  f_equal. apply array_ext; [rewrite zlen_app, !zlen_insert, zlen_app; done|]. intros j Hj.
  rewrite zlen_insert, zlen_app, zlen_part in Hj by done. rewrite zlookup_app, !zlookup_insert, zlookup_app, zlen_insert, zlen_app, zlen_part by done.
  change (zlen [lo_ind L; lo_dbl L]) with 2 in *. bool_cases; done || lia.
Qed.
Lemma wr_ind v : wr (blocks d) INDIRECT_BLK v = Done (part (lo_data L) 0 INDIRECT_BEGIN ++ [v; lo_dbl L]).
Proof using HL.
  rewrite (ly_blocks _ _ _ HL), wr_in by (rewrite zlen_app, zlen_part; done). f_equal.
Qed.
Lemma wr_dbl v : wr (blocks d) DBL_INDIRECT_BLK v = Done (part (lo_data L) 0 INDIRECT_BEGIN ++ [lo_ind L; v]).
Proof using HL.
  rewrite (ly_blocks _ _ _ HL), wr_in by (rewrite zlen_app, zlen_part; done). f_equal.
Qed.
End lookup.
