(* ===== verification/InodeSpec.v ===== *)
(** * Reading and writing files

    The theorems about [inode_read_at] and [inode_write_at], over any store of
    sectors: a file is what was written to it, across direct, indirect and
    doubly indirect blocks, and a write touches no other file. *)

From S2P Require Import Prelude KList Bitmap Cache Inode InodeLayout.

(** ** Lists of bytes *)


Lemma zlen_overwrite ofs src dst : 0 ≤ ofs → ofs + zlen src ≤ zlen dst → zlen (overwrite ofs src dst) = zlen dst.
Proof.
  intros H0 H1. unfold overwrite. replace (Z.to_nat ofs + length src)%nat with (Z.to_nat (ofs + zlen src)) by (unfold zlen; lia).
  pose proof (zlen_nonneg src). rewrite !zlen_app, zlen_take, zlen_drop by lia. lia.
Qed.
Lemma overwrite_lookup_grow ofs src dst j : 0 ≤ ofs ≤ zlen dst → 0 ≤ j →
  (overwrite ofs src dst)@[j] = if (ofs <=? j) && (j <? ofs + zlen src) then src@[j - ofs] else dst@[j].
Proof.
  intros H0 Hj. unfold overwrite. replace (Z.to_nat ofs + length src)%nat with (Z.to_nat (ofs + zlen src)) by (unfold zlen; lia).
  pose proof (zlen_nonneg src). rewrite !zlookup_app, zlen_take, zlookup_take by lia. rewrite Z.min_l by lia.
  destruct (Z.ltb_spec j ofs), (Z.leb_spec ofs j); try lia; [done|]. cbn [andb].
  destruct (Z.ltb_spec (j - ofs) (zlen src)), (Z.ltb_spec j (ofs + zlen src)); try lia; [done|].
  rewrite zlookup_drop by lia. f_equal. lia.
Qed.
Lemma overwrite_lookup ofs src dst j : 0 ≤ ofs → ofs + zlen src ≤ zlen dst → 0 ≤ j →
  (overwrite ofs src dst)@[j] = if (ofs <=? j) && (j <? ofs + zlen src) then src@[j - ofs] else dst@[j].
Proof. intros. pose proof (zlen_nonneg src). apply overwrite_lookup_grow; lia. Qed.
Lemma zlen_overwrite_grow ofs src dst : 0 ≤ ofs ≤ zlen dst → zlen (overwrite ofs src dst) = zlen dst `max` (ofs + zlen src).
Proof.
  intros H0. unfold overwrite. rewrite !zlen_app, zlen_take by lia. pose proof (zlen_nonneg src). unfold zlen in *. rewrite length_drop. lia.
Qed.
Lemma zlen_slice ofs n l : 0 ≤ ofs → 0 ≤ n → ofs + n ≤ zlen l → zlen (slice ofs n l) = n.
Proof. intros. unfold slice. rewrite zlen_take, zlen_drop by lia. lia. Qed.
Lemma slice_lookup ofs n l j : 0 ≤ ofs → 0 ≤ j < n → (slice ofs n l)@[j] = l@[ofs + j].
Proof. intros. unfold slice. rewrite zlookup_take, zlookup_drop by lia. destruct (Z.ltb_spec j n); [done|lia]. Qed.
Lemma slice_overwrite offset buffer bytes : 0 ≤ offset ≤ zlen bytes → slice offset (zlen buffer) (overwrite offset buffer bytes) = buffer.
Proof.
  intros Ho. unfold slice, overwrite. replace (Z.to_nat offset) with (length (take (Z.to_nat offset) bytes)) at 1 by (unfold zlen in *; rewrite length_take; lia).
  rewrite drop_app_length. unfold zlen. rewrite Nat2Z.id. by rewrite take_app_length.
Qed.
Lemma slice_overwrite_disjoint ofs n o src (dst : list Z) : 0 ≤ ofs → 0 ≤ n → 0 ≤ o → ofs + n ≤ zlen dst → o + zlen src ≤ zlen dst → ofs + n ≤ o ∨ o + zlen src ≤ ofs → slice ofs n (overwrite o src dst) = slice ofs n dst.
Proof.
  intros H0 Hn Ho Hl Hs Hd. apply array_ext; [by rewrite !zlen_slice by (rewrite ?zlen_overwrite; lia)|]. intros j Hj. rewrite zlen_slice in Hj by (rewrite ?zlen_overwrite; lia).
  rewrite !slice_lookup, overwrite_lookup by lia. destruct (Z.leb_spec o (ofs + j)), (Z.ltb_spec (ofs + j) (o + zlen src)); try lia; done.
Qed.
Lemma overwrite_sector ofs src dst : 0 ≤ ofs → ofs + zlen src ≤ BLOCK_SECTOR_SIZE → is_sector dst → Forall is_u8 src → is_sector (overwrite ofs src dst).
Proof.
  intros H0 H1 [Hl Hu] Hs. split; [by rewrite zlen_overwrite by lia|]. unfold overwrite. apply Forall_app. split; [by apply Forall_take|].
  apply Forall_app. split; [done|by apply Forall_drop].
Qed.
Lemma overwrite_all src dst : zlen src = zlen dst → overwrite 0 src dst = src.
Proof.
  intros E. unfold overwrite. rewrite take_0, drop_ge by (unfold zlen in E; lia). by rewrite app_nil_r.
Qed.

(** ** The store *)

Section spec.
Context {S : Type} `{!BlockStore S, !BlockStoreLaws S} (alloc : Z → bool) (Halloc : alloc BLOCK_SECTOR_SIZE = true).
Implicit Types (f : fs S) (L : layout).

Definition vw f : Z → list Z := store_view (store f).
Definition fsize f : Z := store_size (store f).

(** Only the store has changed; its contents are now [W]. *)
Record sees f f' (W : Z → list Z) : Prop := {
  se_map : free_map f' = free_map f;
  se_file : free_map_file f' = free_map_file f;
  se_open : open_inodes f' = open_inodes f;
  se_inodes : inodes f' = inodes f;
  se_store : store_ok (store f');
  se_size : fsize f' = fsize f;
  se_view : ∀ n, vw f' n = W n;
}.
Lemma sees_trans f f1 f2 W W' : sees f f1 W → sees f1 f2 W' → sees f f2 W'.
Proof using Type. intros [] []. split; congruence || done. Qed.
Lemma sees_ext f f' W W' : sees f f' W → (∀ n, W' n = W n) → sees f f' W'.
Proof using Type. intros [] HW. split; try done. intros n. by rewrite HW. Qed.
Lemma sees_refl f : store_ok (store f) → sees f f (vw f).
Proof using Type. by split. Qed.

Lemma run_read f n : store_ok (store f) → 0 ≤ n < fsize f → runs (on_store (bread n)) f (λ d f', d = vw f n ∧ sees f f' (vw f)).
Proof using BlockStoreLaws0.
  intros Hs Hn. pose proof (bread_law (store f) n Hs Hn) as H. unfold runs, on_store in *. destruct (bread n (store f)) as [[d s]| | |]; try done.
  destruct H as (-> & ? & ? & ?). by split.
Qed.
Lemma run_write f n d : store_ok (store f) → 0 ≤ n < fsize f → is_sector d → runs (on_store (bwrite n d)) f (λ _ f', sees f f' (supd (vw f) n d)).
Proof using BlockStoreLaws0.
  intros Hs Hn Hd. pose proof (bwrite_law (store f) n d Hs Hn Hd) as H. unfold runs, on_store in *. destruct (bwrite n d (store f)) as [[[] s]| | |]; try done.
  destruct H as (? & ? & ?). by split.
Qed.
Lemma vw_sector f n : store_ok (store f) → is_sector (vw f n).
Proof using BlockStoreLaws0. intros. by apply view_law. Qed.

Lemma run_need_buffer f (Q : unit → fs S → Prop) : Q tt f → runs (need_buffer alloc) f Q.
Proof using Halloc. intros HQ. unfold need_buffer. rewrite Halloc. by run. Qed.
Lemma run_inode_at f i x (Q : inode → fs S → Prop) : inodes f !! i = Some x → Q x f → runs (inode_at i) f Q.
Proof using Type. intros Hx HQ. unfold inode_at. apply runs_bind, runs_get. rewrite Hx. by run. Qed.

(** ** Finding a block *)

(** The inode at [i] is the open inode of the file laid out as [L] and [d] is
    the contents of its sector. *)
Record file_at f i (d : inode_disk) L (x : inode) : Prop := {
  fa_null : i ≠ NULL;
  fa_store : store_ok (store f);
  fa_inode : inodes f !! i = Some x;
  fa_sector : isector x = lo_inode L;
  fa_laid : laid_out (vw f) d L;
  fa_placed : placed (fsize f) (free_map f) L;
}.
Lemma fa_range f i d L x r : file_at f i d L x → filled L r → 0 ≤ sec L r < fsize f.
Proof using Type. intros Hf Hr. apply (pl_used _ _ _ (fa_placed _ _ _ _ _ Hf)). by exists r. Qed.
Lemma file_at_sees f f' i d L x W : file_at f i d L x → sees f f' W → (∀ r, is_meta r → filled L r → W (sec L r) = vw f (sec L r)) → file_at f' i d L x.
Proof using Type.
  intros [H1 H2 H3 H4 H5 H6] [E1 E2 E3 E4 E5 E6 E7] HW. split; [done|done|by rewrite E4|done| |].
  - eapply laid_out_frame; [done|]. intros r Hm Hr. rewrite E7. by apply HW.
  - by rewrite E1, E6.
Qed.

Lemma filled_not_error f L r : store_ok (store f) → placed (fsize f) (free_map f) L → filled L r → sec L r ≠ BLOCK_ERROR.
Proof using BlockStoreLaws0.
  intros Hs HP Hr E. destruct (pl_used _ _ _ HP (sec L r)) as [Hb _]; [by exists r|]. pose proof (size_law _ Hs). unfold BLOCK_ERROR, fsize in *. lia.
Qed.
Lemma pos_sector_eq pos : 0 ≤ pos < 2 ^ 31 → u32 (Z.quot pos BLOCK_SECTOR_SIZE) = pos `div` BLOCK_SECTOR_SIZE.
Proof using Type.
  intros Hp. sizes. rewrite Z.quot_div_nonneg by lia. apply u32_small. Z.to_euclidean_division_equations; lia.
Qed.

(** A block that is not a hole is found, or found to be missing. *)
Lemma segment_slot_present save f seg b idx D : store_ok (store f) → 0 ≤ seg < fsize f → bytes_to_words (vw f seg) = part D b BLOCK_SLOTS →
  0 ≤ idx < BLOCK_SLOTS → D (b + idx) ≠ 0 → runs (segment_slot alloc save seg idx) f (λ r f', r = D (b + idx) ∧ sees f f' (vw f)).
Proof using Halloc BlockStoreLaws0.
  intros Hs Hseg Hw Hidx Hnz. unfold segment_slot. apply runs_bind, run_need_buffer. apply runs_bind.
  eapply runs_mono; [by apply run_read|]. intros ? f' [-> Hf']. rewrite Hw, rd_part by done. run.
  destruct (Z.eqb_spec (D (b + idx)) 0); [done|]. by run.
Qed.
Lemma byte_to_sector_present save f i d L x pos : file_at f i d L x → 0 ≤ pos < MAX_FILE_SECTOR * BLOCK_SECTOR_SIZE →
  let k := pos `div` BLOCK_SECTOR_SIZE in lo_data L k ≠ 0 →
  runs (byte_to_sector alloc save i pos) f (λ r f', r = lo_data L k ∧ sees f f' (vw f)).
Proof using Halloc BlockStoreLaws0.
  intros Hf Hpos k Hnz. pose proof Hf as [Hnull Hs Hx Hsec HL HP]. unfold byte_to_sector. rewrite pos_sector_eq by (sizes; lia). fold k.
  assert (0 ≤ k < MAX_FILE_SECTOR) as Hk by (unfold k; sizes; Z.to_euclidean_division_equations; lia).
  apply runs_bind, runs_assert; [by destruct (Z.eqb_spec i NULL)|]. apply runs_bind, (run_inode_at _ _ x); [done|]. apply runs_bind, run_need_buffer.
  apply runs_bind. eapply runs_mono; [apply run_read; [done|rewrite Hsec; by apply (fa_range _ _ _ _ _ RInode Hf)]|].
  intros ? f1 [-> Hf1]. rewrite Hsec, (read_inode _ _ _ HL). pose proof (file_at_sees _ _ _ _ _ _ _ Hf Hf1 ltac:(done)) as Hf1'.
  assert (∀ (m : M (fs S) Z) (P : Z → Prop), runs m f1 (λ r f', P r ∧ sees f1 f' (vw f1)) → runs m f1 (λ r f', P r ∧ sees f f' (vw f))) as Hthen.
  { intros m P Hm. eapply runs_mono; [done|]. intros r f' [HP' Hs']. split; [done|]. eapply sees_trans; [done|]. eapply sees_ext; [done|].
    intros n. symmetry. apply Hf1. }
  apply Hthen. clear Hthen Hf Hs HL HP. destruct Hf1' as [_ Hs _ _ HL HP].
  destruct (Z.ltb_spec k INDIRECT_BEGIN) as [H1|H1].
  { rewrite (rd_direct _ _ _ HL) by lia. run. destruct (Z.eqb_spec (lo_data L k) 0); [done|]. run. split; [done|by apply sees_refl]. }
  destruct (Z.ltb_spec k DBL_INDIRECT_BEGIN) as [H2|H2].
  { rewrite (rd_ind _ _ _ HL). run. destruct (Z.eqb_spec (lo_ind L) BLOCK_ERROR) as [E|E]; simpl.
    - run. split; [|by apply sees_refl]. rewrite E. symmetry. apply HL. destruct (decide (lo_n L ≤ k)); [done|].
      by destruct (filled_not_error f1 L RInd Hs HP); [simpl; lia|].
    - assert (INDIRECT_BEGIN < lo_n L) as Hn by (destruct (decide (lo_n L ≤ INDIRECT_BEGIN)) as [Hle|]; [by destruct E; apply HL|lia]).
      replace (lo_data L k) with (lo_data L (INDIRECT_BEGIN + (k - INDIRECT_BEGIN))) in * by (f_equal; lia).
      apply segment_slot_present; [done| |by apply (read_ind _ _ _ HL)|sizes; lia|done].
      apply (pl_used _ _ _ HP). by exists RInd. }
  destruct (Z.ltb_spec k MAX_FILE_SECTOR) as [_|]; [|lia]. rewrite (rd_dbl _ _ _ HL). run.
  set (j := (k - DBL_INDIRECT_BEGIN) `div` BLOCK_SLOTS). set (o := (k - DBL_INDIRECT_BEGIN) `mod` BLOCK_SLOTS).
  assert (0 ≤ j < BLOCK_SLOTS ∧ 0 ≤ o < BLOCK_SLOTS ∧ k = DBL_INDIRECT_BEGIN + BLOCK_SLOTS * j + o) as (Hj & Ho & Ek)
    by (unfold j, o; sizes; Z.to_euclidean_division_equations; lia).
  destruct (Z.eqb_spec (lo_dbl L) BLOCK_ERROR) as [E|E]; simpl.
  { run. split; [|by apply sees_refl]. rewrite E. symmetry. apply HL. destruct (decide (lo_n L ≤ k)); [done|].
    by destruct (filled_not_error f1 L RDbl Hs HP); [simpl; lia|]. }
  assert (DBL_INDIRECT_BEGIN < lo_n L) as Hn by (destruct (decide (lo_n L ≤ DBL_INDIRECT_BEGIN)) as [Hle|]; [by destruct E; apply HL|lia]).
  apply runs_bind, run_need_buffer. apply runs_bind. eapply runs_mono; [apply run_read; [done|apply (pl_used _ _ _ HP); by exists RDbl]|].
  intros ? f2 [-> Hf2]. rewrite (read_dbl _ _ _ HL Hn), rd_part by done. run.
  change (0 + j) with j. destruct (Z.eqb_spec (lo_seg L j) BLOCK_ERROR) as [E2|E2]; simpl.
  { run. split; [|done]. rewrite E2. symmetry. apply HL. destruct (decide (lo_n L ≤ k)); [done|].
    by destruct (filled_not_error f1 L (RSeg j) Hs HP); [simpl; lia|]. }
  assert (filled L (RSeg j)) as Hr by (destruct (decide (DBL_INDIRECT_BEGIN + BLOCK_SLOTS * j < lo_n L)); [simpl; lia|destruct E2; apply HL; simpl; lia]).
  rewrite Ek in Hnz |- *. eapply runs_mono.
  - apply segment_slot_present; [apply Hf2| | |done|done].
    + rewrite (se_size _ _ _ Hf2). apply (pl_used _ _ _ HP). by exists (RSeg j).
    + rewrite (se_view _ _ _ Hf2). by apply (read_seg _ _ _ HL).
  - intros r f3 [-> Hf3]. split; [done|]. eapply sees_trans; [done|]. eapply sees_ext; [done|]. intros n. symmetry. apply Hf2.
Qed.

(** ** Reading *)

Definition file_bytes (V : Z → list Z) L (o n : Z) : list Z := byte V L <$> seqZ o n.
Lemma file_bytes_app V L o n m : 0 ≤ n → 0 ≤ m → file_bytes V L o (n + m) = file_bytes V L o n ++ file_bytes V L (o + n) m.
Proof using Type. clear. intros Hn Hm. unfold file_bytes. rewrite <-fmap_app. f_equal. by rewrite seqZ_app. Qed.
Lemma zlen_file_bytes V L o n : 0 ≤ n → zlen (file_bytes V L o n) = n.
Proof using Type. clear. intros. unfold zlen, file_bytes. rewrite length_fmap, length_seqZ. lia. Qed.
Lemma file_bytes_lookup V L o n j : 0 ≤ j < n → (file_bytes V L o n)@[j] = Some (byte V L (o + j)).
Proof using Type.
  clear. intros Hj. apply zlookup_Some. split; [lia|]. unfold file_bytes. rewrite list_lookup_fmap, lookup_seqZ_lt by lia. simpl. do 2 f_equal. lia.
Qed.
Lemma file_bytes_ext V V' L L' o n : (∀ k, o ≤ k < o + n → byte V L k = byte V' L' k) → file_bytes V L o n = file_bytes V' L' o n.
Proof using Type. clear. intros H. unfold file_bytes. apply list_fmap_ext. intros j y [-> Hi]%lookup_seqZ. apply H. lia. Qed.

(** A part of a sector of the file. *)
Lemma slice_bytes V L o c : is_sector (V (lo_data L (o `div` BLOCK_SECTOR_SIZE))) → 0 ≤ o → 0 ≤ c → o `mod` BLOCK_SECTOR_SIZE + c ≤ BLOCK_SECTOR_SIZE →
  slice (o `mod` BLOCK_SECTOR_SIZE) c (V (lo_data L (o `div` BLOCK_SECTOR_SIZE))) = file_bytes V L o c.
Proof using Type.
  clear. intros [Hl _] Ho Hc Hle. set (k := o `div` BLOCK_SECTOR_SIZE) in *. set (r := o `mod` BLOCK_SECTOR_SIZE) in *.
  assert (0 ≤ r ∧ o = BLOCK_SECTOR_SIZE * k + r) as [Hr Eo] by (unfold k, r; sizes; Z.to_euclidean_division_equations; lia).
  apply array_ext; unfold slice.
  - rewrite zlen_take, zlen_drop, zlen_file_bytes by (sizes; lia). sizes. lia.
  - intros j Hj. rewrite zlen_take, zlen_drop in Hj by (sizes; lia). rewrite zlookup_take, zlookup_drop by lia.
    destruct (Z.ltb_spec j c); [|lia]. rewrite file_bytes_lookup by lia. unfold byte.
    replace ((o + j) `div` BLOCK_SECTOR_SIZE) with k by (sizes; Z.to_euclidean_division_equations; lia).
    replace ((o + j) `mod` BLOCK_SECTOR_SIZE) with (r + j) by (sizes; Z.to_euclidean_division_equations; lia).
    destruct (zlookup_lt (V (lo_data L k)) (r + j)) as [z ->]; [sizes; lia|]. done.
Qed.
Lemma rem_mod o : 0 ≤ o → Z.rem o BLOCK_SECTOR_SIZE = o `mod` BLOCK_SECTOR_SIZE.
Proof using Type. clear. intros. apply Z.rem_mod_nonneg; sizes; lia. Qed.
Lemma chunk_eq size left room : chunk size left room = size `min` (left `min` room).
Proof using Type. clear. unfold chunk. destruct (Z.ltb_spec left room); [destruct (Z.ltb_spec size left)|destruct (Z.ltb_spec size room)]; lia. Qed.
Lemma slice_full l : is_sector l → slice 0 BLOCK_SECTOR_SIZE l = l.
Proof using Type. clear. intros [Hl _]. unfold slice. rewrite drop_0. apply take_ge. unfold zlen in Hl. sizes. lia. Qed.

Lemma read_loop_spec save i d L x : no_holes L → dlength (idata x) ≤ lo_n L * BLOCK_SECTOR_SIZE → dlength (idata x) < MAX_FILE_SECTOR * BLOCK_SECTOR_SIZE →
  ∀ fuel f size offset, file_at f i d L x → 0 ≤ offset < MAX_FILE_SECTOR * BLOCK_SECTOR_SIZE → 0 ≤ size < Z.of_nat fuel →
  runs (inode_read_loop alloc save fuel i size offset) f (λ r f',
    r = file_bytes (vw f) L offset (0 `max` (size `min` (dlength (idata x) - offset))) ∧ sees f f' (vw f)).
Proof using Halloc BlockStoreLaws0.
  intros Hdense Hlen Hmax. induction fuel as [|fuel IH]; intros f size offset Hf Ho Hs; [lia|]. cbn [inode_read_loop].
  set (len := dlength (idata x)) in *. set (k := offset `div` BLOCK_SECTOR_SIZE). set (r := offset `mod` BLOCK_SECTOR_SIZE).
  assert (0 ≤ k < MAX_FILE_SECTOR ∧ 0 ≤ r < BLOCK_SECTOR_SIZE ∧ offset = BLOCK_SECTOR_SIZE * k + r) as (Hk & Hr & Eo)
    by (unfold k, r; sizes; Z.to_euclidean_division_equations; lia).
  destruct (Z.ltb_spec 0 size) as [Hpos|]; [|run; replace size with 0 by lia; rewrite Z.max_l by lia; split; [done|apply sees_refl, Hf]].
  assert (lo_data L k ≠ 0) as Hnz.
  { destruct (decide (k < lo_n L)); [apply Hdense; lia|]. rewrite (ly_no_data _ _ _ (fa_laid _ _ _ _ _ Hf)) by lia. done. }
  apply runs_bind. eapply runs_mono; [by apply (byte_to_sector_present save f i d L x)|]. intros ? f1 [-> Hf1]. fold k. rewrite rem_mod by lia. fold r.
  pose proof (file_at_sees _ _ _ _ _ _ _ Hf Hf1 ltac:(done)) as Hf1'. pose proof (fa_placed _ _ _ _ _ Hf1') as HP1.
  destruct (Z.eqb_spec (lo_data L k) BLOCK_ERROR) as [E|E].
  { run. split; [|done]. assert (lo_n L ≤ k) as Hge.
    { destruct (decide (k < lo_n L)); [|lia]. by destruct (filled_not_error f1 L (RData k) (fa_store _ _ _ _ _ Hf1') HP1); [simpl; auto with lia|]. }
    rewrite Z.max_l by (sizes; lia). done. }
  assert (k < lo_n L) as Hkn by (destruct (decide (k < lo_n L)); [done|destruct E; apply (ly_no_data _ _ _ (fa_laid _ _ _ _ _ Hf)); lia]).
  apply runs_bind. unfold inode_length. apply runs_bind, (run_inode_at _ _ x); [apply Hf1'|]. run. fold len. rewrite chunk_eq.
  set (c := size `min` ((len - offset) `min` (BLOCK_SECTOR_SIZE - r))). destruct (Z.leb_spec c 0) as [Hc|Hc].
  { run. split; [|done]. rewrite Z.max_l by lia. done. }
  assert (filled L (RData k)) as Hfk by (simpl; auto with lia). pose proof (fa_range _ _ _ _ _ _ Hf1' Hfk) as Hrange. simpl in Hrange.
  assert (is_sector (vw f (lo_data L k))) as Hsec by (apply vw_sector, Hf).
  replace (0 `max` (size `min` (len - offset))) with (c + (0 `max` ((size - c) `min` (len - (offset + c))))) by lia.
  rewrite file_bytes_app by lia. rewrite <-(slice_bytes (vw f) L offset c) by (done || lia). fold k r.
  assert (∀ (g : fs S) (b : list Z), sees f g (vw f) → runs (rest ← inode_read_loop alloc save fuel i (size - c) (offset + c); mret (b ++ rest)) g
    (λ l f', l = b ++ file_bytes (vw f) L (offset + c) (0 `max` ((size - c) `min` (len - (offset + c)))) ∧ sees f f' (vw f))) as Hrest.
  { intros g b Hg. apply runs_bind. pose proof (file_at_sees _ _ _ _ _ _ _ Hf Hg ltac:(done)) as Hg'.
    eapply runs_mono; [apply (IH g); [done|lia|lia]|]. intros l f' [-> Hf']. run. split.
    - f_equal. apply file_bytes_ext. intros o _. unfold byte. by rewrite (se_view _ _ _ Hg).
    - eapply sees_trans; [done|]. eapply sees_ext; [done|]. intros n. symmetry. apply Hg. }
  destruct ((r =? 0) && (c =? BLOCK_SECTOR_SIZE)) eqn:Efull.
  - apply andb_true_iff in Efull as [E0%Z.eqb_eq Ec%Z.eqb_eq]. apply runs_bind. eapply runs_mono; [apply run_read; [apply Hf1'|done]|].
    intros ? f2 [-> Hf2]. rewrite E0, Ec, slice_full, (se_view _ _ _ Hf1) by done. rewrite <-Ec. apply Hrest.
    eapply sees_trans; [done|]. eapply sees_ext; [done|]. intros n. symmetry. apply Hf1.
  - rewrite Halloc. cbn [negb]. apply runs_bind. eapply runs_mono; [apply run_read; [apply Hf1'|done]|].
    intros ? f2 [-> Hf2]. rewrite (se_view _ _ _ Hf1). apply Hrest. eapply sees_trans; [done|]. eapply sees_ext; [done|]. intros n. symmetry. apply Hf1.
Qed.

(** ** Writing part of a sector *)

Lemma write_chunk_code f n r cs src (K0 K : M (fs S) Z) Q : zlen src = cs → store_ok (store f) → 0 ≤ n < fsize f → 0 ≤ r → r + zlen src ≤ BLOCK_SECTOR_SIZE → Forall is_u8 src →
  (∀ f', sees f f' (supd (vw f) n (overwrite r src (vw f n))) → runs K f' Q) →
  runs (if (r =? 0) && (cs =? BLOCK_SECTOR_SIZE) then on_store (bwrite n src);; K
        else if negb (alloc BLOCK_SECTOR_SIZE) then K0
        else bounce ← (if (0 <? r) || (cs <? BLOCK_SECTOR_SIZE - r) then on_store (bread n) else mret zeros);
             on_store (bwrite n (overwrite r src bounce));; K) f Q.
Proof using Halloc BlockStoreLaws0.
  intros <- Hs Hn Hr Hle Hu HK. pose proof (vw_sector f n Hs) as Hsec. destruct ((r =? 0) && (zlen src =? BLOCK_SECTOR_SIZE)) eqn:E.
  - apply andb_true_iff in E as [-> %Z.eqb_eq Ec%Z.eqb_eq]. apply runs_bind. rewrite overwrite_all in HK by (rewrite Ec; symmetry; apply Hsec).
    eapply runs_mono; [by apply run_write|]. intros [] f' Hf'. by apply HK.
  - rewrite Halloc. cbn [negb]. apply andb_false_iff in E. replace ((0 <? r) || (zlen src <? BLOCK_SECTOR_SIZE - r)) with true.
    2:{ symmetry. apply orb_true_iff. destruct E as [E%Z.eqb_neq|E%Z.eqb_neq]; rewrite !Z.ltb_lt; lia. }
    apply runs_bind. eapply runs_mono; [by apply run_read|]. intros ? f1 [-> Hf1]. apply runs_bind.
    eapply runs_mono; [apply run_write; [apply Hf1|by rewrite (se_size _ _ _ Hf1)|by apply overwrite_sector]|].
    intros [] f2 Hf2. apply HK. eapply sees_trans; [done|]. eapply sees_ext; [done|]. intros m. unfold supd. by rewrite (se_view _ _ _ Hf1).
Qed.

(** What it does to the contents of a file. *)
Lemma byte_after V L o src o' : (∀ r r', filled L r → filled L r' → sec L r = sec L r' → r = r') → is_sector (V (lo_data L (o `div` BLOCK_SECTOR_SIZE))) →
  0 ≤ o → o `mod` BLOCK_SECTOR_SIZE + zlen src ≤ BLOCK_SECTOR_SIZE → filled L (RData (o `div` BLOCK_SECTOR_SIZE)) →
  0 ≤ o' → filled L (RData (o' `div` BLOCK_SECTOR_SIZE)) →
  let n := lo_data L (o `div` BLOCK_SECTOR_SIZE) in
  byte (supd V n (overwrite (o `mod` BLOCK_SECTOR_SIZE) src (V n))) L o' =
    if (o <=? o') && (o' <? o + zlen src) then default 0 (src@[o' - o]) else byte V L o'.
Proof using Type.
  clear. intros Hap [Hl _] Ho Hle Hfo Ho' Hfo' n. unfold byte, supd. set (k := o `div` BLOCK_SECTOR_SIZE) in *. set (k' := o' `div` BLOCK_SECTOR_SIZE) in *.
  set (r := o `mod` BLOCK_SECTOR_SIZE) in *. set (r' := o' `mod` BLOCK_SECTOR_SIZE) in *.
  assert (0 ≤ r ∧ o = BLOCK_SECTOR_SIZE * k + r ∧ 0 ≤ r' < BLOCK_SECTOR_SIZE ∧ o' = BLOCK_SECTOR_SIZE * k' + r') as (Hr & Eo & Hr' & Eo')
    by (unfold k, k', r, r'; sizes; Z.to_euclidean_division_equations; lia).
  destruct (Z.eqb_spec (lo_data L k') n) as [E|E].
  - assert (RData k' = RData k) as [= Ek] by (by apply Hap). rewrite Ek in *. rewrite overwrite_lookup by (lia || (fold n in Hl; lia)).
    destruct (Z.leb_spec r r'), (Z.leb_spec o o'); try lia; [|done]. cbn [andb].
    destruct (Z.ltb_spec r' (r + zlen src)), (Z.ltb_spec o' (o + zlen src)); try lia; [|done]. do 2 f_equal. lia.
  - assert (k' ≠ k) as Hk by (by intros ->). destruct (Z.leb_spec o o'), (Z.ltb_spec o' (o + zlen src)); try done. sizes. lia.
Qed.

(** ** Files that can grow *)

(** [file_at] for a file without holes whose inode in memory is up to date. *)
Record file_ok f i (d : inode_disk) L (x : inode) : Prop := {
  fo_at : file_at f i d L x;
  fo_sync : idata x = d;
  fo_dense : no_holes L;
  fo_map : wf (free_map f) ∧ bit_cnt (free_map f) = fsize f;
}.
(** How a file system may change while the file laid out as [L] is written and
    grows to [L']: what else is in use is left alone, except for the sectors [R]. *)
Record grown (R : Z → Prop) i f L (x : inode) f' L' (x' : inode) : Prop := {
  gr_inode : lo_inode L' = lo_inode L;
  gr_n : lo_n L ≤ lo_n L';
  gr_data : ∀ k, 0 ≤ k < lo_n L → lo_data L' k = lo_data L k;
  gr_x : x' = set_idata (idata x') x;
  gr_marked : ∀ n, 0 ≤ n < fsize f → bit (free_map f) n = true → bit (free_map f') n = true;
  gr_frame : ∀ n, 0 ≤ n < fsize f → bit (free_map f) n = true → ¬ owned L n → ¬ R n → vw f' n = vw f n;
  gr_owned : ∀ n, owned L' n → owned L n ∨ 0 ≤ n < fsize f ∧ bit (free_map f) n = false;
  gr_others : ∀ j, j ≠ i → inodes f' !! j = inodes f !! j;
  gr_size : fsize f' = fsize f;
  gr_file : free_map_file f' = free_map_file f;
  gr_open : open_inodes f' = open_inodes f;
}.
Lemma grown_trans R i f L x f1 L1 x1 f2 L2 x2 : grown R i f L x f1 L1 x1 → grown R i f1 L1 x1 f2 L2 x2 → grown R i f L x f2 L2 x2.
Proof using Type.
  clear. intros [A1 A2 A3 A4 A5 A6 A7 A8 A9 A10 A11] [B1 B2 B3 B4 B5 B6 B7 B8 B9 B10 B11]. split; [congruence|lia| | | | | | |congruence..].
  - intros k Hk. rewrite B3 by lia. by apply A3.
  - rewrite B4, A4. done.
  - intros n Hn Hb. apply B5; [by rewrite A9|by apply A5].
  - intros n Hn Hb Hno HR. rewrite B6; [by apply A6|by rewrite A9|by apply A5| |done]. intros Ho%A7. destruct Ho as [|[_ Ho]]; [done|]. congruence.
  - intros n [Ho|[Hn Hb]]%B7; [by apply A7|]. right. rewrite A9 in Hn. split; [done|].
    destruct (bit (free_map f) n) eqn:E; [|done]. rewrite A5 in Hb by done. done.
  - intros j Hj. rewrite B8, A8 by done. done.
Qed.

Lemma grown_write R i f L x f' W : sees f f' W → (∀ n, ¬ owned L n → W n = vw f n) → grown R i f L x f' L x.
Proof using Type.
  intros [E1 E2 E3 E4 E5 E6 E7] HW. split; try done; try lia.
  - by destruct x.
  - intros n Hn Hb. by rewrite E1.
  - intros n Hn Hb Ho _. rewrite E7. by apply HW.
  - by left.
  - intros j _. by rewrite E4.
Qed.
(** The data of a file may change under it. *)
Lemma file_ok_write f f' i d L x n b : file_ok f i d L x → sees f f' (supd (vw f) n b) → (∃ k, filled L (RData k) ∧ lo_data L k = n) → file_ok f' i d L x.
Proof using Type.
  intros [Hf H2 H3 H4] Hs (k & Hk & <-). pose proof Hs as [E1 E2 E3 E4 E5 E6 E7]. split; [|done|done|by rewrite E1, E6].
  eapply file_at_sees; [done|done|]. intros r Hm Hr. unfold supd. destruct (Z.eqb_spec (sec L r) (lo_data L k)) as [E|]; [|done].
  assert (r = RData k) as -> by (by apply (pl_apart _ _ _ (fa_placed _ _ _ _ _ Hf))). done.
Qed.

(** Nothing but data of the file has changed. *)
Definition unmoved f (d : inode_disk) L (x : inode) f' d' L' x' : Prop :=
  d' = d ∧ L' = L ∧ x' = x ∧ free_map f' = free_map f ∧ ∀ n, ¬ owned L n → vw f' n = vw f n.

(** The branch of [inode_write_at] for a block that does not exist yet. *)
Definition add_block (save : M (fs S) bool) (i offset : Z) : M (fs S) (option Z) :=
  ok ← inode_expand_sector save i (u32 (Z.quot offset BLOCK_SECTOR_SIZE));
  if ok : bool then
    sector_idx ← byte_to_sector alloc save i offset;
    x ← inode_at i;
    d ← on_store (bread (isector x));
    set_inode i (set_idata (decode_inode d) x);;
    mret (Some sector_idx)
  else mret None.

Section loop.
(** [G]: the file can grow; [room f L c]: by [c] blocks at least. *)
Context (save : M (fs S) bool) (i : Z) (G : Prop) (R : Z → Prop) (room : fs S → layout → Z → Prop).
Context (room_write : ∀ f f' L c W, room f L c → sees f f' W → (∀ n, ¬ owned L n → W n = vw f n) → room f' L c).
Context (grow : G → ∀ f d L x c, file_ok f i d L x → room f L c → 0 < c → lo_n L < MAX_FILE_SECTOR →
  runs (add_block save i (lo_n L * BLOCK_SECTOR_SIZE)) f (λ r f', ∃ d' L' x', r = Some (lo_data L' (lo_n L)) ∧
    file_ok f' i d' L' x' ∧ room f' L' (c - 1) ∧ grown R i f L x f' L' x' ∧ lo_n L' = lo_n L + 1 ∧ dlength d' = dlength d ∧
    ∀ k, 0 ≤ k < lo_n L → vw f' (lo_data L k) = vw f (lo_data L k))).

(** The block at [offset] exists, or is added. *)
Lemma find_or_add f d L x c offset : file_ok f i d L x → room f L c → 0 ≤ offset ≤ lo_n L * BLOCK_SECTOR_SIZE →
  offset < MAX_FILE_SECTOR * BLOCK_SECTOR_SIZE → (offset = lo_n L * BLOCK_SECTOR_SIZE → G ∧ 0 < c) →
  let k := offset `div` BLOCK_SECTOR_SIZE in
  runs (sector_idx ← byte_to_sector alloc save i offset; if sector_idx =? BLOCK_ERROR then add_block save i offset else mret (Some sector_idx)) f
    (λ r f', ∃ d' L' x', r = Some (lo_data L' k) ∧ file_ok f' i d' L' x' ∧ room f' L' (c - (lo_n L' - lo_n L)) ∧ grown R i f L x f' L' x' ∧
      lo_n L' = lo_n L `max` (k + 1) ∧ dlength d' = dlength d ∧ (∀ j, 0 ≤ j < lo_n L → vw f' (lo_data L j) = vw f (lo_data L j)) ∧
      (lo_n L' = lo_n L → unmoved f d L x f' d' L' x')).
Proof using Halloc BlockStoreLaws0 room_write grow.
  intros Hf Hroom Ho Hmax HG k. pose proof (ly_n _ _ _ (fa_laid _ _ _ _ _ (fo_at _ _ _ _ _ Hf))) as Hn.
  assert (0 ≤ k ≤ lo_n L ∧ (k = lo_n L → offset = lo_n L * BLOCK_SECTOR_SIZE)) as [Hk Hko] by (unfold k; sizes; Z.to_euclidean_division_equations; lia).
  assert (lo_data L k ≠ 0) as Hnz.
  { destruct (decide (k < lo_n L)); [apply Hf; lia|]. rewrite (ly_no_data _ _ _ (fa_laid _ _ _ _ _ (fo_at _ _ _ _ _ Hf))) by lia. done. }
  apply runs_bind. eapply runs_mono; [by apply (byte_to_sector_present save f i d L x); [apply Hf|lia|]|].
  intros ? f1 [-> Hs1]. fold k. assert (∀ n, ¬ owned L n → vw f n = vw f n) as Hnone by done.
  assert (file_ok f1 i d L x) as Hf1.
  { split; [eapply file_at_sees; [apply Hf|done|done]|apply Hf|apply Hf|]. rewrite (se_map _ _ _ Hs1), (se_size _ _ _ Hs1). apply Hf. }
  pose proof (room_write f f1 L c _ Hroom Hs1 Hnone) as Hroom1. pose proof (grown_write R i f L x f1 _ Hs1 Hnone) as Hg1.
  destruct (decide (k < lo_n L)) as [Hlt|Hge].
  - destruct (Z.eqb_spec (lo_data L k) BLOCK_ERROR) as [E|E].
    { destruct (filled_not_error f1 L (RData k) (fa_store _ _ _ _ _ (fo_at _ _ _ _ _ Hf1)) (fa_placed _ _ _ _ _ (fo_at _ _ _ _ _ Hf1))); [|done].
      simpl. auto with lia. }
    run. exists d, L, x. rewrite Z.sub_diag, Z.sub_0_r. split_and!; [done..|lia|done| |].
    + intros j _. by rewrite (se_view _ _ _ Hs1).
    + intros _. split_and!; [done..|apply Hs1|]. intros n _. apply Hs1.
  - assert (k = lo_n L) as Ek by lia. rewrite Ek, (ly_no_data _ _ _ (fa_laid _ _ _ _ _ (fo_at _ _ _ _ _ Hf))) by lia. rewrite Z.eqb_refl.
    destruct (HG (Hko Ek)) as [HG' Hc]. rewrite (Hko Ek). eapply runs_mono; [apply (grow HG' f1 d L x c); [done..|sizes; lia]|].
    intros r f2 (d' & L' & x' & -> & Hf2 & Hroom2 & Hg2 & Hn' & Hlen' & Hkeep). exists d', L', x'. rewrite Hn'.
    replace (c - (lo_n L + 1 - lo_n L)) with (c - 1) by lia. split_and!; [done..|by eapply grown_trans|lia|done| |lia].
    intros j Hj. rewrite Hkeep by done. apply (se_view _ _ _ Hs1).
Qed.

(** The contents after [buffer] was written at [offset]. *)
Definition written_bytes (V : Z → list Z) L (V' : Z → list Z) L' (buffer : list Z) (offset : Z) : Prop := ∀ o,
  (offset ≤ o < offset + zlen buffer → byte V' L' o = default 0 (buffer@[o - offset])) ∧
  (0 ≤ o < lo_n L * BLOCK_SECTOR_SIZE → ¬ (offset ≤ o < offset + zlen buffer) → byte V' L' o = byte V L o).

Lemma same_blocks V V' L L' o : 0 ≤ o < lo_n L * BLOCK_SECTOR_SIZE → (∀ k, 0 ≤ k < lo_n L → lo_data L' k = lo_data L k) →
  (∀ k, 0 ≤ k < lo_n L → V' (lo_data L k) = V (lo_data L k)) → byte V' L' o = byte V L o.
Proof using Type.
  clear. intros Ho HL HV. unfold byte. rewrite HL, HV; [done|sizes; Z.to_euclidean_division_equations; lia..].
Qed.

Lemma write_loop_spec fuel : ∀ f d L x c buffer size offset, file_ok f i d L x → room f L c → zlen buffer = size → Forall is_u8 buffer →
  0 ≤ offset ≤ lo_n L * BLOCK_SECTOR_SIZE → offset + size ≤ dlength d → offset + size ≤ MAX_FILE_SECTOR * BLOCK_SECTOR_SIZE →
  (G ∨ offset + size ≤ lo_n L * BLOCK_SECTOR_SIZE) → offset + size - lo_n L * BLOCK_SECTOR_SIZE ≤ c * BLOCK_SECTOR_SIZE → size < Z.of_nat fuel →
  runs (inode_write_loop alloc save fuel i buffer size offset) f (λ r f', r = size ∧ ∃ d' L' x', file_ok f' i d' L' x' ∧
    room f' L' (c - (lo_n L' - lo_n L)) ∧ grown R i f L x f' L' x' ∧ dlength d' = dlength d ∧ offset + size ≤ lo_n L' * BLOCK_SECTOR_SIZE ∧
    (lo_n L' = lo_n L ∨ (lo_n L' - 1) * BLOCK_SECTOR_SIZE < offset + size) ∧ written_bytes (vw f) L (vw f') L' buffer offset ∧
    (lo_n L' = lo_n L → unmoved f d L x f' d' L' x')).
Proof using Halloc BlockStoreLaws0 room_write grow.
  induction fuel as [|fuel IH]; intros f d L x c buffer size offset Hf Hroom Hsize Hu Ho Hlen Hmax HG Hc Hfuel.
  { pose proof (zlen_nonneg buffer). lia. }
  cbn [inode_write_loop]. pose proof (zlen_nonneg buffer) as Hsz0. destruct (Z.ltb_spec 0 size) as [Hpos|Hz].
  2:{ run. assert (size = 0) as -> by lia. split; [done|]. exists d, L, x. split_and!; [done|by rewrite Z.sub_diag, Z.sub_0_r| |done|lia|by left| |done].
    - eapply grown_write; [apply sees_refl, Hf|done].
    - intros o. rewrite Hsize. split; [lia|done]. }
  rewrite rem_mod by lia. set (k := offset `div` BLOCK_SECTOR_SIZE). set (r := offset `mod` BLOCK_SECTOR_SIZE).
  assert (0 ≤ r < BLOCK_SECTOR_SIZE ∧ 0 ≤ k ∧ offset = k * BLOCK_SECTOR_SIZE + r) as (Hr & Hk & Eo) by (unfold k, r; sizes; Z.to_euclidean_division_equations; lia).
  assert (offset = lo_n L * BLOCK_SECTOR_SIZE → G ∧ 0 < c) as HGc by (intros E; split; [destruct HG; [done|lia]|sizes; lia]).
  pose proof (find_or_add f d L x c offset Hf Hroom Ho ltac:(lia) HGc) as Hfa. apply runs_bind_inv in Hfa.
  apply runs_bind. eapply runs_mono; [apply Hfa|]. clear Hfa HGc. intros s1 g1 Hs1. apply runs_bind.
  eapply runs_mono; [apply Hs1|]. clear s1 g1 Hs1. fold k.
  intros ? f1 (d1 & L1 & x1 & -> & Hf1 & Hroom1 & Hg1 & Hn1 & Hlen1 & Hkeep & Hsame1). apply runs_bind. unfold inode_length.
  apply runs_bind, (run_inode_at _ _ x1); [apply Hf1|]. run. rewrite (fo_sync _ _ _ _ _ Hf1), Hlen1, chunk_eq.
  set (cs := size `min` ((dlength d - offset) `min` (BLOCK_SECTOR_SIZE - r))). assert (0 < cs ≤ size ∧ r + cs ≤ BLOCK_SECTOR_SIZE ∧ (cs = size ∨ r + cs = BLOCK_SECTOR_SIZE)) as (Hcs & Hrc & Hend) by lia.
  destruct (Z.leb_spec cs 0) as [|_]; [lia|]. set (src := take (Z.to_nat cs) buffer).
  assert (zlen src = cs) as Esrc by (unfold src; rewrite zlen_take; lia). set (more := drop (Z.to_nat cs) buffer).
  assert (zlen more = size - cs) as Emore by (unfold more; rewrite zlen_drop; lia).
  assert (filled L1 (RData k)) as Hfk by (simpl; split; [lia|apply (fo_dense _ _ _ _ _ Hf1); lia]).
  pose proof (fo_at _ _ _ _ _ Hf1) as Hat1. pose proof (fa_placed _ _ _ _ _ Hat1) as HP1.
  apply write_chunk_code; [done|apply Hat1|by apply (fa_range _ _ _ _ _ _ Hat1 Hfk)|lia|lia|by apply Forall_take|].
  intros f2 Hs2. assert (∀ n, ¬ owned L1 n → supd (vw f1) (lo_data L1 k) (overwrite r src (vw f1 (lo_data L1 k))) n = vw f1 n) as Hout.
  { intros n Hno. unfold supd. destruct (Z.eqb_spec n (lo_data L1 k)) as [->|]; [|done]. destruct Hno. by exists (RData k). }
  assert (file_ok f2 i d1 L1 x1) as Hf2 by (eapply file_ok_write; eauto).
  apply runs_bind. eapply runs_mono.
  { apply (IH f2 d1 L1 x1 (c - (lo_n L1 - lo_n L)) more (size - cs) (offset + cs)); [done|by eapply room_write|done|by apply Forall_drop| |lia|lia| | |lia].
    - rewrite Hn1. sizes. lia.
    - destruct HG; [by left|right]. rewrite Hn1. sizes. lia.
    - rewrite Hn1. sizes. lia. }
  intros ? f3 (-> & d3 & L3 & x3 & Hf3 & Hroom3 & Hg3 & Hlen3 & Hn3 & Hn3' & Hb3 & Hsame3). run. split; [lia|]. exists d3, L3, x3.
  assert (grown R i f1 L1 x1 f2 L1 x1) as Hg2 by (by eapply grown_write).
  split_and!; [done| |by eapply grown_trans; [|eapply grown_trans]|lia|lia| | |].
  - by replace (c - (lo_n L3 - lo_n L)) with (c - (lo_n L1 - lo_n L) - (lo_n L3 - lo_n L1)) by lia.
  - destruct Hn3' as [->|]; [|right; lia]. rewrite Hn1. destruct (Z.max_spec (lo_n L) (k + 1)) as [[_ ->]|[_ ->]]; [right; lia|by left].
  - assert (∀ o, 0 ≤ o < lo_n L1 * BLOCK_SECTOR_SIZE → byte (vw f2) L1 o =
      if (offset <=? o) && (o <? offset + cs) then default 0 (src@[o - offset]) else byte (vw f1) L1 o) as Hb2.
    { intros o Hob. rewrite <-Esrc. etransitivity.
      - unfold byte. rewrite (se_view _ _ _ Hs2). apply (byte_after (vw f1) L1 offset src o); [apply HP1|apply vw_sector, Hat1|lia|fold r; lia|done|lia|].
        simpl. split; [sizes; Z.to_euclidean_division_equations; lia|]. apply (fo_dense _ _ _ _ _ Hf1). sizes. Z.to_euclidean_division_equations; lia.
      - done. }
    intros o. destruct (Hb3 o) as [Hin Hout3]. rewrite Emore in *. rewrite Hsize. split.
    + intros Hoo. destruct (decide (offset + cs ≤ o)) as [Hge|Hlt].
      * rewrite Hin by lia. unfold more. rewrite zlookup_drop by lia. do 2 f_equal. lia.
      * rewrite Hout3, Hb2 by (rewrite ?Hn1; sizes; lia). destruct (Z.leb_spec offset o), (Z.ltb_spec o (offset + cs)); try lia. cbn [andb].
        unfold src. rewrite zlookup_take. destruct (Z.ltb_spec (o - offset) cs); [done|lia].
    + intros Hob Hno. rewrite Hout3, Hb2 by (rewrite ?Hn1; sizes; lia).
      destruct (Z.leb_spec offset o), (Z.ltb_spec o (offset + cs)); try lia; cbn [andb];
        (apply same_blocks; [done|apply Hg1|apply Hkeep]).
  - intros E. pose proof (gr_n _ _ _ _ _ _ _ _ Hg3). destruct Hsame1 as (-> & -> & -> & Hm1 & Hv1); [lia|].
    destruct Hsame3 as (-> & -> & -> & Hm3 & Hv3); [done|]. split_and!; [done..|by rewrite Hm3, (se_map _ _ _ Hs2)|].
    intros n Hno. rewrite Hv3, (se_view _ _ _ Hs2), Hout, Hv1 by done. done.
Qed.
End loop.

(** ** Writing without growing *)

(** Writing back an inode that is up to date changes nothing. *)
Lemma write_inode_spec f i d L x : file_ok f i d L x → runs (write_inode i) f (λ _ f', sees f f' (vw f) ∧ file_ok f' i d L x).
Proof using BlockStoreLaws0.
  intros Hf. pose proof Hf as [Hat Hsync Hdense Hmap]. pose proof Hat as [Hnull Hs Hx Hsec HL HP]. unfold write_inode. apply runs_bind, (run_inode_at _ _ x); [done|].
  rewrite Hsync, Hsec. eapply runs_mono; [apply run_write; [done|by apply (fa_range _ _ _ _ _ RInode Hat)|apply encode_sector, HL]|].
  intros [] f' Hs'. assert (sees f f' (vw f)) as Hs2.
  { eapply sees_ext; [done|]. intros n. unfold supd. destruct (Z.eqb_spec n (lo_inode L)) as [->|]; [|done]. apply (ly_inode _ _ _ HL). }
  split; [done|]. split; [by eapply file_at_sees|done|done|]. rewrite (se_map _ _ _ Hs2), (se_size _ _ _ Hs2). done.
Qed.

Lemma write_fixed_spec save f i d L x buffer size offset : file_ok f i d L x → deny_write_cnt x = 0 → zlen buffer = size → Forall is_u8 buffer →
  0 ≤ offset → offset + size ≤ dlength d → offset + size ≤ lo_n L * BLOCK_SECTOR_SIZE →
  runs (inode_write_at alloc save i buffer size offset) f (λ r f', r = size ∧ file_ok f' i d L x ∧ sees f f' (vw f') ∧
    (∀ n, ¬ owned L n → vw f' n = vw f n) ∧ written_bytes (vw f) L (vw f') L buffer offset).
Proof using Halloc BlockStoreLaws0.
  intros Hf Hdeny Hsize Hu Ho Hlen Hn. pose proof (fo_at _ _ _ _ _ Hf) as Hat. pose proof (fa_inode _ _ _ _ _ Hat) as Hx. pose proof (zlen_nonneg buffer) as Hsz0.
  unfold inode_write_at. apply runs_bind, (run_inode_at _ _ x); [done|]. rewrite Hdeny, (fo_sync _ _ _ _ _ Hf). cbn [Z.eqb negb].
  destruct (Z.ltb_spec (dlength d) offset); [lia|]. apply runs_bind, runs_ret. apply runs_bind, (run_inode_at _ _ x); [done|]. rewrite (fo_sync _ _ _ _ _ Hf).
  destruct (Z.ltb_spec (dlength d) (offset + size)); [lia|]. apply runs_bind, runs_ret. apply runs_bind.
  pose proof (ly_n _ _ _ (fa_laid _ _ _ _ _ Hat)) as Hmax.
  eapply runs_mono; [apply (write_loop_spec save i False (λ _, False) (λ _ _ _, True) ltac:(done) ltac:(done) _ f d L x 0); try done; [lia|sizes; lia|by right|lia|lia]|].
  intros ? f1 (-> & d1 & L1 & x1 & Hf1 & _ & Hg1 & Hlen1 & Hn1 & Hn1' & Hb1 & Hsame).
  destruct Hsame as (-> & -> & -> & Hm1 & Hv1); [pose proof (gr_n _ _ _ _ _ _ _ _ Hg1); sizes; lia|].
  apply runs_bind. eapply runs_mono; [by apply write_inode_spec|]. intros [] f2 [Hs2 Hf2]. run. split_and!; [done..| | |].
  - eapply sees_ext; [eapply sees_trans; [|exact Hs2]|intros n; apply (se_view _ _ _ Hs2)]. split; [done|apply Hg1|apply Hg1| |apply Hf1|apply Hg1|done].
    apply map_eq. intros j. destruct (decide (j = i)) as [->|]; [|by apply Hg1]. by rewrite Hx, (fa_inode _ _ _ _ _ (fo_at _ _ _ _ _ Hf1)).
  - intros n Hno. rewrite (se_view _ _ _ Hs2). by apply Hv1.
  - intros o. destruct (Hb1 o) as [H1 H2]. assert (byte (vw f2) L o = byte (vw f1) L o) as -> by (unfold byte; by rewrite (se_view _ _ _ Hs2)). done.
Qed.

(** ** Saving the free map *)

(** The free map's file, if it is open, is laid out as [Lm] and has a bit for
    every sector. *)
Definition map_ok (Lm : layout) f : Prop :=
  match free_map_file f with
  | None => True
  | Some im => ∃ dm xm, file_ok f im dm Lm xm ∧ deny_write_cnt xm = 0 ∧
      byte_cnt (bit_cnt (free_map f)) ≤ dlength dm ∧ byte_cnt (bit_cnt (free_map f)) ≤ lo_n Lm * BLOCK_SECTOR_SIZE ∧
      zlen (bits (free_map f)) = elem_cnt (bit_cnt (free_map f))
  end.

(** The file holds the bits of the free map, as [bitmap_write] stores them. *)
Definition map_saved (Lm : layout) f : Prop :=
  ∀ o, 0 ≤ o < zlen (bitmap_write_data (free_map f)) → (bitmap_write_data (free_map f))@[o] = Some (byte (vw f) Lm o).

(** It stays so while the bits and the sectors of the file do. *)
Lemma map_saved_frame Lm f f' im : map_ok Lm f → free_map_file f = Some im → free_map f' = free_map f →
  (∀ n, owned Lm n → vw f' n = vw f n) → map_saved Lm f → map_saved Lm f'.
Proof using Type.
  intros Hm Hfile Hb Hv Hs o. unfold map_ok in Hm. rewrite Hfile in Hm. destruct Hm as (dm & xm & Hf & _ & _ & Hn & _). rewrite Hb. intros Ho.
  assert (zlen (bitmap_write_data (free_map f)) ≤ byte_cnt (bit_cnt (free_map f))) as Hl.
  { unfold bitmap_write_data, zlen. rewrite length_take. pose proof (Z.mod_pos_bound (4 * elem_cnt (bit_cnt (free_map f))) (2 ^ 32)) as Hp. unfold byte_cnt, u32 in *. lia. }
  rewrite (Hs o Ho). f_equal. symmetry. apply same_blocks; [lia|done|]. intros k Hk. apply Hv. exists (RData k). split; [|done].
  split; [done|]. by apply (fo_dense _ _ _ _ _ Hf).
Qed.

Lemma save_map_spec depth f im Lm : map_ok Lm f → free_map_file f = Some im →
  runs (save_map alloc (Datatypes.S depth)) f (λ ok f', ok = true ∧ sees f f' (vw f') ∧ (∀ n, ¬ owned Lm n → vw f' n = vw f n) ∧ map_ok Lm f' ∧ map_saved Lm f').
Proof using Halloc BlockStoreLaws0.
  intros Hm Hfile. unfold map_ok in Hm. rewrite Hfile in Hm. destruct Hm as (dm & xm & Hf & Hdeny & Hlen & Hn & Hbits).
  destruct (fo_map _ _ _ _ _ Hf) as [Hwf Hcnt]. cbn [save_map]. apply runs_bind, runs_get. rewrite Hfile. apply runs_bind.
  pose proof (byte_cnt_spec (free_map f) Hwf) as Hbc.
  eapply runs_mono; [apply (write_fixed_spec _ f im dm Lm xm); [done|done| | |lia|lia|lia]|].
  - rewrite write_data_exact by done. unfold zlen in *. rewrite length_words_to_bytes. lia.
  - rewrite write_data_exact by done. clear. induction (bits (free_map f)) as [|w ws IH]; [constructor|]. rewrite words_to_bytes_cons. apply Forall_app.
    split; [apply le_bytes_u8|done].
  - intros ? f1 (-> & Hf1 & Hs1 & Hout & Hwr). run. split_and!; [apply Z.eqb_refl|done|done| |].
    + unfold map_ok. rewrite (se_file _ _ _ Hs1), Hfile, (se_map _ _ _ Hs1). by exists dm, xm.
    + intros o. rewrite (se_map _ _ _ Hs1). intros Ho. destruct (Hwr o) as [Hin _]. rewrite Hin by lia. rewrite Z.sub_0_r.
      by destruct (zlookup_lt _ _ Ho) as [z ->].
Qed.
End spec.
