(* ===== verification/InodeGrow.v ===== *)
(** * Files that grow

    [inode_write_at] past the end of a file: sectors are taken from the free map,
    which is saved to its own file each time, and entered in the inode, the
    indirect block or a segment of the doubly indirect block. *)

From S2P Require Import Prelude KList Bitmap Cache Inode InodeLayout InodeSpec.

(** ** Counting free sectors *)

Definition free_cnt (b : bitmap) : Z := zlen (filter (λ j, bit b j = false) (seqZ 0 (bit_cnt b))).

Lemma free_cnt_pos b : 0 < free_cnt b → ∃ j, 0 ≤ j < bit_cnt b ∧ bit b j = false.
Proof.
  unfold free_cnt, zlen. intros H. destruct (filter (λ j, bit b j = false) (seqZ 0 (bit_cnt b))) as [|j l] eqn:E; [simpl in H; lia|].
  assert (j ∈ filter (λ j, bit b j = false) (seqZ 0 (bit_cnt b))) as [Hb Hj%elem_of_seqZ]%list_elem_of_filter by (rewrite E; set_solver).
  exists j. split; [lia|done].
Qed.
Lemma filter_pick (l : list Z) (P Q : Z → Prop) `{!∀ x, Decision (P x), !∀ x, Decision (Q x)} m : NoDup l → m ∈ l → Q m → ¬ P m →
  (∀ x, x ∈ l → x ≠ m → P x ↔ Q x) → zlen (filter P l) = zlen (filter Q l) - 1.
Proof.
  induction l as [|x l IH]; intros Hnd Hm HQ HP Hx; [by apply not_elem_of_nil in Hm|]. apply list.NoDup_cons in Hnd as [Hnin Hnd].
  rewrite !filter_cons. destruct (decide (x = m)) as [->|Hne].
  - rewrite decide_False, decide_True by done. rewrite zlen_cons, (filter_ext_in P Q); [lia|]. intros y Hy. apply Hx; [by right|]. by intros ->.
  - assert (m ∈ l) as Hml by (apply elem_of_cons in Hm as [|]; [congruence|done]).
    specialize (IH Hnd Hml HQ HP ltac:(intros y Hy; apply Hx; by right)). destruct (Hx x ltac:(by left) Hne) as [H1 H2].
    destruct (decide (P x)), (decide (Q x)); try tauto; rewrite ?zlen_cons; lia.
Qed.

Lemma not_bitmap_error b m : wf b → m < bit_cnt b → (m =? BITMAP_ERROR) = false.
Proof. intros Hwf Hm. apply Z.eqb_neq. pose proof (wf_cnt b Hwf). unfold BITMAP_ERROR, SIZE_MAX. lia. Qed.

Section grow.
Context {S : Type} `{!BlockStore S, !BlockStoreLaws S} (alloc : Z → bool) (Halloc : alloc BLOCK_SECTOR_SIZE = true) (depth : nat) (Lm : layout).
Implicit Types (f : fs S) (L : layout).
Abbreviation save := (save_map alloc (Datatypes.S depth) : M (fs S) bool).

#[local] Arguments save_map : simpl never.

(** The sector [m] has been taken from the free map. *)
Record allocated f (m : Z) f' : Prop := {
  al_fresh : 0 ≤ m < fsize f ∧ bit (free_map f) m = false;
  al_map : wf (free_map f') ∧ bit_cnt (free_map f') = bit_cnt (free_map f);
  al_bit : ∀ j, 0 ≤ j < fsize f → bit (free_map f') j = (j =? m) || bit (free_map f) j;
  al_cnt : free_cnt (free_map f') = free_cnt (free_map f) - 1;
  al_file : free_map_file f' = free_map_file f;
  al_open : open_inodes f' = open_inodes f;
  al_inodes : inodes f' = inodes f;
  al_store : store_ok (store f');
  al_size : fsize f' = fsize f;
  al_view : ∀ n, ¬ owned Lm n → vw f' n = vw f n;
  al_ok : map_ok Lm f';
  al_saved : free_map_file f ≠ None → map_saved Lm f';
}.

Lemma placed_marked L f f' : placed (fsize f) (free_map f) L → fsize f' = fsize f →
  (∀ j, 0 ≤ j < fsize f → bit (free_map f) j = true → bit (free_map f') j = true) → placed (fsize f') (free_map f') L.
Proof using Type.
  intros HP -> Hm. eapply placed_mono; [done|done|by left|]. intros r r' Hr Hr' Hb. destruct (pl_used _ _ _ HP (sec L r)) as [_ ?]; [by exists r|]. congruence.
Qed.

Lemma allocate_spec f : store_ok (store f) → wf (free_map f) → bit_cnt (free_map f) = fsize f → map_ok Lm f → 0 < free_cnt (free_map f) →
  runs (free_map_allocate save 1) f (λ r f', ∃ m, r = Some m ∧ allocated f m f').
Proof using Halloc BlockStoreLaws0.
  intros Hs Hwf Hcnt Hok Hfree. unfold free_map_allocate. apply runs_bind, runs_get. apply runs_bind, runs_lift.
  destruct (scan_and_flip_spec (free_map f) 0 1 false Hwf) as (m & b' & -> & Hcase); [pose proof (wf_cnt _ Hwf); lia|lia|]. simpl.
  destruct Hcase as [(H0 & H1 & Hrun & _ & Hup)|(_ & _ & Hno)].
  2:{ destruct (free_cnt_pos _ Hfree) as (j & Hj & Hbj). destruct (Hno j); [lia..|]. intros j' ?. replace j' with j by lia. done. }
  assert (bit (free_map f) m = false) as Hbm by (apply Hrun; lia).
  assert (∀ j, 0 ≤ j < fsize f → bit b' j = (j =? m) || bit (free_map f) j) as Hbit.
  { intros j Hj. rewrite (up_bit _ _ _ Hup) by lia. destruct (Z.leb_spec m j), (Z.ltb_spec j (m + 1)), (Z.eqb_spec j m); simpl; done || lia. }
  assert (free_cnt b' = free_cnt (free_map f) - 1) as Hfc.
  { unfold free_cnt. rewrite (up_cnt _ _ _ Hup). apply (filter_pick _ _ _ m); [apply NoDup_seqZ|apply elem_of_seqZ; lia|done| |].
    - rewrite Hbit, Z.eqb_refl by lia. done.
    - intros j Hj%elem_of_seqZ Hne. rewrite Hbit by lia. destruct (Z.eqb_spec j m); done. }
  apply runs_bind, runs_modify. assert (m < bit_cnt (free_map f)) as Hlt by (clear -H1; lia). pose proof (not_bitmap_error (free_map f) m Hwf Hlt) as Em. rewrite Em. cbn [negb andb].
  set (f1 := set_free_map b' f). assert (map_ok Lm f1) as Hok1.
  { unfold map_ok in *. simpl. destruct (free_map_file f) as [im|]; [|done]. destruct Hok as (dm & xm & [[A1 A2 A3 A4 A5 A6] A7 A8 A9] & B1 & B2 & B3 & B4).
    exists dm, xm. rewrite (up_cnt _ _ _ Hup), (up_len _ _ _ Hup). split_and!; [split|done..]; [split; try done|done|done|].
    - apply (placed_marked Lm f f1 A6); [done|]. intros j Hj Hb. simpl. rewrite Hbit, Hb by done. apply orb_true_r.
    - simpl. split; [apply Hup|]. rewrite (up_cnt _ _ _ Hup). done. }
  destruct (free_map_file f) as [im|] eqn:Hfile.
  - rewrite bool_decide_eq_true_2 by done. apply runs_bind. eapply runs_mono; [by apply (save_map_spec alloc Halloc depth f1 im Lm)|].
    intros ? f2 (-> & Hs2 & Hv2 & Hok2 & Hsv2). run. exists m. split; [done|]. pose proof Hs2 as [E1 E2 E3 E4 E5 E6 _].
    split; try done; [split; [lia|done]|by rewrite E1; split; [apply Hup|apply (up_cnt _ _ _ Hup)]|by rewrite E1|by rewrite E1].
  - rewrite bool_decide_eq_false_2 by (by intros []). run. exists m. split; [done|].
    split; try done; [split; [lia|done]|split; [apply Hup|apply (up_cnt _ _ _ Hup)]].
Qed.

(** ** Steps of a growing file *)

(** [i] is the inode of the file, [im] that of the free map's file, which is
    open. *)
Context (i im : Z) (Him : im ≠ i).

Record fs_ok f : Prop := {
  fk_store : store_ok (store f);
  fk_map : wf (free_map f) ∧ bit_cnt (free_map f) = fsize f;
  fk_file : free_map_file f = Some im;
  fk_ok : map_ok Lm f;
  fk_saved : map_saved Lm f;
}.
(** At most [c] sectors were taken; of the sectors in use only [T] and those of
    the free map's file were written. *)
Record evolves (c : Z) (T : Z → Prop) f f' : Prop := {
  ev_ok : fs_ok f';
  ev_size : fsize f' = fsize f;
  ev_marked : ∀ n, 0 ≤ n < fsize f → bit (free_map f) n = true → bit (free_map f') n = true;
  ev_frame : ∀ n, 0 ≤ n < fsize f → bit (free_map f) n = true → ¬ T n → ¬ owned Lm n → vw f' n = vw f n;
  ev_cnt : free_cnt (free_map f) - c ≤ free_cnt (free_map f');
  ev_open : open_inodes f' = open_inodes f;
  ev_others : ∀ j, j ≠ i → inodes f' !! j = inodes f !! j;
}.
Lemma evolves_trans c c' (T T' : Z → Prop) f f1 f2 : evolves c T f f1 → evolves c' T' f1 f2 →
  evolves (c + c') (λ n, T n ∨ T' n) f f2.
Proof using Type.
  clear Him. intros [A1 A2 A3 A4 A5 A6 A7] [B1 B2 B3 B4 B5 B6 B7]. split; [done|congruence| | |lia|congruence|].
  - intros n Hn Hb. apply B3; [by rewrite A2|by apply A3].
  - intros n Hn Hb HT HL. rewrite B4; [apply A4|rewrite A2; done|by apply A3| |]; tauto.
  - intros j Hj. rewrite B7, A7 by done. done.
Qed.
Lemma evolves_mono c c' (T T' : Z → Prop) f f' : evolves c T f f' → c ≤ c' →
  (∀ n, 0 ≤ n < fsize f → bit (free_map f) n = true → T n → T' n) → evolves c' T' f f'.
Proof using Type.
  clear Him. intros [A1 A2 A3 A4 A5 A6 A7] Hc HT. split; try done; [|lia]. intros n Hn Hb HT' HL. apply A4; try done. intros ?. by apply HT', HT.
Qed.
Lemma map_marked f n : fs_ok f → owned Lm n → 0 ≤ n < fsize f ∧ bit (free_map f) n = true.
Proof using Type.
  intros [_ _ Hfile Hok _] Ho. unfold map_ok in Hok. rewrite Hfile in Hok. destruct Hok as (dm & xm & Hf & _). by apply (pl_used _ _ _ (fa_placed _ _ _ _ _ (fo_at _ _ _ _ _ Hf))).
Qed.
Lemma fs_ok_write f f' W : fs_ok f → sees f f' W → (∀ n, owned Lm n → W n = vw f n) → fs_ok f'.
Proof using Type.
  intros [H1 H2 H3 H4 H5] Hs HW. pose proof Hs as [E1 E2 E3 E4 E5 E6 E7].
  split; [done|by rewrite E1, E6|by rewrite E2| |apply (map_saved_frame Lm f f' im); [done..| |done]; intros n Hn; rewrite E7; by apply HW].
  unfold map_ok in *. rewrite E2, H3 in *. destruct H4 as (dm & xm & [A1 A2 A3 A4] & B). exists dm, xm. rewrite E1. split; [|done].
  split; [|done|done|by rewrite E1, E6]. eapply file_at_sees; [done|done|]. intros r _ Hr. apply HW. by exists r.
Qed.
Lemma evolves_write f n b f' : fs_ok f → ¬ owned Lm n → sees f f' (supd (vw f) n b) → evolves 0 (λ j, j = n) f f'.
Proof using Type.
  intros Hf Hn Hs. pose proof Hs as [E1 E2 E3 E4 E5 E6 E7].
  assert (∀ j, j ≠ n → supd (vw f) n b j = vw f j) as Hne by (intros j Hj; unfold supd; destruct (Z.eqb_spec j n); done).
  split; [|done|by rewrite E1| |rewrite E1; lia|done|by rewrite E4].
  - eapply fs_ok_write; [done|done|]. intros j Hj. apply Hne. by intros ->.
  - intros j _ _ Hj _. rewrite E7. by apply Hne.
Qed.
Lemma evolves_read f f' : fs_ok f → sees f f' (vw f) → evolves 0 (λ _, False) f f'.
Proof using Type.
  intros Hf Hs. pose proof Hs as [E1 E2 E3 E4 E5 E6 E7]. split; [by eapply fs_ok_write|done|by rewrite E1|by intros; rewrite E7|rewrite E1; lia|done|by rewrite E4].
Qed.
Lemma evolves_alloc f m f' : fs_ok f → allocated f m f' → evolves 1 (λ _, False) f f'.
Proof using Type.
  intros [H1 H2 H3 H4 H5] [A1 A2 A3 A4 A5 A6 A7 A8 A9 A10 A11 A12]. split; [|done| |by intros; apply A10|lia|done|by rewrite A7].
  - split; [done|rewrite A9; destruct A2 as [? ->]; by split; [|apply H2]|by rewrite A5|done|apply A12; by rewrite H3].
  - intros n Hn Hb. rewrite A3, Hb by done. apply orb_true_r.
Qed.
Lemma evolves_inode f x : fs_ok f → evolves 0 (λ _, False) f (set_inodes (<[i := x]> (inodes f)) f).
Proof using Him.
  intros [H1 H2 H3 H4 H5]. split; try done; simpl; [|lia|intros j Hj; by rewrite lookup_insert_ne].
  split; try done. unfold map_ok in *. simpl. rewrite H3 in *. destruct H4 as (dm & xm & [[A1 A2 A3 A4 A5 A6] A7 A8 A9] & B). exists dm, xm.
  split; [|done]. split; try done. split; try done. simpl. by rewrite lookup_insert_ne.
Qed.

Definition fresh f m : Prop := 0 ≤ m < fsize f ∧ bit (free_map f) m = false.
Lemma fresh_u32 f m : store_ok (store f) → fresh f m → is_u32 m.
Proof using BlockStoreLaws0. intros Hs [Hm _]. pose proof (size_law _ Hs). unfold is_u32, fsize, NO_SECTOR in *. lia. Qed.
Lemma fresh_not_owned f L m : placed (fsize f) (free_map f) L → fresh f m → ¬ owned L m.
Proof using Type. intros HP [_ Hb] [_ Ho]%(pl_used _ _ _ HP). congruence. Qed.
Lemma fresh_not_map f m : fs_ok f → fresh f m → ¬ owned Lm m.
Proof using Type. intros Hf [_ Hb] Ho. destruct (map_marked f m Hf Ho) as [_ ?]. congruence. Qed.

Lemma alloc_zeros_spec f : fs_ok f → 0 < free_cnt (free_map f) → runs (inode_alloc_zeros save) f (λ r f', ∃ m, r = (m, m) ∧ fresh f m ∧
  evolves 1 (λ n, n = m) f f' ∧ bit (free_map f') m = true ∧ inodes f' = inodes f ∧ vw f' m = zeros).
Proof using Halloc BlockStoreLaws0.
  intros Hf Hfree. pose proof Hf as [H1 [H2 H2'] H3 H4 _]. unfold inode_alloc_zeros. apply runs_bind. eapply runs_mono; [by apply allocate_spec|].
  intros ? f1 (m & -> & Hal). pose proof (evolves_alloc f m f1 Hf Hal) as Hev. pose proof (ev_ok _ _ _ _ Hev) as Hf1.
  assert (fresh f m) as Hm by apply Hal. pose proof (fresh_not_map f m Hf Hm) as Hno.
  apply runs_bind. eapply runs_mono; [apply run_write; [apply Hal|rewrite (ev_size _ _ _ _ Hev); apply Hm|apply zero_sector]|].
  intros [] f2 Hs2. run. exists m. pose proof (evolves_write f1 m zeros f2 Hf1 Hno Hs2) as Hev2. split_and!; [done|done| | |by rewrite (se_inodes _ _ _ Hs2), (al_inodes _ _ _ Hal)|].
  - eapply evolves_mono; [by eapply evolves_trans|lia|]. simpl. intros n _ _. tauto.
  - rewrite (se_map _ _ _ Hs2), (al_bit _ _ _ Hal) by apply Hm. by rewrite Z.eqb_refl.
  - rewrite (se_view _ _ _ Hs2). unfold supd. by rewrite Z.eqb_refl.
Qed.

(** The roles [N] that are new to a layout are played by fresh sectors. *)
Definition extends f f' L L' : Prop := placed (fsize f') (free_map f') L' ∧ ∀ n, owned L' n → owned L n ∨ fresh f n.
Lemma extends_new f f' L L' (N : role → Prop) : placed (fsize f) (free_map f) L → fsize f' = fsize f →
  (∀ n, 0 ≤ n < fsize f → bit (free_map f) n = true → bit (free_map f') n = true) →
  (∀ r, filled L' r → filled L r ∧ sec L' r = sec L r ∨ N r) → (∀ r, N r → fresh f (sec L' r) ∧ bit (free_map f') (sec L' r) = true) →
  (∀ r r', N r → N r' → sec L' r = sec L' r' → r = r') → extends f f' L L'.
Proof using Type.
  clear Him Halloc alloc. intros HP Hsize Hmono Hcase HN Hap. unfold extends. rewrite Hsize. split.
  - eapply placed_mono; [exact HP|done| |].
    + intros r Hr. destruct (Hcase r Hr) as [|Hn]; [by left|]. destruct (HN r Hn) as [[? ?] ?]. by right.
    + intros r r' Hr Hr' Hb E. destruct (Hcase r Hr) as [[Ho Es]|Hn].
      * destruct (pl_used _ _ _ HP (sec L r)) as [_ Hb']; [by exists r|]. congruence.
      * destruct (Hcase r' Hr') as [[Ho Es]|Hn']; [|by apply Hap]. destruct (pl_used _ _ _ HP (sec L r')) as [_ Hb']; [by exists r'|]. congruence.
  - intros n (r & Hr & <-). destruct (Hcase r Hr) as [[Ho ->]|Hn]; [left; by exists r|right; by apply HN].
Qed.

(** A block added as a hole, or put in a fresh sector. *)
Lemma with_data_extends f f' L k v : placed (fsize f) (free_map f) L → fsize f' = fsize f → 0 ≤ k ≤ lo_n L → filled L (home k) →
  (∀ n, 0 ≤ n < fsize f → bit (free_map f) n = true → bit (free_map f') n = true) → (v = 0 ∨ fresh f v ∧ bit (free_map f') v = true) →
  extends f f' L (with_data L k v).
Proof using Type.
  clear Him Halloc i im alloc depth. intros HP Hsize Hk Hh Hmono Hv.
  apply (extends_new f f' L _ (λ r, r = RData k ∧ v ≠ 0)); [done..| | |by intros r r' [-> _] [-> _]].
  - intros r Hr. assert (is_meta r ∨ ¬ is_meta r) as [Hm|Hm] by (destruct r; simpl; tauto).
    + left. apply (with_data_filled L k v Hk Hh) in Hr; [|done]. split; [done|]. by destruct r.
    + destruct r as [| | |j|j]; simpl in Hm; try tauto. simpl in Hr |- *. unfold supd in *. destruct (Z.eqb_spec j k) as [E|E].
      * right. split; [by rewrite E|apply Hr].
      * left. split; [|done]. split; [lia|tauto].
  - intros r [-> Hnz]. simpl. unfold supd. rewrite Z.eqb_refl. by destruct Hv.
Qed.

(** ** Filling a hole *)

Definition meta L n : Prop := ∃ r, is_meta r ∧ filled L r ∧ sec L r = n.
Lemma home_meta k : is_meta (home k).
Proof using Type. clear. unfold home. by destruct (k <? INDIRECT_BEGIN), (k <? DBL_INDIRECT_BEGIN). Qed.
Lemma meta_sector d L r : disk_ok d → is_meta r → is_sector (meta_bytes d L r).
Proof using Type.
  clear. intros Hd Hr. destruct r; simpl; try done; [by apply encode_sector|apply words_sector, zlen_part; by vm_compute..].
Qed.
(** The file [L] and the free map's file have no sector in common. *)
Definition apart L : Prop := ∀ n, owned L n → ¬ owned Lm n.

(** What [byte_to_sector] has done when it has filled the hole [k]. *)
Definition hole_filled f (d : inode_disk) L (x : inode) (k m : Z) f' : Prop :=
  let L' := with_data L k m in
  fresh f m ∧ file_at f' i (inode_of d L') L' x ∧ evolves 1 (meta L) f f' ∧ inodes f' = inodes f ∧ vw f' m = zeros ∧
  ∀ n, owned L' n → owned L n ∨ fresh f n.

Lemma fill_write f d L x k m f1 : file_at f i d L x → apart L → fs_ok f → 0 ≤ k < lo_n L → filled L (home k) →
  fresh f m → evolves 1 (λ n, n = m) f f1 → bit (free_map f1) m = true → inodes f1 = inodes f → vw f1 m = zeros →
  let L' := with_data L k m in
  runs (on_store (bwrite (sec L (home k)) (meta_bytes (inode_of d L') L' (home k)))) f1 (λ _ f2, hole_filled f d L x k m f2).
Proof using BlockStoreLaws0.
  clear Him Halloc alloc depth. intros Hf Hap Hok Hk Hh Hm Hev Hb Hi Hz L'. pose proof Hf as [Hnull Hs Hx Hsec HL HP]. pose proof (fresh_u32 f m Hs Hm) as Hmu.
  pose proof (ly_n _ _ _ HL) as Hn. pose proof (fa_range _ _ _ _ _ _ Hf Hh) as Hrange. pose proof (ind_u32 _ _ _ HL) as [Hiu Hbu].
  assert (disk_ok (inode_of d L')) as Hd' by (apply inode_of_ok; [apply HL|apply supd_u32; [apply HL|done]|done|done]).
  eapply runs_mono; [apply run_write; [apply (ev_ok _ _ _ _ Hev)|by rewrite (ev_size _ _ _ _ Hev)|by apply meta_sector, home_meta]|].
  intros [] f2 Hs2. assert (∀ r, filled L r → sec L r ≠ m) as Hne by (intros r Hr E; destruct (fresh_not_owned f L m HP Hm); by exists r).
  assert (∀ r, filled L r → r ≠ home k → vw f2 (sec L r) = vw f (sec L r)) as Hother.
  { intros r Hr Hrh. rewrite (se_view _ _ _ Hs2). unfold supd. destruct (Z.eqb_spec (sec L r) (sec L (home k))) as [E|_].
    - by destruct Hrh; apply (pl_apart _ _ _ HP).
    - destruct (pl_used _ _ _ HP (sec L r)) as [? ?]; [by exists r|]. apply (ev_frame _ _ _ _ Hev); [done|done|by apply Hne|]. apply Hap. by exists r. }
  assert (evolves 0 (λ n, n = sec L (home k)) f1 f2) as Hev2.
  { eapply evolves_write; [apply Hev| |done]. apply Hap. by exists (home k). }
  assert (evolves 1 (meta L) f f2) as Hev3.
  { eapply evolves_mono; [by eapply evolves_trans|lia|]. simpl. intros n Hn' Hb' [-> | ->]; [destruct Hm; congruence|]. exists (home k). split; [apply home_meta|done]. }
  destruct (with_data_extends f f2 L k m HP (ev_size _ _ _ _ Hev3)) as [HP' Ho']; [lia|done|apply Hev3|right; split; [done|by rewrite (se_map _ _ _ Hs2)]|].
  split_and!; [done| |done|by rewrite (se_inodes _ _ _ Hs2)| |done].
  - split; [done|apply Hs2|by rewrite (se_inodes _ _ _ Hs2), Hi|done| |].
    + apply (with_data_laid (vw f)); [done|lia|lia|done|done|intros; by apply Hother|]. rewrite (se_view _ _ _ Hs2). unfold supd. by rewrite Z.eqb_refl.
    + done.
  - rewrite (se_view _ _ _ Hs2). unfold supd. destruct (Z.eqb_spec m (sec L (home k))) as [E|]; [|done]. by destruct (Hne (home k)).
Qed.

Lemma hole_filled_read f f1 d L x k m f2 : fs_ok f → sees f f1 (vw f) → hole_filled f1 d L x k m f2 → hole_filled f d L x k m f2.
Proof using Type.
  intros Hok Hs ([H1 H1'] & H2 & H3 & H4 & H5 & H6). pose proof (evolves_read f f1 Hok Hs) as Hev. unfold hole_filled, fresh.
  rewrite <-(se_map _ _ _ Hs), <-(se_size _ _ _ Hs), <-(se_inodes _ _ _ Hs). split_and!; try done; [lia..|].
  eapply evolves_mono; [by eapply evolves_trans|lia|]. simpl. tauto.
Qed.

Section hole.
Context (d : inode_disk) (L : layout) (x : inode) (k : Z).
Context (Hap : apart L) (Hk : 0 ≤ k < lo_n L) (Hhole : lo_data L k = 0).
Definition at_hole f : Prop := file_at f i d L x ∧ fs_ok f ∧ 0 < free_cnt (free_map f).
Lemma at_hole_read f f1 : at_hole f → sees f f1 (vw f) → at_hole f1.
Proof using Type.
  intros (Hf & Hok & Hc) Hs. split_and!; [by eapply file_at_sees|by apply (evolves_read f f1 Hok Hs)|by rewrite (se_map _ _ _ Hs)].
Qed.

Lemma segment_hole f b : at_hole f → filled L (home k) → bytes_to_words (vw f (sec L (home k))) = part (lo_data L) b BLOCK_SLOTS →
  (∀ m, meta_bytes (inode_of d (with_data L k m)) (with_data L k m) (home k) = words_to_bytes (part (supd (lo_data L) k m) b BLOCK_SLOTS)) →
  b ≤ k < b + BLOCK_SLOTS → runs (segment_slot alloc save (sec L (home k)) (k - b)) f (λ m f', hole_filled f d L x k m f').
Proof using Halloc BlockStoreLaws0 Hap Hk Hhole.
  intros Hat Hh Hw Hm Hb. pose proof Hat as (Hf & Hok & Hc). unfold segment_slot. apply runs_bind, run_need_buffer; [done|]. apply runs_bind.
  eapply runs_mono; [apply run_read; [apply Hf|by apply (fa_range _ _ _ _ _ _ Hf)]|]. intros ? f1 [-> Hs1]. rewrite Hw, rd_part by lia. run.
  replace (b + (k - b)) with k by lia. rewrite Hhole. cbn [Z.eqb]. destruct (at_hole_read f f1 Hat Hs1) as (Hf1 & Hok1 & Hc1).
  apply runs_bind. eapply runs_mono; [by apply alloc_zeros_spec|]. intros ? f2 (m & -> & Hfr & Hev & Hbit & Hino & Hz). cbv beta iota. rewrite wr_part by lia. run.
  replace (b + (k - b)) with k by lia. rewrite <-Hm. eapply runs_mono; [by apply (fill_write f1 d L x k m f2)|].
  intros [] f3 Hfill. run. by eapply hole_filled_read.
Qed.

Lemma byte_to_sector_hole f pos : at_hole f → k = pos `div` BLOCK_SECTOR_SIZE → 0 ≤ pos < MAX_FILE_SECTOR * BLOCK_SECTOR_SIZE →
  runs (byte_to_sector alloc save i pos) f (λ m f', hole_filled f d L x k m f').
Proof using Halloc BlockStoreLaws0 Hap Hk Hhole.
  intros Hat Ek Hpos. pose proof Hat as (Hf & Hok & Hc). pose proof Hf as [Hnull Hs Hx Hsec HL HP]. pose proof (ly_n _ _ _ HL) as Hn.
  unfold byte_to_sector. rewrite pos_sector_eq by (sizes; lia). rewrite <-Ek.
  apply runs_bind, runs_assert; [by destruct (Z.eqb_spec i NULL)|]. apply runs_bind, (run_inode_at _ _ x); [done|]. apply runs_bind, run_need_buffer; [done|].
  apply runs_bind. eapply runs_mono; [apply run_read; [done|rewrite Hsec; by apply (fa_range _ _ _ _ _ RInode Hf)]|].
  intros ? f1 [-> Hs1]. rewrite Hsec, (read_inode _ _ _ HL). pose proof (at_hole_read f f1 Hat Hs1) as Hat1.
  assert (∀ c : M (fs S) Z, runs c f1 (λ m f', hole_filled f1 d L x k m f') → runs c f1 (λ m f', hole_filled f d L x k m f')) as Hthen.
  { intros c Hcc. eapply runs_mono; [done|]. intros m f' Hm. by eapply hole_filled_read. }
  apply Hthen. clear Hthen Hf Hok Hc Hs HL HP. pose proof Hat1 as (Hf1 & Hok1 & Hc1). pose proof Hf1 as [_ Hs _ _ HL HP].
  destruct (Z.ltb_spec k INDIRECT_BEGIN) as [H1|H1].
  { rewrite (rd_direct _ _ _ HL) by lia. run. rewrite Hhole. cbn [Z.eqb]. apply runs_bind. eapply runs_mono; [by apply alloc_zeros_spec|].
    intros ? f2 (m & -> & Hfr & Hev & Hbit & Hino & Hz). cbv beta iota. rewrite (wr_direct _ _ _ HL) by lia. run.
    assert (home k = RInode) as Eh by (unfold home; by bool_cases). pose proof (fill_write f1 d L x k m f2) as Hw. rewrite Eh in Hw.
    eapply runs_mono; [by apply Hw|]. intros [] f3 Hfill. by run. }
  destruct (Z.ltb_spec k DBL_INDIRECT_BEGIN) as [H2|H2].
  { rewrite (rd_ind _ _ _ HL). run. assert (filled L RInd) as Hr by (simpl; lia). assert (home k = RInd) as Eh by (unfold home; by bool_cases).
    pose proof (filled_not_error f1 L RInd Hs HP Hr) as He. simpl in He. destruct (Z.eqb_spec (lo_ind L) BLOCK_ERROR); [done|]. simpl.
    pose proof (segment_hole f1 INDIRECT_BEGIN) as Hsg. rewrite Eh in Hsg. apply Hsg; [done|done|by apply (read_ind _ _ _ HL)|done|sizes; lia]. }
  destruct (Z.ltb_spec k MAX_FILE_SECTOR) as [_|]; [|lia]. rewrite (rd_dbl _ _ _ HL). run.
  set (j := (k - DBL_INDIRECT_BEGIN) `div` BLOCK_SLOTS). set (o := (k - DBL_INDIRECT_BEGIN) `mod` BLOCK_SLOTS).
  assert (0 ≤ j < BLOCK_SLOTS ∧ 0 ≤ o < BLOCK_SLOTS ∧ k = DBL_INDIRECT_BEGIN + BLOCK_SLOTS * j + o) as (Hj & Ho & Ek')
    by (unfold j, o; sizes; clear -H2 Hk Hn; Z.to_euclidean_division_equations; lia).
  assert (filled L RDbl) as Hr by (simpl; lia). pose proof (filled_not_error f1 L RDbl Hs HP Hr) as He. simpl in He.
  destruct (Z.eqb_spec (lo_dbl L) BLOCK_ERROR); [done|]. simpl. apply runs_bind, run_need_buffer; [done|]. apply runs_bind.
  eapply runs_mono; [apply run_read; [done|apply (pl_used _ _ _ HP); by exists RDbl]|].
  intros ? f2 [-> Hs2]. rewrite (read_dbl _ _ _ HL Hr), rd_part by done. run. change (0 + j) with j.
  assert (filled L (RSeg j)) as Hrj by (simpl; sizes; lia). pose proof (filled_not_error f1 L (RSeg j) Hs HP Hrj) as Hej. simpl in Hej.
  destruct (Z.eqb_spec (lo_seg L j) BLOCK_ERROR); [done|]. cbn [negb]. assert (home k = RSeg j) as Eh by (unfold home; by bool_cases).
  pose proof (segment_hole f2 (DBL_INDIRECT_BEGIN + BLOCK_SLOTS * j)) as Hsg. rewrite Eh in Hsg. replace o with (k - (DBL_INDIRECT_BEGIN + BLOCK_SLOTS * j)) by lia.
  eapply runs_mono; [apply Hsg; [by eapply at_hole_read|done| |done|lia]|].
  - simpl. rewrite (se_view _ _ _ Hs2). by apply (read_seg _ _ _ HL).
  - intros m f3 Hm. by eapply hole_filled_read.
Qed.
End hole.

(** ** Adding a block *)

Lemma no_blocks_part D b : (∀ j, 0 ≤ j < BLOCK_SLOTS → D (b + j) = BLOCK_ERROR) → no_blocks = part D b BLOCK_SLOTS.
Proof using Type.
  clear. intros HD. apply array_ext; [by rewrite zlen_part|]. intros j Hj. change (zlen no_blocks) with BLOCK_SLOTS in Hj. rewrite part_lookup, HD by done.
  apply zlookup_Some. split; [lia|]. unfold no_blocks. apply lookup_replicate. split; [done|]. sizes. lia.
Qed.
Lemma run_set_block f x k v l (Q : unit → fs S → Prop) : inodes f !! i = Some x → wr (blocks (idata x)) k v = Done l →
  Q tt (set_inodes (<[i := set_idata (set_blocks l (idata x)) x]> (inodes f)) f) → runs (set_block i k v) f Q.
Proof using Type. intros Hx Hl HQ. unfold set_block, set_inode. apply runs_bind, (run_inode_at _ _ x); [done|]. rewrite Hl. by run. Qed.
Lemma run_write_inode f x : store_ok (store f) → inodes f !! i = Some x → 0 ≤ isector x < fsize f → disk_ok (idata x) →
  runs (write_inode i) f (λ _ f', sees f f' (supd (vw f) (isector x) (encode_inode (idata x)))).
Proof using BlockStoreLaws0.
  intros Hs Hx Hr Hd. unfold write_inode. apply runs_bind, (run_inode_at _ _ x); [done|]. apply run_write; [done|done|by apply encode_sector].
Qed.
Lemma mark_hole_spec f seg D b idx : store_ok (store f) → 0 ≤ seg < fsize f → 0 ≤ idx < BLOCK_SLOTS → D (b + idx) = BLOCK_ERROR →
  runs (mark_hole seg idx (part D b BLOCK_SLOTS)) f (λ _ f', sees f f' (supd (vw f) seg (words_to_bytes (part (supd D (b + idx) 0) b BLOCK_SLOTS)))).
Proof using BlockStoreLaws0.
  intros Hs Hseg Hidx HD. unfold mark_hole. rewrite rd_part, HD by done. run. rewrite Z.eqb_refl, wr_part by done. run.
  apply run_write; [done|done|]. apply words_sector, zlen_part. by vm_compute.
Qed.

(** What [inode_expand_sector] has done when it has added a block as a hole. *)
Definition hole_added f (d : inode_disk) L (x : inode) f' d' L' : Prop :=
  file_at f' i d' L' (set_idata d' x) ∧ evolves 2 (meta L) f f' ∧ lo_n L' = lo_n L + 1 ∧
  (∀ k, lo_data L' k = supd (lo_data L) (lo_n L) 0 k) ∧ lo_inode L' = lo_inode L ∧ dlength d' = dlength d ∧
  (∀ n, owned L' n → owned L n ∨ fresh f n).

Section add.
Context (f : fs S) (d : inode_disk) (L : layout) (x : inode).
Context (Hf : file_at f i d L x) (Hsync : idata x = d) (Hok : fs_ok f) (Hap : apart L) (Hmax : lo_n L < MAX_FILE_SECTOR).

(** The sector of sector numbers exists. *)
Lemma add_in_place f' : let k := lo_n L in let L' := with_data L k 0 in let d' := inode_of d L' in
  filled L (home k) → evolves 0 (λ n, n = sec L (home k)) f f' → inodes f' !! i = Some (set_idata d' x) →
  vw f' (sec L (home k)) = meta_bytes d' L' (home k) → hole_added f d L x f' d' L'.
Proof using Hf Hap Hmax.
  clear Him Halloc alloc depth Hsync. intros k L' d' Hh Hev Hi Hv. pose proof Hf as [Hnull Hs Hx Hsec HL HP]. pose proof (ly_n _ _ _ HL) as Hn.
  destruct (with_data_extends f f' L k 0 HP) as [HP' Ho']; [apply Hev|lia|done|apply Hev|by left|].
  split_and!; [|eapply evolves_mono; [done|lia|]|simpl; lia|done|done|done|done].
  - split; [done|apply Hev|done|done| |done]. apply (with_data_laid (vw f)); [done|lia|lia|apply zero_u32|done| |done].
    intros r _ Hr Hne. destruct (pl_used _ _ _ HP (sec L r)) as [? ?]; [by exists r|].
    apply (ev_frame _ _ _ _ Hev); [done|done| |apply Hap; by exists r]. intros E. destruct Hne. by apply (pl_apart _ _ _ HP).
  - simpl. intros n _ _ ->. exists (home k). split; [apply home_meta|done].
Qed.

(** The inode in memory and on disk is changed to [d']. *)
Lemma inode_written f1 f2 d' : fs_ok f1 → fsize f1 = fsize f →
  sees (set_inodes (<[i := set_idata d' x]> (inodes f1)) f1) f2 (supd (vw f1) (lo_inode L) (encode_inode d')) →
  evolves 0 (λ n, n = lo_inode L) f1 f2 ∧ inodes f2 !! i = Some (set_idata d' x) ∧ vw f2 (lo_inode L) = encode_inode d'.
Proof using Him Hap.
  intros Hok1 Hsize Hs. pose proof (evolves_inode f1 (set_idata d' x) Hok1) as Hev. split_and!.
  - eapply evolves_mono; [eapply evolves_trans; [done|eapply evolves_write; [apply Hev| |done]]|lia|simpl; tauto]. apply Hap. by exists RInode.
  - rewrite (se_inodes _ _ _ Hs). simpl. apply lookup_insert_eq.
  - rewrite (se_view _ _ _ Hs). unfold supd. by rewrite Z.eqb_refl.
Qed.
Lemma new_disk_ok a b : is_u32 a → is_u32 b → disk_ok (set_blocks (part (lo_data L) 0 INDIRECT_BEGIN ++ [a; b]) d).
Proof using Hf.
  clear Halloc Him. intros Ha Hb. apply (inode_of_ok d (Layout 0 a b (λ _, 0) (lo_data L) 0)); try done; apply Hf.
Qed.

Lemma expand_direct : lo_n L < INDIRECT_BEGIN → runs (inode_expand_sector save i (lo_n L)) f (λ r f', r = true ∧ ∃ d' L', hole_added f d L x f' d' L').
Proof using Hf Hsync Hok Hap Hmax Him BlockStoreLaws0.
  intros Hk. pose proof Hf as [Hnull Hs Hx Hsec HL HP]. pose proof (ly_n _ _ _ HL) as Hn. unfold inode_expand_sector.
  apply runs_bind, runs_assert; [by destruct (Z.eqb_spec i NULL)|]. apply runs_bind, (run_inode_at _ _ x); [done|]. destruct (Z.ltb_spec (lo_n L) INDIRECT_BEGIN); [|lia].
  rewrite Hsync, (rd_direct _ _ _ HL) by lia. run. rewrite (ly_no_data _ _ _ HL), Z.eqb_refl by lia.
  set (L' := with_data L (lo_n L) 0). assert (home (lo_n L) = RInode) as Eh by (unfold home; by bool_cases).
  assert (disk_ok (inode_of d L')) as Hd'.
  { apply inode_of_ok; [apply HL|apply supd_u32; [apply HL|apply zero_u32]|apply (ind_u32 _ _ _ HL)..]. }
  eapply run_set_block; [done|rewrite Hsync; apply (wr_direct _ _ _ HL); lia|]. rewrite Hsync. change (set_blocks (blocks (inode_of d L')) d) with (inode_of d L').
  apply runs_bind. eapply runs_mono; [apply run_write_inode; [done|simpl; apply lookup_insert_eq|simpl; rewrite Hsec; by apply (fa_range _ _ _ _ _ RInode Hf)|done]|].
  simpl. rewrite Hsec. intros [] f' Hs'. run. split; [done|]. exists (inode_of d L'), L'. destruct (inode_written f f' _ Hok eq_refl Hs') as (Hev & Hi & Hv).
  apply add_in_place; rewrite ?Eh; done.
Qed.

(** In the indirect block, or a segment of the doubly indirect block, that
    already exists. *)
Lemma expand_segment f1 k b : k = lo_n L → sees f f1 (vw f) → filled L (home k) → home k ≠ RInode → b ≤ k < b + BLOCK_SLOTS →
  (∀ L' d', meta_bytes d' L' (home k) = words_to_bytes (part (lo_data L') b BLOCK_SLOTS)) →
  runs (mark_hole (sec L (home k)) (k - b) (part (lo_data L) b BLOCK_SLOTS);; mret true) f1 (λ r f', r = true ∧ ∃ d' L', hole_added f d L x f' d' L').
Proof using Hf Hsync Hok Hap Hmax Him BlockStoreLaws0.
  intros Ek Hs1 Hh Hne Hb Hm. pose proof Hf as [Hnull Hs Hx Hsec HL HP]. pose proof (ly_n _ _ _ HL) as Hn. pose proof (evolves_read f f1 Hok Hs1) as Hev1.
  apply runs_bind. eapply runs_mono.
  { apply mark_hole_spec; [apply Hs1|rewrite (se_size _ _ _ Hs1); by apply (fa_range _ _ _ _ _ _ Hf)|lia|]. replace (b + (k - b)) with k by lia. apply HL. lia. }
  intros [] f2 Hs2. run. split; [done|]. replace (b + (k - b)) with k in Hs2 by lia. set (L' := with_data L k 0). exists (inode_of d L'), L'. subst k.
  assert (inode_of d L' = d) as Ed by (apply (with_data_inode (vw f)); [done|lia|done]).
  apply add_in_place; [done| | |].
  - eapply evolves_mono; [eapply evolves_trans; [done|eapply evolves_write; [apply Hev1| |done]]|lia|simpl; tauto]. apply Hap. by exists (home (lo_n L)).
  - fold L'. rewrite Ed, (se_inodes _ _ _ Hs2), (se_inodes _ _ _ Hs1), Hx. rewrite <-Hsync. by destruct x.
  - rewrite Hm, (se_view _ _ _ Hs2). unfold supd at 1. by rewrite Z.eqb_refl.
Qed.

Lemma open_new g put (Q : option (Z * list Z) → fs S → Prop) : fs_ok g → 0 < free_cnt (free_map g) →
  (∀ m g', allocated g m g' → runs (put m) g' (λ _ g'', Q (Some (m, no_blocks)) g'')) → runs (open_segment save BLOCK_ERROR put) g Q.
Proof using Halloc BlockStoreLaws0.
  clear Hap Him Hf Hsync. intros [H1 [H2 H2'] H3 H4] Hc HQ. unfold open_segment. rewrite Z.eqb_refl. cbn [negb]. apply runs_bind.
  eapply runs_mono; [by apply allocate_spec|]. intros ? g' (m & -> & Hal). run. eapply runs_mono; [by apply HQ|]. intros [] g'' HQ'. by run.
Qed.
(** A new sector [m] is entered in the inode. *)
Lemma put_new_sector pos m l f1 : allocated f m f1 → wr (blocks d) pos m = Done l → disk_ok (set_blocks l d) →
  runs (set_block i pos m;; write_inode i) f1 (λ _ f2, evolves 1 (λ n, n = lo_inode L) f f2 ∧
    inodes f2 !! i = Some (set_idata (set_blocks l d) x) ∧ vw f2 (lo_inode L) = encode_inode (set_blocks l d) ∧ bit (free_map f2) m = true).
Proof using Hf Hsync Hok Hap Him BlockStoreLaws0.
  intros Hal Hl Hd. pose proof Hf as [Hnull Hs Hx Hsec HL HP]. pose proof (fa_range _ _ _ _ _ RInode Hf I) as Hri. simpl in Hri.
  pose proof (evolves_alloc f m f1 Hok Hal) as Hev1. apply runs_bind. eapply run_set_block; [rewrite (al_inodes _ _ _ Hal); done|by rewrite Hsync|]. rewrite Hsync.
  eapply runs_mono; [apply run_write_inode; [apply Hal|simpl; apply lookup_insert_eq|simpl; rewrite Hsec; change (0 ≤ lo_inode L < fsize f1); by rewrite (al_size _ _ _ Hal)|done]|].
  simpl. rewrite Hsec. intros [] f2 Hs2. destruct (inode_written f1 f2 _ (ev_ok _ _ _ _ Hev1) (al_size _ _ _ Hal) Hs2) as (Hev2 & Hi2 & Hv2).
  split_and!; [|done|done|].
  - eapply evolves_mono; [by eapply evolves_trans|lia|simpl; tauto].
  - rewrite (se_map _ _ _ Hs2). simpl. rewrite (al_bit _ _ _ Hal), Z.eqb_refl by apply Hal. done.
Qed.

Lemma expand_ind : lo_n L = INDIRECT_BEGIN → 0 < free_cnt (free_map f) →
  runs (inode_expand_sector save i (lo_n L)) f (λ r f', r = true ∧ ∃ d' L', hole_added f d L x f' d' L').
Proof using Halloc Hf Hsync Hok Hap Hmax Him BlockStoreLaws0.
  intros Hk Hc. pose proof Hf as [Hnull Hs Hx Hsec HL HP]. unfold inode_expand_sector.
  apply runs_bind, runs_assert; [by destruct (Z.eqb_spec i NULL)|]. apply runs_bind, (run_inode_at _ _ x); [done|]. rewrite Hk.
  change (INDIRECT_BEGIN <? INDIRECT_BEGIN) with false. change (INDIRECT_BEGIN <? DBL_INDIRECT_BEGIN) with true. cbv iota.
  rewrite Hsync, (rd_ind _ _ _ HL), (ly_no_ind _ _ _ HL) by lia. run. apply open_new; [done|done|]. intros m f1 Hal.
  assert (fresh f m) as Hm by apply Hal. pose proof (fresh_u32 f m Hs Hm) as Hmu.
  pose proof (fresh_not_map f m Hok Hm) as Hno. pose proof (fresh_not_owned f L m HP Hm) as HnoL.
  set (L' := with_ind L m). assert (inode_of d L' = set_blocks (part (lo_data L) 0 INDIRECT_BEGIN ++ [m; lo_dbl L]) d) as Ed'.
  { unfold inode_of, L'. simpl. rewrite part_supd_out; [done|sizes; clear; lia]. }
  eapply runs_mono; [apply (put_new_sector INDIRECT_BLK m _ f1 Hal (wr_ind _ _ _ HL m)), new_disk_ok; [done|apply (ind_u32 _ _ _ HL)]|].
  rewrite <-Ed'. intros [] f2 (Hev2 & Hi2 & Hv2 & Hb2). rewrite (no_blocks_part (lo_data L) INDIRECT_BEGIN) by (intros j Hj; apply HL; lia). apply runs_bind.
  eapply runs_mono; [apply (mark_hole_spec f2 m _ INDIRECT_BEGIN 0); [apply (ev_ok _ _ _ _ Hev2)|rewrite (ev_size _ _ _ _ Hev2); apply Hm|done|apply HL; rewrite Hk; done]|].
  intros [] f3 Hs3. run. split; [done|]. exists (inode_of d L'), L'. rewrite Z.add_0_r in Hs3.
  pose proof (evolves_write f2 m _ f3 (ev_ok _ _ _ _ Hev2) Hno Hs3) as Hev3.
  assert (evolves 2 (meta L) f f3) as Hev.
  { eapply evolves_mono; [eapply evolves_trans; [exact Hev2|exact Hev3]|lia|]. simpl. intros n Hn Hb [-> | ->]; [by exists RInode|]. destruct Hm. congruence. }
  assert (lo_inode L ≠ m) as Hne by (intros E; destruct HnoL; by exists RInode).
  destruct (extends_new f f3 L L' (λ r, r = RInd) HP (ev_size _ _ _ _ Hev) (ev_marked _ _ _ _ Hev)) as [HP' Ho'].
  { intros [| | |j|j] Hr; simpl in Hr |- *; [by left|by right|sizes; lia..|]. left. unfold supd in *. destruct (Z.eqb_spec j INDIRECT_BEGIN); [tauto|]. split; [split; [sizes; lia|tauto]|done]. }
  { intros r ->. split; [done|]. simpl. by rewrite (se_map _ _ _ Hs3). }
  { by intros r r' -> ->. }
  split_and!; [|done|simpl; sizes; lia|by rewrite Hk|done|done|done]. split; [done|apply Hs3|by rewrite (se_inodes _ _ _ Hs3)|done| |done].
  apply (with_ind_laid (vw f)); [done|done|done| |]; rewrite (se_view _ _ _ Hs3); unfold supd; [destruct (Z.eqb_spec (lo_inode L) m); done|by rewrite Z.eqb_refl].
Qed.

(** The doubly indirect block [b], on the way to a new segment [j]. *)
Definition dbl_open (b j : Z) g : Prop :=
  evolves 1 (λ n, n = lo_inode L) f g ∧ 0 ≤ b < fsize f ∧ bit (free_map g) b = true ∧ ¬ owned Lm b ∧ (j = 0 ∧ fresh f b ∨ j ≠ 0 ∧ b = lo_dbl L) ∧
  let d1 := set_blocks (part (lo_data L) 0 INDIRECT_BEGIN ++ [lo_ind L; b]) d in
  inodes g !! i = Some (set_idata d1 x) ∧ vw g (lo_inode L) = encode_inode d1 ∧ free_cnt (free_map f) - (if j =? 0 then 1 else 0) ≤ free_cnt (free_map g).
Lemma open_dbl j : 0 ≤ j < BLOCK_SLOTS → lo_n L = DBL_INDIRECT_BEGIN + BLOCK_SLOTS * j → 0 < free_cnt (free_map f) →
  runs (open_segment save (lo_dbl L) (λ n, set_block i DBL_INDIRECT_BLK n;; write_inode i)) f
    (λ r g, ∃ b, r = Some (b, part (lo_seg L) 0 BLOCK_SLOTS) ∧ dbl_open b j g).
Proof using Halloc Hf Hsync Hok Hap Him BlockStoreLaws0.
  intros Hj Hk Hc. pose proof Hf as [Hnull Hs Hx Hsec HL HP]. pose proof (ind_u32 _ _ _ HL) as [Hiu Hbu]. destruct (Z.eqb_spec j 0) as [->|Hj0].
  - rewrite (ly_no_dbl _ _ _ HL) by lia. apply open_new; [done|done|]. intros b f1 Hal. assert (fresh f b) as Hb by apply Hal.
    eapply runs_mono; [apply (put_new_sector DBL_INDIRECT_BLK b _ f1 Hal (wr_dbl _ _ _ HL b)), new_disk_ok; [done|by apply (fresh_u32 f b)]|].
    intros [] f2 (Hev2 & Hi2 & Hv2 & Hb2). exists b. rewrite (no_blocks_part (lo_seg L) 0); [|intros i' Hi'; apply HL; [lia|simpl; sizes; lia]]. split; [done|].
    unfold dbl_open. split_and!; [done|apply Hb|apply Hb|exact Hb2|by apply (fresh_not_map f)|by left|exact Hi2|exact Hv2|apply Hev2].
  - assert (filled L RDbl) as Hr by (simpl; sizes; lia). pose proof (filled_not_error f L RDbl Hs HP Hr) as He. simpl in He. unfold open_segment.
    destruct (Z.eqb_spec (lo_dbl L) BLOCK_ERROR); [done|]. cbn [negb]. apply runs_bind. eapply runs_mono; [apply run_read; [done|by apply (fa_range _ _ _ _ _ RDbl Hf)]|].
    intros ? g [-> Hs']. run. exists (lo_dbl L). rewrite (read_dbl _ _ _ HL) by done. split; [done|]. pose proof (evolves_read f g Hok Hs') as Hev.
    assert (set_blocks (part (lo_data L) 0 INDIRECT_BEGIN ++ [lo_ind L; lo_dbl L]) d = d) as Ed by (rewrite <-(ly_blocks _ _ _ HL); by destruct d).
    destruct (pl_used _ _ _ HP (lo_dbl L)) as [H1 H2]; [by exists RDbl|].
    unfold dbl_open. split_and!; [|lia|lia|by rewrite (se_map _ _ _ Hs')|apply Hap; by exists RDbl|by right|..]; rewrite ?Ed.
    + eapply evolves_mono; [done|lia|done].
    + rewrite (se_inodes _ _ _ Hs'), Hx, <-Hsync. by destruct x.
    + rewrite (se_view _ _ _ Hs'). apply HL.
    + bool_cases. rewrite (se_map _ _ _ Hs'). lia.
Qed.

(** The layout with the new segment. *)
Lemma with_seg_extends b j m g f' : dbl_open b j g → fresh g m → evolves 2 (meta L) f f' → bit (free_map f') b = true → bit (free_map f') m = true →
  0 ≤ j < BLOCK_SLOTS → lo_n L = DBL_INDIRECT_BEGIN + BLOCK_SLOTS * j → extends f f' L (with_seg L b j m).
Proof using Hf.
  clear Him Halloc Hap Hok Hsync Hmax alloc depth. intros (Hev & Hb & Hbg & _ & Hcase & _) Hm Hev' Hbf Hmf Hj Hk.
  assert (fresh f m) as Hmf'.
  { destruct Hm as [H1 H2]. rewrite (ev_size _ _ _ _ Hev) in H1. split; [done|]. destruct (bit (free_map f) m) eqn:E; [|done].
    rewrite (ev_marked _ _ _ _ Hev) in H2 by done. done. }
  apply (extends_new f f' L _ (λ r, r = RSeg j ∨ (r = RDbl ∧ j = 0))); [apply Hf|apply Hev'|apply Hev'|..].
  - intros [| | |j'|k] Hr; simpl in Hr |- *.
    + by left.
    + left. split; [|done]. rewrite Hk. sizes. clear -Hj. lia.
    + destruct Hcase as [[-> _]|[Hj0 ->]]; [right; by right|]. left. split; [|done]. rewrite Hk. sizes. clear -Hj Hj0. lia.
    + unfold supd. destruct (Z.eqb_spec j' j) as [->|Hne]; [right; by left|]. left. split; [|done]. rewrite Hk in *. sizes. clear -Hr Hne. lia.
    + left. unfold supd in *. destruct (Z.eqb_spec k (lo_n L)); [tauto|]. split; [|done]. split; [clear -Hr n; lia|tauto].
  - intros r [->|[-> ->]]; simpl; [unfold supd; rewrite Z.eqb_refl; done|]. by destruct Hcase as [[_ ?]|[]].
  - assert (m ≠ b) as Hne by (intros ->; destruct Hm; congruence).
    intros r r' [->|[-> E]] [->|[-> E']]; simpl; unfold supd; rewrite ?Z.eqb_refl; done.
Qed.

Lemma add_segment b j g : dbl_open b j g → 0 ≤ j < BLOCK_SLOTS → lo_n L = DBL_INDIRECT_BEGIN + BLOCK_SLOTS * j → 0 < free_cnt (free_map g) →
  runs (r ← open_segment save BLOCK_ERROR (λ n, ws ← lift (wr (part (lo_seg L) 0 BLOCK_SLOTS) j n); on_store (bwrite b (words_to_bytes ws)));
        match r with Some (seg2, ws2) => mark_hole seg2 0 ws2;; mret true | None => mret false end) g
    (λ r f', r = true ∧ ∃ d' L', hole_added f d L x f' d' L').
Proof using Halloc Hf Hsync Hok Hap Hmax Him BlockStoreLaws0.
  intros Hdbl Hj Hk Hc. pose proof Hdbl as (Hev & Hb & Hbg & Hbm & Hcase & Hig & Hvg & _). pose proof Hf as [Hnull Hs Hx Hsec HL HP].
  pose proof (ev_ok _ _ _ _ Hev) as Hokg. apply runs_bind, open_new; [done|done|]. intros m g1 Hal. assert (fresh g m) as Hm by apply Hal.
  pose proof (fresh_u32 g m (fk_store _ Hokg) Hm) as Hmu. pose proof (fresh_not_map g m Hokg Hm) as Hmm. assert (m ≠ b) as Hmb by (intros ->; destruct Hm; congruence).
  pose proof (evolves_alloc g m g1 Hokg Hal) as Hev1. assert (fsize g1 = fsize f) as Eg1 by (rewrite (ev_size _ _ _ _ Hev1); apply Hev).
  rewrite wr_part by done. run. change (0 + j) with j. eapply runs_mono; [apply run_write; [apply Hal|by rewrite Eg1|apply words_sector, zlen_part; by vm_compute]|].
  intros [] g2 Hs2. pose proof (evolves_write g1 b _ g2 (ev_ok _ _ _ _ Hev1) Hbm Hs2) as Hev2.
  rewrite (no_blocks_part (lo_data L) (lo_n L)) by (intros i' Hi'; apply HL; clear -Hi'; lia). apply runs_bind.
  eapply runs_mono; [apply (mark_hole_spec g2 m _ (lo_n L) 0); [apply Hs2|rewrite (se_size _ _ _ Hs2), (ev_size _ _ _ _ Hev1); apply Hm|done|apply HL; clear; lia]|].
  intros [] f' Hs3. run. split; [done|]. rewrite Z.add_0_r in Hs3. pose proof (evolves_write g2 m _ f' (ev_ok _ _ _ _ Hev2) Hmm Hs3) as Hev3.
  set (L' := with_seg L b j m). exists (inode_of d L'), L'.
  assert (evolves 1 (λ n, n = b ∨ n = m) g f') as Hevg.
  { eapply evolves_mono; [eapply evolves_trans; [exact Hev1|eapply evolves_trans; [exact Hev2|exact Hev3]]|lia|simpl; tauto]. }
  assert (evolves 2 (meta L) f f') as Hevf.
  { eapply evolves_mono; [eapply evolves_trans; [exact Hev|exact Hevg]|lia|]. simpl. intros n Hn Hbn [-> |[-> | ->]]; [by exists RInode| |].
    - destruct Hcase as [[_ [_ ?]]|[Hj0 ->]]; [congruence|]. exists RDbl. split_and!; [done| |done]. simpl. rewrite Hk. sizes. clear -Hj Hj0. lia.
    - pose proof (ev_marked _ _ _ _ Hev _ Hn Hbn). destruct Hm. congruence. }
  assert (inode_of d L' = set_blocks (part (lo_data L) 0 INDIRECT_BEGIN ++ [lo_ind L; b]) d) as Ed.
  { unfold inode_of, L'. simpl. rewrite part_supd_out; [done|]. rewrite Hk. sizes. clear -Hj. lia. }
  assert (∀ r, filled L r → r ≠ RDbl → vw f' (sec L r) = vw g (sec L r) ∧ (r ≠ RInode → vw g (sec L r) = vw f (sec L r))) as Hkeep.
  { intros r Hr Hne. destruct (pl_used _ _ _ HP (sec L r)) as [H1 H2]; [by exists r|]. pose proof (ev_marked _ _ _ _ Hev _ H1 H2) as H3.
    assert (¬ owned Lm (sec L r)) as Hnm by (apply Hap; by exists r). split.
    2:{ intros Hri. apply (ev_frame _ _ _ _ Hev); [done|done| |done]. intros E. destruct Hri. by apply (pl_apart _ _ _ HP). }
    apply (ev_frame _ _ _ _ Hevg); [by rewrite (ev_size _ _ _ _ Hev)|done| |done]. intros [E|E]; [|destruct Hm; congruence].
    destruct Hcase as [[_ [_ ?]]|[Hj0 Eb]]; [congruence|]. destruct Hne. apply (pl_apart _ _ _ HP); [done| |by rewrite E]. simpl. rewrite Hk. sizes. clear -Hj Hj0. lia. }
  destruct (with_seg_extends b j m g f') as [HP' Ho']; [done|done|done| | |done|done|].
  { apply Hevg; [by rewrite (ev_size _ _ _ _ Hev)|done]. }
  { rewrite (se_map _ _ _ Hs3), (se_map _ _ _ Hs2), (al_bit _ _ _ Hal), Z.eqb_refl by apply Hm. done. }
  split_and!; [|done|done|done|done|done|done]. split; [done|apply Hs3| |done| |done].
  - rewrite Ed, <-Hig. rewrite (se_inodes _ _ _ Hs3), (se_inodes _ _ _ Hs2), (al_inodes _ _ _ Hal). done.
  - assert (is_u32 b) as Hbu by (pose proof (size_law _ Hs); unfold is_u32, fsize, NO_SECTOR in *; clear -Hb H; lia).
    apply (with_seg_laid (vw f)); [done|done|done|done|done|..].
    + fold L'. rewrite Ed, <-Hvg. by apply (Hkeep RInode).
    + rewrite (se_view _ _ _ Hs3), (supd_ne _ _ _ _ (not_eq_sym Hmb)), (se_view _ _ _ Hs2). apply supd_eq.
    + rewrite (se_view _ _ _ Hs3), supd_eq. simpl. by rewrite Hk.
    + intros r Hr Hfr. assert (r ≠ RDbl ∧ r ≠ RInode) as [H1 H2] by (destruct Hr as [->|[? ->]]; done).
      destruct (Hkeep r Hfr H1) as [-> ->]; done.
Qed.

Lemma expand_in_ind : INDIRECT_BEGIN < lo_n L < DBL_INDIRECT_BEGIN →
  runs (inode_expand_sector save i (lo_n L)) f (λ r f', r = true ∧ ∃ d' L', hole_added f d L x f' d' L').
Proof using Hf Hsync Hok Hap Hmax Him BlockStoreLaws0.
  intros Hk. pose proof Hf as [Hnull Hs Hx Hsec HL HP]. unfold inode_expand_sector.
  apply runs_bind, runs_assert; [by destruct (Z.eqb_spec i NULL)|]. apply runs_bind, (run_inode_at _ _ x); [done|].
  destruct (Z.ltb_spec (lo_n L) INDIRECT_BEGIN); [lia|]. destruct (Z.ltb_spec (lo_n L) DBL_INDIRECT_BEGIN); [|lia]. rewrite Hsync, (rd_ind _ _ _ HL). run.
  assert (filled L RInd) as Hr by (simpl; lia). pose proof (filled_not_error f L RInd Hs HP Hr) as He. simpl in He.
  unfold open_segment. destruct (Z.eqb_spec (lo_ind L) BLOCK_ERROR); [done|]. cbn [negb]. apply runs_bind.
  eapply runs_mono; [apply run_read; [done|by apply (fa_range _ _ _ _ _ RInd Hf)]|]. intros ? f1 [-> Hs1]. apply runs_ret. rewrite (read_ind _ _ _ HL) by done.
  assert (home (lo_n L) = RInd) as Eh by (unfold home; by bool_cases). pose proof (expand_segment f1 (lo_n L) INDIRECT_BEGIN eq_refl Hs1) as Hsg. rewrite Eh in Hsg.
  apply Hsg; [done|done|sizes; lia|done].
Qed.
Lemma expand_dbl : DBL_INDIRECT_BEGIN ≤ lo_n L → 2 ≤ free_cnt (free_map f) →
  runs (inode_expand_sector save i (lo_n L)) f (λ r f', r = true ∧ ∃ d' L', hole_added f d L x f' d' L').
Proof using Halloc Hf Hsync Hok Hap Hmax Him BlockStoreLaws0.
  intros Hk Hc. pose proof Hf as [Hnull Hs Hx Hsec HL HP]. unfold inode_expand_sector.
  apply runs_bind, runs_assert; [by destruct (Z.eqb_spec i NULL)|]. apply runs_bind, (run_inode_at _ _ x); [done|].
  destruct (Z.ltb_spec (lo_n L) INDIRECT_BEGIN); [sizes; lia|]. destruct (Z.ltb_spec (lo_n L) DBL_INDIRECT_BEGIN); [lia|].
  destruct (Z.ltb_spec (lo_n L) MAX_FILE_SECTOR); [|lia]. rewrite Hsync, (rd_dbl _ _ _ HL).
  set (j := (lo_n L - DBL_INDIRECT_BEGIN) `div` BLOCK_SLOTS). set (o := (lo_n L - DBL_INDIRECT_BEGIN) `mod` BLOCK_SLOTS).
  assert (0 ≤ j < BLOCK_SLOTS ∧ 0 ≤ o < BLOCK_SLOTS ∧ lo_n L = DBL_INDIRECT_BEGIN + BLOCK_SLOTS * j + o) as (Hj & Ho & Ek)
    by (unfold j, o; sizes; clear -Hk Hmax; Z.to_euclidean_division_equations; lia).
  run. destruct (Z.eqb_spec o 0) as [Eo|Eo].
  - eapply runs_mono; [apply (open_dbl j Hj); [lia|lia]|]. intros ? g (b & -> & Hdbl). rewrite rd_part by done. run. change (0 + j) with j.
    assert (0 < free_cnt (free_map g)) as Hcg by (destruct Hdbl as (_ & _ & _ & _ & _ & _ & _ & Hcnt); destruct (j =? 0); lia).
    rewrite (ly_no_seg _ _ _ HL) by (simpl; lia). rewrite Eo. pose proof (add_segment b j g Hdbl Hj ltac:(lia) Hcg) as Hadd. by apply runs_bind_inv in Hadd.
  - assert (filled L RDbl) as Hr by (simpl; sizes; lia). pose proof (filled_not_error f L RDbl Hs HP Hr) as He. simpl in He. unfold open_segment at 1.
    destruct (Z.eqb_spec (lo_dbl L) BLOCK_ERROR); [done|]. cbn [negb]. apply runs_bind. eapply runs_mono; [apply run_read; [done|by apply (fa_range _ _ _ _ _ RDbl Hf)]|].
    intros ? f1 [-> Hs1]. apply runs_ret. rewrite (read_dbl _ _ _ HL), rd_part by done. run. change (0 + j) with j.
    assert (filled L (RSeg j)) as Hrj by (simpl; lia). pose proof (filled_not_error f L (RSeg j) Hs HP Hrj) as Hej. simpl in Hej.
    unfold open_segment. destruct (Z.eqb_spec (lo_seg L j) BLOCK_ERROR); [done|]. cbn [negb]. apply runs_bind.
    eapply runs_mono; [apply run_read; [apply Hs1|rewrite (se_size _ _ _ Hs1); by apply (fa_range _ _ _ _ _ (RSeg j) Hf)]|].
    intros ? f2 [-> Hs2]. apply runs_ret. rewrite (se_view _ _ _ Hs1), (read_seg _ _ _ HL) by done.
    assert (sees f f2 (vw f)) as Hs12 by (eapply sees_trans; [done|eapply sees_ext; [done|intros n'; symmetry; apply Hs1]]).
    assert (home (lo_n L) = RSeg j) as Eh by (unfold home; by bool_cases).
    pose proof (expand_segment f2 (lo_n L) (DBL_INDIRECT_BEGIN + BLOCK_SLOTS * j) eq_refl Hs12) as Hsg. rewrite Eh in Hsg.
    replace o with (lo_n L - (DBL_INDIRECT_BEGIN + BLOCK_SLOTS * j)) by lia. apply Hsg; [done|done|lia|done].
Qed.
Lemma expand_spec : 2 ≤ free_cnt (free_map f) →
  runs (inode_expand_sector save i (lo_n L)) f (λ r f', r = true ∧ ∃ d' L', hole_added f d L x f' d' L').
Proof using Halloc Hf Hsync Hok Hap Hmax Him BlockStoreLaws0.
  intros Hc. destruct (Z.lt_trichotomy (lo_n L) INDIRECT_BEGIN) as [?|[?|?]].
  - by apply expand_direct.
  - apply expand_ind; [done|lia].
  - destruct (decide (lo_n L < DBL_INDIRECT_BEGIN)); [by apply expand_in_ind|apply expand_dbl; lia].
Qed.
End add.

(** ** The file with one more block *)

Context (Hlm : lo_inode Lm = 0).
Definition room f L c : Prop := fs_ok f ∧ apart L ∧ 3 * c ≤ free_cnt (free_map f).
Lemma room_write f f' L c W : room f L c → sees f f' W → (∀ n, ¬ owned L n → W n = vw f n) → room f' L c.
Proof using Type.
  intros (Hok & Hap & Hc) Hs HW. split_and!; [|done|by rewrite (se_map _ _ _ Hs)]. eapply fs_ok_write; [done|done|]. intros n Hn. apply HW. intros Ho. by destruct (Hap n Ho).
Qed.
Lemma fresh_back c T f f' n : evolves c T f f' → fresh f' n → fresh f n.
Proof using Type.
  intros Hev [H1 H2]. rewrite (ev_size _ _ _ _ Hev) in H1. split; [done|]. destruct (bit (free_map f) n) eqn:E; [|done].
  rewrite (ev_marked _ _ _ _ Hev) in H2 by done. done.
Qed.
Lemma fresh_nonzero f m : fs_ok f → fresh f m → m ≠ 0.
Proof using Hlm. intros Hok Hm ->. destruct (fresh_not_map f 0 Hok Hm). by exists RInode. Qed.

Lemma add_block_spec f d L x c : file_ok f i d L x → room f L c → 0 < c → lo_n L < MAX_FILE_SECTOR →
  runs (add_block alloc save i (lo_n L * BLOCK_SECTOR_SIZE)) f (λ r f', ∃ d' L' x', r = Some (lo_data L' (lo_n L)) ∧
    file_ok f' i d' L' x' ∧ room f' L' (c - 1) ∧ grown (owned Lm) i f L x f' L' x' ∧ lo_n L' = lo_n L + 1 ∧ dlength d' = dlength d ∧
    ∀ k, 0 ≤ k < lo_n L → vw f' (lo_data L k) = vw f (lo_data L k)).
Proof using Halloc BlockStoreLaws0 Him Hlm.
  intros [Hf Hsync Hdense Hmap] (Hok & Hap & Hcnt) Hc Hmax. pose proof (ly_n _ _ _ (fa_laid _ _ _ _ _ Hf)) as Hn. set (k := lo_n L) in *.
  unfold add_block. rewrite pos_sector_eq by (sizes; lia). rewrite Z.div_mul by done. apply runs_bind.
  eapply runs_mono; [apply (expand_spec f d L x); [done..|lia]|].
  intros ? f1 (-> & d1 & L1 & Hf1 & Hev1 & Hn1 & Hd1 & Hi1 & Hl1 & Ho1). fold k in Hn1, Hd1. pose proof (ev_ok _ _ _ _ Hev1) as Hok1.
  assert (apart L1) as Hap1 by (intros n [Ho|Hfr]%Ho1; [by apply Hap|by apply (fresh_not_map f)]).
  assert (lo_data L1 k = 0) as Hhole by (rewrite Hd1; apply supd_eq).
  apply runs_bind. eapply runs_mono; [eapply (byte_to_sector_hole d1 L1 (set_idata d1 x) k Hap1); [lia|done| |by rewrite Z.div_mul|sizes; lia]|].
  { split_and!; [done|done|]. pose proof (ev_cnt _ _ _ _ Hev1). lia. }
  intros m f2 (Hm & Hf2 & Hev2 & Hi2 & Hz2 & Ho2). set (L2 := with_data L1 k m) in *. set (d2 := inode_of d1 L2) in *.
  pose proof (ev_ok _ _ _ _ Hev2) as Hok2. apply runs_bind, (run_inode_at _ _ (set_idata d1 x)); [apply Hf2|]. apply runs_bind.
  eapply runs_mono; [apply run_read; [apply Hf2|rewrite (fa_sector _ _ _ _ _ Hf2); by apply (fa_range _ _ _ _ _ RInode Hf2)]|].
  intros ? f3 [-> Hs3]. rewrite (fa_sector _ _ _ _ _ Hf2), (read_inode _ _ _ (fa_laid _ _ _ _ _ Hf2)). unfold set_inode. run.
  pose proof (evolves_read f2 f3 Hok2 Hs3) as Hev3. pose proof (evolves_inode f3 (set_idata d2 x) (ev_ok _ _ _ _ Hev3)) as Hev4.
  change (set_idata d2 (set_idata d1 x)) with (set_idata d2 x). set (f4 := set_inodes _ f3) in *.
  exists d2, L2, (set_idata d2 x).
  assert (evolves 3 (λ n, meta L n ∨ meta L1 n) f f4) as Hev.
  { eapply evolves_mono; [eapply evolves_trans; [exact Hev1|eapply evolves_trans; [exact Hev2|eapply evolves_trans; [exact Hev3|exact Hev4]]]|lia|simpl; tauto]. }
  assert (∀ n, owned L2 n → owned L n ∨ fresh f n) as Ho.
  { intros n [[?|?]%Ho1|Hfr]%Ho2; [by left|by right|]. right. eapply fresh_back; [exact Hev1|done]. }
  assert (∀ j, 0 ≤ j < k → lo_data L1 j = lo_data L j ∧ lo_data L2 j = lo_data L j) as Hsame.
  { intros j Hj. unfold L2. simpl. rewrite (supd_ne _ k m), Hd1, supd_ne by lia. done. }
  assert (fs_ok f4) as Hok4 by apply Hev. assert (free_map f4 = free_map f2 ∧ fsize f4 = fsize f2 ∧ ∀ n, vw f4 n = vw f2 n) as (Em & Es & Ev) by (split_and!; apply Hs3).
  split_and!.
  - unfold L2. simpl. by rewrite supd_eq.
  - split; [|done| |apply Hok4].
    + split; [apply Hf|apply Hok4|apply lookup_insert_eq|etransitivity; [apply (fa_sector _ _ _ _ _ Hf)|done]| |by rewrite Em, Es; apply Hf2].
      eapply laid_out_frame; [apply Hf2|]. intros r _ _. apply Ev.
    + intros j Hj. simpl in Hj. rewrite Hn1 in Hj. destruct (decide (j = k)) as [->|Hne].
      * unfold L2. simpl. rewrite supd_eq. by apply (fresh_nonzero f1).
      * destruct (Hsame j) as [_ ->]; [lia|]. apply Hdense. lia.
  - split_and!; [done| |pose proof (ev_cnt _ _ _ _ Hev); lia]. intros n [Hon|Hfr]%Ho; [by apply Hap|by apply (fresh_not_map f)].
  - split; try apply Hev; try done; simpl; [lia|by intros j Hj; apply (Hsame j)| |].
    + intros n Hnr Hb HnL HnR. apply (ev_frame _ _ _ _ Hev); [done|done| |done].
      intros [(r & _ & Hr & <-)|(r & _ & Hr & <-)]; [destruct HnL; by exists r|]. destruct (Ho1 (sec L1 r)) as [?|[_ ?]]; [by exists r|done|congruence].
    + etransitivity; [apply (fk_file _ Hok4)|symmetry; apply Hok].
  - simpl. rewrite Hn1. lia.
  - done.
  - intros j Hj. destruct (pl_used _ _ _ (fa_placed _ _ _ _ _ Hf) (lo_data L j)) as [H1 H2]; [exists (RData j); split; [split; [done|by apply Hdense]|done]|].
    assert (filled L (RData j)) as Hfj by (split; [done|by apply Hdense]).
    apply (ev_frame _ _ _ _ Hev); [done|done| |apply Hap; by exists (RData j)]. intros [(r & Hr & Hrf & E)|(r & Hr & Hrf & E)].
    + assert (r = RData j) as -> by (by apply (pl_apart _ _ _ (fa_placed _ _ _ _ _ Hf))). done.
    + assert (r = RData j) as -> by (apply (pl_apart _ _ _ (fa_placed _ _ _ _ _ Hf1)); [done| |]; simpl; destruct (Hsame j Hj) as [E' _]; rewrite E'; [split; [lia|by apply Hdense]|done]). done.
Qed.
End grow.
