(* ===== verification/InodeFile.v ===== *)
(** * Files

    What [inode_read_at] and [inode_write_at] promise: a file is a sequence of
    bytes; a read returns the part asked for, as far as the file goes; a write
    replaces the part it covers, and makes the file longer when it ends beyond
    its end.  No other file changes. *)

From S2P Require Import Prelude KList Bitmap Cache Inode InodeLayout InodeSpec InodeGrow.

Definition MAX_FILE_SIZE : Z := MAX_FILE_SECTOR * BLOCK_SECTOR_SIZE.

Section file.
Context {S : Type} `{!BlockStore S, !BlockStoreLaws S} (alloc : Z → bool) (Halloc : alloc BLOCK_SECTOR_SIZE = true).
Implicit Types (f : fs S) (L : layout).

(** The open inode [x] at [i] is a file laid out as [L] that holds [bytes].  It has
    no holes: every block up to its end has a sector ([fo_dense] of [file_ok]). *)
Record file_is f (i : Z) L (x : inode) (bytes : list Z) : Prop := {
  fi_ok : file_ok f i (idata x) L x;
  fi_len : dlength (idata x) = zlen bytes;
  fi_blocks : zlen bytes ≤ lo_n L * BLOCK_SECTOR_SIZE;
  fi_bytes : ∀ o, 0 ≤ o < zlen bytes → bytes@[o] = Some (byte (vw f) L o);
}.

Lemma file_bytes_slice V L bytes o n : 0 ≤ o → 0 ≤ n → (∀ o, 0 ≤ o < zlen bytes → bytes@[o] = Some (byte V L o)) →
  file_bytes V L o (0 `max` (n `min` (zlen bytes - o))) = slice o n bytes.
Proof using Type.
  clear. intros Ho Hn Hb. unfold slice. apply array_ext.
  - rewrite zlen_file_bytes, zlen_take by lia. unfold zlen. rewrite length_drop. lia.
  - intros j. rewrite zlen_file_bytes by lia. intros Hj. rewrite file_bytes_lookup, zlookup_take, zlookup_drop by lia.
    destruct (Z.ltb_spec j n); [|lia]. symmetry. apply Hb. lia.
Qed.

Lemma read_spec save f i L x bytes size offset : file_is f i L x bytes → zlen bytes < MAX_FILE_SIZE →
  0 ≤ size → 0 ≤ offset < MAX_FILE_SIZE →
  runs (inode_read_at alloc save i size offset) f (λ r f', r = slice offset size bytes ∧ sees f f' (vw f) ∧ file_is f' i L x bytes).
Proof using Halloc BlockStoreLaws0.
  intros [[Hat Hsync Hdense Hmap] Hlen Hblocks Hbytes] Hmax Hs Ho. unfold inode_read_at.
  eapply runs_mono; [apply (read_loop_spec alloc Halloc save i (idata x) L x Hdense); rewrite ?Hlen; [done|done|done|done|lia]|].
  intros r f' [-> Hs']. rewrite Hlen, (file_bytes_slice (vw f) L bytes) by (done || lia). split_and!; [done|done|].
  split; [|done|done|].
  - split; [by eapply file_at_sees|done|done|]. by rewrite (se_map _ _ _ Hs'), (se_size _ _ _ Hs').
  - intros o Hor. unfold byte. rewrite (se_view _ _ _ Hs'). by apply Hbytes.
Qed.
(** C15 For a file without holes [inode_read_at] returns the bytes of the file from [offset] on,
    [size] of them or as many as there are before the end of the file, and changes
    nothing; this holds across direct, indirect and doubly indirect blocks.  A file
    has holes after a write beyond its end; reading these takes sectors from the
    free map. *)
Theorem inode_read_correct save f i L x bytes size offset : file_is f i L x bytes → zlen bytes < MAX_FILE_SIZE →
  0 ≤ size → 0 ≤ offset < MAX_FILE_SIZE →
  runs (inode_read_at alloc save i size offset) f (λ r f', r = slice offset size bytes ∧ sees f f' (vw f) ∧ file_is f' i L x bytes).
Proof using Halloc BlockStoreLaws0. apply read_spec. Qed.

Section write.
Context (depth : nat) (Lm : layout) (im : Z) (Hlm : lo_inode Lm = 0).
Abbreviation save := (save_map alloc (Datatypes.S depth) : M (fs S) bool).

(** Two files have no sector in common. *)
Definition disjoint L L' : Prop := ∀ n, owned L n → ¬ owned L' n.

(** The length of a file is changed. *)
Lemma set_length_spec f i d L x n c : file_ok f i d L x → room Lm im f L c → im ≠ i → 0 ≤ n < 2 ^ 31 →
  let d' := set_length n d in let x' := set_idata d' x in
  runs (set_inode i x';; write_inode i) f (λ _ f', file_ok f' i d' L x' ∧ room Lm im f' L c ∧ grown (owned Lm) i f L x f' L x' ∧
    ∀ r, filled L r → ¬ is_meta r → vw f' (sec L r) = vw f (sec L r)).
Proof using BlockStoreLaws0.
  intros [Hat Hsync Hdense Hmap] (Hok & Hap & Hc) Him Hn d' x'. pose proof Hat as [Hnull Hs Hx Hsec HL HP].
  assert (disk_ok d') as Hd' by (destruct (ly_disk _ _ _ HL); by split).
  assert (¬ owned Lm (lo_inode L)) as Hno by (apply Hap; by exists RInode).
  unfold set_inode. run. pose proof (evolves_inode Lm i im Him f x' Hok) as Hev1.
  set (f1 := set_inodes (<[i := x']> (inodes f)) f) in *. pose proof (fa_range _ _ _ _ _ RInode Hat I) as Hri. simpl in Hri.
  eapply runs_mono; [apply (run_write_inode i f1 x'); [done|apply lookup_insert_eq|by rewrite <-Hsec in Hri|done]|].
  intros [] f2 Hs2. simpl in Hs2. rewrite Hsec in Hs2. pose proof (evolves_write Lm i im f1 (lo_inode L) _ f2 (ev_ok _ _ _ _ _ _ _ Hev1) Hno Hs2) as Hev2.
  assert (∀ r, filled L r → r ≠ RInode → vw f2 (sec L r) = vw f (sec L r)) as Hother.
  { intros r Hr Hne. rewrite (se_view _ _ _ Hs2). apply supd_ne. intros E. destruct Hne. by apply (pl_apart _ _ _ HP). }
  split_and!.
  - split; [|done|done|by rewrite (se_map _ _ _ Hs2), (se_size _ _ _ Hs2)].
    split; [done|apply Hs2|rewrite (se_inodes _ _ _ Hs2); apply lookup_insert_eq|done| |by rewrite (se_map _ _ _ Hs2), (se_size _ _ _ Hs2)].
    apply laid_out_meta in HL as (H1 & H2 & H3 & H4 & H5). apply laid_out_meta. split_and!; [done|lia|lia| | |apply H5..].
    + unfold d'. rewrite H3 at 1. done.
    + intros r Hm Hr. destruct (decide (r = RInode)) as [->|Hne]; [rewrite (se_view _ _ _ Hs2); apply supd_eq|]. rewrite Hother, H4 by done. by destruct r.
  - split_and!; [apply Hev2|done|by rewrite (se_map _ _ _ Hs2)].
  - split; try done; [| | | |apply Hs2..].
    + intros n' Hn' Hb. by rewrite (se_map _ _ _ Hs2).
    + intros n' Hn' Hb HnL _. rewrite (se_view _ _ _ Hs2). apply supd_ne. intros ->. destruct HnL. by exists RInode.
    + by left.
    + intros j Hj. rewrite (se_inodes _ _ _ Hs2). by apply lookup_insert_ne.
  - intros r Hr Hm. apply Hother; [done|]. by intros ->.
Qed.

(** Setting the length of the file before a write that ends beyond its end. *)
Lemma extend_spec f i d L x c n : file_ok f i d L x → room Lm im f L c → im ≠ i → 0 ≤ n < 2 ^ 31 →
  runs (if dlength (idata x) <? n then set_inode i (set_idata (set_length n (idata x)) x);; write_inode i else mret tt) f
    (λ _ f', ∃ d' x', file_ok f' i d' L x' ∧ room Lm im f' L c ∧ grown (owned Lm) i f L x f' L x' ∧ dlength d' = dlength d `max` n ∧
      ∀ r, filled L r → ¬ is_meta r → vw f' (sec L r) = vw f (sec L r)).
Proof using BlockStoreLaws0.
  intros Hf Hroom Him Hn. rewrite (fo_sync _ _ _ _ _ Hf). destruct (Z.ltb_spec (dlength d) n).
  - eapply runs_mono; [by apply (set_length_spec f i d L x n c)|]. intros [] f' (H1 & H2 & H3 & H4). eexists _, _. split_and!; [done..| |done]. simpl. lia.
  - run. exists d, x. split_and!; [done|done| |lia|done]. eapply grown_write; [apply sees_refl, Hf|done].
Qed.

(** The state after a write: the file holds [bytes], and whatever else was in
    use is untouched. *)
Definition wrote f i L x c f' bytes : Prop := ∃ L' x',
  file_is f' i L' x' bytes ∧ room Lm im f' L' (c - (lo_n L' - lo_n L)) ∧ grown (owned Lm) i f L x f' L' x'.
Lemma write_spec f i L x bytes buffer offset c : file_is f i L x bytes → room Lm im f L c → im ≠ i → deny_write_cnt x = 0 → Forall is_u8 buffer →
  0 ≤ offset ≤ zlen bytes → offset + zlen buffer ≤ MAX_FILE_SIZE → offset + zlen buffer - lo_n L * BLOCK_SECTOR_SIZE ≤ c * BLOCK_SECTOR_SIZE →
  runs (inode_write_at alloc save i buffer (zlen buffer) offset) f (λ r f', r = zlen buffer ∧ wrote f i L x c f' (overwrite offset buffer bytes)).
Proof using Halloc BlockStoreLaws0 Hlm.
  intros [Hok Hlen Hblocks Hbytes] Hroom Him Hdeny Hu Ho Hmax Hc. pose proof (zlen_nonneg buffer) as Hsz. unfold MAX_FILE_SIZE in Hmax.
  pose proof (fa_inode _ _ _ _ _ (fo_at _ _ _ _ _ Hok)) as Hx. unfold inode_write_at. apply runs_bind, (run_inode_at _ _ x); [done|].
  rewrite Hdeny. cbn [Z.eqb negb]. destruct (Z.ltb_spec (dlength (idata x)) offset); [lia|]. apply runs_bind, runs_ret. apply runs_bind, (run_inode_at _ _ x); [done|].
  apply runs_bind. eapply runs_mono; [apply (extend_spec f i (idata x) L x c); [done..|sizes; lia]|].
  intros [] f1 (d1 & x1 & Hf1 & Hroom1 & Hg1 & Hlen1 & Hkeep1). apply runs_bind.
  eapply runs_mono; [apply (write_loop_spec alloc Halloc save i True (owned Lm) (room Lm im) (room_write Lm im)) with (c := c); [intros _ g d L0 x0 c0; by apply add_block_spec|done..|lia|lia|lia|by left|lia|lia]|].
  intros ? f2 (-> & d2 & L2 & x2 & Hf2 & Hroom2 & Hg2 & Hlen2 & Hn2 & _ & Hb2 & _). apply runs_bind. eapply runs_mono; [by apply write_inode_spec|].
  intros [] f3 [Hs3 Hf3]. run. split; [done|]. exists L2, x2.
  assert (grown (owned Lm) i f L x f3 L2 x2) as Hg.
  { eapply grown_trans; [exact Hg1|]. eapply grown_trans; [exact Hg2|]. by eapply grown_write. }
  split_and!; [|by eapply room_write|done]. pose proof (fo_sync _ _ _ _ _ Hf3) as E3. pose proof (gr_n _ _ _ _ _ _ _ _ Hg) as Hn3.
  split; rewrite ?E3, ?zlen_overwrite_grow by lia; [done|lia|sizes; lia|]. intros o Hor. rewrite overwrite_lookup_grow by lia. destruct (Hb2 o) as [Hin Hout].
  assert (byte (vw f3) L2 o = byte (vw f2) L2 o) as -> by (unfold byte; by rewrite (se_view _ _ _ Hs3)).
  destruct (Z.leb_spec offset o), (Z.ltb_spec o (offset + zlen buffer)); cbn [andb]; try lia.
  - rewrite Hin by lia. destruct (zlookup_lt buffer (o - offset)) as [z ->]; [lia|done].
  - rewrite Hout, Hbytes by lia. f_equal. symmetry. apply same_blocks; [lia|done|]. intros k Hk. apply (Hkeep1 (RData k)); [|simpl; tauto].
    split; [done|]. by apply (fo_dense _ _ _ _ _ Hok).
  - rewrite Hout, Hbytes by lia. f_equal. symmetry. apply same_blocks; [lia|done|]. intros k Hk. apply (Hkeep1 (RData k)); [|simpl; tauto].
    split; [done|]. by apply (fo_dense _ _ _ _ _ Hok).
Qed.

(** The other files do not change. *)
Lemma other_file f i L x f' L' x' k Lk xk bytes : store_ok (store f') → wf (free_map f') ∧ bit_cnt (free_map f') = fsize f' →
  grown (owned Lm) i f L x f' L' x' → k ≠ i → disjoint L Lk → disjoint Lm Lk →
  file_is f k Lk xk bytes → file_is f' k Lk xk bytes ∧ disjoint L' Lk.
Proof using Type.
  intros Hs Hmap [G1 G2 G3 G4 G5 G6 G7 G8 G9 G10 G11] Hk HLk HLm [[Hat Hsync Hdense Hm] Hlen Hblocks Hbytes].
  pose proof Hat as [A1 A2 A3 A4 A5 A6]. assert (∀ r, filled Lk r → vw f' (sec Lk r) = vw f (sec Lk r)) as Hkeep.
  { intros r Hr. assert (owned Lk (sec Lk r)) as Ho by (by exists r). destruct (pl_used _ _ _ A6 _ Ho). apply G6; [done|done|intros ?; by apply (HLk (sec Lk r))|intros ?; by apply (HLm (sec Lk r))]. }
  split.
  - split; [split; [|done|done|done]|done|done|].
    + split; [done|done|by rewrite G8|done|by eapply laid_out_frame; [|intros; by apply Hkeep]|]. by apply (placed_marked Lk f f').
    + intros o Ho. rewrite Hbytes by done. f_equal. symmetry. apply same_blocks; [lia|done|]. intros j Hj. apply (Hkeep (RData j)). split; [done|by apply Hdense].
  - intros n [Ho|[_ Hb]]%G7 Hok; [by apply (HLk n)|]. destruct (pl_used _ _ _ A6 n Hok). congruence.
Qed.

(** C4 [inode_write_at] at an offset within a file without holes, or just past its end,
    writes the whole buffer, if the free map has room and writing is not denied: the file then holds the buffer at [offset] and its
    old bytes elsewhere, and is as long as it was or ends where the buffer
    ends.  The blocks this takes, with the indirect, doubly indirect and segment
    blocks that lead to them, are taken from the free map, three sectors for
    each block at the most, and the free map is saved: if its file held the bits of
    the free map before, as [room] says, it holds the new bits afterwards.  Every other file
    keeps its contents and shares no sector with this one. *)
Theorem inode_write_correct f i L x bytes buffer offset c : file_is f i L x bytes → room Lm im f L c → im ≠ i → deny_write_cnt x = 0 → Forall is_u8 buffer →
  0 ≤ offset ≤ zlen bytes → offset + zlen buffer ≤ MAX_FILE_SIZE → offset + zlen buffer ≤ (lo_n L + c) * BLOCK_SECTOR_SIZE →
  runs (inode_write_at alloc save i buffer (zlen buffer) offset) f (λ r f', r = zlen buffer ∧ ∃ L' x',
    file_is f' i L' x' (overwrite offset buffer bytes) ∧ room Lm im f' L' (c - (lo_n L' - lo_n L)) ∧ map_saved Lm f' ∧
    ∀ k Lk xk bk, k ≠ i → disjoint L Lk → disjoint Lm Lk → file_is f k Lk xk bk → file_is f' k Lk xk bk ∧ disjoint L' Lk).
Proof using Halloc BlockStoreLaws0 Hlm.
  intros Hf Hroom Him Hdeny Hu Ho Hmax Hc. eapply runs_mono; [apply (write_spec f i L x bytes buffer offset c); try done; lia|].
  intros r f' (-> & L' & x' & Hf' & Hroom' & Hg). split; [done|]. exists L', x'. split_and!; [done|done|apply Hroom'|]. intros k Lk xk bk Hk HLk HLm Hfk.
  eapply (other_file f i L x f'); try done; apply Hroom'.
Qed.

(** What was written is what is read back. *)
Theorem write_read_roundtrip save' f i L x bytes buffer offset c : file_is f i L x bytes → room Lm im f L c → im ≠ i → deny_write_cnt x = 0 → Forall is_u8 buffer →
  0 ≤ offset ≤ zlen bytes → zlen bytes `max` (offset + zlen buffer) < MAX_FILE_SIZE → offset + zlen buffer ≤ (lo_n L + c) * BLOCK_SECTOR_SIZE →
  runs (inode_write_at alloc save i buffer (zlen buffer) offset;; inode_read_at alloc save' i (zlen buffer) offset) f (λ r _, r = buffer).
Proof using Halloc BlockStoreLaws0 Hlm.
  intros Hf Hroom Him Hdeny Hu Ho Hmax Hc. apply runs_bind. eapply runs_mono; [apply (write_spec f i L x bytes buffer offset c); try done; lia|].
  intros r f' (-> & L' & x' & Hf' & _ & _). pose proof (zlen_nonneg buffer).
  eapply runs_mono; [apply (read_spec save' f' i L' x'); [done|by rewrite zlen_overwrite_grow|done|lia]|]. intros ? f2 (-> & _). by apply slice_overwrite.
Qed.
End write.
End file.
