(* ===== verification/InodeDemo.v ===== *)
(** * A small file system

    A device of 100 sectors with the free map's file in sectors 0 and 2 and an
    empty file in sector 1: the theorems on files at work on a concrete
    state, behind the buffer cache. *)

From S2P Require Import Prelude KList Bitmap Cache Inode InodeLayout InodeSpec InodeGrow InodeFile.

(** A file with direct blocks only. *)
Definition direct_layout (n0 : Z) (D : Z → Z) (n : Z) : layout :=
  Layout n0 BLOCK_ERROR BLOCK_ERROR (λ _, BLOCK_ERROR) (λ k, if k <? n then D k else BLOCK_ERROR) n.
Definition new_disk (len : Z) (L : layout) : inode_disk := inode_of (InodeDisk len INODE_MAGIC 0 (replicate 125 BLOCK_ERROR)) L.
Lemma direct_laid V n0 D n len : 0 ≤ n ≤ INDIRECT_BEGIN → 0 ≤ len < 2 ^ 31 → (∀ k, 0 ≤ k < n → is_u32 (D k)) →
  let L := direct_layout n0 D n in V n0 = encode_inode (new_disk len L) → laid_out V (new_disk len L) L.
Proof.
  intros Hn Hlen HD L HV.
  assert (∀ k, 0 ≤ k → is_u32 (lo_data L k)) as Hu.
  { intros k Hk. simpl. destruct (Z.ltb_spec k n); [by apply HD|apply error_u32]. }
  apply laid_out_meta. split_and!; [|simpl; sizes; lia|simpl; sizes; lia|done| |done|done|done| |done|intros; apply error_u32].
  - apply inode_of_ok; [|done|apply error_u32..]. split; [done|by vm_compute..|]. split; [apply Forall_replicate, error_u32|done].
  - intros [] Hm Hf; simpl in Hf; try done; sizes; lia.
  - intros k Hk. simpl in *. destruct (Z.ltb_spec k n); [lia|done].
Qed.

Definition Lmap : layout := direct_layout 0 (λ _, 2) 1.
Definition Lempty : layout := direct_layout 1 (λ _, 0) 0.
(** The bits of the sectors in use, 0 to 2. *)
Definition map_sector : list Z := 7 :: replicate 511 0.
Lemma map_sector_ok : is_sector map_sector.
Proof. split; [reflexivity|]. apply Forall_cons_2; [unfold is_u8; lia|]. apply Forall_replicate. unfold is_u8; lia. Qed.
Definition demo_disk : block := Block BLOCK_FILESYS 100 (λ n,
  if n =? 0 then encode_inode (new_disk 16 Lmap) else if n =? 1 then encode_inode (new_disk 0 Lempty) else if n =? 2 then map_sector else replicate 512 0) 0 0.
Definition demo_fs : fs cache :=
  Fs (cache_init demo_disk) (Bitmap 100 [7; 0; 0; 0]) (Some 500) [600; 500]
     {[500 := Inode 0 1 false 0 (new_disk 16 Lmap); 600 := Inode 1 1 false 0 (new_disk 0 Lempty)]}.
Definition ok : Z → bool := λ _, true.

Lemma demo_map_laid : laid_out (vw demo_fs) (new_disk 16 Lmap) Lmap.
Proof. apply direct_laid; done. Qed.
Lemma demo_empty_laid : laid_out (vw demo_fs) (new_disk 0 Lempty) Lempty.
Proof. apply direct_laid; done. Qed.
Lemma demo_store : store_ok (store demo_fs).
Proof.
  apply cache_init_ok. split; [done|by vm_compute|]. intros n. simpl. destruct (n =? 0); [|destruct (n =? 1); [|destruct (n =? 2)]].
  - apply encode_sector, demo_map_laid.
  - apply encode_sector, demo_empty_laid.
  - apply map_sector_ok.
  - by apply replicate_sector.
Qed.

Lemma demo_filled_map r : filled Lmap r → r = RInode ∨ r = RData 0.
Proof. destruct r as [| | |j|k]; simpl; sizes; try lia; [by left|]. intros [Hk _]. right. f_equal. lia. Qed.
Lemma demo_filled_empty r : filled Lempty r → r = RInode.
Proof. destruct r as [| | |j|k]; simpl; sizes; try lia; done. Qed.
Lemma demo_map_wf : wf (Bitmap 100 [7; 0; 0; 0]).
Proof. split; [by vm_compute|by vm_compute|]. repeat (apply Forall_cons_2; [by vm_compute|]). apply Forall_nil_2. Qed.
Lemma demo_map_file : file_ok demo_fs 500 (new_disk 16 Lmap) Lmap (Inode 0 1 false 0 (new_disk 16 Lmap)).
Proof.
  split; [|done| |split; [apply demo_map_wf|done]].
  - split; [done|apply demo_store|by vm_compute|done|apply demo_map_laid|]. split.
    + intros r r' [-> | ->]%demo_filled_map [-> | ->]%demo_filled_map; done.
    + intros n (r & [-> | ->]%demo_filled_map & <-); by vm_compute.
  - intros k Hk. simpl in *. assert (k = 0) as -> by lia. done.
Qed.
Lemma demo_empty_file : file_is demo_fs 600 Lempty (Inode 1 1 false 0 (new_disk 0 Lempty)) [].
Proof.
  split; [|done|done|intros o; change (zlen (@nil Z)) with 0; lia]. split; [|done| |split; [apply demo_map_wf|done]].
  - split; [done|apply demo_store|by vm_compute|done|apply demo_empty_laid|]. split.
    + by intros r r' ->%demo_filled_empty ->%demo_filled_empty.
    + intros n (r & ->%demo_filled_empty & <-); by vm_compute.
  - intros k Hk. simpl in *. lia.
Qed.
Lemma demo_room : room Lmap 500 demo_fs Lempty 30.
Proof.
  split_and!; [split; [apply demo_store|split; [apply demo_map_wf|done]|done| |]| |by vm_compute].
  - exists (new_disk 16 Lmap), (Inode 0 1 false 0 (new_disk 16 Lmap)). split; [apply demo_map_file|]. by vm_compute.
  - intros o. change (zlen _) with 16. intros Ho. assert (∃ k, o = Z.of_nat k ∧ (k < 16)%nat) as (k & -> & Hk) by (exists (Z.to_nat o); lia).
    do 16 (destruct k as [|k]; [reflexivity|]). lia.
  - intros n (r & ->%demo_filled_empty & <-) (r' & [-> | ->]%demo_filled_map & E); done.
Qed.

Lemma inode_write_correct_witness : runs (inode_write_at ok (save_map ok 1) 600 [10; 20; 30] 3 0) demo_fs (λ r _, r = 3).
Proof.
  refine (runs_mono _ _ _ _ (inode_write_correct ok eq_refl 0 Lmap 500 eq_refl demo_fs 600 Lempty (Inode 1 1 false 0 (new_disk 0 Lempty)) [] [10; 20; 30] 0 1
    demo_empty_file _ _ _ _ _ _ _) _).
  - destruct demo_room as (H1 & H2 & H3). split_and!; [exact H1|exact H2|vm_compute; discriminate].
  - discriminate.
  - reflexivity.
  - repeat (apply Forall_cons_2; [unfold is_u8; lia|]). apply Forall_nil_2.
  - vm_compute. split; discriminate.
  - vm_compute. discriminate.
  - vm_compute. discriminate.
  - intros r f' [-> _]. reflexivity.
Defined.
Lemma write_read_roundtrip_witness :
  runs (inode_write_at ok (save_map ok 1) 600 [10; 20; 30] 3 0;; inode_read_at ok (save_map ok 1) 600 3 0) demo_fs (λ r _, r = [10; 20; 30]).
Proof.
  apply (write_read_roundtrip ok eq_refl 0 Lmap 500 eq_refl (save_map ok 1) demo_fs 600 Lempty (Inode 1 1 false 0 (new_disk 0 Lempty)) [] [10; 20; 30] 0 30 demo_empty_file demo_room).
  - discriminate.
  - reflexivity.
  - repeat (apply Forall_cons_2; [unfold is_u8; lia|]). apply Forall_nil_2.
  - vm_compute. split; discriminate.
  - vm_compute. reflexivity.
  - vm_compute. discriminate.
Defined.
Lemma demo_map_bytes : file_is demo_fs 500 Lmap (Inode 0 1 false 0 (new_disk 16 Lmap)) (7 :: replicate 15 0).
Proof.
  split; [apply demo_map_file|reflexivity|vm_compute; discriminate|]. intros o Ho. change (zlen (7 :: replicate 15 0)) with 16 in Ho.
  assert (∃ k, o = Z.of_nat k ∧ (k < 16)%nat) as (k & -> & Hk) by (exists (Z.to_nat o); lia). do 16 (destruct k as [|k]; [reflexivity|]). lia.
Qed.
Lemma inode_read_correct_witness : runs (inode_read_at ok (save_map ok 1) 500 8 12) demo_fs (λ r _, r = [0; 0; 0; 0]).
Proof.
  refine (runs_mono _ _ _ _ (inode_read_correct ok eq_refl (save_map ok 1) demo_fs 500 Lmap (Inode 0 1 false 0 (new_disk 16 Lmap)) (7 :: replicate 15 0) 8 12 _ _ _ _) _).
  - apply demo_map_bytes.
  - vm_compute. reflexivity.
  - lia.
  - vm_compute. split; [discriminate|reflexivity].
  - intros r f' [-> _]. reflexivity.
Defined.

(** ** A write that is lost *)

(** Writing one byte at offset 1 of the empty file succeeds, the file is then
    two bytes long, and the byte is not there: [inode_expand_zero] leaves a hole,
    [byte_to_sector] fills it on disk, and [inode_write_at] ends by writing the
    inode as it was in memory, where the hole is still open. *)
Definition result {A} (r : outcome (A * fs cache)) : option A := match r with Done (a, _) => Some a | _ => None end.
Lemma sparse_write_lost :
  result ((n ← inode_write_at ok (save_map ok 1) 600 [65] 1 1; len ← inode_length 600; l ← inode_read_at ok (save_map ok 1) 600 2 0; mret (n, len, l)) demo_fs) =
  Some (1, 2, [0; 0]).
Proof. vm_compute. reflexivity. Qed.
