(* ===== verification/Directory.v ===== *)
(** * Directories, open files and paths
    (src/pintos/src/filesys/directory.c, file.c, filesys.c, the function
    [inode_open_path] of inode.c and [strtok_r] of src/pintos/src/lib/string.c)

    A directory is a file of 20-byte entries: the sector of an inode, a name of
    up to 14 characters, and whether the entry is in use.  A C string is the
    list of its bytes without the terminating zero.  A [struct dir] and a
    [struct file] are values that an operation returns anew.

    Parameters: [alloc], whether [malloc] succeeds; [save_map], the saving of
    the free map; [pick], the block [malloc] returns for a new inode; [junk], the
    20 bytes an uninitialised entry on the stack holds. *)

From S2P Require Import Prelude KList Bitmap Cache Inode.

Definition NAME_MAX : Z := 14.
(** [sizeof (struct dir_entry)], [sizeof (struct dir)], [sizeof (struct file)]. *)
Definition ENTRY_SIZE : Z := 20.
Definition DIR_SIZE : Z := 8.
Definition FILE_SIZE : Z := 16.

Record dir : Type := Dir { dir_inode : Z; dir_pos : Z }.
Record file : Type := File { file_inode : Z; file_dir : option dir; file_pos : Z; deny_write : bool }.

(** ** Strings *)

(** The string at the start of a buffer; [None] if it is not terminated. *)
Fixpoint cstr (l : list Z) : option (list Z) :=
  match l with
  | [] => None
  | c :: l => if c =? 0 then Some [] else (c ::.) <$> cstr l
  end.
(** The bytes [strlcpy (dst, src, size)] writes. *)
Definition strlcpy (src : list Z) (size : Z) : list Z :=
  if 0 <? size then take (Z.to_nat (size - 1)) src ++ [0] else [].

(** [strtok_r]: the token and the string left at [*save_ptr]. *)
Fixpoint skip_delims (delims s : list Z) : list Z :=
  match s with
  | c :: s' => if bool_decide (c ∈ delims) then skip_delims delims s' else s
  | [] => []
  end.
Fixpoint split_token (delims s : list Z) : list Z * list Z :=
  match s with
  | c :: s' => if bool_decide (c ∈ delims) then ([], s') else let '(t, r) := split_token delims s' in (c :: t, r)
  | [] => ([], [])
  end.
Definition strtok_r (delims s : list Z) : option (list Z) * list Z :=
  match skip_delims delims s with
  | [] => (None, [])
  | s => let '(t, r) := split_token delims s in (Some t, r)
  end.

(** ** Entries *)

Definition e_sector (e : list Z) : Z := le_value (take 4 e).
Definition e_name (e : list Z) : list Z := take 15 (drop 4 e).
Definition e_in_use (e : list Z) : bool := negb (default 0 (e !! 19%nat) =? 0).
Definition set_in_use (b : bool) (e : list Z) : list Z := overwrite 19 [if b then 1 else 0] e.
Definition set_name (name : list Z) (e : list Z) : list Z := overwrite 4 (strlcpy name 15) e.
Definition set_sector (n : Z) (e : list Z) : list Z := overwrite 0 (le_bytes 4 n) e.

(** [!strcmp (name, e.name)]. *)
Definition named (name : list Z) (e : list Z) : outcome bool :=
  n ← defined (cstr (e_name e)); Done (bool_decide (n = name)).
(** [e.in_use && !strcmp (name, e.name)]. *)
Definition entry_is (name e : list Z) : outcome bool := if e_in_use e then named name e else Done false.
Definition DOT : list Z := [46].
Definition DOTDOT : list Z := [46; 46].
(** [e.in_use && strcmp (e.name, ".") && strcmp (e.name, "..")]. *)
Definition entry_proper (e : list Z) : outcome bool :=
  if e_in_use e then a ← named DOT e; if a : bool then Done false else b ← named DOTDOT e; Done (negb b) else Done false.

Section directory.
Context {S : Type} `{!BlockStore S} (alloc : Z → bool) (save_map : M (fs S) bool) (pick : gmap Z inode → Z) (junk : list Z).
Abbreviation F := (fs S).
Abbreviation inode_read_at := (inode_read_at alloc save_map).
Abbreviation inode_write_at := (inode_write_at alloc save_map).
Abbreviation inode_close := (inode_close alloc save_map).
Abbreviation inode_create := (inode_create alloc save_map).

(** [inode_open (n)]. *)
Definition open_inode (n : Z) : M F Z := f ← get; inode_open alloc (pick (inodes f)) n.

(** [for (ofs = from; inode_read_at (inode, &e, sizeof e, ofs) == sizeof e;
    ofs += sizeof e)] until [p] holds for the entry read: whether it did, the
    offset, and the variable [e]. *)
Fixpoint scan (fuel : nat) (i : Z) (p : list Z → outcome bool) (e : list Z) (ofs : Z) : M F (bool * Z * list Z) :=
  match fuel with
  | O => out_of_fuel
  | Datatypes.S fuel =>
      d ← inode_read_at i ENTRY_SIZE ofs;
      let e := overwrite 0 d e in
      if zlen d =? ENTRY_SIZE then
        b ← lift (p e);
        if b : bool then mret (true, ofs, e) else scan fuel i p e (ofs + ENTRY_SIZE)
      else mret (false, ofs, e)
  end.
(** As many turns as there are entries, and one more. *)
Definition scan_from (i : Z) (p : list Z → outcome bool) (ofs : Z) : M F (bool * Z * list Z) :=
  x ← inode_at i; scan (Datatypes.S (Z.to_nat (dlength (idata x)))) i p junk ofs.

(** ** directory.c *)

Definition dir_open (i : Z) : M F (option dir) :=
  if negb (i =? NULL) && alloc DIR_SIZE then mret (Some (Dir i 0)) else inode_close i;; mret None.
Definition dir_open_root : M F (option dir) := i ← open_inode ROOT_DIR_SECTOR; dir_open i.
Definition dir_reopen (d : dir) : M F (option dir) := i ← inode_reopen (dir_inode d); dir_open i.
Definition dir_close (d : option dir) : M F unit := match d with Some d => inode_close (dir_inode d) | None => mret tt end.
Definition dir_get_inode (d : dir) : Z := dir_inode d.

(** The static function [lookup]: the entry and its offset. *)
Definition lookup_entry (d : option dir) (name : list Z) : M F (option (list Z * Z)) :=
  assert (bool_decide (is_Some d));;
  d ← lift (defined d);
  r ← scan_from (dir_inode d) (entry_is name) 0;
  let '(found, ofs, e) := r in
  mret (if found : bool then Some (e, ofs) else None).

(** The inode, null if there is none. *)
Definition dir_lookup (d : option dir) (name : list Z) : M F Z :=
  r ← lookup_entry d name;
  match r with Some (e, _) => open_inode (e_sector e) | None => mret NULL end.

Definition dir_add (d : option dir) (name : list Z) (inode_sector : Z) : M F bool :=
  assert (bool_decide (is_Some d));;
  d' ← lift (defined d);
  if bool_decide (name = []) || (NAME_MAX <? zlen name) then mret false else
  r ← lookup_entry d name;
  match r with
  | Some _ => mret false
  | None =>
      r ← scan_from (dir_inode d') (λ e, Done (negb (e_in_use e))) 0;
      let '(_, ofs, e) := r in
      let e := set_sector inode_sector (set_name name (set_in_use true e)) in
      n ← inode_write_at (dir_inode d') e ENTRY_SIZE ofs;
      mret (n =? ENTRY_SIZE)
  end.

Definition dir_is_empty (i : Z) : M F bool :=
  dir ← inode_is_dir i;
  if (i =? NULL) || negb dir then mret true else
  r ← scan_from i entry_proper 0;
  let '(found, _, _) := r in mret (negb found).

(** [cwd] is the inode of the running thread's current directory. *)
Definition dir_remove (cwd : Z) (d : option dir) (name : list Z) : M F bool :=
  assert (bool_decide (is_Some d));;
  d' ← lift (defined d);
  r ← lookup_entry d name;
  match r with
  | None => inode_close NULL;; mret false
  | Some (e, ofs) =>
      i ← open_inode (e_sector e);
      ok ← (if i =? NULL then mret false
            else if i =? cwd then mret false
            else
              is_dir ← inode_is_dir i;
              empty ← (if is_dir : bool then dir_is_empty i else mret true);
              if is_dir && negb empty then mret false else
              cnt ← inode_open_cnt i;
              if is_dir && (1 <? cnt) then mret false else
              n ← inode_write_at (dir_inode d') (set_in_use false e) ENTRY_SIZE ofs;
              if negb (n =? ENTRY_SIZE) then mret false else inode_remove i;; mret true);
      inode_close i;;
      mret ok
  end.

(** The name found, and the directory with its new position. *)
Definition read_next (p : list Z → outcome bool) (d : dir) : M F (option (list Z) * dir) :=
  r ← scan_from (dir_inode d) p (dir_pos d);
  let '(found, ofs, e) := r in
  if found : bool then
    n ← lift (defined (cstr (e_name e)));
    mret (Some (take (Z.to_nat NAME_MAX) n), Dir (dir_inode d) (ofs + ENTRY_SIZE))
  else mret (None, Dir (dir_inode d) ofs).
Definition dir_readdir (d : dir) : M F (option (list Z) * dir) := read_next (λ e, Done (e_in_use e)) d.
Definition dir_listdir (d : dir) : M F (option (list Z) * dir) := read_next entry_proper d.

Definition dir_entry_name (d : dir) (i : Z) : M F (option (list Z)) :=
  sector ← inode_get_inumber i;
  r ← scan_from (dir_inode d) (λ e, if e_in_use e && (e_sector e =? sector) then entry_proper e else Done false) 0;
  let '(found, _, e) := r in
  if found : bool then n ← lift (defined (cstr (e_name e))); mret (Some n) else mret None.

Definition dir_create (n entry_cnt : Z) : M F bool :=
  let entry_cnt := if entry_cnt <? 2 then entry_cnt + 2 else entry_cnt in
  f ← get;
  ok ← inode_create (pick (inodes f)) n (entry_cnt * ENTRY_SIZE) true;
  if negb ok then mret false else
  if n =? ROOT_DIR_SECTOR then
    i ← open_inode n;
    d ← dir_open i;
    a ← dir_add d DOT ROOT_DIR_SECTOR;
    ok ← (if a : bool then dir_add d DOTDOT ROOT_DIR_SECTOR else mret false);
    dir_close d;;
    mret ok
  else mret true.

(** ** file.c *)

Definition file_open (i : Z) : M F (option file) :=
  if negb (i =? NULL) && alloc FILE_SIZE then
    is_dir ← inode_is_dir i;
    d ← (if is_dir : bool then dir_open i else mret None);
    mret (Some (File i d 0 false))
  else inode_close i;; mret None.
Definition file_reopen (x : file) : M F (option file) := i ← inode_reopen (file_inode x); file_open i.
Definition file_get_inode (x : file) : Z := file_inode x.
Definition file_read (x : file) (size : Z) : M F (list Z * file) :=
  d ← inode_read_at (file_inode x) size (file_pos x); mret (d, File (file_inode x) (file_dir x) (file_pos x + zlen d) (deny_write x)).
Definition file_read_at (x : file) (size ofs : Z) : M F (list Z) := inode_read_at (file_inode x) size ofs.
Definition file_write (x : file) (buffer : list Z) (size : Z) : M F (Z * file) :=
  n ← inode_write_at (file_inode x) buffer size (file_pos x); mret (n, File (file_inode x) (file_dir x) (file_pos x + n) (deny_write x)).
Definition file_write_at (x : file) (buffer : list Z) (size ofs : Z) : M F Z := inode_write_at (file_inode x) buffer size ofs.
Definition file_deny_write (x : file) : M F file :=
  if deny_write x then mret x else inode_deny_write (file_inode x);; mret (File (file_inode x) (file_dir x) (file_pos x) true).
Definition file_allow_write (x : file) : M F file :=
  if deny_write x then inode_allow_write (file_inode x);; mret (File (file_inode x) (file_dir x) (file_pos x) false) else mret x.
Definition file_close (x : option file) : M F unit :=
  match x with Some x => file_allow_write x;; inode_close (file_inode x) | None => mret tt end.
Definition file_length (x : file) : M F Z := inode_length (file_inode x).
Definition file_seek (x : file) (pos : Z) : outcome file := ASSERT (0 <=? pos);; Done (File (file_inode x) (file_dir x) pos (deny_write x)).
Definition file_tell (x : file) : Z := file_pos x.

(** ** Paths *)

(** The delimiters [/] and [\ ]. *)
Definition DELIMS : list Z := [47; 92].

(** The loop over the tokens: the working directory, the file name, the inode,
    and whether there was an error. *)
Fixpoint walk (fuel : nat) (path : list Z) (d : option dir) (name : list Z) (i : Z) : M F (option dir * list Z * Z * bool) :=
  match fuel with
  | O => out_of_fuel
  | Datatypes.S fuel =>
      match strtok_r DELIMS path with
      | (None, _) => mret (d, name, i, false)
      | (Some token, []) => walk fuel [] d token i
      | (Some token, rest) =>
          i ← dir_lookup d token;
          if i =? NULL then mret (d, name, i, true) else
          is_dir ← inode_is_dir i;
          if is_dir : bool then dir_close d;; d ← dir_open i; walk fuel rest d name i
          else mret (d, name, i, true)
      end
  end.
(** The inode and the file name. *)
Definition inode_open_path (cwd : dir) (path_name : list Z) : M F (Z * list Z) :=
  if bool_decide (path_name = []) then mret (NULL, []) else
  if bool_decide (path_name = [47]) then i ← open_inode ROOT_DIR_SECTOR; mret (i, []) else
  if negb (alloc (zlen path_name + 1)) then undefined else
  d ← (if bool_decide (head path_name = Some 47) then dir_open_root else dir_reopen cwd);
  r ← walk (Datatypes.S (length path_name)) path_name d [] NULL;
  let '(d, name, i, error) := r in
  i ← (if error : bool then mret i else dir_lookup d DOT);
  dir_close d;;
  mret (i, name).

(** ** filesys.c *)

(** [*file_name] is written by [inode_open_path] and must have been allocated. *)
Definition need_name (name : list Z) : M F unit := if alloc (zlen name + 1) then mret tt else undefined.

(** [ok] is tested last to first: [a && b && ...] with the sector allocated. *)
Definition give_back (ok : bool) (n : Z) : M F unit :=
  if negb ok && negb (n =? 0) then free_map_release save_map n 1 else mret tt.

Definition filesys_create (cwd : dir) (name : list Z) (initial_size : Z) : M F bool :=
  need_name name;;
  r ← inode_open_path cwd name;
  let '(i, file_name) := r in
  if (i =? NULL) && bool_decide (file_name = []) then mret false else
  d ← dir_open i;
  n ← (if bool_decide (is_Some d) then free_map_allocate save_map 1 else mret None);
  f ← get;
  made ← match n with Some n => inode_create (pick (inodes f)) n initial_size false | None => mret false end;
  ok ← match n with Some n => if made : bool then dir_add d file_name n else mret false | None => mret false end;
  give_back ok (default 0 n);;
  dir_close d;;
  mret ok.

Definition filesys_mkdir (cwd : dir) (name : list Z) : M F bool :=
  r ← inode_open_path cwd name;
  let '(i, dir_name) := r in
  if NAME_MAX <? zlen dir_name then undefined else  (* the buffer on the stack *)
  if (i =? NULL) && bool_decide (dir_name = []) then mret false else
  d ← dir_open i;
  n ← (if bool_decide (is_Some d) then free_map_allocate save_map 1 else mret None);
  made ← match n with Some n => dir_create n 2 | None => mret false end;
  ok ← match n with Some n => if made : bool then dir_add d dir_name n else mret false | None => mret false end;
  give_back ok (default 0 n);;
  ok ← (if ok : bool then
          n ← lift (defined n);
          d' ← lift (defined d);
          j ← open_inode n;
          sub ← dir_open j;
          ok ← match sub with
               | None => mret false
               | Some _ =>
                   a ← dir_add sub DOT n;
                   if a : bool then p ← inode_get_inumber (dir_get_inode d'); dir_add sub DOTDOT p else mret false
               end;
          dir_close sub;;
          mret ok
        else mret false);
  dir_close d;;
  mret ok.

Definition filesys_open (cwd : dir) (name : list Z) : M F (option file) :=
  need_name name;;
  r ← inode_open_path cwd name;
  let '(p, file_name) := r in
  if p =? NULL then mret None else
  d ← dir_open p;
  i ← (if negb (bool_decide (file_name = [])) && negb (bool_decide (file_name = DOT)) && negb (bool_decide (file_name = DOTDOT))
       then dir_lookup d file_name
       else if bool_decide (file_name = DOTDOT) then dir_lookup d DOTDOT else dir_lookup d DOT);
  x ← (if i =? NULL then mret None else file_open i);
  dir_close d;;
  mret x.

Definition filesys_remove (cwd : dir) (name : list Z) : M F bool :=
  if bool_decide (name = [47]) then mret false else
  need_name name;;
  r ← inode_open_path cwd name;
  let '(p, file_name) := r in
  if p =? NULL then mret false else
  d ← dir_open p;
  ok ← dir_remove (dir_get_inode cwd) d (if bool_decide (file_name = []) then DOT else file_name);
  dir_close d;;
  mret ok.

(** ** Starting and stopping *)

(** [hdr] and [blk] are what [malloc] gives for the bitmap. *)
Definition free_map_init (size : Z) (hdr : bool) (blk : option (list Z)) : M F unit :=
  b ← lift (bitmap_create hdr blk size);
  b ← lift (match b with Some b => Done b | None => Panic end);
  b ← lift (bitmap_mark b FREE_MAP_SECTOR);
  b ← lift (bitmap_mark b ROOT_DIR_SECTOR);
  modify (set_free_map b).

(** [free_map_file = file_open (inode_open (FREE_MAP_SECTOR))]. *)
Definition open_map_file : M F file :=
  i ← open_inode FREE_MAP_SECTOR;
  x ← file_open i;
  match x with Some x => modify (set_map_file (Some (file_inode x)));; mret x | None => lift Panic end.
Definition free_map_open : M F unit :=
  x ← open_map_file;
  f ← get;
  d ← file_read_at x (bitmap_file_size (free_map f)) 0;
  r ← lift (bitmap_read (free_map f) d);
  let '(ok, b) := r in
  modify (set_free_map b);;
  assert ok.
Definition free_map_create : M F unit :=
  f ← get;
  ok ← inode_create (pick (inodes f)) FREE_MAP_SECTOR (bitmap_file_size (free_map f)) false;
  assert ok;;
  open_map_file;;
  ok ← save_map;
  assert ok.
(** The variable [free_map_file] keeps its value. *)
Definition free_map_close : M F unit := f ← get; match free_map_file f with Some i => inode_close i | None => mret tt end.

Definition do_format : M F unit :=
  free_map_create;;
  ok ← dir_create ROOT_DIR_SECTOR 16;
  assert ok;;
  free_map_close.
Definition filesys_init (size : Z) (hdr : bool) (blk : option (list Z)) (format : bool) : M F unit :=
  inode_init;;
  free_map_init size hdr blk;;
  (if format then do_format else mret tt);;
  free_map_open.
(** [flush] is [cache_flush_cache]. *)
Definition filesys_done (flush : M S unit) : M F unit := on_store flush;; free_map_close.
End directory.
