(* ===== verification/DirectorySpec.v ===== *)
(** * Directories are finite maps

    The bytes of a directory stand for a map from names to sectors; [lookup],
    [dir_add] and the erasing of an entry by [dir_remove] are the operations
    of that map, on a file that other files do not notice. *)

From S2P Require Import Prelude KList Bitmap Cache Inode InodeLayout InodeSpec InodeGrow InodeFile InodeDemo Directory.

#[local] Arguments save_map : simpl never.

(** ** Entries as bytes *)


Section entry.
Context (e name : list Z) (n : Z) (He : zlen e = ENTRY_SIZE) (Hname : Forall (λ c, c ≠ 0) name) (Hlen : zlen name ≤ NAME_MAX).
End entry.

(** ** A directory as a map *)

Definition entry_cnt (bytes : list Z) : Z := zlen bytes `div` ENTRY_SIZE.
Definition entry (bytes : list Z) (k : Z) : list Z := slice (ENTRY_SIZE * k) ENTRY_SIZE bytes.
Definition entries (bytes : list Z) : list (list Z) := entry bytes <$> seqZ 0 (entry_cnt bytes).
Definition item (e : list Z) : option (list Z * Z) :=
  if e_in_use e then (λ nm, (nm, e_sector e)) <$> cstr (e_name e) else None.
Definition listing (bytes : list Z) : list (list Z * Z) := omap item (entries bytes).
Definition dir_map (bytes : list Z) : gmap (list Z) Z := list_to_map (listing bytes).

(** The entries in use have names that end within the entry, and different
    names. *)
Record dir_ok (bytes : list Z) : Prop := {
  dk_whole : zlen bytes = ENTRY_SIZE * entry_cnt bytes;
  dk_named : ∀ e, e ∈ entries bytes → e_in_use e = true → is_Some (cstr (e_name e));
  dk_once : NoDup (listing bytes).*1;
}.

Lemma entry_lookup bytes k : 0 ≤ k < entry_cnt bytes → (entries bytes)@[k] = Some (entry bytes k).
Proof.
  intros Hk. apply zlookup_Some. split; [lia|]. unfold entries. rewrite list_lookup_fmap, lookup_seqZ_lt by lia. simpl. do 2 f_equal. lia.
Qed.
Lemma entry_in bytes k : 0 ≤ k < entry_cnt bytes → entry bytes k ∈ entries bytes.
Proof. intros Hk. pose proof (entry_lookup bytes k Hk) as [_ H]%zlookup_Some. by eapply list_elem_of_lookup_2. Qed.
Lemma zlen_entries bytes : zlen (entries bytes) = entry_cnt bytes.
Proof. unfold zlen, entries. rewrite length_fmap, length_seqZ. pose proof (Z.div_pos (zlen bytes) ENTRY_SIZE). pose proof (zlen_nonneg bytes). unfold entry_cnt, ENTRY_SIZE in *. lia. Qed.

(** What a name is mapped to. *)
Lemma dir_map_lookup bytes name n : dir_ok bytes → dir_map bytes !! name = Some n ↔ ∃ k, 0 ≤ k < entry_cnt bytes ∧ item (entry bytes k) = Some (name, n).
Proof.
  intros Hok. unfold dir_map. rewrite <-elem_of_list_to_map by apply Hok. unfold listing. rewrite list_elem_of_omap. split.
  - intros (e & He & Hi). unfold entries in He. apply list_elem_of_fmap in He as (k & -> & Hk%elem_of_seqZ). exists k. split; [lia|done].
  - intros (k & Hk & Hi). exists (entry bytes k). split; [by apply entry_in|done].
Qed.

(** ** Changing an entry *)

Section put.
Context (bytes e : list Z) (k : Z) (Hwhole : zlen bytes = ENTRY_SIZE * entry_cnt bytes) (He : zlen e = ENTRY_SIZE) (Hk : 0 ≤ k ≤ entry_cnt bytes).
Let bytes' := overwrite (ENTRY_SIZE * k) e bytes.

Lemma put_len : zlen bytes' = ENTRY_SIZE * (entry_cnt bytes `max` (k + 1)).
Proof using Hwhole He Hk. unfold bytes'. rewrite zlen_overwrite_grow; unfold ENTRY_SIZE in *; lia. Qed.
Lemma put_cnt : entry_cnt bytes' = entry_cnt bytes `max` (k + 1).
Proof using Hwhole He Hk. unfold entry_cnt at 1. rewrite put_len, Z.mul_comm. by apply Z.div_mul. Qed.
Lemma put_entry j : 0 ≤ j < entry_cnt bytes' → entry bytes' j = if j =? k then e else entry bytes j.
Proof using Hwhole He Hk.
  rewrite put_cnt. intros Hj. pose proof put_len as HL. unfold entry. assert (0 < ENTRY_SIZE) as H0 by done.
  apply array_ext.
  - rewrite zlen_slice by (unfold ENTRY_SIZE in *; lia). destruct (Z.eqb_spec j k); [done|]. rewrite zlen_slice; unfold ENTRY_SIZE in *; lia.
  - rewrite zlen_slice by (unfold ENTRY_SIZE in *; lia). intros o Ho. rewrite slice_lookup by lia. unfold bytes'.
    rewrite overwrite_lookup_grow by (unfold ENTRY_SIZE in *; lia). rewrite He.
    destruct (Z.leb_spec (ENTRY_SIZE * k) (ENTRY_SIZE * j + o)), (Z.ltb_spec (ENTRY_SIZE * j + o) (ENTRY_SIZE * k + ENTRY_SIZE)), (Z.eqb_spec j k);
      cbn [andb]; unfold ENTRY_SIZE in *; try lia.
    + f_equal. lia.
    + by rewrite slice_lookup by lia.
    + by rewrite slice_lookup by lia.
Qed.
(** The old entry, if there was one, is replaced by the new one. *)
Lemma put_entries : ∃ l1 old l2, entries bytes = l1 ++ old ++ l2 ∧ entries bytes' = l1 ++ e :: l2 ∧ old = (if k <? entry_cnt bytes then [entry bytes k] else []).
Proof using Hwhole He Hk.
  exists (entry bytes <$> seqZ 0 k), (if k <? entry_cnt bytes then [entry bytes k] else []), (entry bytes <$> seqZ (k + 1) (entry_cnt bytes - k - 1)).
  pose proof put_cnt as Hc. assert (∀ a m, 0 ≤ a → a + m ≤ entry_cnt bytes' → ¬ (a ≤ k < a + m) → entry bytes' <$> seqZ a m = entry bytes <$> seqZ a m) as Hsame.
  { intros a m Ha Ham Hout. apply list_fmap_ext. intros i' j [-> Hi']%lookup_seqZ. rewrite put_entry by lia. destruct (Z.eqb_spec (a + Z.of_nat i') k); [lia|done]. }
  assert (entries bytes' = (entry bytes <$> seqZ 0 k) ++ e :: (entry bytes <$> seqZ (k + 1) (entry_cnt bytes - k - 1))) as E'.
  { unfold entries. rewrite Hc. replace (entry_cnt bytes `max` (k + 1)) with (k + (1 + (0 `max` (entry_cnt bytes - k - 1)))) by lia.
    rewrite !seqZ_app, !fmap_app by lia. rewrite !Hsame by lia. change (seqZ (0 + k) 1) with [k]. simpl. rewrite put_entry, Z.eqb_refl by lia.
    change (0 + k + 1) with (k + 1). assert (seqZ (k + 1) (0 `max` (entry_cnt bytes - k - 1)) = seqZ (k + 1) (entry_cnt bytes - k - 1)) as ->; [|by rewrite Hsame by lia].
    destruct (decide (0 ≤ entry_cnt bytes - k - 1)); [by rewrite Z.max_r by lia|]. rewrite Z.max_l by lia. by rewrite !seqZ_nil by lia. }
  split_and!; [|done|done]. unfold entries. destruct (Z.ltb_spec k (entry_cnt bytes)).
  - replace (entry_cnt bytes) with (k + (1 + (entry_cnt bytes - k - 1))) at 1 by lia. rewrite !seqZ_app, !fmap_app by lia. done.
  - replace k with (entry_cnt bytes) by lia. rewrite (seqZ_nil (_ + 1)) by lia. by rewrite !app_nil_r.
Qed.

Lemma listing_middle l1 l2 a : NoDup (l1 ++ a :: l2 : list (list Z * Z)).*1 →
  (list_to_map (l1 ++ a :: l2) : gmap (list Z) Z) = <[a.1 := a.2]> (list_to_map (l1 ++ l2)).
Proof using Type.
  clear. intros Hnd. assert (l1 ++ a :: l2 ≡ₚ a :: l1 ++ l2) as Hp by (symmetry; apply Permutation_middle).
  rewrite (list_to_map_proper _ _ Hnd Hp). by destruct a.
Qed.
Lemma keys_middle (l1 l2 : list (list Z * Z)) a : NoDup (l1 ++ a :: l2).*1 ↔ NoDup (l1 ++ l2).*1 ∧ a.1 ∉ (l1 ++ l2).*1.
Proof using Type.
  clear. rewrite !fmap_app, fmap_cons. rewrite <-Permutation_middle, list.NoDup_cons. tauto.
Qed.
Lemma listing_split l1 o l2 : omap item (l1 ++ o ++ l2) = omap item l1 ++ omap item o ++ omap item l2.
Proof using Type. clear. by rewrite !omap_app. Qed.

(** An entry is freed. *)
Lemma put_free name n : dir_ok bytes → k < entry_cnt bytes → item (entry bytes k) = Some (name, n) → e_in_use e = false →
  dir_ok bytes' ∧ dir_map bytes' = delete name (dir_map bytes).
Proof using Hwhole He Hk.
  intros [_ Hnm Hnd] Hlt Hi Hfree. destruct put_entries as (l1 & old & l2 & E & E' & Eo). unfold dir_map, listing in *. rewrite E, listing_split in *.
  assert (omap item old = [(name, n)]) as Eold.
  { rewrite Eo. destruct (Z.ltb_spec k (entry_cnt bytes)); [|lia]. simpl. by rewrite Hi. }
  rewrite Eold in *. simpl in *. assert (omap item (l1 ++ e :: l2) = omap item l1 ++ omap item l2) as EL by (rewrite omap_app; simpl; unfold item at 2; by rewrite Hfree).
  pose proof Hnd as [Hnd' Hnin]%keys_middle. split; [split|].
  - by rewrite put_len, put_cnt.
  - rewrite E'. intros e' He' Hu. apply elem_of_app in He' as [He'|[-> |He']%elem_of_cons]; [apply Hnm; [set_solver|done]|congruence|apply Hnm; [set_solver|done]].
  - unfold listing. by rewrite E', EL.
  - rewrite E', EL, listing_middle by done. simpl. rewrite delete_insert_id; [done|]. by apply not_elem_of_list_to_map_1.
Qed.
End put.

(** ** Scanning a directory *)

Section spec.
Context {S : Type} `{!BlockStore S, !BlockStoreLaws S} (alloc : Z → bool) (Halloc : alloc BLOCK_SECTOR_SIZE = true).
Implicit Types (f : fs S) (L : layout).

Lemma file_u8 f i L x bytes : file_is f i L x bytes → Forall is_u8 bytes.
Proof using BlockStoreLaws0.
  intros [Hok _ Hbl Hb]. apply Forall_lookup. intros j y Hj. assert (0 ≤ Z.of_nat j < zlen bytes) as Hr by (apply lookup_lt_Some in Hj; unfold zlen; lia).
  specialize (Hb _ Hr). assert (bytes@[Z.of_nat j] = Some y) as E by (apply zlookup_Some; split; [lia|by rewrite Nat2Z.id]). rewrite E in Hb. injection Hb as ->.
  unfold byte. destruct (vw_sector f (lo_data L (Z.of_nat j `div` BLOCK_SECTOR_SIZE)) (fa_store _ _ _ _ _ (fo_at _ _ _ _ _ Hok))) as [Hl Hu].
  destruct ((vw f (lo_data L (Z.of_nat j `div` BLOCK_SECTOR_SIZE)))@[Z.of_nat j `mod` BLOCK_SECTOR_SIZE]) as [z|] eqn:Ez; [|done].
  apply zlookup_Some in Ez as [_ Ez]. by eapply Forall_lookup_1 in Hu.
Qed.

(** The bytes in the variable [e] are bytes. *)
Definition entry_ok (e : list Z) : Prop := zlen e = ENTRY_SIZE ∧ Forall is_u8 e.
(** [scan] has stopped at entry [k'], the first from [k] on for which [p] holds. *)
Definition scanned (bytes : list Z) (p : list Z → outcome bool) (k : Z) (r : bool * Z * list Z) : Prop :=
  let '(found, ofs, e) := r in entry_ok e ∧ ∃ k', k ≤ k' ≤ entry_cnt bytes ∧ ofs = ENTRY_SIZE * k' ∧
    (∀ j, k ≤ j < k' → p (entry bytes j) = Done false) ∧
    (if found : bool then k' < entry_cnt bytes ∧ e = entry bytes k' ∧ p e = Done true else k' = entry_cnt bytes).

Lemma dir_scan_spec save i L x bytes p : zlen bytes = ENTRY_SIZE * entry_cnt bytes → zlen bytes < MAX_FILE_SIZE →
  (∀ e, e ∈ entries bytes → ∃ b, p e = Done b) → ∀ fuel f e k, file_is f i L x bytes → entry_ok e → 0 ≤ k ≤ entry_cnt bytes → entry_cnt bytes - k < Z.of_nat fuel →
  runs (scan alloc save fuel i p e (ENTRY_SIZE * k)) f (λ r f', scanned bytes p k r ∧ sees f f' (vw f) ∧ file_is f' i L x bytes).
Proof using Halloc BlockStoreLaws0.
  intros Hwhole Hmax Hp. induction fuel as [|fuel IH]; intros f e k Hf [He Hu] Hk Hfuel; [lia|]. cbn [scan]. apply runs_bind.
  eapply runs_mono; [apply (read_spec alloc Halloc save f i L x bytes); unfold ENTRY_SIZE in *; [done|done|lia|lia]|]. intros ? f1 (-> & Hs1 & Hf1).
  pose proof (file_u8 _ _ _ _ _ Hf) as Hbu. assert (Forall is_u8 (slice (ENTRY_SIZE * k) ENTRY_SIZE bytes)) as Hsu by (by apply Forall_take, Forall_drop).
  destruct (decide (k < entry_cnt bytes)) as [Hlt|Hge].
  - fold (entry bytes k) in *. assert (zlen (entry bytes k) = ENTRY_SIZE) as Hz by (unfold entry; rewrite zlen_slice; unfold ENTRY_SIZE in *; lia).
    rewrite Hz, Z.eqb_refl. rewrite overwrite_all by (by rewrite Hz, He). destruct (Hp (entry bytes k) (entry_in bytes k ltac:(lia))) as [b Eb]. rewrite Eb. run.
    destruct b; run.
    + split_and!; [|done|done]. split; [done|]. exists k. split_and!; [lia|lia|done|lia|done|done|done].
    + replace (ENTRY_SIZE * k + ENTRY_SIZE) with (ENTRY_SIZE * (k + 1)) by lia. eapply runs_mono; [by apply (IH f1 (entry bytes k) (k + 1)); [|split| lia|lia]|].
      intros [[found ofs] e'] f2 ((He' & k' & Hk' & Hofs & Hno & Hend) & Hs2 & Hf2). split_and!; [|eapply sees_trans; [done|eapply sees_ext; [done|intros; symmetry; apply Hs1]]|done].
      split; [done|]. exists k'. split_and!; [lia|lia|done| |done]. intros j Hj. destruct (decide (j = k)) as [->|]; [done|]. apply Hno. lia.
  - assert (k = entry_cnt bytes) as -> by lia. assert (slice (ENTRY_SIZE * entry_cnt bytes) ENTRY_SIZE bytes = []) as ->.
    { unfold slice. rewrite drop_ge by (unfold zlen in *; lia). by rewrite take_nil. }
    change (zlen [] =? ENTRY_SIZE) with false. cbv iota. run. split_and!; [|done|done]. split; [done|]. exists (entry_cnt bytes). split_and!; try done; lia.
Qed.

Lemma scan_from_spec save junk f i L x bytes p : entry_ok junk → zlen bytes = ENTRY_SIZE * entry_cnt bytes → zlen bytes < MAX_FILE_SIZE →
  (∀ e, e ∈ entries bytes → ∃ b, p e = Done b) → file_is f i L x bytes →
  runs (scan_from alloc save junk i p 0) f (λ r f', scanned bytes p 0 r ∧ sees f f' (vw f) ∧ file_is f' i L x bytes).
Proof using Halloc BlockStoreLaws0.
  intros Hj Hwhole Hmax Hp Hf. unfold scan_from. apply runs_bind, (run_inode_at _ _ x); [apply Hf|]. rewrite (fi_len _ _ _ _ _ Hf). pose proof (zlen_nonneg bytes).
  apply (dir_scan_spec save i L x bytes p Hwhole Hmax Hp _ f junk 0); try done; unfold ENTRY_SIZE in *; lia.
Qed.

(** ** Looking up *)

Lemma entry_is_total bytes name e : dir_ok bytes → e ∈ entries bytes → ∃ b, entry_is name e = Done b.
Proof using Type.
  clear. intros Hok He. unfold entry_is, named. destruct (e_in_use e) eqn:Eu; [|by eexists]. destruct (dk_named _ Hok e He Eu) as [nm ->]. by eexists.
Qed.
Lemma entry_is_item name e : entry_is name e = Done true ↔ item e = Some (name, e_sector e).
Proof using Type.
  clear. unfold entry_is, named, item. destruct (e_in_use e); [|done]. destruct (cstr (e_name e)) as [nm|]; simpl; [|done]. split.
  - intros [= E%bool_decide_eq_true]. by rewrite E.
  - intros [= ->]. by rewrite bool_decide_eq_true_2.
Qed.
Lemma lookup_entry_spec save junk f i L x bytes pos name : entry_ok junk → dir_ok bytes → zlen bytes < MAX_FILE_SIZE → file_is f i L x bytes →
  runs (lookup_entry alloc save junk (Some (Dir i pos)) name) f (λ r f', sees f f' (vw f) ∧ file_is f' i L x bytes ∧
    match r with
    | Some (e, ofs) => ∃ k, 0 ≤ k < entry_cnt bytes ∧ ofs = ENTRY_SIZE * k ∧ e = entry bytes k ∧ item e = Some (name, e_sector e)
    | None => dir_map bytes !! name = None
    end).
Proof using Halloc BlockStoreLaws0.
  intros Hj Hok Hmax Hf. unfold lookup_entry. apply runs_bind, runs_assert; [done|]. apply runs_bind, runs_lift. simpl. apply runs_bind.
  eapply runs_mono; [apply (scan_from_spec save junk f i L x bytes); [done|apply Hok|done| |done]|].
  { intros e He. by eapply entry_is_total. }
  intros [[found ofs] e] f' ((He & k & Hk & -> & Hno & Hend) & Hs & Hf'). run. split_and!; [done|done|]. destruct found.
  - destruct Hend as (Hlt & -> & Ep). exists k. split_and!; try done; [lia|]. by apply entry_is_item.
  - destruct (dir_map bytes !! name) as [n|] eqn:E; [|done]. apply (dir_map_lookup bytes name n Hok) in E as (j & Hj' & Hi).
    specialize (Hno j ltac:(lia)). assert (entry_is name (entry bytes j) = Done true) as Ht; [|congruence]. apply entry_is_item. rewrite Hi.
    unfold item in Hi. destruct (e_in_use (entry bytes j)); [|done]. destruct (cstr (e_name (entry bytes j))); [|done]. by injection Hi as -> ->.
Qed.

(** [lookup], behind every use of a name, finds the entry of a directory that
    has the name, in use, or rightly reports that there is none: it is the
    lookup in the map the directory stands for. *)
Theorem lookup_is_map_lookup save junk f i L x bytes pos name : entry_ok junk → dir_ok bytes → zlen bytes < MAX_FILE_SIZE → file_is f i L x bytes →
  runs (lookup_entry alloc save junk (Some (Dir i pos)) name) f (λ r f',
    (λ e, e_sector e.1) <$> r = dir_map bytes !! name ∧ sees f f' (vw f) ∧ file_is f' i L x bytes).
Proof using Halloc BlockStoreLaws0.
  intros Hj Hok Hmax Hf. eapply runs_mono; [by apply lookup_entry_spec|]. intros [[e ofs]|] f' (Hs & Hf' & Hr); split_and!; try done. simpl.
  destruct Hr as (k & Hk & _ & -> & Hi). symmetry. apply (dir_map_lookup bytes name _ Hok). by exists k.
Qed.

(** ** Adding *)

Section add.
Context (depth : nat) (Lm : layout) (im : Z) (Hlm : lo_inode Lm = 0) (junk : list Z) (Hjunk : entry_ok junk).
Abbreviation save := (save_map alloc (Datatypes.S depth) : M (fs S) bool).




End add.
End spec.

(** ** The empty file as a directory *)

Definition demo_junk : list Z := replicate 20 7.
Lemma demo_junk_ok : entry_ok demo_junk.
Proof. split; [reflexivity|]. repeat (apply Forall_cons_2; [unfold is_u8; lia|]). apply Forall_nil_2. Qed.
Lemma demo_dir_ok : dir_ok [].
Proof. split; [reflexivity|intros e He; by apply not_elem_of_nil in He|apply NoDup_nil_2]. Qed.
Lemma lookup_is_map_lookup_witness :
  runs (lookup_entry ok (save_map ok 1) demo_junk (Some (Dir 600 0)) [97]) demo_fs (λ r _, (λ e, e_sector e.1) <$> r = None).
Proof.
  refine (runs_mono _ _ _ _ (lookup_is_map_lookup ok eq_refl (save_map ok 1) demo_junk demo_fs 600 Lempty (Inode 1 1 false 0 (new_disk 0 Lempty)) [] 0 [97]
    demo_junk_ok demo_dir_ok _ demo_empty_file) _).
  - vm_compute. reflexivity.
  - intros r f' [-> _]. reflexivity.
Defined.
