(* ===== verification/Ustar.v ===== *)
(** * Archives (src/pintos/src/lib/ustar.c)

    A header is its 512 bytes; a file name is the list of its characters.
    [strlcpy] stores what Directory.v says, and [snprintf] the text of
    StdioSpec.v as far as it fits, with a null character
    ([snprintf_bounded]).  The message printed for a name that is too long is
    left out. *)

From stdpp Require Import strings.
From S2P Require Import Prelude KList Inode InodeSpec Directory Stdio StdioSpec.

Definition USTAR_REGULAR : Z := 48.
Definition USTAR_DIRECTORY : Z := 53.
Definition USTAR_EOF : Z := -1.
Definition USTAR_HEADER_SIZE : Z := 512.

(** The bytes of the header that count for its checksum, from [i] on: those
    of the field [chksum] as spaces. *)
Fixpoint sum_from (i : Z) (h : list Z) : Z :=
  match h with
  | [] => 0
  | b :: h => (if (148 <=? i) && (i <? 156) then 32 else b) + sum_from (i + 1) h
  end.
Definition calculate_chksum (h : list Z) : Z := u32 (sum_from 0 h).

(** [while (...) file_name = strchr (file_name, '/') + 1]. *)
Fixpoint after_slash (s : list Z) : list Z :=
  match s with [] => [] | c :: s => if c =? 47 then s else after_slash s end.
Definition antisocial (s : list Z) : bool :=
  bool_decide (take 1 s = [47]) || bool_decide (take 2 s = [46; 47]) || bool_decide (take 3 s = [46; 46; 47]).
Fixpoint strip (fuel : nat) (s : list Z) : list Z :=
  match fuel with
  | O => s
  | S fuel => if antisocial s then strip fuel (after_slash s) else s
  end.
Definition strip_antisocial_prefixes (s : list Z) : list Z :=
  let s := strip (length s) s in if bool_decide (s = []) || bool_decide (s = [46; 46]) then [46] else s.

(** Fields of the header. *)
Definition put_string (ofs size : Z) (s h : list Z) : list Z := overwrite ofs (strlcpy s size) h.
Definition put_text (ofs size : Z) (format : string) (args : list arg) (h : list Z) : outcome (list Z) :=
  t ← text (chars format) args; Done (overwrite ofs (take (Z.to_nat (size - 1)) t ++ [0]) h).
Definition ustar_make_header (file_name : list Z) (type size : Z) : outcome (option (list Z)) :=
  ASSERT ((type =? USTAR_REGULAR) || (type =? USTAR_DIRECTORY));;
  let file_name := strip_antisocial_prefixes file_name in
  if 99 <? zlen file_name then Done None else
  let h := replicate (Z.to_nat USTAR_HEADER_SIZE) 0 in
  let h := put_string 0 100 file_name h in
  h ← put_text 100 8 "%07o" [Word (if type =? USTAR_REGULAR then 420 else 493)] h;
  let h := put_string 108 8 (chars "0000000") h in
  let h := put_string 116 8 (chars "0000000") h in
  h ← put_text 124 12 "%011o" [Word size] h;
  h ← put_text 136 12 "%011o" [Word 1136102400] h;
  let h := overwrite 156 [type] h in
  let h := put_string 257 6 (chars "ustar") h in
  let h := overwrite 263 [48; 48] h in
  let h := put_string 297 32 (chars "root") h in
  let h := put_string 265 32 (chars "root") h in
  h ← put_text 148 8 "%07o" [Word (calculate_chksum h)] h;
  Done (Some h).

(** The loop of [parse_octal_field], at offset [ofs] of the field. *)
Fixpoint parse_octal (ofs value : Z) (s : list Z) : option Z :=
  match s with
  | [] => None
  | c :: s =>
      if (48 <=? c) && (c <=? 55) then
        if (2 ^ 32 - 1) `div` 8 <? value then None else parse_octal (ofs + 1) (c - 48 + value * 8) s
      else if (c =? 32) || (c =? 0) then if 0 <? ofs then Some value else None
      else None
  end.
Definition parse_octal_field (s : list Z) : option Z := parse_octal 0 0 s.
Definition is_all_zeros (h : list Z) : bool := forallb (λ b, b =? 0) h.

(** What is found: an error message, or a name ([None] at the end of the
    archive), a type and a size. *)
Inductive parsed : Type := Corrupt (message : string) | Entry (file_name : option (list Z)) (type size : Z).
Definition ustar_parse_header (h : list Z) : outcome parsed :=
  if is_all_zeros h then Done (Entry None USTAR_EOF 0) else
  if negb (bool_decide (slice 257 6 h = chars "ustar" ++ [0])) then Done (Corrupt "not a ustar archive") else
  if negb (bool_decide (slice 263 2 h = [48; 48])) then Done (Corrupt "invalid ustar version") else
  match parse_octal_field (slice 148 8 h) with
  | None => Done (Corrupt "corrupt chksum field")
  | Some chksum =>
      if negb (chksum =? calculate_chksum h) then Done (Corrupt "checksum mismatch") else
      if negb (bool_decide (slice 99 1 h = [0])) || negb (bool_decide (slice 345 1 h = [0])) then Done (Corrupt "file name too long") else
      typeflag ← rd h 156;
      if negb (typeflag =? USTAR_REGULAR) && negb (typeflag =? USTAR_DIRECTORY) then Done (Corrupt "unimplemented file type") else
      name ← defined (cstr (slice 0 100 h));
      let found size := Done (Entry (Some (strip_antisocial_prefixes name)) typeflag size) in
      if typeflag =? USTAR_REGULAR then
        match parse_octal_field (slice 124 12 h) with
        | None => Done (Corrupt "corrupt file size field")
        | Some size => if 2 ^ 31 - 1 <? size then Done (Corrupt "file too large") else found size
        end
      else found 0
  end.

(** ** Octal numbers, printed and read *)

Definition is_octal (c : Z) : Prop := 48 ≤ c ≤ 55.
Definition octal (v : Z) (ds : list Z) : Z := foldl (λ v d, v * 8 + (d - 48)) v ds.
Lemma octal_app v ds ds' : octal v (ds ++ ds') = octal (octal v ds) ds'.
Proof. apply foldl_app. Qed.
Lemma octal_zeros n ds : octal 0 (replicate n 48 ++ ds) = octal 0 ds.
Proof. induction n as [|n IH]; [done|]. exact IH. Qed.
Lemma octal_shift ds : ∀ v, Forall is_octal ds → 0 ≤ v → v ≤ octal v ds.
Proof.
  induction ds as [|d ds IH]; intros v Hd Hv; [simpl; lia|]. apply Forall_cons_1 in Hd as [Hd Hds]. unfold is_octal in Hd. pose proof (IH (v * 8 + (d - 48)) Hds ltac:(lia)).
  change (octal v (d :: ds)) with (octal (v * 8 + (d - 48)) ds). lia.
Qed.
Lemma octal_char r : 0 ≤ r < 8 → (digits base_o)@[r] = Some (48 + r).
Proof. intros Hr. assert (r = 0 ∨ r = 1 ∨ r = 2 ∨ r = 3 ∨ r = 4 ∨ r = 5 ∨ r = 6 ∨ r = 7) as H by lia. by repeat destruct H as [-> | H]; [..|subst]. Qed.
Lemma octal_digits fuel : ∀ c value cnt buf buf' k, has (flags c) GROUP = false → 0 ≤ value < 8 ^ Z.of_nat k → digits_loop fuel base_o c value cnt buf = Done buf' →
  ∃ ds, buf' = ds ++ buf ∧ Forall is_octal ds ∧ octal 0 ds = value ∧ (length ds ≤ k)%nat.
Proof.
  induction fuel as [|fuel IH]; intros c value cnt buf buf' k Hg Hv E; [done|]. cbn [digits_loop] in E. destruct (Z.ltb_spec 0 value); cycle 1.
  { injection E as <-. exists []. split_and!; [done|constructor|cbn; lia|simpl; lia]. }
  rewrite Hg in E. cbn [andb] in E. change (base base_o) with 8 in E. pose proof (Z.mod_pos_bound value 8 ltac:(lia)) as Hm. rewrite (rd_Some _ _ _ (octal_char _ Hm)) in E.
  cbn [mbind outcome_bind] in E. apply bind_done in E as (b1 & Hb1 & E). unfold push in Hb1. destruct (zlen buf <? 64); [|done]. injection Hb1 as <-.
  destruct k as [|k]; [change (8 ^ Z.of_nat 0) with 1 in Hv; lia|]. rewrite Nat2Z.inj_succ, Z.pow_succ_r in Hv by lia.
  apply (IH _ _ _ _ _ k) in E as (ds & -> & Hd & Hn & Hk); [|done|split; [apply Z.div_pos; lia|apply Z.div_lt_upper_bound; lia]]. exists (ds ++ [48 + value `mod` 8]). split_and!.
  - by rewrite <-app_assoc.
  - apply Forall_app. split; [done|]. repeat constructor; lia.
  - rewrite octal_app, Hn. cbn [octal foldl]. pose proof (Z.div_mod value 8 ltac:(lia)). lia.
  - rewrite length_app. simpl. lia.
Qed.
Definition octal_conversion (w : Z) : printf_conversion := {| flags := ZERO; width := w; precision := -1; type := INT |}.
(** What [%0wo] prints: [w] octal digits. *)
Lemma octal_text v w : 0 ≤ v < 8 ^ w → 1 ≤ w ≤ 21 → ∃ ds, integer_text v false false base_o (octal_conversion w) = Done ds ∧ Forall is_octal ds ∧ octal 0 ds = v ∧ zlen ds = w.
Proof.
  intros Hv Hw. unfold integer_text, integer_buffer. assert (8 ^ w ≤ 8 ^ 22) as H22 by (apply Z.pow_le_mono_r; lia).
  destruct (digits_loop_bound 22 65 base_o (octal_conversion w) v 0 []) as (buf & E & Hl); [by right; left|change (Z.of_nat 22) with 22; lia|lia|lia|lia|by rewrite zlen_nil|].
  rewrite E. apply (octal_digits _ _ _ _ _ _ (Z.to_nat w)) in E as (ds & -> & Hd & Hn & Hk); [|done|by rewrite Z2Nat.id by lia]. rewrite app_nil_r in *. cbn [mbind outcome_bind].
  change (if precision (octal_conversion w) <? 0 then 1 else precision (octal_conversion w)) with 1. destruct (zeros_loop_spec 64 1 ds) as (n & -> & Hz); [pose proof (zlen_nonneg ds); lia|lia|].
  set (buf := replicate n 48 ++ ds) in *. change (sign_of false false (octal_conversion w)) with 0. change (x_of v base_o (octal_conversion w)) with 0. change (has (flags (octal_conversion w)) POUND) with false. change (has (flags (octal_conversion w)) (Z.lor MINUS ZERO)) with true. change (has (flags (octal_conversion w)) ZERO) with true. change (has (flags (octal_conversion w)) MINUS) with false. cbn [andb negb on Z.eqb app mbind outcome_bind]. rewrite app_nil_r.
  assert (zlen buf ≤ w) as Hb by (unfold zlen in *; lia). exists (replicate (Z.to_nat (pad_of buf 0 0 (octal_conversion w))) 48 ++ buf). split_and!; [done| | |].
  - unfold buf. repeat (apply Forall_app; split); try done; apply Forall_replicate; unfold is_octal; lia.
  - unfold buf. by rewrite !octal_zeros.
  - rewrite zlen_app, zlen_replicate. unfold pad_of. simpl (width _). cbn [Z.eqb]. lia.
Qed.
Lemma text_07o v : 0 ≤ v < 8 ^ 7 → ∃ ds, text (chars "%07o") [Word v] = Done ds ∧ Forall is_octal ds ∧ octal 0 ds = v ∧ zlen ds = 7.
Proof.
  intros Hv. destruct (octal_text v 7 Hv) as (ds & E & H); [lia|]. exists ds. split; [|done].
  change (text (chars "%07o") [Word v]) with (t ← integer_text (u32 v) false false base_o (octal_conversion 7); Done (t ++ [])). rewrite u32_small by (change (8 ^ 7) with 2097152 in Hv; lia). rewrite E. cbn. by rewrite app_nil_r.
Qed.
Lemma text_011o v : 0 ≤ v < 2 ^ 32 → ∃ ds, text (chars "%011o") [Word v] = Done ds ∧ Forall is_octal ds ∧ octal 0 ds = v ∧ zlen ds = 11.
Proof.
  intros Hv. destruct (octal_text v 11) as (ds & E & H); [change (8 ^ 11) with 8589934592; lia|lia|]. exists ds. split; [|done].
  change (text (chars "%011o") [Word v]) with (t ← integer_text (u32 v) false false base_o (octal_conversion 11); Done (t ++ [])). rewrite u32_small by lia. rewrite E. cbn. by rewrite app_nil_r.
Qed.
Lemma parse_octal_number ds : ∀ ofs v, Forall is_octal ds → 0 ≤ v → octal v ds < 2 ^ 32 → 0 < ofs + zlen ds → 0 ≤ ofs → parse_octal ofs v (ds ++ [0]) = Some (octal v ds).
Proof.
  induction ds as [|d ds IH]; intros ofs v Hd Hv Ho Hp Hofs; cbn [parse_octal app].
  { change (zlen (@nil Z)) with 0 in Hp. destruct (Z.ltb_spec 0 ofs); [done|lia]. }
  apply Forall_cons_1 in Hd as [Hd Hds]. change (octal v (d :: ds)) with (octal (v * 8 + (d - 48)) ds) in *. unfold is_octal in Hd. pose proof (octal_shift ds (v * 8 + (d - 48)) Hds ltac:(lia)).
  destruct (Z.leb_spec 48 d), (Z.leb_spec d 55); try lia. cbn [andb]. change ((2 ^ 32 - 1) `div` 8) with 536870911. destruct (Z.ltb_spec 536870911 v); [lia|].
  replace (d - 48 + v * 8) with (v * 8 + (d - 48)) by lia. pose proof (zlen_nonneg ds). apply IH; try done; lia.
Qed.
(** ** Names *)

Definition is_char (c : Z) : Prop := 0 < c < 256.
Lemma after_slash_short s : s ≠ [] → (length (after_slash s) < length s)%nat.
Proof. induction s as [|c s IH]; [done|]. intros _. cbn [after_slash length]. destruct (c =? 47); [lia|]. destruct s as [|d s]; [simpl; lia|]. specialize (IH ltac:(done)). lia. Qed.
Lemma after_slash_Forall (Q : Z → Prop) s : Forall Q s → Forall Q (after_slash s).
Proof. induction 1 as [|c s Hc Hs IH]; [constructor|]. cbn [after_slash]. by destruct (c =? 47). Qed.
Lemma strip_done fuel : ∀ s, (length s ≤ fuel)%nat → antisocial (strip fuel s) = false.
Proof.
  induction fuel as [|fuel IH]; intros s Hs; [by destruct s; [|simpl in Hs; lia]|]. cbn [strip]. destruct (antisocial s) eqn:E; [|done]. apply IH.
  assert (s ≠ []) as Hne by (by intros ->). pose proof (after_slash_short s Hne). lia.
Qed.
Lemma strip_Forall (Q : Z → Prop) fuel : ∀ s, Forall Q s → Forall Q (strip fuel s).
Proof. induction fuel as [|fuel IH]; intros s Hs; [done|]. cbn [strip]. destruct (antisocial s); [apply IH; by apply after_slash_Forall|done]. Qed.
Lemma strip_stable s : antisocial s = false → ∀ fuel, strip fuel s = s.
Proof. intros H [|fuel]; [done|]. cbn [strip]. by rewrite H. Qed.
(** A name that was stripped has nothing left to strip. *)
Lemma strip_twice s : strip_antisocial_prefixes (strip_antisocial_prefixes s) = strip_antisocial_prefixes s.
Proof.
  unfold strip_antisocial_prefixes at 2 3. pose proof (strip_done (length s) s ltac:(lia)) as H. set (r := strip (length s) s) in *. cbn zeta. destruct (_ || _) eqn:E; [done|].
  unfold strip_antisocial_prefixes. rewrite strip_stable by done. cbn zeta. by rewrite E.
Qed.
Lemma strip_chars s : Forall is_char s → Forall is_char (strip_antisocial_prefixes s).
Proof. intros Hs. unfold strip_antisocial_prefixes. cbn zeta. case_match; [constructor; [unfold is_char; lia|constructor]|by apply strip_Forall]. Qed.
Lemma cstr_app s r : Forall is_char s → cstr (s ++ 0 :: r) = Some s.
Proof.
  induction 1 as [|c s Hc Hs IH]; [done|]. unfold is_char in Hc. cbn [app cstr]. destruct (Z.eqb_spec c 0); [lia|]. by rewrite IH.
Qed.

(** ** Fields *)

Definition is_header (h : list Z) : Prop := zlen h = 512 ∧ Forall is_u8 h.
Lemma put_at h ofs src : is_header h → Forall is_u8 src → 0 ≤ ofs → ofs + zlen src ≤ 512 →
  is_header (overwrite ofs src h) ∧ slice ofs (zlen src) (overwrite ofs src h) = src ∧
  ∀ o n, 0 ≤ o → 0 ≤ n → o + n ≤ 512 → o + n ≤ ofs ∨ ofs + zlen src ≤ o → slice o n (overwrite ofs src h) = slice o n h.
Proof.
  intros [Hl Hu] Hs Ho Hr. pose proof (zlen_nonneg src). split_and!.
  - split; [rewrite zlen_overwrite; lia|]. unfold overwrite. apply Forall_app. split; [by apply Forall_take|]. apply Forall_app. split; [done|by apply Forall_drop].
  - apply slice_overwrite. lia.
  - intros o n H1 H2 H3 H4. apply slice_overwrite_disjoint; lia.
Qed.
Lemma sum_from_ext h : ∀ h' i, zlen h = zlen h' → (∀ j, 0 ≤ j → ¬ (148 ≤ i + j < 156) → h@[j] = h'@[j]) → sum_from i h = sum_from i h'.
Proof.
  induction h as [|b h IH]; intros [|b' h'] i Hl H; [done|unfold zlen in Hl; simpl in Hl; lia..|]. rewrite !zlen_cons in Hl.
  cbn [sum_from]. f_equal.
  - specialize (H 0 ltac:(lia)). rewrite Z.add_0_r in H. destruct (Z.leb_spec 148 i), (Z.ltb_spec i 156); cbn [andb]; try done; specialize (H ltac:(lia)); by injection H.
  - apply IH; [lia|]. intros j Hj Hn. specialize (H (1 + j) ltac:(lia) ltac:(lia)). change (b :: h) with ([b] ++ h) in H. change (b' :: h') with ([b'] ++ h') in H. rewrite !zlookup_app in H. change (zlen [b]) with 1 in H. change (zlen [b']) with 1 in H.
    destruct (Z.ltb_spec (1 + j) 1); [lia|]. by replace (1 + j - 1) with j in H by lia.
Qed.
Lemma sum_from_bound h : ∀ i, Forall is_u8 h → 0 ≤ sum_from i h ≤ 255 * zlen h.
Proof.
  induction h as [|b h IH]; intros i Hu; [simpl; change (zlen (@nil Z)) with 0; lia|]. apply Forall_cons_1 in Hu as [Hb Hu]. cbn [sum_from]. rewrite zlen_cons. specialize (IH (i + 1) Hu). unfold is_u8 in Hb. destruct (_ && _); lia.
Qed.
Lemma chksum_range h : is_header h → 0 ≤ calculate_chksum h < 8 ^ 7 ∧ calculate_chksum h = sum_from 0 h.
Proof. intros [Hl Hu]. pose proof (sum_from_bound h 0 Hu) as H. rewrite Hl in H. unfold calculate_chksum. rewrite u32_small by lia. change (8 ^ 7) with 2097152. lia. Qed.
(** The checksum does not depend on its own field. *)
Lemma chksum_own_field h src : is_header h → zlen src = 8 → calculate_chksum (overwrite 148 src h) = calculate_chksum h.
Proof.
  intros [Hl Hu] Hs. unfold calculate_chksum. f_equal. apply sum_from_ext; [rewrite zlen_overwrite; lia|]. intros j Hj Hn. rewrite overwrite_lookup by lia. rewrite Hs.
  destruct (Z.leb_spec 148 j), (Z.ltb_spec j (148 + 8)); try done. lia.
Qed.
Lemma slice_one h o b : 0 ≤ o → slice o 1 h = [b] → h@[o] = Some b.
Proof. intros Ho H. pose proof (slice_lookup o 1 h 0 Ho ltac:(lia)) as E. rewrite H, Z.add_0_r in E. by rewrite <- E. Qed.
Lemma not_all_zeros h o b : h@[o] = Some b → b ≠ 0 → is_all_zeros h = false.
Proof.
  intros H Hb. unfold is_all_zeros. destruct (forallb _ h) eqn:E; [|done]. rewrite forallb_forall in E. apply zlookup_Some in H as [_ H%list_elem_of_lookup_2]. destruct Hb. apply Z.eqb_eq, E. by apply list_elem_of_In.
Qed.
Lemma octal_u8 ds : Forall is_octal ds → Forall is_u8 ds.
Proof. intros H. eapply Forall_impl; [|exact H]. unfold is_octal, is_u8. intros; lia. Qed.
(** [snprintf] of digits that fill the field. *)
Lemma put_digits ofs size format args h ds : text (chars format) args = Done ds → zlen ds = size - 1 → 0 ≤ size → put_text ofs size format args h = Done (overwrite ofs (ds ++ [0]) h).
Proof. intros E Hd Hs. unfold put_text. rewrite E. cbn [mbind outcome_bind]. rewrite firstn_all2; [done|]. unfold zlen in Hd. lia. Qed.
(** ** Headers *)

Lemma parse_fields h name type size cs ss r : is_header h → Forall is_octal cs → zlen cs = 7 → Forall is_octal ss → zlen ss = 11 → Forall is_char name → (type = USTAR_REGULAR ∨ type = USTAR_DIRECTORY) → 0 ≤ size < 2 ^ 31 →
  slice 257 6 h = chars "ustar" ++ [0] → slice 263 2 h = [48; 48] → slice 148 8 h = cs ++ [0] → octal 0 cs = calculate_chksum h → slice 99 1 h = [0] → slice 345 1 h = [0] → slice 156 1 h = [type] →
  slice 0 100 h = name ++ 0 :: r → slice 124 12 h = ss ++ [0] → octal 0 ss = size →
  ustar_parse_header h = Done (Entry (Some (strip_antisocial_prefixes name)) type (if type =? USTAR_REGULAR then size else 0)).
Proof.
  intros Hh Hcs Hcl Hss Hsl Hname Htype Hsize E1 E2 E3 Ec E4 E5 E6 E7 E8 Es. unfold ustar_parse_header. destruct (chksum_range h Hh) as [Hcr _]. change (8 ^ 7) with 2097152 in Hcr.
  rewrite (not_all_zeros h 156 type) by (first [by apply slice_one | unfold USTAR_REGULAR, USTAR_DIRECTORY in Htype; lia]).
  rewrite E1, E2, E3, E4, E5. rewrite !bool_decide_true by done. cbn [negb orb]. unfold parse_octal_field. rewrite parse_octal_number by (done || lia). rewrite Ec, Z.eqb_refl. cbn [negb].
  rewrite (rd_Some _ _ _ (slice_one h 156 type ltac:(lia) E6)). cbn [mbind outcome_bind]. rewrite E7, cstr_app by done. cbn [defined mbind outcome_bind]. rewrite E8.
  rewrite parse_octal_number by (done || lia). rewrite Es. destruct (Z.ltb_spec (2 ^ 31 - 1) size); [lia|]. unfold USTAR_REGULAR, USTAR_DIRECTORY in *. by destruct Htype as [-> | ->].
Qed.
Lemma short_name name : zlen name ≤ 99 → strlcpy name 100 = name ++ [0].
Proof. intros H. unfold strlcpy. simpl. rewrite firstn_all2; [done|]. unfold zlen in H. lia. Qed.
(** The first field of a header of zeros. *)
Lemma name_field name : zlen name ≤ 99 → ∃ r, slice 0 100 (overwrite 0 (name ++ [0]) (replicate 512 0)) = name ++ 0 :: r ∧ slice 99 1 (overwrite 0 (name ++ [0]) (replicate 512 0)) = [0].
Proof.
  intros Hn. pose proof (zlen_nonneg name). assert (zlen (replicate 512 0) = 512) as Hz by done. set (h := overwrite 0 (name ++ [0]) (replicate 512 0)).
  assert (zlen h = 512) as Hh by (unfold h; rewrite zlen_overwrite; rewrite ?zlen_app, ?Hz; change (zlen [0]) with 1; lia).
  exists (slice (zlen name + 1) (99 - zlen name) h). split.
  - apply array_ext; [rewrite zlen_app, zlen_cons, !zlen_slice; lia|]. intros j Hj. rewrite zlen_slice in Hj by lia. rewrite slice_lookup by lia. unfold h at 1. rewrite overwrite_lookup by (rewrite ?zlen_app, ?Hz; change (zlen [0]) with 1; lia).
    rewrite zlen_app, !zlookup_app. change (zlen [0]) with 1. rewrite ?Z.add_0_l, !Z.sub_0_r. destruct (Z.leb_spec 0 j), (Z.ltb_spec j (zlen name + 1)), (Z.ltb_spec j (zlen name)); try lia; cbn [andb]; [done|by replace (j - zlen name) with 0 by lia|].
    change (0 :: slice (zlen name + 1) (99 - zlen name) h) with ([0] ++ slice (zlen name + 1) (99 - zlen name) h). rewrite zlookup_app. change (zlen [0]) with 1. destruct (Z.ltb_spec (j - zlen name) 1); [lia|].
    rewrite slice_lookup by lia. replace (zlen name + 1 + (j - zlen name - 1)) with j by lia. unfold h. rewrite overwrite_lookup by (rewrite ?zlen_app, ?Hz; change (zlen [0]) with 1; lia). rewrite zlen_app. change (zlen [0]) with 1.
    destruct (Z.ltb_spec j (0 + (zlen name + 1))); [lia|]. by rewrite andb_false_r.
  - apply array_ext; [rewrite zlen_slice by lia; done|]. intros j Hj. rewrite zlen_slice in Hj by lia. assert (j = 0) as -> by lia. rewrite slice_lookup by lia. unfold h. rewrite overwrite_lookup by (rewrite ?zlen_app, ?Hz; change (zlen [0]) with 1; lia).
    rewrite zlen_app, zlookup_app. change (zlen [0]) with 1. destruct (Z.leb_spec 0 (99 + 0)), (Z.ltb_spec (99 + 0) (0 + (zlen name + 1))), (Z.ltb_spec (99 + 0 - 0) (zlen name)); try lia; cbn [andb]; [|by vm_compute]. by replace (99 + 0 - 0 - zlen name) with 0 by lia.
Qed.
(** A header as the fields written to it, in order. *)
Definition put_fields (fs : list (Z * list Z)) (h : list Z) : list Z := foldl (λ h f, overwrite f.1 f.2 h) h fs.
Lemma put_fields_nil h : put_fields [] h = h.
Proof. done. Qed.
Lemma put_fields_cons o src fs h : put_fields ((o, src) :: fs) h = put_fields fs (overwrite o src h).
Proof. done. Qed.
Definition is_field (f : Z * list Z) : Prop := Forall is_u8 f.2 ∧ 0 ≤ f.1 ∧ f.1 + zlen f.2 ≤ 512.
Definition apart_from (o n : Z) (f : Z * list Z) : Prop := o + n ≤ f.1 ∨ f.1 + zlen f.2 ≤ o.
Lemma put_fields_header fs : ∀ h, is_header h → Forall is_field fs → is_header (put_fields fs h).
Proof.
  induction fs as [|f fs IH]; intros h Hh Hf; [done|]. apply Forall_cons_1 in Hf as [(H1 & H2 & H3) Hf]. apply IH; [|done]. by apply put_at.
Qed.
Lemma put_fields_apart fs o n : 0 ≤ o → 0 ≤ n → o + n ≤ 512 → ∀ h, is_header h → Forall is_field fs → Forall (apart_from o n) fs → slice o n (put_fields fs h) = slice o n h.
Proof.
  intros Ho Hn Hr. induction fs as [|f fs IH]; intros h Hh Hf Ha; [done|]. apply Forall_cons_1 in Hf as [(H1 & H2 & H3) Hf], Ha as [Ha Hs].
  destruct (put_at h f.1 f.2 Hh H1 H2 H3) as (H4 & _ & H5). etransitivity; [apply (IH _ H4 Hf Hs)|by apply H5].
Qed.
Lemma put_fields_at fs o src fs' h n : is_header h → Forall is_field (fs ++ (o, src) :: fs') → Forall (apart_from o n) fs' → zlen src = n → slice o n (put_fields (fs ++ (o, src) :: fs') h) = src.
Proof.
  intros Hh Hf Ha <-. apply Forall_app in Hf as [Hf [(H1 & H2 & H3) Hf']%Forall_cons_1]. unfold put_fields. rewrite foldl_app. cbn [foldl]. pose proof (put_fields_header fs h Hh Hf) as Hp.
  pose proof (zlen_nonneg src). destruct (put_at _ o src Hp H1 H2 H3) as (H4 & H5 & _). etransitivity; [apply (put_fields_apart fs' o (zlen src)); done|exact H5].
Qed.

Lemma zeros_header : is_header (replicate 512 0).
Proof. split; [done|]. apply Forall_replicate. unfold is_u8. lia. Qed.
(** The fields of the header of a file, its checksum apart. *)
Definition header_fields (name mode ss mtime : list Z) (type : Z) : list (Z * list Z) :=
  [(0, name ++ [0]); (100, mode ++ [0]); (108, chars "0000000" ++ [0]); (116, chars "0000000" ++ [0]); (124, ss ++ [0]); (136, mtime ++ [0]);
   (156, [type]); (257, chars "ustar" ++ [0]); (263, [48; 48]); (297, chars "root" ++ [0]); (265, chars "root" ++ [0])].
Lemma header_fields_ok name mode ss mtime type : Forall is_char name → zlen name ≤ 99 → Forall is_octal mode → zlen mode = 7 → Forall is_octal ss → zlen ss = 11 → Forall is_octal mtime → zlen mtime = 11 → is_u8 type →
  Forall is_field (header_fields name mode ss mtime type).
Proof.
  intros Hn Ln Hm Lm Hs Ls Ht Lt Hy. assert (∀ ds, Forall is_u8 ds → Forall is_u8 (ds ++ [0])) as H0 by (intros; apply Forall_app; split; [done|repeat constructor; unfold is_u8; lia]).
  assert (Forall is_u8 name) as Hn' by (eapply Forall_impl; [|exact Hn]; unfold is_char, is_u8; intros; lia). assert (∀ ds, zlen (ds ++ [0]) = zlen ds + 1) as L0 by (intros; by rewrite zlen_app).
  repeat apply Forall_cons_2; [..|apply Forall_nil_2]; unfold is_field; cbn [fst snd]; rewrite ?L0, ?Lm, ?Ls, ?Lt; (split_and!; [first [by auto using octal_u8 | by apply constant_u8 | by repeat constructor]|lia|first [lia | done]]).
Qed.
(** What [ustar_make_header] composes. *)
Lemma header_composed file_name type size : let name := strip_antisocial_prefixes file_name in
  type = USTAR_REGULAR ∨ type = USTAR_DIRECTORY → 0 ≤ size < 2 ^ 31 → Forall is_char name → zlen name ≤ 99 →
  ∃ mode ss mtime cs, let h := put_fields (header_fields name mode ss mtime type) (replicate 512 0) in
    Forall is_octal ss ∧ zlen ss = 11 ∧ octal 0 ss = size ∧ Forall is_octal cs ∧ zlen cs = 7 ∧ octal 0 cs = calculate_chksum h ∧ zlen mode = 7 ∧ zlen mtime = 11 ∧
    Forall is_field (header_fields name mode ss mtime type) ∧ ustar_make_header file_name type size = Done (Some (overwrite 148 (cs ++ [0]) h)).
Proof.
  intros name Htype Hsize Hname Hlen. assert (is_u8 type) as Hty by (destruct Htype as [-> | ->]; by split).
  destruct (text_07o (if type =? USTAR_REGULAR then 420 else 493)) as (md & Emd & Hmd & _ & Lmd); [destruct (type =? USTAR_REGULAR); lia|].
  destruct (text_011o size) as (ss & Ess & Hss & Vss & Lss); [lia|]. destruct (text_011o 1136102400) as (mt & Emt & Hmt & _ & Lmt); [lia|].
  assert (Forall is_field (header_fields name md ss mt type)) as Hf by (by apply header_fields_ok).
  assert (is_header (put_fields (header_fields name md ss mt type) (replicate 512 0))) as Hh by (apply put_fields_header; [apply zeros_header|done]). destruct (chksum_range _ Hh) as [Hcr _].
  destruct (text_07o _ Hcr) as (cs & Ecs & Hcs & Vcs & Lcs). exists md, ss, mt, cs. cbv zeta. refine (conj Hss (conj Lss (conj Vss (conj Hcs (conj Lcs (conj Vcs (conj Lmd (conj Lmt (conj Hf _))))))))).
  unfold header_fields in *. rewrite !put_fields_cons, put_fields_nil in *.
  unfold ustar_make_header. fold name. assert ((type =? USTAR_REGULAR) || (type =? USTAR_DIRECTORY) = true) as -> by (by destruct Htype as [-> | ->]). cbn [ASSERT mbind outcome_bind].
  destruct (Z.ltb_spec 99 (zlen name)) as [|_]; [lia|]. unfold put_string. rewrite short_name by done. change (Z.to_nat USTAR_HEADER_SIZE) with 512%nat. cbn zeta.
  change (strlcpy (chars "0000000") 8) with (chars "0000000" ++ [0]). change (strlcpy (chars "ustar") 6) with (chars "ustar" ++ [0]). change (strlcpy (chars "root") 32) with (chars "root" ++ [0]).
  rewrite (put_digits _ 8 _ _ _ md Emd) by (done || lia). rewrite bind_Done. rewrite (put_digits _ 12 _ _ _ ss Ess) by (done || lia). rewrite bind_Done.
  rewrite (put_digits _ 12 _ _ _ mt Emt) by (done || lia). rewrite bind_Done.
  rewrite (put_digits _ 8 _ _ _ cs Ecs) by (done || lia). by rewrite bind_Done.
Qed.
Ltac fields_apart := repeat apply Forall_cons_2; [..|apply Forall_nil_2]; unfold apart_from; cbn [fst snd];
  repeat match goal with L : ∀ ds, zlen (ds ++ [0]) = _ |- _ => rewrite L | L : zlen ?x = _ |- context [zlen ?x] => rewrite L end; lia.
(** Each field of the composed header is read back. *)
Lemma header_slices name mode ss mtime type h : h = put_fields (header_fields name mode ss mtime type) (replicate 512 0) → Forall is_field (header_fields name mode ss mtime type) →
  zlen name ≤ 99 → zlen mode = 7 → zlen ss = 11 → zlen mtime = 11 →
  slice 257 6 h = chars "ustar" ++ [0] ∧ slice 263 2 h = [48; 48] ∧ slice 345 1 h = [0] ∧ slice 156 1 h = [type] ∧ slice 124 12 h = ss ++ [0] ∧ slice 99 1 h = [0] ∧ ∃ r, slice 0 100 h = name ++ 0 :: r.
Proof.
  intros -> Hf Ln Lm Ls Lt. pose proof zeros_header as H0. pose proof (zlen_nonneg name).
  assert (∀ ds, zlen (ds ++ [0]) = zlen ds + 1) as L0 by (intros; by rewrite zlen_app). assert (zlen (ss ++ [0]) = 12) as L12 by (rewrite L0; lia).
  assert (zlen (chars "0000000") = 7 ∧ zlen (chars "ustar") = 5 ∧ zlen (chars "root") = 4 ∧ zlen [type] = 1 ∧ zlen [48; 48] = 2) as (C1 & C2 & C3 & C4 & C5) by done.
  split_and!.
  - apply (put_fields_at (take 7 (header_fields name mode ss mtime type))); [done..| |done]. fields_apart.
  - apply (put_fields_at (take 8 (header_fields name mode ss mtime type))); [done..| |done]. fields_apart.
  - etransitivity; [apply put_fields_apart; [lia..|done|done|]|done]. fields_apart.
  - apply (put_fields_at (take 6 (header_fields name mode ss mtime type))); [done..| |done]. fields_apart.
  - apply (put_fields_at (take 4 (header_fields name mode ss mtime type))); [done..| |done]. fields_apart.
  - destruct (name_field name Ln) as (r & _ & <-). apply (put_fields_apart (drop 1 (header_fields name mode ss mtime type))); [lia..|apply (put_fields_header (take 1 (header_fields name mode ss mtime type))); [done|by apply Forall_take]|by apply (Forall_drop _ 1) in Hf|]. fields_apart.
  - destruct (name_field name Ln) as (r & E & _). exists r. rewrite <- E. apply (put_fields_apart (drop 1 (header_fields name mode ss mtime type))); [lia..|apply (put_fields_header (take 1 (header_fields name mode ss mtime type))); [done|by apply Forall_take]|by apply (Forall_drop _ 1) in Hf|]. fields_apart.
Qed.
Lemma header_roundtrip file_name type size : Forall is_char file_name → type = USTAR_REGULAR ∨ type = USTAR_DIRECTORY → 0 ≤ size < 2 ^ 31 →
  let name := strip_antisocial_prefixes file_name in
  if 99 <? zlen name then ustar_make_header file_name type size = Done None
  else ∃ h, ustar_make_header file_name type size = Done (Some h) ∧ zlen h = USTAR_HEADER_SIZE ∧
    ustar_parse_header h = Done (Entry (Some name) type (if type =? USTAR_REGULAR then size else 0)).
Proof.
  intros Hf Htype Hsize name. pose proof (strip_chars file_name Hf) as Hname. fold name in Hname. destruct (Z.ltb_spec 99 (zlen name)) as [Hlong|Hlen].
  { unfold ustar_make_header. fold name. apply Z.ltb_lt in Hlong. rewrite Hlong. by destruct Htype as [-> | ->]. }
  destruct (header_composed file_name type size Htype Hsize Hname Hlen) as (mode & ss & mtime & cs & Hs & Ls & Vs & Hc & Lc & Vc & Lm & Lt & Hfs & E). fold name in E, Vc, Hfs.
  destruct (header_slices name mode ss mtime type _ eq_refl Hfs Hlen Lm Ls Lt) as (S1 & S2 & S3 & S4 & S5 & S6 & r & S7). pose proof (put_fields_header _ _ zeros_header Hfs) as Hh.
  set (h := put_fields _ _) in *. clearbody h. assert (Forall is_u8 (cs ++ [0])) as Hcu by (apply Forall_app; split; [by apply octal_u8|repeat constructor; unfold is_u8; lia]).
  assert (zlen (cs ++ [0]) = 8) as L8 by (rewrite zlen_app, Lc; done). destruct (put_at h 148 (cs ++ [0]) Hh Hcu) as (H1 & H2 & H3); [lia|lia|]. rewrite L8 in H2, H3.
  exists (overwrite 148 (cs ++ [0]) h). split; [done|]. split; [apply H1|]. assert (strip_antisocial_prefixes name = name) as Est by apply strip_twice. rewrite <- Est.
  rewrite <- (chksum_own_field h (cs ++ [0]) Hh L8) in Vc. apply (parse_fields _ name type size cs ss r); try done; by rewrite H3 by lia.
Qed.
(** A header that [ustar_make_header] composes is read back by
    [ustar_parse_header]: the name without its dangerous prefixes, the type
    and the size of a regular file, over the whole range of [int].  A
    stripped name of more than 99 characters is refused. *)
Theorem ustar_roundtrip file_name type size : Forall is_char file_name → type = USTAR_REGULAR ∨ type = USTAR_DIRECTORY → 0 ≤ size < 2 ^ 31 →
  let name := strip_antisocial_prefixes file_name in
  if 99 <? zlen name then ustar_make_header file_name type size = Done None
  else ∃ h, ustar_make_header file_name type size = Done (Some h) ∧ zlen h = USTAR_HEADER_SIZE ∧
    ustar_parse_header h = Done (Entry (Some name) type (if type =? USTAR_REGULAR then size else 0)).
Proof. apply header_roundtrip. Qed.
Lemma ustar_roundtrip_witness : ∃ h, ustar_make_header (chars "../a") USTAR_REGULAR 1234 = Done (Some h) ∧ ustar_parse_header h = Done (Entry (Some (chars "a")) USTAR_REGULAR 1234).
Proof.
  assert (Forall is_char (chars "../a")) as H by (repeat (apply Forall_cons_2; [split; reflexivity|]); apply Forall_nil_2).
  destruct (ustar_roundtrip (chars "../a") USTAR_REGULAR 1234 H) as (h & E & _ & P); [left; reflexivity|split; [discriminate|reflexivity]|]. exists h. split; [exact E|exact P].
Defined.
