(* ===== verification/Fsutil.v ===== *)
(** * Archives on the scratch device (src/pintos/src/filesys/fsutil.c)

    [fsutil_append] copies a file to the scratch device as a ustar archive and [fsutil_extract]
    unpacks an archive from there; [fsutil_rm] deletes a file.  They work on any file system, given
    by the operations they call; [directory_files] is the one of Directory.v.  The theorems hold for
    every file system: they say what is on the device and which operations are called.  What is
    printed is left out. *)

From stdpp Require Import strings.
From S2P Require Import Prelude KList Cache Inode Directory Stdio StdioSpec CStdlib Ustar.

Class FileSystem (F H : Type) := {
  fs_create : list Z → Z → M F bool;
  fs_open : list Z → M F (option H);
  fs_remove : list Z → M F bool;
  fs_length : H → M F Z;
  fs_tell : H → Z;
  fs_read : H → Z → M F (list Z * H);
  fs_write : H → list Z → Z → M F (Z * H);
  fs_close : H → M F unit }.
#[export] Instance directory_files {S} `{!BlockStore S} (alloc : Z → bool) (save_map : M (fs S) bool) (pick : gmap Z inode → Z) (junk : list Z) (cwd : dir) : FileSystem (fs S) file := {
  fs_create := filesys_create alloc save_map pick junk cwd;
  fs_open := filesys_open alloc save_map pick junk cwd;
  fs_remove := filesys_remove alloc save_map pick junk cwd;
  fs_length := file_length;
  fs_tell := file_tell;
  fs_read := file_read alloc save_map;
  fs_write := file_write alloc save_map;
  fs_close h := file_close alloc save_map (Some h) }.

Section fsutil.
Context {F H : Type} `{!FileSystem F H}.
(** Whether the buffers can be allocated, and the byte that follows the buffer
    of [fsutil_append] in memory. *)
Context (malloc : bool) (stray : Z).

(** The file system, the sectors of the scratch device, if there is one, and the
    two static variables [sector]. *)
Record host := Host { fsys : F; scratch : option (list (list Z)); extract_sector : Z; append_sector : Z }.
Definition set_fsys (f : F) (w : host) : host := Host f (scratch w) (extract_sector w) (append_sector w).
Definition set_scratch (l : list (list Z)) (w : host) : host := Host (fsys w) (Some l) (extract_sector w) (append_sector w).
Definition set_extract_sector (n : Z) (w : host) : host := Host (fsys w) (scratch w) n (append_sector w).
Definition set_append_sector (n : Z) (w : host) : host := Host (fsys w) (scratch w) (extract_sector w) n.
Definition on_fs {A} (m : M F A) : M host A := λ w, '(a, f) ← m (fsys w); Done (a, set_fsys f w).
Definition need {A} (b : bool) (m : M host A) : M host A := if b then m else lift Panic.

Definition scratch_sectors : M host (list (list Z)) := w ← get; match scratch w with Some l => mret l | None => lift Panic end.
Definition scratch_read (n : Z) : M host (list Z) := l ← scratch_sectors; match l@[n] with Some d => mret d | None => lift Panic end.
Definition scratch_write (n : Z) (d : list Z) : M host unit := l ← scratch_sectors; need ((0 <=? n) && (n <? zlen l)) (modify (set_scratch l@[n := d])).
Definition next_sector : M host Z := w ← get; put (set_extract_sector (u32 (extract_sector w + 1)) w);; mret (extract_sector w).
Definition blank_sector : list Z := replicate 512 0.

Definition fsutil_rm (file_name : list Z) : M host unit := b ← on_fs (fs_remove file_name); need b (mret tt).

(** The loop of [fsutil_cat]: the positions and bytes given to [hex_dump]. *)
Fixpoint cat_loop (fuel : nat) (x : H) : M host (list (Z * list Z) * H) :=
  match fuel with
  | O => out_of_fuel
  | S fuel =>
      r ← on_fs (fs_read x 4096);
      if zlen r.1 =? 0 then mret ([], r.2) else q ← cat_loop fuel r.2; mret ((fs_tell x, r.1) :: q.1, q.2)
  end.
(** [palloc] says whether there is a page for the buffer. *)
Definition fsutil_cat (palloc : bool) (fuel : nat) (file_name : list Z) : M host (list (Z * list Z)) :=
  x ← on_fs (fs_open file_name);
  match x with None => lift Panic | Some x => need palloc (r ← cat_loop fuel x; on_fs (fs_close r.2);; mret r.1) end.

(** The loop that copies [size] bytes of the device to a file. *)
Fixpoint copy_in (fuel : nat) (dst : H) (size : Z) : M host H :=
  match fuel with
  | O => out_of_fuel
  | S fuel =>
      if 0 <? size then
        let chunk_size := if 512 <? size then 512 else size in
        n ← next_sector; data ← scratch_read n;
        r ← on_fs (fs_write dst data chunk_size);
        need (r.1 =? chunk_size) (copy_in fuel r.2 (size - chunk_size))
      else mret dst
  end.
Definition extract_file (file_name : list Z) (size : Z) : M host unit :=
  b ← on_fs (fs_create file_name size);
  need b (
  x ← on_fs (fs_open file_name);
  match x with
  | None => lift Panic
  | Some dst => dst ← copy_in (S (Z.to_nat size)) dst size; on_fs (fs_close dst)
  end).
Fixpoint unpack_loop (fuel : nat) : M host unit :=
  match fuel with
  | O => out_of_fuel
  | S fuel =>
      n ← next_sector; header ← scratch_read n;
      p ← lift (ustar_parse_header header);
      match p with
      | Corrupt _ => lift Panic
      | Entry file_name type size =>
          if type =? USTAR_EOF then mret tt
          else if type =? USTAR_DIRECTORY then unpack_loop fuel
          else if type =? USTAR_REGULAR then extract_file (default [] file_name) size;; unpack_loop fuel
          else unpack_loop fuel
      end
  end.
Definition fsutil_extract (fuel : nat) : M host unit :=
  need malloc (
  scratch_sectors;;
  unpack_loop fuel;;
  scratch_write 0 blank_sector;; scratch_write 1 blank_sector).

(** The loop that copies [size] bytes of a file to the device. *)
Fixpoint copy_out (fuel : nat) (src : H) (size : Z) : M host H :=
  match fuel with
  | O => out_of_fuel
  | S fuel =>
      if 0 <? size then
        let chunk_size := if 512 <? size then 512 else size in
        w ← get; l ← scratch_sectors;
        need (append_sector w <? zlen l) (
        r ← on_fs (fs_read src chunk_size);
        need (zlen r.1 =? chunk_size) (
        scratch_write (append_sector w) (r.1 ++ replicate (Z.to_nat (512 - chunk_size)) 0);;
        modify (set_append_sector (u32 (append_sector w + 1)));;
        copy_out fuel r.2 (size - chunk_size)))
      else mret src
  end.
(** The second sector of the end mark is written from one byte further on in the buffer, to the
    same sector. *)
Definition fsutil_append (file_name : list Z) : M host unit :=
  need malloc (
  x ← on_fs (fs_open file_name);
  match x with
  | None => lift Panic
  | Some src =>
      size ← on_fs (fs_length src);
      scratch_sectors;;
      h ← lift (ustar_make_header file_name USTAR_REGULAR size);
      match h with
      | None => lift Panic
      | Some header =>
          w ← get; scratch_write (append_sector w) header;; modify (set_append_sector (u32 (append_sector w + 1)));;
          src ← copy_out (S (Z.to_nat size)) src size;
          w ← get; scratch_write (append_sector w) blank_sector;; scratch_write (append_sector w) (replicate 511 0 ++ [stray]);;
          on_fs (fs_close src)
      end
  end).

(** ** What the archive holds *)

(** A file in pieces of a sector. *)
Fixpoint chunks (n : nat) (l : list Z) : list (list Z) := match n, l with S n, _ :: _ => take 512 l :: chunks n (drop 512 l) | _, _ => [] end.
Definition file_pieces (data : list Z) : list (list Z) := chunks (length data) data.
Definition pad_sector (c : list Z) : list Z := c ++ replicate (512 - length c) 0.
Definition entry_sectors (header data : list Z) : list (list Z) := header :: (pad_sector <$> file_pieces data).
(** The calls that store the pieces of a file. *)
Fixpoint write_pieces (dst : H) (cs : list (list Z)) : M F H :=
  match cs with [] => mret dst | c :: cs => r ← fs_write dst (pad_sector c) (zlen c); if r.1 =? zlen c then write_pieces r.2 cs else lift Panic end.
Definition store_file (e : list Z * list Z) : M F unit :=
  b ← fs_create e.1 (zlen e.2);
  if b : bool then
    x ← fs_open e.1;
    match x with None => lift Panic | Some dst => dst ← write_pieces dst (file_pieces e.2); fs_close dst end
  else lift Panic.
Fixpoint store_files (es : list (list Z * list Z)) : M F unit := match es with [] => mret tt | e :: es => store_file e;; store_files es end.

Lemma chunks_fuel n m l : (length l ≤ n)%nat → (length l ≤ m)%nat → chunks n l = chunks m l.
Proof.
  revert m l. induction n as [|n IH]; intros m [|x l] Hn Hm; cbn in Hn, Hm; try lia; [by destruct m..|]. destruct m as [|m]; [lia|]. cbn [chunks]. f_equal. apply IH; rewrite length_drop; cbn; lia.
Qed.
Lemma pieces_cons data : data ≠ [] → file_pieces data = take 512 data :: file_pieces (drop 512 data).
Proof.
  intros Hd. unfold file_pieces. destruct data as [|x l]; [done|]. cbn [length chunks]. f_equal. apply chunks_fuel; rewrite length_drop; cbn; lia.
Qed.
Lemma length_take_512 (data : list Z) : zlen (take 512 data) = if 512 <? zlen data then 512 else zlen data.
Proof. unfold zlen. rewrite length_take. destruct (Z.ltb_spec 512 (Z.of_nat (length data))); lia. Qed.
Lemma zlen_rest (data : list Z) : zlen (drop 512 data) = zlen data - zlen (take 512 data).
Proof. unfold zlen. rewrite length_drop, length_take. lia. Qed.
Lemma bind_fs {A B} (m : M F A) (f : A → M F B) s : (m ≫= f) s = ('(a, s) ← m s; f a s).
Proof. done. Qed.
Lemma bind_on_fs {A B} (m : M F A) (f : A → M host B) w : (on_fs m ≫= f) w = ('(a, s) ← m (fsys w); f a (set_fsys s w)).
Proof. unfold on_fs, mbind, M_bind. by destruct (m (fsys w)) as [[a s]| | |]. Qed.
Lemma drop_head {A} (l r : list A) x n : 0 ≤ n → drop (Z.to_nat n) l = x :: r → l@[n] = Some x ∧ drop (Z.to_nat (n + 1)) l = r ∧ n < zlen l.
Proof.
  intros Hn E. assert (l !! Z.to_nat n = Some x) as Hx by (rewrite <-(Nat.add_0_r (Z.to_nat n)), <-lookup_drop, E; done).
  split; [apply zlookup_Some; split; [lia|done]|]. split; [|apply lookup_lt_Some in Hx; unfold zlen; lia].
  rewrite Z2Nat.inj_add by lia. by rewrite <-drop_drop, E.
Qed.

(** ** Extraction *)

Lemma next_read w l n x r : scratch w = Some l → extract_sector w = n → 0 ≤ n → n + 1 < 2 ^ 32 → drop (Z.to_nat n) l = x :: r →
  ∀ {B} (f : list Z → M host B), (m ← next_sector; d ← scratch_read m; f d) w = f x (set_extract_sector (n + 1) w).
Proof.
  intros Hl Hn H0 Hr E B f. destruct (drop_head l r x n H0 E) as (Hx & _ & _). unfold next_sector, scratch_read, scratch_sectors, mbind, M_bind, outcome_bind, get, put, mret, M_ret. cbv beta iota.
  rewrite Hn, u32_small by lia. cbn [scratch set_extract_sector]. rewrite Hl. by rewrite Hx.
Qed.
Lemma copy_in_spec l fuel : ∀ dst data w r, (length data < fuel)%nat → scratch w = Some l → 0 ≤ extract_sector w → zlen l < 2 ^ 32 →
  drop (Z.to_nat (extract_sector w)) l = (pad_sector <$> file_pieces data) ++ r →
  copy_in fuel dst (zlen data) w = ('(dst, f) ← write_pieces dst (file_pieces data) (fsys w); Done (dst, set_extract_sector (extract_sector w + zlen (file_pieces data)) (set_fsys f w))).
Proof.
  induction fuel as [|fuel IH]; intros dst data w r Hf Hl H0 Hr E; [lia|]. cbn [copy_in]. destruct data as [|x l0]; [|].
  - cbn. rewrite Z.add_0_r. by destruct w.
  - set (data := x :: l0) in *. assert (data ≠ []) as Hd by done. rewrite (pieces_cons data Hd) in *. cbn [fmap list_fmap app] in E.
    destruct (drop_head _ _ _ _ H0 E) as (_ & E' & Hlt). destruct (Z.ltb_spec 0 (zlen data)); [|unfold zlen in *; subst data; cbn in *; lia].
    erewrite (next_read w l); [|done..|lia|exact E]. rewrite <-length_take_512, bind_on_fs. cbn [write_pieces fsys set_extract_sector]. rewrite bind_fs.
    destruct (fs_write dst (pad_sector (take 512 data)) (zlen (take 512 data)) (fsys w)) as [[[k dst'] f]| | |]; [|done..]. cbn [mbind outcome_bind fst snd].
    destruct (k =? zlen (take 512 data)); [|done]. cbn [need]. rewrite <-zlen_rest. erewrite (IH dst' (drop 512 data)); [|rewrite length_drop; subst data; cbn in *; lia|done|cbn; lia|done|exact E'].
    cbn [fsys set_fsys set_extract_sector extract_sector]. destruct (write_pieces dst' (file_pieces (drop 512 data)) f) as [[dst2 f2]| | |]; [|done..]. cbn [mbind outcome_bind].
    rewrite zlen_cons, Z.add_assoc. by destruct w.
Qed.
Lemma extract_file_spec l name data w r : scratch w = Some l → 0 ≤ extract_sector w → zlen l < 2 ^ 32 →
  drop (Z.to_nat (extract_sector w)) l = (pad_sector <$> file_pieces data) ++ r →
  extract_file name (zlen data) w = ('(_, f) ← store_file (name, data) (fsys w); Done (tt, set_extract_sector (extract_sector w + zlen (file_pieces data)) (set_fsys f w))).
Proof.
  intros Hl H0 Hr E. unfold extract_file, store_file. cbn [fst snd]. rewrite bind_on_fs, bind_fs. destruct (fs_create name (zlen data) (fsys w)) as [[b f]| | |]; [|done..]. cbn [mbind outcome_bind].
  destruct b; [|done]. cbn [need]. rewrite bind_on_fs, bind_fs. cbn [fsys set_fsys]. destruct (fs_open name f) as [[[dst|] f1]| | |]; [|done..]. cbn [mbind outcome_bind].
  unfold mbind at 1, M_bind at 1. rewrite (copy_in_spec l _ dst data _ r); [|unfold zlen; lia|done..]. rewrite bind_fs. cbn [fsys set_fsys extract_sector].
  destruct (write_pieces dst (file_pieces data) f1) as [[dst2 f2]| | |]; [|done..]. cbn [mbind outcome_bind]. unfold on_fs. cbn [fsys set_fsys set_extract_sector].
  by destruct (fs_close dst2 f2) as [[[] f3]| | |].
Qed.

(** Entries of an archive: the header, and the name and the bytes of the file. *)
Definition entry : Type := list Z * (list Z * list Z).
Definition archive (es : list entry) : list (list Z) := concat ((λ e : entry, entry_sectors e.1 e.2.2) <$> es).
Definition good_entry (e : entry) : Prop := ustar_parse_header e.1 = Done (Entry (Some e.2.1) USTAR_REGULAR (zlen e.2.2)).
Lemma zlen_archive_cons e es : zlen (archive (e :: es)) = 1 + zlen (file_pieces e.2.2) + zlen (archive es).
Proof. unfold archive. cbn [fmap list_fmap concat]. unfold entry_sectors. rewrite zlen_app, zlen_cons. unfold zlen. rewrite length_fmap. lia. Qed.
Lemma unpack_loop_spec l es : ∀ fuel w mark r p, (length es < fuel)%nat → scratch w = Some l → 0 ≤ extract_sector w → zlen l < 2 ^ 32 → Forall good_entry es →
  drop (Z.to_nat (extract_sector w)) l = archive es ++ mark :: r → ustar_parse_header mark = Done p → p = Entry None USTAR_EOF 0 ∨ (∃ m, p = Corrupt m) →
  unpack_loop fuel w = ('(_, f) ← store_files (snd <$> es) (fsys w);
    match p with Corrupt _ => Panic | _ => Done (tt, set_extract_sector (extract_sector w + zlen (archive es) + 1) (set_fsys f w)) end).
Proof.
  induction es as [|[h [name data]] es IH]; intros fuel w mark r p Hf Hl H0 Hr Hg E Ep Hp; (destruct fuel as [|fuel]; [cbn in Hf; lia|]); cbn [unpack_loop].
  - cbn [archive fmap list_fmap concat app] in E. destruct (drop_head _ _ _ _ H0 E) as (_ & _ & Hlt). erewrite (next_read w l); [|done..|lia|exact E].
    unfold lift, mbind, M_bind, outcome_bind. rewrite Ep. cbn. destruct Hp as [-> |[m ->]]; cbn; [rewrite Z.add_0_r; by destruct w|done].
  - apply list.Forall_cons in Hg as [Hh Hg]. unfold archive in E. cbn [fmap list_fmap concat fst snd] in E. fold (archive es) in E. unfold entry_sectors in E. cbn [app] in E.
    destruct (drop_head _ _ _ _ H0 E) as (_ & E' & Hlt). erewrite (next_read w l); [|done..|lia|exact E]. unfold lift, mbind at 1, M_bind at 1. unfold good_entry in Hh. cbn [fst snd] in Hh. rewrite Hh.
    cbn [mbind outcome_bind Z.eqb Pos.eqb USTAR_EOF USTAR_DIRECTORY USTAR_REGULAR default]. unfold mbind at 1, M_bind at 1. rewrite <-app_assoc in E'.
    erewrite (extract_file_spec l name data); [|done|cbn; lia|done|exact E']. cbn [fmap list_fmap store_files fst snd]. rewrite bind_fs. cbn [fsys set_extract_sector extract_sector].
    destruct (store_file (name, data) (fsys w)) as [[[] f]| | |]; [|done..]. cbn [mbind outcome_bind].
    assert (drop (Z.to_nat (extract_sector w + 1 + zlen (file_pieces data))) l = archive es ++ mark :: r) as E2.
    { rewrite Z2Nat.inj_add by (lia || apply zlen_nonneg). rewrite <-drop_drop, E'. unfold zlen. rewrite Nat2Z.id. apply drop_app_length'. by rewrite length_fmap. }
    erewrite (IH fuel _ mark r p); [|cbn in Hf; lia|done|cbn; pose proof (zlen_nonneg (file_pieces data)); lia|done|done|exact E2|done|done].
    cbn [fsys set_fsys set_extract_sector extract_sector]. destruct (store_files _ f) as [[[] f2]| | |]; [|done..]. cbn [mbind outcome_bind]. destruct p; [done|].
    rewrite zlen_archive_cons. cbn [fst snd].
    unfold set_extract_sector, set_fsys. cbn. do 3 f_equal. lia.
Qed.

Lemma bind_host {A B} (m : M host A) (f : A → M host B) w : (m ≫= f) w = ('(a, w) ← m w; f a w).
Proof. done. Qed.
Lemma scratch_sectors_spec l w : scratch w = Some l → scratch_sectors w = Done (l, w).
Proof. intros Hl. unfold scratch_sectors. rewrite bind_host. cbn. by rewrite Hl. Qed.
Lemma scratch_write_spec l w n d : scratch w = Some l → 0 ≤ n < zlen l → scratch_write n d w = Done (tt, set_scratch l@[n := d] w).
Proof.
  intros Hl Hn. unfold scratch_write. rewrite bind_host, (scratch_sectors_spec l) by done. cbn [mbind outcome_bind]. by destruct (Z.leb_spec 0 n), (Z.ltb_spec n (zlen l)); try lia.
Qed.
(** Extraction of an archive calls the file system as storing the files one after the
    other does, and then wipes the start of the device. *)
Lemma fsutil_extract_spec l es fuel w mark r : malloc = true → (length es < fuel)%nat → scratch w = Some l → extract_sector w = 0 → 2 ≤ zlen l < 2 ^ 32 → Forall good_entry es →
  l = archive es ++ mark :: r → ustar_parse_header mark = Done (Entry None USTAR_EOF 0) →
  fsutil_extract fuel w = ('(_, f) ← store_files (snd <$> es) (fsys w); Done (tt, Host f (Some (l@[0 := blank_sector])@[1 := blank_sector]) (zlen (archive es) + 1) (append_sector w))).
Proof.
  intros Hm Hf Hl H0 Hr Hg E Hp. unfold fsutil_extract. rewrite Hm. cbn [need]. rewrite bind_host, (scratch_sectors_spec l) by done. cbn [mbind outcome_bind]. rewrite bind_host.
  erewrite (unpack_loop_spec l es fuel w mark r); [|done|done|lia|lia|done|by rewrite H0|done|by left].
  destruct (store_files _ (fsys w)) as [[[] f]| | |]; [|done..]. cbn [mbind outcome_bind]. rewrite bind_host, (scratch_write_spec l) by (done || lia). cbn [mbind outcome_bind].
  rewrite (scratch_write_spec l@[0 := blank_sector]); [|done|rewrite zlen_insert; lia]. rewrite H0. done.
Qed.

(** ** Appending *)

(** Reading a file in these pieces. *)
Fixpoint read_pieces (src : H) (cs : list (list Z)) : M F H :=
  match cs with [] => mret src | c :: cs => r ← fs_read src (zlen c); if bool_decide (r.1 = c) then read_pieces r.2 cs else lift Undef end.
(** The device with these sectors from [n] on. *)
Definition put_sectors (n : Z) (new l : list (list Z)) : list (list Z) := take (Z.to_nat n) l ++ new ++ drop (Z.to_nat n + length new) l.
Lemma put_sectors_cons n x new l : 0 ≤ n → n + zlen (x :: new) ≤ zlen l → put_sectors (n + 1) new l@[n := x] = put_sectors n (x :: new) l.
Proof.
  intros Hn Hl. unfold put_sectors, zinsert. destruct (Z.ltb_spec n 0); [lia|]. rewrite Z2Nat.inj_add by lia. replace (Z.to_nat 1) with 1%nat by lia. rewrite Nat.add_1_r.
  rewrite zlen_cons in Hl. unfold zlen in Hl.
  assert (is_Some (l !! Z.to_nat n)) as [y Hy] by (apply lookup_lt_is_Some; lia).
  rewrite (take_S_r _ _ x) by (apply list_lookup_insert_eq; lia). rewrite take_insert by lia. rewrite <-app_assoc. cbn [app]. rewrite decide_False, drop_insert_lt by lia. do 4 f_equal. cbn. lia.
Qed.
Lemma zlen_put_sectors n new l : 0 ≤ n → n + zlen new ≤ zlen l → zlen (put_sectors n new l) = zlen l.
Proof. intros Hn Hl. unfold put_sectors, zlen in *. rewrite !length_app, length_take, length_drop. lia. Qed.
Lemma copy_out_spec fuel : ∀ src data w l src' f, (length data < fuel)%nat → scratch w = Some l → 0 ≤ append_sector w → append_sector w + zlen (file_pieces data) ≤ zlen l → zlen l < 2 ^ 32 →
  read_pieces src (file_pieces data) (fsys w) = Done (src', f) →
  copy_out fuel src (zlen data) w = Done (src', Host f (Some (put_sectors (append_sector w) (pad_sector <$> file_pieces data) l)) (extract_sector w) (append_sector w + zlen (file_pieces data))).
Proof.
  induction fuel as [|fuel IH]; intros src data w l src' f Hf Hl H0 Hn Hr E; [lia|]. cbn [copy_out]. destruct data as [|x l0].
  - cbn in E. injection E as <- <-. cbn. unfold put_sectors. cbn. rewrite Nat.add_0_r, take_drop, Z.add_0_r, <-Hl. by destruct w.
  - set (data := x :: l0) in *. assert (data ≠ []) as Hd by done. rewrite (pieces_cons data Hd) in *. rewrite zlen_cons in Hn. cbn [read_pieces] in E. rewrite bind_fs in E.
    destruct (Z.ltb_spec 0 (zlen data)); [|unfold zlen in *; subst data; cbn in *; lia]. pose proof (zlen_nonneg (file_pieces (drop 512 data))) as Hp.
    rewrite bind_host. cbn [get mbind outcome_bind]. rewrite bind_host, (scratch_sectors_spec l) by done. cbn [mbind outcome_bind].
    destruct (Z.ltb_spec (append_sector w) (zlen l)); [|lia]. cbn [need]. rewrite <-length_take_512, bind_on_fs.
    destruct (fs_read src (zlen (take 512 data)) (fsys w)) as [[[c src1] f1]| | |]; [|done..]. cbn [mbind outcome_bind fst snd] in E |- *. destruct (bool_decide_reflect (c = take 512 data)) as [->|]; [|done].
    rewrite Z.eqb_refl. cbn [need]. rewrite bind_host, (scratch_write_spec l) by (done || lia). cbn [mbind outcome_bind]. rewrite bind_host. cbn [modify mbind outcome_bind]. rewrite u32_small by lia.
    rewrite <-zlen_rest. erewrite (IH src1 (drop 512 data)); [|rewrite length_drop; subst data; cbn in *; lia|done|cbn; lia|cbn [append_sector set_append_sector]; rewrite zlen_insert; lia|by rewrite zlen_insert|exact E].
    cbn [append_sector set_append_sector extract_sector set_scratch set_fsys]. cbn [fmap list_fmap]. rewrite put_sectors_cons; [|lia|rewrite zlen_cons; unfold zlen in *; rewrite length_fmap; lia].
    rewrite zlen_cons, Z.add_assoc. replace (take 512 data ++ replicate (Z.to_nat (512 - zlen (take 512 data))) 0) with (pad_sector (take 512 data)); [done|]. unfold pad_sector. do 2 f_equal. unfold zlen. lia.
Qed.
(** The end mark that is left on the device. *)
Definition end_mark : list Z := replicate 511 0 ++ [stray].
Lemma put_sectors_snoc n new x l : 0 ≤ n → n + zlen new < zlen l → (put_sectors n new l)@[n + zlen new := x] = put_sectors n (new ++ [x]) l.
Proof.
  intros Hn Hl. pose proof (zlen_nonneg new) as H0. unfold put_sectors, zinsert, zlen in *. destruct (Z.ltb_spec (n + Z.of_nat (length new)) 0); [lia|].
  rewrite !app_assoc, insert_app_r_alt by (rewrite length_app, length_take; lia). rewrite <-!app_assoc. do 2 f_equal. rewrite length_app, length_take, length_app.
  replace (_ - _)%nat with 0%nat by lia. destruct (drop (Z.to_nat n + length new) l) as [|y r] eqn:E.
  - apply (f_equal length) in E. rewrite length_drop in E. cbn in E. lia.
  - cbn [length insert list_insert app]. f_equal. rewrite Nat.add_assoc, <-drop_drop, E. done.
Qed.
(** The file system gives this file under this name. *)
Definition delivers (name data : list Z) (f f' : F) : Prop := ∃ src src' f1 f2 f3,
  fs_open name f = Done (Some src, f1) ∧ fs_length src f1 = Done (zlen data, f2) ∧ read_pieces src (file_pieces data) f2 = Done (src', f3) ∧ fs_close src' f3 = Done (tt, f').
Definition archivable (name data : list Z) : Prop := Forall is_char name ∧ zlen (strip_antisocial_prefixes name) ≤ 99 ∧ zlen data < 2 ^ 31.
Lemma fsutil_append_spec l name data w f : malloc = true → archivable name data → delivers name data (fsys w) f → scratch w = Some l → 0 ≤ append_sector w →
  append_sector w + 1 + zlen (file_pieces data) < zlen l → zlen l < 2 ^ 32 →
  ∃ h, good_entry (h, (strip_antisocial_prefixes name, data)) ∧
    fsutil_append name w = Done (tt, Host f (Some (put_sectors (append_sector w) (entry_sectors h data ++ [end_mark]) l)) (extract_sector w) (append_sector w + 1 + zlen (file_pieces data))).
Proof.
  intros Hm (Hc & Hs & Hd) (src & src' & f1 & f2 & f3 & E1 & E2 & E3 & E4) Hl H0 Hn Hr. pose proof (zlen_nonneg data) as Hd0. pose proof (zlen_nonneg (file_pieces data)) as Hp0.
  pose proof (header_roundtrip name USTAR_REGULAR (zlen data) Hc (or_introl eq_refl) ltac:(lia)) as Hh. cbv zeta in Hh. destruct (Z.ltb_spec 99 (zlen (strip_antisocial_prefixes name))); [lia|].
  destruct Hh as (h & Eh & _ & Hh). exists h. split; [exact Hh|]. unfold fsutil_append. rewrite Hm. cbn [need]. rewrite bind_on_fs, E1. cbn [mbind outcome_bind].
  rewrite bind_on_fs. cbn [fsys set_fsys]. rewrite E2. cbn [mbind outcome_bind]. rewrite bind_host, (scratch_sectors_spec l) by done. cbn [mbind outcome_bind]. rewrite bind_host, Eh.
  cbn [lift mbind outcome_bind]. rewrite bind_host. cbn [get mbind outcome_bind append_sector set_fsys]. rewrite bind_host, (scratch_write_spec l) by (done || lia). cbn [mbind outcome_bind].
  rewrite bind_host. cbn [modify mbind outcome_bind]. rewrite u32_small by lia. rewrite bind_host. set (w1 := set_append_sector _ _).
  rewrite (copy_out_spec _ src data w1 l@[append_sector w := h] src' f3); [|unfold zlen; lia|done|cbn; lia|cbn [append_sector w1 set_append_sector]; rewrite zlen_insert; lia|by rewrite zlen_insert|exact E3].
  cbn [mbind outcome_bind]. rewrite bind_host. cbn [get mbind outcome_bind append_sector w1 set_append_sector extract_sector set_scratch set_fsys].
  assert (zlen (h :: (pad_sector <$> file_pieces data)) = 1 + zlen (file_pieces data)) as Lh by (rewrite zlen_cons; unfold zlen; by rewrite length_fmap).
  rewrite put_sectors_cons by lia. fold (entry_sectors h data). set (q := append_sector w + 1 + zlen (file_pieces data)). assert (q = append_sector w + zlen (entry_sectors h data)) as Eq by (unfold entry_sectors; lia).
  set (l2 := put_sectors (append_sector w) (entry_sectors h data) l). assert (zlen l2 = zlen l) as L2 by (apply zlen_put_sectors; unfold entry_sectors; lia).
  rewrite bind_host, (scratch_write_spec l2) by (done || lia). cbn [mbind outcome_bind]. rewrite bind_host, (scratch_write_spec l2@[q := blank_sector]) by (done || (rewrite zlen_insert; lia)).
  cbn [mbind outcome_bind]. unfold on_fs. cbn [fsys set_scratch]. rewrite E4. cbn [mbind outcome_bind]. unfold set_fsys, set_scratch. cbn [scratch extract_sector append_sector].
  rewrite zinsert_insert. fold end_mark. unfold l2. rewrite Eq, put_sectors_snoc by (unfold entry_sectors; lia). done.
Qed.

(** ** Append and extract *)

Fixpoint append_all (names : list (list Z)) : M host unit := match names with [] => mret tt | n :: names => fsutil_append n;; append_all names end.
Inductive delivers_all : list (list Z * list Z) → F → F → Prop :=
  | delivers_nil f : delivers_all [] f f
  | delivers_cons name data files f f' f'' : archivable name data → delivers name data f f' → delivers_all files f' f'' → delivers_all ((name, data) :: files) f f''.
Definition sectors_needed (files : list (list Z * list Z)) : Z := foldr (λ e n, 1 + zlen (file_pieces e.2) + n) 0 files.
(** The files as they are unpacked. *)
Definition unpacked (files : list (list Z * list Z)) : list (list Z * list Z) := (λ e, (strip_antisocial_prefixes e.1, e.2)) <$> files.
Lemma sectors_needed_nonneg files : 0 ≤ sectors_needed files.
Proof. induction files as [|e files IH]; cbn; [lia|]. pose proof (zlen_nonneg (file_pieces e.2)). unfold sectors_needed in IH. lia. Qed.
Lemma archive_snoc es e : archive (es ++ [e]) = archive es ++ entry_sectors e.1 e.2.2.
Proof. unfold archive. rewrite fmap_app, concat_app. cbn. by rewrite app_nil_r. Qed.
Lemma put_sectors_app pre new rest : put_sectors (zlen pre) new (pre ++ rest) = pre ++ new ++ drop (length new) rest.
Proof. unfold put_sectors, zlen. rewrite Nat2Z.id, take_app_length, <-drop_drop, drop_app_length. done. Qed.
Lemma append_all_spec files : ∀ w f l es rest, malloc = true → delivers_all files (fsys w) f → scratch w = Some l → l = archive es ++ rest → append_sector w = zlen (archive es) →
  zlen (archive es) + sectors_needed files < zlen l → zlen l < 2 ^ 32 →
  ∃ es' r, append_all (fst <$> files) w = Done (tt, Host f (Some (archive (es ++ es') ++ r)) (extract_sector w) (zlen (archive (es ++ es')))) ∧
    Forall good_entry es' ∧ snd <$> es' = unpacked files ∧ zlen (archive (es ++ es') ++ r) = zlen l ∧ (files ≠ [] → ∃ r', r = end_mark :: r').
Proof.
  induction files as [|[name data] files IH]; intros w f l es rest Hm Hd Hl El Ha Hn Hr.
  - inversion Hd; subst. exists [], rest. rewrite app_nil_r. split_and!; try done. cbn. rewrite <-Hl, <-Ha. by destruct w.
  - inversion Hd as [|? ? ? ? f' ? Harch Hdel Hrest]; subst name0 data0 files0 f0 f''. cbn [sectors_needed foldr snd] in Hn. fold (sectors_needed files) in Hn.
    pose proof (sectors_needed_nonneg files) as Hs0. pose proof (zlen_nonneg (archive es)) as Ha0.
    destruct (fsutil_append_spec l name data w f' Hm Harch Hdel Hl ltac:(lia) ltac:(lia) Hr) as (h & Hh & E). set (e := (h, (strip_antisocial_prefixes name, data)) : entry).
    assert (put_sectors (append_sector w) (entry_sectors h data ++ [end_mark]) l = archive (es ++ [e]) ++ end_mark :: drop (length (entry_sectors h data ++ [end_mark])) rest) as El2.
    { rewrite El, Ha, put_sectors_app, archive_snoc. cbn [fst snd e]. by rewrite <-!app_assoc. }
    assert (zlen (archive (es ++ [e])) = append_sector w + 1 + zlen (file_pieces data)) as La.
    { rewrite archive_snoc, zlen_app, Ha. cbn [fst snd e]. unfold entry_sectors. rewrite zlen_cons. unfold zlen. rewrite length_fmap. lia. }
    assert (zlen (put_sectors (append_sector w) (entry_sectors h data ++ [end_mark]) l) = zlen l) as Ll.
    { apply zlen_put_sectors; [lia|]. unfold entry_sectors. rewrite zlen_app, !zlen_cons. unfold zlen in *. rewrite length_fmap. cbn. lia. }
    destruct (IH (Host f' (Some (put_sectors (append_sector w) (entry_sectors h data ++ [end_mark]) l)) (extract_sector w) (append_sector w + 1 + zlen (file_pieces data))) f _ (es ++ [e]) _
      Hm Hrest eq_refl El2 ltac:(cbn [append_sector]; lia) ltac:(lia) ltac:(lia)) as (es' & r & E' & Hg & Hu & Hz & Hne). rewrite <-app_assoc in E', Hz. cbn [app] in E', Hz.
    exists (e :: es'), r. cbn [fmap list_fmap append_all fst]. rewrite bind_host, E. cbn [mbind outcome_bind]. split; [exact E'|]. split; [by constructor|]. split; [cbn; by f_equal|]. split; [lia|].
    intros _. destruct files as [|x files]; [|by apply Hne]. destruct es' as [|e' es']; [|done]. rewrite El2 in E'. cbn [fmap list_fmap append_all] in E'.
    injection E' as _ E3 _. apply app_inv_head in E3. eauto.
Qed.
Lemma end_mark_parsed : ustar_parse_header end_mark = Done (if stray =? 0 then Entry None USTAR_EOF 0 else Corrupt "not a ustar archive").
Proof. unfold ustar_parse_header, end_mark, is_all_zeros. rewrite forallb_app. cbn [forallb]. rewrite andb_true_r. by destruct (stray =? 0). Qed.
End fsutil.
Arguments host : clear implicits.

(** C27 Archives from one machine to another.  Append any files to a scratch device that
    has room, on a machine whose file system gives their bytes, put the device in
    another machine, and extract: its file system is called as for storing those files,
    their names without dangerous prefixes, bytes and order unchanged, and then the
    start of the device is wiped.  But [fsutil_append] writes both sectors of the end mark
    to the same place, the second from one byte further on: its last byte is the one
    that follows the buffer in memory, and unless that is 0 the extraction stops the kernel
    when it gets there. *)
Theorem archive_roundtrip {F H} `{!FileSystem F H} stray files f f' l g fuel : delivers_all files f f' → files ≠ [] →
  sectors_needed files < zlen l → 2 ≤ zlen l < 2 ^ 32 → (length files < fuel)%nat →
  ∃ l', append_all true stray (fst <$> files) (Host f (Some l) 0 0) = Done (tt, Host f' (Some l') 0 (sectors_needed files)) ∧ zlen l' = zlen l ∧
    fsutil_extract true fuel (Host g (Some l') 0 0) = ('(_, g') ← store_files (unpacked files) g;
      if stray =? 0 then Done (tt, Host g' (Some (l'@[0 := blank_sector])@[1 := blank_sector]) (sectors_needed files + 1) 0) else Panic).
Proof.
  intros Hd Hne Hn Hl Hf. destruct (append_all_spec true stray files (Host f (Some l) 0 0) f' l [] l eq_refl Hd eq_refl eq_refl eq_refl) as (es & r & E & Hg & Hu & Hz & Hm); [change (zlen (archive [])) with 0; lia|lia|].
  destruct (Hm Hne) as [r' ->]. cbn [app] in *. assert (zlen (archive es) = sectors_needed files) as La.
  { clear -Hu. revert files Hu. induction es as [|e es IH]; intros [|x files] Hu; try done. injection Hu as Hx Hu. rewrite zlen_archive_cons, (IH files Hu). destruct e as [h d]. cbn in Hx |- *. by subst d. }
  assert (length es = length files) as Le by (apply (f_equal length) in Hu; unfold unpacked in Hu; by rewrite !length_fmap in Hu).
  eexists. split; [rewrite <-La; exact E|]. split; [done|]. rewrite <-Hu, <-La. destruct (Z.eqb_spec stray 0) as [->|Hs].
  - erewrite (fsutil_extract_spec true _ es fuel (Host g _ 0 0)); [done|done|lia|done|done|lia|done|done|by rewrite end_mark_parsed].
  - unfold fsutil_extract. cbn [need]. rewrite bind_host, (scratch_sectors_spec (archive es ++ end_mark stray :: r')) by done. cbn [mbind outcome_bind]. rewrite bind_host.
    erewrite (unpack_loop_spec _ es); [|lia|done|done|lia|done|done|apply end_mark_parsed|destruct (Z.eqb_spec stray 0); [done|eauto]].
    cbn [fsys]. destruct (store_files _ g) as [[[] g']| | |]; [|done..]. cbn [mbind outcome_bind]. by destruct (Z.eqb_spec stray 0).
Qed.

(** A file system that keeps its files in a map. *)
Definition plain_files : FileSystem (gmap (list Z) (list Z)) (list Z * Z) := {|
  fs_create n size m := Done (if bool_decide (m !! n = None) then (true, <[n := replicate (Z.to_nat size) 0]> m) else (false, m));
  fs_open n m := Done ((λ _, (n, 0)) <$> m !! n, m);
  fs_remove n m := Done (bool_decide (is_Some (m !! n)), delete n m);
  fs_length h m := Done (zlen (default [] (m !! h.1)), m);
  fs_tell h := h.2;
  fs_read h size m := let d := slice h.2 size (default [] (m !! h.1)) in Done ((d, (h.1, h.2 + zlen d)), m);
  fs_write h data size m := Done ((size, (h.1, h.2 + size)), alter (overwrite h.2 (take (Z.to_nat size) data)) h.1 m);
  fs_close h m := Done (tt, m) |}.
Definition demo_file : list Z * list Z := (chars "../notes", replicate 600 7).
Lemma archive_roundtrip_witness : ∃ l', append_all (FileSystem0 := plain_files) true 0 [chars "../notes"] (Host {[ demo_file.1 := demo_file.2 ]} (Some (replicate 8 blank_sector)) 0 0) =
    Done (tt, Host {[ demo_file.1 := demo_file.2 ]} (Some l') 0 3) ∧
  ∃ w, fsutil_extract (FileSystem0 := plain_files) true 2 (Host ∅ (Some l') 0 0) = Done (tt, w) ∧ fsys w !! chars "notes" = Some (replicate 600 7).
Proof.
  destruct (archive_roundtrip (FileSystem0 := plain_files) 0 [demo_file] {[ demo_file.1 := demo_file.2 ]} {[ demo_file.1 := demo_file.2 ]} (replicate 8 blank_sector) ∅ 2) as (l' & E & _ & X).
  - econstructor; [| |constructor].
    + split_and!; [|by vm_compute|by vm_compute]. repeat constructor.
    + exists (chars "../notes", 0), (chars "../notes", 600), {[ demo_file.1 := demo_file.2 ]}, {[ demo_file.1 := demo_file.2 ]}, {[ demo_file.1 := demo_file.2 ]}. split_and!; vm_compute; reflexivity.
  - done.
  - by vm_compute.
  - by vm_compute.
  - cbn. lia.
  - exists l'. split; [exact E|]. eexists. split; [rewrite X; vm_compute; reflexivity|]. vm_compute. reflexivity.
Defined.
