(* ===== verification/Intq.v ===== *)
(** * Interrupt queues (src/pintos/src/devices/intq.c, input.c)

    A queue of 63 bytes between interrupt handlers and threads.  A thread in
    [intq_getc] or [intq_putc] is at one of a few places, between which other
    threads and handlers run: about to test the condition of the loop, waiting
    in [lock_acquire], asleep in [wait], or woken and about to release the lock.
    Interrupts are off within a piece, so that the assertions on the interrupt
    level hold.  The lock is its holder (see Synch.v for its implementation); a
    thread that waits for it is in [Locking].  Between the release of the lock and the
    test of the condition others may run, because [sema_up] yields to a waiter of
    higher priority. *)

From S2P Require Import Prelude.

Definition INTQ_BUFSIZE : Z := 64.
Record intq := { lock : option Z; not_full : option Z; not_empty : option Z; buf : list Z; head : Z; tail : Z }.
Definition next (pos : Z) : Z := (pos + 1) `rem` INTQ_BUFSIZE.
Definition intq_init (q : intq) : intq := {| lock := None; not_full := None; not_empty := None; buf := buf q; head := 0; tail := 0 |}.
Definition intq_empty (q : intq) : bool := head q =? tail q.
Definition intq_full (q : intq) : bool := next (head q) =? tail q.

(** What a caller wants, and where a thread is. *)
Inductive request : Type := Getc | Putc (byte : Z).
Inductive place : Type := Testing | Locking | Sleeping | Woken | Returned (byte : Z).
Record system := { queue : intq; threads : gmap Z (request * place) }.
Definition set_queue (f : intq → intq) (s : system) : system := {| queue := f (queue s); threads := threads s |}.
Definition set_place (t : Z) (r : request) (p : place) (s : system) : system := {| queue := queue s; threads := <[t := (r, p)]> (threads s) |}.

(** The condition of the loop, and the member of the queue that goes with it. *)
Definition blocked (r : request) (q : intq) : bool := match r with Getc => intq_empty q | Putc _ => intq_full q end.
Definition waiter_of (r : request) (q : intq) : option Z := match r with Getc => not_empty q | Putc _ => not_full q end.
Definition set_waiter (r : request) (w : option Z) (q : intq) : intq :=
  match r with
  | Getc => {| lock := lock q; not_full := not_full q; not_empty := w; buf := buf q; head := head q; tail := tail q |}
  | Putc _ => {| lock := lock q; not_full := w; not_empty := not_empty q; buf := buf q; head := head q; tail := tail q |}
  end.
Definition set_lock (h : option Z) (q : intq) : intq :=
  {| lock := h; not_full := not_full q; not_empty := not_empty q; buf := buf q; head := head q; tail := tail q |}.

(** [thread_unblock]: a thread in [lock_acquire] would test its semaphore
    again. *)
Definition unblock (t : Z) : M system unit :=
  s ← get;
  match threads s !! t with
  | Some (r, Sleeping) => put (set_place t r Woken s)
  | Some (_, Locking) => mret tt
  | _ => assert false
  end.
(** [signal (q, waiter)], for the condition that [r] waits for. *)
Definition signal (r : request) : M system unit :=
  q ← gets queue; assert (negb (blocked r q));;
  match waiter_of r q with
  | Some t => unblock t;; modify (set_queue (set_waiter r None))
  | None => mret tt
  end.
(** [wait (q, waiter)] up to [thread_block]. *)
Definition wait (t : Z) (r : request) : M system unit :=
  q ← gets queue; assert (blocked r q);;
  modify (set_queue (set_waiter r (Some t)));; modify (set_place t r Sleeping).

(** The part of [intq_getc] and [intq_putc] after the loop. *)
Definition pop (q : intq) : intq :=
  {| lock := lock q; not_full := not_full q; not_empty := not_empty q; buf := buf q; head := head q; tail := next (tail q) |}.
Definition push (b : list Z) (q : intq) : intq :=
  {| lock := lock q; not_full := not_full q; not_empty := not_empty q; buf := b; head := next (head q); tail := tail q |}.
Definition take_byte : M system Z :=
  q ← gets queue; byte ← lift (rd (buf q) (tail q));
  modify (set_queue pop);; signal (Putc 0);; mret byte.
Definition add_byte (byte : Z) : M system unit :=
  q ← gets queue; b ← lift (wr (buf q) (head q) byte);
  modify (set_queue (push b));; signal Getc.
Definition perform (r : request) : M system Z := match r with Getc => take_byte | Putc byte => add_byte byte;; mret byte end.

(** Called from an interrupt handler: [ASSERT (!intr_context ())] in the
    loop. *)
Definition from_handler (r : request) : M system Z := q ← gets queue; assert (negb (blocked r q));; perform r.

(** The loop of a thread: test the condition; then take the lock and wait, or
    block in [lock_acquire].  The result tells whether a byte was transferred. *)
Definition acquire (t : Z) (r : request) : M system unit :=
  q ← gets queue;
  match lock q with
  | None => modify (set_queue (set_lock (Some t)));; wait t r
  | Some _ => modify (set_place t r Locking)
  end.
Definition attempt (t : Z) (r : request) : M system (option (request * Z)) :=
  q ← gets queue;
  if blocked r q then acquire t r;; mret None else byte ← perform r; modify (set_place t r (Returned byte));; mret (Some (r, byte)).
(** [lock_release] after [wait]. *)
Definition release (t : Z) (r : request) : M system unit :=
  q ← gets queue; assert (bool_decide (lock q = Some t));; modify (set_queue (set_lock None));; modify (set_place t r Testing).

(** ** Steps

    A thread may make a call when it is not in one; handlers test before
    they call, as serial_interrupt and input_putc do. *)

Definition idle (s : system) (t : Z) : Prop := match threads s !! t with None | Some (_, Returned _) => True | _ => False end.
Inductive action : Type := Call (t : Z) (r : request) | Handler (r : request) | Continue (t : Z).
Definition enabled (s : system) (a : action) : Prop :=
  match a with
  | Call t _ => idle s t
  | Handler r => blocked r (queue s) = false
  | Continue t => match threads s !! t with Some (_, Testing) | Some (_, Woken) => True | Some (_, Locking) => lock (queue s) = None | _ => False end
  end.
Definition act (a : action) : M system (option (request * Z)) :=
  match a with
  | Call t r => attempt t r
  | Handler r => byte ← from_handler r; mret (Some (r, byte))
  | Continue t => s ← get;
      match threads s !! t with
      | Some (r, Testing) => attempt t r
      | Some (r, Woken) => release t r;; mret None
      | Some (r, Locking) => acquire t r;; mret None
      | _ => undefined
      end
  end.
Definition initial (s : system) : Prop := ∃ q, zlen (buf q) = INTQ_BUFSIZE ∧ s = {| queue := intq_init q; threads := ∅ |}.
(** The bytes put into the queue and taken out of it. *)
Definition bytes_in (e : option (request * Z)) : list Z := match e with Some (Putc _, byte) => [byte] | _ => [] end.
Definition bytes_out (e : option (request * Z)) : list Z := match e with Some (Getc, byte) => [byte] | _ => [] end.
(** States reached by actions of which [P] holds, with these bytes. *)
Inductive reachable (P : action → Prop) : list Z → list Z → system → Prop :=
  | reach_init s : initial s → reachable P [] [] s
  | reach_step ins outs s a e s' : reachable P ins outs s → P a → enabled s a → act a s = Done (e, s') → reachable P (ins ++ bytes_in e) (outs ++ bytes_out e) s'.

(** ** The queue as a sequence of bytes *)

Definition count (q : intq) : Z := (head q - tail q) `mod` 64.
Definition contents (q : intq) : list Z := (λ i, default 0 (buf q)@[(tail q + i) `mod` 64]) <$> seqZ 0 (count q).
Definition intq_wf (q : intq) : Prop := zlen (buf q) = 64 ∧ 0 ≤ head q < 64 ∧ 0 ≤ tail q < 64.

Lemma next_mod p : 0 ≤ p < 64 → next p = (p + 1) `mod` 64.
Proof. intros Hp. unfold next, INTQ_BUFSIZE. apply Z.rem_mod_nonneg; lia. Qed.
Lemma zlen_contents q : zlen (contents q) = count q.
Proof. unfold contents, zlen. rewrite length_fmap, length_seqZ, Z2Nat.id; [done|]. unfold count. apply Z.mod_pos_bound. lia. Qed.
Lemma empty_contents q : intq_wf q → intq_empty q = bool_decide (contents q = []).
Proof.
  intros (_ & Hh & Ht). pose proof (zlen_contents q) as Hl. unfold intq_empty. destruct (Z.eqb_spec (head q) (tail q)) as [E|E].
  - rewrite bool_decide_true; [done|]. unfold contents, count. by rewrite E, Z.sub_diag.
  - rewrite bool_decide_false; [done|]. intros H. rewrite H in Hl. unfold count in Hl. change (zlen (@nil Z)) with 0 in Hl. div_lia.
Qed.
Lemma full_contents q : intq_wf q → intq_full q = bool_decide (zlen (contents q) = 63).
Proof.
  intros (_ & Hh & Ht). rewrite zlen_contents. unfold intq_full, count. rewrite next_mod by done.
  destruct (Z.eqb_spec ((head q + 1) `mod` 64) (tail q)); [rewrite bool_decide_true|rewrite bool_decide_false]; div_lia.
Qed.

Lemma contents_pop q : intq_wf q → intq_empty q = false → ∃ b, rd (buf q) (tail q) = Done b ∧ contents q = b :: contents (pop q) ∧ intq_wf (pop q).
Proof.
  intros (Hb & Hh & Ht) He. unfold intq_empty in He. destruct (Z.eqb_spec (head q) (tail q)) as [|E]; [done|]. pose proof (next_mod (tail q) Ht) as Hn.
  destruct (zlookup_lt (buf q) (tail q)) as [b Hbt]; [lia|]. exists b. split_and!; [by apply rd_Some| |split; [done|split; [done|cbn; rewrite Hn; apply Z.mod_pos_bound; lia]]].
  assert (count (pop q) = Z.pred (count q)) as Hc by (unfold count, pop; cbn; rewrite Hn; div_lia). assert (0 < count q) as H0 by (unfold count; div_lia).
  unfold contents. rewrite Hc, (seqZ_cons 0 (count q)) by lia. rewrite fmap_cons. f_equal; [by rewrite Z.add_0_r, Z.mod_small, Hbt by lia|].
  change (Z.succ 0) with (1 + 0). rewrite <- (fmap_add_seqZ 1 0), <- list_fmap_compose. apply list_fmap_ext. intros i x _. cbn. rewrite Hn. do 2 f_equal. div_lia.
Qed.
Lemma contents_push q byte : intq_wf q → intq_full q = false → ∃ b, wr (buf q) (head q) byte = Done b ∧ contents (push b q) = contents q ++ [byte] ∧ intq_wf (push b q).
Proof.
  intros (Hb & Hh & Ht) He. unfold intq_full in He. pose proof (next_mod (head q) Hh) as Hn. rewrite Hn in He. destruct (Z.eqb_spec ((head q + 1) `mod` 64) (tail q)) as [|E]; [done|].
  eexists. split_and!; [apply wr_in; lia| |split; [cbn; by rewrite zlen_insert|split; [cbn; rewrite Hn; apply Z.mod_pos_bound; lia|done]]].
  set (q' := push _ q). assert (count q' = count q + 1) as Hc by (unfold count, q', push; cbn; rewrite Hn; div_lia). assert (0 ≤ count q) as H0 by (unfold count; div_lia).
  unfold contents. rewrite Hc, seqZ_app by lia. rewrite fmap_app. f_equal.
  - apply list_fmap_ext. intros j i [-> Hi]%lookup_seqZ. cbn. rewrite zlookup_insert_ne; [done|]. unfold count in *. div_lia.
  - rewrite (seqZ_cons _ 1), (seqZ_nil _ (Z.pred 1)) by lia. cbn [fmap list_fmap]. cbn [q' push buf tail]. rewrite zlookup_insert. replace ((tail q + (0 + count q)) `mod` 64) with (head q) by (unfold count; div_lia). rewrite Z.eqb_refl. bool_cases. done.
Qed.

(** ** The invariant of the monitor *)

Definition sleeps (s : system) (t : Z) (r : request) : Prop := threads s !! t = Some (r, Sleeping).
(** A thread recorded in the queue sleeps for that reason. *)
Definition waiters_ok (s : system) : Prop :=
  (∀ t, not_empty (queue s) = Some t → sleeps s t Getc) ∧ (∀ t, not_full (queue s) = Some t → ∃ b, sleeps s t (Putc b)).
(** A thread that sleeps is recorded, and there is a reason for it to sleep. *)
Definition sleepers_ok (s : system) : Prop :=
  ∀ t r, sleeps s t r → waiter_of r (queue s) = Some t ∧ blocked r (queue s) = true.
Definition lock_ok (s : system) : Prop :=
  ∀ t, lock (queue s) = Some t ↔ ∃ r, threads s !! t = Some (r, Sleeping) ∨ threads s !! t = Some (r, Woken).
Definition monitor_ok (s : system) : Prop := intq_wf (queue s) ∧ waiters_ok s ∧ sleepers_ok s ∧ lock_ok s.

Definition same_data (q q' : intq) : Prop := buf q' = buf q ∧ head q' = head q ∧ tail q' = tail q.
Lemma same_data_facts q q' : same_data q q' → contents q' = contents q ∧ (intq_wf q → intq_wf q') ∧ ∀ r, blocked r q' = blocked r q.
Proof. intros (Hb & Hh & Ht). unfold contents, count, intq_wf, blocked, intq_empty, intq_full. rewrite Hb, Hh, Ht. done. Qed.
Lemma set_waiter_data r w q : same_data q (set_waiter r w q).
Proof. by destruct r. Qed.
Lemma set_waiter_lock r w q : lock (set_waiter r w q) = lock q.
Proof. by destruct r. Qed.
(** A waiter that is woken goes from [Sleeping] to [Woken]; no other thread moves. *)
Definition only_wakes (s s' : system) : Prop :=
  ∀ t, threads s' !! t = threads s !! t ∨ ∃ r, threads s !! t = Some (r, Sleeping) ∧ threads s' !! t = Some (r, Woken).
Lemma lock_ok_wakes s s' : lock_ok s → only_wakes s s' → lock (queue s') = lock (queue s) → lock_ok s'.
Proof. intros H Hw Hl t. rewrite Hl, (H t). destruct (Hw t) as [->|(r & E & ->)]; [done|]. rewrite E. naive_solver. Qed.

(** [signal] leaves no thread asleep, if all that sleep wait for it. *)
Lemma signal_spec s r : waiters_ok s → lock_ok s → (∀ t r', sleeps s t r' → waiter_of r (queue s) = Some t) → blocked r (queue s) = false →
  runs (signal r) s (λ _ s', same_data (queue s) (queue s') ∧ lock (queue s') = lock (queue s) ∧ waiters_ok s' ∧ (∀ t r', ¬ sleeps s' t r') ∧ only_wakes s s').
Proof.
  intros [Hn Hf] Hl Hs Hb. unfold signal. run. apply runs_assert; [by rewrite Hb|]. cbn beta.
  destruct (waiter_of r (queue s)) as [t|] eqn:Ew; run.
  - assert (∃ r', sleeps s t r') as [r' Hr'] by (destruct r; cbn in Ew; [eauto|destruct (Hf t Ew); eauto]). unfold unblock. run. rewrite Hr'. run.
    unfold set_queue, set_place; cbn. split_and!; [apply set_waiter_data|apply set_waiter_lock| | |].
    + split; intros t' Ht'.
      * destruct r; cbn in Ht'; [done|]. pose proof (Hn t' Ht') as H1. pose proof (Hs _ _ H1) as H2. injection H2 as <-. destruct (Hf t Ew) as [b Hb']. unfold sleeps in *. simplify_eq.
      * destruct r; cbn in Ht'; [|done]. destruct (Hf t' Ht') as [b H1]. pose proof (Hs _ _ H1) as H2. injection H2 as <-. specialize (Hn t Ew). unfold sleeps in *. simplify_eq.
    + intros t' r1 H1. unfold sleeps in H1; cbn in H1. apply lookup_insert_Some in H1 as [[<- ?]|[Hne H1]]; [done|]. apply Hs in H1. simplify_eq.
    + intros t'. cbn. destruct (decide (t = t')) as [<-|]; [right; exists r'; by rewrite lookup_insert_eq|left; by rewrite lookup_insert_ne].
  - split_and!; [done|done|done| |by left]. intros t r' H. by specialize (Hs t r' H).
Qed.

(** The transfer of a byte, whether for a thread or for a handler. *)
Definition transferred (r : request) (byte : Z) (q q' : intq) : Prop :=
  match r with Getc => contents q = byte :: contents q' | Putc b => byte = b ∧ contents q' = contents q ++ [b] end.
Lemma perform_spec s r : monitor_ok s → blocked r (queue s) = false →
  runs (perform r) s (λ byte s', monitor_ok s' ∧ transferred r byte (queue s) (queue s') ∧ only_wakes s s').
Proof.
  intros (Hw & Hwait & Hsleep & Hlock) Hb. assert (∀ t r', sleeps s t r' → waiter_of r' (queue s) = Some t ∧ blocked r' (queue s) = true ∧ blocked r (queue s) = false) as Hs by (intros t r' H; destruct (Hsleep t r' H); done).
  assert (∀ s' q, queue s' = q → intq_wf q → waiters_ok s' → (∀ t r', ¬ sleeps s' t r') → lock_ok s' → monitor_ok s') as Hdone by (intros s' q <- H1 H2 H3 H4; split_and!; try done; intros t r' H; by destruct (H3 t r')).
  destruct r as [|byte]; unfold perform; cbn in Hb.
  - destruct (contents_pop _ Hw Hb) as (b & Hrd & Hc & Hw'). unfold take_byte. run. rewrite Hrd. run. eapply runs_mono; [apply signal_spec|].
    + done.
    + done.
    + intros t [|b'] H; destruct (Hs t _ H) as (H1 & H2 & _); cbn in *; congruence.
    + cbn. destruct (intq_full (pop (queue s))) eqn:E; [|done]. rewrite full_contents in E by done. apply bool_decide_eq_true in E. pose proof (zlen_contents (queue s)) as H1. rewrite Hc, zlen_cons, E in H1. unfold count in H1. pose proof (Z.mod_pos_bound (head (queue s) - tail (queue s)) 64). lia.
    + intros _ s' (Hd & Hl & H1 & H2 & H3). destruct (same_data_facts _ _ Hd) as (Hc' & Hwf & _). run. split_and!; [|by cbn; rewrite Hc'|done].
      apply (Hdone s' _ eq_refl); [by apply Hwf|done|done|by eapply lock_ok_wakes].
  - destruct (contents_push _ byte Hw Hb) as (b & Hwr & Hc & Hw'). unfold add_byte. run. rewrite Hwr. run. eapply runs_mono; [apply signal_spec|].
    + done.
    + done.
    + intros t [|b'] H; destruct (Hs t _ H) as (H1 & H2 & _); cbn in *; congruence.
    + cbn. rewrite empty_contents by done. rewrite Hc. apply bool_decide_eq_false. by intros []%app_eq_nil.
    + intros _ s' (Hd & Hl & H1 & H2 & H3). destruct (same_data_facts _ _ Hd) as (Hc' & Hwf & _). run. split_and!; [|by cbn; rewrite Hc'|done].
      apply (Hdone s' _ eq_refl); [by apply Hwf|done|done|by eapply lock_ok_wakes].
Qed.

Definition inactive (s : system) (t : Z) : Prop := ∀ r, threads s !! t ≠ Some (r, Sleeping) ∧ threads s !! t ≠ Some (r, Woken).
Definition others_same (t : Z) (s s' : system) : Prop := ∀ t', t' ≠ t → threads s' !! t' = threads s !! t'.
Lemma set_place_ok s t r p : monitor_ok s → inactive s t → p ≠ Sleeping → p ≠ Woken → monitor_ok (set_place t r p s).
Proof.
  intros (Hw & [Hn Hf] & Hs & Hl) Hi Hp1 Hp2. assert (∀ t' r' p', p' = Sleeping ∨ p' = Woken → threads (set_place t r p s) !! t' = Some (r', p') ↔ threads s !! t' = Some (r', p')) as Hsame.
  { intros t' r' p' Hp. cbn. destruct (decide (t = t')) as [<-|]; [|by rewrite lookup_insert_ne]. rewrite lookup_insert_eq. specialize (Hi r'). split; intros; destruct Hp; simplify_eq; naive_solver. }
  split_and!; [done|split| |].
  - intros t' H. apply Hsame; [by left|by apply Hn].
  - intros t' H. destruct (Hf t' H) as [b Hb]. exists b. apply Hsame; [by left|done].
  - intros t' r' H. apply Hsame in H; [|by left]. by apply Hs.
  - intros t'. cbn [set_place queue]. rewrite (Hl t'). split; intros [r' H]; exists r'; (destruct H; [left|right]); (apply Hsame; auto).
Qed.
Lemma free_lock s : monitor_ok s → lock (queue s) = None → not_empty (queue s) = None ∧ not_full (queue s) = None ∧ ∀ t r, threads s !! t ≠ Some (r, Sleeping) ∧ threads s !! t ≠ Some (r, Woken).
Proof.
  intros (_ & [Hn Hf] & _ & Hl) E. assert (∀ t r, threads s !! t ≠ Some (r, Sleeping) ∧ threads s !! t ≠ Some (r, Woken)) as H.
  { intros t r. split; intros H; assert (lock (queue s) = Some t) by (apply Hl; eauto); congruence. }
  split_and!; [| |done].
  - destruct (not_empty (queue s)) as [t|]; [|done]. by destruct (H t Getc) as [[] _]; [apply Hn].
  - destruct (not_full (queue s)) as [t|]; [|done]. destruct (Hf t eq_refl) as [b Hb]. by destruct (H t (Putc b)).
Qed.
(** A thread that gets the lock goes to sleep. *)
Definition lie_down (t : Z) (r : request) (s : system) : system := set_place t r Sleeping (set_queue (λ q, set_waiter r (Some t) (set_lock (Some t) q)) s).
Lemma lie_down_ok s t r : monitor_ok s → lock (queue s) = None → blocked r (queue s) = true → monitor_ok (lie_down t r s).
Proof.
  intros Hok Hl Hb. destruct (free_lock s Hok Hl) as (En & Ef & Hno). destruct Hok as (Hw & _).
  assert (same_data (queue s) (queue (lie_down t r s))) as Hd by (by destruct r). destruct (same_data_facts _ _ Hd) as (_ & Hw' & Hb').
  assert (∀ t' r' p, p = Sleeping ∨ p = Woken → threads (lie_down t r s) !! t' = Some (r', p) → t' = t ∧ r' = r ∧ p = Sleeping) as Hone.
  { intros t' r' p Hp H. cbn in H. apply lookup_insert_Some in H as [[<- [= <- <-]]|[_ H]]; [done|]. specialize (Hno t' r'). destruct Hp; subst; naive_solver. }
  split_and!; [auto|split| |].
  - intros t' H. destruct r as [|b]; cbn in H; simplify_eq. apply lookup_insert_eq.
  - intros t' H. destruct r as [|b]; cbn in H; simplify_eq. exists b. apply lookup_insert_eq.
  - intros t' r' H. apply Hone in H as (-> & -> & _); [|by left]. rewrite Hb'. split; [by destruct r|done].
  - intros t'. cbn [lie_down set_place set_queue queue]. rewrite set_waiter_lock. cbn. split.
    + intros [= <-]. exists r. left. apply lookup_insert_eq.
    + intros [r' [H|H]]; apply Hone in H as (-> & _); auto.
Qed.
Lemma acquire_spec s t r : monitor_ok s → inactive s t → (lock (queue s) = None → blocked r (queue s) = true) →
  runs (acquire t r) s (λ _ s', monitor_ok s' ∧ contents (queue s') = contents (queue s) ∧ others_same t s s' ∧ (lock (queue s) = None → threads s' !! t = Some (r, Sleeping))).
Proof.
  intros Hok Hi Hb. unfold acquire. run. destruct (lock (queue s)) as [h|] eqn:El; run.
  - split_and!; [by apply set_place_ok|done| |done]. intros t' Ht'. apply lookup_insert_ne. auto.
  - unfold wait. run. specialize (Hb eq_refl). apply runs_assert; [cbn; by destruct r|]. run. change (monitor_ok (lie_down t r s) ∧ contents (queue (lie_down t r s)) = contents (queue s) ∧ others_same t s (lie_down t r s) ∧ (@None Z = None → threads (lie_down t r s) !! t = Some (r, Sleeping))).
    split_and!; [by apply lie_down_ok|by destruct r| |intros _; apply lookup_insert_eq]. intros t' Ht'. apply lookup_insert_ne. auto.
Qed.
Definition logged (e : option (request * Z)) (q q' : intq) : Prop := match e with None => contents q' = contents q | Some (r, byte) => transferred r byte q q' end.
(** Threads other than [t] keep their place or are woken. *)
Definition others_wake (t : Z) (s s' : system) : Prop := ∀ t', t' ≠ t → threads s' !! t' = threads s !! t' ∨ ∃ r, threads s !! t' = Some (r, Sleeping) ∧ threads s' !! t' = Some (r, Woken).
Lemma attempt_spec s t r : monitor_ok s → inactive s t →
  runs (attempt t r) s (λ e s', monitor_ok s' ∧ logged e (queue s) (queue s') ∧ others_wake t s s' ∧ (lock (queue s) = None → ∃ p, threads s' !! t = Some (r, p) ∧ p ≠ Locking)).
Proof.
  intros Hok Hi. unfold attempt. run. destruct (blocked r (queue s)) eqn:Hb; run.
  - eapply runs_mono; [by apply acquire_spec|]. intros _ s' (H1 & H2 & H3 & H4). run. split_and!; [done|done|intros t' Ht'; left; by apply H3|]. intros El. exists Sleeping. split; [by apply H4|done].
  - eapply runs_mono; [by apply perform_spec|]. intros byte s' (H1 & H2 & H3). run. split_and!; [|done| |].
    + apply set_place_ok; try done. intros r'. destruct (H3 t) as [->|(r1 & E & _)]; [apply Hi|]. by destruct (Hi r1).
    + intros t' Ht'. cbn. rewrite lookup_insert_ne by auto. apply H3.
    + intros _. exists (Returned byte). split; [apply lookup_insert_eq|done].
Qed.
(** Without a reason to wait a call returns at once. *)
Lemma attempt_transfers s t r : monitor_ok s → inactive s t → blocked r (queue s) = false →
  runs (attempt t r) s (λ e s', ∃ byte, e = Some (r, byte) ∧ monitor_ok s' ∧ transferred r byte (queue s) (queue s') ∧ inactive s' t).
Proof.
  intros Hok Hi Hb. unfold attempt. run. rewrite Hb. run. eapply runs_mono; [by apply perform_spec|]. intros byte s' (H1 & H2 & H3). run. exists byte. split_and!; [done| |done|intros r'; cbn; by rewrite lookup_insert_eq].
  apply set_place_ok; try done. intros r'. destruct (H3 t) as [->|(r1 & E & _)]; [apply Hi|]. by destruct (Hi r1).
Qed.
Lemma attempt_waits s t r : monitor_ok s → inactive s t → blocked r (queue s) = true → runs (attempt t r) s (λ e s', e = None ∧ monitor_ok s' ∧ contents (queue s') = contents (queue s)).
Proof.
  intros Hok Hi Hb. unfold attempt. run. rewrite Hb. run. eapply runs_mono; [by apply acquire_spec|]. intros [] s' (H1 & H2 & _). by run.
Qed.
Lemma lock_release_spec s t r : monitor_ok s → threads s !! t = Some (r, Woken) →
  runs (release t r) s (λ _ s', monitor_ok s' ∧ contents (queue s') = contents (queue s) ∧ others_same t s s' ∧ threads s' !! t = Some (r, Testing)).
Proof.
  intros (Hw & [Hn Hf] & Hs & Hl) Ht. assert (lock (queue s) = Some t) as El by (apply Hl; eauto). unfold release. run. apply runs_assert; [by rewrite El, bool_decide_true|]. run.
  assert (∀ t' r', threads s !! t' ≠ Some (r', Sleeping)) as Hno.
  { intros t' r' H. assert (lock (queue s) = Some t') as E by (apply Hl; eauto). rewrite El in E. simplify_eq. }
  split_and!; [|done|intros t' Ht'; apply lookup_insert_ne; auto|apply lookup_insert_eq]. split_and!; [done|split| |].
  - intros t' H. by destruct (Hno _ _ (Hn t' H)).
  - intros t' H. destruct (Hf t' H) as [b Hb]. by destruct (Hno _ _ Hb).
  - intros t' r' H. unfold sleeps in H; cbn in H. apply lookup_insert_Some in H as [[_ ?]|[_ H]]; [done|]. by destruct (Hno t' r').
  - intros t'. cbn. split; [done|]. intros [r' H]. rewrite lookup_insert in H. case_decide; [destruct H; simplify_eq|]. assert (lock (queue s) = Some t') as E by (apply Hl; eauto). congruence.
Qed.
(** The one way to fail: a thread that gets the lock when there is no reason
    to wait any more. *)
Definition late (s : system) (a : action) : Prop :=
  match a with Continue t => ∃ r, threads s !! t = Some (r, Locking) ∧ blocked r (queue s) = false | _ => False end.
Lemma late_panics s a : enabled s a → late s a → act a s = Panic.
Proof.
  destruct a as [| |t]; try done. intros He (r & Ht & Hb). unfold enabled in He. rewrite Ht in He. unfold act, acquire, wait, mbind, M_bind, get, gets, modify. cbn. rewrite Ht, He. cbn.
  replace (blocked r _) with (blocked r (queue s)) by (by destruct r). by rewrite Hb.
Qed.
Lemma act_spec s a : monitor_ok s → enabled s a → ¬ late s a → runs (act a) s (λ e s', monitor_ok s' ∧ logged e (queue s) (queue s')).
Proof.
  intros Hok He Hn. destruct a as [t r|r|t]; cbn [act].
  - eapply runs_mono; [apply attempt_spec|naive_solver]; [done|]. intros r'. unfold enabled, idle in He. by destruct (threads s !! t) as [[? []]|].
  - unfold from_handler. run. apply runs_assert; [by rewrite He|]. eapply runs_mono; [by apply perform_spec|]. intros byte s' (H1 & H2 & _). run. done.
  - run. unfold enabled in He. destruct (threads s !! t) as [[r []]|] eqn:Et; try done.
    + eapply runs_mono; [apply attempt_spec; [done|intros r'; rewrite Et; done]|naive_solver].
    + run. eapply runs_mono; [apply acquire_spec; [done|intros r'; by rewrite Et|]|].
      * intros _. destruct (blocked r (queue s)) eqn:Hb; [done|]. destruct Hn. by exists r.
      * intros _ s' (H1 & H2 & _). by run.
    + run. eapply runs_mono; [by apply lock_release_spec|]. intros _ s' (H1 & H2 & _). by run.
Qed.
Lemma act_returns s a : monitor_ok s → enabled s a → ¬ late s a → ∃ e s', act a s = Done (e, s').
Proof. intros Hok He Hn. destruct (runs_done _ _ _ (act_spec s a Hok He Hn)) as (e & s' & E & _). eauto. Qed.
Lemma late_dec s a : late s a ∨ ¬ late s a.
Proof.
  destruct a as [| |t]; cbn [late]; auto. destruct (threads s !! t) as [[r p]|]; [|right; by intros (? & ? & _)].
  destruct p, (blocked r (queue s)) eqn:E; try (right; intros (? & ? & ?); simplify_eq; congruence). left. by exists r.
Qed.
Lemma initial_ok s : initial s → monitor_ok s.
Proof.
  intros (q & Hq & ->). split_and!; [done|done|by intros t r H|]. intros t. split; [done|]. by intros [r [H|H]].
Qed.
Lemma reachable_ok P ins outs s : reachable P ins outs s → monitor_ok s ∧ ins = outs ++ contents (queue s).
Proof.
  induction 1 as [s H|ins outs s a e s' Hr [IH1 IH2] Ha He E]; [split; [by apply initial_ok|]; by destruct H as (q & _ & ->)|].
  pose proof (act_spec s a IH1 He) as Hs. unfold runs in Hs. rewrite E in Hs. destruct Hs as [H1 H2]; [intros Hl; rewrite (late_panics s a) in E; done|]. split; [done|].
  rewrite IH2, <- app_assoc. destruct e as [[[|b] byte]|]; cbn in *; [by rewrite H2, app_nil_r, <- app_assoc| |by rewrite H2, !app_nil_r].
  destruct H2 as [-> ->]. by rewrite app_nil_r.
Qed.

(** ** One thread and interrupt handlers *)

Definition of_thread (t0 : Z) (a : action) : Prop := match a with Call t _ | Continue t => t = t0 | Handler _ => True end.
Definition alone (t0 : Z) (s : system) : Prop := ∀ t r p, threads s !! t = Some (r, p) → t = t0 ∧ p ≠ Locking.
Lemma alone_lock t0 s : monitor_ok s → alone t0 s → inactive s t0 → lock (queue s) = None.
Proof.
  intros (_ & _ & _ & Hl) Ha Hi. destruct (lock (queue s)) as [h|] eqn:E; [|done]. apply Hl in E as [r [H|H]]; pose proof (Ha _ _ _ H) as [-> _]; by destruct (Hi r).
Qed.
Lemma alone_wakes t0 s s' : alone t0 s → others_wake t0 s s' → (∃ r p, threads s' !! t0 = Some (r, p) ∧ p ≠ Locking) → alone t0 s'.
Proof.
  intros Ha Ho (r & p & E & Hp) t r' p' H. destruct (decide (t = t0)) as [->|Hne]; [rewrite E in H; naive_solver|]. destruct (Ho t Hne) as [E'|(r1 & E1 & E2)].
  - rewrite E' in H. by apply (Ha t r').
  - by destruct (Ha _ _ _ E1).
Qed.
Lemma alone_attempt t0 s r : monitor_ok s → alone t0 s → inactive s t0 → runs (attempt t0 r) s (λ _ s', alone t0 s').
Proof.
  intros Hok Ha Hi. eapply runs_mono; [by apply attempt_spec|]. intros e s' (_ & _ & Ho & Hp). apply (alone_wakes t0 s); [done|done|]. destruct Hp as (p & ? & ?); [by apply (alone_lock t0)|eauto].
Qed.
Lemma alone_act t0 s a : monitor_ok s → alone t0 s → of_thread t0 a → enabled s a → ¬ late s a ∧ runs (act a) s (λ _ s', alone t0 s').
Proof.
  intros Hok Ha Hof He. split. { destruct a as [| |t]; try (intros []; done). intros (r & Ht & _). by destruct (Ha _ _ _ Ht). }
  destruct a as [t r|r|t]; cbn [act]; [simpl in Hof; subst t..| |simpl in Hof; subst t].
  - apply alone_attempt; try done. intros r'. unfold enabled, idle in He. by destruct (threads s !! t0) as [[? []]|].
  - unfold from_handler. run. apply runs_assert; [by rewrite He|]. eapply runs_mono; [by apply perform_spec|]. intros byte s' (_ & _ & Hw). run. intros t r' p H. destruct (Hw t) as [E|(r1 & E1 & E2)].
    + rewrite E in H. by apply (Ha t r').
    + destruct (Ha _ _ _ E1) as [-> _]. rewrite E2 in H. naive_solver.
  - run. unfold enabled in He. destruct (threads s !! t0) as [[r []]|] eqn:Et; try done.
    + apply alone_attempt; try done. intros r'. by rewrite Et.
    + by destruct (Ha _ _ _ Et).
    + run. eapply runs_mono; [by apply lock_release_spec|]. intros _ s' (_ & _ & Ho & Ht). run. apply (alone_wakes t0 s); [done|intros t' Ht'; left; by apply Ho|]. by exists r, Testing.
Qed.
Lemma reachable_alone t0 ins outs s : reachable (of_thread t0) ins outs s → alone t0 s.
Proof.
  induction 1 as [s H|ins outs s a e s' Hr IH Ha He E]; [by destruct H as (q & _ & ->)|]. destruct (reachable_ok _ _ _ _ Hr) as [Hok _].
  destruct (alone_act t0 s a Hok IH Ha He) as [_ H]. unfold runs in H. by rewrite E in H.
Qed.

(** C22 An interrupt queue is first in, first out, and a thread never sleeps without
    reason: under every interleaving of the calls of threads and of interrupt
    handlers that does not stop the kernel, the bytes put in are those taken
    out, in that order, followed by those in the queue, which are at most 63; a thread asleep in
    [intq_getc] means that the queue is empty, one asleep in [intq_putc] that it
    is full, and the queue records the thread, for the next [signal] to wake it.  A step
    that can be taken stops the kernel exactly when it is [late]: a thread that waited for the lock
    gets it although the reason it wanted it for is gone, so that the
    assertion in [wait] fails; every other step returns.  With a single thread no step is late.  (A handler calls
    [intq_getc] and [intq_putc], as the drivers do, only when the queue has a byte or room.) *)
Theorem intq_is_fifo_monitor P ins outs s : reachable P ins outs s →
  ins = outs ++ contents (queue s) ∧ zlen (contents (queue s)) ≤ 63 ∧
  (∀ t r, threads s !! t = Some (r, Sleeping) → waiter_of r (queue s) = Some t ∧ match r with Getc => contents (queue s) = [] | Putc _ => zlen (contents (queue s)) = 63 end) ∧
  (∀ a, enabled s a → (act a s = Panic ↔ late s a) ∧ (¬ late s a → ∃ e s', act a s = Done (e, s'))) ∧
  ∀ t0, (∀ a, P a → of_thread t0 a) → ∀ a, P a → enabled s a → ¬ late s a.
Proof.
  intros Hr. destruct (reachable_ok _ _ _ _ Hr) as [Hok Hc]. pose proof Hok as (Hw & _ & Hs & _). split_and!; [done| | | |].
  - rewrite zlen_contents. unfold count. pose proof (Z.mod_pos_bound (head (queue s) - tail (queue s)) 64). lia.
  - intros t r H. destruct (Hs t r H) as [H1 H2]. split; [done|]. destruct r; cbn in H2; [rewrite empty_contents in H2|rewrite full_contents in H2]; by (done || apply bool_decide_eq_true in H2).
  - intros a He. pose proof (act_returns s a Hok He) as Hret. split; [|done]. split; [|by apply late_panics].
    intros E. destruct (late_dec s a) as [|Hn]; [done|]. destruct (Hret Hn) as (e & s' & E'). congruence.
  - intros t0 HP a Ha He. assert (reachable (of_thread t0) ins outs s) as Hr' by (clear -Hr HP; induction Hr; [by apply reach_init|eapply reach_step; eauto]).
    destruct (alone_act t0 s a Hok (reachable_alone _ _ _ _ Hr') (HP a Ha) He) as [H _]. done.
Qed.
Definition demo_queue : intq := {| lock := None; not_full := None; not_empty := None; buf := replicate 64 0; head := 0; tail := 0 |}.
Definition demo_system : system := {| queue := demo_queue; threads := ∅ |}.
Fixpoint acts (l : list action) (s : system) : outcome (list Z * list Z * system) :=
  match l with
  | [] => Done ([], [], s)
  | a :: l => '(e, s) ← act a s; '(ins, outs, s) ← acts l s; Done (bytes_in e ++ ins, bytes_out e ++ outs, s)
  end.
(** Thread 1 reads twice; an interrupt brings two bytes in between. *)
Lemma intq_is_fifo_monitor_witness : ∃ s, reachable (of_thread 1) [65; 66] [65] s ∧ [65; 66] = [65] ++ contents (queue s).
Proof.
  pose (st := λ a s, match act a s with Done (_, s) => s | _ => s end).
  pose (s1 := st (Call 1 Getc) demo_system). pose (s2 := st (Handler (Putc 65)) s1). pose (s3 := st (Handler (Putc 66)) s2). pose (s4 := st (Continue 1) s3).
  assert (reachable (of_thread 1) [] [] demo_system) as R0 by (apply reach_init; exists demo_queue; split; reflexivity).
  assert (reachable (of_thread 1) [] [] s1) as R1 by (apply (reach_step _ _ _ _ (Call 1 Getc) None s1 R0); vm_compute; tauto).
  assert (reachable (of_thread 1) [65] [] s2) as R2 by (apply (reach_step _ _ _ _ (Handler (Putc 65)) (Some (Putc 65, 65)) s2 R1); vm_compute; tauto).
  assert (reachable (of_thread 1) [65; 66] [] s3) as R3 by (apply (reach_step _ _ _ _ (Handler (Putc 66)) (Some (Putc 66, 66)) s3 R2); vm_compute; tauto).
  assert (reachable (of_thread 1) [65; 66] [] s4) as R4 by (apply (reach_step _ _ _ _ (Continue 1) None s4 R3); vm_compute; tauto).
  pose (s5 := st (Continue 1) s4). exists s5.
  assert (reachable (of_thread 1) [65; 66] [65] s5) as R5 by (apply (reach_step _ _ _ _ (Continue 1) (Some (Getc, 65)) s5 R4); vm_compute; tauto).
  split; [exact R5|]. exact (proj1 (intq_is_fifo_monitor (of_thread 1) [65; 66] [65] s5 R5)).
Defined.

(** With two readers the kernel can be stopped: thread 1 sleeps with the lock, thread
    2 waits for it, and two bytes arrive.  Thread 1 takes one of them; thread 2 gets
    the lock without testing the queue again, and the assertion in [wait] fails
    because the queue is not empty. *)
Lemma two_readers_stop_kernel : ∃ s, acts [Call 1 Getc; Call 2 Getc; Handler (Putc 65); Handler (Putc 66); Continue 1; Continue 1] demo_system = Done ([65; 66], [65], s) ∧
  enabled s (Continue 2) ∧ act (Continue 2) s = Panic.
Proof. eexists. split; [vm_compute; reflexivity|]. split; reflexivity. Qed.
