(* ===== verification/Serial.v ===== *)
(** * The serial port and the input buffer
    (src/pintos/src/devices/serial.c, src/pintos/src/devices/input.c)

    The machine logs each access to an I/O port.  What a read returns is up to the
    device, a function of the accesses so far.  The transmit queue and the input buffer are
    interrupt queues with the threads that use them (Intq.v).  Interrupts are
    off throughout, as the functions assert or arrange; [old_level] says whether
    they were on before. *)

From S2P Require Import Prelude Intq.

Definition IO_BASE : Z := 1016.
Definition RBR_REG : Z := IO_BASE + 0.
Definition THR_REG : Z := IO_BASE + 0.
Definition IER_REG : Z := IO_BASE + 1.
Definition LS_REG : Z := IO_BASE + 0.
Definition MS_REG : Z := IO_BASE + 1.
Definition IIR_REG : Z := IO_BASE + 2.
Definition FCR_REG : Z := IO_BASE + 2.
Definition LCR_REG : Z := IO_BASE + 3.
Definition MCR_REG : Z := IO_BASE + 4.
Definition LSR_REG : Z := IO_BASE + 5.
Definition IER_RECV : Z := 1.
Definition IER_XMIT : Z := 2.
Definition LCR_N81 : Z := 3.
Definition LCR_DLAB : Z := 128.
Definition MCR_OUT2 : Z := 8.
Definition LSR_DR : Z := 1.
Definition LSR_THRE : Z := 32.

Inductive event : Type := In (port value : Z) | Out (port value : Z).
Inductive serial_mode : Type := UNINIT | POLL | QUEUE.
Record machine := { mode : serial_mode; txq : system; buffer : system; io : list event }.
Definition set_mode (x : serial_mode) (m : machine) : machine := {| mode := x; txq := txq m; buffer := buffer m; io := io m |}.
Definition set_txq (q : system) (m : machine) : machine := {| mode := mode m; txq := q; buffer := buffer m; io := io m |}.
Definition set_buffer (q : system) (m : machine) : machine := {| mode := mode m; txq := txq m; buffer := q; io := io m |}.
Definition log (e : event) (m : machine) : machine := {| mode := mode m; txq := txq m; buffer := buffer m; io := io m ++ [e] |}.
Definition on_txq {A} (f : M system A) : M machine A := λ m, '(a, q) ← f (txq m); Done (a, set_txq q m).
Definition on_buffer {A} (f : M system A) : M machine A := λ m, '(a, q) ← f (buffer m); Done (a, set_buffer q m).

Section serial.
(** What a read of a port returns, after these accesses. *)
Context (device : list event → Z → Z).

Definition inb (port : Z) : M machine Z := m ← get; let v := u8 (device (io m) port) in put (log (In port v) m);; mret v.
Definition outb (port value : Z) : M machine unit := modify (log (Out port value)).

(** ** Input buffer: input_full, and whether it or the transmit queue is empty *)

Definition input_init : M machine unit := modify (λ m, set_buffer (set_queue intq_init (buffer m)) m).
Definition input_full : M machine bool := m ← get; mret (intq_full (queue (buffer m))).
Definition txq_empty : M machine bool := m ← get; mret (intq_empty (queue (txq m))).
Definition write_ier : M machine unit :=
  e ← txq_empty; f ← input_full;
  outb IER_REG (Z.lor (if e : bool then 0 else IER_XMIT) (if f : bool then 0 else IER_RECV)).
Definition serial_notify : M machine unit := m ← get; match mode m with QUEUE => write_ier | _ => mret tt end.
Definition input_putc (key : Z) : M machine unit :=
  f ← input_full; assert (negb f);; on_buffer (from_handler (Putc key));; serial_notify.
(** [input_getc] of thread [t]: [None] while it sleeps in [intq_getc]. *)
Definition input_getc (t : Z) : M machine (option Z) :=
  e ← on_buffer (attempt t Getc);
  match e with Some (_, key) => serial_notify;; mret (Some key) | None => mret None end.

(** ** The port *)

Definition set_serial (bps : Z) : M machine unit :=
  if bps =? 0 then undefined else
  let divisor := u16 (115200 `quot` bps) in
  assert ((300 <=? bps) && (bps <=? 115200));;
  outb LCR_REG (Z.lor LCR_N81 LCR_DLAB);;
  outb LS_REG (Z.land divisor 255);; outb MS_REG (Z.shiftr divisor 8);;
  outb LCR_REG LCR_N81.
Definition init_poll : M machine unit :=
  m ← get; assert (match mode m with UNINIT => true | _ => false end);;
  outb IER_REG 0;; outb FCR_REG 0;; set_serial 9600;; outb MCR_REG MCR_OUT2;;
  modify (λ m, set_txq (set_queue intq_init (txq m)) m);; modify (set_mode POLL).
Definition serial_init_queue : M machine unit :=
  m ← get; (match mode m with UNINIT => init_poll | _ => mret tt end);;
  m ← get; assert (match mode m with POLL => true | _ => false end);;
  modify (set_mode QUEUE);; write_ier.

(** [while ((inb (LSR_REG) & LSR_THRE) == 0) continue;], at most [patience] times. *)
Fixpoint putc_poll (patience : nat) (byte : Z) : M machine unit :=
  match patience with
  | O => out_of_fuel
  | S patience => lsr ← inb LSR_REG; if Z.land lsr LSR_THRE =? 0 then putc_poll patience byte else outb THR_REG byte
  end.
(** [serial_putc] of thread [t]; [false] while it sleeps in [intq_putc], after which
    [write_ier] is left to do. *)
Definition serial_putc (patience : nat) (t : Z) (interrupts_on : bool) (byte : Z) : M machine bool :=
  m ← get;
  match mode m with
  | QUEUE =>
      (if negb interrupts_on && intq_full (queue (txq m)) then
         e ← on_txq (attempt t Getc);
         match e with Some (_, old) => putc_poll patience old | None => undefined end
       else mret tt);;
      e ← on_txq (attempt t (Putc byte));
      match e with Some _ => write_ier;; mret true | None => mret false end
  | _ => (match mode m with UNINIT => init_poll | _ => mret tt end);; putc_poll patience byte;; mret true
  end.
Fixpoint serial_flush (patience fuel : nat) (t : Z) : M machine unit :=
  match fuel with
  | O => out_of_fuel
  | S fuel =>
      e ← txq_empty;
      if e : bool then mret tt else
      x ← on_txq (attempt t Getc);
      match x with Some (_, byte) => putc_poll patience byte;; serial_flush patience fuel t | None => undefined end
  end.

(** ** The interrupt handler *)

Fixpoint receive (fuel : nat) : M machine unit :=
  match fuel with
  | O => out_of_fuel
  | S fuel =>
      f ← input_full;
      if f : bool then mret tt else
      lsr ← inb LSR_REG;
      if Z.land lsr LSR_DR =? 0 then mret tt else
      key ← inb RBR_REG; input_putc key;; receive fuel
  end.
Fixpoint transmit (fuel : nat) : M machine unit :=
  match fuel with
  | O => out_of_fuel
  | S fuel =>
      e ← txq_empty;
      if e : bool then mret tt else
      lsr ← inb LSR_REG;
      if Z.land lsr LSR_THRE =? 0 then mret tt else
      byte ← on_txq (from_handler Getc); outb THR_REG byte;; transmit fuel
  end.
(** A queue holds 63 bytes: 64 turns are enough. *)
Definition serial_interrupt : M machine unit := inb IIR_REG;; receive 64;; transmit 64;; write_ier.

(** ** What goes over the line *)

Definition sent (ev : list event) : list Z := omap (λ e, match e with Out p v => if p =? THR_REG then Some v else None | _ => None end) ev.
Definition received (ev : list event) : list Z := omap (λ e, match e with In p v => if p =? RBR_REG then Some v else None | _ => None end) ev.
Definition to_send (m : machine) : list Z := contents (queue (txq m)).
Definition to_read (m : machine) : list Z := contents (queue (buffer m)).
Definition serial_ok (m : machine) : Prop := monitor_ok (txq m) ∧ monitor_ok (buffer m).
(** The bytes of the transmit queue go out in order, after which come [ins]; those that come in
    are appended to the input buffer. *)
Definition progress (ins : list Z) (m m' : machine) : Prop :=
  serial_ok m' ∧ mode m' = mode m ∧ ∃ ev, io m' = io m ++ ev ∧ sent ev ++ to_send m' = to_send m ++ ins ∧ to_read m' = to_read m ++ received ev.
(** What the interrupt enable register was last set to, and what it should be. *)
Definition ier_writes (ev : list event) : list Z := omap (λ e, match e with Out p v => if p =? IER_REG then Some v else None | _ => None end) ev.
Definition ier_of (m : machine) : Z := Z.lor (if bool_decide (to_send m = []) then 0 else IER_XMIT) (if bool_decide (zlen (to_read m) = 63) then 0 else IER_RECV).
Definition ier_ok (m : machine) : Prop := list.last (ier_writes (io m)) = Some (ier_of m).

Lemma progress_refl m : serial_ok m → progress [] m m.
Proof. intros H. split_and!; [done|done|]. exists []. by rewrite !app_nil_r. Qed.
Lemma progress_trans ins1 ins2 m1 m2 m3 : progress ins1 m1 m2 → progress ins2 m2 m3 → progress (ins1 ++ ins2) m1 m3.
Proof.
  intros (_ & Hm1 & ev1 & H1 & H2 & H3) (Hok & Hm2 & ev2 & H4 & H5 & H6). split_and!; [done|congruence|]. exists (ev1 ++ ev2). unfold sent, received. rewrite !omap_app. fold (sent ev1) (sent ev2) (received ev1) (received ev2).
  split_and!; [by rewrite H4, H1, app_assoc| |by rewrite H6, H3, app_assoc]. by rewrite <- app_assoc, H5, !app_assoc, H2.
Qed.
(** An access that transfers no byte. *)
Lemma progress_log m e : serial_ok m → sent [e] = [] → received [e] = [] → progress [] m (log e m).
Proof. intros H H1 H2. split_and!; [done|done|]. exists [e]. rewrite H1, H2, !app_nil_r. done. Qed.
Lemma write_ier_spec m : serial_ok m → runs write_ier m (λ _ m', m' = log (Out IER_REG (ier_of m)) m).
Proof.
  intros [(Ht & _) (Hb & _)]. unfold write_ier, txq_empty, input_full, outb. run. unfold ier_of, to_send, to_read. by rewrite <- empty_contents, <- full_contents.
Qed.
Lemma log_ier_ok m : ier_ok (log (Out IER_REG (ier_of m)) m).
Proof. unfold ier_ok. cbn [log io]. unfold ier_writes. rewrite omap_app. exact (list.last_snoc (ier_of m) (ier_writes (io m))). Qed.
Lemma write_ier_progress m : serial_ok m → runs write_ier m (λ _ m', progress [] m m' ∧ ier_ok m').
Proof. intros H. eapply runs_mono; [by apply write_ier_spec|]. intros [] m' ->. split; [by apply progress_log|apply log_ier_ok]. Qed.
Lemma runs_inb port m (Q : Z → machine → Prop) : (∀ v, Q v (log (In port v) m)) → runs (inb port) m Q.
Proof. intros H. unfold inb. run. apply H. Qed.
Lemma runs_on_buffer {A} (f : M system A) m Q : runs f (buffer m) (λ a q, Q a (set_buffer q m)) → runs (on_buffer f) m Q.
Proof. unfold runs, on_buffer. by destruct (f (buffer m)) as [[a q]| | |]. Qed.
Lemma runs_on_txq {A} (f : M system A) m Q : runs f (txq m) (λ a q, Q a (set_txq q m)) → runs (on_txq f) m Q.
Proof. unfold runs, on_txq. by destruct (f (txq m)) as [[a q]| | |]. Qed.

(** A key that comes in. *)
Lemma input_putc_spec m v : serial_ok m → zlen (to_read m) < 63 →
  runs (input_putc v) m (λ _ m', serial_ok m' ∧ mode m' = mode m ∧ to_send m' = to_send m ∧ to_read m' = to_read m ++ [v] ∧ ∃ ev, io m' = io m ++ ev ∧ sent ev = [] ∧ received ev = [] ∧ (mode m = QUEUE → ier_ok m')).
Proof.
  intros [Ht Hb] Hr. unfold input_putc, input_full. run. assert (intq_full (queue (buffer m)) = false) as Hf by (rewrite full_contents by apply Hb; apply bool_decide_eq_false; unfold to_read in Hr; lia).
  apply runs_assert; [by rewrite Hf|]. run. apply runs_on_buffer. unfold from_handler. run. apply runs_assert; [cbn; by rewrite Hf|]. eapply runs_mono; [by apply perform_spec|]. intros byte q (Hq & [-> Hc] & _). cbn beta.
  unfold serial_notify. run. assert (serial_ok (set_buffer q m)) as Hok' by done. cbn [set_buffer mode]. destruct (mode m) eqn:Em; run.
  1, 2: split_and!; try done; exists []; by rewrite app_nil_r.
  eapply runs_mono; [by apply write_ier_spec|]. intros [] m' ->. cbn. split_and!; try done. eexists. split_and!; [done|done|done|]. intros _. apply log_ier_ok.
Qed.
Lemma read_room m : serial_ok m → zlen (to_read m) ≤ 63.
Proof. intros [_ (Hb & _)]. unfold to_read. rewrite zlen_contents. unfold count. pose proof (Z.mod_pos_bound (head (queue (buffer m)) - tail (queue (buffer m))) 64). lia. Qed.
Lemma receive_spec fuel : ∀ m, serial_ok m → 63 - zlen (to_read m) < Z.of_nat fuel → runs (receive fuel) m (λ _ m', progress [] m m').
Proof.
  induction fuel as [|fuel IH]; intros m Hok Hf; [pose proof (read_room m Hok); lia|]. cbn [receive]. unfold input_full. run. destruct Hok as [Ht Hb]. rewrite full_contents by apply Hb.
  destruct (decide (zlen (contents (queue (buffer m))) = 63)) as [E|E]; [rewrite bool_decide_true by done; run; by apply progress_refl|rewrite bool_decide_false by done].
  pose proof (read_room m (conj Ht Hb)) as Hroom. run. apply runs_inb. intros lsr. destruct (Z.land lsr LSR_DR =? 0); run; [by apply progress_log|]. apply runs_inb. intros key. run.
  eapply runs_mono; [apply input_putc_spec; [done|cbn; unfold to_read in *; cbn; lia]|]. intros [] m1 (Hok1 & Hm1 & Hs1 & Hr1 & ev & He & Hse & Hre & _).
  eapply runs_mono; [apply IH; [done|rewrite Hr1, zlen_app; change (zlen [key]) with 1; unfold to_read in *; cbn; lia]|]. intros [] m2 Hp. change (@nil Z) with (@nil Z ++ []). eapply progress_trans; [|done].
  split_and!; [done|done|]. exists ([In LSR_REG lsr; In RBR_REG key] ++ ev). split_and!.
  - rewrite He. cbn. by rewrite <- !app_assoc.
  - unfold sent. rewrite omap_app. fold (sent ev). rewrite Hse. cbn. by rewrite Hs1, app_nil_r.
  - unfold received. rewrite omap_app. fold (received ev). rewrite Hre. done.
Qed.

(** A byte that is taken from the transmit queue and goes out next. *)
Lemma sent_next m q byte ev m' : serial_ok m → monitor_ok q → to_send m = byte :: contents (queue q) → sent ev = [byte] → received ev = [] → m' = {| mode := mode m; txq := q; buffer := buffer m; io := io m ++ ev |} → progress [] m m'.
Proof.
  intros [_ Hb] Hq Hc Hs Hr ->. split_and!; [by split|done|]. exists ev. split_and!; [done| |by rewrite Hr, app_nil_r]. rewrite Hs, app_nil_r. by rewrite Hc.
Qed.
Lemma transmit_spec fuel : ∀ m, serial_ok m → zlen (to_send m) < Z.of_nat fuel → runs (transmit fuel) m (λ _ m', progress [] m m').
Proof.
  induction fuel as [|fuel IH]; intros m Hok Hf; [pose proof (zlen_nonneg (to_send m)); lia|]. cbn [transmit]. unfold txq_empty. run. pose proof Hok as [Ht Hb]. rewrite empty_contents by apply Ht.
  destruct (decide (contents (queue (txq m)) = [])) as [E|E]; [rewrite bool_decide_true by done; run; by apply progress_refl|rewrite bool_decide_false by done].
  run. apply runs_inb. intros lsr. destruct (Z.land lsr LSR_THRE =? 0); run; [by apply progress_log|]. apply runs_on_txq. unfold from_handler. run. cbn [log txq].
  assert (blocked Getc (queue (txq m)) = false) as Hbl by (cbn; rewrite empty_contents by apply Ht; by apply bool_decide_eq_false). apply runs_assert; [by rewrite Hbl|].
  eapply runs_mono; [by apply perform_spec|]. intros byte q (Hq & Hc & _). unfold outb. run. cbn in Hc.
  assert (progress [] m (log (Out THR_REG byte) (set_txq q (log (In LSR_REG lsr) m)))) as Hp by (apply (sent_next _ q byte [In LSR_REG lsr; Out THR_REG byte]); try done; cbn; unfold log; cbn; by rewrite <- app_assoc).
  eapply runs_mono; [apply IH; [by destruct Hp|unfold to_send in *; cbn; rewrite Hc, zlen_cons in Hf; lia]|]. intros [] m2 Hp2. change (@nil Z) with (@nil Z ++ []). by eapply progress_trans.
Qed.
Lemma send_room m : serial_ok m → zlen (to_send m) ≤ 63.
Proof. intros [(Hb & _) _]. unfold to_send. rewrite zlen_contents. unfold count. pose proof (Z.mod_pos_bound (head (queue (txq m)) - tail (queue (txq m))) 64). lia. Qed.

(** The serial interrupt handler returns whatever the device answers.  The bytes it sends are
    the first of the transmit queue, in order, and leave the queue; the bytes it reads
    are appended to the input buffer in order, none is lost; and the
    interrupt enable register ends up asking for exactly the interrupts that
    there is something to do for. *)
Theorem serial_interrupt_correct m : serial_ok m → runs serial_interrupt m (λ _ m', progress [] m m' ∧ ier_ok m').
Proof.
  intros Hok. unfold serial_interrupt. run. apply runs_inb. intros iir. run.
  eapply runs_mono; [apply (receive_spec 64); [done|unfold to_read; cbn; pose proof (zlen_nonneg (contents (queue (buffer m)))); lia]|]. intros [] m1 Hp1. run.
  assert (progress [] m m1) as Hp1' by (change (@nil Z) with (@nil Z ++ []); eapply progress_trans; [by apply (progress_log _ (In IIR_REG iir))|done]).
  eapply runs_mono; [apply (transmit_spec 64); [by destruct Hp1|pose proof (send_room m1 ltac:(by destruct Hp1)); lia]|]. intros [] m2 Hp2. eapply runs_mono; [apply write_ier_progress; by destruct Hp2|]. intros [] m3 [Hp3 Hi]. split; [|done].
  change (@nil Z) with (@nil Z ++ [] ++ []). eapply progress_trans; [done|]. by eapply progress_trans.
Qed.

(** ** Polling *)

(** The transmitter is ready within [n] reads of the line status. *)
Fixpoint ready_within (n : nat) (ev : list event) : bool :=
  match n with
  | O => false
  | S n => let v := u8 (device ev LSR_REG) in negb (Z.land v LSR_THRE =? 0) || ready_within n (ev ++ [In LSR_REG v])
  end.
Lemma putc_poll_spec patience byte : ∀ m, ready_within patience (io m) = true →
  runs (putc_poll patience byte) m (λ _ m', ∃ ev, sent ev = [byte] ∧ received ev = [] ∧ m' = {| mode := mode m; txq := txq m; buffer := buffer m; io := io m ++ ev |}).
Proof.
  induction patience as [|n IH]; intros m H; [done|]. cbn [putc_poll ready_within] in *. unfold inb. run. destruct (Z.land (u8 (device (io m) LSR_REG)) LSR_THRE =? 0); cbn [negb orb] in H.
  - eapply runs_mono; [by apply IH|]. intros [] m' (ev & H1 & H2 & ->). exists (In LSR_REG (u8 (device (io m) LSR_REG)) :: ev). split_and!; [done|done|]. cbn. by rewrite <- app_assoc.
  - unfold outb. run. exists [In LSR_REG (u8 (device (io m) LSR_REG)); Out THR_REG byte]. split_and!; [done|done|]. unfold log. cbn. by rewrite <- app_assoc.
Qed.

Section ready.
(** A transmitter that becomes empty again after a while. *)
Context (patience : nat) (Hready : ∀ ev, ready_within patience ev = true).

(** Taking the first byte of the queue and sending it. *)
Lemma drain_one t m : serial_ok m → inactive (txq m) t → to_send m ≠ [] →
  runs (e ← on_txq (attempt t Getc); match e with Some (_, byte) => putc_poll patience byte | None => undefined end) m
    (λ _ m', progress [] m m' ∧ inactive (txq m') t ∧ zlen (to_send m') + 1 = zlen (to_send m) ∧ to_read m' = to_read m).
Proof.
  intros Hok Hi Hne. pose proof Hok as [Ht Hb]. run. apply runs_on_txq. assert (blocked Getc (queue (txq m)) = false) as Hbl by (cbn; rewrite empty_contents by apply Ht; by apply bool_decide_eq_false).
  eapply runs_mono; [by apply attempt_transfers|]. intros e q (byte & -> & Hq & Hc & Hi'). cbn in Hc. eapply runs_mono; [by apply putc_poll_spec|]. intros [] m' (ev & H1 & H2 & ->).
  split_and!; [by apply (sent_next m q byte ev)|done| |done]. unfold to_send at 2. rewrite Hc, zlen_cons. unfold to_send. cbn. lia.
Qed.
(** [serial_flush] sends everything that is in the transmit queue, in order, and
    leaves it empty. *)
Theorem serial_flush_sends_all t m : serial_ok m → inactive (txq m) t →
  runs (serial_flush patience 64 t) m (λ _ m', to_send m' = [] ∧ to_read m' = to_read m ∧ serial_ok m' ∧ ∃ ev, io m' = io m ++ ev ∧ sent ev = to_send m).
Proof.
  intros Hok Hi. cut (∀ fuel m, serial_ok m → inactive (txq m) t → zlen (to_send m) < Z.of_nat fuel → runs (serial_flush patience fuel t) m (λ _ m', progress [] m m' ∧ to_send m' = [] ∧ to_read m' = to_read m)).
  { intros H. eapply runs_mono; [apply (H 64%nat); [done|done|pose proof (send_room m Hok); lia]|]. intros [] m' ((H1 & _ & ev & H2 & H3 & H4) & H5 & H6). split_and!; [done|done|done|]. exists ev. split; [done|]. by rewrite H5, !app_nil_r in H3. }
  clear m Hok Hi. induction fuel as [|fuel IH]; intros m Hok Hi Hf; [pose proof (zlen_nonneg (to_send m)); lia|]. cbn [serial_flush]. unfold txq_empty. run. pose proof Hok as [Ht Hb]. rewrite empty_contents by apply Ht.
  destruct (decide (contents (queue (txq m)) = [])) as [E|E]; [rewrite bool_decide_true by done; run; split; [by apply progress_refl|done]|rewrite bool_decide_false by done].
  pose proof (drain_one t m Hok Hi E) as H. apply runs_bind_inv in H. eapply runs_bind, runs_mono; [exact H|]. intros [[r byte]|] m1 H1; [|done]. apply runs_bind. eapply runs_mono; [exact H1|]. intros [] m2 (Hp & Hi2 & Hl & Hr).
  eapply runs_mono; [apply IH; [by destruct Hp|done|lia]|]. intros [] m3 (Hp3 & H5 & H6). split_and!; [change (@nil Z) with (@nil Z ++ []); by eapply progress_trans|done|congruence].
Qed.
(** [serial_putc] in interrupt mode.  With interrupts off it always returns: if
    the queue is full it sends the oldest byte by polling to make room.  With
    interrupts on it returns if there is room and sleeps otherwise.  When it
    returns, the byte is the last of those to be sent, after all bytes before it,
    and the transmit interrupt is on. *)
Theorem serial_putc_in_order t interrupts_on byte m : serial_ok m → mode m = QUEUE → inactive (txq m) t →
  runs (serial_putc patience t interrupts_on byte) m (λ returned m',
    (if returned then progress [byte] m m' ∧ ier_ok m' else serial_ok m' ∧ to_send m' = to_send m ∧ io m' = io m) ∧
    returned = negb (interrupts_on && bool_decide (zlen (to_send m) = 63))).
Proof.
  intros Hok Hm Hi. unfold serial_putc. run. rewrite Hm. pose proof Hok as [Ht Hb]. rewrite full_contents by apply Ht. fold (to_send m).
  assert (∀ m1, progress [] m m1 → inactive (txq m1) t → zlen (to_send m1) ≠ 63 → runs (e ← on_txq (attempt t (Putc byte)); match e with Some _ => write_ier;; mret true | None => mret false end) m1 (λ r m', r = true ∧ progress [byte] m m' ∧ ier_ok m')) as Hput.
  { intros m1 Hp1 Hi1 Hl1. pose proof Hp1 as ([Ht1 Hb1] & _). run. apply runs_on_txq. eapply runs_mono; [apply attempt_transfers; [done|done|cbn; rewrite full_contents by apply Ht1; by apply bool_decide_eq_false]|].
    intros e q (b & -> & Hq & [-> Hc] & _). run. eapply runs_mono; [apply write_ier_progress; by split|]. intros [] m2 [Hp2 Hier]. run. split_and!; [done| |done].
    assert (progress [byte] m1 (set_txq q m1)) as Hpq by (split_and!; [by split|done|]; exists []; rewrite !app_nil_r; cbn; unfold to_send; cbn; done).
    change [byte] with ([] ++ [byte] ++ []). eapply progress_trans; [done|]. by eapply progress_trans. }
  apply runs_bind. destruct interrupts_on; cbn [negb andb].
  - apply runs_ret. destruct (decide (zlen (to_send m) = 63)) as [E|E]; [rewrite bool_decide_true by done|rewrite bool_decide_false by done].
    + run. apply runs_on_txq. eapply runs_mono; [apply attempt_waits; [done|done|cbn; rewrite full_contents by apply Ht; by apply bool_decide_eq_true]|]. intros e q (-> & Hq & Hc). run. split; [|done]. by split_and!; [split| |].
    + eapply runs_mono; [by apply Hput; [apply progress_refl| |]|]. by intros r m' (-> & H1 & H2).
  - destruct (decide (zlen (to_send m) = 63)) as [E|E]; [rewrite bool_decide_true by done|rewrite bool_decide_false by done; apply runs_ret; eapply runs_mono; [by apply Hput; [apply progress_refl| |]|]; by intros r m' (-> & H1 & H2)].
    eapply runs_mono; [apply drain_one; [done|done|intros E0; rewrite E0 in E; done]|]. intros [] m1 (Hp & Hi1 & Hl & _). eapply runs_mono; [apply Hput; [done|done|lia]|]. by intros r m' (-> & H1 & H2).
Qed.
End ready.
End serial.

(** ** A device that is always ready and sends one byte *)

Definition demo_device (ev : list event) (port : Z) : Z := if port =? LSR_REG then (if bool_decide (received ev = []) then 33 else 32) else 65.
Definition demo_machine : machine := {| mode := QUEUE; txq := demo_system; buffer := demo_system; io := [] |}.
Lemma demo_serial_ok : serial_ok demo_machine.
Proof. split; apply initial_ok; by exists demo_queue. Qed.
Lemma serial_interrupt_correct_witness : ∃ m', serial_interrupt demo_device demo_machine = Done (tt, m') ∧ ier_ok m' ∧ to_read m' = [65].
Proof.
  pose proof (serial_interrupt_correct demo_device demo_machine demo_serial_ok) as H. unfold runs in H. destruct (serial_interrupt demo_device demo_machine) as [[[] m']| | |] eqn:E; [|destruct H..]. exists m'. split; [reflexivity|]. split; [exact (proj2 H)|].
  vm_compute in E. injection E as <-. reflexivity.
Defined.
Lemma demo_ready ev : ready_within demo_device 1 ev = true.
Proof. cbn. unfold demo_device. cbn. by destruct (bool_decide _). Qed.
Lemma demo_inactive : inactive (txq demo_machine) 1.
Proof. intros r. split; discriminate. Qed.
Lemma serial_putc_in_order_witness : ∃ m', serial_putc demo_device 1 1 true 72 demo_machine = Done (true, m') ∧ progress [72] demo_machine m'.
Proof.
  pose proof (serial_putc_in_order demo_device 1 demo_ready 1 true 72 demo_machine demo_serial_ok eq_refl demo_inactive) as H. unfold runs in H.
  destruct (serial_putc demo_device 1 1 true 72 demo_machine) as [[r m']| | |] eqn:E; [|destruct H..]. exists m'. destruct H as [H Hr]. change (r = true) in Hr. rewrite Hr in H |- *. split; [reflexivity|exact (proj1 H)].
Defined.
Lemma serial_flush_sends_all_witness : ∃ m', serial_flush demo_device 1 64 1 demo_machine = Done (tt, m') ∧ to_send m' = [].
Proof.
  pose proof (serial_flush_sends_all demo_device 1 demo_ready 1 demo_machine demo_serial_ok demo_inactive) as H. unfold runs in H. destruct (serial_flush demo_device 1 64 1 demo_machine) as [[[] m']| | |]; [|destruct H..]. exists m'. split; [reflexivity|exact (proj1 H)].
Defined.
