(* ===== verification/Kbd.v ===== *)
(** * The keyboard (src/pintos/src/devices/kbd.c)

    The state of the shift keys, and the interrupt handler on the machine of
    Serial.v, whose input buffer takes the characters.  Rebooting, with Ctrl, Alt
    and Delete, does not return and is [Panic]. *)

From stdpp Require Import strings.
From S2P Require Import Prelude KList Stdio Intq Serial.

Definition DATA_REG : Z := 96.
Record kbd := { left_shift : bool; right_shift : bool; left_alt : bool; right_alt : bool; left_ctrl : bool; right_ctrl : bool; caps_lock : bool; key_cnt : Z }.
Record keyboard := { keys : kbd; mach : machine }.
Definition on_mach {A} (f : M machine A) : M keyboard A := λ s, '(a, m) ← f (mach s); Done (a, {| keys := keys s; mach := m |}).
Definition set_keys (k : kbd) (s : keyboard) : keyboard := {| keys := k; mach := mach s |}.

(** ** Maps of scan codes *)

Definition invariant_keymap : list (Z * list Z) :=
  [(1, [27]); (14, [8]); (15, 9 :: chars "QWERTYUIOP"); (28, [13]); (30, chars "ASDFGHJKL"); (44, chars "ZXCVBNM"); (55, chars "*"); (57, chars " "); (83, [127])].
Definition unshifted_keymap : list (Z * list Z) :=
  [(2, chars "1234567890-="); (26, chars "[]"); (39, chars ";'`"); (43, [92]); (51, chars ",./")].
Definition shifted_keymap : list (Z * list Z) :=
  [(2, chars "!@#$%^&*()_+"); (26, chars "{}"); (39, [58; 34; 126]); (43, chars "|"); (51, chars "<>?")].
Fixpoint map_key (k : list (Z * list Z)) (scancode : Z) : option Z :=
  match k with
  | [] => None
  | (first, cs) :: k => if (first <=? scancode) && (scancode <? first + zlen cs) then cs@[scancode - first] else map_key k scancode
  end.
Definition tolower (c : Z) : Z := if (65 <=? c) && (c <=? 90) then c - 65 + 97 else c.

(** ** Interpreting a key *)

Definition shift (k : kbd) : bool := left_shift k || right_shift k.
Definition alt (k : kbd) : bool := left_alt k || right_alt k.
Definition ctrl (k : kbd) : bool := left_ctrl k || right_ctrl k.
Definition set_caps_lock (b : bool) (k : kbd) : kbd :=
  {| left_shift := left_shift k; right_shift := right_shift k; left_alt := left_alt k; right_alt := right_alt k; left_ctrl := left_ctrl k; right_ctrl := right_ctrl k; caps_lock := b; key_cnt := key_cnt k |}.
Definition count_key (k : kbd) : kbd :=
  {| left_shift := left_shift k; right_shift := right_shift k; left_alt := left_alt k; right_alt := right_alt k; left_ctrl := left_ctrl k; right_ctrl := right_ctrl k; caps_lock := caps_lock k; key_cnt := key_cnt k + 1 |}.
(** [map_key (invariant_keymap, ...) || (!shift && ...) || (shift && ...)]. *)
Definition character (k : kbd) (code : Z) : option Z :=
  match map_key invariant_keymap code with
  | Some c => Some c
  | None => if shift k then map_key shifted_keymap code else map_key unshifted_keymap code
  end.
(** The table [shift_keys]. *)
Definition set_shift_key (code : Z) (pressed : bool) (k : kbd) : kbd :=
  {| left_shift := if code =? 42 then pressed else left_shift k; right_shift := if code =? 54 then pressed else right_shift k;
     left_alt := if code =? 56 then pressed else left_alt k; right_alt := if code =? 57400 then pressed else right_alt k;
     left_ctrl := if code =? 29 then pressed else left_ctrl k; right_ctrl := if code =? 57373 then pressed else right_ctrl k;
     caps_lock := caps_lock k; key_cnt := key_cnt k |}.
(** Ctrl, Shift, Caps Lock and Alt. *)
Definition modify_char (k : kbd) (c : Z) : Z :=
  let c := if ctrl k && (64 <=? c) && (c <? 96) then c - 64 else if Bool.eqb (shift k) (caps_lock k) then tolower c else c in
  if alt k then u8 (c + 128) else c.
Inductive effect : Type := Ignore | Reboot | Emit (c : Z).
Definition interpret (k : kbd) (code : Z) (release : bool) : kbd * effect :=
  if code =? 58 then (if release then k else set_caps_lock (negb (caps_lock k)) k, Ignore)
  else match character k code with
       | Some c => (k, if release then Ignore else if (c =? 127) && ctrl k && alt k then Reboot else Emit (modify_char k c))
       | None => (set_shift_key code (negb release) k, Ignore)
       end.

Section handler.
Context (device : list event → Z → Z).
Definition keyboard_interrupt : M keyboard unit :=
  code ← on_mach (inb device DATA_REG);
  code ← (if code =? 224 then c2 ← on_mach (inb device DATA_REG); mret (Z.lor (Z.shiftl code 8) c2) else mret code);
  let release := negb (Z.land code 128 =? 0) in
  let code := Z.land code (2 ^ 32 - 1 - 128) in
  s ← get;
  let '(k, e) := interpret (keys s) code release in
  modify (set_keys k);;
  match e with
  | Ignore => mret tt
  | Reboot => lift Panic
  | Emit c =>
      f ← on_mach input_full;
      if f : bool then mret tt
      else modify (λ s, set_keys (count_key (keys s)) s);; on_mach (input_putc c)
  end.
End handler.

(** ** What the keys mean *)

(** A letter: upper case if exactly one of Shift and Caps Lock is on, a control
    character with Ctrl, with the high bit set with Alt. *)
Theorem letter_case k code c : map_key invariant_keymap code = Some c → 65 ≤ c ≤ 90 →
  interpret k code false = (k, Emit ((if ctrl k then c - 64 else if xorb (shift k) (caps_lock k) then c else c + 32) + if alt k then 128 else 0)).
Proof.
  intros Hm Hc. assert (code =? 58 = false) as H58 by (destruct (Z.eqb_spec code 58) as [->|]; [done|done]). unfold interpret, character. rewrite H58, Hm. destruct (Z.eqb_spec c 127); [lia|]. cbn [andb]. do 2 f_equal. unfold modify_char, tolower, u8.
  destruct (Z.leb_spec 64 c), (Z.ltb_spec c 96), (Z.leb_spec 65 c), (Z.leb_spec c 90); try lia. destruct (ctrl k), (shift k), (caps_lock k), (alt k); cbn [andb Bool.eqb xorb]; rewrite ?Z.mod_small by lia; lia.
Qed.

(** The last of the events for a key. *)
Definition held (code : Z) (evs : list (Z * bool)) : bool := foldl (λ h e, if e.1 =? code then negb e.2 else h) false evs.
Definition presses (code : Z) (evs : list (Z * bool)) : bool := foldl (λ h e, if (e.1 =? code) && negb e.2 then negb h else h) false evs.
Definition run_keys (evs : list (Z * bool)) (k : kbd) : kbd := foldl (λ k e, (interpret k e.1 e.2).1) k evs.
Definition all_up : kbd := {| left_shift := false; right_shift := false; left_alt := false; right_alt := false; left_ctrl := false; right_ctrl := false; caps_lock := false; key_cnt := 0 |}.
Definition shift_codes : list Z := [42; 54; 56; 57400; 29; 57373].
Lemma shift_codes_plain k code : code ∈ shift_codes → character k code = None.
Proof. intros H. unfold character. set_unfold in H. destruct_or! H; subst; destruct (shift k); reflexivity. Qed.
Lemma character_not_shift k code c : character k code = Some c → code ∉ shift_codes.
Proof. intros H Hin. by rewrite (shift_codes_plain k code Hin) in H. Qed.
(** After any sequence of keys pressed and released, each of the six shift keys is
    known to be down exactly if the last thing that happened to it was that it was
    pressed, and Caps Lock is on after an odd number of presses. *)
Theorem shift_keys_tracked evs : let k := run_keys evs all_up in
  left_shift k = held 42 evs ∧ right_shift k = held 54 evs ∧ left_alt k = held 56 evs ∧ right_alt k = held 57400 evs ∧ left_ctrl k = held 29 evs ∧ right_ctrl k = held 57373 evs ∧ caps_lock k = presses 58 evs.
Proof.
  induction evs as [|[code release] evs IH] using rev_ind; [done|]. unfold run_keys, held, presses in *. cbn zeta in *. rewrite !foldl_snoc. set (k := foldl _ all_up evs) in *. cbn [fst snd]. destruct IH as (<- & <- & <- & <- & <- & <- & <-).
  unfold interpret. destruct (Z.eqb_spec code 58) as [->|H58]; [by destruct release|]. destruct (character k code) as [c|] eqn:Ec; [|cbn; split_and!; repeat case_match; done].
  apply character_not_shift in Ec. unfold shift_codes in Ec. rewrite !not_elem_of_cons in Ec. destruct Ec as (H1 & H2 & H3 & H4 & H5 & H6 & _). cbn [fst]. rewrite (proj2 (Z.eqb_neq code 42)), (proj2 (Z.eqb_neq code 54)), (proj2 (Z.eqb_neq code 56)), (proj2 (Z.eqb_neq code 57400)), (proj2 (Z.eqb_neq code 29)), (proj2 (Z.eqb_neq code 57373)) by done. done.
Qed.

(** ** The handler *)

Lemma runs_on_mach {A} (f : M machine A) s Q : runs f (mach s) (λ a m, Q a {| keys := keys s; mach := m |}) → runs (on_mach f) s Q.
Proof. unfold runs, on_mach. by destruct (f (mach s)) as [[a m]| | |]. Qed.
(** The scan code the device gives, with its prefix. *)
Definition scan_code (device : list event → Z → Z) (ev : list event) : Z :=
  let c := u8 (device ev DATA_REG) in
  if c =? 224 then Z.lor (Z.shiftl c 8) (u8 (device (ev ++ [In DATA_REG c]) DATA_REG)) else c.
Definition key_of (device : list event → Z → Z) (s : keyboard) : kbd * effect :=
  let code := scan_code device (io (mach s)) in interpret (keys s) (Z.land code (2 ^ 32 - 1 - 128)) (negb (Z.land code 128 =? 0)).
(** The keyboard interrupt handler returns unless the keys ask for a reboot.  It
    updates the shift keys; a character goes to the end of the input buffer and is counted if
    there is room, and is dropped otherwise, and nothing else is put there. *)
Theorem keyboard_interrupt_correct device s : serial_ok (mach s) → (key_of device s).2 ≠ Reboot →
  runs (keyboard_interrupt device) s (λ _ s', serial_ok (mach s') ∧ to_send (mach s') = to_send (mach s) ∧
    let room := negb (bool_decide (zlen (to_read (mach s)) = 63)) in
    match (key_of device s).2 with
    | Emit c => if room then to_read (mach s') = to_read (mach s) ++ [c] ∧ keys s' = count_key (key_of device s).1
                else to_read (mach s') = to_read (mach s) ∧ keys s' = (key_of device s).1
    | _ => to_read (mach s') = to_read (mach s) ∧ keys s' = (key_of device s).1
    end).
Proof.
  intros Hok Hr. unfold keyboard_interrupt. run. apply runs_on_mach. unfold inb at 1. run.
  assert (∃ m1, serial_ok m1 ∧ to_send m1 = to_send (mach s) ∧ to_read m1 = to_read (mach s) ∧
    ∀ Q : Z → keyboard → Prop, Q (scan_code device (io (mach s))) {| keys := keys s; mach := m1 |} →
      runs (if u8 (device (io (mach s)) DATA_REG) =? 224 then c2 ← on_mach (inb device DATA_REG); mret (Z.lor (Z.shiftl (u8 (device (io (mach s)) DATA_REG)) 8) c2) else mret (u8 (device (io (mach s)) DATA_REG)))
        {| keys := keys s; mach := log (In DATA_REG (u8 (device (io (mach s)) DATA_REG))) (mach s) |} Q) as (m1 & Hok1 & Hs1 & Hr1 & H1).
  { unfold scan_code. destruct (u8 (device (io (mach s)) DATA_REG) =? 224); eexists; (split_and!; [| | |intros Q HQ; run; [apply runs_on_mach; unfold inb; run; exact HQ|]]) || (split_and!; [| | |intros Q HQ; run; exact HQ]); done. }
  apply H1. clear H1. unfold key_of in *. set (code := scan_code device (io (mach s))) in *. run. cbn [keys]. destruct (interpret (keys s) _ _) as [k e]. run. cbn [snd fst] in *. destruct e as [| |c]; [run; cbn; by rewrite Hs1, Hr1|done|].
  run. apply runs_on_mach. unfold input_full. run. cbn [set_keys mach]. destruct Hok1 as [Ht Hb]. rewrite full_contents by apply Hb. change (contents (queue (buffer m1))) with (to_read m1). rewrite Hr1.
  destruct (decide (zlen (to_read (mach s)) = 63)) as [E|E]; [rewrite bool_decide_true by done; run; cbn; split_and!; [by split|done|done|done]|rewrite bool_decide_false by done]. run. apply runs_on_mach.
  pose proof (read_room (mach s) Hok). cbn [keys mach set_keys]. eapply runs_mono; [apply input_putc_spec; [by split|rewrite Hr1; lia]|]. intros [] m2 (H2 & H3 & H4 & H5 & _). cbn. rewrite H4, H5, Hs1, Hr1. split_and!; [done|done|done|done].
Qed.
(** The key A with nothing else held. *)
Lemma keyboard_interrupt_correct_witness : ∃ s', keyboard_interrupt (λ _ _, 30) {| keys := all_up; mach := demo_machine |} = Done (tt, s') ∧ to_read (mach s') = chars "a".
Proof.
  destruct (runs_done _ _ _ (keyboard_interrupt_correct (λ _ _, 30) {| keys := all_up; mach := demo_machine |} demo_serial_ok ltac:(discriminate))) as ([] & s' & E & _ & _ & H). exists s'. split; [exact E|]. exact (proj1 H).
Defined.
