(* ===== verification/Vga.v ===== *)
(** * The text screen (src/pintos/src/devices/vga.c)

    The frame buffer is 25 rows of 80 cells, a character and an attribute each;
    the position of the hardware cursor is in registers 14 and 15 of the
    controller.  [speaker_beep], for the character 7, does not touch the screen and is left
    out. *)

From S2P Require Import Prelude Bitmap.

Definition COL_CNT : Z := 80.
Definition ROW_CNT : Z := 25.
Definition GRAY_ON_BLACK : Z := 7.
Record vga := { cx : Z; cy : Z; fb : list (list (Z * Z)); inited : bool; reg14 : Z; reg15 : Z }.
Definition set_cursor (x y : Z) (v : vga) : vga := {| cx := x; cy := y; fb := fb v; inited := inited v; reg14 := reg14 v; reg15 := reg15 v |}.
Definition set_fb (f : list (list (Z * Z))) (v : vga) : vga := {| cx := cx v; cy := cy v; fb := f; inited := inited v; reg14 := reg14 v; reg15 := reg15 v |}.

(** [outw (0x3d4, w)] writes the high byte of [w] to the register named by the low
    byte. *)
Definition outw_crtc (w : Z) : M vga unit :=
  modify (λ v, let r := Z.land w 255 in let d := Z.shiftr w 8 in
    {| cx := cx v; cy := cy v; fb := fb v; inited := inited v; reg14 := if r =? 14 then d else reg14 v; reg15 := if r =? 15 then d else reg15 v |}).
Definition move_cursor : M vga unit :=
  v ← get; let cp := u16 (cx v + COL_CNT * cy v) in
  outw_crtc (Z.lor 14 (Z.land cp 65280));; outw_crtc (u16 (Z.lor 15 (Z.shiftl cp 8))).
Definition find_cursor : M vga (Z * Z) :=
  v ← get; let cp := Z.lor (Z.shiftl (reg14 v) 8) (reg15 v) in mret (cp `mod` COL_CNT, cp `div` COL_CNT).
Definition vga_init : M vga unit :=
  v ← get;
  if inited v then mret tt else
  '(x, y) ← find_cursor;
  modify (λ v, {| cx := x; cy := y; fb := fb v; inited := true; reg14 := reg14 v; reg15 := reg15 v |}).

(** [fb[y][x][0] = c; fb[y][x][1] = GRAY_ON_BLACK]. *)
Definition put_cell (y x c : Z) : M vga unit :=
  v ← get; row ← lift (rd (fb v) y); row ← lift (wr row x (u8 c, GRAY_ON_BLACK)); f ← lift (wr (fb v) y row); put (set_fb f v).
Fixpoint clear_from (n : nat) (y x : Z) : M vga unit :=
  match n with O => mret tt | S n => put_cell y x 32;; clear_from n y (x + 1) end.
Definition clear_row (y : Z) : M vga unit := clear_from (Z.to_nat COL_CNT) y 0.
Fixpoint clear_rows (n : nat) (y : Z) : M vga unit :=
  match n with O => mret tt | S n => clear_row y;; clear_rows n (y + 1) end.
Definition cls : M vga unit := clear_rows (Z.to_nat ROW_CNT) 0;; modify (set_cursor 0 0);; move_cursor.
(** [memmove (&fb[0], &fb[1], sizeof fb[0] * (ROW_CNT - 1))]. *)
Definition scroll (f : list (list (Z * Z))) : list (list (Z * Z)) := take (Z.to_nat (ROW_CNT - 1)) (drop 1 f) ++ drop (Z.to_nat (ROW_CNT - 1)) f.
Definition newline : M vga unit :=
  modify (λ v, set_cursor 0 (cy v + 1) v);;
  v ← get;
  if ROW_CNT <=? cy v then
    put (set_fb (scroll (fb v)) (set_cursor (cx v) (ROW_CNT - 1) v));; clear_row (ROW_CNT - 1)
  else mret tt.
Definition vga_putc (c : Z) : M vga unit :=
  vga_init;;
  v ← get;
  (if c =? 10 then newline
   else if c =? 12 then cls
   else if c =? 8 then (if 0 <? cx v then put (set_cursor (cx v - 1) (cy v) v) else mret tt)
   else if c =? 13 then put (set_cursor 0 (cy v) v)
   else if c =? 9 then
     put (set_cursor ((cx v + 1 + 7) `div` 8 * 8) (cy v) v);; v ← get; (if COL_CNT <=? cx v then newline else mret tt)
   else if c =? 7 then mret tt
   else
     put_cell (cy v) (cx v) c;; modify (λ v, set_cursor (cx v + 1) (cy v) v);; v ← get; (if COL_CNT <=? cx v then newline else mret tt));;
  move_cursor.
Fixpoint vga_puts (s : list Z) : M vga unit := match s with [] => mret tt | c :: s => vga_putc c;; vga_puts s end.

(** ** The screen stays a screen *)

Definition is_row (r : list (Z * Z)) : Prop := zlen r = COL_CNT.
Definition screen (f : list (list (Z * Z))) : Prop := zlen f = ROW_CNT ∧ Forall is_row f.
Definition cursor_ok (v : vga) : Prop := 0 ≤ cx v < COL_CNT ∧ 0 ≤ cy v < ROW_CNT.
(** The position in the registers. *)
Definition registers_ok (v : vga) : Prop := Z.lor (Z.shiftl (reg14 v) 8) (reg15 v) = cx v + COL_CNT * cy v.
Definition vga_ok (v : vga) : Prop := screen (fb v) ∧ inited v = true ∧ cursor_ok v.
Definition cell_at (f : list (list (Z * Z))) (y x : Z) : option (Z * Z) := r ← f@[y]; r@[x].
Definition blank : list (Z * Z) := replicate 80 (32, GRAY_ON_BLACK).

Lemma screen_row f y : screen f → 0 ≤ y < ROW_CNT → ∃ r, f@[y] = Some r ∧ zlen r = COL_CNT.
Proof.
  intros [Hl Hf] Hy. destruct (zlookup_lt f y) as [r Hr]; [by rewrite Hl|]. exists r. split; [done|]. apply zlookup_Some in Hr as [_ Hr]. by eapply Forall_lookup in Hf.
Qed.
Lemma screen_insert f y r : screen f → zlen r = COL_CNT → screen (f@[y := r]).
Proof. intros [Hl Hf] Hr. split; [by rewrite zlen_insert|]. unfold zinsert. destruct (y <? 0); [done|]. by apply Forall_insert. Qed.
Lemma put_cell_spec y x c v : screen (fb v) → 0 ≤ y < ROW_CNT → 0 ≤ x < COL_CNT →
  runs (put_cell y x c) v (λ _ v', ∃ r, (fb v)@[y] = Some r ∧ v' = set_fb ((fb v)@[y := r@[x := (u8 c, GRAY_ON_BLACK)]]) v ∧ screen (fb v')).
Proof.
  intros Hs Hy Hx. destruct (screen_row _ _ Hs Hy) as (r & Er & Hl). unfold put_cell. run. rewrite (rd_Some _ _ _ Er). run. rewrite wr_in by lia. run. rewrite wr_in by (destruct Hs; lia). run. exists r. split_and!; [done|done|]. apply screen_insert; [done|by rewrite zlen_insert].
Qed.
Lemma clear_from_spec n y : 0 ≤ y < ROW_CNT → ∀ x v r, screen (fb v) → (fb v)@[y] = Some r → 0 ≤ x → x + Z.of_nat n ≤ COL_CNT →
  runs (clear_from n y x) v (λ _ v', ∃ r', v' = set_fb ((fb v)@[y := r']) v ∧ zlen r' = COL_CNT ∧ ∀ j, 0 ≤ j → r'@[j] = if (x <=? j) && (j <? x + Z.of_nat n) then Some (32, GRAY_ON_BLACK) else r@[j]).
Proof.
  intros Hy. induction n as [|n IH]; intros x v r Hs Er Hx Hn; cbn [clear_from].
  { run. destruct (screen_row _ _ Hs Hy) as (r0 & Er0 & Hl). simplify_eq. exists r. split_and!; [|done|]; [rewrite zinsert_id by done; by destruct v|]. intros j Hj. destruct (Z.leb_spec x j), (Z.ltb_spec j (x + Z.of_nat 0)); done || lia. }
  run. eapply runs_mono; [apply put_cell_spec; [done|done|lia]|]. intros [] v1 (r1 & E1 & -> & Hs1). simplify_eq. pose proof (screen_row _ _ Hs Hy) as (r0 & Er0 & Hl). simplify_eq.
  eapply runs_mono; [apply (IH (x + 1) _ (r@[x := (u8 32, GRAY_ON_BLACK)]) Hs1); [cbn; apply zlookup_insert_eq; destruct Hs; lia|lia|lia]|]. intros [] v2 (r2 & -> & H1 & H2). exists r2. split_and!; [cbn; unfold set_fb; cbn; by rewrite zinsert_insert|done|].
  intros j Hj. rewrite H2 by done. rewrite zlookup_insert. destruct (Z.leb_spec (x + 1) j), (Z.ltb_spec j (x + 1 + Z.of_nat n)), (Z.leb_spec x j), (Z.ltb_spec j (x + Z.of_nat (S n))), (Z.eqb_spec x j), (Z.leb_spec 0 x), (Z.ltb_spec x (zlen r)); cbn [andb]; done || lia.
Qed.
Lemma clear_row_spec y v : screen (fb v) → 0 ≤ y < ROW_CNT → runs (clear_row y) v (λ _ v', v' = set_fb ((fb v)@[y := blank]) v).
Proof.
  intros Hs Hy. destruct (screen_row _ _ Hs Hy) as (r & Er & Hl). unfold clear_row. eapply runs_mono; [apply (clear_from_spec _ y Hy 0 v r Hs Er); [lia|done]|]. intros [] v' (r' & -> & H1 & H2). do 2 f_equal.
  apply array_ext; [done|]. intros j Hj. rewrite H2 by lia. change (0 + Z.of_nat (Z.to_nat COL_CNT)) with 80. rewrite H1 in Hj. unfold COL_CNT in Hj. destruct (Z.leb_spec 0 j), (Z.ltb_spec j 80); try lia. cbn [andb]. symmetry. unfold blank. apply zlookup_Some. split; [done|]. apply lookup_replicate_2. lia.
Qed.
Lemma clear_rows_spec n : ∀ y v, screen (fb v) → 0 ≤ y → y + Z.of_nat n ≤ ROW_CNT →
  runs (clear_rows n y) v (λ _ v', ∃ f, v' = set_fb f v ∧ screen f ∧ ∀ j, 0 ≤ j → f@[j] = if (y <=? j) && (j <? y + Z.of_nat n) then Some blank else (fb v)@[j]).
Proof.
  induction n as [|n IH]; intros y v Hs Hy Hn; cbn [clear_rows].
  { run. exists (fb v). split_and!; [by destruct v|done|]. intros j Hj. destruct (Z.leb_spec y j), (Z.ltb_spec j (y + Z.of_nat 0)); done || lia. }
  run. eapply runs_mono; [apply clear_row_spec; [done|lia]|]. intros [] v1 ->. eapply runs_mono; [apply IH; [by apply screen_insert|lia|lia]|]. intros [] v2 (f & -> & H1 & H2). exists f. split_and!; [done|done|].
  intros j Hj. rewrite H2 by done. cbn [set_fb fb]. rewrite zlookup_insert. destruct Hs as [Hl _]. rewrite Hl. unfold ROW_CNT in *. destruct (Z.leb_spec (y + 1) j), (Z.ltb_spec j (y + 1 + Z.of_nat n)), (Z.leb_spec y j), (Z.ltb_spec j (y + Z.of_nat (S n))), (Z.eqb_spec y j), (Z.leb_spec 0 y), (Z.ltb_spec y 25); cbn [andb]; done || lia.
Qed.

(** [move_cursor] stores the position, which [find_cursor] finds again. *)
Definition words_ok (cp : Z) : bool :=
  let w1 := Z.lor 14 (Z.land (u16 cp) 65280) in let w2 := u16 (Z.lor 15 (Z.shiftl (u16 cp) 8)) in
  (Z.land w1 255 =? 14) && (Z.land w2 255 =? 15) && (Z.lor (Z.shiftl (Z.shiftr w1 8) 8) (Z.shiftr w2 8) =? cp).
Lemma words_all : forallb words_ok (seqZ 0 2000) = true.
Proof. vm_compute. reflexivity. Qed.
Lemma words_range cp : 0 ≤ cp < 2000 → words_ok cp = true.
Proof. intros H. pose proof words_all as Ha. rewrite forallb_forall in Ha. apply Ha, list_elem_of_In, elem_of_seqZ. lia. Qed.
Lemma move_cursor_spec v : cursor_ok v → runs move_cursor v (λ _ v', registers_ok v' ∧ fb v' = fb v ∧ cx v' = cx v ∧ cy v' = cy v ∧ inited v' = inited v).
Proof.
  intros [Hx Hy]. unfold move_cursor, outw_crtc. run. pose proof (words_range (cx v + COL_CNT * cy v)) as Hw. unfold COL_CNT, ROW_CNT in *. specialize (Hw ltac:(lia)). unfold words_ok in Hw. apply andb_true_iff in Hw as [[H1 H2]%andb_true_iff H3]. apply Z.eqb_eq in H1, H2, H3.
  unfold registers_ok. cbn. rewrite H1, H2. cbn. by rewrite H3.
Qed.
Lemma find_cursor_spec v : cursor_ok v → registers_ok v → runs find_cursor v (λ p v', p = (cx v, cy v) ∧ v' = v).
Proof.
  intros [Hx Hy] Hr. unfold find_cursor. run. rewrite Hr. unfold COL_CNT, ROW_CNT in *. split; [|done]. f_equal; div_lia.
Qed.
Lemma screen_scroll f : screen f → screen (scroll f).
Proof.
  intros [Hl Hf]. split; [|unfold scroll; apply Forall_app; split; [by apply Forall_take, Forall_drop|by apply Forall_drop]]. unfold zlen, scroll, ROW_CNT in *. rewrite length_app, length_take, !length_drop. lia.
Qed.
(** A new line: the cursor at the start of the next row, or of the last one after
    scrolling. *)
Definition next_line (v : vga) : vga :=
  if cy v <? 24 then set_cursor 0 (cy v + 1) v else set_fb ((scroll (fb v))@[24 := blank]) (set_cursor 0 24 v).
Lemma newline_spec v : screen (fb v) → 0 ≤ cy v < ROW_CNT → runs newline v (λ _ v', v' = next_line v ∧ screen (fb v')).
Proof.
  intros Hs Hy. unfold newline, next_line. run. cbn [cy set_cursor]. unfold ROW_CNT in *. destruct (Z.leb_spec 25 (cy v + 1)), (Z.ltb_spec (cy v) 24); try lia; run; [|done].
  eapply runs_mono; [apply clear_row_spec; [by apply screen_scroll|by unfold ROW_CNT; lia]|]. intros [] v' ->. split; [done|]. cbn. apply screen_insert; [by apply screen_scroll|done].
Qed.
(** Row [i] of the scrolled screen was row [i + 1]. *)
Lemma scroll_lookup f i : screen f → 0 ≤ i < 24 → (scroll f)@[i] = f@[i + 1].
Proof.
  intros [Hl _] Hi. unfold scroll, ROW_CNT in *. change 1%nat with (Z.to_nat 1). rewrite zlookup_app, zlen_take by lia. rewrite zlen_drop by lia. rewrite Hl. destruct (Z.ltb_spec i ((25 - 1) `min` (25 - 1))); [|lia]. rewrite zlookup_take. destruct (Z.ltb_spec i (25 - 1)); [|lia].
  rewrite zlookup_drop by lia. f_equal. lia.
Qed.

(** ** What a character does *)

(** The screen and the cursor after a character, without the registers. *)
Definition wrap (v : vga) : vga := if COL_CNT <=? cx v then next_line v else v.
Definition after (c : Z) (v : vga) : vga :=
  if c =? 10 then next_line v
  else if c =? 12 then set_fb (replicate 25 blank) (set_cursor 0 0 v)
  else if c =? 8 then set_cursor (Z.max 0 (cx v - 1)) (cy v) v
  else if c =? 13 then set_cursor 0 (cy v) v
  else if c =? 9 then wrap (set_cursor ((cx v `div` 8 + 1) * 8) (cy v) v)
  else if c =? 7 then v
  else wrap (set_cursor (cx v + 1) (cy v) (set_fb ((fb v)@[cy v := (default [] (fb v)@[cy v])@[cx v := (u8 c, GRAY_ON_BLACK)]]) v)).
Definition same_view (v v' : vga) : Prop := fb v' = fb v ∧ cx v' = cx v ∧ cy v' = cy v ∧ inited v' = inited v.
Lemma wrap_runs v : screen (fb v) → 0 ≤ cx v → 0 ≤ cy v < ROW_CNT → runs (if COL_CNT <=? cx v then newline else mret tt) v (λ _ v', v' = wrap v ∧ screen (fb v') ∧ cursor_ok v').
Proof.
  intros Hs Hx Hy. unfold wrap. destruct (Z.leb_spec COL_CNT (cx v)); run; [|split_and!; [done|done|by split; [lia|]]].
  eapply runs_mono; [by apply newline_spec|]. intros [] v' [-> H1]. split_and!; [done|done|]. unfold next_line, cursor_ok, COL_CNT, ROW_CNT in *. destruct (Z.ltb_spec (cy v) 24); cbn; lia.
Qed.
Lemma newline_cursor v : screen (fb v) → 0 ≤ cy v < ROW_CNT → runs newline v (λ _ v', v' = next_line v ∧ screen (fb v') ∧ cursor_ok v').
Proof.
  intros Hs Hy. eapply runs_mono; [by apply newline_spec|]. intros [] v' [-> H1]. split_and!; [done|done|]. unfold next_line, cursor_ok, COL_CNT, ROW_CNT in *. destruct (Z.ltb_spec (cy v) 24); cbn; lia.
Qed.
Lemma cls_spec v : screen (fb v) → runs cls v (λ _ v', same_view (set_fb (replicate 25 blank) (set_cursor 0 0 v)) v' ∧ screen (fb v') ∧ cursor_ok v').
Proof.
  intros Hs. unfold cls. run. eapply runs_mono; [apply clear_rows_spec; [done|lia|done]|]. intros [] v1 (f & -> & H1 & H2). run. eapply runs_mono; [apply move_cursor_spec; split; cbn; unfold COL_CNT, ROW_CNT; lia|].
  intros [] v' (_ & H3 & H4 & H5 & H6). cbn in *. assert (f = replicate 25 blank) as ->.
  { apply array_ext; [by destruct H1 as [-> _]|]. intros j Hj. destruct H1 as [Hl _]. rewrite Hl in Hj. unfold ROW_CNT in Hj. rewrite H2 by lia. change (0 + Z.of_nat (Z.to_nat ROW_CNT)) with 25. destruct (Z.leb_spec 0 j), (Z.ltb_spec j 25); try lia. cbn [andb]. symmetry. apply zlookup_Some. split; [done|]. apply lookup_replicate_2. lia. }
  split_and!; [by split_and!|by rewrite H3|]. unfold cursor_ok, COL_CNT, ROW_CNT. rewrite H4, H5. lia.
Qed.
(** [vga_putc] never writes outside the frame buffer, whatever the character.  A
    control character moves the cursor, clears or scrolls the screen as [after]
    says, any other one is stored at the cursor; the cursor stays on the screen
    and the hardware cursor follows it. *)
Theorem vga_putc_correct c v : vga_ok v → runs (vga_putc c) v (λ _ v', vga_ok v' ∧ registers_ok v' ∧ same_view (after c v) v').
Proof.
  intros (Hs & Hi & Hx & Hy). unfold vga_putc, vga_init. run. rewrite Hi. run.
  cut (runs (if c =? 10 then newline
   else if c =? 12 then cls
   else if c =? 8 then (if 0 <? cx v then put (set_cursor (cx v - 1) (cy v) v) else mret tt)
   else if c =? 13 then put (set_cursor 0 (cy v) v)
   else if c =? 9 then
     put (set_cursor ((cx v + 1 + 7) `div` 8 * 8) (cy v) v);; v ← get; (if COL_CNT <=? cx v then newline else mret tt)
   else if c =? 7 then mret tt
   else
     put_cell (cy v) (cx v) c;; modify (λ v, set_cursor (cx v + 1) (cy v) v);; v ← get; (if COL_CNT <=? cx v then newline else mret tt)) v (λ _ v', same_view (after c v) v' ∧ screen (fb v') ∧ cursor_ok v')).
  { intros H. eapply runs_mono; [exact H|]. intros [] v1 (H1 & H2 & H3). eapply runs_mono; [by apply move_cursor_spec|]. intros [] v2 (H4 & H5 & H6 & H7 & H8). destruct H1 as (H1 & H9 & H10 & H11).
    split_and!; [split_and!|done|split_and!]; rewrite ?H5, ?H6, ?H7, ?H8 in *; try done; [|unfold cursor_ok in *; by rewrite H6, H7]. rewrite H11. unfold after, wrap, next_line. repeat case_match; done. }
  unfold after. repeat (match goal with |- context [c =? ?k] => destruct (Z.eqb_spec c k) end).
  - eapply runs_mono; [by apply newline_cursor|]. by intros [] v' (-> & H1 & H2).
  - by apply cls_spec.
  - destruct (Z.ltb_spec 0 (cx v)); run; unfold cursor_ok, same_view; cbn; split_and!; try done; unfold COL_CNT in *; lia.
  - run. unfold cursor_ok, same_view; cbn; split_and!; try done; unfold COL_CNT in *; lia.
  - run. replace ((cx v + 1 + 7) `div` 8 * 8) with ((cx v `div` 8 + 1) * 8) by div_lia. set (v1 := set_cursor _ _ v). eapply runs_mono; [apply (wrap_runs v1); [done|cbn; unfold COL_CNT in *; div_lia|done]|]. by intros [] v' (-> & H1 & H2).
  - run. by split_and!.
  - run. eapply runs_mono; [by apply put_cell_spec|]. intros [] v1 (r & Er & -> & Hs1). run. rewrite Er. cbn [default]. set (v1 := set_cursor _ _ _). eapply runs_mono; [apply (wrap_runs v1); [done|cbn; lia|done]|]. by intros [] v' (-> & H1 & H2).
Qed.
Definition is_control (c : Z) : bool := existsb (Z.eqb c) [7; 8; 9; 10; 12; 13].
Lemma printable_after c v : is_control c = false → cx v + 1 < COL_CNT →
  after c v = set_cursor (cx v + 1) (cy v) (set_fb ((fb v)@[cy v := (default [] (fb v)@[cy v])@[cx v := (u8 c, GRAY_ON_BLACK)]]) v).
Proof.
  unfold is_control, after, wrap. cbn [existsb]. intros H Hx. repeat (match goal with |- context [c =? ?k] => destruct (Z.eqb_spec c k); [subst; done|] end). cbn [cx set_cursor]. by destruct (Z.leb_spec COL_CNT (cx v + 1)); [lia|].
Qed.
Lemma cell_insert f y x r p y' x' : screen f → f@[y] = Some r → 0 ≤ y → 0 ≤ x < COL_CNT → 0 ≤ y' → cell_at (f@[y := r@[x := p]]) y' x' = if (y' =? y) && (x' =? x) then Some p else cell_at f y' x'.
Proof.
  intros [Hl Hf] Er Hy Hx Hy'. pose proof (zlookup_bound _ _ _ Er). assert (zlen r = COL_CNT) as Hr by (apply zlookup_Some in Er as [_ Er]; by eapply Forall_lookup in Hf).
  unfold cell_at. rewrite zlookup_insert. destruct (Z.eqb_spec y y') as [<-|]; [rewrite Z.eqb_refl|by destruct (Z.eqb_spec y' y)]. destruct (Z.leb_spec 0 y), (Z.ltb_spec y (zlen f)); try lia. cbn [andb mbind option_bind]. rewrite Er. cbn [mbind option_bind]. rewrite zlookup_insert.
  destruct (Z.eqb_spec x x'), (Z.eqb_spec x' x), (Z.leb_spec 0 x), (Z.ltb_spec x (zlen r)); done || lia.
Qed.
(** A text without control characters that fits in the row appears there, and
    nothing else changes. *)
Theorem vga_puts_row s : ∀ v, vga_ok v → Forall (λ c, is_control c = false) s → cx v + zlen s < COL_CNT →
  runs (vga_puts s) v (λ _ v', vga_ok v' ∧ cy v' = cy v ∧ cx v' = cx v + zlen s ∧
    ∀ y x, 0 ≤ y → cell_at (fb v') y x = if (y =? cy v) && (cx v <=? x) && (x <? cx v + zlen s) then (λ c, (u8 c, GRAY_ON_BLACK)) <$> s@[x - cx v] else cell_at (fb v) y x).
Proof.
  induction s as [|c s IH]; intros v Hok Hc Hx; cbn [vga_puts].
  { run. rewrite zlen_nil. split_and!; [done|done|lia|]. intros y x Hy. destruct (Z.eqb_spec y (cy v)), (Z.leb_spec (cx v) x), (Z.ltb_spec x (cx v + 0)); done || lia. }
  rewrite zlen_cons in *. pose proof (zlen_nonneg s). apply Forall_cons_1 in Hc as [Hc Hs]. run. eapply runs_mono; [by apply vga_putc_correct|]. intros [] v1 (Hok1 & _ & Hv1). rewrite printable_after in Hv1 by (done || lia). destruct Hv1 as (H1 & H2 & H3 & _). cbn in H1, H2, H3.
  eapply runs_mono; [apply IH; [done|done|rewrite H2; lia]|]. intros [] v2 (Hok2 & H4 & H5 & H6). split_and!; [done|congruence|rewrite H5, H2; lia|]. intros y x Hy. rewrite H6 by done. rewrite H2, H3, H1.
  destruct Hok as (Hsc & _ & Hcx & Hcy). destruct (screen_row _ _ Hsc Hcy) as (r & Er & Hr). rewrite Er. cbn [default]. rewrite (cell_insert (fb v) (cy v) (cx v) r) by (done || lia).
  destruct (Z.eqb_spec y (cy v)); cbn [andb]; [|done]. change (c :: s) with ([c] ++ s). rewrite zlookup_app. change (zlen [c]) with 1.
  destruct (Z.leb_spec (cx v + 1) x), (Z.ltb_spec x (cx v + 1 + zlen s)), (Z.eqb_spec x (cx v)), (Z.leb_spec (cx v) x), (Z.ltb_spec x (cx v + (1 + zlen s))), (Z.ltb_spec (x - cx v) 1); try lia; cbn [andb]; try done.
  - by replace (x - cx v - 1) with (x - (cx v + 1)) by lia.
  - subst x. by rewrite Z.sub_diag.
Qed.
Definition demo_screen : vga := {| cx := 79; cy := 24; fb := replicate 25 blank; inited := true; reg14 := 0; reg15 := 0 |}.
Lemma demo_screen_ok : vga_ok demo_screen.
Proof. split_and!; [split; [done|by apply Forall_replicate]|done|]. split; cbn; unfold COL_CNT, ROW_CNT; lia. Qed.
(** A character in the last cell scrolls the screen. *)
Lemma vga_putc_correct_witness : ∃ v', vga_putc 65 demo_screen = Done (tt, v') ∧ vga_ok v' ∧ cell_at (fb v') 23 79 = Some (65, 7) ∧ cx v' = 0 ∧ cy v' = 24.
Proof.
  destruct (runs_done _ _ _ (vga_putc_correct 65 demo_screen demo_screen_ok)) as ([] & v' & E & H). exists v'. split; [exact E|]. split; [exact (proj1 H)|].
  destruct H as (_ & _ & Hf & Hx & Hy & _). rewrite Hf, Hx, Hy. split; [vm_compute; reflexivity|]. split; vm_compute; reflexivity.
Defined.
