(* ===== verification/Console.v ===== *)
(** * Locks that a thread may take again
    (src/pintos/src/lib/kernel/console.c, and [lock_filesys] and
    [unlock_filesys] of src/pintos/src/userprog/syscall.c)

    The console and the file system each add a count to a lock, so that the thread
    that holds it may take it again: the console counts in one variable, the file system in
    a semaphore of each process.  A lock is its holder, and [None] instead of a result
    says that the caller waits.  The serial port and the display (Serial.v, Vga.v) each
    get every character; here the two are one list of who wrote what. *)

From S2P Require Import Prelude.

Record console := Console { console_lock : option Z; use_console_lock : bool; console_lock_depth : Z; write_cnt : Z; output : list (Z * Z) }.
Definition set_holder (h : option Z) (s : console) : console := Console h (use_console_lock s) (console_lock_depth s) (write_cnt s) (output s).
Definition set_depth (d : Z) (s : console) : console := Console (console_lock s) (use_console_lock s) d (write_cnt s) (output s).
Definition console_init (s : console) : console := Console None true (console_lock_depth s) (write_cnt s) (output s).
Definition console_panic (s : console) : console := Console (console_lock s) false (console_lock_depth s) (write_cnt s) (output s).

(** ** The console

    [t] is the current thread, [intr] whether an external interrupt is being
    processed. *)
Definition lock_held_by (t : Z) (l : option Z) : bool := bool_decide (l = Some t).
Definition acquire_console (t : Z) (intr : bool) : M console (option unit) :=
  s ← get;
  if negb intr && use_console_lock s then
    if lock_held_by t (console_lock s) then put (set_depth (console_lock_depth s + 1) s);; mret (Some tt)
    else match console_lock s with None => put (set_holder (Some t) s);; mret (Some tt) | Some _ => mret None end
  else mret (Some tt).
Definition release_console (t : Z) (intr : bool) : M console unit :=
  s ← get;
  if negb intr && use_console_lock s then
    if 0 <? console_lock_depth s then put (set_depth (console_lock_depth s - 1) s)
    else assert (lock_held_by t (console_lock s));; put (set_holder None s)
  else mret tt.
Definition console_locked_by_current_thread (t : Z) (intr : bool) (s : console) : bool := intr || negb (use_console_lock s) || lock_held_by t (console_lock s).
Definition putchar_have_lock (t : Z) (intr : bool) (c : Z) : M console unit :=
  s ← get; assert (console_locked_by_current_thread t intr s);;
  put (Console (console_lock s) (use_console_lock s) (console_lock_depth s) (s64 (write_cnt s + 1)) (output s ++ [(t, u8 c)])).
Fixpoint put_all (t : Z) (intr : bool) (l : list Z) : M console unit := match l with [] => mret tt | c :: l => putchar_have_lock t intr c;; put_all t intr l end.
(** A call that finds the lock free or its own, or waits. *)
Definition with_console {A} (t : Z) (intr : bool) (body : M console A) : M console (option A) :=
  r ← acquire_console t intr;
  match r with Some _ => a ← body; release_console t intr;; mret (Some a) | None => mret None end.
Definition putbuf (t : Z) (intr : bool) (buffer : list Z) : M console (option unit) := with_console t intr (put_all t intr buffer).
Definition puts (t : Z) (intr : bool) (s : list Z) : M console (option Z) := with_console t intr (put_all t intr s;; putchar_have_lock t intr 10;; mret 0).
Definition putchar (t : Z) (intr : bool) (c : Z) : M console (option Z) := with_console t intr (putchar_have_lock t intr c;; mret c).
(** [vprintf] of a format whose text is [l]. *)
Definition vprintf (t : Z) (intr : bool) (l : list Z) : M console (option Z) := with_console t intr (put_all t intr l;; mret (zlen l)).

(** ** The file system's lock *)

Record fslock := Fslock { filesys_lock : option Z; sema_disk : Z → Z }.
Definition set_sema (t v : Z) (s : fslock) : fslock := Fslock (filesys_lock s) (λ t', if t' =? t then v else sema_disk s t').
Definition lock_filesys (t : Z) : M fslock (option unit) :=
  s ← get;
  if lock_held_by t (filesys_lock s) then put (set_sema t (sema_disk s t + 1) s);; mret (Some tt)
  else match filesys_lock s with None => put (Fslock (Some t) (sema_disk s));; mret (Some tt) | Some _ => mret None end.
Definition unlock_filesys (t : Z) : M fslock unit :=
  s ← get;
  if 0 <? sema_disk s t then put (set_sema t (sema_disk s t - 1) s)
  else assert (lock_held_by t (filesys_lock s));; put (Fslock None (sema_disk s)).

(** ** Histories

    Threads take and give back the console's lock, as often as they like as long as each gives back
    what it took, and write while they have it, in any interleaving.  [level] is how
    often each thread has the lock, [text] what it has written since it took it first;
    a text is a message once the lock is given back. *)
Inductive caction : Type := Take (t : Z) | Write (t c : Z) | Give (t : Z).
Record history := History { level : Z → Z; text : Z → list Z; messages : list (Z * list Z) }.
Definition upd {A} (t : Z) (x : A) (f : Z → A) : Z → A := λ t', if t' =? t then x else f t'.
Definition do_action (a : caction) : M console (option unit) :=
  match a with
  | Take t => acquire_console t false
  | Write t c => putchar_have_lock t false c;; mret (Some tt)
  | Give t => release_console t false;; mret (Some tt)
  end.
Definition allowed (h : history) (a : caction) : Prop := match a with Take _ => True | Write t _ | Give t => 0 < level h t end.
Definition record_action (a : caction) (h : history) : history :=
  match a with
  | Take t => History (upd t (level h t + 1) (level h)) (text h) (messages h)
  | Write t c => History (level h) (upd t (text h t ++ [u8 c]) (text h)) (messages h)
  | Give t =>
      if level h t =? 1 then History (upd t 0 (level h)) (upd t [] (text h)) (messages h ++ [(t, text h t)])
      else History (upd t (level h t - 1) (level h)) (text h) (messages h)
  end.
Inductive happened : history → console → Prop :=
  | happened_init s : console_lock_depth s = 0 → output s = [] → happened (History (λ _, 0) (λ _, []) []) (console_init s)
  | happened_step h s a s' : happened h s → allowed h a → do_action a s = Done (Some tt, s') → happened (record_action a h) s'.

(** Characters as the console shows them, with the thread that wrote each. *)
Definition by_thread (t : Z) (l : list Z) : list (Z * Z) := (λ c, (t, c)) <$> l.
Definition printed (l : list (Z * list Z)) : list (Z * Z) := concat ((λ m, by_thread m.1 m.2) <$> l).
(** The count says how often the holder has the lock, less once; nobody else has it, nor has
    anything half written. *)
Record lock_counts (h : history) (s : console) : Prop := {
  counts_used : use_console_lock s = true;
  counts_free : console_lock s = None → (∀ t, level h t = 0 ∧ text h t = []) ∧ console_lock_depth s = 0;
  counts_held : ∀ t, console_lock s = Some t → level h t = console_lock_depth s + 1 ∧ 0 ≤ console_lock_depth s ∧ ∀ t', t' ≠ t → level h t' = 0 ∧ text h t' = [];
  counts_output : output s = printed (messages h) ++ match console_lock s with Some t => by_thread t (text h t) | None => [] end }.
Lemma level_holder h s t : lock_counts h s → 0 < level h t → console_lock s = Some t.
Proof.
  intros [_ Hf Hh _] Hl. destruct (console_lock s) as [t'|]; [|destruct (Hf eq_refl) as [H0 _]; destruct (H0 t); lia].
  destruct (Hh t' eq_refl) as (_ & _ & H). destruct (decide (t = t')) as [->|Hne]; [done|]. destruct (H t Hne). lia.
Qed.
Lemma by_thread_snoc t l c : by_thread t (l ++ [c]) = by_thread t l ++ [(t, c)].
Proof. unfold by_thread. by rewrite fmap_app. Qed.
Lemma printed_snoc l m : printed (l ++ [m]) = printed l ++ by_thread m.1 m.2.
Proof. unfold printed. rewrite fmap_app, concat_app. cbn. by rewrite app_nil_r. Qed.
Lemma updated_eq {A} t (x : A) f : upd t x f t = x.
Proof. unfold upd. by rewrite Z.eqb_refl. Qed.
Lemma updated_ne {A} t (x : A) f t' : t' ≠ t → upd t x f t' = f t'.
Proof. unfold upd. intros. by destruct (Z.eqb_spec t' t). Qed.

Ltac fields := cbn [use_console_lock console_lock console_lock_depth output level text messages record_action set_depth set_holder console_init].
Lemma take_counts h s t : lock_counts h s → runs (acquire_console t false) s (λ r s',
  match r with Some _ => lock_counts (record_action (Take t) h) s' | None => s' = s ∧ ∃ t', console_lock s = Some t' ∧ t' ≠ t end).
Proof.
  intros Hs. pose proof Hs as [Hu Hf Hh Ho]. unfold acquire_console. run. rewrite Hu. cbn [negb andb]. unfold lock_held_by. destruct (bool_decide_reflect (console_lock s = Some t)) as [E|E].
  - run. destruct (Hh t E) as (H1 & H2 & H3). constructor; fields; [done|congruence| |by rewrite Ho, E].
    intros t' Et. assert (t' = t) as -> by congruence. rewrite updated_eq. split_and!; [lia|lia|]. intros t' Hne. rewrite updated_ne by done. by apply H3.
  - destruct (console_lock s) as [t'|] eqn:El; run; [split; [done|]; exists t'; split; congruence|]. destruct (Hf eq_refl) as [H0 Hd].
    constructor; fields; [done|done| |rewrite Ho; destruct (H0 t) as [_ ->]; done]. intros t' [= <-]. rewrite updated_eq. destruct (H0 t) as [-> _]. split_and!; [lia|lia|].
    intros t' Hne. rewrite updated_ne by done. apply H0.
Qed.
Lemma write_counts h s t c : lock_counts h s → 0 < level h t → runs (putchar_have_lock t false c) s (λ _ s', lock_counts (record_action (Write t c) h) s').
Proof.
  intros Hs Hl. pose proof (level_holder h s t Hs Hl) as Et. destruct Hs as [Hu Hf Hh Ho]. destruct (Hh t Et) as (H1 & H2 & H3). unfold putchar_have_lock. run.
  apply runs_assert; [unfold console_locked_by_current_thread, lock_held_by; rewrite Et, bool_decide_eq_true_2 by done; apply orb_true_r|]. run.
  constructor; fields; [done|congruence| |].
  - intros t' Et'. assert (t' = t) as -> by congruence. split_and!; [lia|lia|]. intros t' Hne. rewrite updated_ne by done. by apply H3.
  - rewrite Et in *. rewrite updated_eq, by_thread_snoc, Ho. by rewrite app_assoc.
Qed.
Lemma give_counts h s t : lock_counts h s → 0 < level h t → runs (release_console t false) s (λ _ s', lock_counts (record_action (Give t) h) s').
Proof.
  intros Hs Hl. pose proof (level_holder h s t Hs Hl) as Et. destruct Hs as [Hu Hf Hh Ho]. destruct (Hh t Et) as (H1 & H2 & H3). unfold release_console. run. rewrite Hu. cbn [negb andb].
  cbn [record_action]. rewrite Et in Ho. destruct (Z.ltb_spec 0 (console_lock_depth s)) as [Hd|Hd], (Z.eqb_spec (level h t) 1) as [E1|E1]; try lia.
  - run. constructor; fields; [done|congruence| |by rewrite Et].
    intros t' Et'. assert (t' = t) as -> by congruence. rewrite updated_eq. split_and!; [lia|lia|]. intros t' Hne. rewrite updated_ne by done. by apply H3.
  - run. apply runs_assert; [unfold lock_held_by; by rewrite bool_decide_eq_true_2|]. run. constructor; fields; [done| |done|by rewrite Ho, printed_snoc, app_nil_r].
    intros _. split; [|lia]. intros t'. destruct (decide (t' = t)) as [->|Hne]; [by rewrite !updated_eq|rewrite !updated_ne by done; by apply H3].
Qed.
Lemma happened_counts h s : happened h s → lock_counts h s.
Proof.
  induction 1 as [s Hd Ho|h s a s' Hh IH Ha E]; [constructor; fields; [done|done|done|by rewrite Ho]|].
  assert (runs (do_action a) s (λ r s', r = Some tt → lock_counts (record_action a h) s')) as Hr; [|unfold runs in Hr; rewrite E in Hr; by apply Hr].
  destruct a as [t|t c|t]; cbn [do_action].
  - eapply runs_mono; [by apply take_counts|]. by intros [[]|] s1 H1.
  - run. eapply runs_mono; [by apply write_counts|]. intros ? s1 H1. by run.
  - run. eapply runs_mono; [by apply give_counts|]. intros ? s1 H1. by run.
Qed.

(** C38 The console's lock under any interleaving of threads that take it, again while
    they hold it if they like, write, and give it back as often.  What is shown is the
    messages of the threads, each whole and in the order in which they were finished,
    followed by what the thread that has the lock has written so far: messages are never mixed.
    Only one thread has the lock, no step stops the kernel, and only a thread that
    finds the lock with another waits. *)
Theorem messages_are_whole h s : happened h s →
  output s = printed (messages h) ++ match console_lock s with Some t => by_thread t (text h t) | None => [] end ∧
  (∀ t t', 0 < level h t → 0 < level h t' → t = t') ∧
  ∀ a, allowed h a → runs (do_action a) s (λ r s', match r with Some _ => happened (record_action a h) s' | None => s' = s ∧ ∃ t t', a = Take t ∧ console_lock s = Some t' ∧ t' ≠ t end).
Proof.
  intros Hh. pose proof (happened_counts h s Hh) as Hs. split; [apply Hs|]. split.
  - intros t t' H1 H2. apply (level_holder h s) in H1, H2; [congruence|done..].
  - intros a Ha. assert (runs (do_action a) s (λ r s', r = None → s' = s ∧ ∃ t t', a = Take t ∧ console_lock s = Some t' ∧ t' ≠ t)) as Hr.
    { destruct a as [t|t c|t]; cbn [do_action].
      - eapply runs_mono; [by apply take_counts|]. intros [|] s1 H1 Hn; [done|]. destruct H1 as [-> (t' & H1 & H2)]. split; [done|]. by exists t, t'.
      - run. eapply runs_mono; [by apply (write_counts h)|]. intros ? s1 H1. by run.
      - run. eapply runs_mono; [by apply (give_counts h)|]. intros ? s1 H1. by run. }
    apply runs_done in Hr as (r & s' & E & Hr). apply (runs_intro _ _ r s'); [done|]. destruct r as [[]|]; [by econstructor|by apply Hr].
Qed.

(** The same for the file system: a thread that has the lock [n] times has counted [n - 1] in its
    own semaphore, and the [n]th [unlock_filesys] frees the lock. *)
Fixpoint times (n : nat) (m : M fslock unit) : M fslock unit := match n with O => mret tt | S n => m;; times n m end.
Lemma times_S n m : times (S n) m = (m;; times n m).
Proof. done. Qed.
Definition lock_once (t : Z) : M fslock unit := r ← lock_filesys t; match r with Some _ => mret tt | None => out_of_fuel end.
Lemma lock_again n t : ∀ s, filesys_lock s = Some t → runs (times n (lock_once t)) s (λ _ s', filesys_lock s' = Some t ∧ sema_disk s' t = sema_disk s t + Z.of_nat n ∧ ∀ t', t' ≠ t → sema_disk s' t' = sema_disk s t').
Proof.
  induction n as [|n IH]; intros s Hs; cbn [times]; [run; split_and!; done || lia|]. unfold lock_once, lock_filesys, lock_held_by. run. rewrite bool_decide_eq_true_2 by done. run.
  eapply runs_mono; [by apply IH|]. cbn [filesys_lock sema_disk set_sema]. intros _ s' (H1 & H2 & H3). rewrite Z.eqb_refl in H2. split_and!; [done|lia|].
  intros t' Hne. rewrite H3 by done. by destruct (Z.eqb_spec t' t).
Qed.
Lemma unlock_counted n t : ∀ s, filesys_lock s = Some t → sema_disk s t = Z.of_nat n → runs (times (S n) (unlock_filesys t)) s (λ _ s', filesys_lock s' = None ∧ sema_disk s' t = 0 ∧ ∀ t', t' ≠ t → sema_disk s' t' = sema_disk s t').
Proof.
  induction n as [|n IH]; intros s Hs Hn; rewrite times_S; apply runs_bind; unfold unlock_filesys at 1; run.
  - destruct (Z.ltb_spec 0 (sema_disk s t)); [lia|]. run. apply runs_assert; [unfold lock_held_by; by rewrite bool_decide_eq_true_2|]. run. done.
  - destruct (Z.ltb_spec 0 (sema_disk s t)); [|lia]. run. eapply runs_mono; [apply IH; [done|cbn; rewrite Z.eqb_refl; lia]|].
    cbn [filesys_lock sema_disk set_sema]. intros _ s' (H1 & H2 & H3). split_and!; [done..|]. intros t' Hne. rewrite H3 by done. by destruct (Z.eqb_spec t' t).
Qed.
Theorem filesys_lock_nests n t s : filesys_lock s = None → sema_disk s t = 0 →
  runs (times (S n) (lock_once t);; times (S n) (unlock_filesys t)) s (λ _ s', filesys_lock s' = None ∧ ∀ t', sema_disk s' t' = sema_disk s t').
Proof.
  intros Hf H0. cbn [times]. run. unfold lock_once at 1, lock_filesys, lock_held_by. run. rewrite Hf, bool_decide_eq_false_2 by done. run.
  eapply runs_mono; [by apply lock_again|]. cbn [sema_disk filesys_lock]. intros _ s1 (H1 & H2 & H3). eapply runs_mono; [apply (unlock_counted n t s1 H1); lia|].
  intros _ s2 (H4 & H5 & H6). split; [done|]. intros t'. destruct (decide (t' = t)) as [->|Hne]; [congruence|]. by rewrite H6, H3.
Qed.
Lemma messages_are_whole_witness : ∃ h s, happened h s ∧ level h 1 = 2 ∧ output s = [(1, 97)] ∧
  runs (do_action (Take 2)) s (λ r s', match r with Some _ => happened (record_action (Take 2) h) s' | None => s' = s ∧ ∃ t t', Take 2 = Take t ∧ console_lock s = Some t' ∧ t' ≠ t end).
Proof.
  assert (happened (record_action (Write 1 97) (record_action (Take 1) (record_action (Take 1) (History (λ _, 0) (λ _, []) [])))) (Console (Some 1) true 1 1 [(1, 97)])) as H.
  { eapply happened_step; [eapply happened_step; [eapply happened_step; [apply (happened_init (Console None false 0 0 [])); done|done|reflexivity]|done|reflexivity]|done|reflexivity]. }
  destruct (messages_are_whole _ _ H) as (_ & _ & Hs). specialize (Hs (Take 2) I). eexists _, _. split; [exact H|]. split; [done|]. split; [done|]. exact Hs.
Defined.
