(* ===== verification/Random.v ===== *)
(** * Random numbers (src/pintos/src/lib/random.c)

    The RC4 generator: its table, the two indices and whether it has been
    initialised.  The table stays a permutation of the 256 bytes, so that every
    index computed from it is in range. *)

From S2P Require Import Prelude KList.

Record prng := { s : list Z; s_i : Z; s_j : Z; inited : bool }.

Definition swap_byte (a b : Z) (t : list Z) : outcome (list Z) :=
  x ← rd t a; y ← rd t b; t ← wr t a y; wr t b x.

(** The bytes of [seed] in memory. *)
Definition seed_byte (seed k : Z) : Z := Z.land (Z.shiftr seed (8 * k)) 255.
(** [for (i = j = 0; i < 256; i++)], with [n] turns left. *)
Fixpoint mix (n : nat) (seed i j : Z) (t : list Z) : outcome (list Z) :=
  match n with
  | O => Done t
  | S n =>
      x ← rd t i;
      let j := u8 (j + (x + seed_byte seed (i `rem` 4))) in
      t ← swap_byte i j t;
      mix n seed (i + 1) j t
  end.
Definition random_init (seed : Z) : outcome prng :=
  t ← mix 256 seed 0 0 (seqZ 0 256);
  Done {| s := t; s_i := 0; s_j := 0; inited := true |}.

(** One turn of the loop of [random_bytes]. *)
Definition random_byte (g : prng) : outcome (Z * prng) :=
  let i := u8 (s_i g + 1) in
  x ← rd (s g) i;
  let j := u8 (s_j g + x) in
  t ← swap_byte i j (s g);
  a ← rd t i; b ← rd t j;
  byte ← rd t (u8 (a + b));
  Done (byte, {| s := t; s_i := i; s_j := j; inited := inited g |}).
Fixpoint random_loop (size : nat) (g : prng) : outcome (list Z * prng) :=
  match size with
  | O => Done ([], g)
  | S size => '(byte, g) ← random_byte g; '(buf, g) ← random_loop size g; Done (byte :: buf, g)
  end.
Definition random_bytes (size : Z) (g : prng) : outcome (list Z * prng) :=
  g ← (if inited g then Done g else random_init 0);
  random_loop (Z.to_nat size) g.
(** The four bytes as an [unsigned long]. *)
Definition random_ulong (g : prng) : outcome (Z * prng) :=
  '(buf, g) ← random_bytes 4 g; Done (le_value buf, g).

(** ** The table is a permutation *)

Definition table_ok (t : list Z) : Prop := t ≡ₚ seqZ 0 256.
Definition prng_ok (g : prng) : Prop := inited g = true → table_ok (s g) ∧ is_u8 (s_i g) ∧ is_u8 (s_j g).

Lemma u8_range x : 0 ≤ u8 x < 256.
Proof. unfold u8. change (2 ^ 8) with 256. apply Z.mod_pos_bound. lia. Qed.
Lemma table_len t : table_ok t → zlen t = 256.
Proof. intros H. unfold zlen, table_ok in *. by rewrite H. Qed.
Lemma table_rd t i : table_ok t → 0 ≤ i < 256 → ∃ x, t@[i] = Some x ∧ 0 ≤ x < 256.
Proof.
  intros Ht Hi. destruct (zlookup_lt t i) as [x Hx]; [by rewrite table_len|]. exists x. split; [done|]. apply zlookup_Some in Hx as [_ Hx%list_elem_of_lookup_2].
  unfold table_ok in Ht. rewrite Ht in Hx. apply elem_of_seqZ in Hx. lia.
Qed.
(** Exchanging two elements of an array permutes it. *)
Lemma swap_permutes (t : list Z) a b x y : t@[a] = Some x → t@[b] = Some y → (t@[a := y])@[b := x] ≡ₚ t.
Proof.
  intros [Ha Ea]%zlookup_Some [Hb Eb]%zlookup_Some. unfold zinsert. bool_cases. destruct (decide (a = b)) as [->|Hne].
  { simplify_eq. by rewrite list_insert_insert_eq, list_insert_id. }
  set (i := Z.to_nat a) in *. set (j := Z.to_nat b) in *. assert (i ≠ j) as Hij by lia. clearbody i j.
  apply Permutation_inj. split; [by rewrite !length_insert|]. exists (λ k, if decide (k = i) then j else if decide (k = j) then i else k). split.
  - intros k1 k2. repeat case_decide; naive_solver.
  - intros k. apply lookup_lt_Some in Ea as Hi'. apply lookup_lt_Some in Eb as Hj'. repeat case_decide; subst.
    + rewrite list_lookup_insert_ne, list_lookup_insert_eq; done.
    + rewrite list_lookup_insert_eq; [|by rewrite length_insert]. done.
    + by rewrite !list_lookup_insert_ne.
Qed.
Lemma swap_byte_ok t a b : table_ok t → 0 ≤ a < 256 → 0 ≤ b < 256 → rets (swap_byte a b t) table_ok.
Proof.
  intros Ht Ha Hb. destruct (table_rd t a Ht Ha) as (x & Ex & _), (table_rd t b Ht Hb) as (y & Ey & _). pose proof (table_len t Ht) as Hl.
  unfold swap_byte. rewrite (rd_Some _ _ _ Ex), (rd_Some _ _ _ Ey). cbn. rewrite wr_in by lia. cbn. rewrite wr_in by (rewrite zlen_insert; lia). cbn. unfold table_ok in *. rewrite <- Ht. by apply swap_permutes.
Qed.
Lemma mix_ok n seed : ∀ i j t, table_ok t → 0 ≤ i → i + Z.of_nat n ≤ 256 → rets (mix n seed i j t) table_ok.
Proof.
  induction n as [|n IH]; intros i j t Ht Hi Hn; [done|]. cbn [mix]. destruct (table_rd t i Ht) as (x & Ex & _); [lia|]. rewrite (rd_Some _ _ _ Ex). run. cbn.
  run. eapply rets_mono; [apply swap_byte_ok; [done|lia|apply u8_range]|]. intros t' Ht'. apply IH; [done|lia..].
Qed.
Lemma random_byte_ok g : inited g = true → prng_ok g → rets (random_byte g) (λ '(byte, g'), is_u8 byte ∧ prng_ok g' ∧ inited g' = true).
Proof.
  intros Hi Hg. destruct (Hg Hi) as (Ht & Hsi & Hsj). unfold random_byte. set (i := u8 (s_i g + 1)). assert (0 ≤ i < 256) as Hib by apply u8_range.
  destruct (table_rd _ i Ht Hib) as (x & Ex & _). rewrite (rd_Some _ _ _ Ex). run. cbn. set (j := u8 (s_j g + x)). assert (0 ≤ j < 256) as Hjb by apply u8_range.
  run. eapply rets_mono; [by apply swap_byte_ok|]. intros t' Ht'. destruct (table_rd t' i Ht' Hib) as (a & Ea & _), (table_rd t' j Ht' Hjb) as (b & Eb & _). rewrite (rd_Some _ _ _ Ea), (rd_Some _ _ _ Eb). cbn.
  destruct (table_rd t' (u8 (a + b)) Ht' (u8_range _)) as (c & Ec & Hc). rewrite (rd_Some _ _ _ Ec). cbn. split; [unfold is_u8; lia|]. split; [|done]. intros _. done.
Qed.
Lemma random_loop_ok n : ∀ g, inited g = true → prng_ok g → rets (random_loop n g) (λ '(buf, g'), length buf = n ∧ Forall is_u8 buf ∧ prng_ok g' ∧ inited g' = true).
Proof.
  induction n as [|n IH]; intros g Hi Hg; [cbn; split_and!; [done|constructor|done|done]|]. cbn [random_loop]. run. eapply rets_mono; [by apply random_byte_ok|]. intros [byte g'] (Hb & Hg' & Hi'). run.
  eapply rets_mono; [by apply IH|]. intros [buf g''] (H1 & H2 & H3 & H4). cbn. split_and!; [by rewrite H1|by constructor|done|done].
Qed.
Lemma random_init_ok seed : rets (random_init seed) (λ g, prng_ok g ∧ inited g = true).
Proof.
  unfold random_init. run. eapply rets_mono; [apply mix_ok; [by unfold table_ok|lia..]|]. intros t Ht. cbn. split; [|done]. intros _. split_and!; [done|unfold is_u8; cbn; lia..].
Qed.
(** The generator always returns, from any state its functions leave, and
    fills the buffer with bytes: no index leaves the table, which stays a
    permutation of the 256 bytes. *)
Theorem random_total g size : prng_ok g → 0 ≤ size →
  rets (random_bytes size g) (λ '(buf, g'), zlen buf = size ∧ Forall is_u8 buf ∧ prng_ok g' ∧ table_ok (s g')).
Proof.
  intros Hg Hs. unfold random_bytes. run. assert (rets (if inited g then Done g else random_init 0) (λ g, prng_ok g ∧ inited g = true)) as H by (destruct (inited g) eqn:E; [done|apply random_init_ok]).
  eapply rets_mono; [exact H|]. intros g' [Hg' Hi]. eapply rets_mono; [by apply random_loop_ok|]. intros [buf g''] (H1 & H2 & H3 & H4). split_and!; [unfold zlen; lia|done|done|]. by destruct (H3 H4).
Qed.
Theorem random_ulong_range g : prng_ok g → rets (random_ulong g) (λ '(v, g'), is_u32 v ∧ prng_ok g').
Proof.
  intros Hg. unfold random_ulong. run. eapply rets_mono; [by apply random_total|]. intros [buf g'] (H1 & H2 & H3 & _). cbn. split; [|done]. pose proof (le_value_range buf H2) as H. unfold zlen in H1. replace (length buf) with 4%nat in H by lia. exact H.
Qed.
(** The first bytes for the seed 0. *)
Example random_first : ∃ g, random_bytes 4 {| s := replicate 256 0; s_i := 0; s_j := 0; inited := false |} = Done ([222; 24; 137; 65], g).
Proof. eexists. vm_compute. reflexivity. Qed.
