(* ===== verification/Partition.v ===== *)
(** * Block devices and their partitions
    (src/pintos/src/devices/block.c, src/pintos/src/devices/partition.c)

    A [struct block *] is the position of the device in [all_blocks], from which
    none is ever removed.  The operations of a device are those of a disk, an
    array of sectors (Cache.v has the same view of the device of the file system),
    or those of a partition, which call the device it is a part of.  What is printed
    to the console is left out, except for the description of a partition, kept as
    [extra_info]. *)

From stdpp Require Import strings.
From S2P Require Import Prelude KList Cache Inode InodeSpec Directory Stdio StdioSpec.

Inductive driver : Type := Disk (k : Z) | Partition (block start : Z).
Record device := { name : list Z; dtype : block_type; size : Z; aux : driver; extra_info : list Z; reads : Z; writes : Z }.
Record devices := { all_blocks : list device; block_by_role : list (option Z); disks : list (Z → list Z) }.
Definition BLOCK_ROLE_CNT : Z := 4.
Definition role_number (t : block_type) : Z :=
  match t with BLOCK_KERNEL => 0 | BLOCK_FILESYS => 1 | BLOCK_SCRATCH => 2 | BLOCK_SWAP => 3 | BLOCK_RAW => 4 | BLOCK_FOREIGN => 5 end.
Definition block_type_name (t : block_type) : string :=
  match t with BLOCK_KERNEL => "kernel" | BLOCK_FILESYS => "filesys" | BLOCK_SCRATCH => "scratch" | BLOCK_SWAP => "swap" | BLOCK_RAW => "raw" | BLOCK_FOREIGN => "foreign" end.
Definition set_blocks (l : list device) (s : devices) : devices := {| all_blocks := l; block_by_role := block_by_role s; disks := disks s |}.
Definition set_disks (l : list (Z → list Z)) (s : devices) : devices := {| all_blocks := all_blocks s; block_by_role := block_by_role s; disks := l |}.

(** ** Finding devices *)

Definition block_get_role (role : block_type) : M devices (option Z) :=
  assert (role_number role <? BLOCK_ROLE_CNT);; s ← get; lift (rd (block_by_role s) (role_number role)).
Definition block_set_role (role : block_type) (b : option Z) : M devices unit :=
  assert (role_number role <? BLOCK_ROLE_CNT);; s ← get;
  l ← lift (wr (block_by_role s) (role_number role) b);
  put {| all_blocks := all_blocks s; block_by_role := l; disks := disks s |}.
Definition list_elem_to_block (s : devices) (b : Z) : option Z := if b <? zlen (all_blocks s) then Some b else None.
Definition block_first (s : devices) : option Z := list_elem_to_block s 0.
Definition block_next (s : devices) (b : Z) : option Z := list_elem_to_block s (b + 1).
Fixpoint find_name (n : list Z) (b : Z) (l : list device) : option Z :=
  match l with [] => None | d :: l => if bool_decide (n = name d) then Some b else find_name n (b + 1) l end.
Definition block_get_by_name (s : devices) (n : list Z) : option Z := find_name n 0 (all_blocks s).
Definition device_at (b : Z) : M devices device := s ← get; lift (rd (all_blocks s) b).
Definition block_size (b : Z) : M devices Z := d ← device_at b; mret (size d).
Definition block_name (b : Z) : M devices (list Z) := d ← device_at b; mret (name d).

(** ** Reading and writing *)

Definition count_access (r w b : Z) : M devices unit :=
  s ← get; d ← lift (rd (all_blocks s) b);
  l ← lift (wr (all_blocks s) b {| name := name d; dtype := dtype d; size := size d; aux := aux d; extra_info := extra_info d; reads := u64 (reads d + r); writes := u64 (writes d + w) |});
  put (set_blocks l s).
(** [block_read], with the [read] operation of the device; [partition_read] calls
    [block_read] of the device it is a part of. *)
Fixpoint device_read (fuel : nat) (b sector : Z) : M devices (list Z) :=
  match fuel with
  | O => out_of_fuel
  | S fuel =>
      d ← device_at b;
      if size d <=? sector then lift Panic else
      buffer ← match aux d with
               | Disk k => s ← get; f ← lift (rd (disks s) k); mret (f sector)
               | Partition block start => device_read fuel block (u32 (start + sector))
               end;
      count_access 1 0 b;; mret buffer
  end.
Fixpoint device_write (fuel : nat) (b sector : Z) (buffer : list Z) : M devices unit :=
  match fuel with
  | O => out_of_fuel
  | S fuel =>
      d ← device_at b;
      if size d <=? sector then lift Panic else
      assert (negb (bool_decide (dtype d = BLOCK_FOREIGN)));;
      match aux d with
      | Disk k => s ← get; f ← lift (rd (disks s) k); l ← lift (wr (disks s) k (supd f sector buffer)); put (set_disks l s)
      | Partition block start => device_write fuel block (u32 (start + sector)) buffer
      end;;
      count_access 0 1 b
  end.

(** ** Registering devices *)

Section partitions.
(** Whether [malloc] succeeds, by size. *)
Context (malloc : Z → bool).

Definition block_register (n : list Z) (t : block_type) (info : list Z) (sz : Z) (a : driver) : M devices Z :=
  if malloc 56 then
    s ← get;
    let d := {| name := take 15 n; dtype := t; size := sz; aux := a; extra_info := info; reads := 0; writes := 0 |} in
    put (set_blocks (all_blocks s ++ [d]) s);; mret (zlen (all_blocks s))
  else lift Panic.

Definition type_names : list (Z * string) :=
  [(0, "Empty"); (1, "FAT12"); (2, "XENIX root"); (3, "XENIX usr"); (4, "FAT16 <32M"); (5, "Extended"); (6, "FAT16"); (7, "HPFS/NTFS"); (8, "AIX");
   (9, "AIX bootable"); (10, "OS/2 Boot Manager"); (11, "W95 FAT32"); (12, "W95 FAT32 (LBA)"); (14, "W95 FAT16 (LBA)"); (15, "W95 Ext'd (LBA)");
   (16, "OPUS"); (17, "Hidden FAT12"); (18, "Compaq diagnostics"); (20, "Hidden FAT16 <32M"); (22, "Hidden FAT16"); (23, "Hidden HPFS/NTFS");
   (24, "AST SmartSleep"); (27, "Hidden W95 FAT32"); (28, "Hidden W95 FAT32 (LBA)"); (30, "Hidden W95 FAT16 (LBA)"); (32, "Pintos OS kernel");
   (33, "Pintos file system"); (34, "Pintos scratch"); (35, "Pintos swap"); (36, "NEC DOS"); (57, "Plan 9"); (60, "PartitionMagic recovery");
   (64, "Venix 80286"); (65, "PPC PReP Boot"); (66, "SFS"); (77, "QNX4.x"); (78, "QNX4.x 2nd part"); (79, "QNX4.x 3rd part"); (80, "OnTrack DM");
   (81, "OnTrack DM6 Aux1"); (82, "CP/M"); (83, "OnTrack DM6 Aux3"); (84, "OnTrackDM6"); (85, "EZ-Drive"); (86, "Golden Bow"); (92, "Priam Edisk");
   (97, "SpeedStor"); (99, "GNU HURD or SysV"); (100, "Novell Netware 286"); (101, "Novell Netware 386"); (112, "DiskSecure Multi-Boot");
   (117, "PC/IX"); (128, "Old Minix"); (129, "Minix / old Linux"); (130, "Linux swap / Solaris"); (131, "Linux"); (132, "OS/2 hidden C: drive");
   (133, "Linux extended"); (134, "NTFS volume set"); (135, "NTFS volume set"); (136, "Linux plaintext"); (142, "Linux LVM"); (147, "Amoeba");
   (148, "Amoeba BBT"); (159, "BSD/OS"); (160, "IBM Thinkpad hibernation"); (165, "FreeBSD"); (166, "OpenBSD"); (167, "NeXTSTEP");
   (168, "Darwin UFS"); (169, "NetBSD"); (171, "Darwin boot"); (183, "BSDI fs"); (184, "BSDI swap"); (187, "Boot Wizard hidden");
   (190, "Solaris boot"); (191, "Solaris"); (193, "DRDOS/sec (FAT-12)"); (196, "DRDOS/sec (FAT-16 < 32M)"); (198, "DRDOS/sec (FAT-16)");
   (199, "Syrinx"); (218, "Non-FS data"); (219, "CP/M / CTOS / ..."); (222, "Dell Utility"); (223, "BootIt"); (225, "DOS access"); (227, "DOS R/O");
   (228, "SpeedStor"); (235, "BeOS fs"); (238, "EFI GPT"); (239, "EFI (FAT-12/16/32)"); (240, "Linux/PA-RISC boot"); (241, "SpeedStor");
   (244, "SpeedStor"); (242, "DOS secondary"); (253, "Linux raid autodetect"); (254, "LANstep"); (255, "BBT")].
Definition partition_type_name (t : Z) : string :=
  match list_find (λ p, p.1 = t) type_names with Some (_, (_, n)) => n | None => "Unknown" end.

Definition found_partition (b part_type start sz part_nr : Z) : M devices unit :=
  bsz ← block_size b;
  if bsz <=? start then mret tt else
  if (u32 (start + sz) <? start) || (bsz <? u32 (start + sz)) then mret tt else
  let t := if part_type =? 32 then BLOCK_KERNEL else if part_type =? 33 then BLOCK_FILESYS else if part_type =? 34 then BLOCK_SCRATCH
           else if part_type =? 35 then BLOCK_SWAP else BLOCK_FOREIGN in
  if malloc 8 then
    bn ← block_name b;
    n ← lift (text (chars "%s%d") [Str (Some bn); Word part_nr]);
    info ← lift (text (chars "%s (%02x)") [Str (Some (chars (partition_type_name part_type))); Word part_type]);
    block_register (take 15 n) t (take 127 info) sz (Partition b start);; mret tt
  else lift Panic.

(** The four entries of a partition table: type, offset and size. *)
Definition table_entry (pt : list Z) (i : Z) : Z * Z * Z :=
  (default 0 (pt@[446 + 16 * i + 4]), le_value (slice (446 + 16 * i + 8) 4 pt), le_value (slice (446 + 16 * i + 12) 4 pt)).
Definition is_extended (t : Z) : bool := (t =? 5) || (t =? 15) || (t =? 133) || (t =? 197).
(** The loop over the entries of the table in [sector]; [extended] reads the table
    of an extended partition. *)
Fixpoint scan_entries (extended : Z → Z → Z → M devices Z) (b sector primary_extended_sector : Z) (es : list (Z * Z * Z)) (part_nr : Z) : M devices Z :=
  match es with
  | [] => mret part_nr
  | (t, offset, sz) :: es =>
      part_nr ← (if (sz =? 0) || (t =? 0) then mret part_nr
                 else if is_extended t then
                   if sector =? 0 then extended offset offset part_nr
                   else extended (u32 (offset + primary_extended_sector)) primary_extended_sector part_nr
                 else found_partition b t (u32 (offset + sector)) sz (s32 (part_nr + 1));; mret (s32 (part_nr + 1)));
      scan_entries extended b sector primary_extended_sector es part_nr
  end.
Fixpoint read_partition_table (fuel : nat) (b sector primary_extended_sector part_nr : Z) : M devices Z :=
  match fuel with
  | O => out_of_fuel
  | S fuel =>
      bsz ← block_size b;
      if bsz <=? sector then mret part_nr else
      if negb (malloc BLOCK_SECTOR_SIZE) then lift Panic else
      pt ← device_read (S (Z.to_nat b)) b 0;
      if negb (le_value (slice 510 2 pt) =? 43605) then mret part_nr else
      scan_entries (read_partition_table fuel b) b sector primary_extended_sector (table_entry pt <$> [0; 1; 2; 3]) part_nr
  end.
Definition partition_scan (fuel : nat) (b : Z) : M devices unit :=
  read_partition_table fuel b 0 0 0;; mret tt.
End partitions.

(** ** The tree of devices *)

Definition device_ok (s : devices) (b : Z) (d : device) : Prop :=
  0 ≤ size d < 2 ^ 32 ∧
  match aux d with
  | Disk k => ∃ f, (disks s)@[k] = Some f
  | Partition p start => 0 ≤ p < b ∧ 0 ≤ start ∧ ∃ dp, (all_blocks s)@[p] = Some dp ∧ start + size d ≤ size dp ∧ dtype dp ≠ BLOCK_FOREIGN
  end.
Definition devices_ok (s : devices) : Prop := ∀ b d, (all_blocks s)@[b] = Some d → device_ok s b d.

(** Where sector [n] of device [b] is: sector [m] of disk [k]. *)
Inductive located (s : devices) : Z → Z → Z → Z → Prop :=
  | located_disk b d n k : (all_blocks s)@[b] = Some d → aux d = Disk k → located s b n k n
  | located_partition b d n p start k m : (all_blocks s)@[b] = Some d → aux d = Partition p start → located s p (start + n) k m → located s b n k m.

(** States that differ only in the counters and the contents of the disks. *)
Definition shape (d : device) : list Z * block_type * Z * driver := (name d, dtype d, size d, aux d).
Definition same_shape (s s' : devices) : Prop := shape <$> all_blocks s' = shape <$> all_blocks s.
(** Devices may have been added at the end. *)
Definition extends (s s' : devices) : Prop := (shape <$> all_blocks s) `prefix_of` (shape <$> all_blocks s').
Lemma extends_lookup s s' b d : extends s s' → (all_blocks s)@[b] = Some d → ∃ d', (all_blocks s')@[b] = Some d' ∧ shape d' = shape d.
Proof.
  intros H [Hb E]%zlookup_Some. assert ((shape <$> all_blocks s) !! Z.to_nat b = Some (shape d)) as E1 by (by rewrite list_lookup_fmap, E). apply (prefix_lookup_Some _ _ _ _ E1) in H.
  rewrite list_lookup_fmap in H. destruct (all_blocks s' !! Z.to_nat b) as [d'|] eqn:E'; [|done]. injection H as H. exists d'. split; [by apply zlookup_Some|]. unfold shape. congruence.
Qed.
Lemma devices_extend_trans s1 s2 s3 : extends s1 s2 → extends s2 s3 → extends s1 s3.
Proof. unfold extends. intros H1 H2. by etransitivity. Qed.
Lemma extends_located s s' b n k m : extends s s' → located s b n k m → located s' b n k m.
Proof.
  intros H. induction 1 as [b d n k E Ea|b d n p start k m E Ea _ IH]; destruct (extends_lookup _ _ _ _ H E) as (d' & E' & Hd); unfold shape in Hd.
  - apply (located_disk _ _ d'); [done|]. congruence.
  - apply (located_partition _ _ d' _ p start); [done|congruence|done].
Qed.
Lemma same_shape_extends s s' : same_shape s s' → extends s s'.
Proof. unfold same_shape, extends. by intros ->. Qed.
Lemma same_shape_lookup s s' b d : same_shape s s' → (all_blocks s)@[b] = Some d → ∃ d', (all_blocks s')@[b] = Some d' ∧ shape d' = shape d.
Proof. intros H%same_shape_extends. by apply extends_lookup. Qed.
Lemma same_shape_sym s s' : same_shape s s' → same_shape s' s.
Proof. unfold same_shape. by intros ->. Qed.
Lemma same_shape_trans s1 s2 s3 : same_shape s1 s2 → same_shape s2 s3 → same_shape s1 s3.
Proof. unfold same_shape. intros <-. done. Qed.
Lemma same_shape_len s s' : same_shape s s' → zlen (all_blocks s') = zlen (all_blocks s).
Proof. unfold same_shape, zlen. intros H. apply (f_equal length) in H. rewrite !length_fmap in H. lia. Qed.
Lemma same_shape_ok s s' : same_shape s s' → zlen (disks s') = zlen (disks s) → devices_ok s → devices_ok s'.
Proof.
  intros H Hl Hok b d E. destruct (same_shape_lookup _ _ _ _ (same_shape_sym _ _ H) E) as (d' & E' & Hd). unfold shape in Hd. destruct (Hok b d' E') as [H1 H2]. injection Hd as _ _ Hs Ha. unfold device_ok. rewrite <- Hs, <- Ha. split; [done|].
  destruct (aux d') as [k|p start].
  - destruct H2 as [f Hf]. apply zlookup_lt. apply zlookup_bound in Hf. lia.
  - destruct H2 as (H2 & H3 & dp & H4 & H5 & H6). destruct (same_shape_lookup _ _ _ _ H H4) as (dp' & E2 & Hd2). unfold shape in Hd2. split_and!; [lia..|]. exists dp'. injection Hd2 as _ -> -> _. done.
Qed.
Lemma count_access_spec s r w b d : (all_blocks s)@[b] = Some d → runs (count_access r w b) s (λ _ s', same_shape s s' ∧ disks s' = disks s).
Proof.
  intros E. pose proof (zlookup_bound _ _ _ E) as Hb. unfold count_access. run. rewrite (rd_Some _ _ _ E). run. rewrite wr_in by done. run. split; [|done]. unfold same_shape. cbn.
  apply zlookup_Some in E as [_ E]. unfold zinsert. destruct (Z.ltb_spec b 0); [lia|]. rewrite list_fmap_insert. apply list_insert_id. by rewrite list_lookup_fmap, E.
Qed.

Lemma located_exists s : devices_ok s → ∀ fuel b d n, (Z.to_nat b < fuel)%nat → (all_blocks s)@[b] = Some d → 0 ≤ n < size d → ∃ k m f, located s b n k m ∧ (disks s)@[k] = Some f.
Proof.
  intros Hok. induction fuel as [|fuel IH]; intros b d n Hf E Hn; [lia|]. destruct (Hok b d E) as [Hs Ha]. pose proof (zlookup_bound _ _ _ E). destruct (aux d) as [k|p start] eqn:Ea.
  - destruct Ha as [f Hk]. exists k, n, f. split; [by apply (located_disk _ _ d)|done].
  - destruct Ha as (Hp & Hst & dp & Ep & Hfit & _). destruct (IH p dp (start + n)) as (k & m & f & H1 & H2); [lia|done|lia|]. exists k, m, f. split; [by apply (located_partition _ _ d _ p start)|done].
Qed.
(** Reading a sector of a device reads the sector of the disk where it is. *)
Lemma device_read_spec fuel : ∀ s b d n k m f, devices_ok s → (Z.to_nat b < fuel)%nat → (all_blocks s)@[b] = Some d → 0 ≤ n < size d → located s b n k m → (disks s)@[k] = Some f →
  runs (device_read fuel b n) s (λ buffer s', buffer = f m ∧ same_shape s s' ∧ disks s' = disks s).
Proof.
  induction fuel as [|fuel IH]; intros s b d n k m f Hok Hf E Hn Hl Hk; [lia|]. pose proof (zlookup_bound _ _ _ E) as Hb. cbn [device_read]. unfold device_at. run. rewrite (rd_Some _ _ _ E). run.
  destruct (Z.leb_spec (size d) n); [lia|]. destruct (Hok b d E) as [Hs Ha]. inversion Hl as [? d' ? ? E1 E2|? d' ? p start ? ? E1 E2 E3]; subst; rewrite E in E1; simplify_eq; rewrite E2 in *; run.
  - rewrite (rd_Some _ _ _ Hk). run. eapply runs_mono; [by eapply count_access_spec|]. intros _ s' [H1 H2]. by run.
  - destruct Ha as (Hp & Hst & dp & Ep & Hfit & _). destruct (Hok p dp Ep) as [Hsp _]. assert (u32 (start + n) = start + n) as -> by (unfold u32; apply Z.mod_small; lia).
    eapply runs_mono; [apply (IH s p dp (start + n) k m f); [done|lia|done|lia|done|done]|]. intros buffer s' (-> & H1 & H2). run. destruct (same_shape_lookup _ _ _ _ H1 E) as (d2 & E4 & _).
    eapply runs_mono; [by eapply count_access_spec|]. intros _ s'' [H3 H4]. run. split_and!; [done|by eapply same_shape_trans|congruence].
Qed.
(** Writing one writes that sector of the disk. *)
Lemma device_write_spec fuel buffer : ∀ s b d n k m f, devices_ok s → (Z.to_nat b < fuel)%nat → (all_blocks s)@[b] = Some d → dtype d ≠ BLOCK_FOREIGN → 0 ≤ n < size d → located s b n k m → (disks s)@[k] = Some f →
  runs (device_write fuel b n buffer) s (λ _ s', same_shape s s' ∧ disks s' = (disks s)@[k := supd f m buffer]).
Proof.
  induction fuel as [|fuel IH]; intros s b d n k m f Hok Hf E Ht Hn Hl Hk; [lia|]. pose proof (zlookup_bound _ _ _ E) as Hb. cbn [device_write]. unfold device_at. run. rewrite (rd_Some _ _ _ E). run.
  destruct (Z.leb_spec (size d) n); [lia|]. run. apply runs_assert; [by rewrite bool_decide_false|]. destruct (Hok b d E) as [Hs Ha]. inversion Hl as [? d' ? ? E1 E2|? d' ? p start ? ? E1 E2 E3]; subst; rewrite E in E1; simplify_eq; rewrite E2 in *; run.
  - rewrite (rd_Some _ _ _ Hk). run. rewrite wr_in by (by eapply zlookup_bound). run. eapply runs_mono; [by eapply count_access_spec|]. intros _ s' [H1 H2]. done.
  - destruct Ha as (Hp & Hst & dp & Ep & Hfit & Hnf). destruct (Hok p dp Ep) as [Hsp _]. assert (u32 (start + n) = start + n) as -> by (unfold u32; apply Z.mod_small; lia).
    eapply runs_mono; [apply (IH s p dp (start + n) k m f); [done|lia|done|done|lia|done|done]|]. intros _ s' (H1 & H2). destruct (same_shape_lookup _ _ _ _ H1 E) as (d2 & E4 & _).
    eapply runs_mono; [by eapply count_access_spec|]. intros _ s'' [H3 H4]. split; [by eapply same_shape_trans|congruence].
Qed.

(** ** Registering a partition *)

Lemma integer_text_returns value sg ng b c : is_u64 value → is_base b → ∃ t, integer_text value sg ng b c = Done t.
Proof. intros Hv Hb. destruct (integer_buffer_bound value b c Hv Hb) as (buf & E & _). unfold integer_text. rewrite E. by eexists. Qed.
Lemma string_directive bn args f : ∃ n, next_directive (chars "%s" ++ f) (Str (Some bn) :: args) = Done (Text bn n plain, f, args).
Proof. eexists. reflexivity. Qed.
Lemma text_part_name bn n : - 2 ^ 31 ≤ n < 2 ^ 31 → ∃ t, text (chars "%s%d") [Str (Some bn); Word n] = Done t.
Proof.
  intros Hn. destruct (string_directive bn [Word n] (chars "%d")) as [m E]. destruct (integer_text_returns (Z.abs n) true (n <? 0) base_d plain) as [t Et]; [unfold is_u64; lia|by left|].
  change (text (chars "%s%d") [Str (Some bn); Word n]) with (text_loop (S (S 34)) (chars "%s" ++ chars "%d") [Str (Some bn); Word n]).
  rewrite text_loop_S by done. rewrite E, !bind_Done. rewrite text_loop_S by done. rewrite printed_int, bind_Done by done. rewrite Et, !bind_Done. by eexists.
Qed.
(** A name of a device has at most 15 bytes; the number follows it. *)
Lemma text_part_digit bn n : zlen bn ≤ 15 → 1 ≤ n ≤ 9 → text (chars "%s%d") [Str (Some bn); Word n] = Done (bn ++ [48 + n]).
Proof.
  intros Hl Hn. change (text (chars "%s%d") [Str (Some bn); Word n]) with (text_loop (S (S 34)) (chars "%s" ++ chars "%d") [Str (Some bn); Word n]).
  rewrite text_loop_S by done.
  assert (next_directive (chars "%s" ++ chars "%d") [Str (Some bn); Word n] = Done (Text bn (zlen bn `min` 4294967295) plain, chars "%d", [Word n])) as -> by reflexivity.
  rewrite !bind_Done, (text_loop_S 34), printed_int, bind_Done by (done || lia). destruct (Z.ltb_spec n 0); [lia|]. rewrite Z.abs_eq by lia.
  assert (integer_text n true false base_d plain = Done [48 + n]) as -> by (assert (n = 1 ∨ n = 2 ∨ n = 3 ∨ n = 4 ∨ n = 5 ∨ n = 6 ∨ n = 7 ∨ n = 8 ∨ n = 9) as Hc by lia; destruct_or! Hc; subst n; reflexivity).
  rewrite !bind_Done. unfold string_text. change (width plain) with 0. pose proof (zlen_nonneg bn). rewrite Z.min_l by lia.
  destruct (Z.ltb_spec (zlen bn) 0); [lia|]. replace (Z.to_nat (zlen bn)) with (length bn) by (unfold zlen; lia). rewrite firstn_all. cbn. by rewrite !app_nil_r.
Qed.
Lemma text_part_info bn n : 0 ≤ n < 256 → ∃ t, text (chars "%s (%02x)") [Str (Some bn); Word n] = Done t.
Proof.
  intros Hn. destruct (string_directive bn [Word n] (chars " (%02x)")) as [m E]. 
  destruct (integer_text_returns (u32 n) false false base_x {| flags := ZERO; width := 2; precision := -1; type := INT |}) as [t Et]; [unfold is_u64, u32; rewrite Z.mod_small; lia|right; right; by left|].
  change (text (chars "%s (%02x)") [Str (Some bn); Word n]) with (text_loop (S (40)) (chars "%s" ++ chars " (%02x)") [Str (Some bn); Word n]).
  rewrite text_loop_S by done. rewrite E, !bind_Done.
  assert (text_loop 40 (chars " (%02x)") [Word n] = (t ← integer_text (u32 n) false false base_x {| flags := ZERO; width := 2; precision := -1; type := INT |}; Done (32 :: 40 :: t ++ [41]))) as ->.
  { change (text_loop 40 (chars " (%02x)") [Word n]) with (u ← (u ← (t ← integer_text (u32 n) false false base_x {| flags := ZERO; width := 2; precision := -1; type := INT |}; u ← Done [41]; Done (t ++ u)); Done ([40] ++ u)); Done ([32] ++ u)).
    by destruct (integer_text _ _ _ _ _). }
  rewrite Et, !bind_Done. by eexists.
Qed.

(** What there is to know of a partition of [b], if it lies within [bsz] sectors. *)
Definition role_of (t : Z) : block_type :=
  if t =? 32 then BLOCK_KERNEL else if t =? 33 then BLOCK_FILESYS else if t =? 34 then BLOCK_SCRATCH else if t =? 35 then BLOCK_SWAP else BLOCK_FOREIGN.
Definition part_name (bn : list Z) (nr : Z) : list Z := take 15 (bn ++ [48 + nr]).
Definition fitting (bn : list Z) (bsz b nr : Z) (e : Z * Z * Z) : list (list Z * block_type * Z * driver) :=
  let '(t, start, sz) := e in if (start <? bsz) && (start + sz <=? bsz) then [(part_name bn nr, role_of t, sz, Partition b start)] else [].
(** The number matters only if it has one digit, as all numbers of a table without extended partitions do. *)
Definition found (d : device) (b nr : Z) (e : Z * Z * Z) (new : list device) : Prop :=
  zlen (name d) ≤ 15 → 1 ≤ nr ≤ 9 → shape <$> new = fitting (name d) (size d) b nr e.
Lemma devices_ok_snoc s d : devices_ok s → device_ok s (zlen (all_blocks s)) d → devices_ok (set_blocks (all_blocks s ++ [d]) s).
Proof.
  intros Hok Hd. assert (∀ b d', device_ok s b d' → device_ok (set_blocks (all_blocks s ++ [d]) s) b d') as Hmono.
  { intros b d' [H1 H2]. split; [done|]. destruct (aux d'); [done|]. destruct H2 as (H2 & H3 & dp & H4 & H5 & H6). split_and!; [lia..|]. exists dp. split_and!; [|done..]. cbn. rewrite zlookup_app. pose proof (zlookup_bound _ _ _ H4). match goal with |- context [?p <? zlen _] => by destruct (Z.ltb_spec p (zlen (all_blocks s))); [|lia] end. }
  intros b d' E. apply Hmono. cbn in E. rewrite zlookup_app in E. destruct (Z.ltb_spec b (zlen (all_blocks s))); [by apply Hok|].
  pose proof (zlookup_bound _ _ _ E) as Hb. change (zlen [d]) with 1 in Hb. assert (b = zlen (all_blocks s)) as -> by lia. rewrite Z.sub_diag in E. by injection E as <-.
Qed.

Section scan.
Context (malloc : Z → bool) (Hmalloc : ∀ n, malloc n = true).

Lemma found_partition_spec s b d t start sz nr : devices_ok s → (all_blocks s)@[b] = Some d → dtype d ≠ BLOCK_FOREIGN → is_u8 t → 0 ≤ start → 0 ≤ sz < 2 ^ 32 → - 2 ^ 31 ≤ nr < 2 ^ 31 →
  runs (found_partition malloc b t start sz nr) s (λ _ s', devices_ok s' ∧ disks s' = disks s ∧ ∃ new, all_blocks s' = all_blocks s ++ new ∧ found d b nr (t, start, sz) new).
Proof.
  intros Hok E Hf Ht Hst Hsz Hnr. destruct (Hok b d E) as [Hs _].
  assert (fitting (name d) (size d) b nr (t, start, sz) = [] → devices_ok s ∧ disks s = disks s ∧ ∃ new, all_blocks s = all_blocks s ++ new ∧ found d b nr (t, start, sz) new) as Hnone.
  { intros Hfit. split_and!; [done|done|]. exists []. split; [by rewrite app_nil_r|]. intros _ _. by rewrite Hfit. }
  unfold found_partition, block_size, device_at. run. rewrite (rd_Some _ _ _ E). run. destruct (Z.leb_spec (size d) start).
  { run. apply Hnone. unfold fitting. by destruct (Z.ltb_spec start (size d)); [lia|]. }
  assert (start + sz < 2 ^ 32 ∧ u32 (start + sz) = start + sz ∨ 2 ^ 32 ≤ start + sz ∧ u32 (start + sz) = start + sz - 2 ^ 32) as Hu.
  { unfold u32. destruct (Z.lt_ge_cases (start + sz) (2 ^ 32)); [left; split; [done|apply Z.mod_small; lia]|right; split; [done|]]. symmetry. apply (Z.mod_unique _ _ 1); lia. }
  destruct ((u32 (start + sz) <? start) || (size d <? u32 (start + sz))) eqn:Ec.
  { run. apply Hnone. unfold fitting. destruct (Z.leb_spec (start + sz) (size d)); [|by rewrite andb_false_r]. apply orb_true_iff in Ec as [Ec|Ec]; apply Z.ltb_lt in Ec; lia. }
  apply orb_false_iff in Ec as [Ec1 Ec2]. apply Z.ltb_ge in Ec1, Ec2. rewrite Hmalloc. unfold block_name, device_at. run. rewrite (rd_Some _ _ _ E). run.
  destruct (text_part_name (name d) nr Hnr) as [n En]. rewrite En. run. destruct (text_part_info (chars (partition_type_name t)) t Ht) as [info ->]. run.
  unfold block_register. rewrite Hmalloc. run. split_and!; [|done|].
  - apply devices_ok_snoc; [done|]. split; [cbn; lia|]. cbn. pose proof (zlookup_bound _ _ _ E). split_and!; [lia..|]. exists d. split_and!; [done|lia|done].
  - eexists. split; [done|]. intros Hl Hd. rewrite text_part_digit in En by done. injection En as <-. unfold shape, fitting, part_name. cbn. rewrite take_take. destruct (Z.ltb_spec start (size d)), (Z.leb_spec (start + sz) (size d)); try lia. done.
Qed.

Definition empty_entry (e : Z * Z * Z) : bool := let '(t, _, sz) := e in (sz =? 0) || (t =? 0).
Definition extended_entry (e : Z * Z * Z) : bool := let '(t, _, _) := e in negb (empty_entry e) && is_extended t.
Definition entry_ok (e : Z * Z * Z) : Prop := let '(t, o, sz) := e in is_u8 t ∧ is_u32 o ∧ is_u32 sz.
Definition moved (sector : Z) (e : Z * Z * Z) : Z * Z * Z := let '(t, o, sz) := e in (t, u32 (o + sector), sz).
(** The partitions of a table, the first of which gets the number after [nr]; those that do not fit are counted. *)
Fixpoint parts (bn : list Z) (bsz b sector nr : Z) (es : list (Z * Z * Z)) : list (list Z * block_type * Z * driver) :=
  match es with
  | [] => []
  | e :: es => if empty_entry e then parts bn bsz b sector nr es else fitting bn bsz b (nr + 1) (moved sector e) ++ parts bn bsz b sector (nr + 1) es
  end.
(** The loop over entries none of which is extended. *)
Lemma scan_plain extended b d sector pri : dtype d ≠ BLOCK_FOREIGN → ∀ es s nr, devices_ok s → (all_blocks s)@[b] = Some d → Forall entry_ok es → forallb (λ e, negb (extended_entry e)) es = true → - 2 ^ 31 ≤ nr < 2 ^ 31 →
  runs (scan_entries malloc extended b sector pri es nr) s (λ nr' s', - 2 ^ 31 ≤ nr' < 2 ^ 31 ∧ devices_ok s' ∧ disks s' = disks s ∧ ∃ new, all_blocks s' = all_blocks s ++ new ∧
    (zlen (name d) ≤ 15 → 0 ≤ nr → nr + zlen es ≤ 9 → shape <$> new = parts (name d) (size d) b sector nr es)).
Proof.
  intros Hf. induction es as [|[[t o] sz] es IH]; intros s nr Hok E He Hx Hnr; cbn [scan_entries].
  { run. split_and!; [lia..|done|done|]. exists []. by rewrite app_nil_r. }
  apply Forall_cons_1 in He as [(Ht & Ho & Hsz) He]. cbn [forallb] in Hx. apply andb_true_iff in Hx as [Hx1 Hx]. run. pose proof (s32_bounds (nr + 1)) as Hb. unfold extended_entry, empty_entry in Hx1.
  cbn [parts]. unfold empty_entry at 1. rewrite zlen_cons. pose proof (zlen_nonneg es).
  destruct ((sz =? 0) || (t =? 0)) eqn:Eem.
  { run. eapply runs_mono; [by apply (IH s nr); try lia|]. intros nr' s' (H1 & H2 & H3 & new & H4 & H5). split_and!; [lia..|done|done|]. exists new. split; [done|]. intros. apply H5; lia || done. }
  cbn [negb andb] in Hx1. destruct (is_extended t); [done|]. run. unfold u32 at 1. eapply runs_mono; [apply (found_partition_spec s b d t _ sz); try done; apply Z.mod_pos_bound; lia|].
  intros _ s1 (H1 & H2 & new & H3 & H4). run. eapply runs_mono; [apply (IH s1 (s32 (nr + 1))); try done; try lia|].
  { rewrite H3, zlookup_app. pose proof (zlookup_bound _ _ _ E). by destruct (Z.ltb_spec b (zlen (all_blocks s))); [|lia]. }
  intros nr' s2 (H5 & H6 & H7 & new' & H8 & H9). split_and!; [lia..|done|congruence|]. exists (new ++ new'). split; [by rewrite H8, H3, app_assoc|].
  intros Hl Hn Hn9. rewrite s32_small in * by lia. rewrite fmap_app, H4, H9 by (done || lia). done.
Qed.

Definition entries (pt : list Z) : list (Z * Z * Z) := table_entry pt <$> [0; 1; 2; 3].
Lemma slice_u32 (pt : list Z) o : Forall is_u8 pt → is_u32 (le_value (slice o 4 pt)).
Proof.
  intros H. pose proof (le_value_range (slice o 4 pt)) as Hr. assert (length (slice o 4 pt) ≤ 4)%nat as Hl by (unfold slice; rewrite length_take; lia).
  destruct Hr as [H1 H2]; [unfold slice; by apply Forall_take, Forall_drop|]. split; [done|]. eapply Z.lt_le_trans; [done|]. change (2 ^ 32) with (256 ^ 4). apply Z.pow_le_mono_r; lia.
Qed.
Lemma entries_ok pt : is_sector pt → Forall entry_ok (entries pt).
Proof.
  intros [Hl Hu]. unfold entries. apply Forall_fmap, Forall_forall. intros i Hi. unfold compose, table_entry, entry_ok. split_and!; [|by apply slice_u32..].
  destruct (zlookup_lt pt (446 + 16 * i + 4)) as [x Hx]; [rewrite Hl; unfold BLOCK_SECTOR_SIZE; cbn in Hi; set_unfold in Hi; lia|]. rewrite Hx. apply zlookup_Some in Hx as [_ Hx]. by eapply Forall_lookup in Hx.
Qed.
(** The first sector of device [b] is [pt]. *)
Definition first_sector (s : devices) (b : Z) (pt : list Z) : Prop := ∃ k m f, located s b 0 k m ∧ (disks s)@[k] = Some f ∧ f m = pt.
Lemma first_sector_extends s s' b pt : extends s s' → disks s' = disks s → first_sector s b pt → first_sector s' b pt.
Proof. intros H1 H2 (k & m & f & H3 & H4 & H5). exists k, m, f. split_and!; [by eapply extends_located|by rewrite H2|done]. Qed.

(** Reading a table up to the loop over its entries. *)
Lemma read_table_step fuel s b d sector pri nr pt : devices_ok s → (all_blocks s)@[b] = Some d → sector < size d → 0 ≤ sector → first_sector s b pt → le_value (slice 510 2 pt) = 43605 →
  ∃ s1, same_shape s s1 ∧ disks s1 = disks s ∧ devices_ok s1 ∧
    read_partition_table malloc (S fuel) b sector pri nr s = scan_entries malloc (read_partition_table malloc fuel b) b sector pri (entries pt) nr s1.
Proof.
  intros Hok E Hsec H0 (k & m & f & Hl & Hk & <-) Hsig. pose proof (device_read_spec (S (Z.to_nat b)) s b d 0 k m f Hok ltac:(lia) E ltac:(lia) Hl Hk) as Hrd.
  apply runs_done in Hrd as (pt & s1 & Erd & -> & H1 & H2). exists s1. split_and!; [done|done|by eapply same_shape_ok; [|rewrite H2|]|].
  cbn [read_partition_table]. set (R := device_read (S (Z.to_nat b)) b 0) in *. clearbody R. fold (entries (f m)) in *. unfold block_size, device_at, mbind, M_bind, get, lift. cbn. unfold rd. rewrite E. cbn. destruct (Z.leb_spec (size d) sector); [lia|]. rewrite Hmalloc. cbn [negb]. rewrite Erd, Hsig. done.
Qed.

(** C24 [partition_scan] of a device whose table has no extended partition registers
    exactly the partitions of the table that are not empty and lie within the
    device, in order and with their start, size and the type of their role, and none that reaches past
    its end, not even by wrapping around.  Each is named after the device, followed by its
    number: the entries that are not empty are numbered from 1, those that do not fit
    included.  The device's own name has at most 15 bytes, as all names do. *)
Theorem partitions_registered s b d pt fuel : devices_ok s → (all_blocks s)@[b] = Some d → dtype d ≠ BLOCK_FOREIGN → 0 < size d → first_sector s b pt → is_sector pt → le_value (slice 510 2 pt) = 43605 →
  forallb (λ e, negb (extended_entry e)) (entries pt) = true → zlen (name d) ≤ 15 →
  runs (partition_scan malloc (S fuel) b) s (λ _ s', devices_ok s' ∧ disks s' = disks s ∧ ∃ old new, all_blocks s' = old ++ new ∧ shape <$> old = shape <$> all_blocks s ∧ shape <$> new = parts (name d) (size d) b 0 0 (entries pt)).
Proof.
  intros Hok E Hf Hsz Hfs Hpt Hsig Hx Hl. destruct (read_table_step fuel s b d 0 0 0 pt Hok E Hsz ltac:(lia) Hfs Hsig) as (s1 & Hsh & Hd1 & Hok1 & Eq).
  destruct (same_shape_lookup _ _ _ _ Hsh E) as (d1 & E1 & Hsd). injection Hsd as Hn Ht Hs Ha.
  pose proof (scan_plain (read_partition_table malloc fuel b) b d1 0 0 ltac:(congruence) (entries pt) s1 0 Hok1 E1 (entries_ok pt Hpt) Hx ltac:(lia)) as H.
  unfold partition_scan. apply runs_bind. unfold runs at 1. rewrite Eq. apply runs_done in H as (nr & s2 & E2 & _ & H1 & H2 & new & H3 & H4). rewrite E2. run. split_and!; [done|congruence|]. exists (all_blocks s1), new. rewrite <- Hs, <- Hn. split_and!; [done|done|]. apply H4; [congruence|lia|by vm_compute].
Qed.

Lemma scan_app extended b sector pri es2 : ∀ es1 nr s, scan_entries malloc extended b sector pri (es1 ++ es2) nr s = (nr' ← scan_entries malloc extended b sector pri es1 nr; scan_entries malloc extended b sector pri es2 nr') s.
Proof.
  induction es1 as [|[[t o] sz] es1 IH]; intros nr s; [done|]. cbn [app scan_entries]. unfold mbind, M_bind in *. match goal with |- match ?m with _ => _ end = _ => destruct m as [[nr' s']| | |] end; [|done..]. apply IH.
Qed.
(** Because the table of an extended partition is read from sector 0 again, it holds
    the same extended partition: if the disk has room for it twice, the
    recursion never ends. *)
Section extended.
Context (b o t sz bsz : Z) (pre post : list (Z * Z * Z)) (pt : list Z).
Context (Hpt : is_sector pt) (Hsig : le_value (slice 510 2 pt) = 43605) (Hes : entries pt = pre ++ (t, o, sz) :: post).
Context (Hpre : forallb (λ e, negb (extended_entry e)) pre = true) (Hext : extended_entry (t, o, sz) = true) (Ho : 0 < o) (Hroom : 2 * o < bsz).

Lemma read_table_diverges fuel : ∀ s d sector pri nr, devices_ok s → (all_blocks s)@[b] = Some d → dtype d ≠ BLOCK_FOREIGN → size d = bsz → first_sector s b pt → - 2 ^ 31 ≤ nr < 2 ^ 31 →
  sector = 0 ∨ pri = o ∧ (sector = o ∨ sector = 2 * o) → read_partition_table malloc fuel b sector pri nr s = NoFuel.
Proof.
  induction fuel as [|fuel IH]; intros s d sector pri nr Hok E Hf Hs Hfs Hnr Hsec; [done|].
  destruct (read_table_step fuel s b d sector pri nr pt Hok E ltac:(lia) ltac:(lia) Hfs Hsig) as (s1 & Hsh & Hd1 & Hok1 & ->). rewrite Hes, scan_app.
  destruct (same_shape_lookup _ _ _ _ Hsh E) as (d1 & E1 & Hsd). injection Hsd as Hn1 Ht1 Hs1 Ha1. pose proof (entries_ok pt Hpt) as Hok'. rewrite Hes in Hok'. apply Forall_app in Hok' as [Hpe _].
  pose proof (scan_plain (read_partition_table malloc fuel b) b d1 sector pri ltac:(congruence) pre s1 nr Hok1 E1 Hpe Hpre Hnr) as H. apply runs_done in H as (nr2 & s2 & E2 & Hnr2 & Hok2 & Hd2 & new & Hb2 & _).
  unfold mbind, M_bind. rewrite E2. cbn [scan_entries]. unfold mbind, M_bind. unfold extended_entry in Hext. destruct (empty_entry (t, o, sz)) eqn:Ee; [done|]. cbn [negb andb] in Hext. unfold empty_entry in Ee. rewrite Ee, Hext.
  assert ((all_blocks s2)@[b] = Some d1) as Eb2 by (rewrite Hb2, zlookup_app; pose proof (zlookup_bound _ _ _ E1); by destruct (Z.ltb_spec b (zlen (all_blocks s1))); [|lia]).
  assert (first_sector s2 b pt) as Hfs2. { eapply (first_sector_extends s); [|congruence|done]. eapply devices_extend_trans; [by apply same_shape_extends|]. unfold extends. rewrite Hb2, fmap_app. by apply prefix_app_r. }
  assert (0 ≤ bsz < 2 ^ 32) as Hbsz by (destruct (Hok b d E) as [H _]; lia). destruct (Z.eqb_spec sector 0) as [->|Hne].
  - by rewrite (IH s2 d1 o o nr2) by (done || congruence || lia).
  - destruct Hsec as [?|[-> _]]; [done|]. assert (u32 (o + o) = 2 * o) as -> by (unfold u32; rewrite Z.mod_small; lia). by rewrite (IH s2 d1 (2 * o) o nr2) by (done || congruence || lia).
Qed.
Lemma extended_partition_hangs s d fuel : devices_ok s → (all_blocks s)@[b] = Some d → dtype d ≠ BLOCK_FOREIGN → size d = bsz → first_sector s b pt → partition_scan malloc fuel b s = NoFuel.
Proof. intros. unfold partition_scan, mbind, M_bind. erewrite read_table_diverges by (done || lia). done. Qed.
End extended.
End scan.

(** ** A device is an array of sectors of its own *)

Definition holds (s : devices) (b n : Z) (data : list Z) : Prop := ∃ k m f, located s b n k m ∧ (disks s)@[k] = Some f ∧ f m = data.
Lemma located_shift s b n k m : located s b n k m → ∀ n' k' m', located s b n' k' m' → k' = k ∧ m' - m = n' - n.
Proof.
  induction 1 as [b d n k E Ea|b d n p start k m E Ea _ IH]; intros n' k' m' H; inversion H as [? d' ? ? E1 E2|? d' ? p' start' ? ? E1 E2 E3]; subst; rewrite E in E1; simplify_eq; rewrite Ea in E2; simplify_eq.
  - split; [done|lia].
  - destruct (IH _ _ _ E3) as [-> H1]. split; [done|lia].
Qed.
(** Sector [n'] of [b'] is another one than sector [n] of [b]: a different sector
    of the same device, or one of a partition of the same device that does not
    overlap with it. *)
Definition elsewhere (s : devices) (b n b' n' : Z) : Prop :=
  b' = b ∧ n' ≠ n ∨
  ∃ d d' p start start', (all_blocks s)@[b] = Some d ∧ (all_blocks s)@[b'] = Some d' ∧ aux d = Partition p start ∧ aux d' = Partition p start' ∧
    0 ≤ n < size d ∧ 0 ≤ n' < size d' ∧ (start + size d ≤ start' ∨ start' + size d' ≤ start).
Lemma elsewhere_located s b n b' n' k m k' m' : elsewhere s b n b' n' → located s b n k m → located s b' n' k' m' → (k', m') ≠ (k, m).
Proof.
  intros [[-> Hn]|(d & d' & p & st & st' & E & E' & Ea & Ea' & Hn & Hn' & Hdis)] H H' Heq; simplify_eq.
  - destruct (located_shift _ _ _ _ _ H _ _ _ H'). lia.
  - inversion H as [? d1 ? ? E1 E2|? d1 ? p1 st1 ? ? E1 E2 E3]; subst; rewrite E in E1; simplify_eq; rewrite Ea in E2; simplify_eq.
    inversion H' as [? d2 ? ? E4 E5|? d2 ? p2 st2 ? ? E4 E5 E6]; subst; rewrite E' in E4; simplify_eq; rewrite Ea' in E5; simplify_eq. destruct (located_shift _ _ _ _ _ E3 _ _ _ E6). lia.
Qed.
(** C23 Reading and writing a device through its drivers, however deeply partitions
    are nested, treats it as an array of sectors of its own: within its size a
    read returns what the sector holds and changes nothing, a write stores the
    buffer there and leaves every other sector of the device, and all sectors of partitions
    that do not overlap with it, as they are; neither reaches past the end of an
    underlying device. *)
Theorem device_is_array s b d n buffer : devices_ok s → (all_blocks s)@[b] = Some d → 0 ≤ n < size d →
  (∃ data, holds s b n data ∧ runs (device_read (S (Z.to_nat b)) b n) s (λ r s', r = data ∧ devices_ok s' ∧ ∀ b' n' x, holds s b' n' x → holds s' b' n' x)) ∧
  (dtype d ≠ BLOCK_FOREIGN → runs (device_write (S (Z.to_nat b)) b n buffer) s (λ _ s', devices_ok s' ∧ holds s' b n buffer ∧ ∀ b' n' x, elsewhere s b n b' n' → holds s b' n' x → holds s' b' n' x)).
Proof.
  intros Hok E Hn. destruct (located_exists s Hok (S (Z.to_nat b)) b d n ltac:(lia) E Hn) as (k & m & f & Hl & Hk). split.
  - exists (f m). split; [by exists k, m, f|]. eapply runs_mono; [by apply (device_read_spec _ s b d n k m f Hok); try lia|]. intros r s' (-> & H1 & H2).
    split_and!; [done|by eapply same_shape_ok; [|rewrite H2|]|]. intros b' n' x (k' & m' & f' & H3 & H4 & H5). exists k', m', f'. split_and!; [by eapply extends_located; [apply same_shape_extends|]|by rewrite H2|done].
  - intros Hf. eapply runs_mono; [by apply (device_write_spec _ buffer s b d n k m f Hok); try lia|]. intros _ s' (H1 & H2). pose proof (zlookup_bound _ _ _ Hk) as Hkb. pose proof (same_shape_extends _ _ H1) as Hex. split_and!.
    + eapply same_shape_ok; [done|by rewrite H2, zlen_insert|done].
    + exists k, m, (supd f m buffer). split_and!; [by eapply extends_located|by rewrite H2, zlookup_insert_eq|unfold supd; by rewrite Z.eqb_refl].
    + intros b' n' x He (k' & m' & f' & H3 & H4 & H5). pose proof (elsewhere_located _ _ _ _ _ _ _ _ _ He Hl H3) as Hne. destruct (decide (k' = k)) as [->|Hk'].
      * exists k, m', (supd f m buffer). split_and!; [by eapply extends_located|by rewrite H2, zlookup_insert_eq|]. unfold supd. destruct (Z.eqb_spec m' m); [congruence|]. rewrite Hk in H4. by simplify_eq.
      * exists k', m', f'. split_and!; [by eapply extends_located|by rewrite H2, zlookup_insert_ne by congruence|done].
Qed.

(** ** A disk with a table *)

(** A table with entries of the given type, offset and size. *)
Definition demo_entry (e : Z * Z * Z) : list Z := let '(t, o, sz) := e in [0; 0; 0; 0; t; 0; 0; 0] ++ le_bytes 4 o ++ le_bytes 4 sz.
Definition demo_table (es : list (Z * Z * Z)) : list Z := replicate 446 0 ++ concat (demo_entry <$> es) ++ [85; 170].
Definition demo_disk (es : list (Z * Z * Z)) : Z → list Z := λ n, if n =? 0 then demo_table es else replicate 512 0.
Definition hda : device := {| name := chars "hda"; dtype := BLOCK_RAW; size := 1000; aux := Disk 0; extra_info := []; reads := 0; writes := 0 |}.
Definition demo_devices (es : list (Z * Z * Z)) : devices := {| all_blocks := [hda]; block_by_role := [None; None; None; None]; disks := [demo_disk es] |}.
Lemma demo_devices_ok es : devices_ok (demo_devices es).
Proof.
  intros b d E. pose proof (zlookup_bound _ _ _ E) as Hb. cbn in Hb. change (zlen [hda]) with 1 in Hb. assert (b = 0) as -> by lia. injection E as <-. split; [cbn; lia|]. by exists (demo_disk es).
Qed.
Lemma demo_first_sector es : first_sector (demo_devices es) 0 (demo_table es).
Proof. exists 0, 0, (demo_disk es). split; [by apply (located_disk _ _ hda)|done]. Qed.
(** A kernel, a file system that ends at the end of the disk, swap that
    reaches past it, and an entry of another system. *)
Definition demo_entries : list (Z * Z * Z) := [(32, 1, 100); (33, 101, 899); (35, 500, 501); (131, 200, 10)].
Lemma partitions_registered_witness : ∃ s', partition_scan (λ _, true) 1 0 (demo_devices demo_entries) = Done (tt, s') ∧ devices_ok s' ∧
  shape <$> drop 1 (all_blocks s') = [(chars "hda1", BLOCK_KERNEL, 100, Partition 0 1); (chars "hda2", BLOCK_FILESYS, 899, Partition 0 101); (chars "hda4", BLOCK_FOREIGN, 10, Partition 0 200)].
Proof.
  assert (is_sector (demo_table demo_entries)) as Hs by (split; [vm_compute; reflexivity|apply constant_u8; vm_compute; reflexivity]).
  pose proof (partitions_registered (λ _, true) (λ _, eq_refl) (demo_devices demo_entries) 0 hda (demo_table demo_entries) 0 (demo_devices_ok _) eq_refl ltac:(discriminate) eq_refl (demo_first_sector _) Hs eq_refl eq_refl ltac:(discriminate)) as H.
  unfold runs in H. destruct (partition_scan _ _ _ _) as [[[] s']| | |]; [|destruct H..]. exists s'. split; [reflexivity|]. split; [exact (proj1 H)|].
  destruct H as (_ & _ & old & new & E & Ho & Hn). destruct old as [|d0 [|]]; try discriminate. rewrite E. exact Hn.
Defined.
Lemma device_is_array_witness : ∃ data, holds (demo_devices demo_entries) 0 5 data ∧ runs (device_read 1 0 5) (demo_devices demo_entries) (λ r _, r = data) ∧
  runs (device_write 1 0 5 [1; 2; 3]) (demo_devices demo_entries) (λ _ s', holds s' 0 5 [1; 2; 3]).
Proof.
  destruct (device_is_array (demo_devices demo_entries) 0 hda 5 [1; 2; 3] (demo_devices_ok _) eq_refl ltac:(split; [discriminate|reflexivity])) as [(data & H1 & H2) H3]. exists data. split; [exact H1|]. split.
  - eapply runs_mono; [exact H2|]. intros r s' [H _]. exact H.
  - eapply runs_mono; [apply H3; discriminate|]. intros _ s' (_ & H & _). exact H.
Defined.
(** An extended partition at sector 400 of a disk of 1000 sectors: the scan of the
    disk at start-up does not end. *)
Lemma demo_hangs fuel : partition_scan (λ _, true) fuel 0 (demo_devices [(32, 1, 100); (5, 400, 200); (0, 0, 0); (0, 0, 0)]) = NoFuel.
Proof.
  apply (extended_partition_hangs (λ _, true) (λ _, eq_refl) 0 400 5 200 1000 [(32, 1, 100)] [(0, 0, 0); (0, 0, 0)] (demo_table [(32, 1, 100); (5, 400, 200); (0, 0, 0); (0, 0, 0)])) with hda; try done; [|lia..|apply demo_devices_ok|apply demo_first_sector].
  split; [done|]. apply constant_u8. by vm_compute.
Qed.
