(* ===== verification/Ide.v ===== *)
(** * The IDE disk driver (src/pintos/src/devices/ide.c)

    The driver talks to the disks through I/O ports.  The state logs each access, a
    transfer of a sector being one access, and each time the driver sleeps; what a
    read of a port returns, and whether the device interrupts a thread that waits for
    it, is up to the device, a function of the accesses so far.  [ata_step] is the
    disks' side of the protocol: what the writes to the registers mean.  A call of
    [block_register] followed by [partition_scan] (Partition.v) is recorded by its
    arguments. *)

From stdpp Require Import strings.
From S2P Require Import Prelude KList Cache Inode Directory Stdio StdioSpec CStdlib Segments.

(** ** Registers *)

Record ata_disk := AtaDisk { disk_name : list Z; dev_no : Z; is_ata : bool }.
Record channel := Channel {
  chan_name : list Z; reg_base : Z; irq : Z;
  locked : bool; expecting_interrupt : bool; completion_wait : Z;
  disks : list ata_disk }.
Definition reg_data (c : channel) : Z := reg_base c + 0.
Definition reg_error (c : channel) : Z := reg_base c + 1.
Definition reg_nsect (c : channel) : Z := reg_base c + 2.
Definition reg_lbal (c : channel) : Z := reg_base c + 3.
Definition reg_lbam (c : channel) : Z := reg_base c + 4.
Definition reg_lbah (c : channel) : Z := reg_base c + 5.
Definition reg_device (c : channel) : Z := reg_base c + 6.
Definition reg_status (c : channel) : Z := reg_base c + 7.
Definition reg_command (c : channel) : Z := reg_status c.
Definition reg_ctl (c : channel) : Z := reg_base c + 518.
Definition reg_alt_status (c : channel) : Z := reg_ctl c.
Definition STA_BSY : Z := 128.
Definition STA_DRDY : Z := 64.
Definition STA_DRQ : Z := 8.
Definition CTL_SRST : Z := 4.
Definition DEV_MBS : Z := 160.
Definition DEV_LBA : Z := 64.
Definition DEV_DEV : Z := 16.
Definition CMD_IDENTIFY_DEVICE : Z := 236.
Definition CMD_READ_SECTOR_RETRY : Z := 32.
Definition CMD_WRITE_SECTOR_RETRY : Z := 48.
Definition CHANNEL_CNT : Z := 2.

Inductive access : Type :=
  | Inb (port value : Z) | Outb (port value : Z)
  | Insw (port : Z) (data : list Z) | Outsw (port : Z) (data : list Z)
  | Slept (ns : Z).
Record ide := Ide { log : list access; channels : list channel; found : list (list Z * Z * list Z) }.
Definition add_log (a : access) (s : ide) : ide := Ide (log s ++ [a]) (channels s) (found s).
Definition set_channels (l : list channel) (s : ide) : ide := Ide (log s) l (found s).
Definition add_found (x : list Z * Z * list Z) (s : ide) : ide := Ide (log s) (channels s) (found s ++ [x]).
Definition set_lock (b : bool) (c : channel) : channel := Channel (chan_name c) (reg_base c) (irq c) b (expecting_interrupt c) (completion_wait c) (disks c).
Definition set_expecting (b : bool) (c : channel) : channel := Channel (chan_name c) (reg_base c) (irq c) (locked c) b (completion_wait c) (disks c).
Definition set_completion (n : Z) (c : channel) : channel := Channel (chan_name c) (reg_base c) (irq c) (locked c) (expecting_interrupt c) n (disks c).
Definition set_disks (l : list ata_disk) (c : channel) : channel := Channel (chan_name c) (reg_base c) (irq c) (locked c) (expecting_interrupt c) (completion_wait c) l.
Definition set_is_ata (b : bool) (d : ata_disk) : ata_disk := AtaDisk (disk_name d) (dev_no d) b.

Section driver.
(** What a read of a port returns, what a transfer of a sector reads, and
    whether a waiting thread is interrupted. *)
Context (answer : list access → Z → Z) (transfer : list access → Z → list Z) (interrupts : list access → bool).

Definition inb (port : Z) : M ide Z := s ← get; let v := u8 (answer (log s) port) in put (add_log (Inb port v) s);; mret v.
Definition outb (port value : Z) : M ide unit := modify (add_log (Outb port (u8 value))).
Definition insw (port : Z) : M ide (list Z) := s ← get; let l := transfer (log s) port in put (add_log (Insw port l) s);; mret l.
Definition outsw (port : Z) (data : list Z) : M ide unit := modify (add_log (Outsw port data)).
Definition sleep_ns (ns : Z) : M ide unit := modify (add_log (Slept ns)).
Definition timer_usleep (us : Z) : M ide unit := sleep_ns (1000 * us).
Definition timer_msleep (ms : Z) : M ide unit := sleep_ns (1000000 * ms).
Definition channel_at (c : Z) : M ide channel := s ← get; lift (rd (channels s) c).
Definition modify_channel (c : Z) (f : channel → channel) : M ide unit :=
  s ← get; ch ← lift (rd (channels s) c); l ← lift (wr (channels s) c (f ch)); put (set_channels l s).
Definition modify_disk (c d : Z) (f : ata_disk → ata_disk) : M ide unit :=
  ch ← channel_at c; x ← lift (rd (disks ch) d); l ← lift (wr (disks ch) d (f x)); modify_channel c (set_disks l).

(** ** Waiting and selecting *)

(** The loop of [wait_until_idle], with [n] turns left. *)
Fixpoint wait_until_idle_loop (n : nat) (ch : channel) : M ide unit :=
  match n with
  | O => mret tt
  | S n => v ← inb (reg_status ch); if Z.land v (Z.lor STA_BSY STA_DRQ) =? 0 then mret tt else timer_usleep 10;; wait_until_idle_loop n ch
  end.
Definition wait_until_idle (ch : channel) : M ide unit := wait_until_idle_loop 1000 ch.
Fixpoint wait_while_busy_loop (n : nat) (ch : channel) : M ide bool :=
  match n with
  | O => mret false
  | S n =>
      v ← inb (reg_alt_status ch);
      if Z.land v STA_BSY =? 0 then v ← inb (reg_alt_status ch); mret (negb (Z.land v STA_DRQ =? 0))
      else timer_msleep 10;; wait_while_busy_loop n ch
  end.
Definition wait_while_busy (ch : channel) : M ide bool := wait_while_busy_loop 3000 ch.
Definition select_device (ch : channel) (d : Z) : M ide unit :=
  outb (reg_device ch) (if d =? 1 then Z.lor DEV_MBS DEV_DEV else DEV_MBS);; inb (reg_alt_status ch);; sleep_ns 400.
Definition select_device_wait (ch : channel) (d : Z) : M ide unit := wait_until_idle ch;; select_device ch d;; wait_until_idle ch.
Definition select_sector (ch : channel) (d sec_no : Z) : M ide unit :=
  assert (sec_no <? 2 ^ 28);;
  select_device_wait ch d;;
  outb (reg_nsect ch) 1;;
  outb (reg_lbal ch) sec_no;;
  outb (reg_lbam ch) (Z.shiftr sec_no 8);;
  outb (reg_lbah ch) (Z.shiftr sec_no 16);;
  outb (reg_device ch) (Z.lor (Z.lor (Z.lor DEV_MBS DEV_LBA) (if d =? 1 then DEV_DEV else 0)) (Z.shiftr sec_no 24)).
(** Interrupts are on, as [issue_pio_command] asserts. *)
Definition issue_pio_command (c : Z) (command : Z) : M ide unit :=
  ch ← channel_at c; modify_channel c (set_expecting true);; outb (reg_command ch) command.
Definition input_sector (ch : channel) : M ide (list Z) := insw (reg_data ch).
Definition output_sector (ch : channel) (sector : list Z) : M ide unit := outsw (reg_data ch) sector.

(** ** Interrupts *)

(** The loop of [interrupt_handler] over the channels, from [c] on. *)
Fixpoint handle_from (n : nat) (c vec_no : Z) : M ide unit :=
  match n with
  | O => lift Panic
  | S n =>
      ch ← channel_at c;
      if vec_no =? irq ch then
        if expecting_interrupt ch then inb (reg_status ch);; modify_channel c (λ ch, set_completion (completion_wait ch + 1) ch) else mret tt
      else handle_from n (c + 1) vec_no
  end.
Definition interrupt_handler (vec_no : Z) : M ide unit := handle_from (Z.to_nat CHANNEL_CNT) 0 vec_no.
(** [sema_down (&c->completion_wait)]: a thread that finds the semaphore 0 sleeps until the
    device interrupts, for ever if it does not. *)
Definition sema_down (c : Z) : M ide unit :=
  ch ← channel_at c;
  (if completion_wait ch =? 0 then
     s ← get; if interrupts (log s) then interrupt_handler (irq ch) else out_of_fuel
   else mret tt);;
  ch ← channel_at c;
  if completion_wait ch =? 0 then out_of_fuel else modify_channel c (λ ch, set_completion (completion_wait ch - 1) ch).

(** ** Reading and writing *)

Definition lock_acquire (c : Z) : M ide unit := ch ← channel_at c; assert (negb (locked ch));; modify_channel c (set_lock true).
Definition lock_release (c : Z) : M ide unit := ch ← channel_at c; assert (locked ch);; modify_channel c (set_lock false).
Definition ide_read (c d sec_no : Z) : M ide (list Z) :=
  lock_acquire c;;
  ch ← channel_at c;
  select_sector ch d sec_no;; issue_pio_command c CMD_READ_SECTOR_RETRY;; sema_down c;;
  b ← wait_while_busy ch; (if b : bool then mret tt else lift Panic);;
  buffer ← input_sector ch; lock_release c;; mret buffer.
Definition ide_write (c d sec_no : Z) (buffer : list Z) : M ide unit :=
  lock_acquire c;;
  ch ← channel_at c;
  select_sector ch d sec_no;; issue_pio_command c CMD_WRITE_SECTOR_RETRY;;
  b ← wait_while_busy ch; (if b : bool then mret tt else lift Panic);;
  output_sector ch buffer;; sema_down c;; lock_release c.

(** ** Detection and identification *)

Definition probe (ch : channel) (d : Z) : M ide bool :=
  select_device ch d;;
  outb (reg_nsect ch) 85;; outb (reg_lbal ch) 170;;
  outb (reg_nsect ch) 170;; outb (reg_lbal ch) 85;;
  outb (reg_nsect ch) 85;; outb (reg_lbal ch) 170;;
  v ← inb (reg_nsect ch);
  if v =? 85 then v ← inb (reg_lbal ch); mret (v =? 170) else mret false.
(** The loop that waits for device 1 to show its signature. *)
Fixpoint wait_signature (n : nat) (ch : channel) : M ide unit :=
  match n with
  | O => mret tt
  | S n =>
      v ← inb (reg_nsect ch);
      b ← (if v =? 1 then v ← inb (reg_lbal ch); mret (v =? 1) else mret false);
      if b : bool then mret tt else timer_msleep 10;; wait_signature n ch
  end.
Definition reset_channel (c : Z) : M ide unit :=
  ch ← channel_at c;
  present0 ← probe ch 0; present1 ← probe ch 1;
  outb (reg_ctl ch) 0;; timer_usleep 10;; outb (reg_ctl ch) CTL_SRST;; timer_usleep 10;; outb (reg_ctl ch) 0;;
  timer_msleep 150;;
  (if present0 : bool then select_device ch 0;; wait_while_busy ch;; mret tt else mret tt);;
  (if present1 : bool then select_device ch 1;; wait_signature 3000 ch;; wait_while_busy ch;; mret tt else mret tt).
Definition check_device_type (c d : Z) : M ide bool :=
  ch ← channel_at c;
  select_device ch d;;
  error ← inb (reg_error ch); lbam ← inb (reg_lbam ch); lbah ← inb (reg_lbah ch); status ← inb (reg_status ch);
  if (negb (error =? 1) && (negb (error =? 129) || (d =? 1))) || (Z.land status STA_DRDY =? 0) || negb (Z.land status STA_BSY =? 0) then
    modify_disk c d (set_is_ata false);; mret (negb (error =? 129))
  else
    modify_disk c d (set_is_ata (((lbam =? 0) && (lbah =? 0)) || ((lbam =? 60) && (lbah =? 195))));; mret true.

(** [descramble_ata_string]: the loop that swaps, from [i] on; the loop that looks
    for the last character to keep, from [size] down. *)
Fixpoint swap_pairs (n : nat) (i size : Z) (l : list Z) : outcome (list Z) :=
  match n with
  | O => NoFuel
  | S n =>
      if i + 1 <? size then
        tmp ← rd l i; x ← rd l (i + 1); l ← wr l i x; l ← wr l (i + 1) tmp; swap_pairs n (i + 2) size l
      else Done l
  end.
Fixpoint last_kept (n : nat) (size : Z) (l : list Z) : outcome Z :=
  match n with
  | O => NoFuel
  | S n =>
      if 0 <? size then c ← rd l (size - 1); if negb (c =? 0) && negb (isspace c) then Done size else last_kept n (size - 1) l
      else Done size
  end.
Definition descramble_ata_string (l : list Z) (size : Z) : outcome (list Z) :=
  l ← swap_pairs (S (Z.to_nat size)) 0 size l;
  size ← last_kept (S (Z.to_nat size)) (size - 1) l;
  wr l size 0.
Definition identify_ata_device (c d : Z) : M ide unit :=
  ch ← channel_at c;
  x ← lift (rd (disks ch) d); assert (is_ata x);;
  select_device_wait ch d;; issue_pio_command c CMD_IDENTIFY_DEVICE;; sema_down c;;
  b ← wait_while_busy ch;
  if negb b then modify_disk c d (set_is_ata false) else
  id ← input_sector ch;
  let capacity := le_value (slice 120 4 id) in
  model ← lift (descramble_ata_string (slice 20 20 id) 20); model ← lift (defined (cstr model));
  serial ← lift (descramble_ata_string (slice 54 40 id) 40); serial ← lift (defined (cstr serial));
  info ← lift (text (chars "model " ++ [34] ++ chars "%s" ++ [34] ++ chars ", serial " ++ [34] ++ chars "%s" ++ [34]) [Str (Some model); Str (Some serial)]);
  if 1024 * 1024 * 1024 `quot` 512 <=? capacity then modify_disk c d (set_is_ata false)
  else modify (add_found (disk_name x, capacity, take 127 info)).

(** [ide_init], for channel [c]. *)
Definition new_disk (c d : Z) : ata_disk := AtaDisk (chars "hd" ++ [97 + c * 2 + d]) d false.
Definition new_channel (c : Z) : channel :=
  Channel (chars "ide" ++ [48 + c]) (if c =? 0 then 496 else 368) (if c =? 0 then 14 + 32 else 15 + 32) false false 0 [new_disk c 0; new_disk c 1].
Definition identify_if_ata (c d : Z) : M ide unit :=
  ch ← channel_at c; x ← lift (rd (disks ch) d); if is_ata x then identify_ata_device c d else mret tt.
Definition init_channel (c : Z) : M ide unit :=
  modify_channel c (λ _, new_channel c);;
  reset_channel c;;
  slave ← check_device_type c 0;
  (if slave : bool then check_device_type c 1;; mret tt else mret tt);;
  identify_if_ata c 0;; identify_if_ata c 1.
Definition ide_init : M ide unit := init_channel 0;; init_channel 1.
End driver.

(** ** The disks' side *)

(** The registers of a channel, the command its selected disk is working on, and the
    sectors of its two disks. *)
Record ata := Ata { r_nsect : Z; r_lbal : Z; r_lbam : Z; r_lbah : Z; r_device : Z; working : option Z; sectors : Z → Z → list Z }.
Definition lba (a : ata) : Z := r_lbal a + 2 ^ 8 * r_lbam a + 2 ^ 16 * r_lbah a + 2 ^ 24 * field (r_device a) 0 4.
Definition selected (a : ata) : Z := field (r_device a) 4 1.
(** A disk works in LBA mode on one sector when the device register and the
    sector count say so. *)
Definition one_sector (a : ata) : bool := (r_nsect a =? 1) && (field (r_device a) 6 1 =? 1).
Definition write_reg (o v : Z) (a : ata) : ata :=
  if o =? 2 then Ata v (r_lbal a) (r_lbam a) (r_lbah a) (r_device a) (working a) (sectors a)
  else if o =? 3 then Ata (r_nsect a) v (r_lbam a) (r_lbah a) (r_device a) (working a) (sectors a)
  else if o =? 4 then Ata (r_nsect a) (r_lbal a) v (r_lbah a) (r_device a) (working a) (sectors a)
  else if o =? 5 then Ata (r_nsect a) (r_lbal a) (r_lbam a) v (r_device a) (working a) (sectors a)
  else if o =? 6 then Ata (r_nsect a) (r_lbal a) (r_lbam a) (r_lbah a) v (working a) (sectors a)
  else if o =? 7 then Ata (r_nsect a) (r_lbal a) (r_lbam a) (r_lbah a) (r_device a) (Some v) (sectors a)
  else a.
Definition store (d n : Z) (data : list Z) (f : Z → Z → list Z) : Z → Z → list Z := λ d' n', if (d' =? d) && (n' =? n) then data else f d' n'.
Definition ata_step (base : Z) (a : ata) (e : access) : ata :=
  match e with
  | Outb port v => write_reg (port - base) v a
  | Insw port _ => if port =? base then Ata (r_nsect a) (r_lbal a) (r_lbam a) (r_lbah a) (r_device a) None (sectors a) else a
  | Outsw port data =>
      if port =? base then
        Ata (r_nsect a) (r_lbal a) (r_lbam a) (r_lbah a) (r_device a) None
          (if bool_decide (working a = Some CMD_WRITE_SECTOR_RETRY) && one_sector a then store (selected a) (lba a) data (sectors a) else sectors a)
      else a
  | Inb _ _ | Slept _ => a
  end.
Definition ata_of (base : Z) (a0 : ata) (l : list access) : ata := foldl (ata_step base) a0 l.
Lemma ata_of_snoc base a0 l e : ata_of base a0 (l ++ [e]) = ata_step base (ata_of base a0 l) e.
Proof. unfold ata_of. by rewrite foldl_app. Qed.

(** ** The protocol *)

Section protocol.
Context (answer : list access → Z → Z) (transfer : list access → Z → list Z) (interrupts : list access → bool).
Context (c : Z) (base : Z) (a0 : ata).

(** The state of the disks after what has been logged. *)
Notation now s := (ata_of base a0 (log s)).
(** A wait reads registers and sleeps: it leaves the disks alone. *)
Definition quiet (s s' : ide) : Prop := now s' = now s ∧ channels s' = channels s ∧ found s' = found s.
Lemma quiet_refl s : quiet s s.
Proof. done. Qed.
Lemma quiet_trans s1 s2 s3 : quiet s1 s2 → quiet s2 s3 → quiet s1 s3.
Proof. unfold quiet. intuition congruence. Qed.
Lemma quiet_inb port s (Q : Z → ide → Prop) : (∀ v, quiet s (add_log (Inb port v) s) → Q v (add_log (Inb port v) s)) → runs (inb answer port) s Q.
Proof. intros H. unfold inb. run. apply H. unfold quiet. cbn [log add_log channels found]. by rewrite ata_of_snoc. Qed.
Lemma runs_sleep ns s (Q : unit → ide → Prop) : (quiet s (add_log (Slept ns) s) → Q tt (add_log (Slept ns) s)) → runs (sleep_ns ns) s Q.
Proof. intros H. unfold sleep_ns. run. apply H. unfold quiet. cbn [log add_log channels found]. by rewrite ata_of_snoc. Qed.
Lemma wait_until_idle_quiet ch s : runs (wait_until_idle answer ch) s (λ _ s', quiet s s').
Proof.
  unfold wait_until_idle. generalize 1000%nat. intros n. revert s. induction n as [|n IH]; intros s; cbn [wait_until_idle_loop]; [apply runs_ret, quiet_refl|].
  run. apply quiet_inb. intros v H. destruct (_ =? 0); [by run|]. run. apply runs_sleep. intros H'. eapply runs_mono; [apply IH|]. intros ? s' H2. eauto using quiet_trans.
Qed.
Lemma wait_while_busy_quiet ch s : runs (wait_while_busy answer ch) s (λ _ s', quiet s s').
Proof.
  unfold wait_while_busy. generalize 3000%nat. intros n. revert s. induction n as [|n IH]; intros s; cbn [wait_while_busy_loop]; [apply runs_ret, quiet_refl|].
  run. apply quiet_inb. intros v H. destruct (_ =? 0); [run; apply quiet_inb; intros v' H'; run; eauto using quiet_trans|].
  run. apply runs_sleep. intros H'. eapply runs_mono; [apply IH|]. intros ? s' H2. eauto using quiet_trans.
Qed.
Lemma runs_outb port v s (Q : unit → ide → Prop) : (∀ s', now s' = write_reg (port - base) (u8 v) (now s) → channels s' = channels s → found s' = found s → Q tt s') → runs (outb port v) s Q.
Proof. intros H. unfold outb. run. apply H; cbn [log add_log channels found]; [by rewrite ata_of_snoc|done..]. Qed.

(** What the registers say once a sector has been selected. *)
Lemma device_register h d : 0 ≤ h < 16 → 0 ≤ d ≤ 1 → let v := u8 (Z.lor (Z.lor (Z.lor DEV_MBS DEV_LBA) (if d =? 1 then DEV_DEV else 0)) h) in
  field v 0 4 = h ∧ field v 4 1 = d ∧ field v 6 1 = 1.
Proof.
  intros Hh Hd. assert (forallb (λ d, forallb (λ h, let v := u8 (Z.lor (Z.lor (Z.lor DEV_MBS DEV_LBA) (if d =? 1 then DEV_DEV else 0)) h) in
    (field v 0 4 =? h) && (field v 4 1 =? d) && (field v 6 1 =? 1)) (seqZ 0 16)) (seqZ 0 2) = true) as H by (vm_compute; reflexivity).
  rewrite forallb_forall in H. assert (d ∈ seqZ 0 2) as Hd2 by (apply elem_of_seqZ; lia). apply list_elem_of_In, H in Hd2. rewrite forallb_forall in Hd2.
  assert (h ∈ seqZ 0 16) as Hh2 by (apply elem_of_seqZ; lia). apply list_elem_of_In, Hd2 in Hh2. cbv zeta in *.
  apply andb_prop in Hh2 as [[H1%Z.eqb_eq H2%Z.eqb_eq]%andb_prop H3%Z.eqb_eq]. done.
Qed.
Record addressed (d n : Z) (a a' : ata) : Prop := {
  at_lba : lba a' = n; at_disk : selected a' = d; at_one : one_sector a' = true; at_sectors : sectors a' = sectors a; at_working : working a' = working a }.
Lemma select_device_spec ch d s : reg_base ch = base → runs (select_device_wait answer ch d) s (λ _ s',
  channels s' = channels s ∧ found s' = found s ∧ sectors (now s') = sectors (now s) ∧ working (now s') = working (now s)).
Proof.
  intros Hb. unfold select_device_wait, select_device. run. eapply runs_mono; [apply wait_until_idle_quiet|]. intros ? s1 (E1 & C1 & F1). run.
  apply runs_outb. intros s2 E2 C2 F2. run. apply quiet_inb. intros v (E3 & C3 & F3). run. apply runs_sleep. intros (E4 & C4 & F4).
  eapply runs_mono; [apply wait_until_idle_quiet|]. intros ? s5 (E5 & C5 & F5). replace (reg_device ch - base) with 6 in E2 by (unfold reg_device; lia). cbn [write_reg] in E2.
  rewrite E5, E4, E3, E2. cbn [write_reg Z.eqb Pos.eqb sectors working]. rewrite E1. split_and!; congruence.
Qed.
Lemma select_sector_spec ch d n s : reg_base ch = base → 0 ≤ d ≤ 1 → 0 ≤ n < 2 ^ 28 → runs (select_sector answer ch d n) s (λ _ s',
  channels s' = channels s ∧ found s' = found s ∧ addressed d n (now s) (now s')).
Proof.
  intros Hb Hd Hn. unfold select_sector. run. apply runs_assert; [lia|]. run. eapply runs_mono; [by apply select_device_spec|]. intros ? s1 (C1 & F1 & S1 & W1). run.
  apply runs_outb. intros s2 E2 C2 F2. run. apply runs_outb. intros s3 E3 C3 F3. run. apply runs_outb. intros s4 E4 C4 F4. run.
  apply runs_outb. intros s5 E5 C5 F5. apply runs_outb. intros s6 E6 C6 F6. split_and!; [congruence..|].
  unfold reg_nsect, reg_lbal, reg_lbam, reg_lbah, reg_device in *. rewrite Hb in *. rewrite !Z.add_simpl_l in *.
  rewrite E6, E5, E4, E3, E2. cbn [write_reg Z.eqb Pos.eqb r_nsect r_lbal r_lbam r_lbah r_device working sectors].
  assert (0 ≤ Z.shiftr n 24 < 16) as Hh by (rewrite Z.shiftr_div_pow2 by lia; div_lia). destruct (device_register _ d Hh Hd) as (D1 & D2 & D3).
  constructor; unfold lba, selected, one_sector; cbn [r_nsect r_lbal r_lbam r_lbah r_device working sectors]; try done.
  - rewrite D1, !Z.shiftr_div_pow2 by lia. unfold u8. div_lia.
  - by rewrite D3.
Qed.

(** Operations on the channel's structure. *)
Lemma runs_channel_at ch s (Q : channel → ide → Prop) : (channels s)@[c] = Some ch → Q ch s → runs (channel_at c) s Q.
Proof. intros Hc H. unfold channel_at. run. by rewrite (rd_Some _ _ _ Hc). Qed.
Lemma runs_modify_channel ch f s (Q : unit → ide → Prop) : (channels s)@[c] = Some ch → Q tt (set_channels (channels s)@[c := f ch] s) → runs (modify_channel c f) s Q.
Proof. intros Hc H. unfold modify_channel. run. rewrite (rd_Some _ _ _ Hc). run. rewrite wr_in by eauto with pintos. by run. Qed.
(** The other channels, as they were. *)
Definition holds (ch : channel) (s0 s : ide) : Prop := channels s = (channels s0)@[c := ch] ∧ found s = found s0.
Definition own_irq (s : ide) : Prop := ∀ c' ch ch', (channels s)@[c] = Some ch → (channels s)@[c'] = Some ch' → irq ch' = irq ch → c' = c.
Lemma holds_lookup ch s0 s : is_Some ((channels s0)@[c]) → holds ch s0 s → (channels s)@[c] = Some ch.
Proof. intros [ch0 Hc] [-> _]. by apply zlookup_insert_eq, (zlookup_bound _ _ ch0). Qed.
Lemma holds_modify ch ch' s0 s : holds ch s0 s → holds ch' s0 (set_channels (channels s)@[c := ch'] s).
Proof. intros [E F]. split; [|done]. cbn. by rewrite E, zinsert_insert. Qed.
Lemma holds_same ch s0 s s' : holds ch s0 s → channels s' = channels s → found s' = found s → holds ch s0 s'.
Proof. unfold holds. intuition congruence. Qed.

(** The handler finds the channel by its interrupt and wakes the waiting thread. *)
Lemma handle_from_spec ch s0 n : ∀ i s, is_Some ((channels s0)@[c]) → holds ch s0 s → expecting_interrupt ch = true → zlen (channels s0) = i + Z.of_nat n → 0 ≤ i ≤ c →
  (∀ c' ch', c' ≠ c → (channels s0)@[c'] = Some ch' → irq ch' ≠ irq ch) →
  runs (handle_from answer n i (irq ch)) s (λ _ s', now s' = now s ∧ holds (set_completion (completion_wait ch + 1) ch) s0 s').
Proof.
  induction n as [|n IH]; intros i s Hc Hh He Hl Hi Hirq; cbn [handle_from].
  { destruct Hc as [ch0 Hc]. apply zlookup_bound in Hc. lia. }
  destruct (decide (i = c)) as [->|Hne].
  - run. apply (runs_channel_at ch); [by eapply holds_lookup|]. rewrite Z.eqb_refl, He. run. apply quiet_inb. intros v (E & C & F).
    apply (runs_modify_channel ch); [rewrite C; by eapply holds_lookup|]. split; [done|]. eapply holds_modify, holds_same; [done|done|done].
  - assert (∃ chi, (channels s0)@[i] = Some chi) as [chi Hchi] by (apply zlookup_lt; lia).
    assert ((channels s)@[i] = Some chi) as Hi' by (destruct Hh as [-> _]; by rewrite zlookup_insert_ne by done).
    run. unfold channel_at. run. rewrite (rd_Some _ _ _ Hi'). run. destruct (Z.eqb_spec (irq ch) (irq chi)) as [E|_]; [by destruct (Hirq i chi Hne Hchi)|].
    apply IH; try done; lia.
Qed.
Lemma sema_down_spec ch s0 s : is_Some ((channels s0)@[c]) → holds ch s0 s → expecting_interrupt ch = true → completion_wait ch = 0 → zlen (channels s0) = CHANNEL_CNT →
  (∀ c' ch', c' ≠ c → (channels s0)@[c'] = Some ch' → irq ch' ≠ irq ch) → interrupts (log s) = true →
  runs (sema_down answer interrupts c) s (λ _ s', now s' = now s ∧ holds ch s0 s').
Proof.
  intros Hc Hh He Hw Hl Hirq Hi. assert (0 ≤ c < 2) as Hcr by (destruct Hc as [ch0 Hc]; apply zlookup_bound in Hc; unfold CHANNEL_CNT in Hl; lia).
  unfold sema_down. run. apply (runs_channel_at ch); [by eapply holds_lookup|]. rewrite Hw. cbn [Z.eqb]. run. rewrite Hi. unfold interrupt_handler.
  eapply runs_mono; [apply (handle_from_spec ch s0); done || (unfold CHANNEL_CNT in *; lia)|]. intros ? s1 (E & H1). run.
  apply (runs_channel_at (set_completion (completion_wait ch + 1) ch)); [by eapply holds_lookup|]. cbn [completion_wait set_completion]. rewrite Hw. cbn [Z.eqb Z.add].
  eapply runs_modify_channel; [by eapply holds_lookup|]. split; [done|]. apply (holds_modify _ ch) in H1. cbn [set_completion completion_wait]. rewrite Hw. cbn [Z.add Z.sub Z.opp Z.pos_sub].
  by destruct ch; cbn in *; subst.
Qed.

(** ** Disks that keep to the protocol *)

(** The disk clears BSY within [n] polls, and then asks for or offers data. *)
Fixpoint comes_ready (n : nat) (l : list access) : bool :=
  match n with
  | O => false
  | S n =>
      let v := u8 (answer l (base + 518)) in let l := l ++ [Inb (base + 518) v] in
      if Z.land v STA_BSY =? 0 then negb (Z.land (u8 (answer l (base + 518))) STA_DRQ =? 0) else comes_ready n (l ++ [Slept 10000000])
  end.
(** What the ATA standard says of a disk: once it has a command it comes ready within 30
    seconds; when it reads, it interrupts when the sector is there, and the transfer gives the
    sector addressed; when it writes, it interrupts after the sector has been transferred. *)
Record keeps_protocol : Prop := {
  disk_ready : ∀ l, working (ata_of base a0 l) ≠ None → comes_ready 3000 l = true;
  disk_read_interrupt : ∀ l, working (ata_of base a0 l) = Some CMD_READ_SECTOR_RETRY → interrupts l = true;
  disk_read_data : ∀ l, let a := ata_of base a0 l in working a = Some CMD_READ_SECTOR_RETRY → one_sector a = true → transfer l base = sectors a (selected a) (lba a);
  disk_write_interrupt : ∀ l data, working (ata_of base a0 l) = Some CMD_WRITE_SECTOR_RETRY → interrupts (l ++ [Outsw base data]) = true }.
Lemma wait_while_busy_ready ch s : reg_base ch = base → comes_ready 3000 (log s) = true → runs (wait_while_busy answer ch) s (λ b s', b = true ∧ quiet s s').
Proof.
  intros Hb. unfold wait_while_busy. generalize 3000%nat. intros n. revert s. induction n as [|n IH]; intros s; [done|]. cbn [comes_ready wait_while_busy_loop].
  unfold reg_alt_status, reg_ctl. rewrite Hb. intros H. unfold inb. run. cbv beta zeta. destruct (Z.land (u8 (answer (log s) (base + 518))) STA_BSY =? 0).
  - run. split; [done|]. unfold quiet. cbn [log add_log channels found]. by rewrite !ata_of_snoc.
  - run. unfold timer_msleep, sleep_ns. run. eapply runs_mono; [apply IH, H|]. intros b s' [-> Hq]. split; [done|]. eapply quiet_trans, Hq.
    unfold quiet. cbn [log add_log channels found]. by rewrite !ata_of_snoc.
Qed.

(** The channel between commands. *)
Record idle (s : ide) (ch : channel) : Prop := {
  idle_channel : (channels s)@[c] = Some ch; idle_base : reg_base ch = base; idle_lock : locked ch = false; idle_sema : completion_wait ch = 0;
  idle_count : zlen (channels s) = CHANNEL_CNT; idle_irq : ∀ c' ch', c' ≠ c → (channels s)@[c'] = Some ch' → irq ch' ≠ irq ch }.
Definition busy (ch : channel) : channel := set_expecting true (set_lock true ch).
Lemma idle_again s0 s1 ch : idle s0 ch → holds (set_lock false (busy ch)) s0 s1 → idle s1 (set_expecting true ch) ∧ found s1 = found s0.
Proof.
  intros Hi [E F]. split; [|done]. destruct Hi as [H1 H2 H3 H4 H5 H6]. replace (set_lock false (busy ch)) with (set_expecting true ch) in E by (destruct ch; cbn in *; by subst).
  constructor; try done; rewrite E.
  - by apply zlookup_insert_eq, (zlookup_bound _ _ ch).
  - by rewrite zlen_insert.
  - intros c' ch' Hne. rewrite zlookup_insert_ne by done. by apply H6.
Qed.
(** Up to the command. *)
Lemma command_spec {A} s ch d n cmd (f : channel → M ide A) Q : idle s ch → 0 ≤ d ≤ 1 → 0 ≤ n < 2 ^ 28 → is_u8 cmd →
  (∀ s', holds (busy ch) s s' → lba (now s') = n → selected (now s') = d → one_sector (now s') = true → sectors (now s') = sectors (now s) →
     working (now s') = Some cmd → runs (f (set_lock true ch)) s' Q) →
  runs (lock_acquire c;; ch ← channel_at c; select_sector answer ch d n;; issue_pio_command c cmd;; f ch) s Q.
Proof.
  intros Hi Hd Hn Hcmd HQ. unfold lock_acquire. run. apply (runs_channel_at ch); [apply Hi|]. run. apply runs_assert; [by rewrite (idle_lock _ _ Hi)|].
  apply (runs_modify_channel ch); [apply Hi|]. run. set (s1 := set_channels _ s). assert (holds (set_lock true ch) s s1) as H1 by done.
  apply (runs_channel_at (set_lock true ch)); [eapply holds_lookup, H1; rewrite (idle_channel _ _ Hi); eauto|]. run.
  eapply runs_mono; [apply select_sector_spec; [apply Hi|done..]|]. intros ? s2 (C2 & F2 & Ha). assert (holds (set_lock true ch) s s2) as H2 by (by eapply holds_same).
  assert ((channels s2)@[c] = Some (set_lock true ch)) as Hc2 by (eapply holds_lookup, H2; rewrite (idle_channel _ _ Hi); eauto).
  run. unfold issue_pio_command. run. apply (runs_channel_at _ _ _ Hc2). run. apply (runs_modify_channel _ _ _ _ Hc2). apply runs_outb. intros s3 E3 C3 F3.
  replace (reg_command (set_lock true ch) - base) with 7 in E3 by (unfold reg_command, reg_status; cbn; rewrite (idle_base _ _ Hi); lia).
  cbn [write_reg Z.eqb Pos.eqb log set_channels] in E3. destruct Ha as [A1 A2 A3 A4 A5]. unfold u8 in E3. rewrite Z.mod_small in E3 by exact Hcmd.
  apply HQ; [eapply holds_same; [by apply (holds_modify (set_lock true ch))|done|done]|by rewrite E3..].
Qed.
Lemma release_spec_ide s0 s ch : idle s0 ch → holds (busy ch) s0 s → runs (lock_release c) s (λ _ s', now s' = now s ∧ holds (set_lock false (busy ch)) s0 s').
Proof.
  intros Hi Hh. assert ((channels s)@[c] = Some (busy ch)) as Hc by (eapply holds_lookup, Hh; rewrite (idle_channel _ _ Hi); eauto).
  unfold lock_release. run. apply (runs_channel_at _ _ _ Hc). run. apply runs_assert; [done|]. apply (runs_modify_channel _ _ _ _ Hc). split; [done|]. by apply (holds_modify (busy ch)).
Qed.
Lemma ide_read_spec s ch d n : keeps_protocol → idle s ch → 0 ≤ d ≤ 1 → 0 ≤ n < 2 ^ 28 → runs (ide_read answer transfer interrupts c d n) s (λ buffer s',
  buffer = sectors (now s) d n ∧ sectors (now s') = sectors (now s) ∧ idle s' (set_expecting true ch) ∧ found s' = found s).
Proof.
  intros Hk Hi Hd Hn. unfold ide_read. apply (command_spec s ch); [done..|done|]. intros s1 H1 L1 D1 O1 S1 W1. run.
  assert (is_Some ((channels s)@[c])) as Hc by (rewrite (idle_channel _ _ Hi); eauto).
  eapply runs_mono; [apply (sema_down_spec (busy ch) s); try done; [apply Hi..|by apply Hk]|]. intros ? s2 (E2 & H2). run.
  eapply runs_mono; [apply (wait_while_busy_ready (set_lock true ch)); [apply Hi|apply Hk; by rewrite E2, W1]|]. intros b s3 (-> & E3 & C3 & F3). run.
  unfold input_sector, insw. run. replace (reg_data (set_lock true ch)) with base by (unfold reg_data; cbn; rewrite (idle_base _ _ Hi); lia).
  eapply runs_mono; [eapply release_spec_ide; [done|eapply holds_same; [done|exact C3|exact F3]]|]. intros ? s4 (E4 & H4). run.
  cbn [log add_log] in E4. rewrite ata_of_snoc in E4. cbn [ata_step] in E4. rewrite Z.eqb_refl in E4.
  split; [rewrite (disk_read_data Hk) by (by rewrite E3, E2); by rewrite E3, E2, D1, L1, S1|].
  split; [rewrite E4; cbn [sectors]; by rewrite E3, E2|]. by apply idle_again.
Qed.
Lemma ide_write_spec s ch d n data : keeps_protocol → idle s ch → 0 ≤ d ≤ 1 → 0 ≤ n < 2 ^ 28 → runs (ide_write answer interrupts c d n data) s (λ _ s',
  sectors (now s') = store d n data (sectors (now s)) ∧ idle s' (set_expecting true ch) ∧ found s' = found s).
Proof.
  intros Hk Hi Hd Hn. unfold ide_write. apply (command_spec s ch); [done..|done|]. intros s1 H1 L1 D1 O1 S1 W1. run.
  assert (is_Some ((channels s)@[c])) as Hc by (rewrite (idle_channel _ _ Hi); eauto).
  eapply runs_mono; [apply (wait_while_busy_ready (set_lock true ch)); [apply Hi|apply Hk; by rewrite W1]|]. intros b s2 (-> & E2 & C2 & F2). run.
  unfold output_sector, outsw. run. replace (reg_data (set_lock true ch)) with base by (unfold reg_data; cbn; rewrite (idle_base _ _ Hi); lia).
  eapply runs_mono; [apply (sema_down_spec (busy ch) s); try done; [by eapply holds_same|apply Hi..|apply (disk_write_interrupt Hk); by rewrite E2]|]. intros ? s3 (E3 & H3).
  eapply runs_mono; [by eapply release_spec_ide|]. intros ? s4 (E4 & H4).
  split; [|by apply idle_again]. rewrite E4, E3. cbn [log add_log]. rewrite ata_of_snoc. cbn [ata_step]. rewrite Z.eqb_refl. cbn [sectors].
  rewrite E2, W1, O1, bool_decide_eq_true_2 by done. cbn [andb]. by rewrite D1, L1, S1.
Qed.
End protocol.

(** C20 Over disks that keep to the ATA protocol the driver gives each disk of a channel as
    an array of sectors.  [ide_read] returns the sector asked for, of the disk asked for, and
    changes no sector; [ide_write] changes that sector and no other, on either
    disk; both leave the channel free for the next command.  The registers that carry
    the sector's number are written byte by byte, so this is also that the number is
    taken apart and put together again. *)
Theorem ide_is_array answer transfer interrupts c base a0 s ch d n data :
  keeps_protocol answer transfer interrupts base a0 → idle c base s ch → 0 ≤ d ≤ 1 → 0 ≤ n < 2 ^ 28 →
  let content s := sectors (ata_of base a0 (log s)) in
  runs (ide_read answer transfer interrupts c d n) s (λ buffer s', buffer = content s d n ∧ content s' = content s ∧ ∃ ch', idle c base s' ch') ∧
  runs (ide_write answer interrupts c d n data) s (λ _ s',
    (∀ d' n', content s' d' n' = if (d' =? d) && (n' =? n) then data else content s d' n') ∧ ∃ ch', idle c base s' ch').
Proof.
  intros Hk Hi Hd Hn content. split.
  - eapply runs_mono; [by apply (ide_read_spec _ _ _ _ base a0)|]. intros buffer s' (-> & E & Hi' & _). eauto.
  - eapply runs_mono; [by apply (ide_write_spec _ transfer _ _ base a0)|]. intros ? s' (E & Hi' & _). split; [|eauto]. intros d' n'. unfold content. by rewrite E.
Qed.

(** A disk that answers at once. *)
Definition empty_ata : ata := Ata 0 0 0 0 0 None (λ d n, [d; n]).
Definition demo_answer (l : list access) (port : Z) : Z := match working (ata_of 496 empty_ata l) with Some _ => 72 | None => 64 end.
Definition demo_transfer (l : list access) (port : Z) : list Z := let a := ata_of 496 empty_ata l in sectors a (selected a) (lba a).
Definition demo_ide : ide := Ide [] [new_channel 0; new_channel 1] [].
Lemma answers_at_once n l : working (ata_of 496 empty_ata l) ≠ None → comes_ready demo_answer 496 (S n) l = true.
Proof. intros H. cbn [comes_ready]. unfold demo_answer. rewrite ata_of_snoc. cbn [ata_step]. by destruct (working _). Qed.
Lemma demo_keeps_protocol : keeps_protocol demo_answer demo_transfer (λ _, true) 496 empty_ata.
Proof. constructor; try done. intros l. apply (answers_at_once 2999). Qed.
Lemma demo_idle : idle 0 496 demo_ide (new_channel 0).
Proof.
  constructor; try done. intros c' ch' Hne H. apply zlookup_bound in H as Hb. assert (c' = 1) as -> by (unfold zlen in Hb; cbn in Hb; lia). by injection H as <-.
Qed.
Lemma ide_is_array_witness : ∃ s', ide_write demo_answer (λ _, true) 0 1 17895697 [7; 8] demo_ide = Done (tt, s') ∧
  sectors (ata_of 496 empty_ata (log s')) 1 17895697 = [7; 8] ∧ sectors (ata_of 496 empty_ata (log s')) 0 17895697 = [0; 17895697].
Proof.
  destruct (ide_is_array demo_answer demo_transfer (λ _, true) 0 496 empty_ata demo_ide (new_channel 0) 1 17895697 [7; 8] demo_keeps_protocol demo_idle ltac:(lia) ltac:(lia)) as [_ H].
  apply runs_done in H as ([] & s' & E & H & _). exists s'. split; [done|]. split; [apply (H 1 17895697)|apply (H 0 17895697)].
Defined.

(** ** Where the driver falls short *)

(** The flag that an interrupt is expected is never reset: an interrupt between two commands is taken
    for the completion of the next one, which then does not wait for the disk. *)
Lemma stray_interrupt_completes : match ide_read demo_answer demo_transfer (λ _, true) 0 0 5 demo_ide with
  | Done (_, s1) =>
      ide_read demo_answer demo_transfer (λ _, false) 0 0 6 s1 = NoFuel ∧
      match interrupt_handler demo_answer 46 s1 with Done (_, s2) => rets (ide_read demo_answer demo_transfer (λ _, false) 0 0 6 s2) (λ r, r.1 = [0; 6]) | _ => False end
  | _ => False
  end.
Proof. vm_compute. done. Qed.
(** [wait_until_idle] gives up after 10 milliseconds. *)
Definition slept (l : list access) : Z := foldr (λ e n, match e with Slept ns => ns + n | _ => n end) 0 l.
Lemma idle_timeout : match wait_until_idle (λ _ _, 128) (new_channel 0) demo_ide with Done (_, s) => slept (log s) = 10 * 1000 * 1000 | _ => False end.
Proof. vm_compute. reflexivity. Qed.
(** [descramble_ata_string] overwrites the last character of a full field. *)
Lemma descramble_drops_last : descramble_ata_string (chars "badcfehgjilknmporqts") 20 = Done (chars "abcdefghijklmnopqrs" ++ [0]).
Proof. vm_compute. reflexivity. Qed.
(** A sector number of more than 28 bits stops the kernel. *)
Lemma sector_too_large answer ch d n s : 2 ^ 28 ≤ n → select_sector answer ch d n s = Panic.
Proof. intros H. unfold select_sector. destruct (Z.ltb_spec n (2 ^ 28)); [lia|done]. Qed.

(** Detection, on a machine with one disk of 2016 sectors, whose identity has the serial number
    BXHD00011 in words 10 to 19 and the model Generic 1234 in words 27 to 46, as the standard lays them
    out: the driver takes one for the other. *)
Definition one_disk_answer (l : list access) (port : Z) : Z :=
  let a := ata_of 496 empty_ata l in let o := port - 496 in
  if bool_decide (0 ≤ o < 8 ∨ o = 518) && (selected a =? 0) then
    if o =? 1 then 1 else if o =? 2 then r_nsect a else if o =? 3 then r_lbal a else if (o =? 4) || (o =? 5) then 0 else demo_answer l port
  else 255.
Definition identity (l : list access) (port : Z) : list Z :=
  replicate 20 0 ++ chars "XBDH0010 1          " ++ replicate 14 0 ++ chars "eGenir c2143" ++ replicate 28 32 ++ replicate 26 0 ++ le_bytes 4 2016 ++ replicate 388 0.
Example ide_init_finds_disk : match ide_init one_disk_answer identity (λ _, true) (Ide [] [new_channel 0; new_channel 1] []) with
  | Done (_, s) => found s = [(chars "hda", 2016, chars "model " ++ [34] ++ chars "BXHD00011" ++ [34] ++ chars ", serial " ++ [34] ++ chars "Generic 1234" ++ [34])]
  | _ => False
  end.
Proof. vm_compute. reflexivity. Qed.
