(* ===== verification/Init.v ===== *)
(** * Start-up (src/pintos/src/threads/init.c: the command line, actions and devices)

    The kernel command line is left by the loader in 128 bytes of memory, strings
    one after the other.  Its options set up a record, its actions are run in
    order; here the calls are listed, their functions are elsewhere ([fsutil] apart).  What is printed is
    left out.  [usage] and [shutdown] do not return and are [Panic]. *)

From stdpp Require Import strings.
From S2P Require Import Prelude KList Cache Inode InodeSpec Directory Stdio StdioSpec CStdlib Random Partition.

(** ** The command line *)

Definition LOADER_ARGS_LEN : Z := 128.
(** [strnlen (p, end - p)]. *)
Fixpoint arg_length (s : list Z) : Z := match s with [] => 0 | c :: s => if c =? 0 then 0 else 1 + arg_length s end.
(** The loop over the arguments, with the memory from [p] on; [argv] has room for
    65 pointers. *)
Fixpoint collect (n : nat) (i : Z) (p : list Z) : outcome (list (list Z)) :=
  match n with
  | O => Done []
  | S n =>
      if bool_decide (p = []) then Panic else
      if LOADER_ARGS_LEN `div` 2 + 1 <=? i then Undef else
      let len := arg_length p in
      rest ← collect n (i + 1) (drop (Z.to_nat (len + 1)) p);
      Done (take (Z.to_nat (len + 1)) p :: rest)
  end.
(** [argv[argc] = NULL], and the strings are read to print them: the last one may lack
    its end. *)
Definition read_command_line (argc : Z) (args : list Z) : outcome (list (list Z)) :=
  l ← collect (Z.to_nat argc) 0 args;
  if (argc <? 0) || (LOADER_ARGS_LEN `div` 2 + 1 <=? argc) then Undef else
  mapM (λ s, defined (cstr s)) l.

(** ** Options *)

Inductive shutdown_type : Type := SHUTDOWN_NONE | SHUTDOWN_POWER_OFF | SHUTDOWN_REBOOT.
Record options := { how : shutdown_type; format_filesys : bool; filesys_bdev_name : option (list Z); scratch_bdev_name : option (list Z); swap_bdev_name : option (list Z); rng : prng; thread_mlfqs : bool; user_page_limit : Z }.
Definition shutdown_configure (t : shutdown_type) (o : options) : options :=
  {| how := t; format_filesys := format_filesys o; filesys_bdev_name := filesys_bdev_name o; scratch_bdev_name := scratch_bdev_name o; swap_bdev_name := swap_bdev_name o; rng := rng o; thread_mlfqs := thread_mlfqs o; user_page_limit := user_page_limit o |}.
Definition shutdown (o : options) : outcome unit := match how o with SHUTDOWN_NONE => Done tt | _ => Panic end.
Definition set_rng (g : prng) (o : options) : options :=
  {| how := how o; format_filesys := format_filesys o; filesys_bdev_name := filesys_bdev_name o; scratch_bdev_name := scratch_bdev_name o; swap_bdev_name := swap_bdev_name o; rng := g; thread_mlfqs := thread_mlfqs o; user_page_limit := user_page_limit o |}.
(** An option with its value: [usage] powers off. *)
Definition one_option (n : list Z) (value : option (list Z)) (o : options) : outcome options :=
  let opt s := bool_decide (n = chars s) in
  if opt "-h" then Panic
  else if opt "-q" then Done (shutdown_configure SHUTDOWN_POWER_OFF o)
  else if opt "-r" then Done (shutdown_configure SHUTDOWN_REBOOT o)
  else if opt "-f" then Done {| how := how o; format_filesys := true; filesys_bdev_name := filesys_bdev_name o; scratch_bdev_name := scratch_bdev_name o; swap_bdev_name := swap_bdev_name o; rng := rng o; thread_mlfqs := thread_mlfqs o; user_page_limit := user_page_limit o |}
  else if opt "-filesys" then Done {| how := how o; format_filesys := format_filesys o; filesys_bdev_name := value; scratch_bdev_name := scratch_bdev_name o; swap_bdev_name := swap_bdev_name o; rng := rng o; thread_mlfqs := thread_mlfqs o; user_page_limit := user_page_limit o |}
  else if opt "-scratch" then Done {| how := how o; format_filesys := format_filesys o; filesys_bdev_name := filesys_bdev_name o; scratch_bdev_name := value; swap_bdev_name := swap_bdev_name o; rng := rng o; thread_mlfqs := thread_mlfqs o; user_page_limit := user_page_limit o |}
  else if opt "-swap" then Done {| how := how o; format_filesys := format_filesys o; filesys_bdev_name := filesys_bdev_name o; scratch_bdev_name := scratch_bdev_name o; swap_bdev_name := value; rng := rng o; thread_mlfqs := thread_mlfqs o; user_page_limit := user_page_limit o |}
  else if opt "-rs" then v ← defined value; seed ← atoi v; g ← random_init (u32 seed); Done (set_rng g o)
  else if opt "-mlfqs" then Done {| how := how o; format_filesys := format_filesys o; filesys_bdev_name := filesys_bdev_name o; scratch_bdev_name := scratch_bdev_name o; swap_bdev_name := swap_bdev_name o; rng := rng o; thread_mlfqs := true; user_page_limit := user_page_limit o |}
  else if opt "-ul" then v ← defined value; n ← atoi v; Done {| how := how o; format_filesys := format_filesys o; filesys_bdev_name := filesys_bdev_name o; scratch_bdev_name := scratch_bdev_name o; swap_bdev_name := swap_bdev_name o; rng := rng o; thread_mlfqs := thread_mlfqs o; user_page_limit := u32 n |}
  else Panic.
Definition is_option (arg : list Z) : bool := bool_decide (take 1 arg = [45]).
Fixpoint option_loop (argv : list (list Z)) (o : options) : outcome (list (list Z) * options) :=
  match argv with
  | arg :: rest =>
      if is_option arg then
        let '(n, save) := strtok_r (chars "=") arg in
        let '(value, _) := strtok_r [] save in
        n ← defined n; o ← one_option n value o; option_loop rest o
      else Done (argv, o)
  | [] => Done ([], o)
  end.
(** [time] is what [rtc_get_time] returns. *)
Definition parse_options (time : Z) (argv : list (list Z)) (o : options) : outcome (list (list Z) * options) :=
  '(argv, o) ← option_loop argv o;
  g ← random_init time;
  Done (argv, set_rng g o).

(** ** Actions *)

Inductive action : Type := Run (task : list Z) | Ls | Cat (file : list Z) | Rm (file : list Z) | Extract | Append (file : list Z).
(** The name of an action, the number of its words, and its call. *)
Definition actions : list (string * Z * (list (list Z) → action)) :=
  let arg1 l := default [] (l !! 1%nat) in
  [("run", 2, λ l, Run (arg1 l)); ("ls", 1, λ _, Ls); ("cat", 2, λ l, Cat (arg1 l)); ("rm", 2, λ l, Rm (arg1 l)); ("extract", 1, λ _, Extract); ("append", 2, λ l, Append (arg1 l))]%string.
Fixpoint find_action (n : list Z) (l : list (string * Z * (list (list Z) → action))) : outcome (Z * (list (list Z) → action)) :=
  match l with
  | [] => Panic
  | (s, argc, f) :: l => if bool_decide (n = chars s) then Done (argc, f) else find_action n l
  end.
Fixpoint run_actions (fuel : nat) (argv : list (list Z)) : outcome (list action) :=
  match fuel with
  | O => NoFuel
  | S fuel =>
      match argv with
      | [] => Done []
      | n :: _ =>
          '(argc, f) ← find_action n actions;
          if zlen argv <? argc then Panic else
          rest ← run_actions fuel (drop (Z.to_nat argc) argv);
          Done (f argv :: rest)
      end
  end.

(** ** Devices *)

(** The first device of the type, from [b] on in probe order. *)
Fixpoint first_of_type (role : block_type) (b : Z) (l : list device) : option Z :=
  match l with [] => None | d :: l => if bool_decide (dtype d = role) then Some b else first_of_type role (b + 1) l end.
Definition locate_block_device (role : block_type) (n : option (list Z)) : M devices unit :=
  s ← get;
  b ← match n with
      | Some n => match block_get_by_name s n with Some b => mret (Some b) | None => lift Panic end
      | None => mret (first_of_type role 0 (all_blocks s))
      end;
  match b with Some b => block_set_role role (Some b) | None => mret tt end.
Definition locate_block_devices (o : options) : M devices unit :=
  locate_block_device BLOCK_FILESYS (filesys_bdev_name o);;
  locate_block_device BLOCK_SCRATCH (scratch_bdev_name o);;
  locate_block_device BLOCK_SWAP (swap_bdev_name o).

(** ** Theorems *)

Definition is_arg (s : list Z) : Prop := s ≠ [] ∧ Forall (λ c, 0 < c) s.
(** What the loader leaves for these arguments. *)
Definition command_line (args : list (list Z)) : list Z := concat ((λ s, s ++ [0]) <$> args).
Lemma arg_length_app s r : Forall (λ c, 0 < c) s → arg_length ((s ++ [0]) ++ r) = zlen s.
Proof.
  induction 1 as [|c s Hc Hs IH]; [done|]. cbn [app arg_length]. destruct (Z.eqb_spec c 0); [lia|]. rewrite IH, zlen_cons. done.
Qed.
Lemma arg_terminated s : Forall (λ c, 0 < c) s → cstr (s ++ [0]) = Some s.
Proof. induction 1 as [|c s Hc Hs IH]; [done|]. cbn [app cstr]. destruct (Z.eqb_spec c 0); [lia|]. by rewrite IH. Qed.
Lemma collect_args args : ∀ i pad, Forall is_arg args → i + zlen args ≤ 65 → collect (length args) i (command_line args ++ pad) = Done ((λ s, s ++ [0]) <$> args).
Proof.
  induction args as [|s args IH]; intros i pad Ha Hi; [done|]. apply Forall_cons_1 in Ha as [[Hne Hs] Ha]. rewrite zlen_cons in Hi. pose proof (zlen_nonneg args). cbn [length collect].
  change (command_line (s :: args)) with ((s ++ [0]) ++ command_line args). rewrite <- app_assoc. rewrite bool_decide_false by (by destruct s). change (LOADER_ARGS_LEN `div` 2 + 1) with 65. destruct (Z.leb_spec 65 i); [lia|].
  rewrite arg_length_app by done. assert (Z.to_nat (zlen s + 1) = length (s ++ [0])) as -> by (rewrite length_app; unfold zlen; cbn; lia). rewrite drop_app_length, take_app_length. by rewrite IH by (done || lia).
Qed.
(** Reading the command line gives back the arguments that the loader wrote, as
    long as they fit. *)
Theorem command_line_roundtrip args pad : Forall is_arg args → zlen (command_line args ++ pad) = LOADER_ARGS_LEN → read_command_line (zlen args) (command_line args ++ pad) = Done args.
Proof.
  intros Ha Hl. assert (2 * zlen args ≤ zlen (command_line args)) as Hn.
  { clear Hl. induction Ha as [|s args [Hne Hs] Ha IH]; [done|]. change (command_line (s :: args)) with ((s ++ [0]) ++ command_line args). rewrite zlen_cons, !zlen_app. change (zlen [0]) with 1. destruct s as [|c s]; [done|]. rewrite zlen_cons. pose proof (zlen_nonneg s). lia. }
  rewrite zlen_app in Hl. unfold LOADER_ARGS_LEN in Hl. pose proof (zlen_nonneg pad). pose proof (zlen_nonneg args). unfold read_command_line. assert (Z.to_nat (zlen args) = length args) as -> by (unfold zlen; lia).
  rewrite (collect_args args 0 pad Ha) by lia. cbn [mbind outcome_bind]. change (LOADER_ARGS_LEN `div` 2 + 1) with 65. destruct (Z.ltb_spec (zlen args) 0), (Z.leb_spec 65 (zlen args)); try lia. cbn [orb].
  clear -Ha. induction Ha as [|s args [_ Hs] Ha IH]; [done|]. rewrite fmap_cons. cbn [mapM]. rewrite arg_terminated by done. cbn [defined mbind outcome_bind]. by rewrite IH.
Qed.
(** The seed of the option -rs is not used: the generator is initialised again
    with the time. *)
Lemma seed_option_ignored time argv o argv' o' : parse_options time argv o = Done (argv', o') → random_init time = Done (rng o').
Proof.
  unfold parse_options. destruct (option_loop argv o) as [[a o1]| | |]; [|done..]. cbn [mbind outcome_bind]. destruct (random_init time) as [g| | |]; [|done..]. cbn. by intros [= _ <-].
Qed.
(** The options end at the first word that does not start with a dash, and the
    rest is left for the actions. *)
Lemma option_loop_suffix argv : ∀ o argv' o', option_loop argv o = Done (argv', o') → ∃ opts, argv = opts ++ argv' ∧ Forall (λ s, is_option s = true) opts ∧ match argv' with [] => True | s :: _ => is_option s = false end.
Proof.
  induction argv as [|arg argv IH]; intros o argv' o' H; cbn [option_loop] in H; [injection H as <- <-; by exists []|]. destruct (is_option arg) eqn:E; [|injection H as <- <-; by exists []].
  destruct (strtok_r (chars "=") arg) as [n save]. destruct (strtok_r [] save) as [value _]. apply bind_done in H as (n' & _ & H). apply bind_done in H as (o1 & _ & H).
  apply IH in H as (opts & -> & H1 & H2). exists (arg :: opts). split_and!; [done|by constructor|done].
Qed.

(** The words of an action. *)
Definition words (a : action) : list (list Z) :=
  match a with Run t => [chars "run"; t] | Ls => [chars "ls"] | Cat f => [chars "cat"; f] | Rm f => [chars "rm"; f] | Extract => [chars "extract"] | Append f => [chars "append"; f] end.
(** The actions of the command line are run in order, each with its argument:
    the words of any sequence of actions, whatever their arguments are, are read as that
    sequence. *)
Theorem actions_roundtrip acts : run_actions (S (length acts)) (concat (words <$> acts)) = Done acts.
Proof.
  induction acts as [|a acts IH]; [done|]. change (concat (words <$> a :: acts)) with (words a ++ concat (words <$> acts)). set (rest := concat (words <$> acts)) in *. cbn [length]. set (n := S (length acts)) in *. clearbody n.
  assert (∀ k, zlen (words a ++ rest) <? Z.of_nat (length (words a)) - Z.of_nat k = false) as Hl by (intros k; rewrite zlen_app; pose proof (zlen_nonneg rest); unfold zlen; apply Z.ltb_ge; lia). specialize (Hl 0%nat).
  destruct a; cbn [words app length] in *; cbn [run_actions]; (match goal with |- context [find_action ?n ?l] => let r := eval vm_compute in (find_action n l) in change (find_action n l) with r end); cbn [mbind outcome_bind];
    match goal with |- context [zlen ?l <? ?n] => replace (zlen l <? n) with false by (symmetry; exact Hl) end; match goal with |- context [drop ?k ?l] => change (drop k l) with rest end; by rewrite IH.
Qed.
(** A wrong name stops the kernel before anything after it is run, and a missing
    argument too. *)
Lemma unknown_action_stops n argv fuel : Forall (λ a, n ≠ chars a.1.1) actions → run_actions (S fuel) (n :: argv) = Panic.
Proof.
  intros H. cbn [run_actions]. assert (∀ l, Forall (λ a : string * Z * (list (list Z) → action), n ≠ chars a.1.1) l → find_action n l = Panic) as Hf; [|by rewrite (Hf actions H)].
  induction 1 as [|[[s argc] f] l Hn _ IH]; [done|]. cbn [find_action]. by rewrite bool_decide_false.
Qed.
Lemma missing_argument_stops fuel : run_actions (S fuel) [chars "run"] = Panic.
Proof. reflexivity. Qed.

(** *** Roles *)

Lemma first_of_type_spec role l : ∀ b0, match first_of_type role b0 l with
  | Some b => b0 ≤ b ∧ (∃ d, l@[b - b0] = Some d ∧ dtype d = role) ∧ ∀ j d, 0 ≤ j < b - b0 → l@[j] = Some d → dtype d ≠ role
  | None => Forall (λ d, dtype d ≠ role) l end.
Proof.
  induction l as [|d l IH]; intros b0; cbn [first_of_type]; [constructor|]. case_bool_decide as Hd.
  - split_and!; [lia|exists d; by rewrite Z.sub_diag|lia].
  - specialize (IH (b0 + 1)). destruct (first_of_type role (b0 + 1) l) as [b|]; [|by constructor]. destruct IH as (H1 & (d' & H2 & H3) & H4). change (d :: l) with ([d] ++ l). split_and!; [lia| |].
    + exists d'. rewrite zlookup_app. change (zlen [d]) with 1. destruct (Z.ltb_spec (b - b0) 1); [lia|]. by replace (b - b0 - 1) with (b - (b0 + 1)) by lia.
    + intros j d1 Hj E. rewrite zlookup_app in E. change (zlen [d]) with 1 in E. destruct (Z.ltb_spec j 1); [|by apply (H4 (j - 1) d1); [lia|]]. assert (j = 0) as -> by lia. by injection E as <-.
Qed.
(** Without a name, a role goes to the first device of its type, if there is one. *)
Theorem default_device role s : role_number role < BLOCK_ROLE_CNT → zlen (block_by_role s) = BLOCK_ROLE_CNT →
  runs (locate_block_device role None) s (λ _ s', all_blocks s' = all_blocks s ∧ disks s' = disks s ∧ 
    match first_of_type role 0 (all_blocks s) with
    | Some b => block_by_role s' = (block_by_role s)@[role_number role := Some b]
    | None => block_by_role s' = block_by_role s
    end).
Proof.
  intros Hr Hl. unfold locate_block_device. run. destruct (first_of_type role 0 (all_blocks s)) as [b|]; run; [|done]. unfold block_set_role. run. apply runs_assert; [by apply Z.ltb_lt|]. run. rewrite wr_in by (split; [by destruct role|lia]). by run.
Qed.
