(* ===== verification/Vm.v ===== *)
(** * Virtual memory (src/pintos/src/vm/page.c, frame.c, swap.c; is_stack and
    page_fault of userprog/exception.c)

    A [struct page] is at an address in [pages]; a [struct frame] is an element
    of the frame table and a pointer to it its position; [ram] has the contents
    of the kernel pages behind the frames.  The supplemental page table of a
    thread maps the address of a user page to its [struct page] (hash.c is such
    a map, see KHash.v); a page directory maps it to an entry, of which the
    kernel page and the bits P, W, A and D matter (Pagedir.v).  A file is named
    by its inode, and is its bytes (InodeFile.v).

    A call runs alone: [frame_lock], [swap_lock] and [filesys_lock] only order
    the calls of different threads.  [DEBUG] prints nothing, [TRACE_ON] and
    [SWAP_ON] being false. *)

From S2P Require Import Prelude Bitmap KList Vaddr Cache Inode.

Definition PAGE_BLOCKS : Z := PGSIZE `div` BLOCK_SECTOR_SIZE.
Definition STACK_SIZE : Z := 8 * 1024 * 1024.
Definition MAP_FAILED : Z := -1.
Definition PAGE_STRUCT_SIZE : Z := 52.
Definition MMAP_STRUCT_SIZE : Z := 24.

(** [struct frame]. *)
Record frame : Type := Frame { kpage : Z; vpage : Z; pinned : bool }.
(** [struct page]; [p_frame] is the position of the frame. *)
Record page : Type := Page {
  vaddr : Z; p_frame : option Z; p_thread : Z; private : bool; dirty : bool;
  p_file : Z; file_ofs : Z; read_bytes : Z; zero_bytes : Z; p_writable : bool;
  mmap_id : Z; swap_slot : Z }.
(** A page table entry. *)
Record pte : Type := Pte { pte_page : Z; pte_writable : bool; pte_present : bool; pte_accessed : bool; pte_dirty : bool }.
(** [struct mmap]. *)
Record mmap : Type := Mmap { m_id : Z; m_file : Z; m_vaddr : Z; m_length : Z }.
(** [clock_hand] is [None] at the end of the table. *)
Record vm : Type := Vm {
  frame_table : list frame; clock_hand : option Z; pages : gmap Z page;
  supplemental_pages : gmap (Z * Z) Z; pagedirs : gmap (Z * Z) pte; ram : Z → list Z;
  swap_device : block; swap_bitmap : bitmap; files : Z → list Z;
  mmap_list : list mmap; current : Z; stack_pointer : Z }.

Definition set_frames (l : list frame) (s : vm) : vm := Vm l (clock_hand s) (pages s) (supplemental_pages s) (pagedirs s) (ram s) (swap_device s) (swap_bitmap s) (files s) (mmap_list s) (current s) (stack_pointer s).
Definition set_hand (h : option Z) (s : vm) : vm := Vm (frame_table s) h (pages s) (supplemental_pages s) (pagedirs s) (ram s) (swap_device s) (swap_bitmap s) (files s) (mmap_list s) (current s) (stack_pointer s).
Definition set_pages (m : gmap Z page) (s : vm) : vm := Vm (frame_table s) (clock_hand s) m (supplemental_pages s) (pagedirs s) (ram s) (swap_device s) (swap_bitmap s) (files s) (mmap_list s) (current s) (stack_pointer s).
Definition set_supp (m : gmap (Z * Z) Z) (s : vm) : vm := Vm (frame_table s) (clock_hand s) (pages s) m (pagedirs s) (ram s) (swap_device s) (swap_bitmap s) (files s) (mmap_list s) (current s) (stack_pointer s).
Definition set_pagedirs (m : gmap (Z * Z) pte) (s : vm) : vm := Vm (frame_table s) (clock_hand s) (pages s) (supplemental_pages s) m (ram s) (swap_device s) (swap_bitmap s) (files s) (mmap_list s) (current s) (stack_pointer s).
Definition set_ram (m : Z → list Z) (s : vm) : vm := Vm (frame_table s) (clock_hand s) (pages s) (supplemental_pages s) (pagedirs s) m (swap_device s) (swap_bitmap s) (files s) (mmap_list s) (current s) (stack_pointer s).
Definition set_swap (d : block) (b : bitmap) (s : vm) : vm := Vm (frame_table s) (clock_hand s) (pages s) (supplemental_pages s) (pagedirs s) (ram s) d b (files s) (mmap_list s) (current s) (stack_pointer s).
Definition set_files (m : Z → list Z) (s : vm) : vm := Vm (frame_table s) (clock_hand s) (pages s) (supplemental_pages s) (pagedirs s) (ram s) (swap_device s) (swap_bitmap s) m (mmap_list s) (current s) (stack_pointer s).
Definition set_mmaps (l : list mmap) (s : vm) : vm := Vm (frame_table s) (clock_hand s) (pages s) (supplemental_pages s) (pagedirs s) (ram s) (swap_device s) (swap_bitmap s) (files s) l (current s) (stack_pointer s).

Definition set_vpage (p : Z) (f : frame) : frame := Frame (kpage f) p (pinned f).
Definition set_pinned (b : bool) (f : frame) : frame := Frame (kpage f) (vpage f) b.
Definition set_frame (f : option Z) (p : page) : page := Page (vaddr p) f (p_thread p) (private p) (dirty p) (p_file p) (file_ofs p) (read_bytes p) (zero_bytes p) (p_writable p) (mmap_id p) (swap_slot p).
Definition set_dirty (b : bool) (p : page) : page := Page (vaddr p) (p_frame p) (p_thread p) (private p) b (p_file p) (file_ofs p) (read_bytes p) (zero_bytes p) (p_writable p) (mmap_id p) (swap_slot p).
Definition set_slot (b : bool) (slot : Z) (p : page) : page := Page (vaddr p) (p_frame p) (p_thread p) b (dirty p) (p_file p) (file_ofs p) (read_bytes p) (zero_bytes p) (p_writable p) (mmap_id p) slot.
Definition set_source (f ofs rb zb id : Z) (p : page) : page := Page (vaddr p) (p_frame p) (p_thread p) (private p) (dirty p) f ofs rb zb (p_writable p) id (swap_slot p).

Abbreviation V := (M vm).
Definition frame_at (f : Z) : V frame := s ← get; lift (rd (frame_table s) f).
Definition modify_frame (f : Z) (g : frame → frame) : V unit :=
  s ← get; x ← lift (rd (frame_table s) f); l ← lift (wr (frame_table s) f (g x)); put (set_frames l s).
Definition page_at (p : Z) : V page := s ← get; lift (defined (pages s !! p)).
Definition modify_page (p : Z) (g : page → page) : V unit := x ← page_at p; modify (λ s, set_pages (<[p := g x]> (pages s)) s).
(** A pointer that is followed. *)
Definition frame_of (x : page) : V Z := lift (defined (p_frame x)).
Definition on_swap {A} (m : M block A) : V A := λ s,
  match m (swap_device s) with
  | Done (a, d) => Done (a, set_swap d (swap_bitmap s) s)
  | Panic => Panic | Undef => Undef | NoFuel => NoFuel
  end.
Definition copy_to_frame (k ofs : Z) (bytes : list Z) : V unit := modify (λ s, set_ram (supd (ram s) k (overwrite ofs bytes (ram s k))) s).

(** ** Page directories, as far as the calls here use them *)

Definition entry_at (t v : Z) : V (option pte) := s ← get; mret (pagedirs s !! (t, v)).
Definition set_entry (t v : Z) (e : pte) : V unit := modify (λ s, set_pagedirs (<[(t, v) := e]> (pagedirs s)) s).
Definition pagedir_get_page (t v : Z) : V Z :=
  e ← entry_at t v;
  match e with Some e => mret (if pte_present e then pte_page e + pg_ofs v else NULL) | None => mret NULL end.
Definition pagedir_clear_page (t v : Z) : V unit :=
  e ← entry_at t v;
  match e with
  | Some e => if pte_present e then set_entry t v (Pte (pte_page e) (pte_writable e) false (pte_accessed e) (pte_dirty e)) else mret tt
  | None => mret tt
  end.
Definition pagedir_is_dirty (t v : Z) : V bool := e ← entry_at t v; mret (from_option pte_dirty false e).
Definition pagedir_is_accessed (t v : Z) : V bool := e ← entry_at t v; mret (from_option pte_accessed false e).
Definition pagedir_set_dirty (t v : Z) (b : bool) : V unit :=
  e ← entry_at t v;
  match e with Some e => set_entry t v (Pte (pte_page e) (pte_writable e) (pte_present e) (pte_accessed e) b) | None => mret tt end.
Definition pagedir_set_accessed (t v : Z) (b : bool) : V unit :=
  e ← entry_at t v;
  match e with Some e => set_entry t v (Pte (pte_page e) (pte_writable e) (pte_present e) b (pte_dirty e)) | None => mret tt end.

(** ** swap.c *)

Definition swap_init (device : option block) (map : option bitmap) (s : vm) : outcome vm :=
  match device, map with
  | Some d, Some b => Done (set_swap d b s)
  | _, _ => Panic
  end.

(** The loops over the blocks of a page, [n] turns left. *)
Fixpoint swap_read (n : nat) (slot k i : Z) : V unit :=
  match n with
  | O => mret tt
  | S n => d ← on_swap (block_read (u32 (slot + i))); copy_to_frame k (i * BLOCK_SECTOR_SIZE) d;; swap_read n slot k (i + 1)
  end.
Fixpoint swap_write (n : nat) (slot k i : Z) : V unit :=
  match n with
  | O => mret tt
  | S n => s ← get; on_swap (block_write (u32 (slot + i)) (slice (i * BLOCK_SECTOR_SIZE) BLOCK_SECTOR_SIZE (ram s k)));; swap_write n slot k (i + 1)
  end.
Definition set_swap_bits (slot : Z) (b : bool) : V unit :=
  s ← get; m ← lift (bitmap_set_multiple (swap_bitmap s) slot PAGE_BLOCKS b); put (set_swap (swap_device s) m s).
Definition assert_swapped (slot : Z) : V unit := s ← get; a ← lift (bitmap_all (swap_bitmap s) slot PAGE_BLOCKS); assert a.

Definition swap_in (p : Z) : V unit :=
  assert (negb (p =? NULL));;
  x ← page_at p;
  assert (private x);;
  assert (negb (swap_slot x =? BITMAP_ERROR));;
  assert_swapped (swap_slot x);;
  assert (bool_decide (is_Some (p_frame x)));;
  f ← frame_of x;
  modify_frame f (set_pinned true);;
  fr ← frame_at f;
  swap_read (Z.to_nat PAGE_BLOCKS) (swap_slot x) (kpage fr) 0;;
  modify_frame f (set_pinned false);;
  set_swap_bits (swap_slot x) false;;
  modify_page p (set_slot false NO_SECTOR).

Definition swap_out (p : Z) : V Z :=
  s ← get;
  '(swap_idx, m) ← lift (bitmap_scan_and_flip (swap_bitmap s) 0 PAGE_BLOCKS false);
  put (set_swap (swap_device s) m s);;
  (if negb (swap_idx =? BITMAP_ERROR) then
     x ← page_at p;
     f ← frame_of x;
     modify_frame f (set_pinned true);;
     fr ← frame_at f;
     swap_write (Z.to_nat PAGE_BLOCKS) swap_idx (kpage fr) 0;;
     modify_frame f (set_pinned false);;
     modify_page p (set_slot true swap_idx);;
     modify_page p (set_frame None)
   else mret tt);;
  mret swap_idx.

Definition swap_clear (p : Z) : V unit :=
  x ← page_at p;
  assert (private x);;
  assert_swapped (swap_slot x);;
  set_swap_bits (swap_slot x) false.

Section vm.
(** Whether [malloc] and the allocation of a page table succeed, the address of
    a new [struct page], and the files that may not be written. *)
Context (alloc : Z → bool) (pt_alloc : Z → Z → bool) (pick : gmap Z page → Z) (deny : Z → bool).

Definition pagedir_set_page (t v k : Z) (writable : bool) : V bool :=
  e ← entry_at t v;
  if negb (bool_decide (is_Some e)) && negb (pt_alloc t v) then mret false else
  assert (negb (from_option pte_present false e));;
  set_entry t v (Pte k writable true false false);;
  mret true.

(** [file_write_at (file, uaddr, size, ofs)]: the bytes come from the user page
    of the current thread. *)
Definition file_write_at (file uaddr size ofs : Z) : V Z :=
  s ← get;
  if deny file then mret 0 else
  k ← pagedir_get_page (current s) uaddr;
  if k =? NULL then undefined else
  put (set_files (supd (files s) file (overwrite ofs (slice 0 size (ram s k)) (files s file))) s);;
  mret size.

(** ** page.c: the supplemental page table *)

Definition page_lookup (t v : Z) : V Z := s ← get; mret (default NULL (supplemental_pages s !! (t, v))).
Definition page_alloc (va : Z) (writable : bool) : V Z :=
  s ← get;
  let t := current s in
  let page_vaddr := pg_round_down va in
  p ← page_lookup t page_vaddr;
  if negb (p =? NULL) then mret p else
  if negb (alloc PAGE_STRUCT_SIZE) then mret NULL else
  let p := pick (pages s) in
  let x := Page page_vaddr None t false false NULL 0 0 0 writable MAP_FAILED NO_SECTOR in
  put (set_supp (<[(t, page_vaddr) := p]> (supplemental_pages s)) (set_pages (<[p := x]> (pages s)) s));;
  mret p.

Definition page_is_accessed (p : Z) : V bool := x ← page_at p; pagedir_is_accessed (p_thread x) (vaddr x).
Definition page_set_accessed (p : Z) (b : bool) : V unit := x ← page_at p; pagedir_set_accessed (p_thread x) (vaddr x) b.
Definition page_is_dirty (p : Z) : V bool := x ← page_at p; pagedir_is_dirty (p_thread x) (vaddr x).

Definition page_out (p : Z) : V bool :=
  x ← page_at p;
  assert (bool_decide (is_Some (p_frame x)));;
  assert (negb (private x));;
  s ← get;
  let t := current s in
  d ← page_is_dirty p;
  modify_page p (set_dirty (dirty x || d));;
  success ← (
    if dirty x || d then
      if p_file x =? NULL then swap_out p;; mret true
      else if mmap_id x =? MAP_FAILED then swap_out p;; mret true
      else
        n ← file_write_at (p_file x) (vaddr x) (read_bytes x) (file_ofs x);
        if negb (n =? read_bytes x) then mret false
        else pagedir_set_dirty t (vaddr x) false;; modify_page p (set_dirty false);; mret true
    else mret true);
  if success : bool then pagedir_clear_page t (vaddr x);; modify_page p (set_frame None);; mret true
  else mret false.

(** ** frame.c *)

(** The pages of the user pool, and whether [malloc] gives a [struct frame] for each. *)
Definition frame_init (pool : list Z) (s : vm) : outcome vm :=
  if forallb (λ _, alloc 20) pool then Done (set_hand None (set_frames ((λ k, Frame k NULL false) <$> pool) s)) else Panic.

(** The loop of [frame_alloc], [n] frames left from [f] on. *)
Fixpoint free_frame (n : nat) (f p : Z) : V (option Z) :=
  match n with
  | O => mret None
  | S n => fr ← frame_at f; if vpage fr =? NULL then modify_frame f (set_vpage p);; mret (Some f) else free_frame n (f + 1) p
  end.
(** The [for] loop of [frame_victim], [n] frames left from [f] on. *)
Fixpoint clock_pass (n : nat) (f : Z) : V (option Z) :=
  match n with
  | O => mret None
  | S n =>
      s ← get;
      fr ← frame_at f;
      mine ← (if pinned fr then mret false else x ← page_at (vpage fr); mret (p_thread x =? current s));
      if mine : bool then
        a ← page_is_accessed (vpage fr);
        if a : bool then page_set_accessed (vpage fr) false;; clock_pass n (f + 1)
        else modify (set_hand (Some f));; mret (Some f)
      else clock_pass n (f + 1)
  end.
Definition clock_from : V (option Z) :=
  s ← get;
  match clock_hand s with
  | Some f => clock_pass (Z.to_nat (zlen (frame_table s) - f)) f
  | None => mret None
  end.
(** [while (!found)], [fuel] passes left. *)
Fixpoint clock_loop (fuel : nat) : V Z :=
  match fuel with
  | O => out_of_fuel
  | S fuel =>
      r ← clock_from;
      match r with
      | Some f => mret f
      | None => modify (λ s, set_hand (if bool_decide (frame_table s = []) then None else Some 0) s);; clock_loop fuel
      end
  end.
(** The rest of a pass, a pass that clears the accessed bits, and one that finds a frame. *)
Definition frame_victim (p : Z) : V Z :=
  f ← clock_loop 3;
  modify_frame f (set_pinned true);;
  fr ← frame_at f;
  page_out (vpage fr);;
  modify_frame f (set_pinned false);;
  modify_frame f (set_vpage p);;
  mret f.
Definition frame_alloc (p : Z) : V Z :=
  s ← get;
  r ← free_frame (length (frame_table s)) 0 p;
  match r with Some f => mret f | None => frame_victim p end.
Definition frame_release (f : Z) : V unit := modify_frame f (set_vpage NULL).

(** ** page.c: pages in and out of memory *)

Definition is_stack (fault_addr esp : Z) : bool :=
  if PHYS_BASE <? fault_addr then false
  else (PHYS_BASE - STACK_SIZE <? fault_addr)
       && ((esp <=? fault_addr) || (fault_addr =? u32 (esp - 32)) || (fault_addr =? u32 (esp - 4))).

(** [file_seek] and [file_read (file, kpage, read_bytes)]. *)
Definition read_page (x : page) (k : Z) : V bool :=
  s ← get;
  let d := slice (file_ofs x) (read_bytes x) (files s (p_file x)) in
  copy_to_frame k 0 d;;
  if negb (zlen d =? read_bytes x) then mret false
  else copy_to_frame k (read_bytes x) (replicate (Z.to_nat (zero_bytes x)) 0);; mret true.

Definition page_in (va : Z) : V bool :=
  s ← get;
  let t := current s in
  (if is_stack va (stack_pointer s) then page_alloc va true;; mret tt else mret tt);;
  p ← page_lookup t (pg_round_down va);
  if p =? NULL then mret false else
  x ← page_at p;
  assert (p_thread x =? t);;
  (if bool_decide (p_frame x = None) then f ← frame_alloc p; modify_page p (set_frame (Some f)) else mret tt);;
  x ← page_at p;
  f ← frame_of x;
  fr ← frame_at f;
  success ← (
    if private x then swap_in p;; mret true
    else if p_file x =? NULL then
      modify_frame f (set_pinned true);;
      copy_to_frame (kpage fr) 0 (replicate (Z.to_nat PGSIZE) 0);;
      modify_frame f (set_pinned false);;
      mret true
    else
      modify_frame f (set_pinned true);;
      r ← read_page x (kpage fr);
      (if p_writable x then modify_frame f (set_pinned false) else mret tt);;
      mret r);
  if success : bool then
    k ← pagedir_get_page t (vaddr x);
    if k =? NULL then pagedir_set_page t (vaddr x) (kpage fr) (p_writable x) else mret true
  else mret false.

Definition page_release (p : Z) : V unit :=
  s ← get;
  x ← page_at p;
  match p_frame x with Some f => frame_release f | None => mret tt end;;
  (if private x then swap_clear p else mret tt);;
  modify (λ s', set_supp (delete (current s, vaddr x) (supplemental_pages s')) (set_pages (delete p (pages s')) s')).
(** The action of [hash_destroy] when a process ends. *)
Definition page_destroy (p : Z) : V unit :=
  x ← page_at p;
  match p_frame x with Some f => frame_release f | None => mret tt end;;
  (if private x then swap_clear p else mret tt);;
  modify (λ s', set_pages (delete p (pages s')) s').

(** [page_in] is called with the address of the [struct page]. *)
Definition page_pin (v : Z) : V unit :=
  s ← get;
  p ← page_lookup (current s) v;
  if p =? NULL then
    r ← page_in p;
    if r : bool then x ← page_at p; f ← frame_of x; modify_frame f (set_pinned true) else mret tt
  else
    x ← page_at p;
    match p_frame x with
    | None => r ← page_in p; if r : bool then x ← page_at p; f ← frame_of x; modify_frame f (set_pinned true) else mret tt
    | Some f => modify_frame f (set_pinned true)
    end.
Definition page_unpin (v : Z) : V unit :=
  s ← get;
  p ← page_lookup (current s) v;
  assert (negb (p =? NULL));;
  x ← page_at p;
  match p_frame x with Some f => modify_frame f (set_pinned false) | None => mret tt end.

(** ** Memory mapped files *)

Definition mmap_get_id (id : Z) : V (option mmap) := s ← get; mret (snd <$> list_find (λ m, m_id m = id) (mmap_list s)).
Fixpoint munmap_loop (fuel : nat) (t upage left : Z) : V unit :=
  match fuel with
  | O => out_of_fuel
  | S fuel =>
      if 0 <? left then
        let n := if left <? PGSIZE then left else PGSIZE in
        p ← page_lookup t upage;
        (if negb (p =? NULL) then
           x ← page_at p;
           (if bool_decide (is_Some (p_frame x)) then
              d ← page_is_dirty p;
              if d : bool then file_write_at (p_file x) (vaddr x) (read_bytes x) (file_ofs x);; mret tt else mret tt
            else mret tt);;
           page_release p
         else mret tt);;
        munmap_loop fuel t (upage + PGSIZE) (left - n)
      else mret tt
  end.
Definition page_munmap (m : mmap) : V unit := s ← get; munmap_loop (S (Z.to_nat (m_length m))) (current s) (m_vaddr m) (m_length m).

(** ** Page faults *)

(** What becomes of the thread. *)
Inductive fault_result : Type :=
  | Resumed                     (* the instruction is run again *)
  | Terminated (exit_code : Z)  (* [thread_exit] *)
  | Killed.                     (* [kill (f)] *)
(** [page_fault] at [fault_addr]; [esp] is the stack pointer of the user code
    that faulted, if any did. *)
Definition page_fault (fault_addr : Z) (not_present : bool) (esp : option Z) : V fault_result :=
  modify (λ s, Vm (frame_table s) (clock_hand s) (pages s) (supplemental_pages s) (pagedirs s) (ram s) (swap_device s) (swap_bitmap s) (files s) (mmap_list s) (current s) (default (stack_pointer s) esp));;
  if not_present && is_user_vaddr fault_addr then
    r ← page_in fault_addr;
    mret (if r : bool then Resumed else Terminated (-1))
  else if negb not_present then mret (Terminated (-1))
  else mret Killed.
End vm.
