(* ===== verification/VmSpec.v ===== *)
(** * Virtual memory: theorems

    The [view] of a page is what the program that owns it sees, wherever the
    page is: in a frame, in swap, in its file, or nowhere yet.  Evicting pages
    and bringing them in never changes it. *)

From S2P Require Import Prelude Bitmap KList Vaddr Cache Inode InodeSpec Vm.

(** ** What a page holds *)

Definition fr_info (s : vm) (f : Z) : option (Z * Z) := (λ fr, (kpage fr, vpage fr)) <$> (frame_table s)@[f].
Definition pte_info (s : vm) (k : Z * Z) : option (Z * bool * bool) := (λ e, (pte_page e, pte_present e, pte_dirty e)) <$> pagedirs s !! k.
Definition page_key (x : page) : Z * Z := (p_thread x, vaddr x).

Definition zero_page : list Z := replicate (Z.to_nat PGSIZE) 0.
(** The contents a page starts with. *)
Definition source (s : vm) (x : page) : list Z :=
  if p_file x =? NULL then zero_page
  else slice (file_ofs x) (read_bytes x) (files s (p_file x)) ++ replicate (Z.to_nat (zero_bytes x)) 0.
Definition swapped_out (s : vm) (slot : Z) : list Z := seqZ slot 8 ≫= sectors (swap_device s).
Definition content (s : vm) (x : page) : list Z :=
  match p_frame x with
  | Some f => match fr_info s f with Some (k, _) => ram s k | None => [] end
  | None => if private x then swapped_out s (swap_slot x) else source s x
  end.
(** In the last page of a mapped file only the bytes of the file count. *)
Definition visible (x : page) : nat := Z.to_nat (if mmap_id x =? MAP_FAILED then PGSIZE else read_bytes x).
Definition view (s : vm) (p : Z) : option (list Z) := (λ x, take (visible x) (content s x)) <$> pages s !! p.

(** ** The invariant *)

Record page_wf (s : vm) (x : page) : Prop := {
  pw_vaddr : is_u32 (vaddr x) ∧ vaddr x `mod` 4096 = 0;
  pw_source : if p_file x =? NULL then mmap_id x = MAP_FAILED else
    0 ≤ file_ofs x ∧ 0 ≤ read_bytes x ∧ 0 ≤ zero_bytes x ∧ read_bytes x + zero_bytes x = PGSIZE ∧ (file_ofs x + read_bytes x ≤ zlen (files s (p_file x)) ∨ read_bytes x = 0 ∧ mmap_id x = MAP_FAILED);
}.
Definition swap_ok (s : vm) : Prop :=
  wf (swap_bitmap s) ∧ bit_cnt (swap_bitmap s) ≤ bsize (swap_device s) ∧ btype (swap_device s) ≠ BLOCK_FOREIGN ∧ ∀ n, zlen (sectors (swap_device s) n) = BLOCK_SECTOR_SIZE.
(** [r] is a frame that is about to get its page. *)
Record vm_inv (r : option Z) (s : vm) : Prop := {
  iv_ram f k v : fr_info s f = Some (k, v) → zlen (ram s k) = PGSIZE ∧ k ≠ NULL;
  iv_kpage f g k v w : fr_info s f = Some (k, v) → fr_info s g = Some (k, w) → f = g;
  iv_back f k p : fr_info s f = Some (k, p) → r ≠ Some f → p ≠ NULL → ∃ x, pages s !! p = Some x ∧ p_frame x = Some f;
  iv_frame p x f : pages s !! p = Some x → p_frame x = Some f → r ≠ Some f ∧ private x = false ∧
    ∃ k d, fr_info s f = Some (k, p) ∧ pte_info s (page_key x) = Some (k, true, d) ∧
      (dirty x = false → d = false → take (visible x) (ram s k) = take (visible x) (source s x));
  iv_absent p x k d : pages s !! p = Some x → p_frame x = None → pte_info s (page_key x) ≠ Some (k, true, d);
  iv_page p x : pages s !! p = Some x → p ≠ NULL ∧ page_wf s x;
  iv_stray key k d : pte_info s key = Some (k, true, d) → is_Some (supplemental_pages s !! key);
  iv_supp t v p : supplemental_pages s !! (t, v) = Some p ↔ ∃ x, pages s !! p = Some x ∧ page_key x = (t, v);
  iv_mmap p q x y : p ≠ q → pages s !! p = Some x → pages s !! q = Some y → p_file x ≠ NULL → p_file x = p_file y → mmap_id x ≠ MAP_FAILED →
    file_ofs x + read_bytes x ≤ file_ofs y ∨ file_ofs y + read_bytes y ≤ file_ofs x;
  iv_slot p x : pages s !! p = Some x → private x = true →
    dirty x = true ∧ 0 ≤ swap_slot x ∧ swap_slot x + 8 ≤ bit_cnt (swap_bitmap s) ∧ run_at (swap_bitmap s) (swap_slot x) 8 true;
  iv_slots p q x y : p ≠ q → pages s !! p = Some x → pages s !! q = Some y → private x = true → private y = true →
    swap_slot x + 8 ≤ swap_slot y ∨ swap_slot y + 8 ≤ swap_slot x;
  iv_swap : swap_ok s;
}.

(** States that differ at most in pins, accessed bits, the clock hand and counters. *)
Record similar (s s' : vm) : Prop := {
  sm_frames f : fr_info s' f = fr_info s f;
  sm_len : zlen (frame_table s') = zlen (frame_table s);
  sm_pages : pages s' = pages s;
  sm_supp : supplemental_pages s' = supplemental_pages s;
  sm_ptes k : pte_info s' k = pte_info s k;
  sm_ram : ram s' = ram s;
  sm_files : files s' = files s;
  sm_bitmap : swap_bitmap s' = swap_bitmap s;
  sm_device : bsize (swap_device s') = bsize (swap_device s) ∧ btype (swap_device s') = btype (swap_device s) ∧ sectors (swap_device s') = sectors (swap_device s);
  sm_current : current s' = current s;
}.
#[export] Instance similar_refl : Reflexive similar.
Proof. by intros s. Qed.
#[export] Instance similar_trans : Transitive similar.
Proof.
  intros s1 s2 s3 [A1 A2 A3 A4 A5 A6 A7 A8 [A9 [B1 B2]] A10] [C1 C2 C3 C4 C5 C6 C7 C8 [C9 [D1 D2]] C10].
  split; first [congruence|intros; etrans; [apply C1|apply A1]|intros; etrans; [apply C5|apply A5]|split_and!; congruence].
Qed.
Lemma similar_source s s' x : similar s s' → source s' x = source s x.
Proof. intros H. unfold source. by rewrite (sm_files _ _ H). Qed.
Lemma similar_content s s' x : similar s s' → content s' x = content s x.
Proof.
  intros H. unfold content, swapped_out. destruct (sm_device _ _ H) as (_ & _ & ->). rewrite (similar_source s s' x H), (sm_ram _ _ H).
  destruct (p_frame x); [|done]. by rewrite (sm_frames _ _ H).
Qed.
Lemma similar_view s s' p : similar s s' → view s' p = view s p.
Proof. intros H. unfold view. rewrite (sm_pages _ _ H). destruct (pages s !! p); [|done]. simpl. by rewrite (similar_content s s' _ H). Qed.
Lemma similar_inv r s s' : similar s s' → vm_inv r s → vm_inv r s'.
Proof.
  intros H [H1 H2 H3 H4 H5 H6 H6' H7 H8 H9 H10 H11]. pose proof (similar_source s s') as Hsrc. destruct H as [A1 A2 A3 A4 A5 A6 A7 A8 (A9 & B1 & B2) A10].
  split; intros *; unfold swap_ok; rewrite ?A1, ?A3, ?A4, ?A5, ?A6, ?A8, ?A9, ?B1, ?B2; try solve [apply H1|apply H2|apply H3|apply H6'|apply H7|apply H8|apply H9|apply H10|apply H11].
  - intros Hp Hf. destruct (H4 p x f Hp Hf) as (? & ? & k & d & ? & ? & Hc). split_and!; [done|done|]. exists k, d. rewrite ?A1, ?A5. split_and!; [done|done|].
    unfold source. rewrite A7. exact Hc.
  - apply H5.
  - intros Hp. destruct (H6 p x Hp) as [? [? Hs]]. split; [done|]. split; [done|]. by rewrite A7.
Qed.

(** ** Steps *)

Lemma run_frame_at s f fr (Q : frame → vm → Prop) : (frame_table s)@[f] = Some fr → Q fr s → runs (frame_at f) s Q.
Proof. intros H HQ. unfold frame_at. run. rewrite (rd_Some _ _ _ H). by run. Qed.
Lemma run_modify_frame s f g fr (Q : unit → vm → Prop) : (frame_table s)@[f] = Some fr → Q tt (set_frames ((frame_table s)@[f := g fr]) s) → runs (modify_frame f g) s Q.
Proof. intros H HQ. unfold modify_frame. run. rewrite (rd_Some _ _ _ H). run. rewrite wr_in by (by eapply zlookup_bound). by run. Qed.
Lemma run_page_at s p x (Q : page → vm → Prop) : pages s !! p = Some x → Q x s → runs (page_at p) s Q.
Proof. intros H HQ. unfold page_at. run. rewrite H. by run. Qed.
Lemma run_modify_page s p g x (Q : unit → vm → Prop) : pages s !! p = Some x → Q tt (set_pages (<[p := g x]> (pages s)) s) → runs (modify_page p g) s Q.
Proof. intros H HQ. unfold modify_page. apply runs_bind, (run_page_at _ _ x); [done|]. by run. Qed.
Lemma run_frame_of x f s (Q : Z → vm → Prop) : p_frame x = Some f → Q f s → runs (frame_of x) s Q.
Proof. intros H HQ. unfold frame_of. rewrite H. by run. Qed.

Lemma fr_info_insert s l f fr g : 0 ≤ f < zlen l → fr_info (set_frames (l@[f := fr]) s) g = if g =? f then Some (kpage fr, vpage fr) else fr_info (set_frames l s) g.
Proof. intros Hf. unfold fr_info. simpl. rewrite zlookup_insert. bool_cases; try lia; done. Qed.
Lemma fr_info_Some s f fr : (frame_table s)@[f] = Some fr → fr_info s f = Some (kpage fr, vpage fr).
Proof. intros H. unfold fr_info. by rewrite H. Qed.
Lemma fr_info_inv s f k v : fr_info s f = Some (k, v) → ∃ b, (frame_table s)@[f] = Some (Frame k v b).
Proof. unfold fr_info. destruct ((frame_table s)@[f]) as [[k' v' b]|]; [|done]. intros [= <- <-]. by exists b. Qed.
Lemma similar_pin s f fr b : (frame_table s)@[f] = Some fr → similar s (set_frames ((frame_table s)@[f := set_pinned b fr]) s).
Proof.
  intros H. split; try done; [|simpl; apply zlen_insert]. intros g. rewrite fr_info_insert by (by eapply zlookup_bound). destruct (Z.eqb_spec g f) as [->|]; [|done]. by rewrite (fr_info_Some _ _ _ H).
Qed.
Lemma similar_hand s h : similar s (set_hand h s).
Proof. done. Qed.
Definition accessed (s : vm) (k : Z * Z) : bool := from_option pte_accessed false (pagedirs s !! k).
Definition with_accessed (b : bool) (e : pte) : pte := Pte (pte_page e) (pte_writable e) (pte_present e) b (pte_dirty e).
Lemma similar_accessed s k e b : pagedirs s !! k = Some e → similar s (set_pagedirs (<[k := with_accessed b e]> (pagedirs s)) s).
Proof. intros H. split; try done. intros k'. unfold pte_info. simpl. destruct (decide (k' = k)) as [->|]; [by rewrite lookup_insert_eq, H|by rewrite lookup_insert_ne]. Qed.

(** ** The clock *)

(** A frame that may be taken from the current thread, with the key of its page. *)
Definition candidate (s : vm) (g : Z) (k : Z * Z) : Prop :=
  ∃ fr x, (frame_table s)@[g] = Some fr ∧ pinned fr = false ∧ pages s !! vpage fr = Some x ∧ p_thread x = current s ∧ page_key x = k.
Definition frames_used (s : vm) : Prop := ∀ f fr, (frame_table s)@[f] = Some fr → is_Some (pages s !! vpage fr).
(** What a pass of the clock changes. *)
Definition hand_ok (s : vm) : Prop := ∀ h, clock_hand s = Some h → 0 ≤ h ≤ zlen (frame_table s).
Definition aged (s s' : vm) : Prop := similar s s' ∧ frame_table s' = frame_table s ∧ (∀ k, accessed s' k = true → accessed s k = true) ∧ (hand_ok s → hand_ok s').
Lemma aged_refl s : aged s s.
Proof. split_and!; done. Qed.
Lemma aged_trans s1 s2 s3 : aged s1 s2 → aged s2 s3 → aged s1 s3.
Proof. intros (A & B & C & D) (A' & B' & C' & D'). split_and!; [by etrans|congruence|auto|auto]. Qed.
Lemma aged_hand s h : 0 ≤ h ≤ zlen (frame_table s) → aged s (set_hand (Some h) s).
Proof. intros Hh. split_and!; [apply similar_hand|done|done|]. intros _ h' [= <-]. done. Qed.
Lemma aged_candidate s s' g k : aged s s' → candidate s' g k ↔ candidate s g k.
Proof. intros (A & B & _). unfold candidate. by rewrite B, (sm_pages _ _ A), (sm_current _ _ A). Qed.
Lemma aged_used s s' : aged s s' → frames_used s → frames_used s'.
Proof. intros (A & B & _). unfold frames_used. by rewrite B, (sm_pages _ _ A). Qed.
Lemma clear_accessed s p x : pages s !! p = Some x → accessed s (page_key x) = true →
  runs (page_set_accessed p false) s (λ _ s', aged s s' ∧ accessed s' (page_key x) = false).
Proof.
  intros Hp Ha. unfold page_set_accessed. apply runs_bind, (run_page_at _ _ x); [done|]. unfold pagedir_set_accessed, entry_at, set_entry. apply runs_bind. run. unfold accessed in *. fold (page_key x).
  destruct (pagedirs s !! page_key x) as [e|] eqn:E; [|done]. run. split; [split_and!|].
  - by apply similar_accessed.
  - done.
  - intros k. simpl. unfold accessed. simpl. destruct (decide (k = page_key x)) as [->|]; [by rewrite lookup_insert_eq|by rewrite lookup_insert_ne].
  - done.
  - unfold accessed. simpl. by rewrite lookup_insert_eq.
Qed.
Lemma clock_pass_spec n : ∀ s f, frames_used s → 0 ≤ f → f + Z.of_nat n = zlen (frame_table s) →
  runs (clock_pass n f) s (λ r s', aged s s' ∧ match r with
    | Some g => ∃ k, candidate s g k
    | None => ∀ g k, f ≤ g → candidate s g k → accessed s k = true ∧ accessed s' k = false
    end).
Proof.
  induction n as [|n IH]; intros s f Hu Hf Hn; cbn [clock_pass].
  { run. split; [apply aged_refl|]. intros g k Hg (fr & x & Hfr & _). apply zlookup_bound in Hfr. lia. }
  destruct (zlookup_lt (frame_table s) f) as [fr Hfr]; [lia|]. destruct (Hu f fr Hfr) as [x Hx]. apply runs_bind, runs_get. apply runs_bind, (run_frame_at _ _ fr); [done|].
  assert (∀ s1, aged s s1 → (∀ k, candidate s f k → accessed s k = true ∧ accessed s1 k = false) →
    runs (clock_pass n (f + 1)) s1 (λ r s', aged s s' ∧ match r with Some g => ∃ k, candidate s g k | None => ∀ g k, f ≤ g → candidate s g k → accessed s k = true ∧ accessed s' k = false end)) as Hnext.
  { intros s1 H1 Hc. pose proof H1 as (A1 & B1 & C1 & _). eapply runs_mono; [apply IH; [by eapply aged_used|lia|rewrite B1; lia]|]. intros r s' [H2 Hr]. pose proof H2 as (_ & _ & C2 & _). split; [by eapply aged_trans|]. destruct r as [g|].
    - destruct Hr as [k Hk]. exists k. by apply (aged_candidate s s1).
    - intros g k Hg Hk. destruct (decide (g = f)) as [->|].
      + destruct (Hc k Hk) as [? Hk1]. split; [done|]. destruct (accessed s' k) eqn:E; [|done]. apply C2 in E. congruence.
      + destruct (Hr g k) as [? ?]; [lia|by apply (aged_candidate s s1)|]. split; [by apply C1|done]. }
  apply runs_bind, (runs_mono _ _ (λ b s', s' = s ∧ b = negb (pinned fr) && (p_thread x =? current s))).
  { destruct (pinned fr); [by run|]. apply runs_bind, (run_page_at _ _ x); [done|]. by run. }
  intros mine s' [-> ->]. destruct (negb (pinned fr) && (p_thread x =? current s)) eqn:Em; cycle 1.
  { apply Hnext; [apply aged_refl|]. intros k (fr' & x' & Hfr' & Hp & Hx' & Ht & _). exfalso. simplify_eq. rewrite Hp, Ht, Z.eqb_refl in Em. done. }
  apply andb_true_iff in Em as [Hp%negb_true_iff Ht%Z.eqb_eq]. assert (candidate s f (page_key x)) as Hcand by (by exists fr, x).
  assert (∀ k, candidate s f k → k = page_key x) as Huniq by (intros k (fr' & x' & Hfr' & _ & Hx' & _ & <-); congruence).
  apply runs_bind, (runs_mono _ _ (λ b s', s' = s ∧ b = accessed s (page_key x))).
  { unfold page_is_accessed. apply runs_bind, (run_page_at _ _ x); [done|]. unfold pagedir_is_accessed, entry_at. apply runs_bind. by run. }
  intros a s' [-> ->]. destruct (accessed s (page_key x)) eqn:Ea.
  - apply runs_bind. eapply runs_mono; [by apply clear_accessed|]. intros [] s1 [H1 Hk1]. apply Hnext; [done|]. by intros k ->%Huniq.
  - run. split; [apply aged_hand; lia|]. by exists (page_key x).
Qed.
Lemma clock_from_spec s : frames_used s → hand_ok s →
  runs clock_from s (λ r s', aged s s' ∧ match r with
    | Some g => ∃ k, candidate s g k
    | None => clock_hand s = Some 0 → ∀ g k, candidate s g k → accessed s k = true ∧ accessed s' k = false
    end).
Proof.
  intros Hu Hh. unfold clock_from. apply runs_bind, runs_get. unfold hand_ok in Hh. destruct (clock_hand s) as [h|]; [|run; split; [apply aged_refl|done]]. specialize (Hh h eq_refl).
  eapply runs_mono; [apply clock_pass_spec; [done|lia|lia]|]. intros r s' [H1 Hr]. split; [done|]. destruct r as [g|]; [done|]. intros [= ->] g k Hk. apply (Hr g k); [|done].
  destruct Hk as (fr & _ & Hfr & _). apply zlookup_bound in Hfr. lia.
Qed.
(** Three passes are enough if there is a frame to take. *)
Lemma clock_loop_spec s g k : frames_used s → hand_ok s → candidate s g k →
  runs (clock_loop 3) s (λ f s', aged s s' ∧ ∃ k, candidate s f k).
Proof.
  intros Hu Hh Hg. assert (frame_table s ≠ []) as Hne by (destruct Hg as (fr & _ & Hfr & _); intros E; rewrite E in Hfr; apply zlookup_bound in Hfr; unfold zlen in Hfr; simpl in Hfr; lia).
  assert (∀ s1, aged s s1 → aged s (set_hand (if bool_decide (frame_table s1 = []) then None else Some 0) s1) ∧ clock_hand (set_hand (if bool_decide (frame_table s1 = []) then None else Some 0) s1) = Some 0) as Hreset.
  { intros s1 H1. pose proof H1 as (_ & B1 & _). rewrite bool_decide_false by (by rewrite B1). split; [|done]. eapply aged_trans; [done|]. apply aged_hand. pose proof (zlen_nonneg (frame_table s1)). lia. }
  assert (∀ s1 r s2, aged s s1 → aged s1 s2 → match r with Some g => ∃ k, candidate s1 g k | None => True end → aged s s2 ∧ match r with Some f => ∃ k, candidate s f k | None => True end) as Hstep.
  { intros s1 r s2 H1 H2 Hr. split; [by eapply aged_trans|]. destruct r as [f|]; [|done]. destruct Hr as [k' Hr]. exists k'. by apply (aged_candidate s s1). }
  unfold clock_loop. apply runs_bind. eapply runs_mono; [by apply clock_from_spec|]. intros r s1 [H1 Hr]. destruct r as [f|]; [by run|].
  apply runs_bind, runs_modify. destruct (Hreset s1 H1) as [H1' Hh1]. set (s1' := set_hand _ s1) in *. apply runs_bind.
  eapply runs_mono; [apply clock_from_spec; [by eapply aged_used|by apply H1']|]. intros r s2 [H2 Hr2].
  destruct (Hstep s1' r s2 H1' H2 ltac:(by destruct r)) as [H2s Hrs]. destruct r as [f|]; [by run|].
  apply runs_bind, runs_modify. destruct (Hreset s2 H2s) as [H2' Hh2]. set (s2' := set_hand _ s2) in *. apply runs_bind.
  eapply runs_mono; [apply clock_from_spec; [by eapply aged_used|by apply H2']|]. intros r s3 [H3 Hr3].
  destruct (Hstep s2' r s3 H2' H3 ltac:(by destruct r)) as [H3s Hrs3]. destruct r as [f|]; [by run|].
  exfalso. destruct (Hr3 Hh2 g k) as [Ha _]; [by apply (aged_candidate s s2')|]. destruct (Hr2 Hh1 g k) as [_ Hb]; [by apply (aged_candidate s s1')|]. unfold s2', accessed in *. simpl in Ha. congruence.
Qed.

(** ** Moving one page *)

Definition same_source (x x' : page) : Prop :=
  page_key x' = page_key x ∧ p_file x' = p_file x ∧ file_ofs x' = file_ofs x ∧ read_bytes x' = read_bytes x ∧ zero_bytes x' = zero_bytes x ∧ mmap_id x' = mmap_id x.
(** From [s] to [s'] only the page [p], [x] before and [x'] after, changed its place. *)
Record moved (r' : option Z) (s s' : vm) (p : Z) (x x' : page) : Prop := {
  mv_old : pages s !! p = Some x;
  mv_pages : pages s' = <[p := x']> (pages s);
  mv_supp : supplemental_pages s' = supplemental_pages s;
  mv_same : same_source x x';
  mv_frames g : fr_info s' g = fr_info s g;
  mv_ptes k : k ≠ page_key x → pte_info s' k = pte_info s k;
  mv_ram q y g k : q ≠ p → pages s !! q = Some y → p_frame y = Some g → fr_info s g = Some (k, q) → ram s' k = ram s k;
  mv_ramlen g k v : fr_info s g = Some (k, v) → zlen (ram s' k) = PGSIZE;
  mv_filelen n : zlen (files s' n) = zlen (files s n);
  mv_source q y : q ≠ p → pages s !! q = Some y → source s' y = source s y;
  mv_bits : wf (swap_bitmap s') ∧ bit_cnt (swap_bitmap s') = bit_cnt (swap_bitmap s);
  mv_device : bsize (swap_device s') = bsize (swap_device s) ∧ btype (swap_device s') = btype (swap_device s) ∧ ∀ n, zlen (sectors (swap_device s') n) = BLOCK_SECTOR_SIZE;
  mv_slots q y : q ≠ p → pages s !! q = Some y → private y = true → run_at (swap_bitmap s') (swap_slot y) 8 true ∧ swapped_out s' (swap_slot y) = swapped_out s (swap_slot y);
  mv_back g k v : fr_info s g = Some (k, v) → r' ≠ Some g → v ≠ NULL → ∃ y, pages s' !! v = Some y ∧ p_frame y = Some g;
  mv_hole q y g : q ≠ p → pages s !! q = Some y → p_frame y = Some g → r' ≠ Some g;
  mv_frame f : p_frame x' = Some f → r' ≠ Some f ∧ private x' = false ∧
    ∃ k d, fr_info s f = Some (k, p) ∧ pte_info s' (page_key x) = Some (k, true, d) ∧ (dirty x' = false → d = false → take (visible x) (ram s' k) = take (visible x) (source s' x));
  mv_absent k d : p_frame x' = None → pte_info s' (page_key x) ≠ Some (k, true, d);
  mv_slot : private x' = true → dirty x' = true ∧ 0 ≤ swap_slot x' ∧ swap_slot x' + 8 ≤ bit_cnt (swap_bitmap s) ∧ run_at (swap_bitmap s') (swap_slot x') 8 true ∧
    ∀ q y, q ≠ p → pages s !! q = Some y → private y = true → swap_slot x' + 8 ≤ swap_slot y ∨ swap_slot y + 8 ≤ swap_slot x';
}.
Lemma same_source_visible x x' : same_source x x' → visible x' = visible x.
Proof. intros (_ & _ & _ & Hr & _ & Hm). unfold visible. by rewrite Hr, Hm. Qed.
Lemma same_source_source s x x' : same_source x x' → source s x' = source s x.
Proof. intros (_ & Hf & Ho & Hr & Hz & _). unfold source. by rewrite Hf, Ho, Hr, Hz. Qed.
Lemma page_key_unique r s p q x y : vm_inv r s → pages s !! p = Some x → pages s !! q = Some y → page_key x = page_key y → p = q.
Proof.
  intros H Hp Hq E. pose proof (proj2 (iv_supp _ _ H (p_thread x) (vaddr x) p)) as H1. pose proof (proj2 (iv_supp _ _ H (p_thread x) (vaddr x) q)) as H2.
  assert (Some p = Some q) as [= ->]; [|done]. etrans; [symmetry; apply H1; by exists x|]. apply H2. by exists y.
Qed.
Section moved.
Context (r r' : option Z) (s s' : vm) (p : Z) (x x' : page) (Hinv : vm_inv r s) (Hmv : moved r' s s' p x x').
Lemma moved_view q : q ≠ p → view s' q = view s q.
Proof using All.
  intros Hq. unfold view. rewrite (mv_pages _ _ _ _ _ _ Hmv), lookup_insert_ne by done. destruct (pages s !! q) as [y|] eqn:Ey; [|done]. simpl. do 2 f_equal.
  unfold content. destruct (p_frame y) as [g|] eqn:Eg.
  - destruct (iv_frame _ _ Hinv q y g Ey Eg) as (_ & _ & k & d & Hg & _). rewrite (mv_frames _ _ _ _ _ _ Hmv), Hg. by eapply (mv_ram _ _ _ _ _ _ Hmv).
  - destruct (private y) eqn:Ep; [by apply (mv_slots _ _ _ _ _ _ Hmv q)|by apply (mv_source _ _ _ _ _ _ Hmv q)].
Qed.
Lemma moved_lookup q y : pages s' !! q = Some y → q = p ∧ y = x' ∨ q ≠ p ∧ pages s !! q = Some y.
Proof using All. rewrite (mv_pages _ _ _ _ _ _ Hmv). intros [[<- ->]|[? ?]]%lookup_insert_Some; [by left|right; split; [congruence|done]]. Qed.
Lemma moved_inv : vm_inv r' s'.
Proof using All.
  pose proof (mv_same _ _ _ _ _ _ Hmv) as Hsame. pose proof (same_source_visible x x' Hsame) as Hvis. pose proof (λ t, same_source_source t x x' Hsame) as Hsrc. pose proof (mv_old _ _ _ _ _ _ Hmv) as Hp.
  pose proof (mv_frames _ _ _ _ _ _ Hmv) as Hfr. destruct (mv_device _ _ _ _ _ _ Hmv) as (D1 & D2 & D3). destruct (mv_bits _ _ _ _ _ _ Hmv) as [B1 B2]. destruct Hsame as (K1 & K2 & K3 & K4 & K5 & K6).
  assert (∀ y, page_wf s y → page_wf s' y) as Hwf by (intros y [? ?]; split; [done|]; by rewrite (mv_filelen _ _ _ _ _ _ Hmv)).
  split.
  - intros f k v. rewrite Hfr. intros Hf. split; [by eapply (mv_ramlen _ _ _ _ _ _ Hmv)|by eapply (iv_ram _ _ Hinv)].
  - intros f g k v w. rewrite !Hfr. apply (iv_kpage _ _ Hinv).
  - intros f k v. rewrite Hfr. apply (mv_back _ _ _ _ _ _ Hmv).
  - intros q y f Hq Hf. destruct (moved_lookup q y Hq) as [[-> ->]|[Hne Hqs]].
    + rewrite Hfr, K1, Hvis, Hsrc. by apply (mv_frame _ _ _ _ _ _ Hmv).
    + destruct (iv_frame _ _ Hinv q y f Hqs Hf) as (_ & Hpr & k & d & Hk & Hd & Hc). split_and!; [by eapply (mv_hole _ _ _ _ _ _ Hmv)|done|]. exists k, d. rewrite Hfr.
      assert (page_key y ≠ page_key x) as Hkey by (intros E; apply Hne; by eapply page_key_unique). rewrite (mv_ptes _ _ _ _ _ _ Hmv) by done.
      rewrite (mv_source _ _ _ _ _ _ Hmv q y), (mv_ram _ _ _ _ _ _ Hmv q y f k) by done. done.
  - intros q y k d Hq Hf. destruct (moved_lookup q y Hq) as [[-> ->]|[Hne Hqs]].
    + rewrite K1. by apply (mv_absent _ _ _ _ _ _ Hmv).
    + assert (page_key y ≠ page_key x) as Hkey by (intros E; apply Hne; by eapply page_key_unique). rewrite (mv_ptes _ _ _ _ _ _ Hmv) by done. by eapply (iv_absent _ _ Hinv).
  - intros q y Hq. destruct (moved_lookup q y Hq) as [[-> ->]|[Hne Hqs]].
    + destruct (iv_page _ _ Hinv p x Hp) as [Hn [Hv Hs]]. split; [done|]. apply Hwf. split; [unfold page_key in K1; injection K1 as _ ->; done|]. by rewrite K2, K3, K4, K5, K6.
    + destruct (iv_page _ _ Hinv q y Hqs) as [Hn Hw]. split; [done|by apply Hwf].
  - intros key k d Hk. rewrite (mv_supp _ _ _ _ _ _ Hmv). destruct (decide (key = page_key x)) as [->|]; [exists p; apply (iv_supp _ _ Hinv); by exists x|].
    rewrite (mv_ptes _ _ _ _ _ _ Hmv) in Hk by done. by apply (iv_stray _ _ Hinv key k d).
  - intros t v q. rewrite (mv_supp _ _ _ _ _ _ Hmv), (iv_supp _ _ Hinv). rewrite (mv_pages _ _ _ _ _ _ Hmv). split; intros (y & Hy & Hk).
    + destruct (decide (q = p)) as [->|]; [exists x'; rewrite lookup_insert_eq; split; [done|]; rewrite K1; congruence|exists y; by rewrite lookup_insert_ne].
    + apply lookup_insert_Some in Hy as [[<- <-]|[? ?]]; [exists x; split; [done|congruence]|by exists y].
  - intros a b y z Hab Ha Hb. destruct (moved_lookup a y Ha) as [[-> ->]|[Hna Has]], (moved_lookup b z Hb) as [[-> ->]|[Hnb Hbs]]; [done|..]; rewrite ?K2, ?K3, ?K4, ?K6; intros H1 H2 H3.
    + by eapply (iv_mmap _ _ Hinv p b x z).
    + eapply (iv_mmap _ _ Hinv a p y x); [done..|congruence|done].
    + by eapply (iv_mmap _ _ Hinv a b y z).
  - intros q y Hq Hpr. rewrite B2. destruct (moved_lookup q y Hq) as [[-> ->]|[Hne Hqs]].
    + destruct (mv_slot _ _ _ _ _ _ Hmv Hpr) as (? & ? & ? & ? & _). done.
    + destruct (iv_slot _ _ Hinv q y Hqs Hpr) as (? & ? & ? & _). split_and!; try done. by eapply (mv_slots _ _ _ _ _ _ Hmv).
  - intros a b y z Hab Ha Hb Hy Hz. destruct (moved_lookup a y Ha) as [[-> ->]|[Hna Has]], (moved_lookup b z Hb) as [[-> ->]|[Hnb Hbs]]; [done|..].
    + destruct (mv_slot _ _ _ _ _ _ Hmv Hy) as (_ & _ & _ & _ & H). by apply (H b z).
    + destruct (mv_slot _ _ _ _ _ _ Hmv Hz) as (_ & _ & _ & _ & H). destruct (H a y Hab Has Hy); [right|left]; done.
    + by eapply (iv_slots _ _ Hinv a b y z).
  - unfold swap_ok. rewrite B2, D1, D2. destruct (iv_swap _ _ Hinv) as (_ & ? & ? & _). done.
Qed.
End moved.

(** ** Swap *)

Lemma swap_write_spec n : ∀ s slot k i, 0 ≤ slot → 0 ≤ i → slot + i + Z.of_nat n ≤ bsize (swap_device s) → slot + i + Z.of_nat n < 2 ^ 32 → btype (swap_device s) ≠ BLOCK_FOREIGN →
  runs (swap_write n slot k i) s (λ _ s', ∃ d, s' = set_swap d (swap_bitmap s) s ∧ bsize d = bsize (swap_device s) ∧ btype d = btype (swap_device s) ∧
    ∀ m, sectors d m = if (slot + i <=? m) && (m <? slot + i + Z.of_nat n) then slice ((m - slot) * BLOCK_SECTOR_SIZE) BLOCK_SECTOR_SIZE (ram s k) else sectors (swap_device s) m).
Proof.
  induction n as [|n IH]; intros s slot k i Hs Hi Hb H32 Ht; cbn [swap_write].
  { run. exists (swap_device s). split_and!; [by destruct s|done|done|]. intros m. destruct (Z.leb_spec (slot + i) m), (Z.ltb_spec m (slot + i + Z.of_nat 0)); done || lia. }
  apply runs_bind, runs_get, runs_bind. rewrite u32_small by lia. unfold on_swap, runs. rewrite block_write_spec by (done || lia). cbn [mbind].
  set (w := slice _ _ _). set (s1 := set_swap _ _ _). pose proof (IH s1 slot k (i + 1) Hs ltac:(lia)) as H1. eapply runs_mono; [apply H1; [simpl; lia|lia|done]|].
  intros [] s' (d & -> & B1 & B2 & Hd). exists d. split_and!; [done|done|done|]. intros m. rewrite Hd. simpl. unfold written, supd. simpl.
  destruct (Z.eqb_spec m (slot + i)) as [->|].
  - destruct (Z.leb_spec (slot + (i + 1)) (slot + i)), (Z.leb_spec (slot + i) (slot + i)), (Z.ltb_spec (slot + i) (slot + i + Z.of_nat (S n))); try lia. cbn [andb]. unfold w. f_equal. lia.
  - destruct (Z.leb_spec (slot + (i + 1)) m), (Z.leb_spec (slot + i) m), (Z.ltb_spec m (slot + (i + 1) + Z.of_nat n)), (Z.ltb_spec m (slot + i + Z.of_nat (S n))); try lia; done.
Qed.
(** Slices of a page, put together. *)
Lemma slices_all n : ∀ i (l : list Z), 0 ≤ i → i * 512 + Z.of_nat n * 512 = zlen l → (seqZ i (Z.of_nat n) ≫= λ m, slice (m * 512) 512 l) = drop (Z.to_nat (i * 512)) l.
Proof.
  induction n as [|n IH]; intros i l Hi Hl; [simpl; by rewrite drop_ge by (unfold zlen in Hl; lia)|]. rewrite Nat2Z.inj_succ, seqZ_cons by lia. rewrite Z.pred_succ. simpl.
  rewrite <-Z.add_1_r, IH by lia. unfold slice. rewrite <-(take_drop (Z.to_nat 512) (drop (Z.to_nat (i * 512)) l)) at 2. f_equal. rewrite drop_drop. f_equal. lia.
Qed.
Lemma swapped_out_ext s s' slot : (∀ m, slot ≤ m < slot + 8 → sectors (swap_device s') m = sectors (swap_device s) m) → swapped_out s' slot = swapped_out s slot.
Proof. intros H. apply Forall_bind_ext, Forall_forall. intros m Hm%list_elem_of_In%elem_of_seqZ. apply H. lia. Qed.
Lemma swapped_out_shift s slot l : zlen l = PGSIZE → (∀ m, slot ≤ m < slot + 8 → sectors (swap_device s) m = slice ((m - slot) * 512) 512 l) → swapped_out s slot = l.
Proof.
  intros Hl H. rewrite <-(drop_0 l). change 0%nat with (Z.to_nat (0 * 512)). rewrite <-(slices_all 8 0 l) by (rewrite ?Hl; done). unfold swapped_out.
  change (Z.of_nat 8) with 8. rewrite <-(Z.add_0_r slot), <-fmap_add_seqZ, list_fmap_bind. apply Forall_bind_ext, Forall_forall. intros m Hm%list_elem_of_In%elem_of_seqZ. simpl. rewrite H by lia. f_equal. lia.
Qed.
(** Two changes of the pin of a frame. *)
Definition same_frames (s : vm) (l : list frame) : Prop := ∀ g, fr_info (set_frames l s) g = fr_info s g.
Lemma run_pinned {A} s f k v (b : bool) (m : V A) (Q : A → vm → Prop) : fr_info s f = Some (k, v) →
  (∀ l, same_frames s l → zlen l = zlen (frame_table s) → (∀ g, g ≠ f → l@[g] = (frame_table s)@[g]) → l@[f] = Some (Frame k v b) → runs m (set_frames l s) Q) → runs (modify_frame f (set_pinned b);; m) s Q.
Proof.
  intros [b0 Hf]%fr_info_inv Hm. apply runs_bind, (run_modify_frame _ _ _ _ _ Hf), Hm.
  - intros g. exact (sm_frames _ _ (similar_pin s f _ b Hf) g).
  - apply zlen_insert.
  - intros g Hg. by apply zlookup_insert_ne.
  - apply zlookup_insert_eq. by eapply zlookup_bound.
Qed.
(** The place [swap_out] finds. *)
Definition swap_room (s : vm) : Prop := ∃ j, 0 ≤ j ∧ j + 8 ≤ bit_cnt (swap_bitmap s) ∧ run_at (swap_bitmap s) j 8 false.
Lemma swap_out_spec s p x f k : swap_ok s → pages s !! p = Some x → p_frame x = Some f → fr_info s f = Some (k, p) → swap_room s →
  runs (swap_out p) s (λ idx s', ∃ d bm l, s' = set_pages (<[p := set_frame None (set_slot true idx x)]> (pages s)) (set_frames l (set_swap d bm s)) ∧
    same_frames s l ∧ zlen l = zlen (frame_table s) ∧ 0 ≤ idx ∧ idx + 8 ≤ bit_cnt (swap_bitmap s) ∧ run_at (swap_bitmap s) idx 8 false ∧
    updated (swap_bitmap s) bm (λ j, if (idx <=? j) && (j <? idx + 8) then true else bit (swap_bitmap s) j) ∧
    bsize d = bsize (swap_device s) ∧ btype d = btype (swap_device s) ∧
    ∀ m, sectors d m = if (idx <=? m) && (m <? idx + 8) then slice ((m - idx) * 512) 512 (ram s k) else sectors (swap_device s) m).
Proof.
  intros (Hwf & Hbs & Ht & Hsec) Hp Hpf Hf (j & Hj & Hjl & Hrun). pose proof (wf_cnt _ Hwf) as Hcnt. unfold swap_out. apply runs_bind, runs_get.
  destruct (scan_and_flip_spec (swap_bitmap s) 0 PAGE_BLOCKS false Hwf ltac:(lia) ltac:(done)) as (idx & bm & E & Hcase). change PAGE_BLOCKS with 8 in *. rewrite E.
  destruct Hcase as [(Hi & Hil & Hr & _ & Hup)|(_ & _ & Hno)]; [|exfalso; by apply (Hno j)]. apply runs_bind, runs_lift. cbn [mbind outcome_bind]. apply runs_bind, runs_put.
  destruct (Z.eqb_spec idx BITMAP_ERROR) as [->|_]; [unfold BITMAP_ERROR, SIZE_MAX in *; lia|]. cbn [negb]. apply runs_bind. set (s0 := set_swap _ bm s).
  apply runs_bind, (run_page_at _ _ x); [done|]. apply runs_bind, (run_frame_of _ f); [done|]. apply (run_pinned s0 f k p); [done|]. intros l Hl1 Hl2 Hl3 Hl4. apply runs_bind, (run_frame_at _ _ (Frame k p true)); [done|].
  apply runs_bind. eapply runs_mono; [apply swap_write_spec; [lia|lia|simpl; lia|lia|done]|]. intros [] s1 (d & -> & D1 & D2 & Hd). simpl in D1, D2, Hd.
  apply (run_pinned _ f k p); [exact (eq_trans (Hl1 f) Hf)|]. intros l2 Hm1 Hm2 Hm3 Hm4. apply runs_bind, (run_modify_page _ _ _ x); [done|]. apply (run_modify_page _ _ _ (set_slot true idx x)); [apply lookup_insert_eq|].
  run. exists d, bm, l2. split_and!; try done; simpl in *.
  - unfold set_pages, set_frames, set_swap. simpl. by rewrite insert_insert_eq.
  - intros g. etrans; [apply Hm1|]. apply Hl1.
  - congruence.
  - intros m. rewrite Hd. by rewrite Z.add_0_r.
Qed.

(** ** Evicting a page *)

(** The page [p] in the frame [f] is ready to lose it: its contents are elsewhere too. *)
Record saved (s s2 : vm) (p : Z) (x x2 : page) (k : Z) : Prop := {
  sv_pages : pages s2 = <[p := x2]> (pages s);
  sv_supp : supplemental_pages s2 = supplemental_pages s;
  sv_same : same_source x x2;
  sv_frames g : fr_info s2 g = fr_info s g;
  sv_len : zlen (frame_table s2) = zlen (frame_table s);
  sv_ptes k' : k' ≠ page_key x → pte_info s2 k' = pte_info s k';
  sv_pte : ∃ d, pte_info s2 (page_key x) = Some (k, true, d);
  sv_ram : ram s2 = ram s;
  sv_current : current s2 = current s;
  sv_hand : clock_hand s2 = clock_hand s;
  sv_filelen n : zlen (files s2 n) = zlen (files s n);
  sv_source q y : q ≠ p → pages s !! q = Some y → source s2 y = source s y;
  sv_bits : wf (swap_bitmap s2) ∧ bit_cnt (swap_bitmap s2) = bit_cnt (swap_bitmap s);
  sv_device : bsize (swap_device s2) = bsize (swap_device s) ∧ btype (swap_device s2) = btype (swap_device s) ∧ ∀ n, zlen (sectors (swap_device s2) n) = BLOCK_SECTOR_SIZE;
  sv_slots q y : q ≠ p → pages s !! q = Some y → private y = true → run_at (swap_bitmap s2) (swap_slot y) 8 true ∧ swapped_out s2 (swap_slot y) = swapped_out s (swap_slot y);
  sv_slot : private x2 = true → dirty x2 = true ∧ 0 ≤ swap_slot x2 ∧ swap_slot x2 + 8 ≤ bit_cnt (swap_bitmap s) ∧ run_at (swap_bitmap s2) (swap_slot x2) 8 true ∧
    ∀ q y, q ≠ p → pages s !! q = Some y → private y = true → swap_slot x2 + 8 ≤ swap_slot y ∨ swap_slot y + 8 ≤ swap_slot x2;
  sv_content : take (visible x) (if private x2 then swapped_out s2 (swap_slot x2) else source s2 x) = take (visible x) (ram s k);
}.
(** The page [p] has lost the frame [f], and nobody notices. *)
Definition evicted (s s' : vm) (p f : Z) : Prop :=
  vm_inv (Some f) s' ∧ (∀ q, view s' q = view s q) ∧ (∀ g, fr_info s' g = fr_info s g) ∧ zlen (frame_table s') = zlen (frame_table s) ∧
  (∃ x', pages s' = <[p := x']> (pages s)) ∧ current s' = current s ∧ clock_hand s' = clock_hand s ∧ supplemental_pages s' = supplemental_pages s.
Lemma run_clear_page s t v k d : pte_info s (t, v) = Some (k, true, d) →
  runs (pagedir_clear_page t v) s (λ _ s', ∃ m, s' = set_pagedirs m s ∧ pte_info s' (t, v) = Some (k, false, d) ∧ ∀ k', k' ≠ (t, v) → pte_info s' k' = pte_info s k').
Proof.
  intros E. unfold pte_info in E. destruct (pagedirs s !! (t, v)) as [e|] eqn:Ee; [|done]. injection E as E1 E2 E3. unfold pagedir_clear_page, entry_at. apply runs_bind. run. rewrite Ee, E2. unfold set_entry. run.
  eexists. split_and!; [done|unfold pte_info; simpl; rewrite lookup_insert_eq; simpl; congruence|]. intros k' Hk. unfold pte_info. simpl. by rewrite lookup_insert_ne.
Qed.
Lemma finish_evict s s2 p x x2 f k : vm_inv None s → pages s !! p = Some x → p_frame x = Some f → fr_info s f = Some (k, p) → saved s s2 p x x2 k →
  runs (pagedir_clear_page (p_thread x) (vaddr x);; modify_page p (set_frame None);; mret true) s2 (λ ok s', ok = true ∧ evicted s s' p f).
Proof.
  intros Hinv Hp Hpf Hf Hsv. destruct (sv_pte _ _ _ _ _ _ Hsv) as [d Hd]. apply runs_bind. eapply runs_mono; [by apply run_clear_page|]. intros [] s3 (m & -> & Hd' & Hother).
  apply runs_bind, (run_modify_page _ _ _ x2); [simpl; rewrite (sv_pages _ _ _ _ _ _ Hsv); apply lookup_insert_eq|]. run. split; [done|]. set (s' := set_pages _ _). set (x' := set_frame None x2).
  assert (pages s' = <[p := x']> (pages s)) as Epg by (simpl; by rewrite (sv_pages _ _ _ _ _ _ Hsv), insert_insert_eq).
  assert (∀ q y g, q ≠ p → pages s !! q = Some y → p_frame y = Some g → g ≠ f) as Hneq.
  { intros q y g Hq Hy Hg ->. destruct (iv_frame _ _ Hinv q y f Hy Hg) as (_ & _ & k' & d' & E & _). congruence. }
  assert (moved (Some f) s s' p x x') as Hmv.
  { split; try (apply Hsv); try done.
    - intros k' Hk. etrans; [exact (Hother k' Hk)|by apply Hsv].
    - intros. simpl. by rewrite (sv_ram _ _ _ _ _ _ Hsv).
    - intros g k' v Hg. simpl. rewrite (sv_ram _ _ _ _ _ _ Hsv). by apply (iv_ram _ _ Hinv g k' v).
    - intros g k' v Hg Hr Hv. destruct (iv_back _ _ Hinv g k' v Hg) as (y & Hy & Hyg); [done|done|]. exists y. rewrite Epg, lookup_insert_ne; [done|]. intros ->. congruence.
    - intros q y g Hq Hy Hg [= <-]. by apply (Hneq q y f).
    - intros k' d' _. change (pte_info s' (page_key x)) with (pte_info (set_pagedirs m s2) (p_thread x, vaddr x)). rewrite Hd'. done. }
  split_and!; try (by apply Hsv); [by eapply moved_inv|..].
  - intros q. destruct (decide (q = p)) as [->|]; [|by eapply moved_view]. unfold view. rewrite Epg, lookup_insert_eq, Hp. simpl. f_equal.
    pose proof (same_source_visible _ _ (sv_same _ _ _ _ _ _ Hsv)) as Hv. change (visible x') with (visible x2). rewrite Hv. unfold content. rewrite Hpf, Hf. simpl.
    change (source s' x') with (source s2 x2). rewrite (same_source_source s2 x x2) by apply Hsv. exact (sv_content _ _ _ _ _ _ Hsv).
  - by exists x'.
Qed.

Lemma run_page_is_dirty s p x (Q : bool → vm → Prop) : pages s !! p = Some x → Q (from_option pte_dirty false (pagedirs s !! page_key x)) s → runs (page_is_dirty p) s Q.
Proof. intros Hp HQ. unfold page_is_dirty. apply runs_bind, (run_page_at _ _ x); [done|]. unfold pagedir_is_dirty, entry_at. apply runs_bind. by run. Qed.
Section page_out.
Context (s : vm) (p : Z) (x : page) (f k : Z) (d : bool).
Context (Hinv : vm_inv None s) (Hp : pages s !! p = Some x) (Hpf : p_frame x = Some f) (Hf : fr_info s f = Some (k, p)) (Hd : pte_info s (page_key x) = Some (k, true, d)).
Lemma ram_len : zlen (ram s k) = PGSIZE.
Proof using All. by apply (iv_ram _ _ Hinv f k p). Qed.
Lemma resident_not_private : private x = false.
Proof using All. by destruct (iv_frame _ _ Hinv p x f Hp Hpf) as (_ & ? & _). Qed.
(** Nothing to save. *)
Lemma saved_clean : dirty x = false → d = false → saved s (set_pages (<[p := set_dirty false x]> (pages s)) s) p x (set_dirty false x) k.
Proof using All.
  intros Hx Hdd. destruct (iv_swap _ _ Hinv) as (? & ? & ? & ?). split; try done.
  - by exists d.
  - intros q y _ Hq Hy. split; [|done]. by apply (iv_slot _ _ Hinv q y).
  - simpl. rewrite resident_not_private. done.
  - change (private (set_dirty false x)) with (private x). rewrite resident_not_private. symmetry. destruct (iv_frame _ _ Hinv p x f Hp Hpf) as (_ & _ & k' & d' & E1 & E2 & Hc).
    rewrite Hf in E1. rewrite Hd in E2. simplify_eq. by apply Hc.
Qed.
(** A modified page goes to swap. *)
Lemma saved_swap dev bm l idx : let x1 := set_dirty true x in let x2 := set_frame None (set_slot true idx x1) in
  same_frames s l → zlen l = zlen (frame_table s) → 0 ≤ idx → idx + 8 ≤ bit_cnt (swap_bitmap s) → run_at (swap_bitmap s) idx 8 false →
  updated (swap_bitmap s) bm (λ j, if (idx <=? j) && (j <? idx + 8) then true else bit (swap_bitmap s) j) →
  bsize dev = bsize (swap_device s) → btype dev = btype (swap_device s) →
  (∀ m, sectors dev m = if (idx <=? m) && (m <? idx + 8) then slice ((m - idx) * 512) 512 (ram s k) else sectors (swap_device s) m) →
  saved s (set_pages (<[p := x2]> (pages s)) (set_frames l (set_swap dev bm s))) p x x2 k.
Proof using All.
  intros x1 x2 Hl Hll Hi Hil Hrun Hup Hbs Hbt Hsec. pose proof ram_len as Hram. destruct (iv_swap _ _ Hinv) as (Hwf & ? & ? & Hlen).
  assert (∀ q y, pages s !! q = Some y → private y = true → swap_slot y + 8 ≤ bit_cnt (swap_bitmap s) ∧ 0 ≤ swap_slot y ∧ run_at (swap_bitmap s) (swap_slot y) 8 true ∧ (idx + 8 ≤ swap_slot y ∨ swap_slot y + 8 ≤ idx)) as Hfree.
  { intros q y Hq Hy. destruct (iv_slot _ _ Hinv q y Hq Hy) as (_ & ? & ? & Hr). split_and!; try done. destruct (decide (idx + 8 ≤ swap_slot y)), (decide (swap_slot y + 8 ≤ idx)); try lia. exfalso.
    pose proof (Hrun (Z.max idx (swap_slot y)) ltac:(lia)) as E1. rewrite Hr in E1 by lia. done. }
  split; simpl; try done.
  - by exists d.
  - split; [apply Hup|apply Hup].
  - split_and!; [done|done|]. intros m. rewrite Hsec. destruct (Z.leb_spec idx m), (Z.ltb_spec m (idx + 8)); cbn [andb]; try apply Hlen. rewrite zlen_slice; [done|lia|lia|]. rewrite Hram. change PGSIZE with 4096. lia.
  - intros q y _ Hq Hy. destruct (Hfree q y Hq Hy) as (? & ? & Hr & Hdis). split.
    + intros j Hj. rewrite (up_bit _ _ _ Hup) by lia. rewrite Hr by lia. by destruct (_ && _).
    + apply swapped_out_ext. intros m Hm. simpl. rewrite Hsec. destruct (Z.leb_spec idx m), (Z.ltb_spec m (idx + 8)); try lia; done.
  - intros _. split_and!; try done.
    + intros j Hj. rewrite (up_bit _ _ _ Hup) by lia. destruct (Z.leb_spec idx j), (Z.ltb_spec j (idx + 8)); try lia; done.
    + intros q y _ Hq Hy. destruct (Hfree q y Hq Hy) as (_ & _ & _ & Hdis). lia.
  - f_equal. apply swapped_out_shift; [done|]. intros m Hm. simpl. rewrite Hsec. destruct (Z.leb_spec idx m), (Z.ltb_spec m (idx + 8)); try lia; done.
Qed.
(** A modified page of a mapped file is written to the file. *)
Lemma saved_mmap s2 : p_file x ≠ NULL → mmap_id x ≠ MAP_FAILED →
  let x2 := set_dirty false x in
  pages s2 = <[p := x2]> (pages s) → supplemental_pages s2 = supplemental_pages s → frame_table s2 = frame_table s → ram s2 = ram s → current s2 = current s → clock_hand s2 = clock_hand s →
  swap_bitmap s2 = swap_bitmap s → swap_device s2 = swap_device s → (∀ k', k' ≠ page_key x → pte_info s2 k' = pte_info s k') → pte_info s2 (page_key x) = Some (k, true, false) →
  files s2 = supd (files s) (p_file x) (overwrite (file_ofs x) (slice 0 (read_bytes x) (ram s k)) (files s (p_file x))) → saved s s2 p x x2 k.
Proof using All.
  intros Hfile Hmm x2 E1 E2 E3 E4 E5 Eh E6 E7 E8 E9 E10. pose proof ram_len as Hram. change PGSIZE with 4096 in Hram. destruct (iv_swap _ _ Hinv) as (? & ? & ? & ?).
  destruct (iv_page _ _ Hinv p x Hp) as [Hpn [_ Hs]]. destruct (Z.eqb_spec (p_file x) NULL) as [|_]; [done|]. destruct Hs as (Ho & Hr & Hz & Hrz & [Hl|[_ Hl]]); [|done]. change PGSIZE with 4096 in Hrz.
  pose proof (zlen_slice 0 (read_bytes x) (ram s k) ltac:(lia) ltac:(lia) ltac:(lia)) as Hsl.
  split; try done; rewrite ?E3, ?E6, ?E7; try done.
  - intros g. unfold fr_info. by rewrite E3.
  - by exists false.
  - intros n. rewrite E10. unfold supd. destruct (Z.eqb_spec n (p_file x)) as [->|]; [|done]. rewrite zlen_overwrite by lia. done.
  - intros q y Hq Hy. unfold source. rewrite E10. destruct (Z.eqb_spec (p_file y) NULL) as [|Hyf]; [done|]. unfold supd. destruct (Z.eqb_spec (p_file y) (p_file x)) as [Hxy|]; [|done]. f_equal.
    destruct (iv_page _ _ Hinv q y Hy) as [_ [_ Hsy]]. destruct (Z.eqb_spec (p_file y) NULL) as [|_]; [done|]. destruct Hsy as (? & ? & ? & ? & [?|[-> _]]); [|done]. rewrite Hxy in *.
    apply slice_overwrite_disjoint; try lia. rewrite Hsl. destruct (iv_mmap _ _ Hinv p q x y); try done; lia.
  - intros q y _ Hq Hy. split; [by apply (iv_slot _ _ Hinv q y)|]. unfold swapped_out. by rewrite E7.
  - simpl. rewrite resident_not_private. done.
  - change (private x2) with (private x). rewrite resident_not_private. unfold visible. destruct (Z.eqb_spec (mmap_id x) MAP_FAILED) as [|_]; [done|]. unfold source. destruct (Z.eqb_spec (p_file x) NULL) as [|_]; [done|].
    rewrite E10. unfold supd. rewrite Z.eqb_refl. rewrite <-Hsl at 2. rewrite slice_overwrite by lia. rewrite take_app_le by (unfold zlen in Hsl; lia). unfold slice. rewrite take_take, drop_0. f_equal. lia.
Qed.
(** Whether a modified page can be saved. *)
Definition savable (deny : Z → bool) (s : vm) (x : page) : Prop := if mmap_id x =? MAP_FAILED then swap_room s else deny (p_file x) = false.
Lemma page_out_spec deny : p_thread x = current s → savable deny s x → runs (page_out deny p) s (λ ok s', ok = true ∧ evicted s s' p f).
Proof using All.
  intros Ht Hsave. unfold page_out. apply runs_bind, (run_page_at _ _ x); [done|]. apply runs_bind, runs_assert; [apply bool_decide_true; by rewrite Hpf|]. apply runs_bind, runs_assert; [by rewrite resident_not_private|].
  apply runs_bind, runs_get. apply runs_bind, (run_page_is_dirty _ _ x); [done|]. apply runs_bind, (run_modify_page _ _ _ x); [done|]. rewrite <-Ht.
  assert (∀ s2 x2, saved s s2 p x x2 k → runs (pagedir_clear_page (p_thread x) (vaddr x);; modify_page p (set_frame None);; mret true) s2 (λ ok s', ok = true ∧ evicted s s' p f)) as Hfin by (intros; by eapply finish_evict).
  pose proof Hd as Hd'. unfold pte_info in Hd'. destruct (pagedirs s !! page_key x) as [e|] eqn:Ee; [|done]. simpl. injection Hd' as Ek Epr Ed. rewrite Ed.
  set (s1 := set_pages _ s). assert (pages s1 !! p = Some (set_dirty (dirty x || d) x)) as Hp1 by apply lookup_insert_eq. apply runs_bind. destruct (dirty x || d) eqn:Ex; cycle 1.
  { apply orb_false_iff in Ex as [? ?]. apply runs_ret. apply (Hfin _ (set_dirty false x)). by apply saved_clean. }
  assert (swap_room s → runs (swap_out p;; mret true) s1 (λ ok s', runs (if ok : bool then pagedir_clear_page (p_thread x) (vaddr x);; modify_page p (set_frame None);; mret true else mret false) s' (λ ok s', ok = true ∧ evicted s s' p f))) as Hswap.
  { intros Hroom. apply runs_bind. eapply runs_mono; [apply (swap_out_spec s1 p (set_dirty true x) f k); [apply (iv_swap _ _ Hinv)|done|done|done|done]|]. intros idx s2 (dev & bm & l & -> & Hl & Hll & Hi & Hil & Hrun & Hup & Hbs & Hbt & Hsec). apply runs_ret.
    apply (Hfin _ (set_frame None (set_slot true idx (set_dirty true x)))). unfold s1, set_pages at 1 2. simpl. rewrite insert_insert_eq. by apply (saved_swap dev bm l idx). }
  unfold savable in Hsave. destruct (Z.eqb_spec (p_file x) NULL) as [Ef|Ef].
  { apply Hswap. destruct (iv_page _ _ Hinv p x Hp) as [_ [_ Hs]]. rewrite Ef in Hs. simpl in Hs. by rewrite Hs in Hsave. }
  destruct (Z.eqb_spec (mmap_id x) MAP_FAILED) as [Em|Em]; [by apply Hswap|]. destruct (iv_page _ _ Hinv p x Hp) as [_ [[_ Hal] _]]. destruct (iv_ram _ _ Hinv f k p Hf) as [_ Hk].
  apply runs_bind. unfold file_write_at. apply runs_bind, runs_get. rewrite Hsave. apply runs_bind. unfold pagedir_get_page, entry_at. apply runs_bind. change (current s1) with (current s). rewrite <-Ht.
  fold (page_key x). run. change (pagedirs s1) with (pagedirs s). rewrite Ee, Epr, Ek. apply runs_ret. rewrite pg_ofs_mod, Hal, Z.add_0_r. destruct (Z.eqb_spec k NULL) as [|_]; [done|]. run. rewrite Z.eqb_refl. cbn [negb].
  unfold pagedir_set_dirty, entry_at. apply runs_bind. apply runs_bind. run. change (pagedirs _) with (pagedirs s). fold (page_key x). rewrite Ee. unfold set_entry. apply runs_modify.
  apply runs_bind, (run_modify_page _ _ _ (set_dirty true x)); [done|]. apply runs_ret. apply (Hfin _ (set_dirty false x)). apply saved_mmap; try done.
  - simpl. by rewrite insert_insert_eq.
  - intros k' Hk'. unfold pte_info. simpl. by rewrite lookup_insert_ne.
  - unfold pte_info. simpl. rewrite lookup_insert_eq. simpl. congruence.
Qed.
End page_out.
