(* ===== verification/VmPageIn.v ===== *)
(** * Virtual memory: bringing a page in

    [frame_alloc] finds a free frame or evicts a page of the current thread;
    [page_in] fills the frame from swap, from the file or with zeros and maps
    it.  No page's [view] changes. *)

From S2P Require Import Prelude Bitmap KList Vaddr Cache Inode InodeSpec Vm VmSpec.

(** ** Getting a frame *)

(** The frame [f] is given to the page [p], which does not know yet. *)
Definition given (s : vm) (f p : Z) (fr : frame) : vm := set_frames ((frame_table s)@[f := set_vpage p fr]) s.
Lemma given_info s f p fr g : (frame_table s)@[f] = Some fr → fr_info (given s f p fr) g = if g =? f then Some (kpage fr, p) else fr_info s g.
Proof. intros H. unfold given. rewrite fr_info_insert by (by eapply zlookup_bound). done. Qed.
Lemma given_inv r s f p fr : vm_inv r s → (r = None ∨ r = Some f) → (frame_table s)@[f] = Some fr → (∀ q y, pages s !! q = Some y → p_frame y ≠ Some f) →
  vm_inv (Some f) (given s f p fr) ∧ ∀ q, view (given s f p fr) q = view s q.
Proof.
  intros Hinv Hr Hfr Hno. pose proof (given_info s f p fr) as Hi. pose proof (fr_info_Some s f fr Hfr) as Hf. split; [split|].
  - intros g k v. rewrite (Hi g Hfr). destruct (Z.eqb_spec g f) as [->|]; [intros [= <- <-]; by apply (iv_ram _ _ Hinv f _ (vpage fr))|apply (iv_ram _ _ Hinv)].
  - intros g h k v w. rewrite (Hi g Hfr), (Hi h Hfr). destruct (Z.eqb_spec g f) as [->|], (Z.eqb_spec h f) as [->|]; try done.
    + intros [= <- <-] Hh. by apply (iv_kpage _ _ Hinv f h (kpage fr) (vpage fr) w).
    + intros Hg [= <- <-]. by apply (iv_kpage _ _ Hinv g f (kpage fr) v (vpage fr)).
    + apply (iv_kpage _ _ Hinv).
  - intros g k q. rewrite (Hi g Hfr). destruct (Z.eqb_spec g f) as [->|Hne]; [done|]. intros Hg _. apply (iv_back _ _ Hinv g k q); [done|]. destruct Hr as [-> | ->]; congruence.
  - intros q y g Hq Hg. assert (g ≠ f) as Hne by (intros ->; by apply (Hno q y)). destruct (iv_frame _ _ Hinv q y g Hq Hg) as (_ & Hpr & k & d & Hk & Hrest). split_and!; [congruence|done|].
    exists k, d. rewrite (Hi g Hfr). destruct (Z.eqb_spec g f); [done|]. by split.
  - apply (iv_absent _ _ Hinv).
  - intros q y Hq. destruct (iv_page _ _ Hinv q y Hq) as [? [? ?]]. split; [done|]. by split.
  - apply (iv_stray _ _ Hinv).
  - apply (iv_supp _ _ Hinv).
  - apply (iv_mmap _ _ Hinv).
  - apply (iv_slot _ _ Hinv).
  - apply (iv_slots _ _ Hinv).
  - apply (iv_swap _ _ Hinv).
  - intros q. unfold view. simpl. destruct (pages s !! q) as [y|] eqn:Ey; [|done]. simpl. do 2 f_equal. unfold content. destruct (p_frame y) as [g|] eqn:Eg; [|done].
    rewrite (Hi g Hfr). destruct (Z.eqb_spec g f) as [->|]; [|done]. by destruct (Hno q y).
Qed.

(** [frame_alloc] has given the frame [f] to [p]. *)
Definition obtained (s s' : vm) (p f : Z) : Prop :=
  vm_inv (Some f) s' ∧ (∀ q, view s' q = view s q) ∧ hand_ok s' ∧ (∃ k, fr_info s' f = Some (k, p)) ∧
  pages s' !! p = pages s !! p ∧ current s' = current s ∧ supplemental_pages s' = supplemental_pages s.

Lemma free_frame_spec n : ∀ s f p, 0 ≤ f → f + Z.of_nat n = zlen (frame_table s) →
  runs (free_frame n f p) s (λ r s', match r with
    | Some g => ∃ fr, (frame_table s)@[g] = Some fr ∧ vpage fr = NULL ∧ s' = given s g p fr
    | None => s' = s ∧ ∀ g fr, f ≤ g → (frame_table s)@[g] = Some fr → vpage fr ≠ NULL
    end).
Proof.
  induction n as [|n IH]; intros s f p Hf Hn; cbn [free_frame]; [run; split; [done|]; intros g fr Hg Hfr%zlookup_bound; lia|].
  destruct (zlookup_lt (frame_table s) f) as [fr Hfr]; [lia|]. apply runs_bind, (run_frame_at _ _ fr); [done|]. destruct (Z.eqb_spec (vpage fr) NULL) as [E|E].
  - apply runs_bind, (run_modify_frame _ _ _ fr); [done|]. run. by exists fr.
  - eapply runs_mono; [apply IH; lia|]. intros [g|] s'; [done|]. intros [-> H]. split; [done|]. intros g fr' Hg Hfr'. destruct (decide (g = f)) as [->|]; [congruence|]. apply (H g fr'); [lia|done].
Qed.
Lemma savable_similar deny s s' x : similar s s' → savable deny s x → savable deny s' x.
Proof. intros H. unfold savable, swap_room. by rewrite (sm_bitmap _ _ H). Qed.

Section frame_alloc.
Context (deny : Z → bool) (s : vm) (p : Z) (x : page) (Hinv : vm_inv None s) (Hhand : hand_ok s) (Hp : pages s !! p = Some x) (Hnf : p_frame x = None).
(** The pages of the current thread can be saved. *)
Context (Hsave : ∀ q y, pages s !! q = Some y → p_thread y = current s → savable deny s y).
Lemma free_obtained f fr : (frame_table s)@[f] = Some fr → vpage fr = NULL → obtained s (given s f p fr) p f.
Proof using All.
  intros Hfr Hv. destruct (given_inv None s f p fr Hinv ltac:(by left) Hfr) as [Hi Hview].
  { intros q y Hq Hf. destruct (iv_frame _ _ Hinv q y f Hq Hf) as (_ & _ & k & d & E & _). rewrite (fr_info_Some _ _ _ Hfr), Hv in E. injection E as _ <-. by destruct (iv_page _ _ Hinv NULL y Hq). }
  split_and!; try done; [intros h Hh; unfold given; simpl; rewrite zlen_insert; by apply Hhand|]. exists (kpage fr). rewrite given_info by done. by rewrite Z.eqb_refl.
Qed.
Lemma frame_victim_spec g k : frames_used s → candidate s g k → runs (frame_victim deny p) s (λ f s', obtained s s' p f).
Proof using All.
  intros Hu Hg. unfold frame_victim. apply runs_bind. eapply runs_mono; [by apply (clock_loop_spec s g k)|]. intros f s1 [(A & B & _ & Hh1) [k' Hc]].
  destruct Hc as (fr & y & Hfr & Hpin & Hy & Ht & _). destruct (iv_back _ _ Hinv f (kpage fr) (vpage fr)) as (y' & Hy' & Hyf); [by apply fr_info_Some|done|intros E; rewrite E in Hy; by destruct (iv_page _ _ Hinv NULL y Hy)|].
  rewrite Hy in Hy'. injection Hy' as <-. destruct (iv_frame _ _ Hinv (vpage fr) y f Hy Hyf) as (_ & _ & kk & d & Hk & Hd & _). assert (fr_info s1 f = Some (kk, vpage fr)) as Hk1 by (by rewrite (sm_frames _ _ A)).
  apply (run_pinned s1 f kk (vpage fr)); [done|]. intros l Hl1 Hl2 _ Hlf. set (s2 := set_frames l s1). assert (similar s s2) as S2 by (etrans; [exact A|]; split; try done).
  apply runs_bind, (run_frame_at _ _ (Frame kk (vpage fr) true)); [done|]. simpl. apply runs_bind.
  eapply runs_mono; [apply (page_out_spec s2 (vpage fr) y f kk d)|].
  { by eapply similar_inv. } { by rewrite (sm_pages _ _ S2). } { done. } { by rewrite (sm_frames _ _ S2). } { by rewrite (sm_ptes _ _ S2). } { by rewrite (sm_current _ _ S2). } { eapply savable_similar; [done|]. by eapply Hsave. }
  intros ok s3 [-> (I3 & V3 & F3 & L3 & [y' P3] & C3 & H3 & U3)]. assert (fr_info s3 f = Some (kk, vpage fr)) as Hk3 by (by rewrite F3, (sm_frames _ _ S2)).
  apply (run_pinned s3 f kk (vpage fr)); [done|]. intros l4 Hm1 Hm2 _ Hm4. set (s4 := set_frames l4 s3). assert (similar s3 s4) as S4 by (split; try done).
  apply runs_bind, (run_modify_frame _ _ _ (Frame kk (vpage fr) false)); [done|]. run. fold (given s4 f p (Frame kk (vpage fr) false)).
  destruct (given_inv (Some f) s4 f p (Frame kk (vpage fr) false)) as [I5 V5]; [by eapply similar_inv|by right|done|intros q z Hq Hqf; by destruct (iv_frame _ _ I3 q z f Hq Hqf)|].
  split_and!; [done| | | | | |].
  - intros q. rewrite V5, (similar_view s3 s4), V3, (similar_view s s2) by done. done.
  - intros h Hh. unfold given. simpl. rewrite zlen_insert. change (clock_hand (given s4 f p _)) with (clock_hand s3) in Hh. rewrite H3 in Hh. change (clock_hand s2) with (clock_hand s1) in Hh.
    apply (Hh1 Hhand) in Hh. rewrite Hm2, L3. simpl. lia.
  - exists kk. rewrite given_info by done. by rewrite Z.eqb_refl.
  - simpl. rewrite P3, lookup_insert_ne by (intros E; congruence). by rewrite (sm_pages _ _ S2).
  - simpl. rewrite C3. apply S2.
  - simpl. rewrite U3. apply S2.
Qed.
(** There is a free frame, or one that the current thread can give up. *)
Definition frame_available : Prop := (∃ f k, fr_info s f = Some (k, NULL)) ∨ ∃ g k, candidate s g k.
Lemma frame_alloc_spec : frame_available → runs (frame_alloc deny p) s (λ f s', obtained s s' p f).
Proof using All.
  intros Hav. unfold frame_alloc. apply runs_bind, runs_get, runs_bind. eapply runs_mono; [apply (free_frame_spec _ s 0 p); [lia|unfold zlen; lia]|]. intros [g|] s1.
  - intros (fr & Hfr & Hv & ->). run. by apply free_obtained.
  - intros [-> Hno]. destruct Hav as [(f & k & Hf)|(g & k & Hg)].
    + destruct (fr_info_inv _ _ _ _ Hf) as [b Hfr]. exfalso. by apply (Hno f _ ltac:(apply zlookup_bound in Hfr; lia) Hfr).
    + apply (frame_victim_spec g k); [|done]. intros f fr Hfr. destruct (iv_back _ _ Hinv f (kpage fr) (vpage fr)) as (y & Hy & _); [by apply fr_info_Some|done| |by exists y].
      apply (Hno f fr); [apply zlookup_bound in Hfr; lia|done].
Qed.
End frame_alloc.

(** ** Filling the frame *)

Lemma block_write_over i (done rest d : list Z) : zlen done = i → overwrite i d (done ++ rest) = done ++ d ++ drop (length d) rest.
Proof. intros <-. unfold overwrite, zlen. rewrite Nat2Z.id, take_app_length. do 2 f_equal. by rewrite drop_app_add. Qed.
Lemma swap_read_spec n : ∀ s slot k i done rest, ram s k = done ++ rest → zlen done = i * BLOCK_SECTOR_SIZE → 0 ≤ slot → 0 ≤ i →
  slot + i + Z.of_nat n ≤ bsize (swap_device s) → slot + i + Z.of_nat n < 2 ^ 32 → (∀ m, zlen (sectors (swap_device s) m) = BLOCK_SECTOR_SIZE) →
  runs (swap_read n slot k i) s (λ _ s', ∃ d R, s' = set_ram R (set_swap d (swap_bitmap s) s) ∧ bsize d = bsize (swap_device s) ∧ btype d = btype (swap_device s) ∧ sectors d = sectors (swap_device s) ∧
    R k = done ++ (seqZ (slot + i) (Z.of_nat n) ≫= sectors (swap_device s)) ++ drop (n * 512) rest ∧ ∀ k', k' ≠ k → R k' = ram s k').
Proof.
  induction n as [|n IH]; intros s slot k i done rest Hr Hd Hs Hi Hb H32 Hl; cbn [swap_read].
  { run. exists (swap_device s), (ram s). split_and!; try done; by destruct s. }
  apply runs_bind. rewrite u32_small by lia. destruct (block_read_spec (swap_device s) (slot + i)) as (dev & E & D1 & D2 & D3); [lia|]. unfold on_swap, runs. rewrite E. cbn [mbind].
  set (d := sectors (swap_device s) (slot + i)) in *. set (s1 := set_swap dev _ s). apply runs_bind. unfold copy_to_frame. apply runs_modify. set (s2 := set_ram _ s1).
  assert (zlen d = 512) as Hld by apply Hl. assert (length d = 512%nat) as Hld' by (unfold zlen in Hld; lia). assert (ram s2 k = (done ++ d) ++ drop 512 rest) as Hr2.
  { simpl. unfold supd. rewrite Z.eqb_refl. rewrite Hr, block_write_over by done. by rewrite Hld', <-app_assoc. }
  eapply runs_mono; [apply (IH s2 slot k (i + 1) (done ++ d) (drop 512 rest)); [done|rewrite zlen_app; unfold BLOCK_SECTOR_SIZE in *; lia|done|lia|simpl; lia|lia|simpl; intros m; by rewrite D3]|].
  intros [] s' (d' & R & -> & E1 & E2 & E3 & E4 & E5). exists d', R. simpl in E1, E2, E3, E4. split_and!; [done|congruence|congruence|congruence| |].
  - rewrite E4, <-app_assoc. f_equal. rewrite (seqZ_cons (slot + i)) by lia. simpl. fold d. rewrite <-app_assoc. f_equal. rewrite D3. f_equal; [|rewrite drop_drop; f_equal; lia].
    replace (Z.succ (slot + i)) with (slot + (i + 1)) by lia. replace (Z.pred (Z.of_nat (S n))) with (Z.of_nat n) by lia. done.
  - intros k' Hk. rewrite E5 by done. simpl. unfold supd. by destruct (Z.eqb_spec k' k).
Qed.

(** The frame [f] of the page has its contents; the page is not mapped yet. *)
Record filled (s s3 : vm) (p : Z) (x x' : page) (f k : Z) : Prop := {
  fl_pages : pages s3 = <[p := x']> (pages s);
  fl_supp : supplemental_pages s3 = supplemental_pages s;
  fl_same : same_source x x';
  fl_page : p_frame x' = Some f ∧ private x' = false ∧ dirty x' = dirty x;
  fl_frames g : fr_info s3 g = fr_info s g;
  fl_len : zlen (frame_table s3) = zlen (frame_table s);
  fl_pagedirs : pagedirs s3 = pagedirs s;
  fl_ram k' : k' ≠ k → ram s3 k' = ram s k';
  fl_ramlen : zlen (ram s3 k) = PGSIZE;
  fl_files : files s3 = files s;
  fl_device : bsize (swap_device s3) = bsize (swap_device s) ∧ btype (swap_device s3) = btype (swap_device s) ∧ sectors (swap_device s3) = sectors (swap_device s);
  fl_bits : wf (swap_bitmap s3) ∧ bit_cnt (swap_bitmap s3) = bit_cnt (swap_bitmap s);
  fl_slots q y : q ≠ p → pages s !! q = Some y → private y = true → run_at (swap_bitmap s3) (swap_slot y) 8 true;
  fl_content : take (visible x) (ram s3 k) = take (visible x) (content s x);
  fl_current : current s3 = current s;
  fl_hand : clock_hand s3 = clock_hand s;
}.
Section load.
Context (s : vm) (p : Z) (x : page) (f k : Z) (Hinv : vm_inv (Some f) s) (Hp : pages s !! p = Some x) (Hnf : p_frame x = None) (Hf : fr_info s f = Some (k, p)).
Lemma filled_moved s3 s' x' m : filled s s3 p x x' f k → s' = set_pagedirs m s3 → pte_info s' (page_key x) = Some (k, true, false) → (∀ k', k' ≠ page_key x → pte_info s' k' = pte_info s3 k') → moved None s s' p x x'.
Proof using All.
  intros Hfl -> Hpte Hptes. destruct (fl_page _ _ _ _ _ _ _ Hfl) as (Hx1 & Hx2 & Hx3). destruct (fl_device _ _ _ _ _ _ _ Hfl) as (D1 & D2 & D3). destruct (iv_swap _ _ Hinv) as (_ & _ & _ & Hlen).
  assert (∀ y, source s3 y = source s y) as Hsrc by (intros y; unfold source; by rewrite (fl_files _ _ _ _ _ _ _ Hfl)).
  split; try done; try apply Hfl.
  - intros k' Hk. rewrite Hptes by done. unfold pte_info. by rewrite (fl_pagedirs _ _ _ _ _ _ _ Hfl).
  - intros q y g k' Hq Hy Hg Hk. apply (fl_ram _ _ _ _ _ _ _ Hfl). intros ->. destruct (iv_frame _ _ Hinv q y g Hy Hg) as [Hne _]. apply Hne. f_equal. by apply (iv_kpage _ _ Hinv f g k p q).
  - intros g k' v Hg. simpl. destruct (decide (k' = k)) as [->|]; [apply Hfl|]. rewrite (fl_ram _ _ _ _ _ _ _ Hfl) by done. by apply (iv_ram _ _ Hinv g k' v).
  - intros n. simpl. by rewrite (fl_files _ _ _ _ _ _ _ Hfl).
  - intros q y _ _. apply Hsrc.
  - simpl. rewrite D1, D2, D3. done.
  - intros q y Hq Hy Hpr. split; [by apply (fl_slots _ _ _ _ _ _ _ Hfl q y)|]. unfold swapped_out. simpl. by rewrite D3.
  - intros g k' v Hg _ Hv. simpl. rewrite (fl_pages _ _ _ _ _ _ _ Hfl). destruct (decide (g = f)) as [->|Hgf].
    + exists x'. rewrite Hf in Hg. injection Hg as _ <-. by rewrite lookup_insert_eq.
    + destruct (iv_back _ _ Hinv g k' v Hg) as (y & Hy & Hyg); [congruence|done|]. exists y. rewrite lookup_insert_ne; [done|]. intros <-. congruence.
  - intros g Hg. rewrite Hx1 in Hg. injection Hg as <-. split_and!; [done|done|]. exists k, false. split_and!; [done|done|]. intros Hdx _. simpl. rewrite Hx3 in Hdx.
    rewrite (fl_content _ _ _ _ _ _ _ Hfl). change (source (set_pagedirs m s3) x) with (source s3 x). rewrite Hsrc. unfold content. rewrite Hnf. destruct (private x) eqn:Epr; [|done].
    destruct (iv_slot _ _ Hinv p x Hp Epr) as [Hd _]. congruence.
  - intros k' d Hx. congruence.
  - intros Hx. congruence.
Qed.
Lemma run_map_page pt_alloc s3 w : pte_info s3 (page_key x) = pte_info s (page_key x) → pt_alloc (p_thread x) (vaddr x) = true →
  runs (k' ← pagedir_get_page (p_thread x) (vaddr x); if k' =? NULL then pagedir_set_page pt_alloc (p_thread x) (vaddr x) k w else mret true) s3
    (λ ok s', ok = true ∧ s' = set_pagedirs (<[page_key x := Pte k w true false false]> (pagedirs s3)) s3).
Proof using All.
  intros E Hpt. assert (from_option pte_present false (pagedirs s3 !! page_key x) = false) as Hpr.
  { destruct (pagedirs s3 !! page_key x) as [e|] eqn:Ee; [|done]. simpl. destruct (pte_present e) eqn:Epr; [|done]. exfalso. apply (iv_absent _ _ Hinv p x (pte_page e) (pte_dirty e) Hp Hnf). rewrite <-E. unfold pte_info. rewrite Ee. simpl. by rewrite Epr. }
  apply runs_bind. unfold pagedir_get_page, entry_at. apply runs_bind. run. fold (page_key x).
  apply (runs_mono _ _ (λ k' s', k' = NULL ∧ s' = s3)); [destruct (pagedirs s3 !! page_key x) as [e|]; simpl in Hpr; rewrite ?Hpr; by run|]. intros k' s' [-> ->]. cbn [Z.eqb NULL].
  unfold pagedir_set_page, entry_at. apply runs_bind. run. fold (page_key x). rewrite Hpt, andb_false_r. run. apply runs_assert; [by rewrite Hpr|]. unfold set_entry. by run.
Qed.
(** The page is mapped: all is as before, and the page is in memory. *)
Definition present (s : vm) (p : Z) : Prop := ∃ x f, pages s !! p = Some x ∧ p_frame x = Some f.
Lemma finish_load pt_alloc s3 x' w : filled s s3 p x x' f k → pt_alloc (p_thread x) (vaddr x) = true → hand_ok s →
  runs (k' ← pagedir_get_page (p_thread x) (vaddr x); if k' =? NULL then pagedir_set_page pt_alloc (p_thread x) (vaddr x) k w else mret true) s3
    (λ ok s', ok = true ∧ vm_inv None s' ∧ hand_ok s' ∧ (∀ q, view s' q = view s q) ∧ present s' p).
Proof using All.
  intros Hfl Hpt Hh. eapply runs_mono; [apply run_map_page; [unfold pte_info; by rewrite (fl_pagedirs _ _ _ _ _ _ _ Hfl)|done]|]. intros ok s' [-> Hs']. destruct (fl_page _ _ _ _ _ _ _ Hfl) as (Hx1 & Hx2 & _).
  assert (moved None s s' p x x') as Hmv.
  { eapply filled_moved; [done|exact Hs'|..]; subst s'; unfold pte_info; simpl; [by rewrite lookup_insert_eq|]. intros k' Hk'. by rewrite lookup_insert_ne. }
  assert (pages s' !! p = Some x') as Hp' by (rewrite (mv_pages _ _ _ _ _ _ Hmv); apply lookup_insert_eq).
  split_and!; [done|by eapply moved_inv|intros h; subst s'; simpl; rewrite (fl_hand _ _ _ _ _ _ _ Hfl), (fl_len _ _ _ _ _ _ _ Hfl); apply Hh| |by exists x', f].
  intros q. destruct (decide (q = p)) as [->|]; [|by eapply moved_view]. unfold view. rewrite Hp', Hp. simpl. f_equal. rewrite (same_source_visible x x') by apply Hfl.
  unfold content at 1. rewrite Hx1, (mv_frames _ _ _ _ _ _ Hmv), Hf. subst s'. simpl. apply Hfl.
Qed.
End load.

(** ** The three sources of a page *)

Lemma two_pins s l l' : same_frames s l → same_frames (set_frames l s) l' → same_frames s l'.
Proof. intros H H' g. etrans; [apply H'|apply H]. Qed.
Lemma fill_page (d z l : list Z) : zlen d + zlen z = zlen l → overwrite (zlen d) z (overwrite 0 d l) = d ++ z.
Proof.
  intros Hl. change (overwrite 0 d l) with (overwrite 0 d ([] ++ l)). rewrite (block_write_over 0 []) by done. simpl. rewrite block_write_over by done.
  rewrite drop_drop, drop_ge by (unfold zlen in Hl; lia). by rewrite app_nil_r.
Qed.
Lemma zlen_blocks n : ∀ slot (g : Z → list Z), (∀ m, zlen (g m) = BLOCK_SECTOR_SIZE) → zlen (seqZ slot (Z.of_nat n) ≫= g) = Z.of_nat n * 512.
Proof.
  induction n as [|n IH]; intros slot g Hg; [done|]. rewrite seqZ_cons by lia. simpl. rewrite zlen_app, Hg. replace (Z.pred (Z.of_nat (S n))) with (Z.of_nat n) by lia. rewrite IH by done. unfold BLOCK_SECTOR_SIZE. lia.
Qed.
Section sources.
Context (s : vm) (p : Z) (x : page) (f k : Z) (Hinv : vm_inv (Some f) s) (Hp : pages s !! p = Some x) (Hnf : p_frame x = None) (Hf : fr_info s f = Some (k, p)).
Let s2 : vm := set_pages (<[p := set_frame (Some f) x]> (pages s)) s.
Lemma frame_len : zlen (ram s k) = PGSIZE.
Proof using All. by apply (iv_ram _ _ Hinv f k p). Qed.
(** Zeros, or the bytes of a file and zeros. *)
Lemma filled_source s3 l R : s3 = set_ram R (set_frames l s2) → same_frames s l → zlen l = zlen (frame_table s) → private x = false → R k = source s x → zlen (source s x) = PGSIZE →
  (∀ k', k' ≠ k → R k' = ram s k') → filled s s3 p x (set_frame (Some f) x) f k.
Proof using All.
  intros -> Hl Hll Hpr HR Hlen Hother. destruct (iv_swap _ _ Hinv) as (? & ? & ? & ?). split; simpl; try done.
  - by rewrite HR.
  - intros q y _ Hq Hy. by apply (iv_slot _ _ Hinv q y).
  - rewrite HR. unfold content. by rewrite Hnf, Hpr.
Qed.
Lemma run_zero_page {A} (m : V A) (Q : A → vm → Prop) : private x = false → p_file x = NULL → (∀ s3, filled s s3 p x (set_frame (Some f) x) f k → runs m s3 Q) →
  runs (modify_frame f (set_pinned true);; copy_to_frame k 0 zero_page;; modify_frame f (set_pinned false);; m) s2 Q.
Proof using All.
  intros Hpr Hfile Hm. apply (run_pinned s2 f k p); [done|]. intros l Hl1 Hl2 _ _. apply runs_bind. unfold copy_to_frame. apply runs_modify. set (s3 := set_ram _ _).
  apply (run_pinned s3 f k p); [exact (eq_trans (Hl1 f) Hf)|]. intros l' Hm1 Hm2 _ _. apply Hm. pose proof frame_len as Hlen.
  assert (source s x = zero_page) as Hsrc by (unfold source; by rewrite Hfile).
  eapply (filled_source _ l' (ram s3)); [done|intros g; etrans; [apply Hm1|apply Hl1]|exact (eq_trans Hm2 Hl2)|done| |by rewrite Hsrc|].
  - simpl. unfold supd. rewrite Z.eqb_refl, Hsrc. apply overwrite_all. by rewrite Hlen.
  - intros k' Hk. simpl. unfold supd. by destruct (Z.eqb_spec k' k).
Qed.
Lemma run_read_page {A} (m : bool → V A) (Q : A → vm → Prop) : private x = false → p_file x ≠ NULL → (∀ s3, filled s s3 p x (set_frame (Some f) x) f k → runs (m true) s3 Q) →
  runs (modify_frame f (set_pinned true);; r ← read_page (set_frame (Some f) x) k; (if p_writable x then modify_frame f (set_pinned false) else mret tt);; m r) s2 Q.
Proof using All.
  intros Hpr Hfile Hm. apply (run_pinned s2 f k p); [done|]. intros l Hl1 Hl2 _ _. pose proof frame_len as Hlen. destruct (iv_page _ _ Hinv p x Hp) as [_ [_ Hs]]. destruct (Z.eqb_spec (p_file x) NULL) as [|_]; [done|].
  destruct Hs as (Ho & Hr & Hz & Hrz & Hfl). set (d := slice (file_ofs x) (read_bytes x) (files s (p_file x))). set (z := replicate (Z.to_nat (zero_bytes x)) 0).
  assert (zlen d = read_bytes x) as Hd by (unfold d; destruct Hfl as [Hfl|[E _]]; [apply zlen_slice; lia|by rewrite E]). assert (zlen z = zero_bytes x) as Hzl by (unfold z, zlen; rewrite length_replicate; lia).
  assert (source s x = d ++ z) as Hsrc by (unfold source; destruct (Z.eqb_spec (p_file x) NULL); done).
  apply runs_bind. unfold read_page. apply runs_bind, runs_get. apply runs_bind. unfold copy_to_frame at 1. apply runs_modify. simpl. fold d. rewrite Hd, Z.eqb_refl. cbn [negb]. fold z.
  apply runs_bind. unfold copy_to_frame. apply runs_modify. apply runs_ret. set (s3 := set_ram _ _).
  assert (∀ l', same_frames s l' → zlen l' = zlen (frame_table s) → filled s (set_frames l' s3) p x (set_frame (Some f) x) f k) as Hfill.
  { intros l' H1 H2. eapply (filled_source _ l' (ram s3)); [done|done|done|done| |rewrite Hsrc, zlen_app; lia|].
    - simpl. unfold supd. rewrite Z.eqb_refl, Hsrc, <-Hd. apply fill_page. lia.
    - intros k' Hk. simpl. unfold supd. by destruct (Z.eqb_spec k' k). }
  destruct (p_writable x).
  - apply (run_pinned s3 f k p); [exact (eq_trans (Hl1 f) Hf)|]. intros l' Hm1 Hm2 _ _. apply Hm, Hfill; [intros g; etrans; [apply Hm1|apply Hl1]|exact (eq_trans Hm2 Hl2)].
  - apply runs_bind, runs_ret. apply Hm. apply (Hfill l); done.
Qed.
Lemma run_swap_in {A} (m : V A) (Q : A → vm → Prop) : private x = true → (∀ s3, filled s s3 p x (set_slot false NO_SECTOR (set_frame (Some f) x)) f k → runs m s3 Q) → runs (swap_in p;; m) s2 Q.
Proof using All.
  intros Hpr Hm. destruct (iv_page _ _ Hinv p x Hp) as [Hpn _]. destruct (iv_slot _ _ Hinv p x Hp Hpr) as (Hdirty & Hs0 & Hs8 & Hrun). destruct (iv_swap _ _ Hinv) as (Hwf & Hbs & Hbt & Hsec). pose proof (wf_cnt _ Hwf) as Hcnt. pose proof frame_len as Hlen.
  assert (pages s2 !! p = Some (set_frame (Some f) x)) as Hp2 by apply lookup_insert_eq. unfold swap_in. apply runs_bind, runs_bind, runs_assert; [by destruct (Z.eqb_spec p NULL)|]. apply runs_bind, (run_page_at _ _ (set_frame (Some f) x)); [done|].
  apply runs_bind, runs_assert; [done|]. change (swap_slot (set_frame (Some f) x)) with (swap_slot x). apply runs_bind, runs_assert; [destruct (Z.eqb_spec (swap_slot x) BITMAP_ERROR); [unfold BITMAP_ERROR, SIZE_MAX in *; lia|done]|].
  destruct (contains_negb_spec (swap_bitmap s) (swap_slot x) 8 true Hwf) as (r & Er & Hr); [lia..|]. assert (r = false) as -> by (by apply Hr).
  apply runs_bind. unfold assert_swapped, bitmap_all. apply runs_bind, runs_get. change PAGE_BLOCKS with 8. change (swap_bitmap s2) with (swap_bitmap s). simpl (swap_slot _). change (negb true) with false in Er. rewrite Er. cbn [mbind outcome_bind]. apply runs_bind, runs_lift. cbn [mbind outcome_bind]. apply runs_assert; [done|].
  apply runs_bind, runs_assert; [done|]. apply runs_bind, (run_frame_of _ f); [done|]. apply (run_pinned s2 f k p); [done|]. intros l Hl1 Hl2 _ Hlf. apply runs_bind, (run_frame_at _ _ (Frame k p true)); [done|]. simpl (kpage _).
  apply runs_bind. eapply runs_mono; [apply (swap_read_spec _ _ (swap_slot x) k 0 [] (ram s k)); [done|done|lia|lia|simpl; lia|lia|done]|]. intros [] s3 (dev & R & -> & D1 & D2 & D3 & HR & Hother). simpl in D1, D2, D3, HR, Hother.
  apply (run_pinned _ f k p); [exact (eq_trans (Hl1 f) Hf)|]. intros l' Hm1 Hm2 _ _. destruct (set_multiple_spec (swap_bitmap s) (swap_slot x) 8 false Hwf) as (bm & Eb & Hup); [lia..|].
  apply runs_bind. unfold set_swap_bits. apply runs_bind, runs_get. change PAGE_BLOCKS with 8. simpl (swap_bitmap _). rewrite Eb. apply runs_bind, runs_lift. cbn [mbind outcome_bind]. apply runs_put.
  apply (run_modify_page _ _ _ (set_frame (Some f) x)); [done|]. apply Hm.
  assert (R k = swapped_out s (swap_slot x)) as HRk.
  { rewrite HR, drop_ge by (change PGSIZE with 4096 in Hlen; unfold zlen in Hlen; lia). by rewrite app_nil_r, Z.add_0_r. }
  split; simpl; try done.
  - unfold s2. simpl. by rewrite insert_insert_eq.
  - intros g. etrans; [apply Hm1|apply Hl1].
  - exact (eq_trans Hm2 Hl2).
  - rewrite HRk. unfold swapped_out. by rewrite (zlen_blocks 8).
  - split; apply Hup.
  - intros q y Hq Hy Hyp j Hj. destruct (iv_slot _ _ Hinv q y Hy Hyp) as (_ & ? & ? & Hr'). rewrite (up_bit _ _ _ Hup) by lia.
    destruct (iv_slots _ _ Hinv p q x y) as [?|?]; [done..| |]; (destruct (Z.leb_spec (swap_slot x) j), (Z.ltb_spec j (swap_slot x + 8)); try lia; by apply Hr').
  - rewrite HRk. unfold content. by rewrite Hnf, Hpr.
Qed.
End sources.

(** ** Bringing a page in *)

Section page_in.
Context (alloc : Z → bool) (pt_alloc : Z → Z → bool) (pick : gmap Z page → Z) (deny : Z → bool).
(** The part of [page_in] after the page was found. *)
Lemma run_load s p x f k t (Q : bool → vm → Prop) : vm_inv (Some f) s → hand_ok s → p_thread x = t → pages s !! p = Some x → p_frame x = None → fr_info s f = Some (k, p) → pt_alloc (p_thread x) (vaddr x) = true →
  (∀ s', vm_inv None s' → hand_ok s' → (∀ q, view s' q = view s q) → present s' p → Q true s') →
  runs (x ← page_at p; f ← frame_of x; fr ← frame_at f;
    success ← (
      if private x then swap_in p;; mret true
      else if p_file x =? NULL then
        modify_frame f (set_pinned true);; copy_to_frame (kpage fr) 0 (replicate (Z.to_nat PGSIZE) 0);; modify_frame f (set_pinned false);; mret true
      else
        modify_frame f (set_pinned true);; r ← read_page x (kpage fr); (if p_writable x then modify_frame f (set_pinned false) else mret tt);; mret r);
    if success : bool then
      k ← pagedir_get_page t (vaddr x);
      if k =? NULL then pagedir_set_page pt_alloc t (vaddr x) (kpage fr) (p_writable x) else mret true
    else mret false)
    (set_pages (<[p := set_frame (Some f) x]> (pages s)) s) Q.
Proof.
  intros Hinv Hh <- Hp Hnf Hf Hpt HQ. destruct (fr_info_inv _ _ _ _ Hf) as [b Hfr]. apply runs_bind, (run_page_at _ _ (set_frame (Some f) x)); [apply lookup_insert_eq|].
  apply runs_bind, (run_frame_of _ f); [done|]. apply runs_bind, (run_frame_at _ _ (Frame k p b)); [done|]. simpl (kpage _). simpl (private _). simpl (p_file _). simpl (p_writable _). simpl (vaddr _). fold zero_page.
  assert (∀ s3 x', filled s s3 p x x' f k → runs (k0 ← pagedir_get_page (p_thread x) (vaddr x); if k0 =? NULL then pagedir_set_page pt_alloc (p_thread x) (vaddr x) k (p_writable x) else mret true) s3 Q) as Hend.
  { intros s3 x' Hfl. eapply runs_mono; [by eapply (finish_load s p x f k)|]. intros ok s' (-> & ? & ? & ? & ?). by apply HQ. }
  apply runs_bind. destruct (private x) eqn:Epr; [|destruct (Z.eqb_spec (p_file x) NULL)].
  - apply (run_swap_in s p x f k Hinv Hp Hnf Hf (mret true)); [done|]. intros s3 Hfl. apply runs_ret. by apply (Hend _ _ Hfl).
  - apply (run_zero_page s p x f k Hinv Hp Hnf Hf (mret true)); [done|done|]. intros s3 Hfl. apply runs_ret. by apply (Hend _ _ Hfl).
  - apply (run_read_page s p x f k Hinv Hp Hnf Hf mret); [done|done|]. intros s3 Hfl. apply runs_ret. by apply (Hend _ _ Hfl).
Qed.
Section resolved.
Context (s : vm) (va p : Z) (x : page) (Hinv : vm_inv None s) (Hhand : hand_ok s) (Hsupp : supplemental_pages s !! (current s, pg_round_down va) = Some p) (Hp : pages s !! p = Some x) (Hnf : p_frame x = None).
Context (Hav : frame_available s) (Hsave : ∀ q y, pages s !! q = Some y → p_thread y = current s → savable deny s y) (Hpt : pt_alloc (current s) (pg_round_down va) = true).
(** [page_in] from its call of [page_lookup] on. *)
Definition page_in_rest : V bool :=
  p ← page_lookup (current s) (pg_round_down va);
  if p =? NULL then mret false else
  x ← page_at p;
  assert (p_thread x =? current s);;
  (if bool_decide (p_frame x = None) then f ← frame_alloc deny p; modify_page p (set_frame (Some f)) else mret tt);;
  x ← page_at p; f ← frame_of x; fr ← frame_at f;
  success ← (
    if private x then swap_in p;; mret true
    else if p_file x =? NULL then
      modify_frame f (set_pinned true);; copy_to_frame (kpage fr) 0 (replicate (Z.to_nat PGSIZE) 0);; modify_frame f (set_pinned false);; mret true
    else
      modify_frame f (set_pinned true);; r ← read_page x (kpage fr); (if p_writable x then modify_frame f (set_pinned false) else mret tt);; mret r);
  if success : bool then
    k ← pagedir_get_page (current s) (vaddr x);
    if k =? NULL then pagedir_set_page pt_alloc (current s) (vaddr x) (kpage fr) (p_writable x) else mret true
  else mret false.
Lemma page_in_rest_spec : runs page_in_rest s (λ ok s', ok = true ∧ vm_inv None s' ∧ hand_ok s' ∧ present s' p ∧ ∀ q, view s' q = view s q).
Proof using All.
  destruct (proj1 (iv_supp _ _ Hinv _ _ _) Hsupp) as (x0 & Hx0 & [= Et Ev]). rewrite Hp in Hx0. injection Hx0 as <-. destruct (iv_page _ _ Hinv p x Hp) as [Hpn _].
  unfold page_in_rest. apply runs_bind. unfold page_lookup. apply runs_bind, runs_get. rewrite Hsupp. apply runs_ret. simpl (default _ _). destruct (Z.eqb_spec p NULL) as [|_]; [done|].
  apply runs_bind, (run_page_at _ _ x); [done|]. apply runs_bind, runs_assert; [rewrite Et; apply Z.eqb_refl|]. apply runs_bind. rewrite bool_decide_true by done. apply runs_bind.
  eapply runs_mono; [by apply (frame_alloc_spec deny s p x)|]. intros f s1 (I1 & V1 & H1 & [k Hk] & P1 & C1 & U1). apply (run_modify_page _ _ _ x); [by rewrite P1|].
  eapply runs_mono; [apply (run_load s1 p x f k (current s) (λ ok s', ok = true ∧ vm_inv None s' ∧ hand_ok s' ∧ present s' p ∧ ∀ q, view s' q = view s q)); try done|done].
  - by rewrite P1.
  - by rewrite Et, Ev.
  - intros s' I' H' V' Pr. split_and!; try done. intros q. by rewrite V', V1.
Qed.
Lemma page_in_found : runs (page_in alloc pt_alloc pick deny va) s (λ ok s', ok = true ∧ vm_inv None s' ∧ hand_ok s' ∧ present s' p ∧ ∀ q, view s' q = view s q).
Proof using All.
  unfold page_in. apply runs_bind, runs_get. apply runs_bind. apply (runs_mono _ _ (λ _ s', s' = s)).
  - destruct (is_stack va (stack_pointer s)); [|by run]. destruct (iv_page _ _ Hinv p x Hp) as [Hpn _]. apply runs_bind. unfold page_alloc. apply runs_bind, runs_get. apply runs_bind. unfold page_lookup. apply runs_bind, runs_get. rewrite Hsupp.
    apply runs_ret. simpl (default _ _). destruct (Z.eqb_spec p NULL); [done|]. by run.
  - intros [] s' ->. apply page_in_rest_spec.
Qed.
End resolved.
End page_in.

(** C3 A page fault on a page that is not in memory always ends with the page in
    memory, if there is a free frame or one the thread can give up, and swap
    space and page tables do not run out; whatever is evicted on the way, every
    page of every process holds exactly what it held before, and the tables
    stay consistent. *)
Theorem page_in_transparent alloc pt_alloc pick deny s va p x : vm_inv None s → hand_ok s →
  supplemental_pages s !! (current s, pg_round_down va) = Some p → pages s !! p = Some x → p_frame x = None → frame_available s →
  (∀ q y, pages s !! q = Some y → p_thread y = current s → savable deny s y) → pt_alloc (current s) (pg_round_down va) = true →
  runs (page_in alloc pt_alloc pick deny va) s (λ ok s', ok = true ∧ vm_inv None s' ∧ hand_ok s' ∧ present s' p ∧ ∀ q, view s' q = view s q).
Proof. intros. by eapply page_in_found. Qed.

(** ** Growing the stack *)

Definition new_page (t v : Z) (writable : bool) : page := Page v None t false false NULL 0 0 0 writable MAP_FAILED NO_SECTOR.
Definition with_page (s : vm) (p : Z) (x : page) : vm := set_supp (<[page_key x := p]> (supplemental_pages s)) (set_pages (<[p := x]> (pages s)) s).
(** Two pages of one file, if one of them is written back to it, are parts of it that do not overlap. *)
Definition apart_in_file (x y : page) : Prop := p_file x ≠ NULL → p_file x = p_file y → mmap_id x ≠ MAP_FAILED ∨ mmap_id y ≠ MAP_FAILED →
  file_ofs x + read_bytes x ≤ file_ofs y ∨ file_ofs y + read_bytes y ≤ file_ofs x.
Section new_page.
Context (s : vm) (p : Z) (x : page) (Hinv : vm_inv None s) (Hfresh : pages s !! p = None) (Hpn : p ≠ NULL) (Hkey : supplemental_pages s !! page_key x = None).
Context (Hframe : p_frame x = None) (Hpriv : private x = false) (Hwf : page_wf s x) (Happ : ∀ q y, pages s !! q = Some y → apart_in_file x y).
Lemma with_page_lookup q y : pages (with_page s p x) !! q = Some y → q = p ∧ y = x ∨ q ≠ p ∧ pages s !! q = Some y.
Proof using All. simpl. intros [[<- ->]|[? ?]]%lookup_insert_Some; [by left|right; split; [congruence|done]]. Qed.
Lemma with_page_inv : vm_inv None (with_page s p x).
Proof using All.
  pose proof with_page_lookup as Hlk. assert (∀ q y, pages s !! q = Some y → q ≠ p) as Hne by (intros q y Hq ->; congruence). split.
  - apply (iv_ram _ _ Hinv).
  - apply (iv_kpage _ _ Hinv).
  - intros f k q Hf Hr Hq. destruct (iv_back _ _ Hinv f k q Hf Hr Hq) as (y & Hy & Hyf). exists y. simpl. by rewrite lookup_insert_ne by (intros ->; by apply (Hne q y)).
  - intros q y f [[-> ->]|[_ Hq]]%Hlk Hf; [congruence|]. by apply (iv_frame _ _ Hinv q y f).
  - intros q y k d [[-> ->]|[_ Hq]]%Hlk Hf; [|by apply (iv_absent _ _ Hinv q y k d)]. intros E. destruct (iv_stray _ _ Hinv _ k d E) as [? ?]. congruence.
  - intros q y [[-> ->]|[_ Hq]]%Hlk; [split; [done|]; destruct Hwf; by split|]. destruct (iv_page _ _ Hinv q y Hq) as [? [? ?]]. split; [done|]. by split.
  - intros key k d E. simpl. destruct (decide (key = page_key x)) as [->|]; [rewrite lookup_insert_eq; by eexists|rewrite lookup_insert_ne by done]. by apply (iv_stray _ _ Hinv key k d).
  - intros t' v' q. simpl. rewrite lookup_insert_Some. split.
    + intros [[<- <-]|[Hne' H]]; [exists x; by rewrite lookup_insert_eq|]. apply (iv_supp _ _ Hinv) in H as (y & Hy & Hyk). exists y. by rewrite lookup_insert_ne by (intros ->; by apply (Hne q y)).
    + intros (y & [[<- <-]|[Hnp Hy]]%lookup_insert_Some & Hyk); [left; done|]. right. assert (supplemental_pages s !! (t', v') = Some q) as Hs by (apply (iv_supp _ _ Hinv); by exists y). split; [|done].
      intros E. congruence.
  - intros a b y z Hab [[-> ->]|[_ Ha]]%Hlk [[-> ->]|[_ Hb]]%Hlk H1 H2 H3; try done.
    + apply (Happ b z); auto.
    + destruct (Happ a y Ha); [congruence|done|by right|by right|by left].
    + by apply (iv_mmap _ _ Hinv a b y z).
  - intros q y [[-> ->]|[_ Hq]]%Hlk; [congruence|]. by apply (iv_slot _ _ Hinv q y).
  - intros a b y z Hab [[-> ->]|[_ Ha]]%Hlk [[-> ->]|[_ Hb]]%Hlk; try done; try congruence. by apply (iv_slots _ _ Hinv a b y z).
  - apply (iv_swap _ _ Hinv).
Qed.
Lemma with_page_view q : view (with_page s p x) q = if q =? p then Some (take (visible x) (source s x)) else view s q.
Proof using All.
  unfold view. simpl. destruct (Z.eqb_spec q p) as [->|]; [|by rewrite lookup_insert_ne]. rewrite lookup_insert_eq. simpl. unfold content. by rewrite Hframe, Hpriv.
Qed.
Lemma with_page_available : frame_available s → frame_available (with_page s p x).
Proof using All.
  intros [H|(g & k & fr & y & Hfr & Hpin & Hy & Ht & Hk)]; [by left|right]. exists g, k, fr, y. split_and!; try done. simpl. rewrite lookup_insert_ne; [done|]. intros E. rewrite <-E in Hy. congruence.
Qed.
End new_page.

(** A fault at an address that counts as an access to the stack, in a page
    that does not exist yet, gives the thread a new page of zeros and changes
    no other page. *)
Theorem stack_grows alloc pt_alloc pick deny s va : vm_inv None s → hand_ok s → is_u32 va → is_stack va (stack_pointer s) = true → supplemental_pages s !! (current s, pg_round_down va) = None →
  alloc PAGE_STRUCT_SIZE = true → pages s !! pick (pages s) = None → pick (pages s) ≠ NULL → frame_available s → swap_room s →
  (∀ q y, pages s !! q = Some y → p_thread y = current s → savable deny s y) → pt_alloc (current s) (pg_round_down va) = true →
  runs (page_in alloc pt_alloc pick deny va) s (λ ok s', ok = true ∧ vm_inv None s' ∧ hand_ok s' ∧ ∃ p, present s' p ∧ pages s !! p = None ∧ ∀ q, view s' q = if q =? p then Some zero_page else view s q).
Proof.
  intros Hinv Hh Hva Hst Hsupp Hal Hfr Hpn Hav Hroom Hsave Hpt. set (p := pick (pages s)) in *. set (v := pg_round_down va) in *. set (x := new_page (current s) v true).
  assert (is_u32 v ∧ v `mod` 4096 = 0) as Hv.
  { unfold v. rewrite pg_round_down_spec by done. unfold is_u32 in *. pose proof (Z.div_mod va 4096 ltac:(lia)). pose proof (Z.mod_pos_bound va 4096 ltac:(lia)). rewrite Z.mul_comm, Z.mod_mul by lia. lia. }
  assert (page_wf s x) as Hwf by (by split). assert (∀ q y, pages s !! q = Some y → apart_in_file x y) as Happ by (intros q y _ H; done).
  pose proof (with_page_inv s p x Hinv Hfr Hpn Hsupp eq_refl eq_refl Hwf Happ) as I1. pose proof (with_page_view s p x Hinv Hfr Hpn Hsupp eq_refl eq_refl Hwf Happ) as V1.
  replace (take (visible x) (source s x)) with zero_page in V1 by (symmetry; apply (firstn_all2 zero_page); unfold zero_page; by rewrite length_replicate). set (s1 := with_page s p x) in *.
  unfold page_in. apply runs_bind, runs_get. apply runs_bind. rewrite Hst. apply (runs_mono _ _ (λ _ s', s' = s1)).
  { apply runs_bind. unfold page_alloc. apply runs_bind, runs_get. apply runs_bind. unfold page_lookup. apply runs_bind, runs_get. fold v. rewrite Hsupp. apply runs_ret. simpl (default _ _). rewrite Z.eqb_refl. cbn [negb].
    rewrite Hal. cbn [negb]. by run. }
  intros [] s' ->. eapply runs_mono; [apply (page_in_rest_spec alloc pt_alloc pick deny s1 va p x)|]; try done.
  - simpl. by rewrite lookup_insert_eq.
  - simpl. by rewrite lookup_insert_eq.
  - by apply (with_page_available s p x).
  - intros q y Hq Ht. simpl in Hq. apply lookup_insert_Some in Hq as [[<- <-]|[_ Hq]]; [done|]. by apply (Hsave q y).
  - intros ok s' (-> & I' & H' & Pr & V'). split_and!; try done. exists p. split_and!; try done. intros q. by rewrite V', V1.
Qed.
