(* ===== verification/VmDemo.v ===== *)
(** * Virtual memory: examples

    A machine with one frame: the stack page of thread 7 is in it and was
    written to; the first page of its program is in a file.  Swap has room for
    one page.  The examples run the theorems of VmPageIn.v on it, and show what
    goes wrong where their hypotheses fail. *)

From S2P Require Import Prelude Bitmap KList Vaddr Cache Inode InodeSpec Vm VmSpec VmPageIn.

Definition demo_k : Z := 0xc0400000.
Definition demo_stack : page := Page 0xbffff000 (Some 0) 7 false false NULL 0 0 0 true MAP_FAILED NO_SECTOR.
Definition demo_code : page := Page 0x8048000 None 7 false false 9 0 5 4091 true MAP_FAILED NO_SECTOR.
Definition demo : vm := Vm [Frame demo_k 1 false] None (<[1 := demo_stack]> {[2 := demo_code]}) (<[(7, 0xbffff000) := 1]> {[(7, 0x8048000) := 2]})
  {[(7, 0xbffff000) := Pte demo_k true true true true]} (λ _, replicate 4096 1) (Block BLOCK_SWAP 8 (λ _, replicate 512 0) 0 0) (Bitmap 8 [0]) (λ _, replicate 5 65) [] 7 0xbffff000.

Lemma demo_pages p x : pages demo !! p = Some x → p = 1 ∧ x = demo_stack ∨ p = 2 ∧ x = demo_code.
Proof. simpl. intros [[<- <-]|[_ [<- <-]%lookup_singleton_Some]]%lookup_insert_Some; [by left|by right]. Qed.
Lemma demo_frame f k v : fr_info demo f = Some (k, v) → f = 0 ∧ k = demo_k ∧ v = 1.
Proof. intros [b H]%fr_info_inv. pose proof (zlookup_bound _ _ _ H) as Hb. assert (f = 0) as -> by (unfold zlen in Hb; simpl in Hb; lia). by injection H as <- <-. Qed.
Lemma demo_bits : wf (Bitmap 8 [0]).
Proof. split; [simpl; lia|vm_compute; discriminate|]. constructor; [unfold is_u32; lia|constructor]. Qed.
Lemma vm_room : swap_room demo.
Proof. exists 0. split_and!; [lia|done|]. intros j Hj. simpl. unfold bit. simpl. rewrite Z.div_small by lia. apply Z.testbit_0_l. Qed.
Lemma demo_inv : vm_inv None demo.
Proof.
  split.
  - intros f k v (-> & -> & ->)%demo_frame. done.
  - intros f g k v w (-> & _)%demo_frame (-> & _)%demo_frame. done.
  - intros f k p (-> & -> & ->)%demo_frame _ _. by exists demo_stack.
  - intros p x f [[-> ->]|[-> ->]]%demo_pages Hf; [|done]. injection Hf as <-. split_and!; [done|done|]. by exists demo_k, true.
  - intros p x k d [[-> ->]|[-> ->]]%demo_pages Hf; done.
  - intros p x [[-> ->]|[-> ->]]%demo_pages; (split; [done|]; split; [done|]); [done|]. cbn. split_and!; try done. left. vm_compute. discriminate.
  - intros key k d E. unfold pte_info in E. simpl in E. destruct (decide (key = (7, 0xbffff000))) as [->|]; [by eexists|by rewrite lookup_singleton_ne in E].
  - intros t v p. split.
    + simpl. intros [[[= <- <-] <-]|[_ [[= <- <-] <-]%lookup_singleton_Some]]%lookup_insert_Some; [by exists demo_stack|by exists demo_code].
    + intros (x & [[-> ->]|[-> ->]]%demo_pages & [= <- <-]); done.
  - intros p q x y Hne [[-> ->]|[-> ->]]%demo_pages [[-> ->]|[-> ->]]%demo_pages; done.
  - intros p x [[-> ->]|[-> ->]]%demo_pages; done.
  - intros p q x y Hne [[-> ->]|[-> ->]]%demo_pages [[-> ->]|[-> ->]]%demo_pages; done.
  - split_and!; [apply demo_bits|vm_compute; discriminate|done|done].
Qed.
Lemma demo_available : frame_available demo.
Proof. right. exists 0, (7, 0xbffff000), (Frame demo_k 1 false), demo_stack. split_and!; done. Qed.
Lemma demo_savable q y : pages demo !! q = Some y → p_thread y = current demo → savable (λ _, false) demo y.
Proof. intros [[-> ->]|[-> ->]]%demo_pages _; apply vm_room. Qed.

Lemma page_in_transparent_witness :
  runs (page_in (λ _, true) (λ _ _, true) (λ _, 3) (λ _, false) 0x8048000) demo (λ ok s', ok = true ∧ present s' 2 ∧ view s' 1 = Some (replicate 4096 1)).
Proof.
  refine (runs_mono _ _ _ _ (page_in_transparent (λ _, true) (λ _ _, true) (λ _, 3) (λ _, false) demo 0x8048000 2 demo_code _ _ _ _ _ _ _ _) _).
  - exact demo_inv.
  - intros h Hh. discriminate Hh.
  - vm_compute. reflexivity.
  - vm_compute. reflexivity.
  - reflexivity.
  - exact demo_available.
  - exact demo_savable.
  - reflexivity.
  - intros ok s' (-> & _ & _ & Hp & Hv). split; [reflexivity|]. split; [exact Hp|]. rewrite Hv. vm_compute. reflexivity.
Defined.
Lemma stack_grows_witness :
  runs (page_in (λ _, true) (λ _ _, true) (λ _, 3) (λ _, false) 0xbfffeffc) demo (λ ok s', ok = true ∧ ∃ p, present s' p ∧ view s' p = Some zero_page).
Proof.
  refine (runs_mono _ _ _ _ (stack_grows (λ _, true) (λ _ _, true) (λ _, 3) (λ _, false) demo 0xbfffeffc _ _ _ _ _ _ _ _ _ _ _ _) _).
  - exact demo_inv.
  - intros h Hh. discriminate Hh.
  - vm_compute. split; (discriminate || reflexivity).
  - vm_compute. reflexivity.
  - vm_compute. reflexivity.
  - reflexivity.
  - vm_compute. reflexivity.
  - discriminate.
  - exact demo_available.
  - exact vm_room.
  - exact demo_savable.
  - reflexivity.
  - intros ok s' (-> & _ & _ & p & Hp & _ & Hv). split; [reflexivity|]. exists p. split; [exact Hp|]. rewrite Hv. rewrite Z.eqb_refl. reflexivity.
Defined.

(** With no swap space left the modified page is lost: it is all zeros when
    it is read again. *)
Definition demo_full : vm := set_swap (swap_device demo) (Bitmap 8 [255]) demo.
Definition first_byte (s : vm) (p : Z) : option Z := view s p ≫= λ l, l@[0].
Lemma swap_full_loses_page : first_byte demo_full 1 = Some 1 ∧
  runs (page_in (λ _, true) (λ _ _, true) (λ _, 3) (λ _, false) 0x8048000) demo_full (λ ok s', ok = true ∧ first_byte s' 1 = Some 0).
Proof. split; vm_compute; [reflexivity|split; reflexivity]. Qed.
(** A file that refuses the write keeps the page mapped, but its frame is given away. *)
Definition demo_mmap : vm := set_pages (<[1 := Page 0xbffff000 (Some 0) 7 false true 8 0 5 4091 true 3 NO_SECTOR]> (pages demo)) demo.
Lemma failed_write_back_shares_frame :
  runs (page_in (λ _, true) (λ _ _, true) (λ _, 3) (λ f, f =? 8) 0x8048000) demo_mmap
    (λ ok s', ok = true ∧ option_map pte_page (pagedirs s' !! (7, 0xbffff000)) = Some demo_k ∧ option_map pte_page (pagedirs s' !! (7, 0x8048000)) = Some demo_k).
Proof. vm_compute. split_and!; reflexivity. Qed.
(** A thread that has no frame of its own looks for one forever. *)
Definition demo_other : vm := Vm (frame_table demo) None (pages demo) (supplemental_pages demo) (pagedirs demo) (ram demo) (swap_device demo) (swap_bitmap demo) (files demo) [] 5 0xbffff000.
Lemma clock_forever fuel : clock_loop fuel demo_other = NoFuel.
Proof.
  assert (∀ h, h = None ∨ h = Some 0 → clock_loop fuel (set_hand h demo_other) = NoFuel) as H; [|by apply (H None); left].
  induction fuel as [|fuel IH]; intros h Hh; [done|].
  assert (∀ h, h = None ∨ h = Some 0 → clock_from (set_hand h demo_other) = Done (None, set_hand h demo_other)) as E by (intros h' [-> | ->]; vm_compute; reflexivity).
  cbn [clock_loop]. unfold mbind, M_bind at 1. rewrite E by done. apply (IH (Some 0)). by right.
Qed.
(** [page_pin] does not bring a page in. *)
Lemma pin_does_not_load :
  runs (page_pin (λ _, true) (λ _ _, true) (λ _, 3) (λ _, false) 0x8048000) demo (λ _ s', option_map p_frame (pages s' !! 2) = Some None).
Proof. vm_compute. reflexivity. Qed.
