(* ===== verification/Args.v ===== *)
(** * Program arguments (src/pintos/src/userprog/process.c: process_execute,
    start_process, push_address, argument_passing)

    The user stack is a block of bytes that starts at the address [base];
    writing outside it is undefined.  Strings are lists of characters. *)

From S2P Require Import Prelude KList Vaddr Cache Inode InodeSpec Directory.

(** ** The command line *)

Definition BLANKS : list Z := [32; 9].
(** The first token, copied to [char process_name[16]]. *)
Fixpoint copy_name (s name : list Z) : outcome (list Z) :=
  match s with
  | c :: s' => if bool_decide (c ∈ BLANKS) then (if zlen name <? 16 then Done name else Undef)
               else if zlen name <? 16 then copy_name s' (name ++ [c]) else Undef
  | [] => if zlen name <? 16 then Done name else Undef
  end.
Definition process_name (file_name : list Z) : outcome (list Z) := copy_name (take (Z.to_nat (PGSIZE - 1)) file_name) [].

(** [for (token = strtok_r (command_line, " \t", &save_ptr); token != NULL;
    token = strtok_r (NULL, " \t", &save_ptr))]: the tokens. *)
Fixpoint tokens (fuel : nat) (s : list Z) : list (list Z) :=
  match fuel with
  | O => []
  | S fuel => match strtok_r BLANKS s with (Some t, r) => t :: tokens fuel r | (None, _) => [] end
  end.
(** Every token takes a character. *)
Definition arguments (command_line : list Z) : list (list Z) := tokens (S (length command_line)) command_line.

(** ** The stack *)

Section stack.
Context (base : Z).
Definition poke (a v : Z) : M (list Z) unit := m ← get; m ← lift (wr m (a - base) v); put m.
Fixpoint poke_all (a : Z) (bs : list Z) : M (list Z) unit :=
  match bs with
  | [] => mret tt
  | b :: bs => poke a b;; poke_all (a + 1) bs
  end.
(** The comparison is one of unsigned numbers. *)
Definition push_address (stack_ptr address esp : Z) : M (list Z) (bool * Z) :=
  if PGSIZE <? u32 (esp - (stack_ptr - 4)) then mret (false, stack_ptr)
  else poke_all (stack_ptr - 4) (le_bytes 4 address);; mret (true, stack_ptr - 4).
(** The loops from [argc - 1] down to 0: over the strings in reverse. *)
Fixpoint push_strings (rargv : list (list Z)) (stack_top : Z) (arg_addr : list Z) : M (list Z) (Z * list Z) :=
  match rargv with
  | [] => mret (stack_top, arg_addr)
  | s :: rargv =>
      let stack_top := stack_top - (zlen s + 1) in
      poke_all stack_top (strlcpy s (zlen s + 1));;
      push_strings rargv stack_top (stack_top :: arg_addr)
  end.
Fixpoint pad (n : nat) (stack_top : Z) : M (list Z) Z :=
  match n with
  | O => mret stack_top
  | S n => poke (stack_top - 1) 0;; pad n (stack_top - 1)
  end.
Fixpoint push_addresses (raddr : list Z) (stack_top esp : Z) : M (list Z) Z :=
  match raddr with
  | [] => mret stack_top
  | a :: raddr => '(_, stack_top) ← push_address stack_top a esp; push_addresses raddr stack_top esp
  end.
(** [alloc]: whether [malloc (argc * sizeof (char * ))] succeeds. *)
Definition argument_passing (alloc : bool) (argv : list (list Z)) (esp : Z) : M (list Z) Z :=
  if negb alloc && negb (bool_decide (argv = [])) then undefined else
  let argc := zlen argv in
  '(stack_top, arg_addr) ← push_strings (rev argv) esp [];
  let padding := 4 - u32 (esp - stack_top) `mod` 4 in
  stack_top ← pad (Z.to_nat padding) stack_top;
  '(_, stack_top) ← push_address stack_top NULL esp;
  stack_top ← push_addresses (rev arg_addr) stack_top esp;
  let start_arg := stack_top in
  '(_, stack_top) ← push_address stack_top start_arg esp;
  '(_, stack_top) ← push_address stack_top argc esp;
  '(_, stack_top) ← push_address stack_top NULL esp;
  mret stack_top.
End stack.

(** ** The command line is split at blanks *)

Fixpoint join (words : list (list Z)) : list Z :=
  match words with
  | [] => []
  | [w] => w
  | w :: words => w ++ 32 :: join words
  end.
Definition is_word (w : list Z) : Prop := w ≠ [] ∧ Forall (λ c, c ∉ BLANKS) w.
Lemma split_word w r : Forall (λ c, c ∉ BLANKS) w → split_token BLANKS (w ++ 32 :: r) = (w, r) ∧ split_token BLANKS w = (w, []).
Proof.
  induction 1 as [|c w Hc _ [IH1 IH2]]; [done|]. simpl. rewrite bool_decide_false by done. by rewrite IH1, IH2.
Qed.
Lemma skip_word w r : is_word w → skip_delims BLANKS (w ++ r) = w ++ r.
Proof. intros [Hne Hw]. destruct Hw as [|c w Hc _]; [done|]. simpl. by rewrite bool_decide_false. Qed.
Lemma strtok_word w r : is_word w → strtok_r BLANKS (w ++ 32 :: r) = (Some w, r) ∧ strtok_r BLANKS w = (Some w, []).
Proof.
  intros Hw. destruct (split_word w r (proj2 Hw)) as [H1 H2]. pose proof (skip_word w (32 :: r) Hw) as S1. pose proof (skip_word w [] Hw) as S2. rewrite app_nil_r in S2. unfold strtok_r. rewrite S1, S2.
  split; (destruct w as [|c w]; [by destruct Hw|]); cbn [app] in *; by rewrite ?H1, ?H2.
Qed.
(** The arguments of a command line made of words are these words. *)
Lemma arguments_join words : Forall is_word words → arguments (join words) = words.
Proof.
  unfold arguments. assert (∀ fuel, (length (join words) < fuel)%nat → Forall is_word words → tokens fuel (join words) = words) as H; [|apply H; lia].
  induction words as [|w words IH]; intros fuel Hf Hw; [by destruct fuel|]. apply Forall_cons_1 in Hw as [Hw Hws]. destruct fuel as [|fuel]; [lia|]. cbn [tokens]. destruct words as [|w' words].
  - change (join [w]) with w in *. destruct (strtok_word w [] Hw) as [_ ->]. destruct fuel; done.
  - change (join (w :: w' :: words)) with (w ++ 32 :: join (w' :: words)) in *. destruct (strtok_word w (join (w' :: words)) Hw) as [-> _]. rewrite length_app in Hf. cbn [length] in Hf. f_equal. apply IH; [lia|done].
Qed.

(** ** The layout of the stack *)

Section layout.
Context (base : Z).
(** The bytes [bs] are at the address [a]. *)
Definition holds (m : list Z) (a : Z) (bs : list Z) : Prop := ∀ j, 0 ≤ j < zlen bs → m@[a - base + j] = bs@[j].
(** Nothing changed from the address [top] on. *)
Definition keeps (m m' : list Z) (top : Z) : Prop := zlen m' = zlen m ∧ ∀ j, top - base ≤ j → m'@[j] = m@[j].
Lemma keeps_holds m m' top a bs : keeps m m' top → top ≤ a → holds m a bs → holds m' a bs.
Proof. intros [_ H] Ha Hh j Hj. rewrite H by lia. by apply Hh. Qed.
Lemma keeps_trans m1 m2 m3 top top' : keeps m1 m2 top → keeps m2 m3 top' → top' ≤ top → keeps m1 m3 top.
Proof. intros [H1 H2] [H3 H4] Ht. split; [congruence|]. intros j Hj. rewrite H4, H2 by lia. done. Qed.
Lemma keeps_refl m top : keeps m m top.
Proof. done. Qed.
Lemma holds_app m a bs bs' : holds m a bs → holds m (a + zlen bs) bs' → holds m a (bs ++ bs').
Proof.
  intros H H' j Hj. rewrite zlen_app in Hj. rewrite zlookup_app. destruct (Z.ltb_spec j (zlen bs)); [apply H; lia|]. rewrite <-H' by lia. f_equal. lia.
Qed.
Lemma poke_all_spec bs : ∀ m a, base ≤ a → a + zlen bs ≤ base + zlen m → runs (poke_all base a bs) m (λ _ m', keeps m m' (a + zlen bs) ∧ holds m' a bs ∧ ∀ j, j < a - base → m'@[j] = m@[j]).
Proof.
  induction bs as [|b bs IH]; intros m a Ha Hl; cbn [poke_all]; [run; split_and!; [done|intros j Hj; unfold zlen in Hj; simpl in Hj; lia|done]|]. rewrite zlen_cons in *. pose proof (zlen_nonneg bs) as Hbs.
  apply runs_bind. unfold poke. apply runs_bind, runs_get. rewrite wr_in by lia. apply runs_bind, runs_lift. cbn [mbind outcome_bind]. apply runs_put.
  eapply runs_mono; [apply IH; [lia|rewrite zlen_insert; lia]|]. intros [] m' ([K1 K2] & Hh & Hlow). rewrite zlen_insert in K1. split_and!.
  - split; [done|]. intros j Hj. rewrite K2 by lia. apply zlookup_insert_ne. lia.
  - intros j Hj. rewrite zlen_cons in Hj. destruct (decide (j = 0)) as [->|Hj0].
    + rewrite Z.add_0_r, Hlow by lia. by rewrite zlookup_insert_eq by lia.
    + replace (a - base + j) with (a + 1 - base + (j - 1)) by lia. rewrite Hh by lia. unfold zlookup. destruct (Z.ltb_spec (j - 1) 0), (Z.ltb_spec j 0); try lia. by replace (Z.to_nat j) with (S (Z.to_nat (j - 1))) by lia.
  - intros j Hj. rewrite Hlow by lia. apply zlookup_insert_ne. lia.
Qed.
Lemma push_spec m sp w esp : base ≤ sp - 4 → sp ≤ base + zlen m → sp ≤ esp → esp - (sp - 4) ≤ PGSIZE →
  runs (push_address base sp w esp) m (λ r m', r = (true, sp - 4) ∧ keeps m m' sp ∧ holds m' (sp - 4) (le_bytes 4 w)).
Proof.
  intros Hb Hm He Hp. change PGSIZE with 4096 in Hp. unfold push_address. rewrite u32_small by lia. change PGSIZE with 4096. destruct (Z.ltb_spec 4096 (esp - (sp - 4))); [lia|].
  apply runs_bind. assert (zlen (le_bytes 4 w) = 4) as E by (unfold zlen; by rewrite length_le_bytes). eapply runs_mono; [apply poke_all_spec; rewrite ?E; lia|]. intros [] m' (K & Hh & _). rewrite E in K. run.
  split_and!; [done|by replace (sp - 4 + 4) with sp in K by lia|done].
Qed.
Lemma push_addresses_spec raddr : ∀ m sp esp, base ≤ sp - 4 * zlen raddr → sp ≤ base + zlen m → sp ≤ esp → esp - (sp - 4 * zlen raddr) ≤ PGSIZE →
  runs (push_addresses base raddr sp esp) m (λ r m', r = sp - 4 * zlen raddr ∧ keeps m m' sp ∧ holds m' r (words_to_bytes (rev raddr))).
Proof.
  induction raddr as [|a raddr IH]; intros m sp esp Hb Hm He Hp; cbn [push_addresses].
  { run. change (zlen (@nil Z)) with 0. split_and!; [lia|done|]. intros j Hj. unfold zlen in Hj. simpl in Hj. lia. }
  rewrite zlen_cons in *. pose proof (zlen_nonneg raddr). apply runs_bind. eapply runs_mono; [apply (push_spec m sp a esp); lia|]. intros r m1 (-> & K1 & H1).
  eapply runs_mono; [apply (IH m1 (sp - 4) esp); destruct K1; lia|]. intros r m2 (-> & K2 & H2). split_and!; [lia|eapply keeps_trans; [done..|lia]|].
  cbn [rev]. rewrite words_to_bytes_app. replace (sp - 4 * (1 + zlen raddr)) with (sp - 4 - 4 * zlen raddr) by lia.
  apply holds_app; [done|]. assert (zlen (words_to_bytes (rev raddr)) = 4 * zlen raddr) as El by (unfold zlen; rewrite length_words_to_bytes, length_rev; lia).
  rewrite El. replace (sp - 4 - 4 * zlen raddr + 4 * zlen raddr) with (sp - 4) by lia. change (words_to_bytes [a]) with (le_bytes 4 a ++ []). rewrite app_nil_r. by eapply keeps_holds.
Qed.
Definition strings_size (l : list (list Z)) : Z := foldr (λ s n, zlen s + 1 + n) 0 l.
Lemma strings_size_nonneg l : 0 ≤ strings_size l.
Proof. induction l as [|s l IH]; simpl; [lia|]. pose proof (zlen_nonneg s). lia. Qed.
Lemma strings_size_app l l' : strings_size (l ++ l') = strings_size l + strings_size l'.
Proof. induction l as [|s l IH]; simpl; [done|]. rewrite IH. lia. Qed.
Lemma strings_size_rev l : strings_size (rev l) = strings_size l.
Proof. induction l as [|s l IH]; simpl; [done|]. rewrite strings_size_app, IH. simpl. lia. Qed.
(** The strings are at their addresses, between [lo] and [hi]. *)
Definition placed (m : list Z) (lo hi : Z) (addrs : list Z) (l : list (list Z)) : Prop := Forall2 (λ a s, lo ≤ a ∧ a + zlen s + 1 ≤ hi ∧ holds m a (s ++ [0])) addrs l.
Lemma placed_keeps m m' lo lo' hi addrs l : keeps m m' lo → lo' ≤ lo → placed m lo hi addrs l → placed m' lo' hi addrs l.
Proof. intros K Hlo. apply Forall2_impl. intros a s (? & ? & Hh). split_and!; [lia|done|]. by eapply keeps_holds. Qed.
Lemma push_strings_spec l : ∀ m top hi addrs done, base ≤ top - strings_size l → top ≤ base + zlen m → top ≤ hi → placed m top hi addrs done →
  runs (push_strings base l top addrs) m (λ r m', r.1 = top - strings_size l ∧ keeps m m' top ∧ placed m' r.1 hi r.2 (rev l ++ done)).
Proof.
  induction l as [|s l IH]; intros m top hi addrs done Hb Hm Hhi Hpl; cbn [push_strings].
  { run. simpl. replace (top - 0) with top by lia. done. }
  simpl in Hb. pose proof (strings_size_nonneg l). pose proof (zlen_nonneg s). set (top' := top - (zlen s + 1)).
  assert (strlcpy s (zlen s + 1) = s ++ [0]) as -> by (unfold strlcpy; destruct (Z.ltb_spec 0 (zlen s + 1)); [|lia]; f_equal; rewrite take_ge by (unfold zlen; lia); done).
  assert (zlen (s ++ [0]) = zlen s + 1) as El by by rewrite zlen_app. apply runs_bind. eapply runs_mono; [apply poke_all_spec; rewrite ?El; unfold top'; lia|]. intros [] m1 (K1 & H1 & _). rewrite El in K1.
  replace (top' + (zlen s + 1)) with top in K1 by (unfold top'; lia). eapply runs_mono; [apply (IH m1 top' hi (top' :: addrs) (s :: done)); [unfold top'; lia|destruct K1; unfold top'; lia|unfold top'; lia|]|].
  - constructor; [split_and!; [lia|unfold top'; lia|done]|]. eapply placed_keeps; [done|unfold top'; lia|done].
  - intros r m2 (R & K2 & P2). split_and!; [simpl; unfold top' in R; lia|eapply keeps_trans; [done..|unfold top'; lia]|]. cbn [rev]. by rewrite <-app_assoc.
Qed.
Lemma pad_spec n : ∀ m top, base ≤ top - Z.of_nat n → top ≤ base + zlen m → runs (pad base n top) m (λ r m', r = top - Z.of_nat n ∧ keeps m m' top).
Proof.
  induction n as [|n IH]; intros m top Hb Hm; cbn [pad]; [run; split; [lia|done]|]. apply runs_bind. unfold poke. apply runs_bind, runs_get. rewrite wr_in by lia. apply runs_bind, runs_lift. cbn [mbind outcome_bind]. apply runs_put.
  eapply runs_mono; [apply IH; rewrite ?zlen_insert; lia|]. intros r m' (-> & K1 & K2). rewrite zlen_insert in K1. split; [lia|]. split; [done|]. intros j Hj. rewrite K2 by lia. apply zlookup_insert_ne. lia.
Qed.
(** The words at the top of the stack. *)
Lemma push_frame m sp esp addrs argc : base ≤ sp - 4 * zlen addrs - 16 → sp ≤ base + zlen m → sp ≤ esp → esp - (sp - 4 * zlen addrs - 16) ≤ PGSIZE →
  runs ('(_, sp) ← push_address base sp NULL esp; sp ← push_addresses base (rev addrs) sp esp; let start := sp in
        '(_, sp) ← push_address base sp start esp; '(_, sp) ← push_address base sp argc esp; '(_, sp) ← push_address base sp NULL esp; mret sp) m
    (λ r m', r = sp - 4 * zlen addrs - 16 ∧ keeps m m' sp ∧ holds m' r (words_to_bytes ([0; argc; r + 12] ++ addrs ++ [0]))).
Proof.
  intros Hb Hm He Hp. pose proof (zlen_nonneg addrs). assert (zlen (rev addrs) = zlen addrs) as Er by (unfold zlen; by rewrite length_rev). set (top := sp - 4 - 4 * zlen addrs).
  apply runs_bind. eapply runs_mono; [apply (push_spec m sp NULL esp); lia|]. intros ? m1 (-> & K1 & H1). pose proof (proj1 K1) as L1.
  apply runs_bind. eapply runs_mono; [apply push_addresses_spec; rewrite ?Er; lia|]. rewrite Er. fold top. intros ? m2 (-> & K2 & H2). rewrite rev_involutive in H2. pose proof (proj1 K2) as L2.
  apply runs_bind. eapply runs_mono; [apply (push_spec m2 top top esp); unfold top; lia|]. intros ? m3 (-> & K3 & H3). pose proof (proj1 K3) as L3.
  apply runs_bind. eapply runs_mono; [apply (push_spec m3 (top - 4) argc esp); unfold top; lia|]. intros ? m4 (-> & K4 & H4). pose proof (proj1 K4) as L4.
  apply runs_bind. eapply runs_mono; [apply (push_spec m4 (top - 4 - 4) NULL esp); unfold top; lia|]. intros ? m5 (-> & K5 & H5). run.
  assert (keeps m2 m5 top) as K25 by (eapply keeps_trans; [exact K3|eapply keeps_trans; [exact K4|exact K5|lia]|lia]).
  split_and!; [unfold top; lia|eapply keeps_trans; [exact K1|eapply keeps_trans; [exact K2|exact K25|unfold top; lia]|lia]|].
  replace (top - 4 - 4 - 4 + 12) with top by lia. cbn [app]. rewrite !words_to_bytes_cons. assert (∀ w, zlen (le_bytes 4 w) = 4) as E4 by (intros w; unfold zlen; by rewrite length_le_bytes).
  apply holds_app; [done|]. rewrite E4. replace (top - 4 - 4 - 4 + 4) with (top - 4 - 4) by lia. apply holds_app; [eapply keeps_holds; [exact K5|lia|done]|].
  rewrite E4. replace (top - 4 - 4 + 4) with (top - 4) by lia. apply holds_app; [eapply keeps_holds; [eapply keeps_trans; [exact K4|exact K5|lia]|lia|done]|].
  rewrite E4. replace (top - 4 + 4) with top by lia. rewrite words_to_bytes_app. apply holds_app; [eapply keeps_holds; [exact K25|lia|done]|].
  assert (zlen (words_to_bytes addrs) = 4 * zlen addrs) as -> by (unfold zlen; rewrite length_words_to_bytes; lia). change (words_to_bytes [0]) with (le_bytes 4 NULL ++ []). rewrite app_nil_r.
  replace (top + 4 * zlen addrs) with (sp - 4) by (unfold top; lia). eapply keeps_holds; [eapply keeps_trans; [exact K2|exact K25|unfold top; lia]|unfold top; lia|done].
Qed.
End layout.

(** C17 The stack of a new process, whose top page is the block [m]: if the
    arguments fit in a page, the stack pointer is aligned to a word and lies in
    the page; it points to a return address 0, then come
    [argc], the address of [argv], the addresses of the arguments in order, a
    null pointer, and above them at these addresses the arguments themselves as
    terminated strings.  These are the words of the command line. *)
Theorem argument_passing_layout base m words esp : zlen m = PGSIZE → esp = base + PGSIZE → 0 ≤ base → esp < 2 ^ 32 → base `mod` 4 = 0 → Forall is_word words →
  strings_size words + 4 * zlen words + 20 ≤ PGSIZE →
  runs (argument_passing base true (arguments (join words)) esp) m (λ sp m', sp `mod` 4 = 0 ∧ base ≤ sp ∧ zlen m' = PGSIZE ∧
    ∃ addrs, holds base m' sp (words_to_bytes ([0; zlen words; sp + 12] ++ addrs ++ [0])) ∧ Forall2 (λ a s, sp ≤ a ∧ a + zlen s + 1 ≤ esp ∧ holds base m' a (s ++ [0])) addrs words).
Proof.
  intros Hm He H0 H32 Hal Hw Hsz. rewrite arguments_join by done. unfold argument_passing. cbn [negb andb]. apply runs_bind. change PGSIZE with 4096 in *. pose proof (zlen_nonneg words). pose proof (strings_size_nonneg words) as Hss.
  eapply runs_mono; [apply (push_strings_spec base (rev words) m esp esp [] []); rewrite ?strings_size_rev; [lia|lia|lia|constructor]|]. intros [top addrs] m1 (R & K1 & P1). cbn [fst snd] in *. rewrite rev_involutive, app_nil_r in P1. rewrite strings_size_rev in R.
  pose proof (proj1 K1) as L1. assert (zlen addrs = zlen words) as Ea by (unfold zlen; f_equal; by eapply Forall2_length). set (padding := 4 - u32 (esp - top) `mod` 4). assert (u32 (esp - top) = esp - top) as Eu by (apply u32_small; lia).
  pose proof (Z.mod_pos_bound (esp - top) 4 ltac:(lia)) as Hmod. assert (padding = 4 - (esp - top) `mod` 4) as Epad by (unfold padding; by rewrite Eu). assert (1 ≤ padding ≤ 4) as Hpad by lia.
  apply runs_bind. eapply runs_mono; [apply pad_spec; lia|]. intros ? m2 (-> & K2). rewrite Z2Nat.id by lia. pose proof (proj1 K2) as L2.
  eapply runs_mono; [apply (push_frame base m2 (top - padding) esp addrs (zlen words)); rewrite ?Ea; change PGSIZE with 4096; lia|]. intros sp m3 (-> & K3 & H3). rewrite Ea in *. split_and!.
  - replace (top - padding - 4 * zlen words - 16) with (base + (esp - base) + ((top - esp - padding)) - 4 * zlen words - 16) by lia. rewrite He in *. pose proof (Z.div_mod (base + 4096 - top) 4 ltac:(lia)). pose proof (Z.div_mod base 4 ltac:(lia)). apply Z.mod_divide; [lia|].
    exists (base `div` 4 + 1024 - (base + 4096 - top) `div` 4 - 1 - zlen words - 4). lia.
  - lia.
  - destruct K3. lia.
  - exists addrs. split; [exact H3|]. eapply Forall2_impl; [|exact P1]. intros a s (? & ? & Hh). split_and!; [lia|lia|]. eapply keeps_holds; [exact K3|lia|]. eapply keeps_holds; [exact K2|lia|done].
Qed.
Lemma argument_passing_layout_witness :
  runs (argument_passing 4096 true (arguments [97; 98; 32; 99]) 8192) (replicate 4096 0) (λ sp m', sp `mod` 4 = 0 ∧ 4096 ≤ sp).
Proof.
  refine (runs_mono _ _ _ _ (argument_passing_layout 4096 (replicate 4096 0) [[97; 98]; [99]] 8192 _ _ _ _ _ _ _) _).
  - reflexivity.
  - reflexivity.
  - lia.
  - lia.
  - reflexivity.
  - assert (∀ c, 32 < c → c ∉ BLANKS) as Hc by (intros c Hc; unfold BLANKS; rewrite !not_elem_of_cons; split_and!; [lia|lia|apply not_elem_of_nil]).
    repeat constructor; (discriminate || (apply Hc; lia)).
  - vm_compute. discriminate.
  - intros sp m' (Hs & Hb & _). split; [exact Hs|exact Hb].
Defined.
(** A name of 16 characters or more is written past the end of [process_name]. *)
Lemma long_name_overflows : process_name (replicate 16 97) = Undef.
Proof. vm_compute. reflexivity. Qed.
(** An argument that does not fit in the page is written below it. *)
Lemma long_argument_overflows : argument_passing 4096 true [replicate 4096 97] 8192 (replicate 4096 0) = Undef.
Proof. vm_compute. reflexivity. Qed.
