(* ===== verification/Load.v ===== *)
(** * Loading programs (src/pintos/src/userprog/process.c: load and its helpers)

    The ELF file is its bytes, in the files of Vm.v.  The headers are checked as
    in the source; a segment becomes entries of the supplemental page table,
    which [page_in] reads from the file later (VmPageIn.v). *)

From S2P Require Import Prelude Bitmap KList Vaddr Cache Inode InodeSpec Vm VmSpec.

(** ** Headers *)

(** Little-endian fields at an offset. *)
Definition half (l : list Z) (o : Z) : Z := le_value (slice o 2 l).
Definition word (l : list Z) (o : Z) : Z := le_value (slice o 4 l).
Record Elf32_Ehdr : Type := Ehdr { e_ident : list Z; e_type : Z; e_machine : Z; e_version : Z; e_entry : Z; e_phoff : Z; e_phentsize : Z; e_phnum : Z }.
Record Elf32_Phdr : Type := Phdr { p_type : Z; p_offset : Z; p_vaddr : Z; p_filesz : Z; p_memsz : Z; p_flags : Z }.
Definition EHDR_SIZE : Z := 52.
Definition PHDR_SIZE : Z := 32.
Definition decode_ehdr (l : list Z) : Elf32_Ehdr := Ehdr (slice 0 16 l) (half l 16) (half l 18) (word l 20) (word l 24) (word l 28) (half l 42) (half l 44).
Definition decode_phdr (l : list Z) : Elf32_Phdr := Phdr (word l 0) (word l 4) (word l 8) (word l 16) (word l 20) (word l 24).
Definition PT_LOAD : Z := 1.
Definition PT_DYNAMIC : Z := 2.
Definition PT_INTERP : Z := 3.
Definition PT_SHLIB : Z := 5.
Definition PF_W : Z := 2.
(** ["\177ELF\1\1\1"]. *)
Definition ELF_MAGIC : list Z := [127; 69; 76; 70; 1; 1; 1].
Definition ehdr_ok (e : Elf32_Ehdr) : bool :=
  bool_decide (take 7 (e_ident e) = ELF_MAGIC) && (e_type e =? 2) && (e_machine e =? 3) && (e_version e =? 1) && (e_phentsize e =? PHDR_SIZE) && (e_phnum e <=? 1024).

Definition validate_segment (ph : Elf32_Phdr) (file_length : Z) : bool :=
  (Z.land (p_offset ph) PGMASK =? Z.land (p_vaddr ph) PGMASK)
  && (p_offset ph <=? u32 file_length)
  && (p_filesz ph <=? p_memsz ph)
  && negb (p_memsz ph =? 0)
  && is_user_vaddr (p_vaddr ph)
  && is_user_vaddr (u32 (p_vaddr ph + p_memsz ph))
  && (p_vaddr ph <=? u32 (p_vaddr ph + p_memsz ph))
  && (PGSIZE <=? p_vaddr ph).

Definition ROUND_UP (x step : Z) : Z := u32 (u32 (x + step - 1) `div` step * step).
(** What [load] passes on to [load_segment]. *)
Record segment : Type := Segment { file_page : Z; mem_page : Z; seg_read : Z; seg_zero : Z; seg_writable : bool }.
Definition segment_of (ph : Elf32_Phdr) : segment :=
  let page_offset := Z.land (p_vaddr ph) PGMASK in
  let rb := if 0 <? p_filesz ph then u32 (page_offset + p_filesz ph) else 0 in
  Segment (Z.land (p_offset ph) (not32 PGMASK)) (Z.land (p_vaddr ph) (not32 PGMASK)) rb
    (u32 (ROUND_UP (u32 (page_offset + p_memsz ph)) PGSIZE - rb)) (negb (Z.land (p_flags ph) PF_W =? 0)).

Section load.
Context (alloc : Z → bool) (pt_alloc : Z → Z → bool) (pick : gmap Z page → Z) (deny : Z → bool).

(** ** Segments *)

(** [while (read_bytes > 0 || zero_bytes > 0)], a page at a time. *)
Fixpoint load_pages (fuel : nat) (file ofs upage rb zb : Z) (writable : bool) : V bool :=
  match fuel with
  | O => out_of_fuel
  | S fuel =>
      if (0 <? rb) || (0 <? zb) then
        let page_read_bytes := if rb <? PGSIZE then rb else PGSIZE in
        let page_zero_bytes := PGSIZE - page_read_bytes in
        p ← page_alloc alloc pick upage writable;
        if p =? NULL then mret false else
        x ← page_at p;
        modify_page p (set_source file ofs page_read_bytes page_zero_bytes (mmap_id x));;
        load_pages fuel file (ofs + PGSIZE) (u32 (upage + PGSIZE)) (rb - page_read_bytes) (u32 (zb - page_zero_bytes)) writable
      else mret true
  end.
(** [file_seek]: its assertions.  The position is not kept, because [load] seeks before each of its reads and
    the pages record the offset they are read from. *)
Definition seek (file new_pos : Z) : V unit := assert (negb (file =? NULL));; assert (0 <=? new_pos).
Definition load_segment (file : Z) (g : segment) : V bool :=
  assert (u32 (seg_read g + seg_zero g) `mod` PGSIZE =? 0);;
  assert (pg_ofs (mem_page g) =? 0);;
  assert (file_page g `mod` PGSIZE =? 0);;
  seek file (file_page g);;
  load_pages (S (Z.to_nat (seg_read g + seg_zero g))) file (file_page g) (mem_page g) (seg_read g) (seg_zero g) (seg_writable g).

(** ** Programs *)

(** [install_page (upage, kpage, writable)]. *)
Definition install_page (upage k : Z) (writable : bool) : V bool :=
  s ← get;
  a ← pagedir_get_page (current s) upage;
  if a =? NULL then pagedir_set_page pt_alloc (current s) upage k writable else mret false.
(** The initial stack pointer, if the stack was set up. *)
Definition setup_stack : V (option Z) :=
  p ← page_alloc alloc pick (PHYS_BASE - PGSIZE) true;
  if p =? NULL then mret None else
  f ← frame_alloc deny p;
  modify_page p (set_frame (Some f));;
  modify_frame f (set_pinned true);;
  fr ← frame_at f;
  success ← install_page (PHYS_BASE - PGSIZE) (kpage fr) true;
  mret (if success : bool then Some PHYS_BASE else None).

(** The program headers, [n] of them left. *)
Fixpoint load_headers (n : nat) (file file_ofs : Z) : V bool :=
  match n with
  | O => mret true
  | S n =>
      s ← get;
      let bytes := files s file in
      if (file_ofs <? 0) || (zlen bytes <? file_ofs) then mret false else
      let d := slice file_ofs PHDR_SIZE bytes in
      if negb (zlen d =? PHDR_SIZE) then mret false else
      let ph := decode_phdr d in
      ok ← (if (p_type ph =? PT_DYNAMIC) || (p_type ph =? PT_INTERP) || (p_type ph =? PT_SHLIB) then mret false
            else if p_type ph =? PT_LOAD then
              if validate_segment ph (zlen bytes) then load_segment file (segment_of ph) else mret false
            else mret true);
      if ok : bool then load_headers n file (s32 (file_ofs + PHDR_SIZE)) else mret false
  end.
(** The entry point and the stack pointer.  [pd] is whether [pagedir_create]
    succeeds, [file] what [filesys_open] returns. *)
Definition load (pd : bool) (file : option Z) : V (option (Z * Z)) :=
  if negb pd then mret None else
  match file with
  | None => mret None
  | Some file =>
      s ← get;
      let d := slice 0 EHDR_SIZE (files s file) in
      let e := decode_ehdr d in
      if negb (zlen d =? EHDR_SIZE) || negb (ehdr_ok e) then mret None else
      ok ← load_headers (Z.to_nat (e_phnum e)) file (s32 (e_phoff e));
      if negb ok then mret None else
      esp ← setup_stack;
      match esp with Some esp => mret (Some (e_entry e, esp)) | None => mret None end
  end.
End load.

(** ** What a loaded segment holds *)

Definition clamp (r : Z) : Z := Z.max 0 (Z.min 4096 r).
Definition segment_page (t v file ofs r : Z) (w : bool) : page := Page v None t false false file ofs (clamp r) (4096 - clamp r) w MAP_FAILED NO_SECTOR.
Section pages.
Context (alloc : Z → bool) (pick : gmap Z page → Z) (Halloc : alloc PAGE_STRUCT_SIZE = true) (Hpick : ∀ m, m !! pick m = None ∧ pick m ≠ NULL).
(** Pages may be added, none is changed. *)
Definition extends (s s' : vm) : Prop := files s' = files s ∧ current s' = current s ∧ pages s ⊆ pages s' ∧ supplemental_pages s ⊆ supplemental_pages s'.
Lemma extends_trans s1 s2 s3 : extends s1 s2 → extends s2 s3 → extends s1 s3.
Proof. intros (A & B & C & D) (A' & B' & C' & D'). split_and!; [congruence|congruence|by etrans|by etrans]. Qed.
Lemma page_aligned v : is_u32 v → v `mod` 4096 = 0 → pg_round_down v = v.
Proof. intros Hv Hm. rewrite pg_round_down_spec by done. pose proof (Z.div_mod v 4096 ltac:(lia)). lia. Qed.
(** One turn of the loop. *)
Lemma run_new_page s v w file ofs r z (m : V bool) (Q : bool → vm → Prop) : is_u32 v → v `mod` 4096 = 0 → supplemental_pages s !! (current s, v) = None →
  (∀ s' p, extends s s' → pages s' !! p = Some (Page v None (current s) false false file ofs r z w MAP_FAILED NO_SECTOR) → supplemental_pages s' = <[(current s, v) := p]> (supplemental_pages s) → runs m s' Q) →
  runs (p ← page_alloc alloc pick v w; if p =? NULL then mret false else x ← page_at p; modify_page p (set_source file ofs r z (mmap_id x));; m) s Q.
Proof using All.
  intros Hv Hm Hs Hk. destruct (Hpick (pages s)) as [Hfresh Hnn]. set (p := pick (pages s)) in *. apply runs_bind. unfold page_alloc. apply runs_bind, runs_get. apply runs_bind. unfold page_lookup. apply runs_bind, runs_get.
  rewrite page_aligned by done. rewrite Hs. apply runs_ret. simpl (default _ _). rewrite Z.eqb_refl, Halloc. cbn [negb]. apply runs_bind, runs_put. apply runs_ret. fold p. destruct (Z.eqb_spec p NULL) as [|_]; [done|].
  set (x := Page v None (current s) false false NULL 0 0 0 w MAP_FAILED NO_SECTOR). apply runs_bind, (run_page_at _ _ x); [apply lookup_insert_eq|]. apply runs_bind, (run_modify_page _ _ _ x); [apply lookup_insert_eq|].
  apply (Hk _ p); [|simpl; apply lookup_insert_eq|done]. split_and!; [done|done|..]; simpl.
  - rewrite insert_insert_eq. by apply insert_subseteq.
  - by apply insert_subseteq.
Qed.
Lemma load_pages_spec n : ∀ fuel s file ofs v rb zb w, (n < fuel)%nat → 0 ≤ rb → 0 ≤ zb → rb + zb = Z.of_nat n * 4096 → 0 ≤ v → v `mod` 4096 = 0 → v + Z.of_nat n * 4096 ≤ PHYS_BASE →
  (∀ i, 0 ≤ i < Z.of_nat n → supplemental_pages s !! (current s, v + i * 4096) = None) →
  runs (load_pages alloc pick fuel file ofs v rb zb w) s (λ ok s', ok = true ∧ extends s s' ∧
    ∀ i, 0 ≤ i < Z.of_nat n → ∃ p, supplemental_pages s' !! (current s, v + i * 4096) = Some p ∧
      pages s' !! p = Some (segment_page (current s) (v + i * 4096) file (ofs + i * 4096) (rb - i * 4096) w)).
Proof using All.
  unfold PHYS_BASE. induction n as [|n IH]; intros fuel s file ofs v rb zb w Hf Hrb Hzb Hsum Hv Hal Htop Hfree; (destruct fuel as [|fuel]; [lia|]); cbn [load_pages].
  { assert (rb = 0) as -> by lia. assert (zb = 0) as -> by lia. simpl. run. split_and!; [done|done|lia]. }
  assert ((0 <? rb) || (0 <? zb) = true) as -> by (apply orb_true_iff; rewrite !Z.ltb_lt; lia). change PGSIZE with 4096. set (r := if rb <? 4096 then rb else 4096).
  assert (r = clamp rb) as Er by (unfold r, clamp; destruct (Z.ltb_spec rb 4096); lia). assert (0 ≤ 4096 - r ≤ zb) as Hz' by (unfold clamp in Er; lia).
  apply run_new_page; [unfold is_u32; lia|done|specialize (Hfree 0); rewrite Z.mul_0_l, Z.add_0_r in Hfree; apply Hfree; lia|]. intros s1 p Hext Hpg Hsupp. rewrite !u32_small by lia. pose proof Hext as (_ & Hcur & _ & _).
  eapply runs_mono; [apply (IH fuel s1 file (ofs + 4096) (v + 4096) (rb - r) (zb - (4096 - r)) w); [lia|unfold clamp in Er; lia|lia|lia|lia|rewrite <-Z.add_mod_idemp_r by lia; change (4096 `mod` 4096) with 0; by rewrite Z.add_0_r|lia|]|].
  { intros i Hi. rewrite Hcur, Hsupp, lookup_insert_ne by (intros [= E]; lia). specialize (Hfree (i + 1)). replace (v + (i + 1) * 4096) with (v + 4096 + i * 4096) in Hfree by lia. apply Hfree. lia. }
  intros ok s' (-> & Hext' & Hpages). split_and!; [done|by eapply extends_trans|]. intros i Hi. destruct (decide (i = 0)) as [->|Hi0].
  - exists p. rewrite Z.mul_0_l, !Z.add_0_r, Z.sub_0_r. destruct Hext' as (_ & _ & Hp' & Hs'). split; [eapply lookup_weaken; [|exact Hs']; rewrite Hsupp; apply lookup_insert_eq|].
    eapply lookup_weaken; [|exact Hp']. unfold segment_page. by rewrite <-Er.
  - destruct (Hpages (i - 1)) as (q & Hq1 & Hq2); [lia|]. exists q. rewrite Hcur in *. replace (v + 4096 + (i - 1) * 4096) with (v + i * 4096) in * by lia.
    replace (ofs + 4096 + (i - 1) * 4096) with (ofs + i * 4096) in Hq2 by lia. split; [done|]. rewrite Hq2. unfold segment_page. do 2 f_equal; unfold clamp in *; lia.
Qed.
End pages.

Definition phdr_wf (ph : Elf32_Phdr) : Prop := is_u32 (p_offset ph) ∧ is_u32 (p_vaddr ph) ∧ is_u32 (p_filesz ph) ∧ is_u32 (p_memsz ph).
(** The geometry of a segment that was accepted: [n] whole pages of user memory. *)
Lemma segment_geometry ph len : phdr_wf ph → 0 ≤ len < 2 ^ 32 → validate_segment ph len = true →
  let g := segment_of ph in let o := p_vaddr ph `mod` 4096 in
  ∃ n, seg_read g + seg_zero g = n * 4096 ∧ mem_page g = p_vaddr ph - o ∧ file_page g = p_offset ph - o ∧ 0 < n ∧ o + p_memsz ph ≤ n * 4096 < o + p_memsz ph + 4096 ∧
    seg_read g = (if 0 <? p_filesz ph then o + p_filesz ph else 0) ∧ 0 ≤ seg_zero g ∧ PGSIZE ≤ mem_page g ∧ mem_page g + n * 4096 ≤ PHYS_BASE ∧ mem_page g `mod` 4096 = 0 ∧ file_page g `mod` 4096 = 0 ∧
    p_filesz ph ≤ p_memsz ph ∧ p_offset ph ≤ len.
Proof.
  intros (Ho & Hv & Hfs & Hms) Hlen Hval. unfold validate_segment in Hval. rewrite !andb_true_iff, !Z.leb_le, negb_true_iff, Z.eqb_eq, Z.eqb_neq in Hval. destruct Hval as (((((((V1 & V2) & V3) & V4) & V5) & V6) & V7) & V8).
  unfold is_user_vaddr in V5, V6. rewrite Z.ltb_lt in V5, V6. change PHYS_BASE with 3221225472 in *. change PGSIZE with 4096 in *. fold (pg_ofs (p_offset ph)) (pg_ofs (p_vaddr ph)) in V1. rewrite !pg_ofs_mod in V1. rewrite u32_small in V2 by lia.
  unfold is_u32 in *. assert (p_vaddr ph + p_memsz ph < 2 ^ 32) as Hnw.
  { destruct (decide (p_vaddr ph + p_memsz ph < 2 ^ 32)); [done|]. unfold u32 in V7. rewrite <-(Z.mod_add _ (-1)) in V7 by lia. rewrite Z.mod_small in V7 by lia. lia. }
  rewrite u32_small in V6 by lia. set (o := p_vaddr ph `mod` 4096). assert (0 ≤ o < 4096) as Hob by (apply Z.mod_pos_bound; lia). unfold segment_of. cbn [seg_read seg_zero mem_page file_page]. fold (pg_ofs (p_vaddr ph)) (pg_round_down (p_vaddr ph)) (pg_round_down (p_offset ph)).
  rewrite pg_ofs_mod, !pg_round_down_spec by done. fold o. fold o in V1. change PGSIZE with 4096. rewrite !(u32_small (o + _)) by lia.
  set (n := (o + p_memsz ph + 4096 - 1) `div` 4096). assert (ROUND_UP (o + p_memsz ph) 4096 = n * 4096) as ->.
  { unfold ROUND_UP. rewrite (u32_small (_ + _ - 1)) by lia. fold n. pose proof (Z.div_mod (o + p_memsz ph + 4096 - 1) 4096 ltac:(lia)) as E. fold n in E. pose proof (Z.mod_pos_bound (o + p_memsz ph + 4096 - 1) 4096 ltac:(lia)). rewrite u32_small by lia. done. }
  pose proof (Z.div_mod (o + p_memsz ph + 4096 - 1) 4096 ltac:(lia)) as En. fold n in En. pose proof (Z.mod_pos_bound (o + p_memsz ph + 4096 - 1) 4096 ltac:(lia)) as Emod.
  pose proof (Z.div_mod (p_vaddr ph) 4096 ltac:(lia)) as Ev. fold o in Ev. pose proof (Z.div_mod (p_offset ph) 4096 ltac:(lia)) as Eo. rewrite V1 in Eo.
  assert (∀ a, (4096 * a) `mod` 4096 = 0) as Hdiv by (intros a; rewrite Z.mul_comm; by apply Z.mod_mul).
  set (rb := if 0 <? p_filesz ph then o + p_filesz ph else 0). assert (0 ≤ rb ≤ o + p_filesz ph) as Hrb by (unfold rb; destruct (Z.ltb_spec 0 (p_filesz ph)); lia).
  rewrite u32_small by lia. exists n. split_and!; try done; lia.
Qed.
Lemma source_byte s t v file ofs r w o : file ≠ NULL → 0 ≤ ofs → 0 ≤ o < 4096 → (0 < clamp r → ofs + clamp r ≤ zlen (files s file)) →
  (source s (segment_page t v file ofs r w))@[o] = if o <? clamp r then (files s file)@[ofs + o] else Some 0.
Proof.
  intros Hf Hofs Ho Hl. assert (0 ≤ clamp r ≤ 4096) as Hc by (unfold clamp; lia). unfold source, segment_page. cbn [p_file file_ofs read_bytes zero_bytes]. destruct (Z.eqb_spec file NULL) as [|_]; [done|]. assert (zlen (slice ofs (clamp r) (files s file)) = clamp r) as El by (destruct (decide (clamp r = 0)) as [->|]; [done|apply zlen_slice; lia]). rewrite zlookup_app, El.
  destruct (Z.ltb_spec o (clamp r)); [apply slice_lookup; lia|]. unfold zlookup. destruct (Z.ltb_spec (o - clamp r) 0); [lia|]. apply lookup_replicate_2. lia.
Qed.
(** The bytes a segment should have in memory: those of the file, then zeros. *)
Definition segment_byte (ph : Elf32_Phdr) (bytes : list Z) (a : Z) : option Z :=
  if a <? p_vaddr ph + p_filesz ph then bytes@[p_offset ph + (a - p_vaddr ph)] else Some 0.

(** C16 A program header that [validate_segment] accepts, whose bytes the file has ([validate_segment] only
    compares the offset with the length of the file), and none of whose pages is in use yet, as long as
    memory for the records of the pages is there: the segment lies in user memory above
    the first page, and [load_segment] returns true without failing an assertion: it
    enters pages for exactly the pages of the segment, changes no page that
    was there, and the contents [page_in] will read are the bytes of the file
    followed by zeros, at their addresses. *)
Theorem segment_loaded alloc pick s file ph : alloc PAGE_STRUCT_SIZE = true → (∀ m, m !! pick m = None ∧ pick m ≠ NULL) → file ≠ NULL → phdr_wf ph → zlen (files s file) < 2 ^ 32 →
  validate_segment ph (zlen (files s file)) = true → p_offset ph + p_filesz ph ≤ zlen (files s file) →
  (∀ v, mem_page (segment_of ph) ≤ v < p_vaddr ph + p_memsz ph → supplemental_pages s !! (current s, v) = None) →
  runs (load_segment alloc pick file (segment_of ph)) s (λ ok s', ok = true ∧ extends s s' ∧
    ∀ a, p_vaddr ph ≤ a < p_vaddr ph + p_memsz ph → PGSIZE ≤ a < PHYS_BASE ∧ ∃ p x, supplemental_pages s' !! (current s, pg_round_down a) = Some p ∧ pages s' !! p = Some x ∧
      page_key x = (current s, pg_round_down a) ∧ p_writable x = seg_writable (segment_of ph) ∧ p_frame x = None ∧ private x = false ∧ (source s' x)@[a `mod` 4096] = segment_byte ph (files s file) a).
Proof.
  intros Hal Hpick Hfile Hwf Hlen Hval Hfs Hfree. pose proof (zlen_nonneg (files s file)) as Hl0. destruct (segment_geometry ph _ Hwf (conj Hl0 Hlen) Hval) as (n & Esum & Emem & Efp & Hn & Hms & Erd & Hz & Hlow & Htop & Ha1 & Ha2 & Hfm & Hol).
  destruct Hwf as (Ho & Hv & Hf & Hm). unfold is_u32 in *. set (g := segment_of ph) in *. set (o := p_vaddr ph `mod` 4096) in *. assert (0 ≤ o < 4096) as Hob by (apply Z.mod_pos_bound; lia).
  change PGSIZE with 4096 in *. change PHYS_BASE with 3221225472 in *. assert (0 ≤ seg_read g ≤ o + p_filesz ph) as Hrd by (rewrite Erd; destruct (Z.ltb_spec 0 (p_filesz ph)); lia).
  assert (0 ≤ file_page g) as Hfp by (rewrite Efp; pose proof (Z.div_mod (p_offset ph) 4096 ltac:(lia)); pose proof (Z.mod_pos_bound (p_offset ph) 4096 ltac:(lia)); pose proof (Z.div_pos (p_offset ph) 4096 ltac:(lia) ltac:(lia)); rewrite Efp in Ha2; destruct (decide (p_offset ph < o)); [|lia]; exfalso; assert ((p_offset ph - o) `mod` 4096 = p_offset ph - o + 4096) by (rewrite <-(Z.mod_add _ 1) by lia; rewrite Z.mod_small by lia; lia); lia).
  unfold load_segment. apply runs_bind, runs_assert; [rewrite Esum, u32_small by lia; change PGSIZE with 4096; by rewrite Z.mod_mul by lia|]. apply runs_bind, runs_assert; [by rewrite pg_ofs_mod, Ha1|]. apply runs_bind, runs_assert; [change PGSIZE with 4096; by rewrite Ha2|].
  apply runs_bind. unfold seek. apply runs_bind, runs_assert; [by destruct (Z.eqb_spec file NULL)|]. apply runs_assert; [by apply Z.leb_le|].
  eapply runs_mono; [apply (load_pages_spec alloc pick Hal Hpick (Z.to_nat n)); [lia|lia|done|lia|lia|done|unfold PHYS_BASE; lia|]|].
  { intros i Hi. apply Hfree. lia. }
  intros ok s' (-> & Hext & Hpages). split_and!; [done|done|]. intros a Ha. split; [lia|]. set (i := (a - mem_page g) `div` 4096). pose proof (Z.div_mod (a - mem_page g) 4096 ltac:(lia)) as Ei. fold i in Ei. pose proof (Z.mod_pos_bound (a - mem_page g) 4096 ltac:(lia)) as Hri.
  assert (0 ≤ i < n) as Hi by (split; [apply Z.div_pos; lia|apply Z.div_lt_upper_bound; lia]). assert (a `mod` 4096 = (a - mem_page g) `mod` 4096) as Emod.
  { rewrite Zminus_mod, Ha1, Z.sub_0_r, Z.mod_mod by lia. done. }
  assert (pg_round_down a = mem_page g + i * 4096) as Epg.
  { rewrite pg_round_down_spec by (unfold is_u32; lia). pose proof (Z.div_mod a 4096 ltac:(lia)). lia. }
  destruct (Hpages i) as (p & Hp1 & Hp2); [lia|]. exists p. eexists. rewrite Epg. split_and!; [done|exact Hp2|done|done|done|done|]. destruct Hext as (Efiles & _).
  pose proof (Z.mod_pos_bound a 4096 ltac:(lia)) as Hao. rewrite source_byte; rewrite ?Efiles; try done; [|lia|unfold clamp; lia]. rewrite Emod. unfold segment_byte.
  assert ((a - mem_page g) `mod` 4096 < clamp (seg_read g - i * 4096) ↔ a < p_vaddr ph + p_filesz ph) as Hiff.
  { unfold clamp. rewrite Erd, Emem in *. destruct (Z.ltb_spec 0 (p_filesz ph)); lia. }
  destruct (Z.ltb_spec ((a - mem_page g) `mod` 4096) (clamp (seg_read g - i * 4096))), (Z.ltb_spec a (p_vaddr ph + p_filesz ph)); try tauto; try lia. f_equal. lia.
Qed.
Definition demo_phdr : Elf32_Phdr := Phdr PT_LOAD 4096 0x8048000 2 10 0.
Definition demo_file : list Z := replicate 4096 0 ++ [5; 6].
Definition empty_vm : vm := Vm [] None ∅ ∅ ∅ (λ _, []) (Block BLOCK_SWAP 0 (λ _, []) 0 0) (Bitmap 0 []) (λ _, demo_file) [] 7 0.
Lemma segment_loaded_witness :
  runs (load_segment (λ _, true) (λ m, fresh (dom m ∪ {[0]})) 9 (segment_of demo_phdr)) empty_vm (λ ok s', ok = true ∧
    ∃ p x, supplemental_pages s' !! (7, 0x8048000) = Some p ∧ pages s' !! p = Some x ∧ (source s' x)@[1] = Some 6).
Proof.
  refine (runs_mono _ _ _ _ (segment_loaded (λ _, true) (λ m, fresh (dom m ∪ {[0]})) empty_vm 9 demo_phdr _ _ _ _ _ _ _ _) _).
  - reflexivity.
  - intros m. pose proof (is_fresh (dom m ∪ {[0]})) as H. split; [apply not_elem_of_dom; set_solver|unfold NULL; set_solver].
  - discriminate.
  - unfold phdr_wf, is_u32. cbn. lia.
  - vm_compute. reflexivity.
  - vm_compute. reflexivity.
  - vm_compute. discriminate.
  - intros v _. reflexivity.
  - intros ok s' (-> & _ & H). split; [reflexivity|]. destruct (H 0x8048001) as (_ & p & x & H1 & H2 & _ & _ & _ & _ & H3); [cbn; lia|]. exists p, x. split; [exact H1|]. split; [exact H2|]. exact H3.
Defined.
