(* ===== verification/Syscall.v ===== *)
(** * System calls (src/pintos/src/userprog/syscall.c)

    The memory of the process is a function from addresses to bytes; [None] is
    an address at which an access ends the process (page_fault of Vm.v).  A call
    that ends the process with status -1, by [sys_exit (-1)] or by a fault,
    yields [None].  The file system is the one of Directory.v; a
    descriptor owns its [struct file].  [filesys_lock] does not change what a call
    that runs alone does.

    [present] tells which pages, by number, are in the supplemental page table of
    the process when a call begins; a page of the stack that was never used is not, but
    is entered by the fault of the first access to it.  That matters because
    [page_unpin] asserts that the page is there, while [page_pin] does not
    bring it in ([pin_does_not_load] of VmDemo.v: it hands [page_in] a wrong address),
    and only sets a mark that keeps a frame from being evicted.

    A fault in the middle of [file_read], [file_write] or [putbuf] ends the
    process as well; the part of that call that precedes the fault is left out.
    [strmax] bounds the length of the strings of the process.

    [process_execute], [process_wait] (Process.v), [sys_mmap], [sys_munmap] (Mmap.v)
    and [sys_halt] work on other state: they are parameters of the handler, the record
    [others]. *)

From S2P Require Import Prelude KList Vaddr Cache Inode Directory.

Definition FD_MAX : Z := 128.
Definition STDIN_FILENO : Z := 0.
Definition STDOUT_FILENO : Z := 1.

(** ** User memory *)

Section memory.
Context (umem : Z → option Z).
(** Whether the byte could be read. *)
Definition get_user (a : Z) : bool := bool_decide (is_Some (umem a)).
Definition access_ok (vaddr size : Z) : bool :=
  if negb (is_user_vaddr (u32 (vaddr + size))) || negb (is_user_vaddr vaddr) then false
  else if negb (get_user vaddr) then false
  else if 0 <? size then get_user (u32 (vaddr + size)) else true.
(** The [n] bytes at [a], each of which the kernel reads. *)
Fixpoint user_bytes (n : nat) (a : Z) : option (list Z) :=
  match n with
  | O => Some []
  | S n => b ← umem a; l ← user_bytes n (u32 (a + 1)); Some (b :: l)
  end.
Definition read_argument (esp offset : Z) : option Z :=
  if access_ok esp (offset * 4) then le_value <$> user_bytes 4 (u32 (esp + offset * 4)) else None.
(** [d] is stored at [a], in memory that may be written. *)
Fixpoint store_user (writable : Z → bool) (a : Z) (d : list Z) : option (Z → option Z) :=
  match d with
  | [] => Some umem
  | b :: d => m ← store_user writable (u32 (a + 1)) d;
              if get_user a && writable a then Some (λ x, if x =? a then Some b else m x) else None
  end.
(** The string at [a], which ends within [fuel] bytes. *)
Fixpoint user_string (fuel : nat) (a : Z) : outcome (option (list Z)) :=
  match fuel with
  | O => NoFuel
  | S fuel => match umem a with
              | None => Done None
              | Some 0 => Done (Some [])
              | Some c => r ← user_string fuel (u32 (a + 1)); Done (option_map (cons c) r)
              end
  end.
End memory.
Definition valid_user_fd (fd : Z) : bool := (0 <=? fd) && (fd <? 128).

(** The pages known after an access to the [n] bytes at [a]. *)
Definition touch (t : Z → bool) (a n : Z) : Z → bool := λ v, t v || ((0 <? n) && (pg_no a <=? v) && (v <=? pg_no (a + n - 1))).
(** After the accesses of [access_ok]. *)
Definition probed (t : Z → bool) (vaddr size : Z) : Z → bool :=
  let t := touch t vaddr 1 in if 0 <? size then touch t (u32 (vaddr + size)) 1 else t.

(** ** The process *)

Record uproc (S : Type) : Type := Uproc { u_fs : fs S; fd_table : list (option file); next_fd : Z; cur_dir : option dir; console : list Z; keys : list Z }.
Arguments Uproc {S}.
Arguments u_fs {S}.
Arguments fd_table {S}.
Arguments next_fd {S}.
Arguments cur_dir {S}.
Arguments console {S}.
Arguments keys {S}.
(** [init_process]. *)
Definition init_process {S} (f : fs S) (d : option dir) (input : list Z) : uproc S := Uproc f (replicate (Z.to_nat FD_MAX) None) 2 d [] input.

Section calls.
Context {S : Type} `{!BlockStore S} (alloc : Z → bool) (save_map : M (fs S) bool) (pick : gmap Z inode → Z) (junk : list Z) (umem : Z → option Z) (writable present : Z → bool) (strmax : nat).
Abbreviation P := (uproc S).
Definition on_fs {A} (m : M (fs S) A) : M P A := λ p,
  match m (u_fs p) with
  | Done (a, f) => Done (a, Uproc f (fd_table p) (next_fd p) (cur_dir p) (console p) (keys p))
  | Panic => Panic | Undef => Undef | NoFuel => NoFuel
  end.
Definition fd_at (fd : Z) : M P (option file) := p ← get; lift (rd (fd_table p) fd).
Definition set_fd (fd : Z) (x : option file) : M P unit :=
  p ← get; l ← lift (wr (fd_table p) fd x); put (Uproc (u_fs p) l (next_fd p) (cur_dir p) (console p) (keys p)).
(** [t->cur_dir], which is followed. *)
Definition cwd : M P dir := p ← get; lift (defined (cur_dir p)).
(** The calls continue only with good arguments; otherwise the process ends. *)
Definition check {A} (b : bool) (m : M P (option A)) : M P (option A) := if b then m else mret None.
(** A call that reads a string of the process. *)
Definition with_string {A} (a : Z) (m : list Z → M P (option A)) : M P (option A) :=
  r ← lift (user_string umem strmax a); match r with Some s => m s | None => mret None end.

(** The size becomes an [off_t]. *)
Definition sys_create (name initial_size : Z) : M P (option bool) :=
  check (access_ok umem name 0) (
  with_string name (λ s,
    check (negb (bool_decide (s = []))) (
    d ← cwd;
    x ← on_fs (filesys_open alloc save_map pick junk d s);
    match x with
    | None => b ← on_fs (filesys_create alloc save_map pick junk d s (s32 initial_size)); mret (Some b)
    | Some x => on_fs (file_close alloc save_map (Some x));; mret (Some false)
    end))).
Definition sys_remove (name : Z) : M P (option bool) :=
  check (access_ok umem name 0) (
  with_string name (λ s, d ← cwd; b ← on_fs (filesys_remove alloc save_map pick junk d s); mret (Some b))).

(** [while (t->fd_table[t->next_fd] != NULL) t->next_fd = (t->next_fd + 1) % FD_MAX]. *)
Fixpoint next_free (fuel : nat) : M P Z :=
  match fuel with
  | O => out_of_fuel
  | Datatypes.S fuel =>
      p ← get;
      x ← lift (rd (fd_table p) (next_fd p));
      match x with
      | Some _ => put (Uproc (u_fs p) (fd_table p) ((next_fd p + 1) `mod` FD_MAX) (cur_dir p) (console p) (keys p));; next_free fuel
      | None => mret (next_fd p)
      end
  end.
Definition sys_open (name : Z) : M P (option Z) :=
  check (negb (name =? NULL) && access_ok umem name 0) (
  with_string name (λ s,
    d ← cwd;
    x ← on_fs (filesys_open alloc save_map pick junk d s);
    match x with
    | Some x => fd ← next_free (Z.to_nat FD_MAX); set_fd fd (Some x);; mret (Some fd)
    | None => mret (Some (-1))
    end)).
Definition sys_filesize (fd : Z) : M P (option Z) :=
  check (valid_user_fd fd) (
  x ← fd_at fd;
  match x with Some x => n ← on_fs (file_length x); mret (Some n) | None => mret (Some (-1)) end).

(** [*(buf + i) = input_getc ()] for all [i < size]: the keys. *)
Definition take_keys (size : Z) : M P (list Z) :=
  p ← get;
  if zlen (keys p) <? size then out_of_fuel else
  put (Uproc (u_fs p) (fd_table p) (next_fd p) (cur_dir p) (console p) (drop (Z.to_nat size) (keys p)));;
  mret (take (Z.to_nat size) (keys p)).
Definition first_chunk (buffer size : Z) : Z := let n := PGSIZE - pg_ofs buffer in if size <? n then size else n.
(** [page_unpin], when the pages [t] are known. *)
Definition unpin (t : Z → bool) (upage : Z) : M P unit := assert (t (pg_no upage)).
(** [while (size > 0)] of [sys_read], from the memory [mem] and the known pages [t]. *)
Fixpoint read_chunks (fuel : nat) (t : Z → bool) (mem : Z → option Z) (fd buffer upage size cnt : Z) : M P (option (Z * (Z → option Z))) :=
  match fuel with
  | O => out_of_fuel
  | Datatypes.S fuel =>
      if 0 <? size then
        let n := first_chunk buffer size in
        x ← fd_at fd;
        x ← lift (defined x);
        '(d, x) ← on_fs (file_read alloc save_map x n);
        set_fd fd (Some x);;
        match store_user mem writable buffer d with
        | None => mret None
        | Some mem =>
            let t := touch t buffer (zlen d) in
            unpin t upage;;
            read_chunks fuel t mem fd (u32 (buffer + n)) (u32 (upage + PGSIZE)) (size - n) (cnt + zlen d)
        end
      else mret (Some (cnt, mem))
  end.
(** The result, and the memory of the process afterwards. *)
Definition sys_read (fd buffer size : Z) : M P (option (Z * (Z → option Z))) :=
  check (access_ok umem buffer size && valid_user_fd fd && negb (fd =? STDOUT_FILENO)) (
  r ← (if fd =? STDIN_FILENO then k ← take_keys size; mret (pair size <$> store_user umem writable buffer k) else mret (Some (-1, umem)));
  match r with
  | None => mret None
  | Some (cnt, mem) =>
      x ← fd_at fd;
      match x with
      | Some _ =>
          let t := probed present buffer size in
          let t := if fd =? STDIN_FILENO then touch t buffer size else t in
          read_chunks (Datatypes.S (Z.to_nat size)) t mem fd buffer (pg_round_down buffer) size 0
      | None => mret (Some (cnt, mem))
      end
  end).

(** [file_write] reads the buffer only if it has something to write; a fault ends the process. *)
Fixpoint write_chunks (fuel : nat) (t : Z → bool) (fd buffer upage size cnt : Z) : M P (option Z) :=
  match fuel with
  | O => out_of_fuel
  | Datatypes.S fuel =>
      if 0 <? size then
        let n := first_chunk buffer size in
        p ← get;
        x ← fd_at fd;
        x ← lift (defined x);
        let bytes := user_bytes umem (Z.to_nat n) buffer in
        '(w, x) ← on_fs (file_write alloc save_map x (default (replicate (Z.to_nat n) 0) bytes) n);
        if (0 <? w) && bool_decide (bytes = None) then put p;; mret None else
        set_fd fd (Some x);;
        let t := touch t buffer w in
        unpin t upage;;
        write_chunks fuel t fd (u32 (buffer + n)) (u32 (upage + PGSIZE)) (size - n) (cnt + w)
      else mret (Some cnt)
  end.
Definition sys_write (fd buffer size : Z) : M P (option Z) :=
  check (access_ok umem buffer size && valid_user_fd fd && negb (fd =? STDIN_FILENO)) (
  r ← (if fd =? STDOUT_FILENO then
         match user_bytes umem (Z.to_nat size) buffer with
         | None => mret None
         | Some d => modify (λ p, Uproc (u_fs p) (fd_table p) (next_fd p) (cur_dir p) (console p ++ d) (keys p));; mret (Some size)
         end
       else mret (Some (-1)));
  match r with
  | None => mret None
  | Some cnt =>
      x ← fd_at fd;
      match x with
      | Some x =>
          is_dir ← on_fs (inode_is_dir (file_get_inode x));
          if is_dir : bool then mret (Some cnt) else
          let t := probed present buffer size in
          let t := if fd =? STDOUT_FILENO then touch t buffer size else t in
          write_chunks (Datatypes.S (Z.to_nat size)) t fd buffer (pg_round_down buffer) size 0
      | None => mret (Some cnt)
      end
  end).

(** The position becomes an [off_t]. *)
Definition sys_seek (fd position : Z) : M P (option unit) :=
  check (valid_user_fd fd) (
  x ← fd_at fd;
  match x with Some x => x ← lift (file_seek x (s32 position)); set_fd fd (Some x);; mret (Some tt) | None => mret (Some tt) end).
Definition sys_tell (fd : Z) : M P (option Z) :=
  check (valid_user_fd fd) (x ← fd_at fd; mret (Some (match x with Some x => file_tell x | None => -1 end))).
Definition sys_close (fd : Z) : M P (option unit) :=
  check (valid_user_fd fd) (
  x ← fd_at fd;
  match x with Some x => on_fs (file_close alloc save_map (Some x));; set_fd fd None;; mret (Some tt) | None => mret (Some tt) end).

(** [for (i = 2; i < cur->next_fd; i++)] of [process_exit], [n] turns left, and the executable. *)
Fixpoint close_fds (n : nat) (i : Z) : M P unit :=
  match n with
  | O => mret tt
  | Datatypes.S n =>
      x ← fd_at i;
      match x with Some x => on_fs (file_close alloc save_map (Some x));; set_fd i None | None => mret tt end;;
      close_fds n (i + 1)
  end.
Definition exit_files (executable : option file) : M P unit :=
  p ← get; close_fds (Z.to_nat (next_fd p - 2)) 2;; on_fs (file_close alloc save_map executable).

Definition sys_chdir (name : Z) : M P (option bool) :=
  check (access_ok umem name 0) (
  with_string name (λ s,
    d ← cwd;
    '(path, n) ← on_fs (inode_open_path alloc save_map pick junk d s);
    i ← (if path =? NULL then mret NULL
         else if negb (bool_decide (n = [])) then
           w ← on_fs (dir_open alloc save_map path); i ← on_fs (dir_lookup alloc save_map pick junk w n); on_fs (dir_close alloc save_map w);; mret i
         else mret path);
    if i =? NULL then mret (Some false) else
    is_dir ← on_fs (inode_is_dir i);
    if is_dir : bool then
      p ← get; on_fs (dir_close alloc save_map (cur_dir p));;
      w ← on_fs (dir_open alloc save_map i);
      modify (λ p, Uproc (u_fs p) (fd_table p) (next_fd p) w (console p) (keys p));;
      mret (Some true)
    else on_fs (inode_close alloc save_map i);; mret (Some false))).
Definition sys_mkdir (name : Z) : M P (option bool) :=
  check (access_ok umem name 0) (
  with_string name (λ s, d ← cwd; b ← on_fs (filesys_mkdir alloc save_map pick junk d s); mret (Some b))).
Definition not_console (fd : Z) : bool := valid_user_fd fd && negb (fd =? STDIN_FILENO) && negb (fd =? STDOUT_FILENO).
(** Whether there is another entry, whose name is then stored, and the memory afterwards. *)
Definition sys_readdir (fd name : Z) : M P (option (bool * (Z → option Z))) :=
  check (access_ok umem name 0 && not_console fd) (
  x ← fd_at fd;
  match x with
  | Some x =>
      is_dir ← on_fs (inode_is_dir (file_get_inode x));
      if is_dir : bool then
        d ← lift (defined (file_dir x));
        '(r, d) ← on_fs (dir_listdir alloc save_map junk d);
        set_fd fd (Some (File (file_inode x) (Some d) (file_pos x) (deny_write x)));;
        mret (match r with Some n => pair true <$> store_user umem writable name (n ++ [0]) | None => Some (false, umem) end)
      else mret (Some (false, umem))
  | None => mret (Some (false, umem))
  end).
Definition sys_isdir (fd : Z) : M P (option bool) :=
  check (not_console fd) (x ← fd_at fd; match x with Some x => b ← on_fs (inode_is_dir (file_get_inode x)); mret (Some b) | None => mret (Some false) end).
Definition sys_isnumber (fd : Z) : M P (option Z) :=
  check (not_console fd) (x ← fd_at fd; match x with Some x => n ← on_fs (inode_get_inumber (file_get_inode x)); mret (Some n) | None => mret (Some (-1)) end).

(** ** The handler *)

(** The process ends with a status, or goes on with a value in [eax]. *)
Inductive reply : Type := Ended (status : Z) | Continues (eax : Z).
Definition returns {A} (f : A → Z) (m : M P (option A)) : M P reply := r ← m; mret (match r with Some a => Continues (f a) | None => Ended (-1) end).
Definition of_bool (b : bool) : Z := if b then 1 else 0.
Definition argument (esp n : Z) (m : Z → M P reply) : M P reply := match read_argument umem esp n with Some a => m a | None => mret (Ended (-1)) end.
(** What other parts of the kernel do. *)
Record others : Type := Others { halt_call : M P (option unit); process_execute_call : Z → M P Z; process_wait_call : Z → M P Z; mmap_call : Z → Z → M P (option Z); munmap_call : Z → M P (option unit) }.
Context (o : others).
Definition sys_exec (name : Z) : M P (option Z) :=
  check (negb (name =? NULL) && access_ok umem name 0) (pid ← process_execute_call o name; mret (Some pid)).
Definition sys_wait (pid : Z) : M P (option Z) :=
  check (negb (pid =? -1)) (success ← process_wait_call o pid; mret (Some success)).
Definition syscall_handler (esp eax : Z) : M P reply :=
  argument esp 0 (λ arg0,
  let nr := s32 arg0 in
  if nr =? 0 then returns (λ _, eax) (halt_call o)
  else if nr =? 1 then argument esp 1 (λ a, mret (Ended (s32 a)))
  else if nr =? 2 then argument esp 1 (λ a, returns id (sys_exec a))
  else if nr =? 3 then argument esp 1 (λ a, returns id (sys_wait (s32 a)))
  else if nr =? 4 then argument esp 1 (λ a, argument esp 2 (λ b, returns of_bool (sys_create a b)))
  else if nr =? 5 then argument esp 1 (λ a, returns of_bool (sys_remove a))
  else if nr =? 6 then argument esp 1 (λ a, returns id (sys_open a))
  else if nr =? 7 then argument esp 1 (λ a, returns id (sys_filesize (s32 a)))
  else if nr =? 8 then argument esp 1 (λ a, argument esp 2 (λ b, argument esp 3 (λ c, returns fst (sys_read (s32 a) b c))))
  else if nr =? 9 then argument esp 1 (λ a, argument esp 2 (λ b, argument esp 3 (λ c, returns id (sys_write (s32 a) b c))))
  else if nr =? 10 then argument esp 1 (λ a, argument esp 2 (λ b, returns (λ _, eax) (sys_seek (s32 a) b)))
  else if nr =? 11 then argument esp 1 (λ a, returns id (sys_tell (s32 a)))
  else if nr =? 12 then argument esp 1 (λ a, returns (λ _, eax) (sys_close (s32 a)))
  else if nr =? 13 then argument esp 1 (λ a, argument esp 2 (λ b, returns id (mmap_call o (s32 a) b)))
  else if nr =? 14 then argument esp 1 (λ a, returns (λ _, eax) (munmap_call o (s32 a)))
  else if nr =? 15 then argument esp 1 (λ a, returns of_bool (sys_chdir a))
  else if nr =? 16 then argument esp 1 (λ a, returns of_bool (sys_mkdir a))
  else if nr =? 17 then argument esp 1 (λ a, argument esp 2 (λ b, returns (λ r, of_bool r.1) (sys_readdir (s32 a) b)))
  else if nr =? 18 then argument esp 1 (λ a, returns of_bool (sys_isdir (s32 a)))
  else if nr =? 19 then argument esp 1 (λ a, returns id (sys_isnumber (s32 a)))
  else mret (Continues eax)).
End calls.
