(* ===== verification/Mmap.v ===== *)
(** * Memory mapped files (sys_mmap and sys_munmap of src/pintos/src/userprog/syscall.c)

    The calls on the state of Vm.v; [fd_file] gives the file behind a
    descriptor, [NULL] for one that is not in use.  A call that ends the
    process yields [None]. *)

From S2P Require Import Prelude Bitmap KList Vaddr Cache Inode InodeSpec Directory Vm VmSpec VmPageIn VmDemo Load Syscall.

Lemma aligned_room v n : v `mod` 4096 = 0 → 0 < n → v + n ≤ 3221225472 → v + 4096 ≤ 3221225472.
Proof. intros. div_lia. Qed.

Section mmap.
Context (alloc : Z → bool) (pick : gmap Z page → Z) (deny : Z → bool) (fd_file : Z → Z).

Definition sys_munmap (mapid : Z) : V (option unit) :=
  if negb (valid_user_fd mapid) || (mapid =? STDIN_FILENO) || (mapid =? STDOUT_FILENO) then mret None else
  s ← get;
  match list_find (λ m, m_id m = mapid) (mmap_list s) with
  | Some (i, m) => page_munmap deny m;; modify (λ s, set_mmaps (delete i (mmap_list s)) s);; mret (Some tt)
  | None => mret (Some tt)
  end.

(** [while (read_bytes > 0)]: a page of the file for each page of the buffer. *)
Fixpoint mmap_pages (fuel : nat) (id file file_ofs upage rb : Z) : V (option Z) :=
  match fuel with
  | O => out_of_fuel
  | S fuel =>
      if 0 <? rb then
        let page_read_bytes := if rb <? PGSIZE then rb else PGSIZE in
        s ← get;
        v ← page_lookup (current s) upage;
        if negb (v =? NULL) then r ← sys_munmap id; mret ((λ _, MAP_FAILED) <$> r) else
        p ← page_alloc alloc pick upage true;
        if p =? NULL then r ← sys_munmap id; mret ((λ _, MAP_FAILED) <$> r) else
        modify_page p (set_source file file_ofs page_read_bytes (PGSIZE - page_read_bytes) id);;
        mmap_pages fuel id file (file_ofs + PGSIZE) (u32 (upage + PGSIZE)) (rb - page_read_bytes)
      else mret (Some id)
  end.
(** Following [t->fd_table[fd]] when the slot is empty is undefined. *)
Definition sys_mmap (fd buffer : Z) : V (option Z) :=
  if negb (pg_ofs buffer =? 0) || (buffer =? NULL) || negb (valid_user_fd fd) || (fd =? STDIN_FILENO) || (fd =? STDOUT_FILENO)
     || negb (is_user_vaddr buffer) || (PHYS_BASE - STACK_SIZE <=? buffer) then mret (Some MAP_FAILED) else
  if fd_file fd =? NULL then undefined else
  if negb (alloc FILE_SIZE) then mret (Some MAP_FAILED) else
  s ← get;
  let file := fd_file fd in
  let read_bytes := zlen (files s file) in
  if read_bytes =? 0 then mret (Some MAP_FAILED) else
  if negb (alloc MMAP_STRUCT_SIZE) then mret (Some MAP_FAILED) else
  put (set_mmaps (mmap_list s ++ [Mmap fd file buffer read_bytes]) s);;
  mmap_pages (S (Z.to_nat read_bytes)) fd file 0 buffer read_bytes.

(** ** A mapped file is in memory *)

Context (Halloc : ∀ n, alloc n = true) (Hpick : ∀ m, m !! pick m = None ∧ pick m ≠ NULL).
Definition mapped_page (t v file ofs r id : Z) : page := Page v None t false false file ofs r (4096 - r) true id NO_SECTOR.
(** No page is of the part of [file] from [ofs] on. *)
Definition before_in_file (s : vm) (file ofs : Z) : Prop := ∀ q y, pages s !! q = Some y → p_file y = file → file_ofs y + read_bytes y ≤ ofs.

(** One turn of the loop. *)
Lemma run_mapped_page s v file ofs r id (m : V (option Z)) (Q : option Z → vm → Prop) : is_u32 v → v `mod` 4096 = 0 → supplemental_pages s !! (current s, v) = None →
  (∀ p, pages s !! p = None → p ≠ NULL → runs m (with_page s p (mapped_page (current s) v file ofs r id)) Q) →
  runs (p ← page_alloc alloc pick v true; if p =? NULL then r ← sys_munmap id; mret ((λ _, MAP_FAILED) <$> r) else modify_page p (set_source file ofs r (4096 - r) id);; m) s Q.
Proof using Halloc Hpick.
  intros Hv Hm Hs Hk. destruct (Hpick (pages s)) as [Hfresh Hnn]. set (p := pick (pages s)) in *. apply runs_bind. unfold page_alloc. apply runs_bind, runs_get. apply runs_bind. unfold page_lookup. apply runs_bind, runs_get.
  rewrite page_aligned by done. rewrite Hs. apply runs_ret. simpl (default _ _). rewrite Z.eqb_refl, Halloc. cbn [negb]. apply runs_bind, runs_put. apply runs_ret. fold p. destruct (Z.eqb_spec p NULL) as [|_]; [done|].
  apply runs_bind. eapply run_modify_page; [apply lookup_insert_eq|]. specialize (Hk p Hfresh Hnn). unfold with_page in Hk. cbn in Hk |- *. unfold set_pages. simpl. by rewrite insert_insert_eq.
Qed.

(** From [s] to [s'] the [rb] bytes of the file from [ofs] on were mapped at [v]. *)
Definition mapped (s s' : vm) (file ofs v rb : Z) : Prop :=
  vm_inv None s' ∧ files s' = files s ∧ current s' = current s ∧ supplemental_pages s ⊆ supplemental_pages s' ∧ (∀ q, is_Some (pages s !! q) → view s' q = view s q) ∧
  ∀ i, 0 ≤ i → i * 4096 < rb → ∃ p, supplemental_pages s' !! (current s, v + i * 4096) = Some p ∧ view s' p = Some (slice (ofs + i * 4096) (4096 `min` (rb - i * 4096)) (files s file)).

Lemma mapped_page_wf s t v file ofs r id : file ≠ NULL → is_u32 v → v `mod` 4096 = 0 → 0 ≤ ofs → 0 ≤ r ≤ 4096 → ofs + r ≤ zlen (files s file) → page_wf s (mapped_page t v file ofs r id).
Proof. intros Hf Hv Hm Ho Hr Hl. split; [done|]. simpl. destruct (Z.eqb_spec file NULL); [done|]. change PGSIZE with 4096. split_and!; try lia. Qed.

Lemma mmap_pages_spec id file : file ≠ NULL → id ≠ MAP_FAILED → ∀ fuel s ofs v rb, vm_inv None s → (Z.to_nat rb < fuel)%nat → 0 ≤ rb → 0 ≤ ofs → (0 < rb → ofs + rb ≤ zlen (files s file)) →
  0 ≤ v → v `mod` 4096 = 0 → v + rb ≤ PHYS_BASE → before_in_file s file ofs →
  (∀ i, 0 ≤ i → i * 4096 < rb → supplemental_pages s !! (current s, v + i * 4096) = None) →
  runs (mmap_pages fuel id file ofs v rb) s (λ r s', r = Some id ∧ mapped s s' file ofs v rb).
Proof using Halloc Hpick.
  intros Hfile Hid. induction fuel as [|fuel IH]; intros s ofs v rb Hinv Hfuel Hrb Hofs Hlen Hv Hal Htop Hbef Hfree; [lia|]. cbn [mmap_pages].
  destruct (Z.ltb_spec 0 rb) as [Hlt|]; [|run; split; [done|]; split_and!; try done; intros i; lia].
  change PGSIZE with 4096. unfold PHYS_BASE in *. set (r := if rb <? 4096 then rb else 4096). assert (r = 4096 `min` rb) as Er by (unfold r; destruct (Z.ltb_spec rb 4096); lia). clearbody r.
  pose proof (Hfree 0 ltac:(lia) ltac:(lia)) as Hs0. rewrite Z.mul_0_l, Z.add_0_r in Hs0.
  apply runs_bind, runs_get. apply runs_bind. unfold page_lookup. apply runs_bind, runs_get. rewrite Hs0. apply runs_ret. simpl (default _ _). rewrite Z.eqb_refl. cbn [negb].
  assert (is_u32 v) as Hv32 by (unfold is_u32; lia). apply run_mapped_page; [done|done|done|]. intros p Hp Hpn. set (x := mapped_page (current s) v file ofs r id).
  assert (page_wf s x) as Hwf by (apply mapped_page_wf; try done; lia).
  assert (∀ q y, pages s !! q = Some y → apart_in_file x y) as Happ.
  { intros q y Hq _ E _. right. apply (Hbef q y Hq). by symmetry. }
  pose proof (with_page_inv s p x Hinv Hp Hpn Hs0 eq_refl eq_refl Hwf Happ) as I1. pose proof (with_page_view s p x Hinv Hp Hpn Hs0 eq_refl eq_refl Hwf Happ) as V1. set (s1 := with_page s p x) in *.
  assert (v + 4096 ≤ 3221225472) as Hv4 by (by apply (aligned_room v rb)). rewrite u32_small by lia. assert (current s1 = current s ∧ files s1 = files s) as [Hcur Hfl] by done.
  eapply runs_mono; [apply (IH s1 (ofs + 4096) (v + 4096) (rb - r)); [done|lia|lia|lia|rewrite Hfl; lia|lia|rewrite <-Z.add_mod_idemp_r, Z.add_0_r by lia; done|lia|..]|].
  - intros q y Hq E. simpl in Hq. apply lookup_insert_Some in Hq as [[_ <-]|[_ Hq]]; [simpl; lia|]. pose proof (Hbef q y Hq E). lia.
  - intros i Hi Hir. rewrite Hcur. simpl. rewrite lookup_insert_ne by (intros [= E]; lia). replace (v + 4096 + i * 4096) with (v + (i + 1) * 4096) by lia. apply Hfree; lia.
  - intros r' s' (-> & I' & F' & C' & Hsub & V' & M'). split; [done|]. split_and!; [done|congruence|congruence|..].
    + etrans; [|exact Hsub]. simpl. by apply insert_subseteq.
    + intros q [y Hq]. rewrite V' by (simpl; rewrite lookup_insert_ne by congruence; by exists y). rewrite V1. destruct (Z.eqb_spec q p); [congruence|done].
    + intros i Hi Hir. destruct (decide (i = 0)) as [->|].
      * exists p. rewrite Z.mul_0_l, !Z.add_0_r, Z.sub_0_r. split; [eapply lookup_weaken; [|exact Hsub]; simpl; apply lookup_insert_eq|].
        rewrite V', V1, Z.eqb_refl by (simpl; rewrite lookup_insert_eq; by eexists). f_equal. rewrite <- Er. unfold visible, source, x. simpl.
        destruct (Z.eqb_spec id MAP_FAILED), (Z.eqb_spec file NULL); try done. apply take_app_length'. pose proof (zlen_slice ofs r (files s file)) as Hz. unfold zlen in Hz at 2. lia.
      * destruct (M' (i - 1)) as (q & Hq1 & Hq2); [lia|lia|]. exists q. rewrite Hcur in Hq1. replace (v + 4096 + (i - 1) * 4096) with (v + i * 4096) in Hq1 by lia. split; [done|].
        rewrite Hq2, Hfl. do 2 f_equal; lia.
Qed.

(** C18 [sys_mmap] of a file that no page is taken from yet, at page-aligned
    addresses below the stack that are not in use: the call returns the
    descriptor, each page of the range is entered and shows the bytes of the
    file at its offset, every page that was there shows what it showed, and the
    tables stay consistent, so that [page_in] will bring the pages in. *)
Theorem mmap_maps_file fd buffer s : let file := fd_file fd in let n := zlen (files s file) in
  vm_inv None s → 2 ≤ fd < FD_MAX → file ≠ NULL → 0 < n → 0 < buffer < PHYS_BASE - STACK_SIZE → buffer `mod` 4096 = 0 → buffer + n ≤ PHYS_BASE →
  (∀ q y, pages s !! q = Some y → p_file y ≠ file) → (∀ i, 0 ≤ i → i * 4096 < n → supplemental_pages s !! (current s, buffer + i * 4096) = None) →
  runs (sys_mmap fd buffer) s (λ r s', r = Some fd ∧ mapped s s' file 0 buffer n).
Proof using Halloc Hpick.
  intros file n Hinv Hfd Hfile Hn Hb Hal Htop Hno Hfree. unfold sys_mmap. unfold PHYS_BASE, STACK_SIZE, is_user_vaddr in *.
  assert (valid_user_fd fd = true ∧ (fd =? STDIN_FILENO) = false ∧ (fd =? STDOUT_FILENO) = false) as (-> & -> & ->).
  { unfold valid_user_fd, FD_MAX, STDIN_FILENO, STDOUT_FILENO in *. split_and!; [apply andb_true_iff; lia|lia..]. }
  rewrite pg_ofs_mod, Hal. destruct (Z.eqb_spec buffer NULL) as [E|_]; [unfold NULL in E; lia|]. unfold PHYS_BASE. destruct (Z.ltb_spec buffer 3221225472); [|lia]. destruct (Z.leb_spec (3221225472 - 8 * 1024 * 1024) buffer); [lia|]. cbn [Z.eqb negb orb].
  fold file. destruct (Z.eqb_spec file NULL); [done|]. rewrite !Halloc. cbn [negb]. apply runs_bind, runs_get. fold n. destruct (Z.eqb_spec n 0); [lia|]. apply runs_bind, runs_put.
  assert (fd ≠ MAP_FAILED) as Hid by (unfold MAP_FAILED; lia). set (s0 := set_mmaps _ s). assert (similar s s0) as Hsim by done.
  eapply runs_mono; [apply (mmap_pages_spec fd file Hfile Hid _ s0 0 buffer n); try done; try lia; [by eapply similar_inv|]|].
  - intros q y Hq E. by destruct (Hno q y Hq).
  - intros r s' (-> & I & F & C & Hs & Hv & Hm). split; [done|]. split_and!; done.
Qed.
End mmap.

(** ** On the machine of VmDemo.v *)

Definition demo_new (m : gmap Z page) : Z := fresh (dom m ∪ {[NULL]}).
Lemma demo_new_fresh m : m !! demo_new m = None ∧ demo_new m ≠ NULL.
Proof.
  pose proof (is_fresh (dom m ∪ {[NULL]})) as H. fold (demo_new m) in H. split; [apply not_elem_of_dom; set_solver|set_solver].
Qed.
Lemma mmap_maps_file_witness : runs (sys_mmap (λ _, true) demo_new (λ _, false) (λ _, 11) 3 0x10000000) demo (λ r s', r = Some 3 ∧
  ∃ p, supplemental_pages s' !! (7, 0x10000000) = Some p ∧ view s' p = Some (replicate 5 65)).
Proof.
  refine (runs_mono _ _ _ _ (mmap_maps_file (λ _, true) demo_new (λ _, false) (λ _, 11) _ demo_new_fresh 3 0x10000000 demo demo_inv _ _ _ _ _ _ _ _) _).
  - reflexivity.
  - split; [discriminate|reflexivity].
  - discriminate.
  - vm_compute. reflexivity.
  - vm_compute. split; reflexivity.
  - reflexivity.
  - vm_compute. discriminate.
  - intros q y [[-> ->]|[-> ->]]%demo_pages; discriminate.
  - intros i Hi Hn. change (zlen (files demo 11)) with 5 in Hn. assert (i = 0) as -> by lia. vm_compute. reflexivity.
  - intros r s' (-> & _ & _ & _ & _ & _ & H). split; [reflexivity|]. destruct (H 0) as (p & Hp & Hv); [lia|reflexivity|]. exists p. split; [exact Hp|]. rewrite Hv. vm_compute. reflexivity.
Defined.

(** ** What goes wrong *)

(** A mapping that meets a page of the program is refused, and the page it met
    is gone: [sys_munmap] releases every page of the range, not only those of
    the mapping. *)
Lemma refused_mapping_destroys_page : supplemental_pages demo !! (7, 0x8048000) = Some 2 ∧
  runs (sys_mmap (λ _, true) demo_new (λ _, false) (λ _, 11) 3 0x8048000) demo (λ r s', r = Some MAP_FAILED ∧ supplemental_pages s' !! (7, 0x8048000) = None ∧ pages s' !! 2 = None).
Proof. by vm_compute. Qed.
(** The id of a mapping is its descriptor: when a descriptor is mapped a second
    time and the second mapping is refused, it is the first that is undone. *)
Definition mapped_twice : V (option Z) := sys_mmap (λ _, true) demo_new (λ _, false) (λ _, 11) 3 0x10000000;; sys_mmap (λ _, true) demo_new (λ _, false) (λ _, 11) 3 0x8048000.
Lemma refused_mapping_undoes_another : runs mapped_twice demo (λ r s', r = Some MAP_FAILED ∧ supplemental_pages s' !! (7, 0x10000000) = None ∧ length (mmap_list s') = 1%nat).
Proof. by vm_compute. Qed.
(** A descriptor that is not in use is followed. *)
Lemma unused_descriptor_is_followed : sys_mmap (λ _, true) demo_new (λ _, false) (λ _, NULL) 3 0x10000000 demo = Undef.
Proof. by vm_compute. Qed.
