(* ===== verification/SyscallSpec.v ===== *)
(** * What system calls promise

    [access_ok] admits exactly the buffers of the process, if they are no
    longer than a page.  [sys_read] and [sys_write] go through the buffer page by
    page; what they do to the file is nevertheless one read, or one write,
    at its position. *)

From S2P Require Import Prelude KList Vaddr Cache Bitmap Inode InodeLayout InodeSpec InodeGrow InodeFile InodeDemo Directory DirectorySpec Syscall.

(** ** User memory *)

(** Memory is mapped by the page. *)
Definition by_page (umem : Z → option Z) : Prop := ∀ a b, a `div` PGSIZE = b `div` PGSIZE → is_Some (umem a) → is_Some (umem b).
(** The bytes [d] are at [a]. *)
Definition holds (umem : Z → option Z) (a : Z) (d : list Z) : Prop := ∀ j, 0 ≤ j < zlen d → umem (a + j) = d@[j].
(** The [n] bytes at [a] may be read and written. *)
Definition user_range (umem : Z → option Z) (writable : Z → bool) (a n : Z) : Prop := ∀ j, 0 ≤ j < n → get_user umem (a + j) && writable (a + j) = true.
(** The memory after [d] was stored at [a]. *)
Definition stored (umem : Z → option Z) (a : Z) (d : list Z) : Z → option Z := λ y, if (a <=? y) && (y <? a + zlen d) then d@[y - a] else umem y.

Lemma get_user_true umem a : get_user umem a = true ↔ is_Some (umem a).
Proof. apply bool_decide_eq_true. Qed.
Lemma u32_next a n : 0 ≤ a → 1 ≤ n → a + n < 2 ^ 32 → u32 (a + 1) = a + 1.
Proof. intros. apply Z.mod_small. lia. Qed.

Lemma user_stored_nil umem a y : stored umem a [] y = umem y.
Proof. unfold stored. change (zlen (@nil Z)) with 0. bool_cases; done. Qed.
Lemma stored_ext m m' a d y : (∀ y, m y = m' y) → stored m a d y = stored m' a d y.
Proof. intros H. unfold stored. by rewrite H. Qed.

Section memory.
Context (umem : Z → option Z).
Lemma access_ok_exact vaddr size : by_page umem → 0 ≤ vaddr → 0 ≤ size ≤ PGSIZE → vaddr < 2 ^ 32 →
  access_ok umem vaddr size = true ↔ ∀ a, vaddr ≤ a ≤ vaddr + size → is_user_vaddr a = true ∧ is_Some (umem a).
Proof.
  intros Hpage Hv Hs Hv'. unfold access_ok, is_user_vaddr. change PHYS_BASE with 3221225472 in *. change PGSIZE with 4096 in *.
  assert (vaddr < 3221225472 → u32 (vaddr + size) = vaddr + size) as Hu by (intros; apply Z.mod_small; lia). split.
  - destruct (Z.ltb_spec vaddr 3221225472) as [Hlt|]; [|by rewrite orb_true_r]. rewrite (Hu Hlt).
    destruct (Z.ltb_spec (vaddr + size) 3221225472); [cbn [negb orb]|done]. destruct (get_user umem vaddr) eqn:E1; [cbn [negb]|done].
    intros E2 a Ha. destruct (Z.ltb_spec a 3221225472); [|lia]. split; [done|]. apply get_user_true in E1.
    destruct (decide (a `div` 4096 = vaddr `div` 4096)) as [e|Hne]; [by apply (Hpage vaddr)|].
    destruct (Z.ltb_spec 0 size); [|assert (a = vaddr) as -> by lia; done]. apply get_user_true in E2. apply (Hpage (vaddr + size)); [|done].
    change PGSIZE with 4096. div_lia.
  - intros H. destruct (H vaddr ltac:(lia)) as [H1 H2%get_user_true], (H (vaddr + size) ltac:(lia)) as [H3 H4%get_user_true].
    rewrite Hu by (apply Z.ltb_lt, H1). rewrite H1, H3, H2, H4. simpl. by destruct (0 <? size).
Qed.

Lemma user_bytes_holds d : ∀ a, 0 ≤ a → a + zlen d < 2 ^ 32 → holds umem a d → user_bytes umem (length d) a = Some d.
Proof.
  induction d as [|b d IH]; intros a Ha Hl Hd; [done|]. autorewrite with zlen in Hl. pose proof (zlen_nonneg d).
  cbn [length user_bytes]. assert (umem a = Some b) as ->.
  { rewrite <- (Z.add_0_r a). apply Hd. rewrite zlen_cons. lia. }
  simpl. rewrite (u32_next a (1 + zlen d)) by lia. rewrite IH; [done|lia..|].
  intros j Hj. rewrite <- Z.add_assoc, (Hd (1 + j)) by (rewrite zlen_cons; lia). change (b :: d) with ([b] ++ d). rewrite zlookup_app.
  change (zlen [b]) with 1. bool_cases. f_equal. lia.
Qed.

Lemma user_holds_app a d1 d2 : holds umem a (d1 ++ d2) → holds umem a d1 ∧ holds umem (a + zlen d1) d2.
Proof.
  intros H. pose proof (zlen_nonneg d1). pose proof (zlen_nonneg d2). split; intros j Hj.
  - rewrite H, zlookup_app by (rewrite zlen_app; lia). by bool_cases.
  - rewrite <- Z.add_assoc, H, zlookup_app by (rewrite zlen_app; lia). bool_cases. f_equal. lia.
Qed.

Lemma store_user_spec writable d : ∀ a, 0 ≤ a → a + zlen d < 2 ^ 32 → user_range umem writable a (zlen d) →
  ∃ m, store_user umem writable a d = Some m ∧ ∀ y, m y = stored umem a d y.
Proof.
  induction d as [|b d IH]; intros a Ha Hl Hr.
  { exists umem. split; [done|]. intros y. by rewrite user_stored_nil. }
  autorewrite with zlen in Hl. pose proof (zlen_nonneg d). cbn [store_user]. rewrite (u32_next a (1 + zlen d)) by lia.
  destruct (IH (a + 1)) as (m & -> & Hm); [lia..| |].
  { intros j Hj. rewrite <- Z.add_assoc. apply Hr. rewrite zlen_cons. lia. }
  pose proof (Hr 0) as H0. rewrite Z.add_0_r in H0. simpl. rewrite H0 by (rewrite zlen_cons; lia).
  eexists. split; [done|]. intros y. cbv beta. rewrite Hm. unfold stored. rewrite zlen_cons. change (b :: d) with ([b] ++ d). rewrite zlookup_app.
  change (zlen [b]) with 1. destruct (Z.eqb_spec y a) as [->|].
  - rewrite Z.sub_diag. bool_cases. done.
  - bool_cases; try done. f_equal. lia.
Qed.
End memory.
Lemma stored_app umem a d1 d2 y : stored (stored umem a d1) (a + zlen d1) d2 y = stored umem a (d1 ++ d2) y.
Proof.
  unfold stored. rewrite zlen_app. pose proof (zlen_nonneg d1). pose proof (zlen_nonneg d2). rewrite zlookup_app.
  bool_cases; try done; f_equal; lia.
Qed.

(** ** Parts of files *)

Lemma slice_split pos n size (l : list Z) : 0 ≤ pos → 0 ≤ n ≤ size →
  slice pos size l = slice pos n l ++ slice (pos + zlen (slice pos n l)) (size - n) l.
Proof.
  intros Hp Hn. unfold slice. rewrite zlen_take by lia.
  replace (Z.to_nat size) with (Z.to_nat n + Z.to_nat (size - n))%nat by lia. rewrite <- take_take_drop. f_equal.
  rewrite drop_drop. unfold zlen. rewrite length_drop.
  destruct (decide (Z.to_nat pos + Z.to_nat n ≤ length l)%nat).
  - do 2 f_equal. lia.
  - rewrite !drop_ge by lia. done.
Qed.
Lemma zlen_slice_le pos n (l : list Z) : 0 ≤ pos → 0 ≤ n → zlen (slice pos n l) ≤ n ∧ pos + zlen (slice pos n l) ≤ pos `max` zlen l.
Proof. intros. unfold slice, zlen. rewrite length_take, length_drop. lia. Qed.
Lemma slice_past_end pos n m (l : list Z) : 0 ≤ pos → zlen (slice pos n l) < n → slice (pos + zlen (slice pos n l)) m l = [].
Proof.
  intros Hp H. assert (zlen l ≤ pos + zlen (slice pos n l)) by (revert H; unfold slice, zlen; rewrite length_take, length_drop; lia).
  unfold slice at 1. rewrite drop_ge; [by rewrite take_nil|]. unfold zlen in *. lia.
Qed.
Lemma overwrite_app pos d1 d2 (l : list Z) : 0 ≤ pos ≤ zlen l →
  overwrite (pos + zlen d1) d2 (overwrite pos d1 l) = overwrite pos (d1 ++ d2) l.
Proof.
  intros Hp. pose proof (zlen_nonneg d1). pose proof (zlen_nonneg d2). apply array_ext.
  { rewrite !zlen_overwrite_grow, zlen_app; rewrite ?zlen_overwrite_grow; lia. }
  intros j Hj. rewrite !overwrite_lookup_grow; rewrite ?zlen_overwrite_grow; try lia.
  rewrite zlen_app, zlookup_app. bool_cases; try done; f_equal; lia.
Qed.

(** ** The calls *)

Section calls.
Context {S : Type} `{!BlockStore S, !BlockStoreLaws S} (alloc : Z → bool) (Halloc : alloc BLOCK_SECTOR_SIZE = true).
Abbreviation P := (uproc S).
Implicit Types (p : P) (f : fs S) (L : layout).
Definition with_fs f p : P := Uproc f (fd_table p) (next_fd p) (cur_dir p) (console p) (keys p).
Definition with_fd (fd : Z) (x : option file) p : P := Uproc (u_fs p) ((fd_table p)@[fd := x]) (next_fd p) (cur_dir p) (console p) (keys p).

Lemma run_on_fs {A} (m : M (fs S) A) p (Q : A → P → Prop) : runs m (u_fs p) (λ a f, Q a (with_fs f p)) → runs (on_fs m) p Q.
Proof. unfold runs, on_fs. by destruct (m (u_fs p)) as [[a f]| | |]. Qed.
Lemma run_fd_at fd x p (Q : option file → P → Prop) : (fd_table p)@[fd] = Some x → Q x p → runs (fd_at fd) p Q.
Proof. intros H HQ. unfold fd_at. run. by rewrite (rd_Some _ _ _ H). Qed.
Lemma run_set_fd fd x y p (Q : unit → P → Prop) : (fd_table p)@[fd] = Some y → Q tt (with_fd fd x p) → runs (set_fd fd x) p Q.
Proof. intros H HQ. unfold set_fd. run. rewrite wr_in by (by eapply zlookup_bound). run. done. Qed.

Lemma first_chunk_range buffer size : 0 < size → 1 ≤ first_chunk buffer size ≤ size.
Proof.
  intros. unfold first_chunk, pg_ofs. change PGMASK with (Z.ones 12). rewrite Z.land_ones by lia. change PGSIZE with (2 ^ 12).
  pose proof (Z.mod_pos_bound buffer (2 ^ 12) ltac:(lia)). bool_cases; lia.
Qed.

(** *** The pages of a buffer *)

Lemma first_chunk_page buffer size : is_u32 buffer → first_chunk buffer size < size →
  first_chunk buffer size = 4096 - buffer `mod` 4096.
Proof. intros _. unfold first_chunk. rewrite pg_ofs_mod, PGSIZE_eq. bool_cases; lia. Qed.
(** The loops keep [upage] at the page of [buffer]. *)
Definition on_page (buffer upage size : Z) : Prop := 0 < size → upage = 4096 * (buffer `div` 4096).
Lemma on_page_first buffer size : is_u32 buffer → on_page buffer (pg_round_down buffer) size.
Proof. intros ? _. by apply pg_round_down_spec. Qed.
Lemma on_page_next buffer upage size : 0 ≤ buffer → 0 < size → buffer + size < 2 ^ 32 → on_page buffer upage size →
  on_page (buffer + first_chunk buffer size) (u32 (upage + PGSIZE)) (size - first_chunk buffer size).
Proof.
  intros Hb Hs Hbs Hu Hlt. rewrite (Hu Hs), PGSIZE_eq, (first_chunk_page buffer size) in * by (unfold is_u32; lia).
  rewrite u32_small by div_lia. div_lia.
Qed.
Lemma on_page_no buffer upage size : 0 < size → on_page buffer upage size → pg_no upage = buffer `div` 4096.
Proof. intros Hs Hu. rewrite pg_no_div, (Hu Hs). div_lia. Qed.

(** Each page of the [size] bytes at [buffer] is known, or the first [n] of them reach it. *)
Definition reached (t : Z → bool) (buffer size n : Z) : Prop :=
  ∀ v, buffer `div` 4096 ≤ v ≤ (buffer + size - 1) `div` 4096 → t v = true ∨ 0 < n ∧ v ≤ (buffer + n - 1) `div` 4096.
Lemma touch_known t a n v : t v = true → touch t a n v = true.
Proof. intros H. unfold touch. by rewrite H. Qed.
Lemma touch_reaches t a n v : 0 < n → a `div` 4096 ≤ v ≤ (a + n - 1) `div` 4096 → touch t a n v = true.
Proof. intros. unfold touch. rewrite !pg_no_div. destruct (t v); [done|]. cbn [orb]. bool_cases; done. Qed.
Lemma reached_first t buffer size n k : 0 < size → reached t buffer size n → (0 < n → 0 < k) → touch t buffer k (buffer `div` 4096) = true.
Proof.
  intros Hs Hr Hk. destruct (Hr (buffer `div` 4096)) as [H|[Hn _]]; [div_lia|by apply touch_known|]. apply touch_reaches; [auto|]. specialize (Hk Hn). div_lia.
Qed.
Lemma reached_next t buffer size n n1 n2 : 0 ≤ n1 ≤ n → 0 ≤ n2 → n ≤ size → (0 < n2 → n1 = n) → reached t buffer size (n1 + n2) →
  reached (touch t buffer n1) (buffer + n) (size - n) n2.
Proof.
  intros H1 H2 Hn Hall Hr v Hv. destruct (Hr v) as [H|[H3 H4]]; [div_lia|left; by apply touch_known|].
  destruct (decide (0 < n2)) as [Hlt|]; [right; specialize (Hall Hlt); subst n1; split; [done|div_lia]|].
  left. apply touch_reaches; [lia|]. div_lia.
Qed.
(** What [sys_read] needs: the pages that neither the bytes read nor the tests of [access_ok] reach are known. *)
Definition rest_known (present : Z → bool) (buffer size n : Z) : Prop :=
  ∀ v, buffer `div` 4096 < v < (buffer + size) `div` 4096 → (buffer + n - 1) `div` 4096 < v → present v = true.
Lemma probed_reached present buffer size n : 0 ≤ buffer → 0 ≤ size → buffer + size < 2 ^ 32 → 0 ≤ n → rest_known present buffer size n →
  reached (probed present buffer size) buffer size n.
Proof.
  intros Hb Hs Hbs Hn Hk v Hv. unfold probed. destruct (Z.ltb_spec 0 size); [|left; apply touch_reaches; [lia|div_lia]]. rewrite u32_small by lia.
  destruct (decide (v = buffer `div` 4096)); [left; apply touch_known, touch_reaches; [lia|div_lia]|].
  destruct (decide (v = (buffer + size) `div` 4096)); [left; apply touch_reaches; [lia|div_lia]|].
  destruct (decide (v ≤ (buffer + n - 1) `div` 4096)); [|left; do 2 apply touch_known; apply Hk; div_lia].
  destruct (decide (0 < n)); [by right|]. exfalso. div_lia.
Qed.

(** After a read of [d] from the position [pos]. *)
Definition has_read (fd i : Z) dd dw pos L x bytes p (d : list Z) p' : Prop :=
  sees (u_fs p) (u_fs p') (vw (u_fs p)) ∧ file_is (u_fs p') i L x bytes ∧
  p' = with_fs (u_fs p') (with_fd fd (Some (File i dd (pos + zlen d) dw)) p).

Lemma read_chunks_spec save writable fd i dd dw L x bytes : zlen bytes < MAX_FILE_SIZE → ∀ fuel t mem buffer upage size cnt pos p,
  (fd_table p)@[fd] = Some (Some (File i dd pos dw)) → file_is (u_fs p) i L x bytes → 0 ≤ pos < MAX_FILE_SIZE →
  0 ≤ size → (Z.to_nat size < fuel)%nat → 0 ≤ buffer → buffer + size < 2 ^ 32 → user_range mem writable buffer size →
  on_page buffer upage size → reached t buffer size (zlen (slice pos size bytes)) →
  runs (read_chunks alloc save writable fuel t mem fd buffer upage size cnt) p (λ r p', ∃ mem',
    r = Some (cnt + zlen (slice pos size bytes), mem') ∧ (∀ y, mem' y = stored mem buffer (slice pos size bytes) y) ∧
    has_read fd i dd dw pos L x bytes p (slice pos size bytes) p').
Proof using Halloc BlockStoreLaws0.
  intros Hmax. induction fuel as [|fuel IH]; intros t mem buffer upage size cnt pos p Hfd Hf Hpos Hs Hfuel Hb Hbs Hr Hup Ht; [lia|]. cbn [read_chunks].
  destruct (Z.ltb_spec 0 size) as [Hlt|]; cycle 1.
  { assert (size = 0) as -> by lia. run. exists mem. change (slice pos 0 bytes) with (@nil Z). change (zlen (@nil Z)) with 0. rewrite !Z.add_0_r. split_and!; [done| |].
    - intros y. by rewrite user_stored_nil.
    - split_and!; [apply sees_refl, (fa_store _ _ _ _ _ (fo_at _ _ _ _ _ (fi_ok _ _ _ _ _ Hf)))|done|].
      unfold with_fs, with_fd. simpl. rewrite Z.add_0_r, zinsert_id by done. by destruct p. }
  pose proof (first_chunk_range buffer size Hlt) as Hn. set (n := first_chunk buffer size) in *.
  rewrite (slice_split pos n size) in * by lia. pose proof (zlen_slice_le pos n bytes ltac:(lia) ltac:(lia)) as Hd. set (d := slice pos n bytes) in *.
  apply runs_bind, (run_fd_at _ _ _ _ Hfd). apply runs_bind, runs_ret. apply runs_bind, run_on_fs. unfold file_read. apply runs_bind. simpl.
  eapply runs_mono; [apply (read_spec alloc Halloc save (u_fs p) i L x bytes n pos); [done..|lia|lia]|]. intros ? f' (-> & Hsees & Hf'). fold d. apply runs_ret.
  apply runs_bind. eapply run_set_fd; [exact Hfd|].
  destruct (store_user_spec mem writable d buffer) as (m & -> & Hm); [lia..| |].
  { intros j Hj. apply Hr. lia. }
  replace (u32 (buffer + n)) with (buffer + n) by (symmetry; apply Z.mod_small; lia).
  assert (zlen d < n → slice (pos + zlen d) (size - n) bytes = []) as Hend by (intros; apply slice_past_end; fold d; lia).
  rewrite zlen_app in Ht. pose proof (zlen_nonneg (slice (pos + zlen d) (size - n) bytes)) as Hd2. cbv zeta.
  apply runs_bind, runs_assert.
  { rewrite (on_page_no _ _ _ Hlt Hup). eapply reached_first; [exact Hlt|exact Ht|]. intros ?. destruct (decide (zlen d < n)) as [e|]; [|lia]. rewrite (Hend e) in *. change (zlen (@nil Z)) with 0 in *. lia. }
  eapply runs_mono; [apply (IH (touch t buffer (zlen d)) m (buffer + n) (u32 (upage + PGSIZE)) (size - n) (cnt + zlen d) (pos + zlen d)); simpl; try done; try lia|].
  - apply zlookup_insert_eq. by eapply zlookup_bound.
  - pose proof (zlen_nonneg d). lia.
  - intros j Hj. specialize (Hr (n + j) ltac:(lia)). rewrite Z.add_assoc in Hr. apply andb_true_iff in Hr as [H1 H2]. rewrite H2, andb_true_r.
    apply get_user_true. apply get_user_true in H1. rewrite Hm. unfold stored. destruct (_ && _) eqn:E; [|done].
    apply andb_true_iff in E as [E1%Z.leb_le E2%Z.ltb_lt]. destruct (zlookup_lt d (buffer + n + j - buffer)) as [z ->]; [lia|by exists z].
  - by apply on_page_next.
  - apply reached_next; [pose proof (zlen_nonneg d); lia|lia|lia| |done]. intros ?. destruct (decide (zlen d < n)) as [e|]; [|lia]. rewrite (Hend e) in *. done.
  - intros r p' (mem' & -> & Hmem & Hsees' & Hfile & ->). exists mem'. rewrite zlen_app, Z.add_assoc. split_and!; [done| |].
    + intros y. rewrite Hmem, <- stored_app, (stored_ext m (stored mem buffer d) _ _ _ Hm).
      destruct (decide (zlen d = n)) as [e|Hne]; [by rewrite e|].
      rewrite Hend by lia. by rewrite !user_stored_nil.
    + split_and!; [|done|].
      { eapply sees_ext; [eapply sees_trans; [exact Hsees|exact Hsees']|]. intros b. symmetry. apply (se_view _ _ _ Hsees). }
       unfold with_fs, with_fd. simpl. by rewrite zinsert_insert, zlen_app, Z.add_assoc.
Qed.

(** Descriptors that are not the console's. *)
Lemma fd_checks fd : 2 ≤ fd < FD_MAX → valid_user_fd fd = true ∧ (fd =? STDIN_FILENO) = false ∧ (fd =? STDOUT_FILENO) = false.
Proof. unfold valid_user_fd, FD_MAX, STDIN_FILENO, STDOUT_FILENO. intros. split_and!; [|lia..]. apply andb_true_iff. lia. Qed.

(** C13 [sys_read] of an open file that has no holes ([file_is]), into a buffer of
    the process that may be written: the buffer
    then holds the bytes of the file from its position on, [size] of them or as
    many as there are, whatever pages the buffer spans; their number is
    returned and the position advances by it.  The rest of the
    memory, every file and every other descriptor are as they were.  The pages of
    the buffer that the bytes do not reach, other than its first and that of the byte after it,
    must be in the supplemental page table ([rest_known]): [page_unpin] stops the kernel otherwise. *)
Theorem sys_read_correct save umem writable present fd buffer size p i dd dw pos L x bytes :
  access_ok umem buffer size = true → user_range umem writable buffer size → 0 ≤ buffer → 0 ≤ size → buffer + size < 2 ^ 32 →
  2 ≤ fd < FD_MAX → (fd_table p)@[fd] = Some (Some (File i dd pos dw)) →
  file_is (u_fs p) i L x bytes → zlen bytes < MAX_FILE_SIZE → 0 ≤ pos < MAX_FILE_SIZE →
  rest_known present buffer size (zlen (slice pos size bytes)) →
  runs (sys_read alloc save umem writable present fd buffer size) p (λ r p', ∃ mem', let d := slice pos size bytes in
    r = Some (zlen d, mem') ∧ (∀ y, mem' y = stored umem buffer d y) ∧ has_read fd i dd dw pos L x bytes p d p').
Proof using Halloc BlockStoreLaws0.
  intros Ha Hr Hb Hs Hbs Hfd Hx Hf Hl Hpos Hk. destruct (fd_checks fd Hfd) as (Hv & H0 & H1). unfold sys_read, check. rewrite Ha, Hv, H0, H1. cbn [andb negb].
  apply runs_bind, runs_ret. apply runs_bind, (run_fd_at _ _ _ _ Hx). cbv zeta.
  eapply runs_mono; [apply (read_chunks_spec save writable fd i dd dw L x bytes Hl _ (probed present buffer size) umem buffer (pg_round_down buffer) size 0 pos p); try done; [lia|..]|done].
  - apply on_page_first. unfold is_u32. lia.
  - apply probed_reached; try done. apply zlen_nonneg.
Qed.

Section write.
Context (depth : nat) (Lm : layout) (im : Z) (Hlm : lo_inode Lm = 0).
Abbreviation save := (save_map alloc (Datatypes.S depth) : M (fs S) bool).

(** After a write of [d] at the position [pos]. *)
Definition has_written (fd i : Z) dd dw pos L x bytes c p (d : list Z) p' : Prop :=
  wrote Lm im (u_fs p) i L x c (u_fs p') (overwrite pos d bytes) ∧
  p' = with_fs (u_fs p') (with_fd fd (Some (File i dd (pos + zlen d) dw)) p).

Lemma wrote_trans f i L x c f1 L1 x1 f2 b2 : grown (owned Lm) i f L x f1 L1 x1 →
  wrote Lm im f1 i L1 x1 (c - (lo_n L1 - lo_n L)) f2 b2 → wrote Lm im f i L x c f2 b2.
Proof using Type.
  intros Hg (L2 & x2 & Hf2 & Hr2 & Hg2). exists L2, x2. split_and!; [done| |by eapply grown_trans].
  replace (c - (lo_n L2 - lo_n L)) with (c - (lo_n L1 - lo_n L) - (lo_n L2 - lo_n L1)) by lia. done.
Qed.
Lemma write_chunks_spec umem fd i dd dw : im ≠ i → ∀ fuel t d buffer upage cnt pos L x bytes c p,
  (fd_table p)@[fd] = Some (Some (File i dd pos dw)) → file_is (u_fs p) i L x bytes → room Lm im (u_fs p) L c → deny_write_cnt x = 0 →
  0 ≤ pos ≤ zlen bytes → pos + zlen d ≤ MAX_FILE_SIZE → pos + zlen d ≤ (lo_n L + c) * BLOCK_SECTOR_SIZE → Forall is_u8 d →
  (Z.to_nat (zlen d) < fuel)%nat → 0 ≤ buffer → buffer + zlen d < 2 ^ 32 → holds umem buffer d → on_page buffer upage (zlen d) →
  runs (write_chunks alloc save umem fuel t fd buffer upage (zlen d) cnt) p (λ r p', r = Some (cnt + zlen d) ∧ has_written fd i dd dw pos L x bytes c p d p').
Proof using Halloc BlockStoreLaws0 Hlm.
  intros Him. induction fuel as [|fuel IH]; intros t d buffer upage cnt pos L x bytes c p Hfd Hf Hroom Hdeny Hpos Hmax Hc Hu Hfuel Hb Hbs Hd Hup; [lia|]. cbn [write_chunks].
  destruct (Z.ltb_spec 0 (zlen d)) as [Hlt|]; cycle 1.
  { assert (d = []) as -> by (destruct d; [done|rewrite zlen_cons in *; pose proof (zlen_nonneg d); lia]). run. change (zlen (@nil Z)) with 0. rewrite Z.add_0_r. split; [done|].
    split; [|unfold with_fs, with_fd; change (zlen (@nil Z)) with 0; rewrite Z.add_0_r; simpl; rewrite zinsert_id by done; by destruct p].
    exists L, x. unfold overwrite. simpl. rewrite Nat.add_0_r, take_drop, Z.sub_diag, Z.sub_0_r. split_and!; [done|done|].
    eapply grown_write; [apply sees_refl, (fa_store _ _ _ _ _ (fo_at _ _ _ _ _ (fi_ok _ _ _ _ _ Hf)))|done]. }
  pose proof (first_chunk_range buffer (zlen d) Hlt) as Hn. set (n := first_chunk buffer (zlen d)) in *.
  assert (∃ d1 d2, d = d1 ++ d2 ∧ zlen d1 = n) as (d1 & d2 & -> & Hd1).
  { exists (take (Z.to_nat n) d), (drop (Z.to_nat n) d). split; [by rewrite take_drop|]. rewrite zlen_take; lia. }
  pose proof (on_page_next _ _ _ Hb Hlt Hbs Hup) as Hup'. fold n in Hup'. clearbody n. subst n. apply Forall_app in Hu as [Hu1 Hu2]. destruct (user_holds_app _ _ _ _ Hd) as [Hh1 Hh2]. pose proof (zlen_nonneg d2). rewrite zlen_app in *.
  apply runs_bind, runs_get. apply runs_bind, (run_fd_at _ _ _ _ Hfd). apply runs_bind, runs_ret.
  replace (Z.to_nat (zlen d1)) with (length d1) by (unfold zlen; lia). rewrite user_bytes_holds by (done || lia). cbv zeta. cbn [default].
  apply runs_bind, run_on_fs. unfold file_write. apply runs_bind. cbn [file_inode file_pos].
  eapply runs_mono; [apply (write_spec alloc Halloc depth Lm im Hlm (u_fs p) i L x bytes d1 pos c); try done; lia|]. intros ? f' (-> & L' & x' & Hf' & Hroom' & Hg). apply runs_ret.
  rewrite (bool_decide_eq_false_2 (Some d1 = None)), andb_false_r by done.
  apply runs_bind. eapply run_set_fd; [exact Hfd|]. apply runs_bind, runs_assert.
  { rewrite (on_page_no _ _ _ Hlt Hup). apply touch_reaches; [lia|div_lia]. }
  replace (u32 (buffer + zlen d1)) with (buffer + zlen d1) by (symmetry; apply Z.mod_small; lia).
  replace (zlen d1 + zlen d2 - zlen d1) with (zlen d2) by lia.
  eapply runs_mono; [apply (IH (touch t buffer (zlen d1)) d2 (buffer + zlen d1) (u32 (upage + PGSIZE)) (cnt + zlen d1) (pos + zlen d1) L' x' (overwrite pos d1 bytes) (c - (lo_n L' - lo_n L))); cbn [fd_table u_fs with_fs with_fd]; try done; try lia|].
  - apply zlookup_insert_eq. by eapply zlookup_bound.
  - rewrite (gr_x _ _ _ _ _ _ _ _ Hg). done.
  - rewrite zlen_overwrite_grow by lia. lia.
  - by replace (zlen d1 + zlen d2 - zlen d1) with (zlen d2) in Hup' by lia.
  - intros r p' (-> & Hw & ->). split; [f_equal; lia|]. split.
    + rewrite <- overwrite_app by lia. eapply wrote_trans; [exact Hg|exact Hw].
    + unfold with_fs, with_fd. simpl. by rewrite zinsert_insert, zlen_app, Z.add_assoc.
Qed.

(** C12 [sys_write] to an open file that is no directory, is not denied to writers and
    has no holes ([file_is]), of a buffer of the process, at a position
    within the file or at its end, when the disk has the sectors the write needs ([room]): the file then holds the bytes of the buffer
    at the position and its old bytes elsewhere, however many pages the buffer
    spans; the size is returned and the position advances by it.
    What else the disk holds, and every other descriptor, is as it was
    ([wrote]); the free map on disk is the one in memory.  (A write beyond the
    end of a file leaves holes; later writes into them can be lost, as the header says.) *)
Theorem sys_write_correct umem present fd buffer d p i dd dw pos L x bytes c :
  access_ok umem buffer (zlen d) = true → holds umem buffer d → Forall is_u8 d → 0 ≤ buffer → buffer + zlen d < 2 ^ 32 →
  2 ≤ fd < FD_MAX → (fd_table p)@[fd] = Some (Some (File i dd pos dw)) →
  file_is (u_fs p) i L x bytes → room Lm im (u_fs p) L c → im ≠ i → is_dir (idata x) = 0 → deny_write_cnt x = 0 →
  0 ≤ pos ≤ zlen bytes → pos + zlen d ≤ MAX_FILE_SIZE → pos + zlen d ≤ (lo_n L + c) * BLOCK_SECTOR_SIZE →
  runs (sys_write alloc save umem present fd buffer (zlen d)) p (λ r p', r = Some (zlen d) ∧ has_written fd i dd dw pos L x bytes c p d p').
Proof using Halloc BlockStoreLaws0 Hlm.
  intros Ha Hd Hu Hb Hbs Hfd Hx Hf Hroom Him Hdir Hdeny Hpos Hmax Hc. destruct (fd_checks fd Hfd) as (Hv & H0 & H1).
  unfold sys_write, check. rewrite Ha, Hv, H0, H1. cbn [andb negb]. apply runs_bind, runs_ret. apply runs_bind, (run_fd_at _ _ _ _ Hx).
  pose proof (fo_at _ _ _ _ _ (fi_ok _ _ _ _ _ Hf)) as Hat. apply runs_bind, run_on_fs. unfold inode_is_dir, file_get_inode. cbn [file_inode].
  destruct (Z.eqb_spec i NULL) as [e|]; [by destruct (fa_null _ _ _ _ _ Hat)|]. apply runs_bind, (run_inode_at _ _ x); [apply Hat|]. apply runs_ret. rewrite Hdir. cbn [Z.eqb negb].
  eapply runs_mono; [apply (write_chunks_spec umem fd i dd dw Him _ (probed present buffer (zlen d)) d buffer (pg_round_down buffer) 0 pos L x bytes c); try done; [lia|]|done].
  apply on_page_first. unfold is_u32. pose proof (zlen_nonneg d). lia.
Qed.
End write.
End calls.
