(* ===== verification/SyscallDemo.v ===== *)
(** * A process at work

    The theorems on system calls on a concrete process with two pages of memory,
    and what the checks of the code miss. *)

From S2P Require Import Prelude KList Vaddr Cache Bitmap Inode InodeLayout InodeSpec InodeGrow InodeFile InodeDemo Directory DirectorySpec Syscall SyscallSpec SyscallFd.

(** Two pages at 0x8048000; the string [/] is at 0x8048000 and the bytes 10, 20
    and 30 are at the page boundary. *)
Definition demo_mem (a : Z) : option Z :=
  if (134512640 <=? a) && (a <? 134520832) then
    Some (if a =? 134512640 then 47 else if a =? 134516735 then 10 else if a =? 134516736 then 20 else if a =? 134516737 then 30 else 0)
  else None.
Definition demo_pick : gmap Z inode → Z := λ _, 700.
(** Descriptor 2 is the empty file; its current directory is the root. *)
Definition demo_process : uproc cache := Uproc demo_fs ((replicate 128 None)@[2 := Some (File 600 None 0 false)]) 2 (Some (Dir 600 0)) [] [].

Lemma demo_by_page : by_page demo_mem.
Proof.
  intros a b Hab. unfold demo_mem. change PGSIZE with 4096 in Hab. intros [x Hx]. destruct (_ && _) eqn:E in Hx; [|discriminate].
  apply andb_true_iff in E as [E1%Z.leb_le E2%Z.ltb_lt].
  replace ((134512640 <=? b) && (b <? 134520832)) with true; [by eexists|]. symmetry. apply andb_true_iff. rewrite Z.leb_le, Z.ltb_lt. div_lia.
Qed.
Lemma access_ok_correct_witness : is_user_vaddr 134516736 = true ∧ is_Some (demo_mem 134516736).
Proof.
  refine (proj1 (access_ok_correct demo_mem 134516735 3 demo_by_page _ _) _ 134516736 _).
  - split; [discriminate|reflexivity].
  - vm_compute. split; discriminate.
  - vm_compute. reflexivity.
  - lia.
Defined.

Lemma sys_write_correct_witness : runs (sys_write ok (save_map ok 1) demo_mem (λ _, false) 2 134516735 3) demo_process (λ r _, r = Some 3).
Proof.
  refine (runs_mono _ _ _ _ (sys_write_correct ok eq_refl 0 Lmap 500 eq_refl demo_mem (λ _, false) 2 134516735 [10; 20; 30] demo_process 600 None false 0 Lempty
    (Inode 1 1 false 0 (new_disk 0 Lempty)) [] 30 _ _ _ _ _ _ _ demo_empty_file demo_room _ _ _ _ _ _) _).
  - vm_compute. reflexivity.
  - intros j Hj. change (zlen [10; 20; 30]) with 3 in Hj. assert (j = 0 ∨ j = 1 ∨ j = 2) as [-> | [-> | ->]] by lia; reflexivity.
  - repeat (apply Forall_cons_2; [unfold is_u8; lia|]). apply Forall_nil_2.
  - lia.
  - reflexivity.
  - split; [lia|reflexivity].
  - reflexivity.
  - discriminate.
  - reflexivity.
  - reflexivity.
  - vm_compute. split; discriminate.
  - vm_compute. discriminate.
  - vm_compute. discriminate.
  - intros r p' [-> _]. reflexivity.
Defined.

(** Descriptor 3 is the file of the free map, at offset 12. *)
Definition demo_reader : uproc cache := Uproc demo_fs ((replicate 128 None)@[3 := Some (File 500 None 12 false)]) 3 None [] [].
Lemma sys_read_correct_witness : runs (sys_read ok (save_map ok 1) demo_mem (λ _, true) (λ _, false) 3 134516735 3) demo_reader (λ r _, (λ r, (r.1, r.2 134516736)) <$> r = Some (3, Some 0)).
Proof.
  refine (runs_mono _ _ _ _ (sys_read_correct ok eq_refl (save_map ok 1) demo_mem (λ _, true) (λ _, false) 3 134516735 3 demo_reader 500 None false 12 Lmap
    (Inode 0 1 false 0 (new_disk 16 Lmap)) (7 :: replicate 15 0) _ _ _ _ _ _ _ demo_map_bytes _ _ _) _).
  - vm_compute. reflexivity.
  - intros j Hj. assert (j = 0 ∨ j = 1 ∨ j = 2) as [-> | [-> | ->]] by lia; reflexivity.
  - lia.
  - lia.
  - reflexivity.
  - split; [lia|reflexivity].
  - reflexivity.
  - vm_compute. reflexivity.
  - vm_compute. split; [discriminate|reflexivity].
  - intros v Hv _. exfalso. div_lia.
  - intros r p' (m & -> & Hm & _). simpl. rewrite Hm. reflexivity.
Defined.

(** The root directory, with its entry [.]. *)
Definition demo_root : fs cache :=
  match dir_add ok (save_map ok 1) demo_junk (Some (Dir 600 0)) DOT 1 demo_fs with Done (_, f) => f | _ => demo_fs end.
Definition demo_opener : uproc cache := Uproc demo_root (replicate 128 None) 127 (Some (Dir 600 0)) [] [].

(** ** What the checks miss *)

(** [access_ok] looks at the two ends of a buffer: a hole of a page between
    them is not seen. *)
Definition holed (a : Z) : option Z := if (a `div` 4096 =? 32840) || (a `div` 4096 =? 32842) then Some 0 else None.
Lemma access_ok_misses_hole : access_ok holed 134512640 8192 = true ∧ holed (134512640 + 4096) = None.
Proof. by vm_compute. Qed.
(** The end of the buffer is computed modulo 2^32: a buffer that covers the
    kernel is admitted. *)
Lemma access_ok_wraps : access_ok demo_mem 134512641 (2 ^ 32 - 1) = true.
Proof. by vm_compute. Qed.
(** It looks at the byte after the buffer: the last byte of the memory of the
    process is refused. *)
Lemma access_ok_refuses_last_byte : is_Some (demo_mem 134520831) ∧ access_ok demo_mem 134520831 1 = false.
Proof. vm_compute. split; [by eexists|done]. Qed.

(** When all slots are in use [sys_open] searches for ever. *)
Definition full_process (x : file) (n : Z) : uproc cache := Uproc demo_fs (replicate 128 (Some x)) n None [] [].
Lemma full_table_searches_forever x fuel : ∀ n, 0 ≤ n < FD_MAX → next_free fuel (full_process x n) = NoFuel.
Proof.
  induction fuel as [|fuel IH]; intros n Hn; [done|]. cbn [next_free]. unfold full_process, mbind, M_bind, get, lift. cbn [fd_table next_fd].
  rewrite (rd_Some _ _ (Some x)).
  - apply IH. by apply Z.mod_pos_bound.
  - apply zlookup_Some. split; [lia|]. apply lookup_replicate_2. unfold FD_MAX in Hn. lia.
Qed.
(** After the last slot the search goes on with 0, the descriptor of the
    keyboard: the file it is given to cannot be read or closed apart from it. *)
Lemma descriptor_of_the_keyboard : runs (next_free 128) (Uproc demo_fs ((replicate 128 None)@[127 := Some (File 600 None 0 false)]) 127 None [] []) (λ fd _, fd = STDIN_FILENO).
Proof. by vm_compute. Qed.
(** A read at the end of a file, into pages of the stack that were not used
    yet: [access_ok] brings in the first and the last, [file_read] none, and [page_unpin] stops the
    kernel at the second.  With the pages in the table the same call returns 0. *)
Definition stack_mem (a : Z) : option Z := if (3221200896 <=? a) && (a <? 3221225472) then Some 0 else None.
Lemma read_at_end_stops_kernel :
  sys_read ok (save_map ok 1) stack_mem (λ _, true) (λ _, false) 2 3221204992 12288 demo_process = Panic ∧
  runs (sys_read ok (save_map ok 1) stack_mem (λ _, true) (λ v, 786426 <=? v) 2 3221204992 12288) demo_process (λ r _, fst <$> r = Some 0).
Proof. split; vm_compute; reflexivity. Qed.
(** A file of 2^31 bytes or more has a negative length, and stops the kernel. *)
Definition demo_named (a : Z) : option Z := if (134512640 <=? a) && (a <? 134516736) then Some (if a =? 134512640 then 120 else 0) else None.
Lemma create_stops_kernel : sys_create ok (save_map ok 1) demo_pick demo_junk demo_named 9 134512640 (2 ^ 31) demo_opener = Panic.
Proof. by vm_compute. Qed.
(** A position of 2^31 or more stops the kernel. *)
Lemma seek_stops_kernel : sys_seek 2 (2 ^ 31) demo_process = Panic.
Proof. by vm_compute. Qed.

(** [next_fd] stays at the descriptor that was given out last, and
    [process_exit] closes those below it: the last file stays open. *)
Lemma last_descriptor_stays_open :
  runs (sys_open ok (save_map ok 1) demo_pick demo_junk demo_mem 9 134512640) (Uproc demo_root (replicate 128 None) 2 (Some (Dir 600 0)) [] []) (λ r p, r = Some 2 ∧
  runs (exit_files ok (save_map ok 1) None) p (λ _ p', is_Some (fd_table p' !! 2%nat ≫= id))).
Proof. vm_compute. split; [done|by eexists]. Qed.
