(* ===== verification/UserLib.v ===== *)
(** * System calls as a user program makes them
    (src/pintos/src/lib/user/syscall.c, src/pintos/src/lib/syscall-nr.h)

    Each function of the C library pushes its arguments and the number of the
    call on the stack of the process, last argument first, executes INT
    0x30, and pops them again.  The theorem connects the functions with the handler of
    Syscall.v, which knows them only by what it finds in user memory. *)

From S2P Require Import Prelude Vaddr Cache Inode Directory Syscall SyscallSpec InodeDemo DirectorySpec SyscallDemo.

(** ** The functions *)

(** The enumeration of syscall-nr.h. *)
Definition SYS_HALT : Z := 0.
Definition SYS_EXIT : Z := 1.
Definition SYS_EXEC : Z := 2.
Definition SYS_WAIT : Z := 3.
Definition SYS_CREATE : Z := 4.
Definition SYS_REMOVE : Z := 5.
Definition SYS_OPEN : Z := 6.
Definition SYS_FILESIZE : Z := 7.
Definition SYS_READ : Z := 8.
Definition SYS_WRITE : Z := 9.
Definition SYS_SEEK : Z := 10.
Definition SYS_TELL : Z := 11.
Definition SYS_CLOSE : Z := 12.
Definition SYS_MMAP : Z := 13.
Definition SYS_MUNMAP : Z := 14.
Definition SYS_CHDIR : Z := 15.
Definition SYS_MKDIR : Z := 16.
Definition SYS_READDIR : Z := 17.
Definition SYS_ISDIR : Z := 18.
Definition SYS_INUMBER : Z := 19.

(** The stack pointer and the memory of the process; [None] if a push faults. *)
Definition user_code : Type := Z → (Z → option Z) → option (Z * (Z → option Z)).
(** [pushl], once for each word. *)
Fixpoint push_words (ws : list Z) : user_code := λ esp m,
  match ws with
  | [] => Some (esp, m)
  | w :: ws => m ← store_user m (λ _, true) (u32 (esp - 4)) (le_bytes 4 (u32 w)); push_words ws (u32 (esp - 4)) m
  end.
(** The macros, up to the INT instruction, and what the [addl] after it adds. *)
Definition syscall0 (number : Z) : user_code * Z := (push_words [number], 4).
Definition syscall1 (number arg0 : Z) : user_code * Z := (push_words [arg0; number], 8).
Definition syscall2 (number arg0 arg1 : Z) : user_code * Z := (push_words [arg1; arg0; number], 12).
Definition syscall3 (number arg0 arg1 arg2 : Z) : user_code * Z := (push_words [arg2; arg1; arg0; number], 16).

(** The functions, with their arguments as 32-bit words.  Their value is the [eax] the kernel
    leaves, as it is or compared with 0. *)
Inductive user_call : Type :=
  | halt | exit (status : Z) | exec (file : Z) | wait (pid : Z) | create (file initial_size : Z) | remove (file : Z) | open (file : Z)
  | filesize (fd : Z) | read (fd buffer size : Z) | write (fd buffer size : Z) | seek (fd position : Z) | tell (fd : Z) | close (fd : Z)
  | mmap (fd addr : Z) | munmap (mapid : Z) | chdir (d : Z) | mkdir (d : Z) | readdir (fd name : Z) | isdir (fd : Z) | inumber (fd : Z).
Definition stub (c : user_call) : user_code * Z :=
  match c with
  | halt => syscall0 SYS_HALT
  | exit status => syscall1 SYS_EXIT status
  | exec file => syscall1 SYS_EXEC file
  | wait pid => syscall1 SYS_WAIT pid
  | create file initial_size => syscall2 SYS_CREATE file initial_size
  | remove file => syscall1 SYS_REMOVE file
  | open file => syscall1 SYS_OPEN file
  | filesize fd => syscall1 SYS_FILESIZE fd
  | read fd buffer size => syscall3 SYS_READ fd buffer size
  | write fd buffer size => syscall3 SYS_WRITE fd buffer size
  | seek fd position => syscall2 SYS_SEEK fd position
  | tell fd => syscall1 SYS_TELL fd
  | close fd => syscall1 SYS_CLOSE fd
  | mmap fd addr => syscall2 SYS_MMAP fd addr
  | munmap mapid => syscall1 SYS_MUNMAP mapid
  | chdir d => syscall1 SYS_CHDIR d
  | mkdir d => syscall1 SYS_MKDIR d
  | readdir fd name => syscall2 SYS_READDIR fd name
  | isdir fd => syscall1 SYS_ISDIR fd
  | inumber fd => syscall1 SYS_INUMBER fd
  end.
(** ** The stack *)

(** The bytes of the words pushed, from the new stack pointer on. *)
Definition words_at (ws : list Z) : list Z := concat (map (λ w, le_bytes 4 (u32 w)) ws).
Lemma zlen_words_at ws : zlen (words_at ws) = 4 * zlen ws.
Proof. induction ws as [|w ws IH]; [done|]. unfold words_at in *. cbn [map concat]. rewrite zlen_app, zlen_cons, IH. unfold zlen at 1. rewrite length_le_bytes. lia. Qed.
Lemma words_at_app ws1 ws2 : words_at (ws1 ++ ws2) = words_at ws1 ++ words_at ws2.
Proof. unfold words_at. by rewrite map_app, concat_app. Qed.
Lemma stored_before m a d1 d2 y : stored (stored m (a + zlen d1) d2) a d1 y = stored m a (d1 ++ d2) y.
Proof. unfold stored. rewrite zlen_app, zlookup_app. pose proof (zlen_nonneg d1). pose proof (zlen_nonneg d2). bool_cases; try done; f_equal; lia. Qed.
Lemma push_words_spec ws : ∀ esp m, 4 * zlen ws ≤ esp < 2 ^ 32 → user_range m (λ _, true) (esp - 4 * zlen ws) (4 * zlen ws) →
  ∃ m', push_words ws esp m = Some (esp - 4 * zlen ws, m') ∧ ∀ y, m' y = stored m (esp - 4 * zlen ws) (words_at (rev ws)) y.
Proof.
  induction ws as [|w ws IH]; intros esp m He Hr; cbn [push_words].
  { exists m. split; [do 2 f_equal; change (zlen (@nil Z)) with 0; lia|]. intros y. by rewrite user_stored_nil. }
  rewrite zlen_cons in *. pose proof (zlen_nonneg ws) as H0. rewrite u32_small by lia.
  assert (zlen (le_bytes 4 (u32 w)) = 4) as L4 by (unfold zlen; by rewrite length_le_bytes).
  assert (∀ a n, esp - 4 * (1 + zlen ws) ≤ a → a + n ≤ esp → user_range m (λ _, true) a n) as Hsub.
  { intros a n Ha Hn j Hj. replace (a + j) with (esp - 4 * (1 + zlen ws) + (a + j - (esp - 4 * (1 + zlen ws)))) by lia. apply Hr. lia. }
  destruct (store_user_spec m (λ _, true) (le_bytes 4 (u32 w)) (esp - 4)) as (m1 & -> & Hm1); [lia|lia|apply Hsub; lia|]. cbn [mbind option_bind].
  destruct (IH (esp - 4) m1) as (m' & -> & Hm'); [lia| |].
  { intros j Hj. rewrite andb_true_r. apply get_user_true. rewrite Hm1. unfold stored. rewrite L4. bool_cases. apply get_user_true.
    rewrite <- (andb_true_r (get_user _ _)). apply (Hsub (esp - 4 - 4 * zlen ws) (4 * zlen ws)); lia. }
  exists m'. split; [do 2 f_equal; lia|]. intros y. cbn [rev]. rewrite words_at_app, <- stored_before, zlen_words_at, Hm'.
  replace (zlen (rev ws)) with (zlen ws) by (unfold zlen; by rewrite length_rev). rewrite (stored_ext m1 _ _ _ _ Hm1). unfold words_at at 2. cbn [map concat].
  rewrite app_nil_r. replace (esp - 4 - 4 * zlen ws) with (esp - 4 * (1 + zlen ws)) by lia. do 2 f_equal. lia.
Qed.
(** What the kernel reads is what is there. *)
Lemma read_argument_word m esp ws i w : 0 ≤ esp → esp + 4 * zlen ws ≤ PHYS_BASE → holds m esp (words_at ws) → ws@[i] = Some w → read_argument m esp i = Some (u32 w).
Proof.
  intros He Hp Hm Hi. apply zlookup_bound in Hi as Hb. change PHYS_BASE with 3221225472 in Hp.
  assert (∀ a, 0 ≤ a < 4 * zlen ws → get_user m (esp + a) = true) as Hg.
  { intros a Ha. apply get_user_true. rewrite Hm by (rewrite zlen_words_at; lia). destruct (zlookup_lt (words_at ws) a) as [x ->]; [rewrite zlen_words_at; lia|done]. }
  assert (access_ok m esp (i * 4) = true) as Hok.
  { unfold access_ok, is_user_vaddr. change PHYS_BASE with 3221225472. rewrite u32_small by lia. pose proof (Hg 0 ltac:(lia)) as H0. rewrite Z.add_0_r in H0. rewrite H0.
    rewrite (Hg (i * 4)) by lia. bool_cases; done. }
  unfold read_argument. rewrite Hok, u32_small by lia. apply zlookup_Some in Hi as [Hi0 Hi]. apply list_elem_of_split_length in Hi as (l1 & l2 & -> & Hl).
  rewrite words_at_app in Hm. apply user_holds_app in Hm as [_ Hm]. rewrite zlen_words_at in Hm. unfold words_at in Hm. cbn [map concat] in Hm. apply user_holds_app in Hm as [Hm _].
  replace (4 * zlen l1) with (i * 4) in Hm by (unfold zlen; lia). change 4%nat with (length (le_bytes 4 (u32 w))). rewrite user_bytes_holds; [|lia| |done].
  - cbn [fmap option_fmap option_map]. f_equal. rewrite le_value_bytes. unfold u32. rewrite Zmod_mod. done.
  - unfold zlen. rewrite length_le_bytes. rewrite zlen_app, zlen_cons in *. lia.
Qed.

(** ** Calls reach the kernel *)

(** The words at the top of the stack when the kernel is entered. *)
Definition call_words (c : user_call) : list Z :=
  match c with
  | halt => [0]
  | exit a => [1; a] | exec a => [2; a] | wait a => [3; a] | create a b => [4; a; b] | remove a => [5; a] | open a => [6; a] | filesize a => [7; a]
  | read a b c => [8; a; b; c] | write a b c => [9; a; b; c] | seek a b => [10; a; b] | tell a => [11; a] | close a => [12; a] | mmap a b => [13; a; b]
  | munmap a => [14; a] | chdir a => [15; a] | mkdir a => [16; a] | readdir a b => [17; a; b] | isdir a => [18; a] | inumber a => [19; a]
  end.
(** There is room for four words on the stack. *)
Definition stack_room (esp : Z) (m : Z → option Z) : Prop := 16 ≤ esp ≤ PHYS_BASE ∧ user_range m (λ _, true) (esp - 16) 16.
Lemma stub_words c : stub c = (push_words (rev (call_words c)), 4 * zlen (call_words c)).
Proof. by destruct c. Qed.
Lemma call_words_length c : 1 ≤ zlen (call_words c) ≤ 4.
Proof. destruct c; unfold zlen; cbn; lia. Qed.
Lemma stub_spec c esp m : stack_room esp m → ∃ m', (stub c).1 esp m = Some (esp - (stub c).2, m') ∧
  (∀ i w, (call_words c)@[i] = Some w → read_argument m' (esp - (stub c).2) i = Some (u32 w)) ∧ (∀ y, ¬ (esp - 16 ≤ y < esp) → m' y = m y).
Proof.
  intros [He Hr]. rewrite stub_words. cbn [fst snd]. pose proof (call_words_length c) as Hl. change PHYS_BASE with 3221225472 in He.
  assert (zlen (rev (call_words c)) = zlen (call_words c)) as Lr by (unfold zlen; by rewrite length_rev).
  destruct (push_words_spec (rev (call_words c)) esp m) as (m' & E & Hm'); rewrite ?Lr; [lia| |].
  { intros j Hj. replace (esp - 4 * zlen (call_words c) + j) with (esp - 16 + (16 - 4 * zlen (call_words c) + j)) by lia. apply Hr. lia. }
  rewrite Lr, rev_involutive in *. exists m'. split; [done|]. split.
  - intros i w. apply read_argument_word; [lia|change PHYS_BASE with 3221225472; lia|]. intros j Hj. rewrite Hm'. unfold stored. rewrite zlen_words_at in *. bool_cases. f_equal. lia.
  - intros y Hy. rewrite Hm'. unfold stored. rewrite zlen_words_at. bool_cases; done.
Qed.

Section served.
Context {S : Type} `{!BlockStore S} (alloc : Z → bool) (save_map : M (fs S) bool) (pick : gmap Z inode → Z) (junk : list Z) (writable present : Z → bool) (strmax : nat).
Context (o : others (S := S)) (umem : Z → option Z).
(** What each function asks of the kernel; [eax] is kept by those that return nothing. *)
Definition served (c : user_call) (eax : Z) : M (uproc S) reply :=
  match c with
  | exit status => mret (Ended (s32 status))
  | create file initial_size => returns of_bool (sys_create alloc save_map pick junk umem strmax (u32 file) (u32 initial_size))
  | remove file => returns of_bool (sys_remove alloc save_map pick junk umem strmax (u32 file))
  | open file => returns id (sys_open alloc save_map pick junk umem strmax (u32 file))
  | filesize fd => returns id (sys_filesize (s32 fd))
  | read fd buffer size => returns fst (sys_read alloc save_map umem writable present (s32 fd) (u32 buffer) (u32 size))
  | write fd buffer size => returns id (sys_write alloc save_map umem present (s32 fd) (u32 buffer) (u32 size))
  | seek fd position => returns (λ _, eax) (sys_seek (s32 fd) (u32 position))
  | tell fd => returns id (sys_tell (s32 fd))
  | close fd => returns (λ _, eax) (sys_close alloc save_map (s32 fd))
  | chdir d => returns of_bool (sys_chdir alloc save_map pick junk umem strmax (u32 d))
  | mkdir d => returns of_bool (sys_mkdir alloc save_map pick junk umem strmax (u32 d))
  | readdir fd name => returns (λ r, of_bool r.1) (sys_readdir alloc save_map junk umem writable (s32 fd) (u32 name))
  | isdir fd => returns of_bool (sys_isdir (s32 fd))
  | inumber fd => returns id (sys_isnumber (s32 fd))
  | halt => returns (λ _, eax) (halt_call o)
  | exec file => returns id (sys_exec umem o (u32 file))
  | wait pid => returns id (sys_wait o (s32 pid))
  | mmap fd addr => returns id (mmap_call o (s32 fd) (u32 addr))
  | munmap mapid => returns (λ _, eax) (munmap_call o (s32 mapid))
  end.

Lemma s32_of_word z : s32 (u32 z) = s32 z.
Proof. unfold s32, u32. by rewrite Zplus_mod_idemp_l. Qed.
Lemma handler_serves c esp eax : (∀ i w, (call_words c)@[i] = Some w → read_argument umem esp i = Some (u32 w)) →
  syscall_handler alloc save_map pick junk umem writable present strmax o esp eax = served c eax.
Proof.
  intros Hr. unfold syscall_handler, argument. destruct c; rewrite (Hr 0 _ eq_refl); rewrite s32_of_word;
    match goal with |- context [s32 ?n] => change (s32 n) with n end; cbn [Z.eqb Pos.eqb orb served].
  all: try rewrite (Hr 1 _ eq_refl); try rewrite (Hr 2 _ eq_refl); try rewrite (Hr 3 _ eq_refl); rewrite ?s32_of_word; try done.
Qed.
End served.

(** C34 Each function of the C library of user programs, [exec], [wait], [mmap] and [munmap] included, enters the
    kernel with its own number and arguments: the handler serves exactly the request it stands for ([served]),
    with these arguments, whatever the words are; afterwards the stack pointer is back where it was, and of the
    memory only the words below it have changed.  It needs four words of stack. *)
Theorem calls_reach_kernel {S : Type} `{!BlockStore S} (alloc : Z → bool) (save_map : M (fs S) bool) (pick : gmap Z inode → Z) (junk : list Z)
    (writable present : Z → bool) (strmax : nat) (o : others (S := S)) (c : user_call) (esp eax : Z) (m : Z → option Z) :
  stack_room esp m →
  ∃ esp' m', (stub c).1 esp m = Some (esp', m') ∧
    syscall_handler alloc save_map pick junk m' writable present strmax o esp' eax = served alloc save_map pick junk writable present strmax o m' c eax ∧
    u32 (esp' + (stub c).2) = esp ∧ (∀ y, ¬ (esp - 16 ≤ y < esp) → m' y = m y).
Proof.
  intros H. destruct (stub_spec c esp m H) as (m' & E & Hr & Hm). exists (esp - (stub c).2), m'. split; [done|]. split; [by apply handler_serves|]. split; [|done].
  destruct H as [He _]. change PHYS_BASE with 3221225472 in He. rewrite Z.sub_add. apply u32_small. lia.
Qed.
(** A kernel whose [mmap] returns the sum of its arguments, and whose other calls end the process. *)
Definition demo_others : others (S := cache) := Others (mret None) (λ _, mret (-1)) (λ _, mret (-1)) (λ fd addr, mret (Some (fd + addr))) (λ _, mret None).
Lemma calls_reach_kernel_witness : ∃ esp' m', (stub (mmap 3 268435456)).1 134520832 demo_mem = Some (esp', m') ∧
  syscall_handler ok (save_map ok 1 : M (fs cache) bool) demo_pick demo_junk m' (λ _, true) (λ _, true) 9 demo_others esp' 0 = mret (Continues 268435459).
Proof.
  refine (match calls_reach_kernel ok (save_map ok 1 : M (fs cache) bool) demo_pick demo_junk (λ _, true) (λ _, true) 9 demo_others (mmap 3 268435456) 134520832 0 demo_mem _ with
    ex_intro _ e (ex_intro _ m' (conj H1 (conj H2 _))) => ex_intro _ e (ex_intro _ m' (conj H1 H2)) end).
  split; [vm_compute; split; discriminate|]. intros j Hj.
  assert (∃ k, j = Z.of_nat k ∧ (k < 16)%nat) as (k & -> & Hk) by (exists (Z.to_nat j); lia). do 16 (destruct k as [|k]; [reflexivity|]). lia.
Defined.
(** The arguments of a call as the kernel finds them. *)
Example write_arguments : (λ r, option_map (λ r, map (read_argument r.2 r.1) [0; 1; 2; 3]) r) ((stub (write 2 134516735 (-1))).1 134520832 demo_mem)
  = Some [Some 9; Some 2; Some 134516735; Some 4294967295].
Proof. vm_compute. reflexivity. Qed.
