(* ===== verification/Process.v ===== *)
(** * Parents and children (process_execute, process_wait, process_exit and
    sys_exit of src/pintos/src/userprog; init_process of threads/thread.c)

    What processes do to the [struct process] they share, as steps of threads
    that interleave: a call is cut where another thread can come in between
    and make a difference.

    - [process_wait] looks the thread of the child up ([wait_check]); finds the
      record of the child, marks it and goes to sleep, or returns
      ([wait_mark]); and goes on when it is woken ([wait_finish]).
    - [process_exit] looks its parent up ([exit_begin]); frees the records of its
      own children and tells its parent ([exit_notify]); then
      [thread_exit] removes the thread from [all_list] ([exit_end]).
    - A child registers with its parent while the parent sleeps in
      [process_execute]: that is one step.

    [history] is what each thread that has exited gave as its status; no
    code reads it.  Memory mappings, the page directory and the files of a
    process are in Vm.v and Syscall.v. *)

From S2P Require Import Prelude.

(** [struct process]. *)
Record process : Type := Process { sema_wait : Z; is_exited : bool; exit_code : Z; is_waited : bool; is_loaded : bool; pid : Z }.
(** Where a thread is in the calls above. *)
Inductive pc : Type :=
  | User
  | Checked (child_tid : Z) (alive : bool)
  | Asleep (my_child : Z)
  | Exiting (parent : bool)
  | Dying.
#[export] Instance pc_eq_dec : EqDecision pc.
Proof. solve_decision. Defined.
(** The fields of [struct thread]; a record is known by its address. *)
Record pthread : Type := Pthread { parent_id : Z; p_process : Z; child_list : list Z; p_pc : pc }.
(** [all_list], and the records that are allocated. *)
Record world : Type := World { threads : gmap Z pthread; records : gmap Z process; history : gmap Z Z }.

Definition TID_ERROR : Z := -1.
Definition set_pc (c : pc) (t : pthread) : pthread := Pthread (parent_id t) (p_process t) (child_list t) c.
Definition set_children (l : list Z) (t : pthread) : pthread := Pthread (parent_id t) (p_process t) l (p_pc t).
Definition mark_waited (p : process) : process := Process (sema_wait p) (is_exited p) (exit_code p) true (is_loaded p) (pid p).
Definition set_exit (b : bool) (code : Z) (p : process) : process := Process (sema_wait p) b code (is_waited p) (is_loaded p) (pid p).
Definition up (p : process) : process := Process (sema_wait p + 1) (is_exited p) (exit_code p) (is_waited p) (is_loaded p) (pid p).

Abbreviation W := (M world).
Definition thread_at (t : Z) : W pthread := w ← get; lift (defined (threads w !! t)).
Definition set_thread (t : Z) (x : pthread) : W unit := modify (λ w, World (<[t := x]> (threads w)) (records w) (history w)).
(** A record that is followed: undefined once it is freed. *)
Definition record_at (a : Z) : W process := w ← get; lift (defined (records w !! a)).
Definition set_record (a : Z) (p : process) : W unit := modify (λ w, World (threads w) (<[a := p]> (records w)) (history w)).
(** [free]: undefined if it is done twice. *)
Definition free_record (a : Z) : W unit := record_at a;; modify (λ w, World (threads w) (delete a (records w)) (history w)).
(** [get_thread]. *)
Definition get_thread (t : Z) : W (option pthread) := w ← get; mret (threads w !! t).

(** [process_child]: the first record of the list with that pid. *)
Fixpoint process_child (l : list Z) (child_tid : Z) : W (option Z) :=
  match l with
  | [] => mret None
  | a :: l => p ← record_at a; if pid p =? child_tid then mret (Some a) else process_child l child_tid
  end.

(** ** process_execute *)

(** [init_process], with the record at [a]. *)
Definition new_process (tid : Z) : process := Process 0 false (-1) false false tid.
(** A thread [tid] is created with its record at [a]; it loads its program or
    not, and registers with its parent [t]. *)
Definition process_execute (t tid a : Z) (loaded : bool) : W Z :=
  set_record a (new_process tid);;
  set_thread tid (Pthread t a [] User);;
  p ← record_at a;
  set_record a (Process (sema_wait p) (is_exited p) (exit_code p) (is_waited p) loaded (pid p));;
  x ← thread_at t;
  set_thread t (set_children (child_list x ++ [a]) x);;
  x ← thread_at t;
  my_child ← process_child (child_list x) tid;
  my_child ← lift (defined my_child);
  p ← record_at my_child;
  mret (if is_loaded p then tid else TID_ERROR).

(** ** process_wait *)

Definition wait_check (t child_tid : Z) : W unit :=
  x ← thread_at t;
  child ← get_thread child_tid;
  set_thread t (set_pc (Checked child_tid (bool_decide (is_Some child))) x).
(** [None]: the thread sleeps in [sema_down]. *)
Definition wait_mark (t child_tid : Z) (alive : bool) : W (option Z) :=
  x ← thread_at t;
  my_child ← process_child (child_list x) child_tid;
  match my_child with
  | None => set_thread t (set_pc User x);; mret (Some (-1))
  | Some a =>
      p ← record_at a;
      if is_waited p then set_thread t (set_pc User x);; mret (Some (-1)) else
      if alive then set_record a (mark_waited p);; set_thread t (set_pc (Asleep a) x);; mret None
      else
        set_thread t (set_children (filter (λ b, b ≠ a) (child_list x)) (set_pc User x));;
        free_record a;;
        mret (Some (if is_exited p then exit_code p else -1))
  end.
(** [sema_down] returns only when the value is positive. *)
Definition wait_finish (t a : Z) : W Z :=
  x ← thread_at t;
  p ← record_at a;
  if sema_wait p =? 0 then out_of_fuel else
  set_thread t (set_children (filter (λ b, b ≠ a) (child_list x)) (set_pc User x));;
  free_record a;;
  mret (exit_code p).

(** ** process_exit *)

(** [sys_exit (status)], or [None] for a thread that the kernel ends. *)
Definition exit_begin (t : Z) (status : option Z) : W unit :=
  x ← thread_at t;
  p ← record_at (p_process x);
  set_record (p_process x) (match status with Some c => set_exit true c p | None => set_exit false (-1) p end);;
  parent ← get_thread (parent_id x);
  modify (λ w, World (threads w) (records w) (<[t := default (-1) status]> (history w)));;
  set_thread t (set_pc (Exiting (bool_decide (is_Some parent))) x).
(** [while (!list_empty (list))]. *)
Fixpoint free_children (l : list Z) : W unit :=
  match l with [] => mret tt | a :: l => free_record a;; free_children l end.
Definition exit_notify (t : Z) (parent : bool) : W unit :=
  x ← thread_at t;
  free_children (child_list x);;
  set_thread t (set_children [] (set_pc Dying x));;
  p ← record_at (p_process x);
  if parent then if is_waited p then set_record (p_process x) (up p) else mret tt
  else free_record (p_process x).
Definition exit_end (t : Z) : W unit := modify (λ w, World (delete t (threads w)) (records w) (history w)).

(** ** Steps *)

(** What a thread did, and the value a call of [process_wait] returned. *)
Inductive event : Type :=
  | Executed (t tid : Z)
  | Calls_wait (t child_tid : Z)
  | Returns (t child_tid v : Z)
  | Sleeps (t child_tid : Z)
  | Exits (t : Z)
  | Notifies (t : Z)
  | Ends (t : Z).
Inductive step (w : world) : event → world → Prop :=
  | step_execute t x tid a loaded r w' : threads w !! t = Some x → p_pc x = User → tid ≠ TID_ERROR →
      threads w !! tid = None → history w !! tid = None → (∀ b p, records w !! b = Some p → pid p ≠ tid) → records w !! a = None →
      process_execute t tid a loaded w = Done (r, w') → step w (Executed t tid) w'
  | step_check t x c w' : threads w !! t = Some x → p_pc x = User → c ≠ TID_ERROR → wait_check t c w = Done (tt, w') → step w (Calls_wait t c) w'
  | step_return t x c b v w' : threads w !! t = Some x → p_pc x = Checked c b → wait_mark t c b w = Done (Some v, w') → step w (Returns t c v) w'
  | step_sleep t x c b w' : threads w !! t = Some x → p_pc x = Checked c b → wait_mark t c b w = Done (None, w') → step w (Sleeps t c) w'
  | step_wake t x a p v w' : threads w !! t = Some x → p_pc x = Asleep a → records w !! a = Some p → wait_finish t a w = Done (v, w') → step w (Returns t (pid p) v) w'
  | step_exit t x status w' : threads w !! t = Some x → p_pc x = User → exit_begin t status w = Done (tt, w') → step w (Exits t) w'
  | step_notify t x b w' : threads w !! t = Some x → p_pc x = Exiting b → exit_notify t b w = Done (tt, w') → step w (Notifies t) w'
  | step_end t x w' : threads w !! t = Some x → p_pc x = Dying → exit_end t w = Done (tt, w') → step w (Ends t) w'.
