(* ===== verification/ProcessInv.v ===== *)
(** * Parents and children: the invariant

    As long as a process exits only after its children, no record is used
    after it was freed, and [process_wait] returns what the child gave as its
    status. *)

From S2P Require Import Prelude Process.

(** A record whose thread has exited has its status. *)
Definition settled (w : world) (p : process) : Prop :=
  history w !! pid p = Some (exit_code p) ∧ (is_exited p = false → exit_code p = -1).
Definition is_exiting (c : pc) : bool := match c with Exiting _ => true | _ => false end.
(** The thread of the record [p] at [a] is at work, as a child of [t]. *)
Definition at_work (w : world) (t a : Z) (p : process) : Prop :=
  ∃ y, threads w !! pid p = Some y ∧ p_pc y ≠ Dying ∧ parent_id y = t ∧ p_process y = a.
Definition ended (w : world) (p : process) : Prop := ∀ y, threads w !! pid p = Some y → p_pc y = Dying.

Record inv (w : world) : Prop := {
  in_own t x : threads w !! t = Some x → p_pc x ≠ Dying → ∃ p, records w !! p_process x = Some p ∧ pid p = t ∧ sema_wait p = 0 ∧
    (if is_exiting (p_pc x) then settled w p else history w !! t = None);
  in_child t x a : threads w !! t = Some x → a ∈ child_list x → ∃ p, records w !! a = Some p ∧ pid p ≠ t ∧ 0 ≤ sema_wait p ∧ (at_work w t a p ∨ ended w p ∧ settled w p);
  in_nodup t x : threads w !! t = Some x → NoDup (child_list x);
  in_pid a b p q : records w !! a = Some p → records w !! b = Some q → pid p = pid q → a = b;
  in_disjoint t u x y a : threads w !! t = Some x → threads w !! u = Some y → a ∈ child_list x → a ∈ child_list y → t = u;
  in_asleep t x a : threads w !! t = Some x → p_pc x = Asleep a → a ∈ child_list x ∧ ∃ p, records w !! a = Some p ∧ is_waited p = true;
  in_checked t x c a p : threads w !! t = Some x → p_pc x = Checked c false → a ∈ child_list x → records w !! a = Some p → pid p = c → ended w p;
  in_parent t x : threads w !! t = Some x → p_pc x ≠ Dying → ∃ z, threads w !! parent_id x = Some z ∧ (parent_id x = t ∨ is_exiting (p_pc z) = false ∧ p_pc z ≠ Dying);
  in_exiting t x b : threads w !! t = Some x → p_pc x = Exiting b → b = true;
  in_dying t x : threads w !! t = Some x → p_pc x = Dying → child_list x = [] ∧ is_Some (history w !! t);
}.

(** A process exits only when its children have told it their status. *)
Definition patient (w : world) (e : event) : Prop :=
  match e with Exits t => ∀ u y, threads w !! u = Some y → parent_id y = t → u = t ∨ p_pc y = Dying | _ => True end.
(** Runs from the first thread. *)
Definition start (a : Z) : world := World {[1 := Pthread 1 a [] User]} {[a := new_process 1]} ∅.
Inductive reachable (a : Z) : world → Prop :=
  | reach_start : reachable a (start a)
  | reach_step w e w' : reachable a w → patient w e → step w e w' → reachable a w'.

(** ** What the calls do *)

Lemma process_child_spec w c l : (∀ a, a ∈ l → is_Some (records w !! a)) → ∃ r, process_child l c w = Done (r, w) ∧
  match r with Some a => a ∈ l ∧ ∃ p, records w !! a = Some p ∧ pid p = c | None => ∀ a p, a ∈ l → records w !! a = Some p → pid p ≠ c end.
Proof.
  induction l as [|a l IH]; intros Hl; [exists None; split; [done|set_solver]|]. destruct (Hl a) as [p Hp]; [set_solver|]. destruct IH as (r & Hr & HQ); [set_solver|].
  cbn [process_child]. unfold record_at, mbind, M_bind, get, lift. rewrite Hp. simpl. destruct (Z.eqb_spec (pid p) c) as [E|E].
  - exists (Some a). split; [done|]. split; [set_solver|by exists p].
  - exists r. split; [exact Hr|]. destruct r as [b|]; [set_solver|]. intros b q [-> | Hb]%elem_of_cons Hq; [congruence|by eapply HQ].
Qed.
Lemma free_children_spec l : ∀ w, NoDup l → (∀ a, a ∈ l → is_Some (records w !! a)) →
  ∃ m, free_children l w = Done (tt, World (threads w) m (history w)) ∧ ∀ a, m !! a = if bool_decide (a ∈ l) then None else records w !! a.
Proof.
  induction l as [|a l IH]; intros w Hnd Hl; cbn [free_children]; [exists (records w); split; [by destruct w|done]|].
  pose proof (NoDup_cons_1_1 _ _ Hnd) as Ha. apply NoDup_cons_1_2 in Hnd. destruct (Hl a) as [p Hp]; [set_solver|]. unfold free_record, record_at, mbind, M_bind, get, lift, modify. rewrite Hp. simpl.
  destruct (IH (World (threads w) (delete a (records w)) (history w)) Hnd) as (m & -> & Hm).
  { intros b Hb. simpl. rewrite lookup_delete_ne by set_solver. apply Hl. set_solver. }
  exists m. split; [done|]. intros b. rewrite Hm. simpl. destruct (decide (b = a)) as [->|].
  - rewrite bool_decide_false by done. rewrite bool_decide_true by set_solver. apply lookup_delete_eq.
  - rewrite lookup_delete_ne by done. rewrite (bool_decide_ext (b ∈ l) (b ∈ a :: l)); [done|set_solver].
Qed.

(** ** Changes of the world *)

(** The thread [t] goes on to [c]. *)
Definition goes (w : world) (t : Z) (x : pthread) (c : pc) : world := World (<[t := set_pc c x]> (threads w)) (records w) (history w).
Section goes.
Context (w : world) (t : Z) (x : pthread) (c : pc) (Hinv : inv w) (Ht : threads w !! t = Some x).
Context (Hx : is_exiting (p_pc x) = false) (Hxd : p_pc x ≠ Dying) (Hc : is_exiting c = false) (Hcd : c ≠ Dying).
Context (Hasleep : ∀ a, c = Asleep a → a ∈ child_list x ∧ ∃ p, records w !! a = Some p ∧ is_waited p = true) (Hchecked : ∀ d a p, c = Checked d false → a ∈ child_list x → records w !! a = Some p → pid p = d → ended w p).
Lemma goes_lookup u y : threads (goes w t x c) !! u = Some y → ∃ y0, threads w !! u = Some y0 ∧ parent_id y = parent_id y0 ∧ p_process y = p_process y0 ∧ child_list y = child_list y0 ∧
  is_exiting (p_pc y) = is_exiting (p_pc y0) ∧ (p_pc y = Dying ↔ p_pc y0 = Dying) ∧ (p_pc y = p_pc y0 ∨ u = t ∧ p_pc y = c).
Proof using All. simpl. intros [[<- <-]|[Hne Hu]]%lookup_insert_Some; [exists x|exists y]; split_and!; try done; [by rewrite Hx|by right|by left]. Qed.
Lemma goes_ended p : ended (goes w t x c) p ↔ ended w p.
Proof using All.
  split; intros H y Hy.
  - destruct (decide (pid p = t)) as [e|]; [|apply H; simpl; by rewrite lookup_insert_ne]. exfalso. apply Hcd. apply (H (set_pc c x)). simpl. by rewrite e, lookup_insert_eq.
  - destruct (goes_lookup _ _ Hy) as (y0 & Hy0 & _ & _ & _ & _ & Hd & _). apply Hd, H, Hy0.
Qed.
Lemma goes_at_work u a p : at_work w u a p → at_work (goes w t x c) u a p.
Proof using All.
  intros (y & Hy & Hd & Hp & Hr). destruct (decide (pid p = t)) as [e|].
  - exists (set_pc c x). simpl. rewrite e, lookup_insert_eq. rewrite e, Ht in Hy. by injection Hy as <-.
  - exists y. simpl. by rewrite lookup_insert_ne.
Qed.
Lemma goes_inv : inv (goes w t x c).
Proof using All.
  split.
  - intros u y Hy Hd. destruct (goes_lookup _ _ Hy) as (y0 & Hy0 & _ & Er & _ & Ee & Ed & _). rewrite Er, Ee. apply (in_own _ Hinv u y0 Hy0). tauto.
  - intros u y a Hy Ha. destruct (goes_lookup _ _ Hy) as (y0 & Hy0 & _ & _ & El & _). rewrite El in Ha. destruct (in_child _ Hinv u y0 a Hy0 Ha) as (p & Hp & Hn & Hs & Hor).
    exists p. split_and!; [done|done|done|]. destruct Hor as [H|[He Hst]]; [left; by apply goes_at_work|right]. split; [by apply goes_ended|done].
  - intros u y Hy. destruct (goes_lookup _ _ Hy) as (y0 & Hy0 & _ & _ & -> & _). by apply (in_nodup _ Hinv u).
  - apply (in_pid _ Hinv).
  - intros u v y z a Hy Hz Ha Hb. destruct (goes_lookup _ _ Hy) as (y0 & Hy0 & _ & _ & El & _), (goes_lookup _ _ Hz) as (z0 & Hz0 & _ & _ & Em & _). rewrite El in Ha. rewrite Em in Hb. by eapply (in_disjoint _ Hinv u v).
  - intros u y a Hy Ha. destruct (goes_lookup _ _ Hy) as (y0 & Hy0 & _ & _ & -> & _ & _ & [E|[-> E]]); [rewrite E in Ha; by apply (in_asleep _ Hinv u)|].
    rewrite Ht in Hy0. injection Hy0 as <-. apply Hasleep. congruence.
  - intros u y d a p Hy Hd Ha Hp Hpid. apply goes_ended. destruct (goes_lookup _ _ Hy) as (y0 & Hy0 & _ & _ & El & _ & _ & [E|[-> E]]); rewrite El in Ha.
    + rewrite E in Hd. by eapply (in_checked _ Hinv u y0 d a).
    + rewrite Ht in Hy0. injection Hy0 as <-. apply (Hchecked d a p); [congruence|done..].
  - intros u y Hy Hd. destruct (goes_lookup _ _ Hy) as (y0 & Hy0 & -> & _ & _ & _ & Ed & _). destruct (in_parent _ Hinv u y0 Hy0) as (z & Hz & Hor); [tauto|].
    destruct (decide (parent_id y0 = t)) as [e|].
    + exists (set_pc c x). simpl. rewrite e, lookup_insert_eq. split; [done|]. right. done.
    + exists z. simpl. by rewrite lookup_insert_ne.
  - intros u y b Hy Hb. destruct (goes_lookup _ _ Hy) as (y0 & Hy0 & _ & _ & _ & _ & _ & [E|[_ E]]); [rewrite E in Hb; by apply (in_exiting _ Hinv u y0)|]. by rewrite E in Hb; rewrite Hb in Hc.
  - intros u y Hy Hd. destruct (goes_lookup _ _ Hy) as (y0 & Hy0 & _ & _ & -> & _ & Ed & _). apply (in_dying _ Hinv u y0 Hy0). tauto.
Qed.
End goes.

(** The record at [a] is marked as waited for. *)
Lemma mark_inv w a p : inv w → records w !! a = Some p → inv (World (threads w) (<[a := mark_waited p]> (records w)) (history w)).
Proof.
  intros Hinv Hp. set (w' := World _ _ _).
  assert (∀ b q, records w !! b = Some q → ∃ q', records w' !! b = Some q' ∧ pid q' = pid q ∧ sema_wait q' = sema_wait q ∧ exit_code q' = exit_code q ∧ is_exited q' = is_exited q ∧ (is_waited q = true → is_waited q' = true)) as Hfwd.
  { intros b q Hq. simpl. destruct (decide (b = a)) as [->|]; [rewrite lookup_insert_eq; eexists; split; [done|]; by replace p with q by congruence|rewrite lookup_insert_ne by done; by exists q]. }
  assert (∀ b q, records w' !! b = Some q → ∃ q0, records w !! b = Some q0 ∧ pid q = pid q0) as Hbwd.
  { intros b q. simpl. intros [[<- <-]|[_ Hq]]%lookup_insert_Some; [by exists p|by exists q]. }
  split.
  - intros t x Ht Hd. destruct (in_own _ Hinv t x Ht Hd) as (q & Hq & Hpid & Hs & H). destruct (Hfwd _ _ Hq) as (q' & Hq' & E1 & E2 & E3 & E4 & _). exists q'. split_and!; [done|congruence|congruence|].
    destruct (is_exiting (p_pc x)); [|done]. unfold settled in *. simpl. by rewrite E1, E3, E4.
  - intros t x b Ht Hb. destruct (in_child _ Hinv t x b Ht Hb) as (q & Hq & Hpid & Hs & H). destruct (Hfwd _ _ Hq) as (q' & Hq' & E1 & E2 & E3 & E4 & _). exists q'. split_and!; [done|congruence|lia|].
    unfold at_work, ended, settled in *. simpl. by rewrite E1, E3, E4.
  - apply (in_nodup _ Hinv).
  - intros b d q r Hq Hr E. destruct (Hbwd _ _ Hq) as (q0 & Hq0 & E1), (Hbwd _ _ Hr) as (r0 & Hr0 & E2). apply (in_pid _ Hinv b d q0 r0); congruence.
  - apply (in_disjoint _ Hinv).
  - intros t x b Ht Hb. destruct (in_asleep _ Hinv t x b Ht Hb) as (Hl & q & Hq & Hw). split; [done|]. destruct (Hfwd _ _ Hq) as (q' & Hq' & _ & _ & _ & _ & Hw'). exists q'. auto.
  - intros t x c b q Ht Hc Hb Hq Hpid. destruct (Hbwd _ _ Hq) as (q0 & Hq0 & E1). pose proof (in_checked _ Hinv t x c b q0 Ht Hc Hb Hq0) as H. unfold ended in *. rewrite E1. apply H. congruence.
  - apply (in_parent _ Hinv).
  - apply (in_exiting _ Hinv).
  - apply (in_dying _ Hinv).
Qed.

(** Children are dropped from the list of [t]. *)
Lemma shrink_inv w t x l : inv w → threads w !! t = Some x → l ⊆ child_list x → NoDup l → (∀ a, p_pc x = Asleep a → a ∈ l) →
  inv (World (<[t := set_children l x]> (threads w)) (records w) (history w)).
Proof.
  intros Hinv Ht Hl Hnd Ha. set (w' := World _ _ _).
  assert (∀ u y, threads w' !! u = Some y → ∃ y0, threads w !! u = Some y0 ∧ parent_id y = parent_id y0 ∧ p_process y = p_process y0 ∧ p_pc y = p_pc y0 ∧ child_list y ⊆ child_list y0 ∧ (u = t ∧ child_list y = l ∨ y = y0)) as Hbwd.
  { intros u y. simpl. intros [[<- <-]|[_ Hy]]%lookup_insert_Some; [exists x|exists y]; split_and!; try done; [by left|by right]. }
  assert (∀ u y, threads w !! u = Some y → ∃ y', threads w' !! u = Some y' ∧ parent_id y' = parent_id y ∧ p_process y' = p_process y ∧ p_pc y' = p_pc y) as Hfwd.
  { intros u y Hy. simpl. destruct (decide (u = t)) as [->|]; [rewrite lookup_insert_eq; replace y with x by congruence; by eexists|rewrite lookup_insert_ne by done; by exists y]. }
  assert (∀ p, ended w p → ended w' p) as Hend by (intros p He y Hy; destruct (Hbwd _ _ Hy) as (y0 & Hy0 & _ & _ & -> & _); by apply He).
  split.
  - intros u y Hy. destruct (Hbwd _ _ Hy) as (y0 & Hy0 & _ & -> & -> & _). by apply (in_own _ Hinv u).
  - intros u y a Hy Hay. destruct (Hbwd _ _ Hy) as (y0 & Hy0 & _ & _ & _ & Hsub & _). destruct (in_child _ Hinv u y0 a Hy0) as (p & Hp & Hn & Hs & Hor); [by apply Hsub|]. exists p. split_and!; [done..|].
    destruct Hor as [(z & Hz & Hd & E1 & E2)|[He Hst]]; [left|right; split; [by apply Hend|done]]. destruct (Hfwd _ _ Hz) as (z' & Hz' & F1 & F2 & F3). exists z'. rewrite F1, F2, F3. done.
  - intros u y Hy. destruct (Hbwd _ _ Hy) as (y0 & Hy0 & _ & _ & _ & _ & [[_ ->] | ->]); [done|by apply (in_nodup _ Hinv u)].
  - apply (in_pid _ Hinv).
  - intros u v y z a Hy Hz Hay Haz. destruct (Hbwd _ _ Hy) as (y0 & Hy0 & _ & _ & _ & Hsy & _), (Hbwd _ _ Hz) as (z0 & Hz0 & _ & _ & _ & Hsz & _). apply (in_disjoint _ Hinv u v y0 z0 a); auto.
  - intros u y a Hy Hpc. destruct (Hbwd _ _ Hy) as (y0 & Hy0 & _ & _ & Epc & _ & Hor). rewrite Epc in Hpc. destruct (in_asleep _ Hinv u y0 a Hy0 Hpc) as (Hin & Hr). split; [|done].
    destruct Hor as [[-> ->] | ->]; [|done]. apply Ha. by replace x with y0 by congruence.
  - intros u y c a p Hy Hc Hay Hp Hpid. destruct (Hbwd _ _ Hy) as (y0 & Hy0 & _ & _ & Epc & Hsub & _). apply Hend, (in_checked _ Hinv u y0 c a); try done; [congruence|by apply Hsub].
  - intros u y Hy. destruct (Hbwd _ _ Hy) as (y0 & Hy0 & -> & _ & -> & _). intros Hd. destruct (in_parent _ Hinv u y0 Hy0 Hd) as (z & Hz & Hor). destruct (Hfwd _ _ Hz) as (z' & Hz' & _ & _ & F3). exists z'. by rewrite F3.
  - intros u y b Hy Hb. destruct (Hbwd _ _ Hy) as (y0 & Hy0 & _ & _ & E & _). apply (in_exiting _ Hinv u y0 b Hy0). congruence.
  - intros u y Hy Hd. destruct (Hbwd _ _ Hy) as (y0 & Hy0 & _ & _ & E & Hsub & _). rewrite E in Hd. destruct (in_dying _ Hinv u y0 Hy0 Hd) as [Hl0 Hh]. split; [|done]. rewrite Hl0 in Hsub. by apply list_nil_subseteq.
Qed.

(** Records of threads that have ended, and that no list has, are freed. *)
Lemma freed_inv w m : inv w → (∀ a p, m !! a = Some p → records w !! a = Some p) →
  (∀ a p, records w !! a = Some p → m !! a = None → ended w p ∧ ∀ t x, threads w !! t = Some x → a ∉ child_list x) →
  inv (World (threads w) m (history w)).
Proof.
  intros Hinv Hsub Hrm. assert (∀ a p, records w !! a = Some p → (∀ t x, threads w !! t = Some x → a ∈ child_list x → m !! a = Some p)) as Hkeep.
  { intros a p Hp t x Ht Ha. destruct (m !! a) as [q|] eqn:E; [apply Hsub in E; congruence|]. destruct (Hrm a p Hp E) as [_ H]. by destruct (H t x Ht). }
  split.
  - intros t x Ht Hd. destruct (in_own _ Hinv t x Ht Hd) as (p & Hp & Hpid & H). exists p. split; [|done]. simpl. destruct (m !! p_process x) as [q|] eqn:E; [apply Hsub in E; congruence|].
    destruct (Hrm _ p Hp E) as [He _]. destruct Hd. apply He. by rewrite Hpid.
  - intros t x a Ht Ha. destruct (in_child _ Hinv t x a Ht Ha) as (p & Hp & H). exists p. split; [by eapply Hkeep|done].
  - apply (in_nodup _ Hinv).
  - intros a b p q Ha Hb. apply (in_pid _ Hinv); by apply Hsub.
  - apply (in_disjoint _ Hinv).
  - intros t x a Ht Ha. destruct (in_asleep _ Hinv t x a Ht Ha) as (Hl & p & Hp & Hw). split; [done|]. exists p. split; [by eapply Hkeep|done].
  - intros t x c a p Ht Hc Ha Hp. apply (in_checked _ Hinv t x c a); try done. by apply Hsub.
  - apply (in_parent _ Hinv).
  - apply (in_exiting _ Hinv).
  - apply (in_dying _ Hinv).
Qed.

(** A thread starts to exit. *)
Lemma exits_inv w t x p p' : inv w → threads w !! t = Some x → is_exiting (p_pc x) = false → p_pc x ≠ Dying → (∀ u y, threads w !! u = Some y → parent_id y = t → u = t ∨ p_pc y = Dying) →
  records w !! p_process x = Some p → pid p' = pid p → sema_wait p' = sema_wait p → (is_waited p = true → is_waited p' = true) → (is_exited p' = false → exit_code p' = -1) →
  inv (World (<[t := set_pc (Exiting true) x]> (threads w)) (<[p_process x := p']> (records w)) (<[t := exit_code p']> (history w))).
Proof.
  intros Hinv Ht Hx Hxd Hpat Hp Epid Esema Ewait Ecode. set (w' := World _ _ _). destruct (in_own _ Hinv t x Ht Hxd) as (p0 & Hp0 & Ht0 & Hs0 & Hh0). replace p0 with p in * by congruence. rewrite Hx in Hh0.
  assert (∀ u y, threads w' !! u = Some y → ∃ y0, threads w !! u = Some y0 ∧ parent_id y = parent_id y0 ∧ p_process y = p_process y0 ∧ child_list y = child_list y0 ∧ (p_pc y = Dying ↔ p_pc y0 = Dying) ∧ (u = t ∧ p_pc y = Exiting true ∨ u ≠ t ∧ y = y0)) as Hbwd.
  { intros u y. simpl. intros [[<- <-]|[Hne Hy]]%lookup_insert_Some; [exists x|exists y]; split_and!; try done; [by left|right; done]. }
  assert (∀ b q, records w !! b = Some q → ∃ q', records w' !! b = Some q' ∧ pid q' = pid q ∧ sema_wait q' = sema_wait q ∧ (is_waited q = true → is_waited q' = true) ∧ (b = p_process x ∧ q' = p' ∨ b ≠ p_process x ∧ q' = q)) as Hrec.
  { intros b q Hq. simpl. destruct (decide (b = p_process x)) as [->|]; [rewrite lookup_insert_eq; exists p'; replace q with p by congruence; split_and!; try done; by left|rewrite lookup_insert_ne by done; exists q; split_and!; try done; by right]. }
  assert (∀ b q, records w' !! b = Some q → ∃ q0, records w !! b = Some q0 ∧ pid q = pid q0) as Hrec'.
  { intros b q. simpl. intros [[<- <-]|[_ Hq]]%lookup_insert_Some; [by exists p|by exists q]. }
  assert (∀ q q', pid q' = pid q → ended w q → ended w' q') as Hend by (intros q q' E He y Hy; destruct (Hbwd _ _ Hy) as (y0 & Hy0 & _ & _ & _ & Hd & _); apply Hd, He; congruence).
  assert (settled w' p') as Hst' by (split; [simpl; by rewrite Epid, Ht0, lookup_insert_eq|done]).
  assert (∀ b q, records w !! b = Some q → b ≠ p_process x → settled w q → settled w' q) as Hset.
  { intros b q Hq Hb [H1 H2]. split; [|done]. simpl. rewrite lookup_insert_ne; [done|]. intros E. apply Hb. eapply (in_pid _ Hinv); [done..|congruence]. }
  split.
  - intros u y Hy Hd. destruct (Hbwd _ _ Hy) as (y0 & Hy0 & _ & Er & _ & Ed & Hor). rewrite Er. destruct Hor as [[-> Epc]|[Hne ->]].
    + replace y0 with x by congruence. exists p'. rewrite Epc. simpl. rewrite lookup_insert_eq. split_and!; [done|congruence|congruence|done].
    + destruct (in_own _ Hinv u y0 Hy0) as (q & Hq & Hpid & Hs & H); [tauto|]. assert (p_process y0 ≠ p_process x) as Hnp by (intros E; rewrite E in Hq; congruence).
      exists q. simpl. rewrite lookup_insert_ne by done. split_and!; [done..|]. destruct (is_exiting (p_pc y0)); [by apply (Hset (p_process y0))|by rewrite lookup_insert_ne].
  - intros u y a Hy Ha. destruct (Hbwd _ _ Hy) as (y0 & Hy0 & _ & _ & El & _). rewrite El in Ha. destruct (in_child _ Hinv u y0 a Hy0 Ha) as (q & Hq & Hpid & Hs & Hor). destruct (Hrec a q Hq) as (q' & Hq' & E1 & E2 & _ & Hcase).
    exists q'. split_and!; [done|congruence|lia|]. destruct Hor as [(z & Hz & Hzd & Hzp & Hzr)|[He Hstq]].
    + left. destruct (decide (pid q = t)) as [e|Hne]; [exists (set_pc (Exiting true) x); simpl; rewrite E1, e, lookup_insert_eq; rewrite e, Ht in Hz; by injection Hz as <-|].
      exists z. simpl. rewrite E1, lookup_insert_ne by done. done.
    + right. destruct Hcase as [[-> ->]|[Hb ->]]; [|split; [by eapply Hend|by eapply Hset]]. exfalso. apply Hxd. apply He. replace q with p by congruence. by rewrite Ht0.
  - intros u y Hy. destruct (Hbwd _ _ Hy) as (y0 & Hy0 & _ & _ & -> & _). by apply (in_nodup _ Hinv u).
  - intros b d q r Hq Hr E. destruct (Hrec' _ _ Hq) as (q0 & Hq0 & E1), (Hrec' _ _ Hr) as (r0 & Hr0 & E2). apply (in_pid _ Hinv b d q0 r0); congruence.
  - intros u v y z a Hy Hz Ha Hb. destruct (Hbwd _ _ Hy) as (y0 & Hy0 & _ & _ & El & _), (Hbwd _ _ Hz) as (z0 & Hz0 & _ & _ & Em & _). rewrite El in Ha. rewrite Em in Hb. by eapply (in_disjoint _ Hinv u v).
  - intros u y a Hy Ha. destruct (Hbwd _ _ Hy) as (y0 & Hy0 & _ & _ & El & _ & [[_ E]|[_ ->]]); [congruence|]. destruct (in_asleep _ Hinv u y0 a Hy0 Ha) as (Hl & q & Hq & Hw). split; [done|]. destruct (Hrec a q Hq) as (q' & Hq' & _ & _ & Hw' & _). exists q'. auto.
  - intros u y c a q Hy Hc Ha Hq Hpid. destruct (Hbwd _ _ Hy) as (y0 & Hy0 & _ & _ & El & _ & [[_ E]|[_ ->]]); [congruence|]. destruct (Hrec' _ _ Hq) as (q0 & Hq0 & E). apply (Hend q0); [done|]. apply (in_checked _ Hinv u y0 c a); congruence.
  - intros u y Hy Hd. destruct (Hbwd _ _ Hy) as (y0 & Hy0 & -> & _ & _ & Ed & _). destruct (in_parent _ Hinv u y0 Hy0) as (z & Hz & Hor); [tauto|]. destruct (decide (parent_id y0 = t)) as [e|].
    + destruct (Hpat u y0 Hy0 e) as [Eu|]; [|tauto]. exists (set_pc (Exiting true) x). split; [rewrite e; apply lookup_insert_eq|left; congruence].
    + exists z. simpl. by rewrite lookup_insert_ne.
  - intros u y b Hy Hb. destruct (Hbwd _ _ Hy) as (y0 & Hy0 & _ & _ & _ & _ & [[_ E]|[_ ->]]); [congruence|by apply (in_exiting _ Hinv u y0)].
  - intros u y Hy Hd. destruct (Hbwd _ _ Hy) as (y0 & Hy0 & _ & _ & -> & Ed & _). destruct (in_dying _ Hinv u y0 Hy0) as [? Hh]; [tauto|]. split; [done|]. simpl. destruct (decide (u = t)) as [->|]; [rewrite lookup_insert_eq; by eexists|by rewrite lookup_insert_ne].
Qed.

(** A thread without children is done; its record may have been raised. *)
Lemma dies_inv w t x b p p' : inv w → threads w !! t = Some x → p_pc x = Exiting b → child_list x = [] → records w !! p_process x = Some p →
  pid p' = pid p → 0 ≤ sema_wait p' → is_waited p' = is_waited p → exit_code p' = exit_code p → is_exited p' = is_exited p →
  inv (World (<[t := set_pc Dying x]> (threads w)) (<[p_process x := p']> (records w)) (history w)).
Proof.
  intros Hinv Ht Hx Hl Hp Epid Esema Ewait Ecode Eex. set (w' := World _ _ _). destruct (in_own _ Hinv t x Ht) as (p0 & Hp0 & Ht0 & Hs0 & Hh0); [congruence|]. replace p0 with p in * by congruence. rewrite Hx in Hh0. simpl in Hh0.
  assert (∀ u y, threads w' !! u = Some y → ∃ y0, threads w !! u = Some y0 ∧ parent_id y = parent_id y0 ∧ p_process y = p_process y0 ∧ child_list y = child_list y0 ∧ (u = t ∧ p_pc y = Dying ∨ u ≠ t ∧ y = y0)) as Hbwd.
  { intros u y. simpl. intros [[<- <-]|[Hne Hy]]%lookup_insert_Some; [exists x|exists y]; split_and!; try done; [by left|right; done]. }
  assert (∀ b q, records w !! b = Some q → ∃ q', records w' !! b = Some q' ∧ pid q' = pid q ∧ (0 ≤ sema_wait q → 0 ≤ sema_wait q') ∧ is_waited q' = is_waited q ∧ (settled w q → settled w' q')) as Hrec.
  { intros d q Hq. simpl. destruct (decide (d = p_process x)) as [->|]; [rewrite lookup_insert_eq; exists p'; replace q with p by congruence; split_and!; try done; unfold settled; simpl; congruence|rewrite lookup_insert_ne by done; by exists q]. }
  assert (∀ b q, records w' !! b = Some q → ∃ q0, records w !! b = Some q0 ∧ pid q = pid q0) as Hrec'.
  { intros d q. simpl. intros [[<- <-]|[_ Hq]]%lookup_insert_Some; [by exists p|by exists q]. }
  assert (∀ q q', pid q' = pid q → ended w q → ended w' q') as Hend.
  { intros q q' E He y Hy. destruct (Hbwd _ _ Hy) as (y0 & Hy0 & _ & _ & _ & [[_ H]|[_ ->]]); [done|]. apply He. congruence. }
  split.
  - intros u y Hy Hd. destruct (Hbwd _ _ Hy) as (y0 & Hy0 & _ & Er & _ & Hor). destruct Hor as [[_ Epc]|[Hne ->]]; [done|]. destruct (in_own _ Hinv u y0 Hy0 Hd) as (q & Hq & Hpid & Hs & H).
    assert (p_process y0 ≠ p_process x) as Hnp by (intros E; rewrite E in Hq; congruence). exists q. simpl. by rewrite lookup_insert_ne.
  - intros u y a Hy Ha. destruct (Hbwd _ _ Hy) as (y0 & Hy0 & _ & _ & El & _). rewrite El in Ha. destruct (in_child _ Hinv u y0 a Hy0 Ha) as (q & Hq & Hpid & Hs & Hor). destruct (Hrec a q Hq) as (q' & Hq' & E1 & E2 & _ & Hset).
    exists q'. split_and!; [done|congruence|auto|]. destruct Hor as [(z & Hz & Hzd & Hzp & Hzr)|[He Hstq]]; [|right; split; [by eapply Hend|auto]].
    destruct (decide (pid q = t)) as [e|Hne].
    + right. assert (a = p_process x) as -> by (by eapply (in_pid _ Hinv); [done..|congruence]). replace q with p in * by congruence. split; [|by apply Hset]. intros y'. simpl. rewrite E1, e, lookup_insert_eq. by intros [= <-].
    + left. exists z. simpl. rewrite E1, lookup_insert_ne by done. done.
  - intros u y Hy. destruct (Hbwd _ _ Hy) as (y0 & Hy0 & _ & _ & -> & _). by apply (in_nodup _ Hinv u).
  - intros d e q r Hq Hr E. destruct (Hrec' _ _ Hq) as (q0 & Hq0 & E1), (Hrec' _ _ Hr) as (r0 & Hr0 & E2). apply (in_pid _ Hinv d e q0 r0); congruence.
  - intros u v y z a Hy Hz Ha Hb. destruct (Hbwd _ _ Hy) as (y0 & Hy0 & _ & _ & El & _), (Hbwd _ _ Hz) as (z0 & Hz0 & _ & _ & Em & _). rewrite El in Ha. rewrite Em in Hb. by eapply (in_disjoint _ Hinv u v).
  - intros u y a Hy Ha. destruct (Hbwd _ _ Hy) as (y0 & Hy0 & _ & _ & El & [[_ E]|[_ ->]]); [congruence|]. destruct (in_asleep _ Hinv u y0 a Hy0 Ha) as (Hin & q & Hq & Hw). split; [done|]. destruct (Hrec a q Hq) as (q' & Hq' & _ & _ & Hw' & _). exists q'. split; [done|congruence].
  - intros u y c a q Hy Hc Ha Hq Hpid. destruct (Hbwd _ _ Hy) as (y0 & Hy0 & _ & _ & El & [[_ E]|[_ ->]]); [congruence|]. destruct (Hrec' _ _ Hq) as (q0 & Hq0 & E). apply (Hend q0); [done|]. apply (in_checked _ Hinv u y0 c a); congruence.
  - intros u y Hy Hd. destruct (Hbwd _ _ Hy) as (y0 & Hy0 & -> & _ & _ & [[_ E]|[Hne ->]]); [done|]. destruct (in_parent _ Hinv u y0 Hy0 Hd) as (z & Hz & Hor). destruct (decide (parent_id y0 = t)) as [e|].
    + exfalso. replace z with x in * by congruence. rewrite Hx in Hor. destruct Hor as [Eu|[? _]]; [congruence|done].
    + exists z. simpl. by rewrite lookup_insert_ne.
  - intros u y c Hy Hc. destruct (Hbwd _ _ Hy) as (y0 & Hy0 & _ & _ & _ & [[_ E]|[_ ->]]); [congruence|by apply (in_exiting _ Hinv u y0)].
  - intros u y Hy Hd. destruct (Hbwd _ _ Hy) as (y0 & Hy0 & _ & _ & -> & [[-> E]|[_ ->]]); [|by apply (in_dying _ Hinv u)]. replace y0 with x by congruence. split; [done|]. simpl. rewrite <- Ht0. destruct Hh0 as [-> _]. by eexists.
Qed.

(** A dying thread leaves [all_list]. *)
Lemma ends_inv w t x : inv w → threads w !! t = Some x → p_pc x = Dying → inv (World (delete t (threads w)) (records w) (history w)).
Proof.
  intros Hinv Ht Hx. set (w' := World _ _ _). assert (∀ u y, threads w' !! u = Some y → u ≠ t ∧ threads w !! u = Some y) as Hbwd.
  { intros u y. simpl. intros [? ?]%lookup_delete_Some. split; [congruence|done]. }
  assert (∀ u y, threads w !! u = Some y → p_pc y ≠ Dying → threads w' !! u = Some y) as Hfwd by (intros u y Hy Hd; simpl; rewrite lookup_delete_ne; [done|congruence]).
  assert (∀ q, ended w q → ended w' q) as Hend by (intros q He y Hy; apply He; by apply Hbwd).
  split.
  - intros u y [_ Hy]%Hbwd. by apply (in_own _ Hinv).
  - intros u y a [_ Hy]%Hbwd Ha. destruct (in_child _ Hinv u y a Hy Ha) as (q & Hq & Hpid & Hs & Hor). exists q. split_and!; [done..|]. destruct Hor as [(z & Hz & Hzd & Hzp)|[He Hst]]; [left; exists z; auto|right; auto].
  - intros u y [_ Hy]%Hbwd. by apply (in_nodup _ Hinv u).
  - apply (in_pid _ Hinv).
  - intros u v y z a [_ Hy]%Hbwd [_ Hz]%Hbwd. by apply (in_disjoint _ Hinv u v y z a).
  - intros u y a [_ Hy]%Hbwd. by apply (in_asleep _ Hinv u y a).
  - intros u y c a p [_ Hy]%Hbwd Hc Ha Hp E. apply Hend. by eapply (in_checked _ Hinv u y c a).
  - intros u y [Hne Hy]%Hbwd Hd. destruct (in_parent _ Hinv u y Hy Hd) as (z & Hz & Hor). exists z. split; [|done]. destruct Hor as [E|[_ Hzd]]; [|by apply Hfwd]. rewrite E in Hz |- *. apply Hfwd; [done|congruence].
  - intros u y b [_ Hy]%Hbwd. by apply (in_exiting _ Hinv u y b).
  - intros u y [_ Hy]%Hbwd. by apply (in_dying _ Hinv u y).
Qed.

(** A child [tid] is created and registers. *)
Section executes.
Context (w : world) (t : Z) (x : pthread) (tid a : Z) (loaded : bool) (Hinv : inv w) (Ht : threads w !! t = Some x) (Hx : p_pc x = User).
Context (Htid : threads w !! tid = None) (Hhist : history w !! tid = None) (Hpids : ∀ b p, records w !! b = Some p → pid p ≠ tid) (Ha : records w !! a = None).
Let p : process := Process 0 false (-1) false loaded tid.
Definition executed : world := World (<[t := set_children (child_list x ++ [a]) x]> (<[tid := Pthread t a [] User]> (threads w))) (<[a := p]> (records w)) (history w).
Lemma executed_lookup u y : threads executed !! u = Some y → u = tid ∧ y = Pthread t a [] User ∨ u ≠ tid ∧ ∃ y0, threads w !! u = Some y0 ∧ parent_id y = parent_id y0 ∧ p_process y = p_process y0 ∧ p_pc y = p_pc y0 ∧
  (u = t ∧ child_list y = child_list y0 ++ [a] ∨ u ≠ t ∧ child_list y = child_list y0).
Proof using All.
  simpl. intros [[<- <-]|[Hne [[<- <-]|[Hne' Hy]]%lookup_insert_Some]]%lookup_insert_Some.
  - right. split; [congruence|]. exists x. split_and!; try done. by left.
  - by left.
  - right. split; [done|]. exists y. split_and!; try done. by right.
Qed.
Lemma executed_keeps u y : threads w !! u = Some y → ∃ y', threads executed !! u = Some y' ∧ parent_id y' = parent_id y ∧ p_process y' = p_process y ∧ p_pc y' = p_pc y.
Proof using All.
  intros Hy. simpl. destruct (decide (u = t)) as [->|]; [rewrite lookup_insert_eq; replace y with x by congruence; by eexists|]. rewrite lookup_insert_ne, lookup_insert_ne by congruence. by exists y.
Qed.
Lemma executed_record b q : records w !! b = Some q → records executed !! b = Some q.
Proof using All. intros Hq. simpl. rewrite lookup_insert_ne by congruence. done. Qed.
Lemma executed_ended q : pid q ≠ tid → ended w q → ended executed q.
Proof using All. intros Hq He y Hy. destruct (executed_lookup _ _ Hy) as [[E _]|(_ & y0 & Hy0 & _ & _ & -> & _)]; [done|by apply He]. Qed.
Lemma executed_lists u y b : threads executed !! u = Some y → b ∈ child_list y → b = a ∧ u = t ∨ b ≠ a ∧ ∃ y0, threads w !! u = Some y0 ∧ p_pc y0 = p_pc y ∧ b ∈ child_list y0.
Proof using All.
  intros Hy Hb. destruct (executed_lookup _ _ Hy) as [[-> ->]|(_ & y0 & Hy0 & _ & _ & E & [[-> El]|[_ El]])]; rewrite ?El in *; [set_solver| |].
  - apply elem_of_app in Hb as [Hb|Hb]; [right|left; set_solver]. split; [|by exists y0]. intros ->. destruct (in_child _ Hinv t y0 a Hy0 Hb) as (q & Hq & _). congruence.
  - right. split; [|by exists y0]. intros ->. destruct (in_child _ Hinv u y0 a Hy0 Hb) as (q & Hq & _). congruence.
Qed.
Lemma executed_inv : inv executed.
Proof using All.
  split.
  - intros u y Hy Hd. destruct (executed_lookup _ _ Hy) as [[-> ->]|(_ & y0 & Hy0 & _ & -> & E & _)]; [exists p; simpl; by rewrite lookup_insert_eq|]. rewrite E in *. destruct (in_own _ Hinv u y0 Hy0 Hd) as (q & Hq & H). exists q. split; [by apply executed_record|done].
  - intros u y b Hy Hb. destruct (executed_lists _ _ _ Hy Hb) as [[-> ->]|(_ & y0 & Hy0 & _ & Hb0)].
    + exists p. simpl. rewrite lookup_insert_eq. split_and!; [done|simpl; congruence|done|]. left. exists (Pthread t a [] User). simpl. rewrite lookup_insert_ne, lookup_insert_eq by congruence. done.
    + destruct (in_child _ Hinv u y0 b Hy0 Hb0) as (q & Hq & Hn & Hs & Hor). exists q. split_and!; [by apply executed_record|done|done|]. destruct Hor as [(z & Hz & Hzd & Hzp & Hzr)|[He Hst]]; [left|right; split; [apply executed_ended; eauto|done]].
      destruct (executed_keeps _ _ Hz) as (z' & Hz' & E1 & E2 & E3). exists z'. by rewrite E1, E2, E3.
  - intros u y Hy. destruct (executed_lookup _ _ Hy) as [[-> ->]|(_ & y0 & Hy0 & _ & _ & _ & [[-> ->]|[_ ->]])]; [constructor| |by apply (in_nodup _ Hinv u)].
    apply list.NoDup_app. split_and!; [by apply (in_nodup _ Hinv t)| |apply NoDup_singleton]. intros b Hb Hba. destruct (in_child _ Hinv t y0 b Hy0 Hb) as (q & Hq & _). assert (b = a) as -> by set_solver. congruence.
  - intros b d q r. simpl. rewrite !lookup_insert_Some. intros [[<- <-]|[? Hq]] [[<- <-]|[? Hr]] E; [done|..]; simpl in E; [by destruct (Hpids d r)|by destruct (Hpids b q)|by apply (in_pid _ Hinv b d q r)].
  - intros u v y z b Hy Hz Hb Hb'. destruct (executed_lists _ _ _ Hy Hb) as [[-> ->]|(Hne & y0 & Hy0 & _ & Hb0)], (executed_lists _ _ _ Hz Hb') as [[? ->]|(Hne' & z0 & Hz0 & _ & Hb1)]; try done. by apply (in_disjoint _ Hinv u v y0 z0 b).
  - intros u y b Hy Hb. destruct (executed_lookup _ _ Hy) as [[-> ->]|(_ & y0 & Hy0 & _ & _ & E & Hl)]; [done|]. rewrite E in Hb. destruct (in_asleep _ Hinv u y0 b Hy0 Hb) as (Hin & q & Hq & Hw). split; [destruct Hl as [[_ ->]|[_ ->]]; set_solver|]. exists q. split; [by apply executed_record|done].
  - intros u y c b q Hy Hc Hb Hq Hpid. destruct (executed_lists _ _ _ Hy Hb) as [[-> ->]|(Hne & y0 & Hy0 & E & Hb0)].
    + exfalso. destruct (executed_lookup _ _ Hy) as [[-> ->]|(_ & y0 & Hy0 & _ & _ & E & _)]; [done|]. congruence.
    + simpl in Hq. rewrite lookup_insert_ne in Hq by done. apply executed_ended; [eauto|]. apply (in_checked _ Hinv u y0 c b); congruence.
  - intros u y Hy Hd. destruct (executed_lookup _ _ Hy) as [[-> ->]|(_ & y0 & Hy0 & -> & _ & E & _)].
    + simpl. destruct (executed_keeps _ _ Ht) as (x' & Hx' & _ & _ & E). exists x'. split; [exact Hx'|]. right. by rewrite E, Hx.
    + rewrite E in Hd. destruct (in_parent _ Hinv u y0 Hy0 Hd) as (z & Hz & Hor). destruct (executed_keeps _ _ Hz) as (z' & Hz' & _ & _ & E3). exists z'. by rewrite E3.
  - intros u y b Hy Hb. destruct (executed_lookup _ _ Hy) as [[-> ->]|(_ & y0 & Hy0 & _ & _ & E & _)]; [done|]. apply (in_exiting _ Hinv u y0 b Hy0). congruence.
  - intros u y Hy Hd. destruct (executed_lookup _ _ Hy) as [[-> ->]|(_ & y0 & Hy0 & _ & _ & E & Hl)]; [done|]. rewrite E in Hd. destruct Hl as [[-> _]|[_ ->]]; [congruence|]. by apply (in_dying _ Hinv u y0).
Qed.
End executes.

(** The record of a child that has ended is taken off the list and freed. *)
Definition collected (w : world) (t : Z) (x : pthread) (a : Z) : world :=
  World (<[t := set_children (filter (λ b, b ≠ a) (child_list x)) (set_pc User x)]> (threads w)) (delete a (records w)) (history w).
Lemma collected_inv w t x a p : inv w → threads w !! t = Some x → is_exiting (p_pc x) = false → p_pc x ≠ Dying → a ∈ child_list x → records w !! a = Some p → ended w p → inv (collected w t x a).
Proof.
  intros Hinv Ht Hx Hxd Ha Hp He. pose proof (goes_inv w t x User Hinv Ht Hx Hxd eq_refl ltac:(done) ltac:(done) ltac:(done)) as I1.
  pose proof (shrink_inv _ t (set_pc User x) (filter (λ b, b ≠ a) (child_list x)) I1 (lookup_insert_eq _ _ _) ltac:(intros b [_ Hb]%list_elem_of_filter; exact Hb) ltac:(apply list.NoDup_filter, (in_nodup _ Hinv t x Ht)) ltac:(done)) as I2.
  simpl in I2. rewrite insert_insert_eq in I2. apply (freed_inv _ (delete a (records w)) I2).
  - intros b q [_ Hq]%lookup_delete_Some. done.
  - simpl. intros b q Hq Hb. destruct (decide (b = a)) as [->|]; [|rewrite lookup_delete_ne in Hb by done; congruence]. replace q with p by congruence. destruct (in_child _ Hinv t x a Ht Ha) as (p' & Hp' & Hn & _). replace p' with p in Hn by congruence. split.
    + intros y. simpl. rewrite lookup_insert_ne by done. apply He.
    + intros u y [[<- <-]|[Hne Hy]]%lookup_insert_Some Hin; [simpl in Hin; apply list_elem_of_filter in Hin as [? _]; done|]. apply Hne. by eapply (in_disjoint _ Hinv t u x y a).
Qed.

(** ** The steps *)

Ltac exec H := unfold free_record, thread_at, set_thread, record_at, set_record, get_thread, mbind, M_bind, get, put, modify, lift, mret, M_ret in H; simpl in H.

Lemma execute_result w t x tid a loaded r w' : inv w → threads w !! t = Some x → threads w !! tid = None → process_execute t tid a loaded w = Done (r, w') → w' = executed w t x tid a loaded.
Proof.
  intros Hinv Ht Htid H. unfold process_execute in H. exec H. rewrite lookup_insert_eq in H. simpl in H. rewrite lookup_insert_ne, Ht in H by congruence. simpl in H. rewrite lookup_insert_eq in H. simpl in H.
  set (w1 := World _ _ _) in H. assert (w1 = executed w t x tid a loaded) as E by (unfold w1, executed; by rewrite insert_insert_eq). rewrite <- E. clear E. clearbody w1.
  destruct (process_child (child_list x ++ [a]) tid w1) as [[c w2]| | |] eqn:Ec; try done.
  assert (w2 = w1) as ->.
  { assert (∀ l u c w2, process_child l tid u = Done (c, w2) → w2 = u) as Hpc; [|by eapply Hpc]. clear. induction l as [|b l IH]; intros u c w2 H; cbn [process_child] in H; [by injection H as _ <-|].
    exec H. destruct (records u !! b) as [q|]; [|done]. simpl in H. destruct (pid q =? tid); [by injection H as _ <-|by eapply IH]. }
  destruct c as [c|]; [|done]. simpl in H. destruct (records w1 !! c); [|done]. by injection H as _ <-.
Qed.
Lemma mark_result w t x c b r w' : inv w → threads w !! t = Some x → p_pc x = Checked c b → wait_mark t c b w = Done (r, w') →
  (r = Some (-1) ∧ w' = goes w t x User ∧ ∀ a p, a ∈ child_list x → records w !! a = Some p → pid p = c → is_waited p = true) ∨
  ∃ a p, a ∈ child_list x ∧ records w !! a = Some p ∧ pid p = c ∧ is_waited p = false ∧
    if b then r = None ∧ w' = goes (World (threads w) (<[a := mark_waited p]> (records w)) (history w)) t x (Asleep a) else r = Some (if is_exited p then exit_code p else -1) ∧ w' = collected w t x a.
Proof.
  intros Hinv Ht Hx H. unfold wait_mark in H. exec H. rewrite Ht in H. simpl in H.
  destruct (process_child_spec w c (child_list x)) as (q & Hq & Hspec); [intros a Ha; destruct (in_child _ Hinv t x a Ht Ha) as (p & Hp & _); by exists p|]. rewrite Hq in H.
  destruct q as [a|]; cycle 1.
  { injection H as <- <-. left. split_and!; [done|done|]. intros a p Ha Hp E. by destruct (Hspec a p). }
  destruct Hspec as (Ha & p & Hp & Epid). rewrite Hp in H. simpl in H. destruct (is_waited p) eqn:Ew.
  { injection H as <- <-. left. split_and!; [done|done|]. intros a' p' Ha' Hp' E'. assert (a' = a) as -> by (apply (in_pid _ Hinv a' a p' p); congruence). congruence. }
  right. exists a, p. split_and!; try done. destruct b; [by injection H as <- <-|]. rewrite Hp in H. simpl in H. by injection H as <- <-.
Qed.
Lemma finish_result w t x a p v w' : threads w !! t = Some x → records w !! a = Some p → wait_finish t a w = Done (v, w') → sema_wait p ≠ 0 ∧ v = exit_code p ∧ w' = collected w t x a.
Proof. intros Ht Hp H. unfold wait_finish in H. exec H. rewrite Ht in H. simpl in H. rewrite Hp in H. simpl in H. destruct (Z.eqb_spec (sema_wait p) 0); [done|]. rewrite Hp in H. simpl in H. by injection H as <- <-. Qed.
Lemma awake_ended w t x a p : inv w → threads w !! t = Some x → a ∈ child_list x → records w !! a = Some p → sema_wait p ≠ 0 → ended w p ∧ settled w p.
Proof.
  intros Hinv Ht Ha Hp Hs. destruct (in_child _ Hinv t x a Ht Ha) as (q & Hq & _ & _ & Hor). replace q with p in * by congruence. destruct Hor as [(y & Hy & Hd & _ & Er)|H]; [|done].
  destruct (in_own _ Hinv _ y Hy Hd) as (r & Hr & _ & Hz & _). congruence.
Qed.
(** Every child of a thread that exits has ended. *)
Lemma exiting_children w t x b a p : inv w → threads w !! t = Some x → p_pc x = Exiting b → a ∈ child_list x → records w !! a = Some p → ended w p.
Proof.
  intros Hinv Ht Hx Ha Hp. destruct (in_child _ Hinv t x a Ht Ha) as (q & Hq & Hn & _ & Hor). replace q with p in * by congruence. destruct Hor as [(y & Hy & Hd & Epar & _)|[H _]]; [|done].
  destruct (in_parent _ Hinv _ y Hy Hd) as (z & Hz & Hz'). rewrite Epar, Ht in Hz. injection Hz as <-. rewrite Hx in Hz'. destruct Hz' as [E|[E _]]; [congruence|done].
Qed.
(** The world after a thread has told its parent: [m] is without the children. *)
Definition notified (w : world) (t : Z) (x : pthread) (m : gmap Z process) (p : process) : world :=
  World (<[t := set_children [] (set_pc Dying x)]> (threads w)) (<[p_process x := if is_waited p then up p else p]> m) (history w).
Lemma notify_result w t x b : inv w → threads w !! t = Some x → p_pc x = Exiting b →
  ∃ m p, (∀ a, m !! a = if bool_decide (a ∈ child_list x) then None else records w !! a) ∧ records w !! p_process x = Some p ∧ p_process x ∉ child_list x ∧ pid p = t ∧ exit_notify t b w = Done (tt, notified w t x m p).
Proof.
  intros Hinv Ht Hx. assert (b = true) as -> by (by eapply (in_exiting _ Hinv)). destruct (in_own _ Hinv t x Ht) as (p & Hp & Epid & _); [congruence|].
  assert (p_process x ∉ child_list x) as Hno by (intros Hin; destruct (in_child _ Hinv t x _ Ht Hin) as (q & Hq & Hn & _); congruence).
  destruct (free_children_spec (child_list x) w (in_nodup _ Hinv t x Ht)) as (m & Hf & Hm); [intros a Ha; destruct (in_child _ Hinv t x a Ht Ha) as (q & Hq & _); by exists q|].
  exists m, p. split_and!; try done. unfold exit_notify, thread_at, set_thread, record_at, set_record, mbind, M_bind, get, modify, lift, mret, M_ret. rewrite Ht. simpl. rewrite Hf. simpl.
  rewrite Hm, bool_decide_false, Hp by done. simpl. unfold notified. destruct (is_waited p); [done|]. do 3 f_equal. symmetry. apply insert_id. by rewrite Hm, bool_decide_false.
Qed.
Lemma notified_inv w t x b m p : inv w → threads w !! t = Some x → p_pc x = Exiting b → (∀ a, m !! a = if bool_decide (a ∈ child_list x) then None else records w !! a) → records w !! p_process x = Some p → p_process x ∉ child_list x →
  inv (notified w t x m p).
Proof.
  intros Hinv Ht Hx Hm Hp Hno. pose proof (shrink_inv w t x [] Hinv Ht ltac:(set_solver) ltac:(constructor) ltac:(congruence)) as I1. set (w1 := World _ _ _) in I1.
  assert (inv (World (threads w1) m (history w1))) as I2.
  { apply freed_inv; [done|..].
    - intros a q. rewrite Hm. case_bool_decide; [done|]. done.
    - simpl. intros a q Hq. rewrite Hm. case_bool_decide as Hin; [intros _|congruence]. pose proof (exiting_children w t x b a q Hinv Ht Hx Hin Hq) as He. destruct (in_child _ Hinv t x a Ht Hin) as (q' & Hq' & Hn & _). replace q' with q in Hn by congruence. split.
      + intros y. simpl. rewrite lookup_insert_ne by done. apply He.
      + intros u y [[<- <-]|[Hne Hy]]%lookup_insert_Some Hin'; [set_solver|]. apply Hne. by eapply (in_disjoint _ Hinv t u x y a). }
  assert (0 ≤ sema_wait p) as Hs by (destruct (in_own _ Hinv t x Ht) as (p' & Hp' & _ & Hs & _); [congruence|]; replace p with p' by congruence; lia).
  pose proof (dies_inv _ t (set_children [] x) b p (if is_waited p then up p else p) I2) as I3. simpl in I3. rewrite insert_insert_eq in I3. apply I3; try done; try (by destruct (is_waited p)).
  - by rewrite lookup_insert_eq.
  - by rewrite Hm, bool_decide_false.
  - destruct (is_waited p); simpl; lia.
  - destruct (is_waited p) eqn:E; simpl; congruence.
Qed.

Lemma start_inv a : inv (start a).
Proof.
  split; simpl.
  - intros t x [<- <-]%lookup_singleton_Some _. exists (new_process 1). simpl. by rewrite lookup_singleton_eq.
  - intros t x b [<- <-]%lookup_singleton_Some Hb. set_solver.
  - intros t x [<- <-]%lookup_singleton_Some. constructor.
  - intros b c p q [<- <-]%lookup_singleton_Some [<- <-]%lookup_singleton_Some. done.
  - intros t u x y b [<- <-]%lookup_singleton_Some [<- <-]%lookup_singleton_Some. done.
  - intros t x b [<- <-]%lookup_singleton_Some. done.
  - intros t x c b p [<- <-]%lookup_singleton_Some. done.
  - intros t x [<- <-]%lookup_singleton_Some _. eexists. split; [by rewrite lookup_singleton_eq|by left].
  - intros t x b [<- <-]%lookup_singleton_Some. done.
  - intros t x [<- <-]%lookup_singleton_Some. done.
Qed.
Lemma process_step_inv w e w' : inv w → patient w e → step w e w' → inv w'.
Proof.
  intros Hinv Hpat Hs. revert Hpat. destruct Hs as [t x tid a loaded r w1 Ht Hx _ Htid Hh Hpids Ha H|t x c w1 Ht Hx _ H|t x c b v w1 Ht Hx H|t x c b w1 Ht Hx H|t x a p v w1 Ht Hx Hp H|t x status w1 Ht Hx H|t x b w1 Ht Hx H|t x w1 Ht Hx H]; intros Hpat.
  - rewrite (execute_result w t x tid a loaded r w1) by done. by apply executed_inv.
  - unfold wait_check in H. exec H. rewrite Ht in H. injection H as <-. apply (goes_inv w t x); rewrite ?Hx; try done. intros d a p [= -> Hd] Ha Hp E y Hy. case_bool_decide as Hc; [done|]. destruct Hc. rewrite <- E. by exists y.
  - destruct (mark_result w t x c b (Some v) w1 Hinv Ht Hx H) as [(_ & -> & _)|(a & p & Ha & Hp & Epid & Hw & Hb)]; [apply (goes_inv w t x); rewrite ?Hx; done|]. destruct b; [by destruct Hb|]. destruct Hb as [_ ->].
    eapply collected_inv; rewrite ?Hx; try done. by eapply (in_checked _ Hinv t x c a).
  - destruct (mark_result w t x c b None w1 Hinv Ht Hx H) as [(? & _)|(a & p & Ha & Hp & Epid & Hw & Hb)]; [done|]. destruct b; [|by destruct Hb]. destruct Hb as [_ ->].
    pose proof (mark_inv w a p Hinv Hp) as I1. apply goes_inv; rewrite ?Hx; try done. intros a' [= <-]. split; [done|]. exists (mark_waited p). simpl. by rewrite lookup_insert_eq.
  - destruct (finish_result w t x a p v w1 Ht Hp H) as (Hs & _ & ->). destruct (in_asleep _ Hinv t x a Ht Hx) as [Ha _]. eapply collected_inv; rewrite ?Hx; try done. by eapply awake_ended.
  - destruct (in_own _ Hinv t x Ht) as (p & Hp & Epid & _); [congruence|]. destruct (in_parent _ Hinv t x Ht) as (z & Hz & _); [congruence|]. unfold exit_begin in H. exec H. rewrite Ht in H. simpl in H. rewrite Hp in H. simpl in H. rewrite Hz in H. simpl in H. injection H as <-.
    pose proof (exits_inv w t x p (match status with Some c => set_exit true c p | None => set_exit false (-1) p end) Hinv Ht) as I1. rewrite Hx in I1.
    replace (exit_code match status with Some c => set_exit true c p | None => set_exit false (-1) p end) with (default (-1) status) in I1 by (by destruct status). apply I1; try done; try exact Hpat; by destruct status.
  - destruct (notify_result w t x b Hinv Ht Hx) as (m & p & Hm & Hp & Hno & _ & E). assert (w1 = notified w t x m p) as -> by congruence. by eapply notified_inv.
  - unfold exit_end in H. injection H as <-. by eapply ends_inv.
Qed.
Lemma processes_inv a w : reachable a w → inv w.
Proof. induction 1 as [|w e w' _ IH Hp Hs]; [apply start_inv|by eapply process_step_inv]. Qed.
