(* ===== verification/ProcessSpec.v ===== *)
(** * Parents and children: theorems

    In every interleaving of processes that outlive their children, records are
    alive when they are used, and [process_wait] returns the right status; then
    the two ways in which the protocol fails. *)

From S2P Require Import Prelude Process ProcessInv.

Ltac goal_exec := unfold free_record, thread_at, set_thread, record_at, set_record, get_thread, mbind, M_bind, get, put, modify, lift, mret, M_ret; simpl.


(** C32 No record is used after it was freed, and none is freed twice: whatever a
    process does next, [process_wait] or [process_exit] at any point of
    theirs, it does not follow a dangling pointer.  This holds in every
    interleaving of processes that exit after their children. *)
Theorem records_are_alive a w t x : reachable a w → threads w !! t = Some x →
  match p_pc x with
  | User => (∀ c, ∃ w', wait_check t c w = Done (tt, w')) ∧ ∀ status, ∃ w', exit_begin t status w = Done (tt, w')
  | Checked c b => ∃ r w', wait_mark t c b w = Done (r, w')
  | Asleep b => wait_finish t b w = NoFuel ∨ ∃ v w', wait_finish t b w = Done (v, w')
  | Exiting b => ∃ w', exit_notify t b w = Done (tt, w')
  | Dying => True
  end.
Proof.
  intros Hinv%processes_inv Ht. destruct (p_pc x) as [|c b|b|b|] eqn:Hx; [split| | | |done].
  - intros c. unfold wait_check. goal_exec. rewrite Ht. simpl. eauto.
  - intros status. destruct (in_own _ Hinv t x Ht) as (p & Hp & _); [congruence|]. unfold exit_begin. goal_exec. rewrite Ht. simpl. rewrite Hp. simpl. eauto.
  - unfold wait_mark. goal_exec. rewrite Ht. simpl. destruct (process_child_spec w c (child_list x)) as (r & -> & Hr); [intros d Hd; destruct (in_child _ Hinv t x d Ht Hd) as (p & Hp & _); by exists p|].
    destruct r as [d|]; [|eauto]. destruct Hr as (_ & p & Hp & _). rewrite Hp. simpl. destruct (is_waited p); [eauto|]. destruct b; [eauto|]. rewrite Hp. simpl. eauto.
  - destruct (in_asleep _ Hinv t x b Ht Hx) as (_ & p & Hp & _). unfold wait_finish. goal_exec. rewrite Ht. simpl. rewrite Hp. simpl. destruct (sema_wait p =? 0); [by left|right]. rewrite Hp. simpl. eauto.
  - destruct (notify_result w t x b Hinv Ht Hx) as (m & p & _ & _ & _ & _ & ->). eauto.
Qed.

(** A process that sleeps in [process_wait] is woken by its child when the child
    has not yet looked at [is_waited]: after [exit_notify] of the child,
    [process_wait] returns the child's status. *)
Theorem child_wakes_parent a w t x b p y d w' : reachable a w → threads w !! t = Some x → p_pc x = Asleep b → records w !! b = Some p →
  threads w !! pid p = Some y → p_pc y = Exiting d → step w (Notifies (pid p)) w' → ∃ v w'', wait_finish t b w' = Done (v, w'') ∧ history w !! pid p = Some v.
Proof.
  intros Hinv%processes_inv Ht Hx Hp Hy Hyd Hs. remember (Notifies (pid p)) as e eqn:E. destruct Hs as [| | | | | |u z c w1 Hz Hzc H|]; try done. injection E as ->. replace z with y in * by congruence.
  destruct (notify_result w (pid p) y c Hinv Hy Hzc) as (m & q & Hm & Hq & Hno & Epid & E). assert (w1 = notified w (pid p) y m q) as -> by congruence.
  assert (b = p_process y) as -> by (by apply (in_pid _ Hinv b (p_process y) p q)). replace q with p in * by congruence. destruct (in_asleep _ Hinv t x _ Ht Hx) as (Hb & p' & Hp' & Hw). replace p' with p in * by congruence.
  destruct (in_own _ Hinv (pid p) y Hy) as (r & Hr & _ & Hs & Hh); [congruence|]. replace r with p in * by congruence. rewrite Hzc in Hh. destruct Hh as [Hh _].
  destruct (in_child _ Hinv t x _ Ht Hb) as (r' & Hr' & Hn & _). replace r' with p in Hn by congruence.
  unfold wait_finish, notified. rewrite Hw. goal_exec. rewrite lookup_insert_ne, Ht by done. simpl. rewrite lookup_insert_eq. simpl. rewrite Hs. simpl. rewrite lookup_insert_eq. simpl. eauto.
Qed.

(** ** A parent, a child and what happens between them *)

Definition after {A} (m : W A) (w : world) : world := match m w with Done (_, w') => w' | _ => w end.
(** Thread 1 has started thread 2, whose record is at 5. *)
Definition w_child : world := after (process_execute 1 2 5 true) (start 4).
(** Thread 1 waits for it, and it exits with status 7. *)
Definition w_wait : world := after (wait_mark 1 2 true) (after (wait_check 1 2) w_child).
Definition w_exit : world := after (exit_begin 2 (Some 7)) w_wait.
Definition w_told : world := after (exit_notify 2 true) w_exit.

Lemma start_record b p a : records (start a) !! b = Some p → p = new_process 1.
Proof. simpl. by intros [_ <-]%lookup_singleton_Some. Qed.
Lemma reach_child : reachable 4 w_child.
Proof.
  apply (reach_step _ (start 4) (Executed 1 2)); [constructor|done|]. eapply (step_execute _ 1 _ 2 5 true); try done. intros b p ->%start_record. done.
Qed.
Lemma only_child u y w : threads w = <[1 := y]> {[2 := u]} → parent_id u = 1 → ∀ v z, threads w !! v = Some z → parent_id z = 2 → parent_id y ≠ 2 → v = 2 ∨ p_pc z = Dying.
Proof. intros Ew Hu v z. rewrite Ew. intros [[<- <-]|[_ [<- <-]%lookup_singleton_Some]]%lookup_insert_Some; congruence. Qed.
Lemma reach_told : reachable 4 w_exit ∧ reachable 4 w_told.
Proof.
  assert (reachable 4 (after (wait_check 1 2) w_child)) as R1.
  { eapply (reach_step _ w_child (Calls_wait 1 2)); [apply reach_child|done|]. by eapply step_check. }
  assert (reachable 4 w_wait) as R2.
  { eapply (reach_step _ _ (Sleeps 1 2)); [exact R1|done|]. eapply step_sleep; [vm_compute; reflexivity|done|]. by vm_compute. }
  assert (reachable 4 w_exit) as R3.
  { eapply (reach_step _ _ (Exits 2)); [exact R2| |eapply (step_exit _ 2 _ (Some 7)); [vm_compute; reflexivity|done|by vm_compute]].
    intros u y. intros Hy Hp. refine (only_child (Pthread 1 5 [] User) (Pthread 1 4 [5] (Asleep 5)) w_wait _ _ u y Hy Hp _); by vm_compute. }
  split; [exact R3|]. eapply (reach_step _ _ (Notifies 2)); [exact R3|done|]. eapply step_notify; [vm_compute; reflexivity|done|by vm_compute].
Qed.
Lemma records_are_alive_witness : ∃ w', exit_notify 2 true w_exit = Done (tt, w').
Proof. apply (records_are_alive 4 w_exit 2 (Pthread 1 5 [] (Exiting true)) (proj1 reach_told)). vm_compute. reflexivity. Defined.
Lemma child_wakes_parent_witness : ∃ v w'', wait_finish 1 5 w_told = Done (v, w'') ∧ history w_exit !! 2 = Some v.
Proof.
  apply (child_wakes_parent 4 w_exit 1 (Pthread 1 4 [5] (Asleep 5)) 5 (Process 0 true 7 true true 2) (Pthread 1 5 [] (Exiting true)) true w_told (proj1 reach_told)); try (vm_compute; reflexivity).
  eapply step_notify; [vm_compute; reflexivity|reflexivity|vm_compute; reflexivity].
Defined.

(** ** What goes wrong *)

(** The child ends between the parent's look at [all_list] and its mark: the child
    finds [is_waited] false and wakes nobody, and the parent sleeps for ever. *)
Definition l_check : world := after (wait_check 1 2) w_child.
Definition l_exit : world := after (exit_begin 2 (Some 7)) l_check.
Definition l_told : world := after (exit_notify 2 true) l_exit.
Definition l_end : world := after (exit_end 2) l_told.
Definition w_late : world := after (wait_mark 1 2 true) l_end.
Lemma wakeup_is_lost : reachable 4 w_late ∧ p_pc <$> threads w_late !! 1 = Some (Asleep 5) ∧ threads w_late !! 2 = None ∧ wait_finish 1 5 w_late = NoFuel.
Proof.
  split; [|by vm_compute].
  apply (reach_step _ l_end (Sleeps 1 2)); [|done|eapply step_sleep; [vm_compute; reflexivity|done|by vm_compute]].
  apply (reach_step _ l_told (Ends 2)); [|done|eapply step_end; [vm_compute; reflexivity|done|by vm_compute]].
  apply (reach_step _ l_exit (Notifies 2)); [|done|eapply step_notify; [vm_compute; reflexivity|done|by vm_compute]].
  apply (reach_step _ l_check (Exits 2)); [| |eapply (step_exit _ 2 _ (Some 7)); [vm_compute; reflexivity|done|by vm_compute]].
  - apply (reach_step _ w_child (Calls_wait 1 2)); [apply reach_child|done|]. by eapply step_check.
  - intros u y Hy Hp. refine (only_child (Pthread 1 5 [] User) (Pthread 1 4 [5] (Checked 2 true)) l_check _ _ u y Hy Hp _); by vm_compute.
Qed.
(** A process that exits before its child frees the record of the child, which
    the child then writes to. *)
Definition w_orphan : world := after (exit_notify 2 true) (after (exit_begin 2 (Some 0)) (after (process_execute 2 3 6 true) w_child)).
Lemma orphan_uses_freed_record : p_pc <$> threads w_orphan !! 3 = Some User ∧ exit_begin 3 (Some 0) w_orphan = Undef.
Proof. by vm_compute. Qed.
