(* ===== verification/Thread.v ===== *)
(** * Threads and the scheduler (src/pintos/src/threads/thread.c)

    The kernel as the [threads] configuration builds it ([USERPROG] and [VM]
    undefined).  A thread is named by the address of its page.  [struct list]s
    are sequences of the addresses of their elements, which is what
    [list_refines_sequence] says list.c provides; the link fields of a
    [struct thread] are kept as the name of the list [elem] is linked into, so
    that linking an element twice or unlinking one that is in no list is
    undefined, as it is in memory.

    [schedule] changes [current]: the code that follows it in a function runs
    in the thread that was switched to, which is at the same point of its own
    call of [schedule].  What the descheduled thread still has to do is not
    lost: Machine.v keeps it. *)

From S2P Require Import Prelude KList KListOps FixedPoint Vaddr.

Definition PRI_MIN : Z := 0.
Definition PRI_DEFAULT : Z := 31.
Definition PRI_MAX : Z := 63.
Definition TIME_SLICE : Z := 4.
Definition TIMER_FREQ : Z := 100.
Definition TID_ERROR : Z := -1.

Inductive thread_status : Type :=
  | THREAD_RUNNING
  | THREAD_READY
  | THREAD_BLOCKED
  | THREAD_DYING.
#[export] Instance thread_status_eq_dec : EqDecision thread_status.
Proof. solve_decision. Defined.

(** Semaphores: those of clients, the one inside a lock, and the one a thread
    that waits on a condition keeps on its stack. *)
Inductive sid : Type :=
  | UserSema (n : Z)
  | LockSema (lock : Z)
  | WaiterSema (t : Z).
#[export] Instance sid_eq_dec : EqDecision sid.
Proof. solve_decision. Defined.

(** Lists of threads. *)
Inductive qid : Type :=
  | ReadyList
  | MlfqsList (i : Z)
  | Waiters (s : sid).
#[export] Instance qid_eq_dec : EqDecision qid.
Proof. solve_decision. Defined.

Record thread : Type := Thread {
  tid : Z;  (* thread identifier *)
  status : thread_status;
  name : list Z;  (* at most 15 bytes *)
  stack : Z;  (* saved stack pointer *)
  priority : Z;  (* current, possibly donated *)
  elem : option qid;  (* the list [elem] is linked into *)
  priority_old : Z;  (* own priority *)
  all_locks : list Z;  (* locks held, oldest first *)
  sleep_ticks : Z;
  nice : Z;
  recent_cpu : Z;  (* 17.14 fixed point *)
}.
Definition set_tid (v : Z) (s : thread) : thread :=
  Thread v (status s) (name s) (stack s) (priority s) (elem s) (priority_old s) (all_locks s) (sleep_ticks s) (nice s) (recent_cpu s).
Definition set_status (v : thread_status) (s : thread) : thread :=
  Thread (tid s) v (name s) (stack s) (priority s) (elem s) (priority_old s) (all_locks s) (sleep_ticks s) (nice s) (recent_cpu s).
Definition set_name (v : list Z) (s : thread) : thread :=
  Thread (tid s) (status s) v (stack s) (priority s) (elem s) (priority_old s) (all_locks s) (sleep_ticks s) (nice s) (recent_cpu s).
Definition set_stack (v : Z) (s : thread) : thread :=
  Thread (tid s) (status s) (name s) v (priority s) (elem s) (priority_old s) (all_locks s) (sleep_ticks s) (nice s) (recent_cpu s).
Definition set_priority (v : Z) (s : thread) : thread :=
  Thread (tid s) (status s) (name s) (stack s) v (elem s) (priority_old s) (all_locks s) (sleep_ticks s) (nice s) (recent_cpu s).
Definition set_elem (v : option qid) (s : thread) : thread :=
  Thread (tid s) (status s) (name s) (stack s) (priority s) v (priority_old s) (all_locks s) (sleep_ticks s) (nice s) (recent_cpu s).
Definition set_priority_old (v : Z) (s : thread) : thread :=
  Thread (tid s) (status s) (name s) (stack s) (priority s) (elem s) v (all_locks s) (sleep_ticks s) (nice s) (recent_cpu s).
Definition set_all_locks (v : list Z) (s : thread) : thread :=
  Thread (tid s) (status s) (name s) (stack s) (priority s) (elem s) (priority_old s) v (sleep_ticks s) (nice s) (recent_cpu s).
Definition set_sleep_ticks (v : Z) (s : thread) : thread :=
  Thread (tid s) (status s) (name s) (stack s) (priority s) (elem s) (priority_old s) (all_locks s) v (nice s) (recent_cpu s).
Definition set_nice (v : Z) (s : thread) : thread :=
  Thread (tid s) (status s) (name s) (stack s) (priority s) (elem s) (priority_old s) (all_locks s) (sleep_ticks s) v (recent_cpu s).
Definition set_recent_cpu (v : Z) (s : thread) : thread :=
  Thread (tid s) (status s) (name s) (stack s) (priority s) (elem s) (priority_old s) (all_locks s) (sleep_ticks s) (nice s) v.

Record kernel : Type := Kernel {
  threads : gmap Z thread;  (* thread structures in memory, by address *)
  current : Z;  (* the thread the CPU runs *)
  intr_on : bool;  (* interrupt flag *)
  in_external_intr : bool;
  yield_on_return : bool;
  queues : qid → list Z;  (* run queues and semaphore wait lists *)
  all_list : list Z;
  lock_list : list Z;
  sema_value : sid → Z;
  holder : Z → Z;  (* of each lock, NULL for none *)
  cond_waiters : Z → list Z;  (* of each condition: the threads whose waiter is queued *)
  idle_thread : Z;
  initial_thread : Z;
  thread_mlfqs : bool;
  load_avg : Z;
  thread_ticks : Z;
  idle_ticks : Z;
  kernel_ticks : Z;
  ticks : Z;  (* timer ticks since boot *)
  next_tid : Z;
}.
Definition set_threads (v : gmap Z thread) (s : kernel) : kernel :=
  Kernel v (current s) (intr_on s) (in_external_intr s) (yield_on_return s) (queues s) (all_list s) (lock_list s) (sema_value s) (holder s) (cond_waiters s) (idle_thread s) (initial_thread s) (thread_mlfqs s) (load_avg s) (thread_ticks s) (idle_ticks s) (kernel_ticks s) (ticks s) (next_tid s).
Definition set_current (v : Z) (s : kernel) : kernel :=
  Kernel (threads s) v (intr_on s) (in_external_intr s) (yield_on_return s) (queues s) (all_list s) (lock_list s) (sema_value s) (holder s) (cond_waiters s) (idle_thread s) (initial_thread s) (thread_mlfqs s) (load_avg s) (thread_ticks s) (idle_ticks s) (kernel_ticks s) (ticks s) (next_tid s).
Definition set_intr_on (v : bool) (s : kernel) : kernel :=
  Kernel (threads s) (current s) v (in_external_intr s) (yield_on_return s) (queues s) (all_list s) (lock_list s) (sema_value s) (holder s) (cond_waiters s) (idle_thread s) (initial_thread s) (thread_mlfqs s) (load_avg s) (thread_ticks s) (idle_ticks s) (kernel_ticks s) (ticks s) (next_tid s).
Definition set_in_external_intr (v : bool) (s : kernel) : kernel :=
  Kernel (threads s) (current s) (intr_on s) v (yield_on_return s) (queues s) (all_list s) (lock_list s) (sema_value s) (holder s) (cond_waiters s) (idle_thread s) (initial_thread s) (thread_mlfqs s) (load_avg s) (thread_ticks s) (idle_ticks s) (kernel_ticks s) (ticks s) (next_tid s).
Definition set_yield_on_return (v : bool) (s : kernel) : kernel :=
  Kernel (threads s) (current s) (intr_on s) (in_external_intr s) v (queues s) (all_list s) (lock_list s) (sema_value s) (holder s) (cond_waiters s) (idle_thread s) (initial_thread s) (thread_mlfqs s) (load_avg s) (thread_ticks s) (idle_ticks s) (kernel_ticks s) (ticks s) (next_tid s).
Definition set_queues (v : qid → list Z) (s : kernel) : kernel :=
  Kernel (threads s) (current s) (intr_on s) (in_external_intr s) (yield_on_return s) v (all_list s) (lock_list s) (sema_value s) (holder s) (cond_waiters s) (idle_thread s) (initial_thread s) (thread_mlfqs s) (load_avg s) (thread_ticks s) (idle_ticks s) (kernel_ticks s) (ticks s) (next_tid s).
Definition set_all_list (v : list Z) (s : kernel) : kernel :=
  Kernel (threads s) (current s) (intr_on s) (in_external_intr s) (yield_on_return s) (queues s) v (lock_list s) (sema_value s) (holder s) (cond_waiters s) (idle_thread s) (initial_thread s) (thread_mlfqs s) (load_avg s) (thread_ticks s) (idle_ticks s) (kernel_ticks s) (ticks s) (next_tid s).
Definition set_lock_list (v : list Z) (s : kernel) : kernel :=
  Kernel (threads s) (current s) (intr_on s) (in_external_intr s) (yield_on_return s) (queues s) (all_list s) v (sema_value s) (holder s) (cond_waiters s) (idle_thread s) (initial_thread s) (thread_mlfqs s) (load_avg s) (thread_ticks s) (idle_ticks s) (kernel_ticks s) (ticks s) (next_tid s).
Definition set_sema_value (v : sid → Z) (s : kernel) : kernel :=
  Kernel (threads s) (current s) (intr_on s) (in_external_intr s) (yield_on_return s) (queues s) (all_list s) (lock_list s) v (holder s) (cond_waiters s) (idle_thread s) (initial_thread s) (thread_mlfqs s) (load_avg s) (thread_ticks s) (idle_ticks s) (kernel_ticks s) (ticks s) (next_tid s).
Definition set_holder (v : Z → Z) (s : kernel) : kernel :=
  Kernel (threads s) (current s) (intr_on s) (in_external_intr s) (yield_on_return s) (queues s) (all_list s) (lock_list s) (sema_value s) v (cond_waiters s) (idle_thread s) (initial_thread s) (thread_mlfqs s) (load_avg s) (thread_ticks s) (idle_ticks s) (kernel_ticks s) (ticks s) (next_tid s).
Definition set_cond_waiters (v : Z → list Z) (s : kernel) : kernel :=
  Kernel (threads s) (current s) (intr_on s) (in_external_intr s) (yield_on_return s) (queues s) (all_list s) (lock_list s) (sema_value s) (holder s) v (idle_thread s) (initial_thread s) (thread_mlfqs s) (load_avg s) (thread_ticks s) (idle_ticks s) (kernel_ticks s) (ticks s) (next_tid s).
Definition set_idle_thread (v : Z) (s : kernel) : kernel :=
  Kernel (threads s) (current s) (intr_on s) (in_external_intr s) (yield_on_return s) (queues s) (all_list s) (lock_list s) (sema_value s) (holder s) (cond_waiters s) v (initial_thread s) (thread_mlfqs s) (load_avg s) (thread_ticks s) (idle_ticks s) (kernel_ticks s) (ticks s) (next_tid s).
Definition set_initial_thread (v : Z) (s : kernel) : kernel :=
  Kernel (threads s) (current s) (intr_on s) (in_external_intr s) (yield_on_return s) (queues s) (all_list s) (lock_list s) (sema_value s) (holder s) (cond_waiters s) (idle_thread s) v (thread_mlfqs s) (load_avg s) (thread_ticks s) (idle_ticks s) (kernel_ticks s) (ticks s) (next_tid s).
Definition set_thread_mlfqs (v : bool) (s : kernel) : kernel :=
  Kernel (threads s) (current s) (intr_on s) (in_external_intr s) (yield_on_return s) (queues s) (all_list s) (lock_list s) (sema_value s) (holder s) (cond_waiters s) (idle_thread s) (initial_thread s) v (load_avg s) (thread_ticks s) (idle_ticks s) (kernel_ticks s) (ticks s) (next_tid s).
Definition set_load_avg (v : Z) (s : kernel) : kernel :=
  Kernel (threads s) (current s) (intr_on s) (in_external_intr s) (yield_on_return s) (queues s) (all_list s) (lock_list s) (sema_value s) (holder s) (cond_waiters s) (idle_thread s) (initial_thread s) (thread_mlfqs s) v (thread_ticks s) (idle_ticks s) (kernel_ticks s) (ticks s) (next_tid s).
Definition set_thread_ticks (v : Z) (s : kernel) : kernel :=
  Kernel (threads s) (current s) (intr_on s) (in_external_intr s) (yield_on_return s) (queues s) (all_list s) (lock_list s) (sema_value s) (holder s) (cond_waiters s) (idle_thread s) (initial_thread s) (thread_mlfqs s) (load_avg s) v (idle_ticks s) (kernel_ticks s) (ticks s) (next_tid s).
Definition set_idle_ticks (v : Z) (s : kernel) : kernel :=
  Kernel (threads s) (current s) (intr_on s) (in_external_intr s) (yield_on_return s) (queues s) (all_list s) (lock_list s) (sema_value s) (holder s) (cond_waiters s) (idle_thread s) (initial_thread s) (thread_mlfqs s) (load_avg s) (thread_ticks s) v (kernel_ticks s) (ticks s) (next_tid s).
Definition set_kernel_ticks (v : Z) (s : kernel) : kernel :=
  Kernel (threads s) (current s) (intr_on s) (in_external_intr s) (yield_on_return s) (queues s) (all_list s) (lock_list s) (sema_value s) (holder s) (cond_waiters s) (idle_thread s) (initial_thread s) (thread_mlfqs s) (load_avg s) (thread_ticks s) (idle_ticks s) v (ticks s) (next_tid s).
Definition set_ticks (v : Z) (s : kernel) : kernel :=
  Kernel (threads s) (current s) (intr_on s) (in_external_intr s) (yield_on_return s) (queues s) (all_list s) (lock_list s) (sema_value s) (holder s) (cond_waiters s) (idle_thread s) (initial_thread s) (thread_mlfqs s) (load_avg s) (thread_ticks s) (idle_ticks s) (kernel_ticks s) v (next_tid s).
Definition set_next_tid (v : Z) (s : kernel) : kernel :=
  Kernel (threads s) (current s) (intr_on s) (in_external_intr s) (yield_on_return s) (queues s) (all_list s) (lock_list s) (sema_value s) (holder s) (cond_waiters s) (idle_thread s) (initial_thread s) (thread_mlfqs s) (load_avg s) (thread_ticks s) (idle_ticks s) (kernel_ticks s) (ticks s) v.

(** ** Access to the state *)

Definition fupd {A} `{EqDecision A} {B} (f : A → B) (a : A) (b : B) : A → B :=
  λ x, if decide (x = a) then b else f x.

(** [*t]. *)
Definition thread_at (t : Z) : M kernel thread := λ k,
  match threads k !! t with Some th => Done (th, k) | None => Undef end.
Definition modify_thread (t : Z) (f : thread → thread) : M kernel unit :=
  th ← thread_at t; modify (λ k, set_threads (<[t := f th]> (threads k)) k).

Definition is_thread (t : Z) : M kernel bool :=
  gets (λ k, bool_decide (is_Some (threads k !! t))).

(** ** Interrupts (src/pintos/src/threads/interrupt.c) *)

Definition intr_get_level : M kernel bool := gets intr_on.
Definition intr_context : M kernel bool := gets in_external_intr.
Definition intr_enable : M kernel bool :=
  old_level ← intr_get_level;
  c ← intr_context;
  assert (negb c);;
  modify (set_intr_on true);;
  mret old_level.
Definition intr_disable : M kernel bool :=
  old_level ← intr_get_level;
  modify (set_intr_on false);;
  mret old_level.
Definition intr_set_level (level : bool) : M kernel bool :=
  if level then intr_enable else intr_disable.
Definition intr_yield_on_return : M kernel unit :=
  c ← intr_context;
  assert c;;
  modify (set_yield_on_return true).

(** ** Lists of threads *)

(** [list_push_back (q, &t->elem)]: the node must not be linked already, and an
    index into [mlfqs_list] must be in range. *)
Definition queue_ok (q : qid) : bool :=
  match q with MlfqsList i => (PRI_MIN <=? i) && (i <=? PRI_MAX) | _ => true end.
Definition push_elem (q : qid) (t : Z) : M kernel unit :=
  th ← thread_at t;
  if bool_decide (elem th = None) && queue_ok q then
    modify_thread t (set_elem (Some q));;
    modify (λ k, set_queues (fupd (queues k) q (queues k q ++ [t])) k)
  else undefined.
(** [list_remove (&t->elem)]. *)
Definition remove_elem (t : Z) : M kernel unit :=
  th ← thread_at t;
  match elem th with
  | None => undefined
  | Some q =>
      modify_thread t (set_elem None);;
      modify (λ k, set_queues (fupd (queues k) q (filter (λ x, x ≠ t) (queues k q))) k)
  end.

Definition prio (k : kernel) (t : Z) : Z :=
  match threads k !! t with Some th => priority th | None => 0 end.

(** [less_priority] with [sema_waiter_priority]. *)
Definition less_priority (k : kernel) (a b : Z) : bool := prio k a <? prio k b.

(** [list_max (q, less_priority, sema_waiter_priority)] for a non-empty list. *)
Definition max_elem (q : qid) : M kernel (option Z) :=
  gets (λ k, match queues k q with
             | [] => None
             | t :: ts => Some (argmax (less_priority k) t ts)
             end).

(** ** Threads *)

Definition thread_current : M kernel Z :=
  t ← gets current;
  b ← is_thread t;
  assert b;;
  th ← thread_at t;
  assert (bool_decide (status th = THREAD_RUNNING));;
  mret t.

Definition thread_unblock (t : Z) : M kernel unit :=
  b ← is_thread t;
  assert b;;
  old_level ← intr_disable;
  th ← thread_at t;
  assert (bool_decide (status th = THREAD_BLOCKED));;
  mlfqs ← gets thread_mlfqs;
  (if mlfqs : bool then push_elem (MlfqsList (priority th)) t else push_elem ReadyList t);;
  modify_thread t (set_status THREAD_READY);;
  intr_set_level old_level;;
  mret tt.

(** [for (i = PRI_MIN; i <= PRI_MAX; i++)] over [mlfqs_list[PRI_MAX - i]]: the
    index of the first list that is not empty, [n] lists being left. *)
Fixpoint first_nonempty (n : nat) (k : kernel) : option Z :=
  match n with
  | O => None
  | S n' =>
      if bool_decide (queues k (MlfqsList (Z.of_nat n')) = []) then first_nonempty n' k
      else Some (Z.of_nat n')
  end.

Definition next_thread_to_run : M kernel Z :=
  mlfqs ← gets thread_mlfqs;
  if mlfqs : bool then
    old_level ← intr_disable;
    i ← gets (first_nonempty 64);
    match i with
    | None =>
        intr_set_level old_level;;
        gets idle_thread
    | Some i =>
        q ← gets (λ k, queues k (MlfqsList i));
        match q with
        | [] => undefined
        | max :: _ =>
            remove_elem max;;
            intr_set_level old_level;;
            mret max
        end
    end
  else
    max ← max_elem ReadyList;
    match max with
    | None => gets idle_thread
    | Some max =>
        old_level ← intr_disable;
        remove_elem max;;
        intr_set_level old_level;;
        mret max
    end.

Definition thread_schedule_tail (prev : Z) : M kernel unit :=
  cur ← gets current;
  l ← intr_get_level;
  assert (negb l);;
  modify_thread cur (set_status THREAD_RUNNING);;
  modify (set_thread_ticks 0);;
  if prev =? NULL then mret tt else
  th ← thread_at prev;
  init ← gets initial_thread;
  if bool_decide (status th = THREAD_DYING) && negb (prev =? init) then
    assert (negb (prev =? cur));;
    (* palloc_free_page (prev) *)
    modify (λ k, set_threads (delete prev (threads k)) k)
  else mret tt.

Definition schedule : M kernel unit :=
  cur ← gets current;
  next ← next_thread_to_run;
  l ← intr_get_level;
  assert (negb l);;
  th ← thread_at cur;
  assert (negb (bool_decide (status th = THREAD_RUNNING)));;
  b ← is_thread next;
  assert b;;
  if cur =? next then thread_schedule_tail NULL else
  (* prev = switch_threads (cur, next) *)
  modify (set_current next);;
  thread_schedule_tail cur.

Definition thread_block : M kernel unit :=
  c ← intr_context;
  assert (negb c);;
  l ← intr_get_level;
  assert (negb l);;
  t ← thread_current;
  modify_thread t (set_status THREAD_BLOCKED);;
  schedule.

Definition thread_yield : M kernel unit :=
  cur ← thread_current;
  c ← intr_context;
  assert (negb c);;
  old_level ← intr_disable;
  idle ← gets idle_thread;
  mlfqs ← gets thread_mlfqs;
  (if negb (cur =? idle) then
     th ← thread_at cur;
     if mlfqs : bool then push_elem (MlfqsList (priority th)) cur else push_elem ReadyList cur
   else mret tt);;
  modify_thread cur (set_status THREAD_READY);;
  schedule;;
  intr_set_level old_level;;
  mret tt.

Definition thread_exit : M kernel unit :=
  c ← intr_context;
  assert (negb c);;
  intr_disable;;
  t ← thread_current;
  modify (λ k, set_all_list (filter (λ x, x ≠ t) (all_list k)) k);;
  t ← thread_current;
  modify_thread t (set_status THREAD_DYING);;
  schedule.

(** [init_thread], on a page that was zeroed. *)
Definition init_thread (t : Z) (nm : list Z) (pri : Z) : M kernel unit :=
  assert (negb (t =? NULL));;
  assert ((PRI_MIN <=? pri) && (pri <=? PRI_MAX));;
  modify (λ k, set_threads
    (<[t := Thread 0 THREAD_BLOCKED (take 15 nm) (t + PGSIZE) pri None pri [] 0 0 0]> (threads k)) k);;
  old_level ← intr_disable;
  modify (λ k, set_all_list (all_list k ++ [t]) k);;
  intr_set_level old_level;;
  mret tt.

Definition alloc_frame (t size : Z) : M kernel Z :=
  b ← is_thread t;
  assert b;;
  assert (size `mod` 4 =? 0);;
  modify_thread t (λ th, set_stack (stack th - size) th);;
  th ← thread_at t;
  mret (stack th).

(** [thread_create] up to the call of [allocate_tid]; [page] is what
    [palloc_get_page (PAL_ZERO)] returned. *)
Definition thread_create_init (page : Z) (nm : list Z) (pri : Z) : M kernel bool :=
  if page =? NULL then mret false else
  init_thread page nm pri;;
  mret true.

(** [tid = next_tid++] of [allocate_tid], and its use in [thread_create]. *)
Definition thread_create_tid (t : Z) : M kernel unit :=
  tid ← gets next_tid;
  modify (set_next_tid (tid + 1));;
  modify_thread t (set_tid tid).

(** The rest of [thread_create]: the frames of [kernel_thread], [switch_entry]
    and [switch_threads] of a thread nobody else knows yet, which then enters the run queue. *)
Definition thread_create_start (t : Z) : M kernel unit :=
  alloc_frame t 12;;
  alloc_frame t 4;;
  alloc_frame t 28;;
  thread_unblock t.
(** The switch to it if it is more urgent; it may have run, and exited, before. *)
Definition thread_create_yield (t : Z) : M kernel unit :=
  th ← thread_at t;
  cur ← thread_current;
  cth ← thread_at cur;
  if priority cth <? priority th then thread_yield else mret tt.

(** ** Sleeping and the timer (src/pintos/src/devices/timer.c) *)

Definition wake_threads (t : Z) : M kernel unit :=
  b ← is_thread t;
  assert b;;
  th ← thread_at t;
  if bool_decide (status th = THREAD_BLOCKED) then
    if 0 <? sleep_ticks th then
      modify_thread t (set_sleep_ticks (sleep_ticks th - 1));;
      if sleep_ticks th - 1 =? 0 then thread_unblock t else mret tt
    else mret tt
  else mret tt.

Fixpoint for_all (func : Z → M kernel unit) (ts : list Z) : M kernel unit :=
  match ts with
  | [] => mret tt
  | t :: ts => func t;; for_all func ts
  end.

Definition thread_foreach (func : Z → M kernel unit) : M kernel unit :=
  l ← intr_get_level;
  assert (negb l);;
  ts ← gets all_list;
  for_all func ts.

(** ** The multilevel feedback queue scheduler *)

(** Threads that are ready or running, the idle thread excepted. *)
Definition is_active (k : kernel) (t : Z) : bool :=
  match threads k !! t with
  | Some th => negb (t =? idle_thread k) &&
      (bool_decide (status th = THREAD_RUNNING) || bool_decide (status th = THREAD_READY))
  | None => false
  end.
Definition active_count (k : kernel) : Z := zlen (filter (λ t, is_active k t = true) (all_list k)).

Definition thread_active : M kernel Z := gets active_count.

Definition next_load_avg (load active : Z) : Z :=
  s32 (FMUL_F (FDIV_I (TO_FP 59) 60) load + FDIV_I (TO_FP 1) 60 * active).

Definition thread_set_load_avg : M kernel unit :=
  l ← intr_get_level;
  assert (negb l);;
  active ← gets active_count;
  modify (λ k, set_load_avg (next_load_avg (load_avg k) active) k).

Definition next_recent_cpu (load recent nic : Z) : Z :=
  s64 (FADD_I (FMUL_F (FDIV_F (s32 (load * 2)) (s32 (FADD_I (s32 (load * 2)) 1))) recent) nic).

Definition thread_refresh_recent_cpu (t : Z) : M kernel unit :=
  b ← is_thread t;
  assert b;;
  load ← gets load_avg;
  modify_thread t (λ th, set_recent_cpu (next_recent_cpu load (recent_cpu th) (nice th)) th).

Definition next_priority (recent nic : Z) : Z :=
  let p := s32 (PRI_MAX - nic * 2 - TO_INT (recent `quot` 4)) in
  if p <? PRI_MIN then PRI_MIN else if PRI_MAX <? p then PRI_MAX else p.

Definition thread_refresh_priority (t : Z) : M kernel unit :=
  b ← is_thread t;
  assert b;;
  th ← thread_at t;
  let p := next_priority (recent_cpu th) (nice th) in
  modify_thread t (set_priority p);;
  if bool_decide (status th = THREAD_READY) && negb (p =? priority th) then
    old_level ← intr_disable;
    remove_elem t;;
    push_elem (MlfqsList p) t;;
    intr_set_level old_level;;
    mret tt
  else mret tt.

Definition unless_idle (func : Z → M kernel unit) (t : Z) : M kernel unit :=
  idle ← gets idle_thread;
  if negb (t =? idle) then func t else mret tt.

Definition thread_tick : M kernel unit :=
  t ← thread_current;
  now ← gets ticks;
  idle ← gets idle_thread;
  (if t =? idle then modify (λ k, set_idle_ticks (s64 (idle_ticks k + 1)) k)
   else modify (λ k, set_kernel_ticks (s64 (kernel_ticks k + 1)) k));;
  thread_foreach wake_threads;;
  mlfqs ← gets thread_mlfqs;
  (if mlfqs : bool then
     modify_thread t (λ th, set_recent_cpu (s64 (FADD_I (recent_cpu th) 1)) th);;
     (if now `rem` TIMER_FREQ =? 0 then
        thread_set_load_avg;;
        ts ← gets all_list;
        for_all (unless_idle thread_refresh_recent_cpu) ts
      else mret tt);;
     (if now `rem` TIME_SLICE =? 0 then
        ts ← gets all_list;
        for_all (unless_idle thread_refresh_priority) ts
      else mret tt);;
     intr_yield_on_return
   else mret tt);;
  modify (λ k, set_thread_ticks (u32 (thread_ticks k + 1)) k);;
  n ← gets thread_ticks;
  if TIME_SLICE <=? n then intr_yield_on_return else mret tt.

Definition timer_interrupt : M kernel unit :=
  modify (λ k, set_ticks (s64 (ticks k + 1)) k);;
  thread_tick.

(** [intr_handler] for the timer's vector: the CPU enters it with interrupts
    off and its return restores the interrupt flag. *)
Definition intr_handler_timer : M kernel unit :=
  modify (set_intr_on false);;
  l ← intr_get_level;
  assert (negb l);;
  c ← intr_context;
  assert (negb c);;
  modify (set_in_external_intr true);;
  modify (set_yield_on_return false);;
  timer_interrupt;;
  l ← intr_get_level;
  assert (negb l);;
  c ← intr_context;
  assert c;;
  modify (set_in_external_intr false);;
  y ← gets yield_on_return;
  (if y : bool then thread_yield else mret tt);;
  modify (set_intr_on true).

Definition timer_sleep (n : Z) : M kernel unit :=
  l ← intr_get_level;
  assert l;;
  t ← thread_current;
  if 0 <? n then
    modify_thread t (set_sleep_ticks n);;
    old_level ← intr_disable;
    thread_block;;
    intr_set_level old_level;;
    mret tt
  else mret tt.

(** ** Priorities *)

(** The priority found at the greatest element of a semaphore's wait list.
    [list_max] of an empty list is its tail, and [list_entry] then points into
    no thread: the word read is the one 12 bytes before the tail, which in a
    [struct semaphore] is [value]. *)
Definition waiters_priority (s : sid) : M kernel Z :=
  max ← max_elem (Waiters s);
  match max with
  | Some t => th ← thread_at t; mret (priority th)
  | None => gets (λ k, sema_value k s)
  end.

Fixpoint donate_loop (again : M kernel unit) (ls : list Z) : M kernel unit :=
  match ls with
  | [] => mret tt
  | l :: ls =>
      p ← waiters_priority (LockSema l);
      h ← gets (λ k, holder k l);
      th ← thread_at h;
      (if priority th <? p then modify_thread h (set_priority p);; again else mret tt);;
      donate_loop again ls
  end.

Fixpoint reset_donate_priority (fuel : nat) : M kernel unit :=
  match fuel with
  | O => out_of_fuel
  | S fuel =>
      old_level ← intr_disable;
      ls ← gets lock_list;
      donate_loop (reset_donate_priority fuel) ls;;
      intr_set_level old_level;;
      mret tt
  end.

(** The assignments of [thread_set_priority]; true if donation is recalculated. *)
Definition thread_set_priority (new_priority : Z) : M kernel bool :=
  t ← thread_current;
  modify_thread t (set_priority new_priority);;
  modify_thread t (set_priority_old new_priority);;
  gets (λ k, negb (thread_mlfqs k)).
(** What follows [reset_donate_priority]. *)
Definition thread_set_priority_yield : M kernel unit :=
  t ← thread_current;
  max ← max_elem ReadyList;
  match max with
  | None => undefined
  | Some max =>
      mth ← thread_at max;
      th ← thread_at t;
      if priority th <? priority mth then thread_yield else mret tt
  end.

Definition thread_get_priority : M kernel Z :=
  t ← thread_current; th ← thread_at t; mret (priority th).

(** [thread_set_nice] up to the recalculation of [recent_cpu] and of the priority. *)
Definition thread_set_nice (n : Z) : M kernel unit :=
  assert ((-20 <=? n) && (n <=? 20));;
  t ← thread_current;
  modify_thread t (set_nice n).
(** What follows it. *)
Definition thread_set_nice_yield : M kernel unit :=
  t ← thread_current;
  i ← gets (first_nonempty 64);
  let max_priority := match i with Some i => PRI_MAX - i | None => 0 end in
  th ← thread_at t;
  if priority th <? max_priority then thread_yield else mret tt.

Definition thread_get_nice : M kernel Z :=
  t ← thread_current; th ← thread_at t; mret (nice th).
Definition thread_get_load_avg : M kernel Z := gets (λ k, s32 (TO_INT (s32 (load_avg k * 100)))).
Definition thread_get_recent_cpu : M kernel Z :=
  t ← thread_current; th ← thread_at t; mret (s32 (ROUND_TO_INT (s64 (recent_cpu th * 100)))).

(** The thread with a given identifier, NULL if there is none. *)
Fixpoint find_tid (tid' : Z) (ts : list Z) : M kernel Z :=
  match ts with
  | [] => mret NULL
  | t :: ts => th ← thread_at t; if tid th =? tid' then mret t else find_tid tid' ts
  end.
Definition get_thread (tid' : Z) : M kernel Z :=
  ts ← gets all_list; find_tid tid' ts.

Definition append_lock_list (lock : Z) : M kernel unit :=
  assert (negb (lock =? NULL));;
  old_level ← intr_disable;
  ls ← gets lock_list;
  (if bool_decide (lock ∈ ls) then undefined
   else modify (set_lock_list (ls ++ [lock])));;
  intr_set_level old_level;;
  mret tt.
Definition remove_lock_list (lock : Z) : M kernel unit :=
  assert (negb (lock =? NULL));;
  old_level ← intr_disable;
  ls ← gets lock_list;
  (if bool_decide (lock ∈ ls) then modify (set_lock_list (filter (λ l, l ≠ lock) ls))
   else undefined);;
  intr_set_level old_level;;
  mret tt.
