(* ===== verification/Interrupt.v ===== *)
(** * Interrupts: gates, registration and dispatch
    (src/pintos/src/threads/interrupt.c, and the registrations of
    src/pintos/src/userprog/exception.c, src/pintos/src/userprog/syscall.c and
    the devices)

    The state adds to the kernel of Thread.v the tables of interrupt.c and what has
    been written to the interrupt controllers.  The entry points in assembly are
    parameters, an address for each vector; so is what a handler does. *)

From Stdlib Require Import String.
From S2P Require Import Prelude Segments Thread.

Definition PIC0_CTRL : Z := 32.
Definition PIC0_DATA : Z := 33.
Definition PIC1_CTRL : Z := 160.
Definition PIC1_DATA : Z := 161.
Definition INTR_CNT : Z := 256.
(** The functions the kernel registers; the two of ide.c are one function. *)
Inductive intr_handler_func : Type :=
  | timer_irq | keyboard_irq | serial_irq | ide_irq | kill | page_fault_handler | syscall_entry.
Record tables := Tables {
  kern : kernel;
  idt : list Z;
  intr_handlers : list (option intr_handler_func);
  intr_names : list string;
  unexpected_cnt : list Z;
  idtr : Z;  (* operand of the last [lidt] *)
  pic : list (Z * Z);  (* bytes written to the controllers' ports *)
  messages : list Z }.  (* vectors reported as unexpected *)
Definition set_kern (k : kernel) (s : tables) : tables := Tables k (idt s) (intr_handlers s) (intr_names s) (unexpected_cnt s) (idtr s) (pic s) (messages s).
Definition set_idt (v : list Z) (s : tables) : tables := Tables (kern s) v (intr_handlers s) (intr_names s) (unexpected_cnt s) (idtr s) (pic s) (messages s).
Definition set_intr_handlers (v : list (option intr_handler_func)) (s : tables) : tables :=
  Tables (kern s) (idt s) v (intr_names s) (unexpected_cnt s) (idtr s) (pic s) (messages s).
Definition set_intr_names (v : list string) (s : tables) : tables := Tables (kern s) (idt s) (intr_handlers s) v (unexpected_cnt s) (idtr s) (pic s) (messages s).
Definition set_unexpected_cnt (v : list Z) (s : tables) : tables := Tables (kern s) (idt s) (intr_handlers s) (intr_names s) v (idtr s) (pic s) (messages s).
Definition set_idtr (v : Z) (s : tables) : tables := Tables (kern s) (idt s) (intr_handlers s) (intr_names s) (unexpected_cnt s) v (pic s) (messages s).
Definition add_pic (v : list (Z * Z)) (s : tables) : tables := Tables (kern s) (idt s) (intr_handlers s) (intr_names s) (unexpected_cnt s) (idtr s) (pic s ++ v) (messages s).
Definition add_message (v : Z) (s : tables) : tables := Tables (kern s) (idt s) (intr_handlers s) (intr_names s) (unexpected_cnt s) (idtr s) (pic s) (messages s ++ [v]).
Definition on_kern {A} (m : M kernel A) : M tables A := λ s, '(a, k) ← m (kern s); Done (a, set_kern k s).
Definition outb (port value : Z) : M tables unit := modify (add_pic [(port, value)]).

(** ** Gates *)

Definition make_gate (function dpl type : Z) : outcome Z :=
  ASSERT (negb (function =? 0));;
  ASSERT ((0 <=? dpl) && (dpl <=? 3));;
  ASSERT ((0 <=? type) && (type <=? 15));;
  let e0 := Z.lor (Z.land function 65535) (Z.shiftl SEL_KCSEG 16) in
  let e1 := Z.lor (Z.lor (Z.lor (Z.lor (Z.land function 4294901760) (Z.shiftl 1 15)) (Z.shiftl dpl 13)) (Z.shiftl 0 12)) (Z.shiftl type 8) in
  Done (Z.lor e0 (Z.shiftl e1 32)).
Definition make_intr_gate (function dpl : Z) : outcome Z := make_gate function dpl 14.
Definition make_trap_gate (function dpl : Z) : outcome Z := make_gate function dpl 15.
Definition make_idtr_operand (limit base : Z) : Z := Z.lor limit (Z.shiftl base 16).

Section interrupts.
(** The entry point of each vector, the address of [idt], and the effect of a handler. *)
Context (intr_stubs : Z → Z) (idt_base : Z) (call : intr_handler_func → M tables unit).

(** ** Registration *)

Definition pic_init : M tables unit :=
  outb PIC0_DATA 255;; outb PIC1_DATA 255;;
  outb PIC0_CTRL 17;; outb PIC0_DATA 32;; outb PIC0_DATA 4;; outb PIC0_DATA 1;;
  outb PIC1_CTRL 17;; outb PIC1_DATA 40;; outb PIC1_DATA 2;; outb PIC1_DATA 1;;
  outb PIC0_DATA 0;; outb PIC1_DATA 0.
(** The loop of [intr_init], from [i] on. *)
Fixpoint init_idt (n : nat) (i : Z) : M tables unit :=
  match n with
  | O => mret tt
  | S n => g ← lift (make_intr_gate (intr_stubs i) 0); t ← gets idt; t ← lift (wr t i g); modify (set_idt t);; init_idt n (i + 1)
  end.
Definition exception_names : list (Z * string) :=
  [(0, "#DE Divide Error"); (1, "#DB Debug Exception"); (2, "NMI Interrupt"); (3, "#BP Breakpoint Exception"); (4, "#OF Overflow Exception");
   (5, "#BR BOUND Range Exceeded Exception"); (6, "#UD Invalid Opcode Exception"); (7, "#NM Device Not Available Exception");
   (8, "#DF Double Fault Exception"); (9, "Coprocessor Segment Overrun"); (10, "#TS Invalid TSS Exception"); (11, "#NP Segment Not Present");
   (12, "#SS Stack Fault Exception"); (13, "#GP General Protection Exception"); (14, "#PF Page-Fault Exception");
   (16, "#MF x87 FPU Floating-Point Error"); (17, "#AC Alignment Check Exception"); (18, "#MC Machine-Check Exception");
   (19, "#XF SIMD Floating-Point Exception")]%string.
Definition init_names : M tables unit :=
  modify (set_intr_names (foldl (λ names e, names@[e.1 := e.2]) (replicate (Z.to_nat INTR_CNT) "unknown"%string) exception_names)).
Definition intr_init : M tables unit :=
  pic_init;; init_idt (Z.to_nat INTR_CNT) 0;; modify (set_idtr (make_idtr_operand (8 * INTR_CNT - 1) idt_base));; init_names.

Definition register_handler (vec_no dpl : Z) (level : bool) (handler : intr_handler_func) (name : string) : M tables unit :=
  hs ← gets intr_handlers;
  h ← lift (rd hs vec_no); assert (match h with None => true | Some _ => false end);;
  g ← lift ((if level then make_trap_gate else make_intr_gate) (intr_stubs vec_no) dpl);
  t ← gets idt; t ← lift (wr t vec_no g); modify (set_idt t);;
  hs ← lift (wr hs vec_no (Some handler)); modify (set_intr_handlers hs);;
  ns ← gets intr_names; ns ← lift (wr ns vec_no name); modify (set_intr_names ns).
Definition intr_register_ext (vec_no : Z) (handler : intr_handler_func) (name : string) : M tables unit :=
  assert ((32 <=? vec_no) && (vec_no <=? 47));; register_handler vec_no 0 false handler name.
Definition intr_register_int (vec_no dpl : Z) (level : bool) (handler : intr_handler_func) (name : string) : M tables unit :=
  assert ((vec_no <? 32) || (47 <? vec_no));; register_handler vec_no dpl level handler name.

Definition exception_init : M tables unit :=
  intr_register_int 3 3 true kill "#BP Breakpoint Exception";;
  intr_register_int 4 3 true kill "#OF Overflow Exception";;
  intr_register_int 5 3 true kill "#BR BOUND Range Exceeded Exception";;
  intr_register_int 0 0 true kill "#DE Divide Error";;
  intr_register_int 1 0 true kill "#DB Debug Exception";;
  intr_register_int 6 0 true kill "#UD Invalid Opcode Exception";;
  intr_register_int 7 0 true kill "#NM Device Not Available Exception";;
  intr_register_int 11 0 true kill "#NP Segment Not Present";;
  intr_register_int 12 0 true kill "#SS Stack Fault Exception";;
  intr_register_int 13 0 true kill "#GP General Protection Exception";;
  intr_register_int 16 0 true kill "#MF x87 FPU Floating-Point Error";;
  intr_register_int 19 0 true kill "#XF SIMD Floating-Point Exception";;
  intr_register_int 14 0 false page_fault_handler "#PF Page-Fault Exception".
Definition syscall_init : M tables unit := intr_register_int 48 3 true syscall_entry "syscall".
(** What [main] has done to the tables when the machine is up: [intr_init], [timer_init],
    [kbd_init], [exception_init], [syscall_init], [serial_init_queue] and
    [ide_init], in this order. *)
Definition start_up : M tables unit :=
  intr_init;; intr_register_ext 32 timer_irq "8254 Timer";; intr_register_ext 33 keyboard_irq "8042 Keyboard";;
  exception_init;; syscall_init;; intr_register_ext 36 serial_irq "serial";;
  intr_register_ext 46 ide_irq "ide0";; intr_register_ext 47 ide_irq "ide1".

(** ** Dispatch *)

Definition pic_end_of_interrupt (irq : Z) : M tables unit :=
  assert ((32 <=? irq) && (irq <? 48));; outb 32 32;; (if 40 <=? irq then outb 160 32 else mret tt).
Definition unexpected_interrupt (vec_no : Z) : M tables unit :=
  u ← gets unexpected_cnt;
  c ← lift (rd u vec_no);
  let n := u32 (c + 1) in
  u ← lift (wr u vec_no n); modify (set_unexpected_cnt u);;
  if Z.land n (u32 (n - 1)) =? 0 then modify (add_message vec_no) else mret tt.
Definition intr_handler (vec_no : Z) : M tables unit :=
  let external := (32 <=? vec_no) && (vec_no <? 48) in
  (if external then
     l ← on_kern intr_get_level; assert (negb l);;
     c ← on_kern intr_context; assert (negb c);;
     on_kern (modify (set_in_external_intr true));; on_kern (modify (set_yield_on_return false))
   else mret tt);;
  hs ← gets intr_handlers;
  handler ← lift (rd hs vec_no);
  match handler with
  | Some handler => call handler
  | None => if (vec_no =? 39) || (vec_no =? 47) then mret tt else unexpected_interrupt vec_no
  end;;
  if external then
    l ← on_kern intr_get_level; assert (negb l);;
    c ← on_kern intr_context; assert c;;
    on_kern (modify (set_in_external_intr false));;
    pic_end_of_interrupt vec_no;;
    y ← on_kern (gets yield_on_return);
    if y : bool then on_kern thread_yield else mret tt
  else mret tt.
(** The processor's part: an interrupt gate turns interrupts off, and the return
    from the interrupt restores the flag. *)
Definition deliver (vec_no : Z) : M tables unit :=
  t ← gets idt; g ← lift (rd t vec_no);
  old ← on_kern (gets intr_on);
  (if field g 40 5 =? 14 then on_kern (modify (set_intr_on false)) else mret tt);;
  intr_handler vec_no;;
  on_kern (modify (set_intr_on old)).
End interrupts.

(** [kill] of a frame whose code segment is [cs]. *)
Definition kill_frame (cs : Z) : M kernel unit :=
  if cs =? SEL_UCSEG then thread_exit else if cs =? SEL_KCSEG then lift Panic else thread_exit.

(** ** What the processor reads in a gate *)

Record gate := Gate { gate_offset : Z; gate_selector : Z; gate_type : Z; gate_dpl : Z; gate_present : Z }.
Definition decode_gate (g : Z) : gate := Gate (field g 0 16 + 2 ^ 16 * field g 48 16) (field g 16 16) (field g 40 5) (field g 45 2) (field g 47 1).
Definition gate_fields (function dpl type : Z) : list (Z * Z) :=
  [(field function 0 16, 16); (SEL_KCSEG, 16); (0, 8); (type, 5); (dpl, 2); (1, 1); (field function 16 16, 16)].

Lemma lor_reverse a b c d : Z.lor (Z.lor (Z.lor a b) c) d = Z.lor (Z.lor (Z.lor d c) b) a.
Proof. rewrite (Z.lor_comm (Z.lor (Z.lor a b) c)), (Z.lor_comm (Z.lor a b)), (Z.lor_comm a), !Z.lor_assoc. done. Qed.
Lemma make_gate_packs function dpl type : 0 < function < 2 ^ 32 → 0 ≤ dpl ≤ 3 → 0 ≤ type ≤ 15 →
  make_gate function dpl type = Done (pack (gate_fields function dpl type)).
Proof.
  intros Hf Hd Ht. pose proof (field_range function 0 16) as H0. pose proof (field_range function 16 16) as H1.
  pose proof (land_ones_at function 0 16 ltac:(lia) ltac:(lia)) as E1. change (2 ^ 0 * (2 ^ 16 - 1)) with 65535 in E1. change (2 ^ 0) with 1 in E1. rewrite Z.mul_1_l in E1.
  pose proof (land_ones_at function 16 16 ltac:(lia) ltac:(lia)) as E2. change (2 ^ 16 * (2 ^ 16 - 1)) with 4294901760 in E2.
  unfold make_gate. rewrite E1, E2. unfold ASSERT, SEL_KCSEG. destruct (Z.eqb_spec function 0); [lia|].
  destruct (Z.leb_spec 0 dpl), (Z.leb_spec dpl 3), (Z.leb_spec 0 type), (Z.leb_spec type 15); try lia. cbn [andb negb mbind outcome_bind]. f_equal.
  rewrite Z.shiftl_0_l, Z.lor_0_r, lor_reverse, !Z.shiftl_mul_pow2 by lia. rewrite !(Z.mul_comm _ (2 ^ _)).
  rewrite (lor_above 13), (lor_above 15), (lor_above 16), (lor_above 16), (lor_above 32) by lia. cbn [pack gate_fields]. unfold SEL_KCSEG. lia.
Qed.
Lemma gate_fields_fit function dpl type : 0 ≤ dpl ≤ 3 → 0 ≤ type ≤ 15 → Forall fits (gate_fields function dpl type).
Proof.
  intros. unfold gate_fields, fits, SEL_KCSEG. repeat apply Forall_cons_2; cbn [fst snd]; [..|done]; (split; [lia|]); (apply field_range; lia) || lia.
Qed.
(** A gate leads where it was meant to, with the privilege and the type asked for. *)
Definition gate_word (function dpl type : Z) : Z := pack (gate_fields function dpl type).
Lemma gate_decodes function dpl type : 0 < function < 2 ^ 32 → 0 ≤ dpl ≤ 3 → 0 ≤ type ≤ 15 →
  decode_gate (gate_word function dpl type) = Gate function SEL_KCSEG type dpl 1.
Proof.
  intros Hf Hd Ht. pose proof (λ k v w lo, pack_lookup _ k v w lo (gate_fields_fit function dpl type Hd Ht)) as Hp. unfold decode_gate, gate_word.
  rewrite (Hp 0%nat _ 16 0 eq_refl eq_refl), (Hp 1%nat _ 16 16 eq_refl eq_refl), (Hp 3%nat _ 5 40 eq_refl eq_refl), (Hp 4%nat _ 2 45 eq_refl eq_refl), (Hp 5%nat _ 1 47 eq_refl eq_refl), (Hp 6%nat _ 16 48 eq_refl eq_refl).
  rewrite <-(field_split function 16 16) by lia. done.
Qed.
Lemma gate_type_of function dpl type : 0 ≤ dpl ≤ 3 → 0 ≤ type ≤ 15 → field (gate_word function dpl type) 40 5 = type.
Proof. intros Hd Ht. exact (pack_lookup _ 3 _ 5 40 (gate_fields_fit function dpl type Hd Ht) eq_refl eq_refl). Qed.

(** ** The tables after start-up *)

(** A registration: the vector, the privilege needed to invoke it, whether the handler
    runs with interrupts on, and the handler. *)
Definition registration : Type := Z * (Z * bool * intr_handler_func).
Definition find_registration (regs : list registration) (v : Z) : option (Z * bool * intr_handler_func) := snd <$> head (filter (λ r : registration, r.1 = v) regs).
Definition gate_for (stub : Z) (r : option (Z * bool * intr_handler_func)) : Z :=
  match r with Some (dpl, level, _) => gate_word stub dpl (if level : bool then 15 else 14) | None => gate_word stub 0 14 end.
Section start_up.
Context (intr_stubs : Z → Z) (idt_base : Z) (call : intr_handler_func → M tables unit).
Context (Hstubs : ∀ v, 0 ≤ v < INTR_CNT → 0 < intr_stubs v < 2 ^ 32).

(** The tables hold these registrations. *)
Record registered (regs : list registration) (s : tables) : Prop := {
  reg_idt : zlen (idt s) = INTR_CNT;
  reg_handlers : zlen (intr_handlers s) = INTR_CNT;
  reg_names : zlen (intr_names s) = INTR_CNT;
  reg_gate : ∀ v, 0 ≤ v < INTR_CNT → (idt s)@[v] = Some (gate_for (intr_stubs v) (find_registration regs v));
  reg_handler : ∀ v, 0 ≤ v < INTR_CNT → (intr_handlers s)@[v] = Some (snd <$> find_registration regs v) }.
(** Everything else in the state. *)
Definition same_rest (s s' : tables) : Prop := kern s' = kern s ∧ unexpected_cnt s' = unexpected_cnt s ∧ idtr s' = idtr s ∧ pic s' = pic s ∧ messages s' = messages s.

Lemma find_registration_cons v r regs v' : find_registration ((v, r) :: regs) v' = if v =? v' then Some r else find_registration regs v'.
Proof. unfold find_registration. rewrite filter_cons. cbn [fst]. destruct (Z.eqb_spec v v') as [->|H]; [by rewrite decide_True|by rewrite decide_False]. Qed.
Lemma register_handler_spec regs s v dpl level h name : registered regs s → 0 ≤ v < INTR_CNT → find_registration regs v = None → 0 ≤ dpl ≤ 3 →
  runs (register_handler intr_stubs v dpl level h name) s (λ _ s', registered ((v, (dpl, level, h)) :: regs) s' ∧ same_rest s s').
Proof.
  intros Hs Hv Hn Hd. unfold register_handler. run. rewrite (rd_Some _ _ None) by (by rewrite (reg_handler _ _ Hs v Hv), Hn). run. apply runs_assert; [done|]. run.
  assert ((if level then make_trap_gate else make_intr_gate) (intr_stubs v) dpl = Done (gate_for (intr_stubs v) (Some (dpl, level, h)))) as ->.
  { destruct level; apply make_gate_packs; (by apply Hstubs) || lia. }
  run. rewrite wr_in by (by rewrite (reg_idt _ _ Hs)). run. rewrite wr_in by (by rewrite (reg_handlers _ _ Hs)). run.
  rewrite wr_in by (cbn; by rewrite (reg_names _ _ Hs)). run.
  split; [|done]. constructor; cbn [idt intr_handlers intr_names set_idt set_intr_handlers set_intr_names]; rewrite ?zlen_insert; try apply Hs;
    intros v' Hv'; rewrite find_registration_cons, zlookup_insert, ?(reg_idt _ _ Hs), ?(reg_handlers _ _ Hs).
  all: destruct (Z.eqb_spec v v') as [<-|]; [|cbn [andb]; by apply Hs]; destruct (Z.leb_spec 0 v), (Z.ltb_spec v INTR_CNT); try lia; done.
Qed.
Lemma init_idt_spec n : ∀ i s, 0 ≤ i → i + Z.of_nat n ≤ INTR_CNT → zlen (idt s) = INTR_CNT →
  runs (init_idt intr_stubs n i) s (λ _ s', ∃ t, s' = set_idt t s ∧ zlen t = INTR_CNT ∧
    ∀ v, t@[v] = if (i <=? v) && (v <? i + Z.of_nat n) then Some (gate_word (intr_stubs v) 0 14) else (idt s)@[v]).
Proof.
  induction n as [|n IH]; intros i s Hi Hn Hl; cbn [init_idt].
  - run. exists (idt s). split; [by destruct s|]. split; [done|]. intros v. destruct (Z.leb_spec i v), (Z.ltb_spec v (i + Z.of_nat 0)); done || lia.
  - run. unfold make_intr_gate. rewrite make_gate_packs; [|apply Hstubs; lia|lia..]. run. rewrite wr_in by lia. run.
    eapply runs_mono; [apply IH; [lia..|cbn; by rewrite zlen_insert]|]. intros _ s' (t & -> & Ht & Hv). exists t. split; [by destruct s|]. split; [done|].
    intros v. rewrite Hv. cbn [idt set_idt]. rewrite zlookup_insert, Hl. fold (gate_word (intr_stubs i) 0 14).
    destruct (Z.leb_spec (i + 1) v), (Z.ltb_spec v (i + 1 + Z.of_nat n)), (Z.leb_spec i v), (Z.ltb_spec v (i + Z.of_nat (S n))); cbn [andb]; try done; try lia;
      destruct (Z.eqb_spec i v) as [<-|]; try lia; destruct (Z.leb_spec 0 i), (Z.ltb_spec i INTR_CNT); try lia; done.
Qed.

(** The bytes that set the controllers up. *)
Definition pic_setup : list (Z * Z) :=
  [(33, 255); (161, 255); (32, 17); (33, 32); (33, 4); (33, 1); (160, 17); (161, 40); (161, 2); (161, 1); (33, 0); (161, 0)].
Definition blank_tables (s : tables) : Prop := zlen (idt s) = INTR_CNT ∧ intr_handlers s = replicate 256 None.
Lemma intr_init_spec s : blank_tables s → runs (intr_init intr_stubs idt_base) s (λ _ s', registered [] s' ∧
  kern s' = kern s ∧ unexpected_cnt s' = unexpected_cnt s ∧ idtr s' = make_idtr_operand (8 * INTR_CNT - 1) idt_base ∧ pic s' = pic s ++ pic_setup ∧ messages s' = messages s).
Proof.
  intros [Hl Hh]. unfold intr_init, pic_init, outb. run. eapply runs_mono; [by apply init_idt_spec|]. intros _ s' (t & -> & Ht & Hv). unfold init_names. run.
  cbn [kern unexpected_cnt idtr pic messages set_idt set_idtr set_intr_names add_pic]. rewrite <-!app_assoc. split_and!; try done.
  constructor; cbn [idt intr_handlers intr_names set_idt set_idtr set_intr_names add_pic]; [done|by rewrite Hh|done| |].
  - intros v Hv'. rewrite Hv. destruct (Z.leb_spec 0 v), (Z.ltb_spec v (0 + Z.of_nat (Z.to_nat INTR_CNT))); done || lia.
  - intros v Hv'. rewrite Hh. unfold zlookup. destruct (Z.ltb_spec v 0); [lia|]. apply lookup_replicate_2. unfold INTR_CNT in *. lia.
Qed.

(** What the kernel registers. *)
Definition registrations : list registration :=
  [(47, (0, false, ide_irq)); (46, (0, false, ide_irq)); (36, (0, false, serial_irq)); (48, (3, true, syscall_entry)); (14, (0, false, page_fault_handler));
   (19, (0, true, kill)); (16, (0, true, kill)); (13, (0, true, kill)); (12, (0, true, kill)); (11, (0, true, kill)); (7, (0, true, kill)); (6, (0, true, kill));
   (1, (0, true, kill)); (0, (0, true, kill)); (5, (3, true, kill)); (4, (3, true, kill)); (3, (3, true, kill)); (33, (0, false, keyboard_irq)); (32, (0, false, timer_irq))].
Ltac register := repeat match goal with |- runs (_ ≫= _) _ _ => apply runs_bind | |- runs (assert _) _ _ => apply runs_assert; [reflexivity|] end;
  eapply runs_mono; [eapply register_handler_spec; [eassumption|unfold INTR_CNT; lia|reflexivity|lia]|]; intros ? ? [? ?].
Lemma same_rest_trans s1 s2 s3 : same_rest s1 s2 → same_rest s2 s3 → same_rest s1 s3.
Proof. unfold same_rest. intuition congruence. Qed.
Lemma start_up_spec s : blank_tables s → runs (start_up intr_stubs idt_base) s (λ _ s', registered registrations s' ∧
  kern s' = kern s ∧ unexpected_cnt s' = unexpected_cnt s ∧ idtr s' = make_idtr_operand (8 * INTR_CNT - 1) idt_base ∧ pic s' = pic s ++ pic_setup ∧ messages s' = messages s).
Proof.
  intros Hs. unfold start_up. run. eapply runs_mono; [by apply intr_init_spec|]. intros _ s0 [H0 HR0]. unfold exception_init, syscall_init, intr_register_ext, intr_register_int.
  repeat register. split; [done|].
  repeat match goal with H1 : same_rest ?a ?b, H2 : same_rest ?b ?c |- _ => pose proof (same_rest_trans a b c H1 H2); clear H1 H2 end.
  unfold same_rest in *. intuition congruence.
Qed.
End start_up.

(** The vectors a user program may invoke with the INT instruction, those that are
    entered with interrupts still on, and the handlers. *)
Definition user_vectors : list Z := [3; 4; 5; 48].
Definition trap_vectors : list Z := [0; 1; 3; 4; 5; 6; 7; 11; 12; 13; 16; 19; 48].
Definition kernel_handlers : list (Z * intr_handler_func) :=
  ((λ v, (v, kill)) <$> [0; 1; 3; 4; 5; 6; 7; 11; 12; 13; 16; 19]) ++
  [(14, page_fault_handler); (32, timer_irq); (33, keyboard_irq); (36, serial_irq); (46, ide_irq); (47, ide_irq); (48, syscall_entry)].
#[export] Instance intr_handler_func_eq_dec : EqDecision intr_handler_func.
Proof. solve_decision. Defined.
Definition entry_right (v : Z) : bool :=
  match find_registration registrations v with
  | Some (dpl, level, h) => bool_decide (dpl = (if bool_decide (v ∈ user_vectors) then 3 else 0) ∧ level = bool_decide (v ∈ trap_vectors) ∧ (v, h) ∈ kernel_handlers)
  | None => bool_decide (v ∉ user_vectors ∧ v ∉ trap_vectors ∧ v ∉ kernel_handlers.*1)
  end.
Lemma entries_right v : 0 ≤ v < INTR_CNT → entry_right v = true.
Proof.
  intros Hv. assert (forallb entry_right (seqZ 0 256) = true) as H by (vm_compute; reflexivity).
  rewrite forallb_forall in H. apply H, list_elem_of_In, elem_of_seqZ. unfold INTR_CNT in Hv. lia.
Qed.
Lemma kernel_handlers_unique v h h' : (v, h) ∈ kernel_handlers → (v, h') ∈ kernel_handlers → h = h'.
Proof.
  intros H H'. assert (NoDup (kernel_handlers.*1)) as Hd by (apply (bool_decide_unpack _); vm_compute; exact I).
  apply list_elem_of_lookup in H as [i Hi]. apply list_elem_of_lookup in H' as [j Hj]. 
  assert (i = j) as -> by (eapply (NoDup_lookup _ i j v Hd); by rewrite list_lookup_fmap, ?Hi, ?Hj). congruence.
Qed.

(** C21 The interrupt tables after start-up.  No registration collides with another: the kernel
    comes up.  The gate of every vector then leads to the vector's own entry point, in
    the kernel's code segment; a user program can invoke the system call and the
    breakpoint, overflow and bounds exceptions, and no other vector; the gates of
    devices and of the page fault turn interrupts off.  The handlers are those the
    kernel means, all other vectors have none, and the processor is given the whole
    table. *)
Theorem interrupts_set_up intr_stubs idt_base s : (∀ v, 0 ≤ v < INTR_CNT → 0 < intr_stubs v < 2 ^ 32) → is_u32 idt_base → blank_tables s →
  runs (start_up intr_stubs idt_base) s (λ _ s',
    (∀ v, 0 ≤ v < INTR_CNT → ∃ g, (idt s')@[v] = Some g ∧
       decode_gate g = Gate (intr_stubs v) SEL_KCSEG (if bool_decide (v ∈ trap_vectors) then 15 else 14) (if bool_decide (v ∈ user_vectors) then 3 else 0) 1) ∧
    (∀ v h, 0 ≤ v < INTR_CNT → (intr_handlers s')@[v] = Some (Some h) ↔ (v, h) ∈ kernel_handlers) ∧
    idtr s' = pack [(8 * INTR_CNT - 1, 16); (idt_base, 32)] ∧ kern s' = kern s ∧ pic s' = pic s ++ pic_setup).
Proof.
  intros Hstubs Hb Hs. eapply runs_mono; [by apply start_up_spec|]. intros _ s' (Hr & Hk & _ & Hi & Hp & _). split_and!; try done.
  - intros v Hv. exists (gate_for (intr_stubs v) (find_registration registrations v)). split; [by apply Hr|].
    pose proof (entries_right v Hv) as He. unfold entry_right in He. destruct (find_registration registrations v) as [[[dpl level] h]|]; apply bool_decide_eq_true in He; cbn [gate_for].
    + destruct He as (-> & -> & _). destruct (bool_decide _), (bool_decide _); apply gate_decodes; (by apply Hstubs) || lia.
    + destruct He as (He1 & He2 & _). rewrite !bool_decide_eq_false_2 by done. apply gate_decodes; (by apply Hstubs) || lia.
  - intros v h Hv. rewrite (reg_handler _ _ _ Hr v Hv). pose proof (entries_right v Hv) as He. unfold entry_right in He.
    destruct (find_registration registrations v) as [[[dpl level] h']|]; apply bool_decide_eq_true in He; cbn [fmap option_fmap option_map snd].
    + destruct He as (_ & _ & He). split; [by intros [= <-]|]. intros Hh. by rewrite (kernel_handlers_unique v h h').
    + destruct He as (_ & _ & He). split; [done|]. intros Hh. destruct He. by apply (list_elem_of_fmap_2 fst) in Hh.
  - rewrite Hi. unfold make_idtr_operand. cbn [pack]. unfold INTR_CNT. rewrite Z.shiftl_mul_pow2, (Z.mul_comm idt_base), lor_above by lia. lia.
Qed.
Definition demo_tables (k : kernel) : tables := Tables k (replicate 256 0) (replicate 256 None) (replicate 256 ""%string) (replicate 256 0) 0 [] [].
Definition early_kernel : kernel := Kernel ∅ 0 false false false (λ _, []) [] [] (λ _, 0) (λ _, 0) (λ _, []) 0 0 false 0 0 0 0 0 1.
Definition demo_stubs (v : Z) : Z := 3221356544 + 16 * v.
Lemma interrupts_set_up_witness : ∃ s', start_up demo_stubs 3221300000 (demo_tables early_kernel) = Done (tt, s') ∧
  (∃ g, (idt s')@[48] = Some g ∧ decode_gate g = Gate 3221357312 8 15 3 1) ∧ (intr_handlers s')@[32] = Some (Some timer_irq).
Proof.
  destruct (runs_done _ _ _ (interrupts_set_up demo_stubs 3221300000 (demo_tables early_kernel) ltac:(unfold demo_stubs, INTR_CNT; lia) ltac:(unfold is_u32; lia) ltac:(done)))
    as ([] & s' & E & Hg & Hh & _). exists s'. split; [done|]. split; [apply (Hg 48); unfold INTR_CNT; lia|].
  apply Hh; [unfold INTR_CNT; lia|]. apply (bool_decide_unpack _). vm_compute. exact I.
Defined.

(** ** Dispatch *)

Section dispatch.
Context (call : intr_handler_func → M tables unit).

(** The timer interrupt of Thread.v is the general handler with the timer's
    function registered: the same threads run, and the controller is told. *)
Theorem timer_dispatched s dpl stub : call timer_irq = on_kern timer_interrupt → (idt s)@[32] = Some (gate_word stub dpl 14) → 0 ≤ dpl ≤ 3 →
  (intr_handlers s)@[32] = Some (Some timer_irq) → intr_on (kern s) = true →
  deliver call 32 s = ('(_, k) ← intr_handler_timer (kern s); Done (tt, set_kern k (add_pic [(32, 32)] s))).
Proof.
  intros Hc Hg Hd Hh Hon. unfold deliver, intr_handler, intr_handler_timer, intr_get_level, intr_context, on_kern, assert, ASSERT, lift, gets, modify, mret, M_ret, mbind, M_bind, outcome_bind.
  rewrite (rd_Some _ _ _ Hg), gate_type_of by lia. cbn -[rd thread_yield timer_interrupt pic_end_of_interrupt]. rewrite Hon.
  destruct (in_external_intr (kern s)); [done|]. cbn -[rd thread_yield timer_interrupt pic_end_of_interrupt]. rewrite (rd_Some _ _ _ Hh), Hc. unfold on_kern.
  cbn -[thread_yield timer_interrupt pic_end_of_interrupt]. destruct (timer_interrupt _) as [[[] k]| | |]; [|done..]. cbn -[thread_yield pic_end_of_interrupt].
  destruct (intr_on k); [done|]. cbn -[thread_yield pic_end_of_interrupt]. destruct (in_external_intr k); [|done]. cbn -[thread_yield pic_end_of_interrupt].
  match goal with |- context [pic_end_of_interrupt 32 ?x] => change (pic_end_of_interrupt 32 x) with (Done (tt, add_pic [(32, 32)] x)) end.
  cbn -[thread_yield]. destruct (yield_on_return k); [|done].
  cbn -[thread_yield]. by destruct (thread_yield _) as [[[] k']| | |].
Qed.

(** What is written to the controllers for a vector. *)
Definition acks (v : Z) : list (Z * Z) :=
  if (32 <=? v) && (v <? 48) then (PIC0_CTRL, 32) :: (if 40 <=? v then [(PIC1_CTRL, 32)] else []) else [].
Context (Hcall : ∀ h s s', call h s = Done (tt, s') → pic s' = pic s).
Lemma done_bind {A B} (m : M tables A) (f : A → M tables B) s b s' : (m ≫= f) s = Done (b, s') → ∃ a s1, m s = Done (a, s1) ∧ f a s1 = Done (b, s').
Proof. unfold mbind, M_bind, outcome_bind. destruct (m s) as [[a s1]| | |]; naive_solver. Qed.
Lemma done_on_kern {A} (m : M kernel A) s a s' : on_kern m s = Done (a, s') → ∃ k, s' = set_kern k s.
Proof. unfold on_kern. destruct (m (kern s)) as [[a' k]| | |]; intros [= <- <-]. by exists k. Qed.
Lemma done_assert b s (u : unit) (s' : tables) : assert b s = Done (u, s') → b = true ∧ s' = s.
Proof. destruct b; cbn; naive_solver. Qed.
Lemma done_outb p b s (u : unit) (s' : tables) : outb p b s = Done (u, s') → s' = add_pic [(p, b)] s.
Proof. by intros [= _ <-]. Qed.
Ltac done_step := match goal with
  | H : outb _ _ _ = Done _ |- _ => apply done_outb in H as ->
  | H : (_ ≫= _) _ = Done _ |- _ => apply done_bind in H as (? & ? & ? & H)
  | H : on_kern _ _ = Done _ |- _ => apply done_on_kern in H as [? ->]
  | H : assert _ _ = Done _ |- _ => apply done_assert in H as [? ->]
  end.
Lemma unexpected_pic v s s' : unexpected_interrupt v s = Done (tt, s') → pic s' = pic s.
Proof.
  unfold unexpected_interrupt, gets, lift, modify, mret, M_ret, mbind, M_bind, outcome_bind. destruct (rd _ _); [|done..]. destruct (wr _ _ _); [|done..]. destruct (_ =? _); by intros [= <-].
Qed.
Lemma done_end_of_interrupt v s s' : pic_end_of_interrupt v s = Done (tt, s') → pic s' = pic s ++ (PIC0_CTRL, 32) :: (if 40 <=? v then [(PIC1_CTRL, 32)] else []).
Proof.
  unfold pic_end_of_interrupt. intros H. repeat done_step. destruct (40 <=? v); [done_step; cbn [pic add_pic]; by rewrite <-app_assoc|by injection H as <-].
Qed.
Lemma intr_handler_acks v s s' : intr_handler call v s = Done (tt, s') → pic s' = pic s ++ acks v.
Proof.
  unfold intr_handler, acks. intros H. set (ext := (32 <=? v) && (v <? 48)) in *. apply done_bind in H as ([] & s1 & H1 & H).
  assert (pic s1 = pic s) as Hp1 by (destruct ext; [repeat done_step; reflexivity|by injection H1 as <-]).
  apply done_bind in H as (hs & s2 & H2 & H). injection H2 as <- <-. apply done_bind in H as (h & s2 & H2 & H).
  assert (s2 = s1) as -> by (unfold lift in H2; by destruct (rd _ _); cbn in H2; naive_solver). apply done_bind in H as ([] & s3 & H3 & H).
  assert (pic s3 = pic s) as Hp3.
  { destruct h as [h|]; [rewrite <-Hp1; eapply Hcall, H3|]. destruct (_ || _); [by injection H3 as <-|]. apply unexpected_pic in H3. congruence. }
  destruct ext eqn:Hext; [|injection H as <-; by rewrite Hp3, app_nil_r].
  repeat done_step. match goal with E : pic_end_of_interrupt _ _ = Done (?u, _) |- _ => destruct u; apply done_end_of_interrupt in E as Hp end.
  match type of H with (if ?y then _ else _) ?s5 = _ => assert (∃ k', s' = set_kern k' s5) as [k' ->] by (destruct y; [by apply done_on_kern in H|injection H as <-; by exists (kern s5)]) end.
  cbn [pic set_kern]. rewrite Hp. cbn [pic set_kern]. by rewrite Hp3.
Qed.

(** However interrupts arrive, each one of a device is acknowledged once at the first
    controller, and at the second exactly when it came from there; other
    interrupts are not acknowledged. *)
Fixpoint deliver_all (vs : list Z) : M tables unit := match vs with [] => mret tt | v :: vs => deliver call v;; deliver_all vs end.
Theorem interrupts_acknowledged vs : ∀ s s', deliver_all vs s = Done (tt, s') → pic s' = pic s ++ concat (acks <$> vs).
Proof.
  induction vs as [|v vs IH]; intros s s' H; cbn [deliver_all] in H; [injection H as <-; by rewrite app_nil_r|].
  apply done_bind in H as ([] & s1 & H1 & H). rewrite (IH _ _ H). cbn [fmap list_fmap concat]. rewrite app_assoc. f_equal.
  unfold deliver in H1. apply done_bind in H1 as (t & s2 & [= <- <-] & H1). apply done_bind in H1 as (g & s2 & H2 & H1).
  assert (s2 = s) as -> by (unfold lift in H2; by destruct (rd _ _); cbn in H2; naive_solver).
  apply done_bind in H1 as (old & s3 & [k ->]%done_on_kern & H1). apply done_bind in H1 as ([] & s4 & H4 & H1).
  assert (pic s4 = pic s) as Hp by (destruct (_ =? _); [by apply done_on_kern in H4 as [k' ->]|by injection H4 as <-]).
  apply done_bind in H1 as ([] & s5 & H5 & [k' ->]%done_on_kern). cbn [pic set_kern]. rewrite (intr_handler_acks _ _ _ H5). by rewrite Hp.
Qed.
End dispatch.

(** ** Unexpected interrupts and double registration *)

Lemma land_pred_zero n : 0 < n → Z.land n (n - 1) = 0 ↔ ∃ k, 0 ≤ k ∧ n = 2 ^ k.
Proof.
  intros Hn. split.
  - intros H. exists (Z.log2 n). split; [apply Z.log2_nonneg|]. destruct (Z.log2_spec n Hn) as [Hl Hu]. destruct (decide (n = 2 ^ Z.log2 n)) as [|Hne]; [done|].
    assert (Z.log2 (n - 1) = Z.log2 n) as Hlog by (apply Z.log2_unique; [apply Z.log2_nonneg|lia]).
    assert (Z.testbit (Z.land n (n - 1)) (Z.log2 n) = true) as Hb; [|by rewrite H, Z.bits_0 in Hb].
    rewrite Z.land_spec, Z.bit_log2 by done. rewrite <-Hlog at 1. apply Z.bit_log2. pose proof (Z.pow_pos_nonneg 2 (Z.log2 n)). pose proof (Z.log2_nonneg n). lia.
  - intros (k & Hk & ->). replace (2 ^ k - 1) with (Z.ones k) by (rewrite Z.ones_equiv; lia). rewrite Z.land_ones by done. apply Z.mod_same. lia.
Qed.
(** An interrupt without a handler is counted, and reported when the count is a power of
    two. *)
Lemma unexpected_reported v s c : (unexpected_cnt s)@[v] = Some c → 0 ≤ c < 2 ^ 32 - 1 →
  runs (unexpected_interrupt v) s (λ _ s', unexpected_cnt s' = (unexpected_cnt s)@[v := c + 1] ∧
    ((∃ k, 0 ≤ k ∧ c + 1 = 2 ^ k) → messages s' = messages s ++ [v]) ∧ ((¬ ∃ k, 0 ≤ k ∧ c + 1 = 2 ^ k) → messages s' = messages s)).
Proof.
  intros Hc Hr. unfold unexpected_interrupt. run. rewrite (rd_Some _ _ _ Hc). run. rewrite u32_small by lia. rewrite wr_in by (by eapply zlookup_bound). run.
  rewrite (u32_small (c + 1 - 1)) by lia. pose proof (land_pred_zero (c + 1) ltac:(lia)) as Hp.
  destruct (Z.eqb_spec (Z.land (c + 1) (c + 1 - 1)) 0) as [E|E]; run; cbn; naive_solver.
Qed.
(** Registering a handler where there is one stops the kernel. *)
Lemma registered_twice intr_stubs v dpl level h h' name s : (intr_handlers s)@[v] = Some (Some h') → register_handler intr_stubs v dpl level h name s = Panic.
Proof. intros H. unfold register_handler, gets, lift, mbind, M_bind, outcome_bind. by rewrite (rd_Some _ _ _ H). Qed.
(** An exception in a segment that is neither the user's nor the kernel's ends the current
    thread; it does not stop the kernel. *)
Lemma kill_unknown_segment cs : cs ≠ SEL_KCSEG → kill_frame cs = thread_exit.
Proof. intros H. unfold kill_frame. destruct (Z.eqb_spec cs SEL_UCSEG); [done|]. by destruct (Z.eqb_spec cs SEL_KCSEG). Qed.
