(* ===== verification/Clock.v ===== *)
(** * Clocks (src/pintos/src/devices/rtc.c, pit.c, speaker.c and the conversions of timer.c)

    The real-time clock, the programmable interval timer and the speaker it
    drives, and the conversion of real time to ticks and loops.  A read of a clock
    register returns what the chip answers, a function of the number of reads so
    far; accesses to the interval timer are a list of ports and bytes.  Sleeping
    itself is in Thread.v. *)

From S2P Require Import Prelude CStdlib Thread.

(** ** The real-time clock *)

Definition RTC_REG_SEC : Z := 0.
Definition RTC_REG_MIN : Z := 2.
Definition RTC_REG_HOUR : Z := 4.
Definition RTC_REG_MDAY : Z := 7.
Definition RTC_REG_MON : Z := 8.
Definition RTC_REG_YEAR : Z := 9.
Definition bcd_to_bin (x : Z) : Z := Z.land x 15 + Z.shiftr x 4 * 10.
Definition days_per_month : list Z := [31; 28; 31; 30; 31; 30; 31; 31; 30; 31; 30; 31].
(** [for (i = 1; i <= mon; i++) time += days_per_month[i - 1] * 24 * 60 * 60], with [n] turns. *)
Fixpoint add_months (n : nat) (i time : Z) : outcome Z :=
  match n with
  | O => Done time
  | S n => d ← rd days_per_month (i - 1); add_months n (i + 1) (u32 (time + d * 24 * 60 * 60))
  end.
Definition seconds (sec min hour mday mon year : Z) : outcome Z :=
  let year := (if year <? 70 then year + 100 else year) - 70 in
  y ← int ((year * 365 + (year - 1) `quot` 4) * 24 * 60 * 60);
  time ← add_months (Z.to_nat mon) 1 (u32 y);
  let time := if (2 <? mon) && (year `rem` 4 =? 0) then u32 (time + 24 * 60 * 60) else time in
  let time := u32 (time + (mday - 1) * 24 * 60 * 60) in
  let time := u32 (time + hour * 60 * 60) in
  let time := u32 (time + min * 60) in
  Done (u32 (time + sec)).
Section rtc.
(** The answer of register [index] to the [n]-th read. *)
Context (cmos : nat → Z → Z).
Definition cmos_read (n : nat) (index : Z) : Z := u8 (cmos n index).
(** [do ... while (sec != bcd_to_bin (cmos_read (RTC_REG_SEC)))], from the [n]-th read. *)
Fixpoint rtc_get_time (fuel n : nat) : outcome Z :=
  match fuel with
  | O => NoFuel
  | S fuel =>
      let sec := bcd_to_bin (cmos_read n RTC_REG_SEC) in
      let min := bcd_to_bin (cmos_read (n + 1) RTC_REG_MIN) in
      let hour := bcd_to_bin (cmos_read (n + 2) RTC_REG_HOUR) in
      let mday := bcd_to_bin (cmos_read (n + 3) RTC_REG_MDAY) in
      let mon := bcd_to_bin (cmos_read (n + 4) RTC_REG_MON) in
      let year := bcd_to_bin (cmos_read (n + 5) RTC_REG_YEAR) in
      if negb (sec =? bcd_to_bin (cmos_read (n + 6) RTC_REG_SEC)) then rtc_get_time fuel (n + 7)
      else seconds sec min hour mday mon year
  end.
End rtc.

(** ** The interval timer and the speaker *)

Definition PIT_PORT_CONTROL : Z := 67.
Definition PIT_PORT_COUNTER (channel : Z) : Z := 64 + channel.
Definition PIT_HZ : Z := 1193180.
Definition pit_count (frequency : Z) : Z :=
  if frequency <? 19 then 0 else if PIT_HZ <? frequency then 2 else u16 ((PIT_HZ + frequency `quot` 2) `quot` frequency).
Definition pit_configure_channel (channel pmode frequency : Z) : outcome (list (Z * Z)) :=
  ASSERT ((channel =? 0) || (channel =? 2));; ASSERT ((pmode =? 2) || (pmode =? 3));;
  let count := pit_count frequency in
  Done [(PIT_PORT_CONTROL, Z.lor (Z.lor (Z.shiftl channel 6) 48) (Z.shiftl pmode 1));
        (PIT_PORT_COUNTER channel, u8 count); (PIT_PORT_COUNTER channel, Z.shiftr count 8)].
Definition SPEAKER_PORT_GATE : Z := 97.
Definition SPEAKER_GATE_ENABLE : Z := 3.
(** The gate register holds [gate]. *)
Definition speaker_off (gate : Z) : outcome (list (Z * Z)) := Done [(SPEAKER_PORT_GATE, Z.land gate (255 - SPEAKER_GATE_ENABLE))].
Definition speaker_on (gate frequency : Z) : outcome (list (Z * Z)) :=
  if (20 <=? frequency) && (frequency <=? 20000) then
    l ← pit_configure_channel 2 3 frequency; Done (l ++ [(SPEAKER_PORT_GATE, Z.lor gate SPEAKER_GATE_ENABLE)])
  else speaker_off gate.

(** ** Real time in ticks and loops *)

(** An operation on [int64_t]. *)
Definition int64 (z : Z) : outcome Z := if (- 2 ^ 63 <=? z) && (z <? 2 ^ 63) then Done z else Undef.
Inductive delay : Type := Sleep (ticks : Z) | Spin (loops : Z).
Section timer.
Context (loops_per_tick : Z).
Definition real_time_delay (num denom : Z) : outcome delay :=
  ASSERT (denom `rem` 1000 =? 0);;
  x ← int64 (loops_per_tick * num); y ← int64 (x `quot` 1000 * TIMER_FREQ);
  Done (Spin (y `quot` (denom `quot` 1000))).
Definition real_time_sleep (num denom : Z) : outcome delay :=
  x ← int64 (num * TIMER_FREQ);
  let ticks := x `quot` denom in
  if 0 <? ticks then Done (Sleep ticks) else real_time_delay num denom.
Definition timer_msleep (ms : Z) : outcome delay := real_time_sleep ms 1000.
Definition timer_usleep (us : Z) : outcome delay := real_time_sleep us (1000 * 1000).
Definition timer_nsleep (ns : Z) : outcome delay := real_time_sleep ns (1000 * 1000 * 1000).
Definition timer_mdelay (ms : Z) : outcome delay := real_time_delay ms 1000.
Definition timer_udelay (us : Z) : outcome delay := real_time_delay us (1000 * 1000).
Definition timer_ndelay (ns : Z) : outcome delay := real_time_delay ns (1000 * 1000 * 1000).
End timer.

Section calibrate.
(** Whether this many loops take more than a tick. *)
Context (too_many_loops : Z → bool).
Fixpoint double_loops (fuel : nat) (loops : Z) : outcome Z :=
  match fuel with
  | O => NoFuel
  | S fuel =>
      if too_many_loops (u32 (Z.shiftl loops 1)) then Done loops else
      let loops := u32 (Z.shiftl loops 1) in
      ASSERT (negb (loops =? 0));; double_loops fuel loops
  end.
(** [for (test_bit = high_bit >> 1; test_bit != high_bit >> 10; test_bit >>= 1)]. *)
Fixpoint refine_bits (fuel : nat) (high_bit test_bit loops : Z) : outcome Z :=
  match fuel with
  | O => NoFuel
  | S fuel =>
      if test_bit =? Z.shiftr high_bit 10 then Done loops else
      refine_bits fuel high_bit (Z.shiftr test_bit 1) (if too_many_loops (Z.lor high_bit test_bit) then loops else Z.lor loops test_bit)
  end.
Definition timer_calibrate : outcome Z :=
  high_bit ← double_loops 23 (2 ^ 10);
  refine_bits 10 high_bit (Z.shiftr high_bit 1) high_bit.
End calibrate.

(** ** Accuracy *)

(** The counter makes the timer run at the frequency asked for, rounded to the
    nearest count, and fits in its 16 bits. *)
Theorem pit_count_rounds f : 19 ≤ f ≤ PIT_HZ → 0 < pit_count f < 2 ^ 16 ∧ 2 * Z.abs (pit_count f * f - PIT_HZ) ≤ f.
Proof.
  intros Hf. unfold pit_count. destruct (Z.ltb_spec f 19), (Z.ltb_spec PIT_HZ f); try lia. unfold PIT_HZ in *. rewrite (Z.quot_div_nonneg f 2) by lia.
  set (h := f `div` 2). assert (f - 1 ≤ 2 * h ≤ f) as Hh by (unfold h; div_lia). rewrite Z.quot_div_nonneg by lia. set (c := (1193180 + h) `div` f). assert (c * f ≤ 1193180 + h < (c + 1) * f) as Hc.
  { unfold c. pose proof (Z.div_mod (1193180 + h) f). pose proof (Z.mod_pos_bound (1193180 + h) f). lia. }
  assert (0 < c < 2 ^ 16) as Hr by nia. unfold u16. rewrite Z.mod_small by lia. split; [done|]. nia.
Qed.
Lemma int64_in z : - 2 ^ 63 ≤ z < 2 ^ 63 → int64 z = Done z.
Proof. intros H. unfold int64. by destruct (Z.leb_spec (- 2 ^ 63) z), (Z.ltb_spec z (2 ^ 63)); try lia. Qed.
(** Sleeping for [num/denom] seconds: within the range in which nothing overflows the
    thread sleeps for that time rounded down to ticks or, if this is none, spins
    for that time rounded down to loops; a busy-wait is never longer than the
    time asked for. *)
Theorem sleep_rounds_down loops_per_tick num denom : 0 ≤ num < 2 ^ 31 → 0 ≤ loops_per_tick < 2 ^ 32 → denom = 1000 ∨ denom = 1000000 ∨ denom = 1000000000 →
  rets (real_time_sleep loops_per_tick num denom) (λ d, match d with
    | Sleep ticks => 0 < ticks ∧ ticks * denom ≤ num * TIMER_FREQ < (ticks + 1) * denom
    | Spin loops => num * TIMER_FREQ < denom ∧ 0 ≤ loops ∧ loops * denom ≤ loops_per_tick * num * TIMER_FREQ
    end).
Proof.
  intros Hn Hl Hd. unfold real_time_sleep, TIMER_FREQ. rewrite int64_in by lia. cbn [mbind outcome_bind]. rewrite Z.quot_div_nonneg by lia.
  pose proof (Z.div_mod (num * 100) denom ltac:(lia)) as E. pose proof (Z.mod_pos_bound (num * 100) denom ltac:(lia)) as Hm. set (q := (num * 100) `div` denom) in *. assert (0 ≤ q) as Hq by (apply Z.div_pos; lia).
  destruct (Z.ltb_spec 0 q); [cbn; lia|]. assert (q = 0) as Eq by lia. rewrite Eq in E. unfold real_time_delay, TIMER_FREQ. assert (denom `rem` 1000 = 0 ∧ denom `quot` 1000 = denom `div` 1000 ∧ denom = 1000 * (denom `div` 1000)) as (-> & -> & Ed) by (destruct Hd as [->|[->| ->]]; done).
  cbn [Z.eqb ASSERT mbind outcome_bind]. assert (0 ≤ loops_per_tick * num < 2 ^ 63) as Hp by nia. rewrite int64_in by lia. cbn [mbind outcome_bind]. rewrite Z.quot_div_nonneg by lia.
  set (x := (loops_per_tick * num) `div` 1000). assert (0 ≤ x ∧ x * 1000 ≤ loops_per_tick * num) as [Hx0 Hx] by (unfold x; div_lia). rewrite int64_in by lia. cbn [mbind outcome_bind rets]. set (k := denom `div` 1000) in *. rewrite Z.quot_div_nonneg by lia.
  pose proof (Z.div_mod (x * 100) k ltac:(lia)) as E2. pose proof (Z.mod_pos_bound (x * 100) k ltac:(lia)) as Hm2. set (y := (x * 100) `div` k) in *. assert (0 ≤ y) by (apply Z.div_pos; lia). split_and!; [lia|done|]. nia.
Qed.

Section calibrated.
(** [limit] loops fit in a tick. *)
Context (limit : Z) (Hlimit : 2 ^ 10 ≤ limit < 2 ^ 31).
Let too_many (n : Z) : bool := limit <? n.
Lemma shiftl_pow2 k : 0 ≤ k ≤ 30 → u32 (Z.shiftl (2 ^ k) 1) = 2 ^ (k + 1).
Proof.
  intros Hk. rewrite Z.shiftl_mul_pow2, <- Z.pow_add_r by lia. unfold u32. apply Z.mod_small. split; [apply Z.pow_nonneg; lia|]. apply Z.pow_lt_mono_r; lia.
Qed.
Lemma double_loops_spec fuel : ∀ k, 10 ≤ k ≤ 30 → 30 - k < Z.of_nat fuel → 2 ^ k ≤ limit → ∃ j, 10 ≤ j ≤ 30 ∧ double_loops too_many fuel (2 ^ k) = Done (2 ^ j) ∧ 2 ^ j ≤ limit < 2 ^ (j + 1).
Proof.
  induction fuel as [|fuel IH]; intros k Hk Hf Hl; [lia|]. cbn [double_loops]. rewrite shiftl_pow2 by lia. unfold too_many at 1. destruct (Z.ltb_spec limit (2 ^ (k + 1))) as [|Hle]; [by exists k|].
  assert (k < 30) as Hk30. { destruct (Z.eq_dec k 30) as [->|]; [|lia]. change (2 ^ (30 + 1)) with (2 ^ 31) in Hle. lia. }
  pose proof (Z.pow_pos_nonneg 2 (k + 1) ltac:(lia) ltac:(lia)). destruct (Z.eqb_spec (2 ^ (k + 1)) 0); [lia|]. cbn [negb ASSERT mbind outcome_bind]. apply IH; lia.
Qed.
Lemma refine_bits_spec fuel j : 10 ≤ j → ∀ i loops, 1 ≤ i ≤ 10 → 10 - i < Z.of_nat fuel → 0 < loops → Z.log2 loops = j → ∃ r, refine_bits too_many fuel (2 ^ j) (2 ^ (j - i)) loops = Done r ∧ 0 < r ∧ Z.log2 r = j.
Proof.
  intros Hj. induction fuel as [|fuel IH]; intros i loops Hi Hf H0 Hl; [lia|]. cbn [refine_bits]. rewrite (Z.shiftr_div_pow2 (2 ^ j)) by lia. rewrite <- (Z.pow_sub_r 2 j 10) by lia.
  destruct (Z.eqb_spec (2 ^ (j - i)) (2 ^ (j - 10))) as [|E]; [by exists loops|]. assert (i < 10) as Hi10 by (destruct (Z.eq_dec i 10) as [->|]; [done|lia]).
  rewrite (Z.shiftr_div_pow2 (2 ^ (j - i))) by lia. rewrite <- (Z.pow_sub_r 2 (j - i) 1) by lia. replace (j - i - 1) with (j - (i + 1)) by lia. pose proof (Z.pow_pos_nonneg 2 (j - i) ltac:(lia) ltac:(lia)) as Hp.
  apply IH; [lia|lia| |]; destruct (too_many _); try done.
  - assert (0 ≤ Z.lor loops (2 ^ (j - i))) as H by (apply Z.lor_nonneg; lia). destruct (Z.eq_dec (Z.lor loops (2 ^ (j - i))) 0) as [E0|]; [|lia]. apply Z.lor_eq_0_iff in E0. lia.
  - rewrite Z.log2_lor, Z.log2_pow2, Hl by lia. lia.
Qed.
(** The calibration ends and is right within a factor of two. *)
Theorem calibrate_within_two : ∃ r, timer_calibrate too_many = Done r ∧ limit < 2 * r ∧ r < 2 * limit.
Proof.
  destruct (double_loops_spec 23 10) as (j & Hj & E & Hl); [lia|lia|lia|]. unfold timer_calibrate. rewrite E. cbn [mbind outcome_bind]. rewrite (Z.shiftr_div_pow2 (2 ^ j)) by lia. rewrite <- (Z.pow_sub_r 2 j 1) by lia.
  destruct (refine_bits_spec 10 j ltac:(lia) 1 (2 ^ j)) as (r & -> & Hr & Hlog); [lia|lia|apply Z.pow_pos_nonneg; lia|apply Z.log2_pow2; lia|]. exists r. split; [done|]. pose proof (Z.log2_spec r Hr) as Hs. rewrite Hlog in Hs. rewrite !Z.pow_succ_r, Z.pow_add_r in * by lia. lia.
Qed.
End calibrated.
(** It is not better than that, although nine more bits are tried: each is
    tested with the highest bit alone and not with those found before it.  If a tick
    takes 1536 loops, 2046 are found. *)
Lemma calibrate_overshoots : timer_calibrate (λ n, 1536 <? n) = Done 2046.
Proof. vm_compute. reflexivity. Qed.

(** ** The date *)

Lemma bcd_decodes n : 0 ≤ n < 100 → bcd_to_bin (16 * (n `div` 10) + n `mod` 10) = n.
Proof.
  intros Hn. assert (forallb (λ n, bcd_to_bin (16 * (n `div` 10) + n `mod` 10) =? n) (seqZ 0 100) = true) as H by (vm_compute; reflexivity). rewrite forallb_forall in H. apply Z.eqb_eq, H, list_elem_of_In, elem_of_seqZ. lia.
Qed.
(** The days from 1970-01-01 to a date up to 2069, every fourth year from 1972 on
    being a leap year. *)
Definition days_before (mon : Z) : Z := foldr Z.add 0 (take (Z.to_nat (mon - 1)) days_per_month).
Definition days_since_epoch (year mon mday : Z) : Z :=
  year * 365 + (year + 1) `div` 4 + days_before mon + (if (2 <? mon) && (year `mod` 4 =? 2) then 1 else 0) + (mday - 1).
Lemma u32_add a b : u32 (u32 a + b) = u32 (a + b).
Proof. apply Zplus_mod_idemp_l. Qed.
Lemma add_months_spec n : ∀ i t, 1 ≤ i → i - 1 + Z.of_nat n ≤ 12 → add_months n i (u32 t) = Done (u32 (t + foldr Z.add 0 (take n (drop (Z.to_nat (i - 1)) days_per_month)) * 86400)).
Proof.
  induction n as [|n IH]; intros i t Hi Hn; cbn [add_months]; [by rewrite take_0, Z.add_0_r|]. destruct (zlookup_lt days_per_month (i - 1)) as [d Hd]; [change (zlen days_per_month) with 12; lia|]. rewrite (rd_Some _ _ _ Hd). cbn [mbind outcome_bind].
  replace (u32 (u32 t + d * 24 * 60 * 60)) with (u32 (t + d * 86400)) by (unfold u32; rewrite Zplus_mod_idemp_l; f_equal; lia). rewrite IH by lia. apply zlookup_Some in Hd as [_ Hd]. rewrite (drop_S _ _ _ Hd). cbn [take foldr]. replace (Z.to_nat (i + 1 - 1)) with (S (Z.to_nat (i - 1))) by lia. do 2 f_equal. lia.
Qed.
(** The time [rtc_get_time] computes is wrong for every date: it counts the days
    of the current month as passed, and it takes 1970, 1974 and so on for leap
    years, so that it is between 26 and 32 days ahead. *)
Theorem rtc_runs_ahead sec min hour mday mon year : 0 ≤ sec < 60 → 0 ≤ min < 60 → 0 ≤ hour < 24 → 1 ≤ mday ≤ 31 → 1 ≤ mon ≤ 12 → 0 ≤ year < 67 →
  rets (seconds sec min hour mday mon ((year + 70) `mod` 100)) (λ time,
    let true_time := days_since_epoch year mon mday * 86400 + hour * 3600 + min * 60 + sec in true_time + 26 * 86400 ≤ time ≤ true_time + 32 * 86400).
Proof.
  intros Hs Hmi Hh Hd Hm Hy. unfold seconds. assert ((if (year + 70) `mod` 100 <? 70 then (year + 70) `mod` 100 + 100 else (year + 70) `mod` 100) - 70 = year) as ->.
  { destruct (Z.ltb_spec ((year + 70) `mod` 100) 70); div_lia. }
  unfold int. assert (-1 ≤ (year - 1) `quot` 4 - (year + 1) `div` 4 ≤ 0) as Hq by div_lia. assert (0 ≤ (year + 1) `div` 4 ≤ 17) as Hq2 by div_lia. set (q := (year - 1) `quot` 4) in *. set (p := (year + 1) `div` 4) in *.
  destruct (Z.leb_spec (- 2 ^ 31) ((year * 365 + q) * 24 * 60 * 60)), (Z.ltb_spec ((year * 365 + q) * 24 * 60 * 60) (2 ^ 31)); try lia. cbn [andb mbind outcome_bind].
  assert (0 ≤ (year * 365 + q)) as Hpos by (destruct (Z.eq_dec year 0) as [->|]; [done|lia]).
  assert (∃ dm, 28 ≤ dm ≤ 31 ∧ 0 ≤ days_before mon ≤ 334 ∧ ∀ t, 0 ≤ t < 2 ^ 31 → add_months (Z.to_nat mon) 1 (u32 t) = Done (u32 (t + (days_before mon + dm) * 86400))) as (dm & Hdm & Hdb & Hadd).
  { assert (mon = 1 ∨ mon = 2 ∨ mon = 3 ∨ mon = 4 ∨ mon = 5 ∨ mon = 6 ∨ mon = 7 ∨ mon = 8 ∨ mon = 9 ∨ mon = 10 ∨ mon = 11 ∨ mon = 12) as Hc by lia. exists (default 0 days_per_month@[mon - 1]).
    assert (foldr Z.add 0 (take (Z.to_nat mon) days_per_month) = days_before mon + default 0 days_per_month@[mon - 1]) as Hsum by (destruct_or! Hc; subst mon; reflexivity).
    split; [destruct_or! Hc; subst mon; vm_compute; split; discriminate|]. split; [destruct_or! Hc; subst mon; vm_compute; split; discriminate|]. intros t Ht. rewrite add_months_spec by lia. change (drop (Z.to_nat (1 - 1)) days_per_month) with days_per_month. by rewrite Hsum. }
  rewrite Hadd by lia. cbn [mbind outcome_bind rets]. unfold days_since_epoch. fold p.
  set (time0 := (year * 365 + q) * 24 * 60 * 60 + (days_before mon + dm) * 86400).
  assert (∀ b, 0 ≤ b ≤ 86400 → u32 (u32 (u32 (u32 (u32 (time0 + b) + (mday - 1) * 24 * 60 * 60) + hour * 60 * 60) + min * 60) + sec) = time0 + b + (mday - 1) * 24 * 60 * 60 + hour * 60 * 60 + min * 60 + sec) as Hu.
  { intros b Hb. repeat (rewrite u32_add; rewrite <- ?Z.add_assoc). unfold u32. rewrite Z.mod_small; unfold time0; lia. }
  assert (∀ c : bool, (if c then u32 (u32 time0 + 24 * 60 * 60) else u32 time0) = u32 (time0 + if c then 86400 else 0)) as Hl by (intros []; [apply u32_add|by rewrite Z.add_0_r]).
  cbn zeta. rewrite Hl, Hu by (destruct (_ && _); lia). unfold time0. destruct ((2 <? mon) && (year `rem` 4 =? 0)), ((2 <? mon) && (year `mod` 4 =? 2)); lia.
Qed.
Lemma rtc_runs_ahead_witness : days_since_epoch 36 1 1 = 13149 ∧ rets (seconds 0 0 0 1 1 6) (λ time, 13149 * 86400 + 26 * 86400 ≤ time).
Proof.
  split; [reflexivity|]. eapply rets_mono; [apply (rtc_runs_ahead 0 0 0 1 1 36); lia|]. intros time [H _]. change (days_since_epoch 36 1 1) with 13149 in H. lia.
Defined.
Lemma sleep_rounds_down_witness : real_time_sleep 4096 25 1000 = Done (Sleep 2) ∧ 2 * 1000 ≤ 25 * TIMER_FREQ < 3 * 1000.
Proof.
  split; [reflexivity|]. pose proof (sleep_rounds_down 4096 25 1000 ltac:(lia) ltac:(lia) ltac:(left; reflexivity)) as H. change (0 < 2 ∧ 2 * 1000 ≤ 25 * TIMER_FREQ < (2 + 1) * 1000) in H. split; apply H.
Defined.
