(* ===== verification/Synch.v ===== *)
(** * Synchronisation (src/pintos/src/threads/synch.c)

    Semaphores, locks with priority donation, and condition variables.  A
    function that may put its caller to sleep, or that can be interrupted
    between two of its statements with an effect other threads see, is given as
    the pieces between these points: [sema_down] as one turn of its loop,
    [lock_acquire] and [lock_release] as the pieces that the definitions of the
    same names in Machine.v list in order.  Machine.v runs the pieces and lets
    other threads run in between. *)

From S2P Require Import Prelude KList KListOps Thread.

(** ** Semaphores *)

Definition sema_init (s : sid) (value : Z) : M kernel unit :=
  modify (λ k, set_sema_value (fupd (sema_value k) s (u32 value)) k);;
  modify (λ k, set_queues (fupd (queues k) (Waiters s) []) k).

(** One turn of the loop of [sema_down]; true when the value was decremented.
    When it is false the caller has been put to sleep and takes another turn
    once it runs again. *)
Definition sema_down_turn (s : sid) : M kernel bool :=
  c ← intr_context;
  assert (negb c);;
  old_level ← intr_disable;
  v ← gets (λ k, sema_value k s);
  if v =? 0 then
    t ← thread_current;
    push_elem (Waiters s) t;;
    thread_block;;
    intr_set_level old_level;;
    mret false
  else
    modify (λ k, set_sema_value (fupd (sema_value k) s (u32 (v - 1))) k);;
    intr_set_level old_level;;
    mret true.

Definition sema_try_down (s : sid) : M kernel bool :=
  old_level ← intr_disable;
  v ← gets (λ k, sema_value k s);
  if 0 <? v then
    modify (λ k, set_sema_value (fupd (sema_value k) s (u32 (v - 1))) k);;
    intr_set_level old_level;;
    mret true
  else
    intr_set_level old_level;;
    mret false.

Definition sema_up (s : sid) : M kernel unit :=
  old_level ← intr_disable;
  max ← max_elem (Waiters s);
  max_priority ←
    match max with
    | Some max =>
        remove_elem max;;
        th ← thread_at max;
        thread_unblock max;;
        mret (priority th)
    | None => mret 0
    end;
  modify (λ k, set_sema_value (fupd (sema_value k) s (u32 (sema_value k s + 1))) k);;
  c ← intr_context;
  (if negb c then
     t ← thread_current;
     th ← thread_at t;
     if priority th <? max_priority then thread_yield else mret tt
   else mret tt);;
  intr_set_level old_level;;
  mret tt.

(** ** Locks *)

Definition lock_init (lock : Z) : M kernel unit :=
  assert (negb (lock =? NULL));;
  modify (λ k, set_holder (fupd (holder k) lock NULL) k);;
  sema_init (LockSema lock) 1.

Definition lock_held_by_current_thread (lock : Z) : M kernel bool :=
  assert (negb (lock =? NULL));;
  h ← gets (λ k, holder k lock);
  t ← thread_current;
  mret (h =? t).

(** [lock->holder == NULL && list_empty (&lock->semaphore.waiters)
    && lock->semaphore.value == 1] *)
Definition lock_initial (lock : Z) : M kernel bool :=
  gets (λ k, (holder k lock =? NULL) && bool_decide (queues k (Waiters (LockSema lock)) = [])
             && (sema_value k (LockSema lock) =? 1)).

Definition lock_acquire_test (lock : Z) : M kernel bool :=
  assert (negb (lock =? NULL));;
  c ← intr_context;
  assert (negb c);;
  h ← lock_held_by_current_thread lock;
  assert (negb h);;
  lock_initial lock.

(** The condition of the donation.  [lock->holder] is read anew by each of the
    statements that follow: the lock may have been released, or have changed hands,
    in between. *)
Definition lock_acquire_donate (lock : Z) : M kernel bool :=
  gets (λ k, negb (holder k lock =? NULL) && negb (thread_mlfqs k)).
(** [thread_current ()->priority > lock->holder->priority] *)
Definition lock_acquire_compare (lock : Z) : M kernel bool :=
  t ← thread_current;
  th ← thread_at t;
  h ← gets (λ k, holder k lock);
  hth ← thread_at h;
  mret (priority hth <? priority th).
(** [lock->holder->priority = thread_current ()->priority] *)
Definition lock_acquire_give (lock : Z) : M kernel unit :=
  t ← thread_current;
  th ← thread_at t;
  h ← gets (λ k, holder k lock);
  modify_thread h (set_priority (priority th)).

Definition lock_acquire_push (lock : Z) : M kernel unit :=
  t ← thread_current;
  modify_thread t (λ th, set_all_locks (all_locks th ++ [lock]) th).

Definition lock_acquire_holder (lock : Z) : M kernel unit :=
  t ← thread_current;
  modify (λ k, set_holder (fupd (holder k) lock t) k).

Definition lock_try_acquire (lock : Z) : M kernel bool :=
  assert (negb (lock =? NULL));;
  h ← lock_held_by_current_thread lock;
  assert (negb h);;
  success ← sema_try_down (LockSema lock);
  (if success : bool then lock_acquire_holder lock else mret tt);;
  mret success.

(** Removes the first occurrence. *)
Fixpoint remove_first (x : Z) (xs : list Z) : list Z :=
  match xs with
  | [] => []
  | y :: xs => if y =? x then xs else y :: remove_first x xs
  end.

Definition lock_release_remove (lock : Z) : M kernel unit :=
  assert (negb (lock =? NULL));;
  h ← lock_held_by_current_thread lock;
  assert h;;
  t ← thread_current;
  modify_thread t (λ th, set_all_locks (remove_first lock (all_locks th)) th).

(** The greatest priority of the threads that wait for the locks [ls]. *)
Fixpoint max_donation (ls : list Z) (acc : Z) : M kernel Z :=
  match ls with
  | [] => mret acc
  | l :: ls =>
      p ← waiters_priority (LockSema l);
      max_donation ls (if acc <? p then p else acc)
  end.

Definition lock_release_priority : M kernel unit :=
  mlfqs ← gets thread_mlfqs;
  if negb mlfqs then
    t ← thread_current;
    th ← thread_at t;
    max_donate_priority ← max_donation (all_locks th) 0;
    if priority_old th <? max_donate_priority
    then modify_thread t (set_priority max_donate_priority)
    else modify_thread t (set_priority (priority_old th))
  else mret tt.

Definition lock_release_holder (lock : Z) : M kernel unit :=
  modify (λ k, set_holder (fupd (holder k) lock NULL) k).

(** ** Condition variables *)

Definition cond_init (cond : Z) : M kernel unit :=
  assert (negb (cond =? NULL));;
  modify (λ k, set_cond_waiters (fupd (cond_waiters k) cond []) k).

(** The part of [cond_wait] before [lock_release]. *)
Definition cond_wait_enqueue (cond lock : Z) : M kernel unit :=
  assert (negb (cond =? NULL));;
  assert (negb (lock =? NULL));;
  c ← intr_context;
  assert (negb c);;
  h ← lock_held_by_current_thread lock;
  assert h;;
  t ← thread_current;
  sema_init (WaiterSema t) 0;;
  modify (λ k, set_cond_waiters (fupd (cond_waiters k) cond (cond_waiters k cond ++ [t])) k).

(** The priority of the first thread that waits on the semaphore [t] queued;
    the semaphore's value, by the layout of the structures, if none does yet. *)
Definition cond_waiter_priority (k : kernel) (t : Z) : Z :=
  match queues k (Waiters (WaiterSema t)) with
  | [] => sema_value k (WaiterSema t)
  | w :: _ => prio k w
  end.

Definition cond_signal (cond lock : Z) : M kernel unit :=
  assert (negb (cond =? NULL));;
  assert (negb (lock =? NULL));;
  c ← intr_context;
  assert (negb c);;
  h ← lock_held_by_current_thread lock;
  assert h;;
  ws ← gets (λ k, cond_waiters k cond);
  match ws with
  | [] => mret tt
  | w :: ws' =>
      max ← gets (λ k, argmax (λ a b, cond_waiter_priority k a <? cond_waiter_priority k b) w ws');
      modify (λ k, set_cond_waiters (fupd (cond_waiters k) cond (remove_first max ws)) k);;
      sema_up (WaiterSema max)
  end.

Definition cond_broadcast_test (cond lock : Z) : M kernel bool :=
  assert (negb (cond =? NULL));;
  assert (negb (lock =? NULL));;
  gets (λ k, negb (bool_decide (cond_waiters k cond = []))).
