(* ===== verification/SchedInv.v ===== *)
(** * Invariants of the run queues

    What thread.c and synch.c keep true of the thread structures and the lists
    they are linked into, function by function.  [post m k Q] says that if [m]
    returns from the state [k], its result satisfies [Q]; that it does return
    is the subject of other theorems, since the assertions of the code are
    meant to catch misuse. *)

From S2P Require Import Prelude KList KListSort KListOps FixedPoint Thread Synch.

Definition post {S A} (m : M S A) (s : S) (Q : A → S → Prop) : Prop :=
  match m s with Done (a, s') => Q a s' | _ => True end.

Section post.
Context {S : Type}.
Implicit Types (s : S).

Lemma post_bind {A B} (m : M S A) (f : A → M S B) s Q :
  post m s (λ a s', post (f a) s' Q) → post (m ≫= f) s Q.
Proof. unfold post, mbind, M_bind. by destruct (m s) as [[a s']| | |]. Qed.
Lemma post_ret {A} (a : A) s (Q : A → S → Prop) : Q a s → post (mret a) s Q.
Proof. done. Qed.
Lemma post_gets {A} (f : S → A) s (Q : A → S → Prop) : Q (f s) s → post (gets f) s Q.
Proof. done. Qed.
Lemma post_modify (f : S → S) s (Q : unit → S → Prop) : Q tt (f s) → post (modify f) s Q.
Proof. done. Qed.
Lemma post_assert (b : bool) s (Q : unit → S → Prop) : (b = true → Q tt s) → post (assert b) s Q.
Proof. destruct b; [|done]. intros H. by apply H. Qed.
Lemma post_undefined {A} s (Q : A → S → Prop) : post undefined s Q.
Proof. done. Qed.
Lemma post_mono {A} (m : M S A) s (Q Q' : A → S → Prop) :
  post m s Q → (∀ a s', Q a s' → Q' a s') → post m s Q'.
Proof. unfold post. destruct (m s) as [[a s']| | |]; naive_solver. Qed.
Lemma post_done {A} (m : M S A) s a s' (Q : A → S → Prop) : post m s Q → m s = Done (a, s') → Q a s'.
Proof. intros H E. unfold post in H. by rewrite E in H. Qed.
End post.

Lemma post_thread_at t k Q : (∀ th, threads k !! t = Some th → Q th k) → post (thread_at t) k Q.
Proof. unfold post, thread_at. destruct (threads k !! t); auto. Qed.

(** One step of code whose outcome is given. *)
Ltac pstep :=
  match goal with
  | |- post (_ ≫= _) _ _ => apply post_bind
  | |- post (mret _) _ _ => apply post_ret
  | |- post (gets _) _ _ => apply post_gets
  | |- post (modify _) _ _ => apply post_modify
  | |- post (assert _) _ _ => apply post_assert; intro
  | |- post undefined _ _ => apply post_undefined
  | |- post (thread_at _) _ _ => apply post_thread_at; intros ? ?
  | |- post (modify_thread _ _) _ _ => unfold modify_thread
  | |- post intr_get_level _ _ => unfold intr_get_level
  | |- post intr_context _ _ => unfold intr_context
  | |- post intr_disable _ _ => unfold intr_disable
  | |- post intr_enable _ _ => unfold intr_enable
  | |- post (intr_set_level true) _ _ => unfold intr_set_level
  | |- post (intr_set_level false) _ _ => unfold intr_set_level
  | |- post (is_thread _) _ _ => unfold is_thread
  | |- post thread_current _ _ => unfold thread_current
  end.
Ltac psteps := repeat (pstep; cbv beta).

(** ** The invariant *)

(** The list a thread's [elem] is linked into. *)
Definition links (k : kernel) (t : Z) : option qid := threads k !! t ≫= elem.

(** The list [thread_unblock] puts a thread into. *)
Definition run_queue (k : kernel) (th : thread) : qid :=
  if thread_mlfqs k then MlfqsList (priority th) else ReadyList.

Definition is_run_queue (q : qid) : Prop := match q with Waiters _ => False | _ => True end.

(** Where a thread in each state may be linked; a sleeping thread is blocked
    and in no list; the idle thread is in no list and does not sleep. *)
Definition placed (k : kernel) (t : Z) (th : thread) : Prop :=
  match status th with
  | THREAD_RUNNING | THREAD_DYING => elem th = None
  | THREAD_READY => elem th = Some (run_queue k th) ∨ t = idle_thread k
  | THREAD_BLOCKED => match elem th with Some q => ¬ is_run_queue q | None => True end
  end ∧
  (0 < sleep_ticks th → status th = THREAD_BLOCKED ∧ elem th = None) ∧
  (t = idle_thread k → elem th = None ∧ sleep_ticks th ≤ 0).

(** The lists and the link fields agree, each list holds a thread once, and
    every thread is where its state says. *)
Record queues_ok (k : kernel) : Prop := {
  qo_links : ∀ q t, t ∈ queues k q ↔ links k t = Some q;
  qo_nodup : ∀ q, NoDup (queues k q);
  qo_placed : ∀ t th, threads k !! t = Some th → placed k t th;
  qo_null : threads k !! NULL = None;
  qo_range : ∀ q t, links k t = Some q → queue_ok q = true;
}.

(** The CPU runs [current], and no other thread is marked as running. *)
Record cpu_ok (k : kernel) : Prop := {
  co_current : ∃ th, threads k !! current k = Some th ∧ status th = THREAD_RUNNING;
  co_only : ∀ t th, threads k !! t = Some th → status th = THREAD_RUNNING → t = current k;
}.

Lemma fupd_eq {A} `{EqDecision A} {B} (f : A → B) a b : fupd f a b a = b.
Proof. unfold fupd. by rewrite decide_True. Qed.
Lemma fupd_ne {A} `{EqDecision A} {B} (f : A → B) a b x : x ≠ a → fupd f a b x = f x.
Proof. intros. unfold fupd. by rewrite decide_False. Qed.

(** ** Linking and unlinking *)

(** The state after thread [t] is changed to [th]. *)
Definition put_thread (t : Z) (th : thread) (k : kernel) : kernel :=
  set_threads (<[t := th]> (threads k)) k.
Definition put_queue (q : qid) (ts : list Z) (k : kernel) : kernel :=
  set_queues (fupd (queues k) q ts) k.

Lemma links_put t th k x : links (put_thread t th k) x = if decide (x = t) then elem th else links k x.
Proof.
  unfold links, put_thread. simpl. case_decide; subst.
  - by rewrite lookup_insert_eq.
  - by rewrite lookup_insert_ne.
Qed.

Lemma post_push_elem q t k (Q : unit → kernel → Prop) :
  (∀ th, threads k !! t = Some th → elem th = None → queue_ok q = true →
     Q tt (put_queue q (queues k q ++ [t]) (put_thread t (set_elem (Some q) th) k))) →
  post (push_elem q t) k Q.
Proof.
  intros HQ. unfold push_elem. psteps. case_bool_decide as He; simpl; [|by psteps].
  destruct (queue_ok q) eqn:?; psteps. simplify_eq. by apply HQ.
Qed.

Lemma post_remove_elem t k (Q : unit → kernel → Prop) :
  (∀ th q, threads k !! t = Some th → elem th = Some q →
     Q tt (put_queue q (filter (λ x, x ≠ t) (queues k q)) (put_thread t (set_elem None th) k))) →
  post (remove_elem t) k Q.
Proof.
  intros HQ. unfold remove_elem. psteps. destruct (elem th) as [q|] eqn:E; psteps. simplify_eq.
  by apply HQ.
Qed.

(** The invariant looks only at the threads, the lists, the idle thread and the
    choice of scheduler. *)
Lemma queues_ok_ext k k' :
  threads k' = threads k → (∀ q, queues k' q = queues k q) →
  thread_mlfqs k' = thread_mlfqs k → idle_thread k' = idle_thread k →
  queues_ok k → queues_ok k'.
Proof.
  intros Et Eq Em Ei [H1 H2 H3 H4 H5]. split.
  - intros q t. unfold links. rewrite Eq, Et. apply H1.
  - intros q. by rewrite Eq.
  - intros t th. rewrite Et. intros Ht. specialize (H3 t th Ht).
    unfold placed, run_queue in *. by rewrite Em, Ei.
  - by rewrite Et.
  - intros q t. unfold links. rewrite Et. apply H5.
Qed.

Lemma queues_ok_put t th th' k :
  queues_ok k → threads k !! t = Some th → elem th' = elem th → placed k t th' →
  queues_ok (put_thread t th' k).
Proof.
  intros [H1 H2 H3 H4 H5] Ht He Hp. split; [|done| | |].
  - intros q x. rewrite links_put. simpl. rewrite H1. case_decide; subst; [|done].
    unfold links. rewrite Ht. simpl. by rewrite He.
  - intros x thx. simpl. destruct (decide (x = t)) as [->|].
    + rewrite lookup_insert_eq. by intros [= <-].
    + rewrite lookup_insert_ne by done. apply H3.
  - simpl. destruct (decide (t = NULL)) as [->|]; [congruence|]. by rewrite lookup_insert_ne.
  - intros q x. rewrite links_put. case_decide; subst; [|apply H5]. rewrite He. intros Hq.
    apply (H5 q t). unfold links. by rewrite Ht.
Qed.

Lemma queues_ok_push t th th' q k :
  queues_ok k → threads k !! t = Some th → elem th = None → elem th' = Some q → placed k t th' →
  queue_ok q = true →
  queues_ok (put_queue q (queues k q ++ [t]) (put_thread t th' k)).
Proof.
  intros [H1 H2 H3 H4 H5] Ht He He' Hp Hq. assert (∀ q', t ∉ queues k q') as Hnot.
  { intros q' Hin. apply H1 in Hin. unfold links in Hin. rewrite Ht in Hin. simpl in Hin. by rewrite He in Hin. }
  split.
  - intros q' x. change (links (put_queue _ _ ?k1) x) with (links k1 x). rewrite links_put. simpl.
    destruct (decide (q' = q)) as [->|].
    + rewrite fupd_eq, elem_of_app, list_elem_of_singleton, H1. case_decide; subst; [tauto|].
      split; [intros [?|?]; done|auto].
    + rewrite fupd_ne, H1 by done. case_decide; subst; [|done].
      rewrite He'. unfold links. rewrite Ht. simpl. rewrite He. naive_solver.
  - intros q'. simpl. destruct (decide (q' = q)) as [->|]; [|by rewrite fupd_ne].
    rewrite fupd_eq. apply list.NoDup_app. split_and!; [done| |apply NoDup_singleton].
    intros x Hx ->%list_elem_of_singleton. by eapply Hnot.
  - intros x thx. simpl. destruct (decide (x = t)) as [->|].
    + rewrite lookup_insert_eq. by intros [= <-].
    + rewrite lookup_insert_ne by done. apply H3.
  - simpl. destruct (decide (t = NULL)) as [->|]; [congruence|]. by rewrite lookup_insert_ne.
  - intros q' x. change (links (put_queue _ _ ?k1) x) with (links k1 x). rewrite links_put.
    case_decide; subst; [|apply H5]. rewrite He'. by intros [= <-].
Qed.

Lemma queues_ok_remove t th th' q k :
  queues_ok k → threads k !! t = Some th → elem th = Some q → elem th' = None → placed k t th' →
  queues_ok (put_queue q (filter (λ x, x ≠ t) (queues k q)) (put_thread t th' k)).
Proof.
  intros [H1 H2 H3 H4 H5] Ht He He' Hp. split.
  - intros q' x. change (links (put_queue _ _ ?k1) x) with (links k1 x). rewrite links_put. simpl.
    destruct (decide (q' = q)) as [->|].
    + rewrite fupd_eq, list_elem_of_filter, H1. case_decide; subst; [naive_solver|naive_solver].
    + rewrite fupd_ne, H1 by done. case_decide; subst; [|done].
      rewrite He'. unfold links. rewrite Ht. simpl. rewrite He. naive_solver.
  - intros q'. simpl. destruct (decide (q' = q)) as [->|]; [|by rewrite fupd_ne].
    rewrite fupd_eq. by apply list.NoDup_filter.
  - intros x thx. simpl. destruct (decide (x = t)) as [->|].
    + rewrite lookup_insert_eq. by intros [= <-].
    + rewrite lookup_insert_ne by done. apply H3.
  - simpl. destruct (decide (t = NULL)) as [->|]; [congruence|]. by rewrite lookup_insert_ne.
  - intros q' x. change (links (put_queue _ _ ?k1) x) with (links k1 x). rewrite links_put.
    case_decide; subst; [|apply H5]. by rewrite He'.
Qed.

(** ** Scheduling *)

(** What a function that only schedules leaves alone. *)
Record same_objects (k k' : kernel) : Prop := {
  so_waiters : ∀ s, queues k' (Waiters s) = queues k (Waiters s);
  so_sema : sema_value k' = sema_value k;
  so_holder : holder k' = holder k;
  so_cond : cond_waiters k' = cond_waiters k;
  so_lock_list : lock_list k' = lock_list k;
  so_mlfqs : thread_mlfqs k' = thread_mlfqs k;
  so_idle : idle_thread k' = idle_thread k;
  so_init : initial_thread k' = initial_thread k;
  so_tid : next_tid k' = next_tid k;
}.

(** A thread other than by its state and links is as before. *)
Definition same_thread (th th' : thread) : Prop :=
  priority th' = priority th ∧ priority_old th' = priority_old th ∧ all_locks th' = all_locks th ∧
  tid th' = tid th.

#[export] Instance same_objects_pre : PreOrder same_objects.
Proof.
  split; [by split|]. intros k1 k2 k3 [] []. split; intros; congruence.
Qed.
#[export] Instance same_thread_pre : PreOrder same_thread.
Proof. split; [by intros ?|]. intros a b c (? & ? & ? & ?) (? & ? & ? & ?). split_and!; congruence. Qed.

(** The threads of [k'] are those of [k], up to their state and links. *)
Definition same_threads (k k' : kernel) : Prop :=
  ∀ t, option_Forall2 same_thread (threads k !! t) (threads k' !! t).
#[export] Instance same_threads_pre : PreOrder same_threads.
Proof.
  split.
  - intros k t. destruct (threads k !! t); by constructor.
  - intros k1 k2 k3 H1 H2 t. specialize (H1 t). specialize (H2 t).
    destruct H1 as [a b|]; inversion H2; subst; constructor. by etransitivity.
Qed.

Lemma same_threads_put k t th th' :
  threads k !! t = Some th → same_thread th th' → same_threads k (put_thread t th' k).
Proof.
  intros Ht Hs x. simpl. destruct (decide (x = t)) as [->|].
  - rewrite lookup_insert_eq, Ht. by constructor.
  - rewrite lookup_insert_ne by done. destruct (threads k !! x); by constructor.
Qed.

(** Every runnable thread has at most the priority [p]. *)
Definition none_above (k : kernel) (p : Z) : Prop :=
  ∀ q t, is_run_queue q → t ∈ queues k q → prio k t ≤ p.

#[export] Instance less_priority_swo k : StrictWeakOrder (less_priority k).
Proof. split; unfold less_priority; intros *; rewrite ?Z.ltb_lt, ?Z.ltb_ge; lia. Qed.

Lemma max_elem_spec (k : kernel) t ts :
  let m := argmax (less_priority k) t ts in
  m ∈ t :: ts ∧ ∀ x, x ∈ t :: ts → prio k x ≤ prio k m.
Proof.
  destruct (argmax_is_first (less_priority k) t ts) as (A & B & E & HA & HB). simpl. rewrite E.
  split; [apply elem_of_app; right; apply list_elem_of_here|].
  intros x [Hx|[->|Hx]%elem_of_cons]%elem_of_app; [|lia|].
  - pose proof (proj1 (Z.ltb_lt _ _) (HA x Hx)). lia.
  - pose proof (proj1 (Z.ltb_ge _ _) (HB x Hx)). lia.
Qed.

Lemma first_nonempty_spec n k :
  match first_nonempty n k with
  | Some i => 0 ≤ i < Z.of_nat n ∧ queues k (MlfqsList i) ≠ [] ∧
      ∀ j, i < j < Z.of_nat n → queues k (MlfqsList j) = []
  | None => ∀ j, 0 ≤ j < Z.of_nat n → queues k (MlfqsList j) = []
  end.
Proof.
  induction n as [|n IH]; cbn [first_nonempty]; [intros; lia|].
  case_bool_decide as E.
  - destruct (first_nonempty n k) as [i|].
    + destruct IH as (? & ? & IH). split_and!; [lia..|done|]. intros j Hj.
      destruct (decide (j = Z.of_nat n)) as [->|]; [done|]. apply IH. lia.
    + intros j Hj. destruct (decide (j = Z.of_nat n)) as [->|]; [done|]. apply IH. lia.
  - split_and!; [lia..|done|]. intros. lia.
Qed.

(** The effect of [thread_unblock]. *)
Definition unblocked (t : Z) (th : thread) (k : kernel) : kernel :=
  put_queue (run_queue k th) (queues k (run_queue k th) ++ [t])
    (put_thread t (set_status THREAD_READY (set_elem (Some (run_queue k th)) th)) k).

Lemma put_thread_queue t th q ts k : put_thread t th (put_queue q ts k) = put_queue q ts (put_thread t th k).
Proof. done. Qed.
Lemma put_thread_twice t th th' k : put_thread t th' (put_thread t th k) = put_thread t th' k.
Proof. unfold put_thread. simpl. by rewrite insert_insert_eq. Qed.
Lemma put_thread_at t th k : threads (put_thread t th k) !! t = Some th.
Proof. simpl. by rewrite lookup_insert_eq. Qed.

(** Restoring the interrupt level undoes disabling interrupts. *)
Lemma intr_on_eta k b : intr_on k = b → set_intr_on b k = k.
Proof. destruct k. simpl. by intros ->. Qed.

Lemma post_thread_unblock t k (Q : unit → kernel → Prop) :
  (∀ th, threads k !! t = Some th → status th = THREAD_BLOCKED → elem th = None →
     queue_ok (run_queue k th) = true → Q tt (unblocked t th k)) → post (thread_unblock t) k Q.
Proof.
  intros HQ. unfold thread_unblock. do 4 (pstep; cbv beta). pstep. pstep. psteps.
  rename select (bool_decide (status _ = _) = true) into Hst. apply bool_decide_eq_true in Hst.
  rename select (threads _ !! t = Some th) into Ht. simpl in Ht.
  assert (post (if thread_mlfqs k then push_elem (MlfqsList (priority th)) t else push_elem ReadyList t)
    (set_intr_on false k) (λ _ k1, queue_ok (run_queue k th) = true ∧ elem th = None ∧
      k1 = put_queue (run_queue k th) (queues k (run_queue k th) ++ [t])
             (put_thread t (set_elem (Some (run_queue k th)) th) (set_intr_on false k)))) as Hpush.
  { unfold run_queue. destruct (thread_mlfqs k); apply post_push_elem; intros th' Ht' He ?;
      simpl in Ht'; rewrite Ht' in Ht; simplify_eq; done. }
  eapply post_mono; [apply Hpush|]. intros [] k1 (Hok & He & ->). psteps.
  rename select (threads _ !! t = Some _) into Ht1. simpl in Ht1. rewrite lookup_insert_eq in Ht1. simplify_eq.
  specialize (HQ th Ht Hst He Hok). unfold unblocked in HQ. destruct (intr_on k) eqn:Ei; psteps.
  - rewrite <-(intr_on_eta k true Ei) in HQ. unfold put_thread, put_queue in *. simpl in *.
    by rewrite insert_insert_eq.
  - rewrite <-(intr_on_eta k false Ei) in HQ. unfold put_thread, put_queue in *. simpl in *.
    by rewrite insert_insert_eq.
Qed.

Lemma queues_ok_unblocked t th k :
  queues_ok k → threads k !! t = Some th → status th = THREAD_BLOCKED → elem th = None →
  sleep_ticks th ≤ 0 → t ≠ idle_thread k → queue_ok (run_queue k th) = true →
  queues_ok (unblocked t th k).
Proof.
  intros Hk Ht Hs He Hsl Hid Hq. eapply queues_ok_push; [done..| |done].
  split_and!; simpl; [by left|lia|done].
Qed.

(** In a run queue there are only ready threads, queued by the scheduler in use. *)
Lemma run_queue_ready k q t : queues_ok k → is_run_queue q → t ∈ queues k q →
  ∃ th, threads k !! t = Some th ∧ status th = THREAD_READY ∧ elem th = Some q ∧ q = run_queue k th.
Proof.
  intros [H1 _ H3 _ _] Hq Ht. apply H1 in Ht. unfold links in Ht.
  destruct (threads k !! t) as [th|] eqn:E; [|done]. simpl in Ht. exists th.
  destruct (H3 t th E) as (Hpl & _ & Hidle). rewrite Ht in Hpl, Hidle. destruct (status th); try done.
  destruct Hpl as [[= ->]|Hid]; [done|]. by destruct (Hidle Hid).
Qed.

Lemma prio_at k t th : threads k !! t = Some th → prio k t = priority th.
Proof. unfold prio. by intros ->. Qed.

(** What [next_thread_to_run] takes: nothing when no thread is ready, otherwise
    a thread no ready thread is more urgent than. *)
Definition taken (k : kernel) (n : Z) (k' : kernel) : Prop :=
  (n = idle_thread k ∧ k' = k ∧ ∀ q, is_run_queue q → queues k q = []) ∨
  (∃ th q, threads k !! n = Some th ∧ elem th = Some q ∧ is_run_queue q ∧
     status th = THREAD_READY ∧ none_above k (priority th) ∧
     k' = put_queue q (filter (λ x, x ≠ n) (queues k q)) (put_thread n (set_elem None th) k)).

(** A thread in a run queue is in one of the queues the scheduler in use looks at. *)
Lemma run_queue_cases k q t : queues_ok k → is_run_queue q → t ∈ queues k q →
  q = ReadyList ∧ thread_mlfqs k = false ∨
  ∃ j, q = MlfqsList j ∧ thread_mlfqs k = true ∧ 0 ≤ j < Z.of_nat 64 ∧ prio k t = j.
Proof.
  intros Hk Hq Hin. destruct (run_queue_ready k q t Hk Hq Hin) as (th & Ht & _ & He & Hrq).
  unfold run_queue in Hrq. destruct (thread_mlfqs k); [right|by left].
  assert (queue_ok q = true) as Hok by (eapply (qo_range _ Hk _ t); by apply (qo_links _ Hk)).
  subst q. unfold queue_ok, PRI_MAX, PRI_MIN in Hok. apply andb_prop in Hok as [?%Z.leb_le ?%Z.leb_le].
  exists (priority th). rewrite (prio_at _ _ _ Ht). split_and!; done || lia.
Qed.

Lemma no_run_queue k : queues_ok k →
  (thread_mlfqs k = true → ∀ j, 0 ≤ j < Z.of_nat 64 → queues k (MlfqsList j) = []) →
  (thread_mlfqs k = false → queues k ReadyList = []) →
  ∀ q, is_run_queue q → queues k q = [].
Proof.
  intros Hk H1 H2 q Hq. destruct (queues k q) as [|t ts] eqn:E; [done|].
  assert (t ∈ queues k q) as Hin by (rewrite E; apply list_elem_of_here).
  destruct (run_queue_cases k q t Hk Hq Hin) as [[-> ?]|(j & -> & ? & ? & _)]; rewrite <-E; auto.
Qed.

(** Taking the thread [n] out of the run queue [q]. *)
Lemma taken_remove k n q : queues_ok k → intr_on k = false → is_run_queue q → n ∈ queues k q →
  none_above k (prio k n) →
  post (remove_elem n) (set_intr_on false k)
    (λ _ k', post (x ← intr_set_level false; mret n) k' (taken k)).
Proof.
  intros Hk Hi Hq Hin Habove. destruct (run_queue_ready k q n Hk Hq Hin) as (th & Ht & Hst & He & Hrq).
  psteps. apply post_remove_elem. intros th' q' Ht' He'. simpl in Ht'. simplify_eq. psteps. right.
  rewrite (prio_at _ _ _ Ht) in Habove. exists th, (run_queue k th). split_and!; try done.
  rewrite (intr_on_eta k false Hi). by rewrite intr_on_eta.
Qed.

Lemma post_next_thread k : queues_ok k → intr_on k = false → post next_thread_to_run k (taken k).
Proof.
  intros Hk Hi. unfold next_thread_to_run. psteps. destruct (thread_mlfqs k) eqn:Em; psteps.
  - rewrite Hi. pose proof (first_nonempty_spec 64 (set_intr_on false k)) as Hf.
    destruct (first_nonempty 64 (set_intr_on false k)) as [i|]; cbn [queues set_intr_on] in Hf.
    + destruct Hf as (Hi1 & Hne & Hab). psteps. cbn [queues set_intr_on].
      destruct (queues k (MlfqsList i)) as [|m ms] eqn:Eq; [done|].
      assert (m ∈ queues k (MlfqsList i)) as Hm by (rewrite Eq; apply list_elem_of_here).
      psteps. eapply (taken_remove k m (MlfqsList i)); [done..|]. intros q' t Hq' Hin.
      destruct (run_queue_cases k (MlfqsList i) m Hk I Hm) as [[? _]|(j & [= <-] & _ & _ & ->)]; [done|].
      destruct (run_queue_cases k _ t Hk Hq' Hin) as [[-> ?]|(j & -> & _ & ? & ->)]; [congruence|].
      destruct (decide (i < j)); [|lia]. rewrite Hab in Hin by lia. by apply not_elem_of_nil in Hin.
    + psteps. left. split_and!; [done|by rewrite (intr_on_eta k false Hi), intr_on_eta|].
      apply no_run_queue; [done..|congruence].
  - unfold max_elem. psteps. destruct (queues k ReadyList) as [|m ms] eqn:Eq; psteps.
    + left. split_and!; [done..|]. apply no_run_queue; [done|congruence|done].
    + rewrite Hi. destruct (max_elem_spec k m ms) as [Hin Hmax]. rewrite <-Eq in Hin, Hmax.
      eapply (taken_remove k _ ReadyList); [done..|]. intros q' t Hq' Hin'.
      destruct (run_queue_cases k _ t Hk Hq' Hin') as [[-> _]|(j & _ & ? & _)]; [by apply Hmax|congruence].
Qed.

(** The invariant survives the removal of a thread that is in no list. *)
Lemma queues_ok_delete k t : queues_ok k → links k t = None →
  queues_ok (set_threads (delete t (threads k)) k).
Proof.
  intros [H1 H2 H3 H4 H5] Ht.
  assert (∀ x, links (set_threads (delete t (threads k)) k) x = links k x) as Hl.
  { intros x. unfold links in *. simpl. destruct (decide (x = t)) as [->|].
    - by rewrite lookup_delete_eq, Ht.
    - by rewrite lookup_delete_ne. }
  split; [|done| | |].
  - intros q x. rewrite Hl. apply H1.
  - intros x th. simpl. intros Hx. apply H3. by apply lookup_delete_Some in Hx as [_ ?].
  - simpl. by apply lookup_delete_None; right.
  - intros q x. rewrite Hl. apply H5.
Qed.

(** Blocked, but neither queued nor asleep: only an explicit [thread_unblock]
    can make such a thread run, as it does for a newly created one. *)
Definition orphan (th : thread) : Prop :=
  status th = THREAD_BLOCKED ∧ elem th = None ∧ sleep_ticks th ≤ 0.

(** What a switch leaves: exactly one thread runs, it is one no ready thread is
    more urgent than, and nothing but states and links of threads has changed;
    a dying thread may be gone. *)
Record scheduled (k k' : kernel) : Prop := {
  sc_queues : queues_ok k';
  sc_cpu : cpu_ok k';
  sc_objects : same_objects k k';
  sc_intr : intr_on k' = false;
  sc_context : in_external_intr k' = in_external_intr k;
  sc_all : all_list k' = all_list k;
  sc_top : none_above k' (prio k' (current k'));
  sc_old : ∀ t th', threads k' !! t = Some th' → ∃ th, threads k !! t = Some th ∧ same_thread th th';
  sc_kept : ∀ t th, threads k !! t = Some th → status th ≠ THREAD_DYING →
    ∃ th', threads k' !! t = Some th' ∧ same_thread th th';
  sc_orphans : ∀ t th, threads k !! t = Some th → orphan th → t ≠ idle_thread k →
    threads k' !! t = Some th;
}.

(** The state in which the thread [n] starts to run. *)
Definition started (n : Z) (th : thread) (k : kernel) : kernel :=
  set_thread_ticks 0 (put_thread n (set_status THREAD_RUNNING th) (set_current n k)).

Lemma same_threads_prio k k' t : same_threads k k' → prio k' t = prio k t.
Proof. intros H. unfold prio. destruct (H t) as [a b (-> & _)|]; done. Qed.
Lemma same_threads_old k k' t th' : same_threads k k' → threads k' !! t = Some th' →
  ∃ th, threads k !! t = Some th ∧ same_thread th th'.
Proof. intros H E. specialize (H t). rewrite E in H. inversion H; subst. eauto. Qed.
Lemma same_threads_new k k' t th : same_threads k k' → threads k !! t = Some th →
  ∃ th', threads k' !! t = Some th' ∧ same_thread th th'.
Proof. intros H E. specialize (H t). rewrite E in H. inversion H; subst. eauto. Qed.

Lemma awake k t th : queues_ok k → threads k !! t = Some th → status th ≠ THREAD_BLOCKED → sleep_ticks th ≤ 0.
Proof.
  intros Hk Ht Hs. destruct (qo_placed _ Hk _ _ Ht) as (_ & Hsl & _).
  destruct (decide (sleep_ticks th ≤ 0)); [done|]. destruct Hsl as [? _]; [lia|congruence].
Qed.

Lemma started_queues k n th k1 :
  taken k n k1 → queues_ok k → threads k1 !! n = Some th → queues_ok (started n th k1).
Proof.
  intros [(-> & -> & Hno)|(th0 & q & Ht & He & Hq & Hs & Hab & ->)] Hk Hn.
  - destruct (qo_placed _ Hk _ _ Hn) as (_ & _ & Hid). destruct (Hid eq_refl) as [? ?].
    apply (queues_ok_ext (put_thread (idle_thread k) (set_status THREAD_RUNNING th) k)); [done..|].
    eapply queues_ok_put; [done..|]. split_and!; simpl; try done. lia.
  - simpl in Hn. rewrite lookup_insert_eq in Hn. injection Hn as <-.
    destruct (qo_placed _ Hk _ _ Ht) as (_ & _ & Hid).
    assert (sleep_ticks th0 ≤ 0) by (eapply awake; [done..|congruence]).
    apply (queues_ok_ext (put_queue q (filter (λ x, x ≠ n) (queues k q))
      (put_thread n (set_status THREAD_RUNNING (set_elem None th0)) k))); [|done..|].
    { simpl. by rewrite insert_insert_eq. }
    eapply queues_ok_remove; [done..|]. split_and!; simpl; [done|lia|]. intros Hn. by destruct (Hid Hn).
Qed.

Lemma taken_same k n k1 : taken k n k1 → queues_ok k →
  same_objects k k1 ∧ same_threads k k1 ∧ intr_on k1 = intr_on k ∧
  in_external_intr k1 = in_external_intr k ∧ all_list k1 = all_list k ∧ none_above k1 (prio k1 n).
Proof.
  intros [(-> & -> & Hno)|(th0 & q & Ht & He & Hq & Hs & Hab & ->)] Hk.
  - split_and!; try done. intros q t Hq Hin. rewrite Hno in Hin by done. by apply not_elem_of_nil in Hin.
  - assert (same_threads k (put_thread n (set_elem None th0) k)) as Hst
      by (eapply same_threads_put; [done|done]).
    split_and!; try done.
    + split; try done. intros s. simpl. rewrite fupd_ne; [done|]. by intros <-.
    + intros q' t Hq' Hin. change (prio (put_queue _ _ ?k1) t) with (prio k1 t).
      change (prio (put_queue _ _ ?k1) n) with (prio k1 n).
      rewrite !(same_threads_prio _ _ _ Hst), (prio_at _ _ _ Ht). apply (Hab q' t Hq').
      simpl in Hin. destruct (decide (q' = q)) as [->|]; [|by rewrite fupd_ne in Hin].
      rewrite fupd_eq in Hin. by apply list_elem_of_filter in Hin as [_ ?].
Qed.

Lemma taken_other k n k1 t : taken k n k1 → t ≠ n → threads k1 !! t = threads k !! t.
Proof.
  intros [(_ & -> & _)|(th0 & q & _ & _ & _ & _ & _ & ->)] Hne; [done|]. simpl. by rewrite lookup_insert_ne.
Qed.

Lemma started_ok k n th k1 :
  taken k n k1 → queues_ok k → intr_on k = false → threads k1 !! n = Some th →
  (∀ t th, threads k !! t = Some th → status th ≠ THREAD_RUNNING) →
  scheduled k (started n th k1) ∧ current (started n th k1) = n.
Proof.
  intros Htk Hk Hi Hn Hnone. destruct (taken_same _ _ _ Htk Hk) as (Hso & Hst & Hi1 & Hc1 & Ha1 & Hab).
  assert (same_threads k1 (put_thread n (set_status THREAD_RUNNING th) k1)) as Hst'
    by (eapply same_threads_put; [done|done]).
  assert (same_threads k (put_thread n (set_status THREAD_RUNNING th) k1)) as Hst2 by (by etransitivity).
  split; [|done]. split.
  - by eapply started_queues.
  - split; simpl; [rewrite lookup_insert_eq; eauto|]. intros t th1.
    destruct (decide (t = n)) as [->|]; [done|]. rewrite lookup_insert_ne by done. intros Ht Hs.
    exfalso. destruct Htk as [(_ & -> & _)|(th0 & q & Ht0 & _ & _ & _ & _ & ->)]; [by eapply Hnone|].
    simpl in Ht. rewrite lookup_insert_ne in Ht by done. by eapply Hnone.
  - destruct Hso; by split.
  - simpl. congruence.
  - done.
  - done.
  - intros q t Hq Hin. specialize (Hab q t Hq Hin).
    change (prio k1 t ≤ prio k1 n) in Hab.
    rewrite <-!(same_threads_prio _ _ _ Hst') in Hab. exact Hab.
  - intros t th'. apply (same_threads_old _ _ _ _ Hst2).
  - intros t th0 Ht _. apply (same_threads_new _ _ _ _ Hst2 Ht).
  - intros t th0 Ht (Hb & He & _) Hid. simpl. rewrite lookup_insert_ne.
    + rewrite (taken_other _ _ _ _ Htk); [done|].
      destruct Htk as [(-> & _)|(th1 & q & Ht1 & He1 & _)]; [done|congruence].
    + destruct Htk as [(-> & _)|(th1 & q & Ht1 & He1 & _)]; congruence.
Qed.

Lemma current_eta k n : current k = n → set_current n k = k.
Proof. destruct k. simpl. by intros ->. Qed.

Lemma taken_current k n k1 : taken k n k1 → current k1 = current k.
Proof. by intros [(_ & -> & _)|(th0 & q & _ & _ & _ & _ & _ & ->)]. Qed.

(** The thread that was switched from is destroyed if it is dying. *)
Lemma scheduled_delete k k' t th :
  scheduled k k' → threads k !! t = Some th → status th = THREAD_DYING →
  t ≠ current k' → links k' t = None →
  scheduled k (set_threads (delete t (threads k')) k').
Proof.
  intros [Hq [(thc & Hc & Hsc) Ho] Hso Hi Hctx Ha Htop Hold Hkept Horph] Ht Hs Hne Hl.
  assert (∀ x, x ≠ t → threads (set_threads (delete t (threads k')) k') !! x = threads k' !! x) as Hx
    by (intros x ?; simpl; by rewrite lookup_delete_ne).
  split; try done.
  - by apply queues_ok_delete.
  - split; [exists thc; by rewrite Hx|]. intros x thx Hthx. apply Ho.
    simpl in Hthx. by apply lookup_delete_Some in Hthx as [_ ?].
  - destruct Hso; by split.
  - intros q x Hrq Hin. simpl in Hin. assert (x ≠ t).
    { intros ->. apply (qo_links _ Hq) in Hin. congruence. }
    unfold prio. rewrite Hx by done. change (current (set_threads _ k')) with (current k').
    rewrite Hx by done. exact (Htop q x Hrq Hin).
  - intros x thx Hthx. apply Hold. simpl in Hthx. by apply lookup_delete_Some in Hthx as [_ ?].
  - intros x thx Hthx Hnd. destruct (decide (x = t)) as [->|]; [congruence|].
    rewrite Hx by done. by apply Hkept.
  - intros x thx Hthx Hor Hid. destruct (decide (x = t)) as [->|]; [|rewrite Hx by done; by apply Horph].
    destruct Hor. congruence.
Qed.

Lemma post_schedule k : queues_ok k → intr_on k = false →
  (∀ t th, threads k !! t = Some th → status th ≠ THREAD_RUNNING) →
  post schedule k (λ _ k', scheduled k k').
Proof.
  intros Hk Hi Hnone. unfold schedule. psteps.
  eapply post_mono; [by apply post_next_thread|]. intros n k1 Htk. psteps.
  rename select (threads k1 !! current k = Some _) into Hcur.
  pose proof (taken_current _ _ _ Htk) as Ec.
  destruct (Z.eqb_spec (current k) n) as [En|Hne]; unfold thread_schedule_tail; psteps; simpl in *.
  - rename select (threads k1 !! current k1 = Some _) into Hn. rewrite Ec, En in Hn |- *.
    destruct (started_ok k n _ k1 Htk Hk Hi Hn Hnone) as [Hs _]. unfold started in Hs.
    by rewrite (current_eta k1) in Hs by congruence.
  - rename select (threads k1 !! n = Some _) into Hn.
    destruct (started_ok k n _ k1 Htk Hk Hi Hn Hnone) as [Hs Ecur]. unfold started in Hs, Ecur.
    destruct (Z.eqb_spec (current k) NULL) as [E0|]; psteps.
    { pose proof (taken_other _ _ _ (current k) Htk Hne) as Eo. rewrite E0, (qo_null _ Hk) in Eo. congruence. }
    simpl. match goal with |- context [if ?b then _ else _] => destruct b eqn:Eb end; psteps; [|done].
    apply andb_prop in Eb as [Ed%bool_decide_eq_true _].
    match goal with H : threads (set_thread_ticks _ _) !! _ = Some _ |- _ => rename H into Hp end.
    simpl in Hp. rewrite lookup_insert_ne in Hp by done.
    pose proof Hp as Hp'. rewrite (taken_other _ _ _ _ Htk Hne) in Hp'.
    eapply scheduled_delete; [done..|simpl; congruence|].
    destruct (qo_placed _ Hk _ _ Hp') as (Hpl & _). rewrite Ed in Hpl.
    unfold links. simpl. rewrite lookup_insert_ne by done. by rewrite Hp.
Qed.

(** ** Giving up the CPU *)

Definition only_current_runs (k : kernel) : Prop :=
  ∀ t th, threads k !! t = Some th → status th = THREAD_RUNNING → t = current k.

Lemma none_runs k th : only_current_runs k → status th ≠ THREAD_RUNNING →
  ∀ t th', threads (put_thread (current k) th k) !! t = Some th' → status th' ≠ THREAD_RUNNING.
Proof.
  intros Ho Hs t th'. simpl. destruct (decide (t = current k)) as [->|].
  - rewrite lookup_insert_eq. by intros [= <-].
  - rewrite lookup_insert_ne by done. intros Ht Hr. by pose proof (Ho _ _ Ht Hr).
Qed.

(** The current thread, in its new state, leaves the CPU. *)
Lemma post_leave k th : intr_on k = false → only_current_runs k → status th ≠ THREAD_RUNNING →
  queues_ok (put_thread (current k) th k) →
  post schedule (put_thread (current k) th k) (λ _ k', scheduled (put_thread (current k) th k) k').
Proof. intros Hi Ho Hs Hk. apply post_schedule; [done..|]. exact (none_runs k th Ho Hs). Qed.

Lemma post_thread_block k (Q : unit → kernel → Prop) :
  only_current_runs k →
  (∀ th, threads k !! current k = Some th → status th = THREAD_RUNNING →
     queues_ok (put_thread (current k) (set_status THREAD_BLOCKED th) k) ∧
     ∀ k', scheduled (put_thread (current k) (set_status THREAD_BLOCKED th) k) k' → Q tt k') →
  post thread_block k Q.
Proof.
  intros Ho HQ. unfold thread_block. psteps.
  repeat match goal with
    | H : negb _ = true |- _ => apply negb_true_iff in H
    | H : bool_decide _ = true |- _ => apply bool_decide_eq_true in H
    end. simplify_eq.
  edestruct HQ as [Hk HQ']; [done..|].
  eapply post_mono; [by apply post_leave|]. intros [] k' Hs. by apply HQ'.
Qed.

(** A thread that yields is queued, unless it is the idle thread. *)
Definition yielded (th : thread) (k : kernel) : kernel :=
  if current k =? idle_thread k then put_thread (current k) (set_status THREAD_READY th) k
  else put_queue (run_queue k th) (queues k (run_queue k th) ++ [current k])
    (put_thread (current k) (set_status THREAD_READY (set_elem (Some (run_queue k th)) th)) k).

Lemma yielded_ok k th : queues_ok k → threads k !! current k = Some th → status th = THREAD_RUNNING →
  (current k ≠ idle_thread k → queue_ok (run_queue k th) = true) → queues_ok (yielded th k).
Proof.
  intros Hk Ht Hs Hq. destruct (qo_placed _ Hk _ _ Ht) as (Hpl & Hsl & Hid). rewrite Hs in Hpl.
  assert (sleep_ticks th ≤ 0) by (eapply awake; [done..|congruence]).
  unfold yielded. destruct (Z.eqb_spec (current k) (idle_thread k)) as [E|E].
  - eapply queues_ok_put; [done..|]. split_and!; simpl; [by right|lia|done].
  - eapply queues_ok_push; [done..| |by apply Hq]. split_and!; simpl; [by left|lia|done].
Qed.

Lemma yielded_same k th : threads k !! current k = Some th →
  same_objects k (yielded th k) ∧ same_threads k (yielded th k) ∧ current (yielded th k) = current k ∧
  intr_on (yielded th k) = intr_on k ∧ in_external_intr (yielded th k) = in_external_intr k ∧
  all_list (yielded th k) = all_list k.
Proof.
  intros Ht. unfold yielded. destruct (_ =? _).
  - split_and!; try done. by eapply same_threads_put.
  - split_and!; try done; [|by eapply (same_threads_put k)].
    split; try done. intros s. simpl. rewrite fupd_ne; [done|]. unfold run_queue. by destruct (thread_mlfqs k).
Qed.

Lemma post_thread_yield k (Q : unit → kernel → Prop) :
  queues_ok k → only_current_runs k →
  (∀ th k', threads k !! current k = Some th → scheduled (set_intr_on false (yielded th k)) k' →
     Q tt (set_intr_on (intr_on k) k')) →
  post thread_yield k Q.
Proof.
  intros Hk Ho HQ. unfold thread_yield. psteps. simpl.
  repeat match goal with
    | H : negb _ = true |- _ => apply negb_true_iff in H
    | H : bool_decide (status _ = _) = true |- _ => apply bool_decide_eq_true in H
    end.
  rename select (threads k !! current k = Some th) into Ht. rename select (status th = _) into Hs.
  eapply (post_mono _ _ (λ _ k1, (current k ≠ idle_thread k → queue_ok (run_queue k th) = true) ∧
    put_thread (current k) (set_status THREAD_READY (default th (threads k1 !! current k))) k1 =
      set_intr_on false (yielded th k) ∧ is_Some (threads k1 !! current k))).
  - unfold yielded, run_queue. destruct (Z.eqb_spec (current k) (idle_thread k)) as [E|E]; simpl; psteps.
    + cbn [threads set_intr_on]. rewrite Ht. split_and!; [done|done|by eexists].
    + simpl in *. simplify_eq. destruct (thread_mlfqs k); apply post_push_elem; intros th1 Ht1 He1 Hq;
        simpl in Ht1; simplify_eq; unfold put_thread, put_queue; simpl;
        rewrite lookup_insert_eq; simpl; rewrite insert_insert_eq; eauto.
  - intros [] k1 (Hq & E & Hsome). psteps.
    rename select (threads k1 !! current k = Some _) into Ht1. rewrite Ht1 in E. simpl in E.
    fold (put_thread (current k) (set_status THREAD_READY th0) k1). rewrite E.
    assert (queues_ok (set_intr_on false (yielded th k))) as Hok.
    { apply (queues_ok_ext (yielded th k)); [done..|]. by apply yielded_ok. }
    eapply post_mono; [apply post_schedule; [done..|]|].
    + rewrite <-E. intros t tht. cbn [threads put_thread set_threads]. destruct (decide (t = current k)) as [->|Hne].
      * rewrite lookup_insert_eq. by intros [= <-].
      * rewrite lookup_insert_ne by done. intros Htt Hrun. apply Hne, (Ho t tht); [|done].
        apply (f_equal threads) in E. cbn [threads put_thread set_threads] in E. apply (f_equal (lookup t)) in E.
        rewrite lookup_insert_ne in E by done. rewrite <-Htt, E. symmetry. unfold yielded.
        destruct (_ =? _); cbn [threads put_thread put_queue set_threads set_queues set_intr_on]; by rewrite lookup_insert_ne.
    + intros [] k' Hsch. destruct (intr_on k) eqn:Ei; psteps; by apply (HQ th).
Qed.
