(* ===== verification/Machine.v ===== *)
(** * The machine: threads running kernel code concurrently

    Each thread has a program, a list of calls of the functions of thread.c,
    synch.c and timer.c, and the pieces of the call it is in that it has not
    executed yet.  A piece runs without interruption: it is either a stretch of
    code between [intr_disable] and [intr_set_level], or a statement or loop of code that runs with
    interrupts on.  Between two pieces
    the timer may interrupt and another thread may run; what a piece reads it reads
    when it is executed, as the holder of a lock in the three statements of a donation.
    Taken as one piece although interrupts are on are the loops of [lock_release] over
    the locks of the thread, [list_max] over the ready list in [thread_set_priority], [cond_signal] with
    its [sema_up], and the computation of [recent_cpu] and of a priority.

    A call that blocks is a piece that leaves itself to be executed again:
    [sema_down] takes another turn of its loop when the thread is resumed.

    [step] is the relation between successive states of the machine.  Calls
    that fail an assertion or do something undefined have no step: the machine
    is stopped, as [debug_panic] stops the kernel. *)

From S2P Require Import Prelude KList KListOps FixedPoint Thread Synch SchedInv.

(** Pieces of calls. *)
Inductive piece : Type :=
  | PDown (s : sid)
  | PUp (s : sid)
  | PTryDown (n : Z)
  | PAcquireTest (l : Z)
  | PAcquireAppend (l : Z)
  | PAcquireDonate (l : Z)
  | PAcquireCompare (l : Z)
  | PAcquireGive (l : Z)
  | PResetDonate
  | PAcquirePush (l : Z)
  | PAcquireHolder (l : Z)
  | PReleaseRemove (l : Z)
  | PReleasePriority
  | PReleaseHolder (l : Z)
  | PReleaseTest (l : Z)
  | PReleaseDrop (l : Z)
  | PCondEnqueue (c l : Z)
  | PCondSignal (c l : Z)
  | PCondBroadcast (c l : Z)
  | PCreateInit (page : Z) (nm : list Z) (pri : Z)
  | PCreateTid (page : Z)
  | PCreateStart (page : Z)
  | PCreateYield (page : Z)
  | PSetPriority (p : Z)
  | PSetPriorityYield
  | PSetNice (n : Z)
  | PNiceCpu
  | PNicePriority
  | PNiceYield
  | PSleep (n : Z)
  | PYield
  | PIdle.

(** Calls. *)
Inductive call : Type :=
  | SemaDown (n : Z)
  | SemaUp (n : Z)
  | SemaTryDown (n : Z)
  | LockAcquire (l : Z)
  | LockRelease (l : Z)
  | CondWait (c l : Z)
  | CondSignal (c l : Z)
  | CondBroadcast (c l : Z)
  | ThreadCreate (nm : list Z) (pri : Z) (body : list call)
  | SetPriority (p : Z)
  | SetNice (n : Z)
  | TimerSleep (n : Z)
  | Yield.

(** [lock_acquire]; the test adds [PAcquireAppend] in front when it holds, and [PAcquireDonate] the
    pieces of a donation. *)
Definition lock_acquire (l : Z) : list piece :=
  [PAcquireTest l; PAcquireDonate l; PDown (LockSema l); PAcquirePush l; PAcquireHolder l].
(** [lock_release]; the test adds [PReleaseDrop] when it holds. *)
Definition lock_release (l : Z) : list piece :=
  [PReleaseRemove l; PReleasePriority; PReleaseHolder l; PUp (LockSema l); PReleaseTest l].
Definition cond_wait (self c l : Z) : list piece :=
  PCondEnqueue c l :: lock_release l ++ PDown (WaiterSema self) :: lock_acquire l.

(** The lock [tid_lock] of [allocate_tid]. *)
Definition tid_lock : Z := 1.
(** [thread_create] on the page that [palloc_get_page] returned. *)
Definition thread_create (page : Z) (nm : list Z) (pri : Z) : list piece :=
  if page =? NULL then [] else
  PCreateInit page nm pri :: lock_acquire tid_lock ++ PCreateTid page :: lock_release tid_lock
    ++ [PCreateStart page; PCreateYield page].

(** The pieces of a call by the thread [self]. *)
Definition pieces (self page : Z) (c : call) : list piece :=
  match c with
  | SemaDown n => [PDown (UserSema n)]
  | SemaUp n => [PUp (UserSema n)]
  | SemaTryDown n => [PTryDown n]
  | LockAcquire l => lock_acquire l
  | LockRelease l => lock_release l
  | CondWait c l => cond_wait self c l
  | CondSignal c l => [PCondSignal c l]
  | CondBroadcast c l => [PCondBroadcast c l]
  | ThreadCreate nm pri _ => thread_create page nm pri
  | SetPriority p => [PSetPriority p]
  | SetNice n => [PSetNice n; PNiceCpu; PNicePriority; PNiceYield]
  | TimerSleep n => [PSleep n]
  | Yield => [PYield]
  end.

(** Bound on the depth of donation: each donation raises the priority of one of
    the threads, and a priority is at most [PRI_MAX]. *)
Definition donation_bound (k : kernel) : nat := S (64 * size (threads k)).

(** Executes a piece; the result is what is to be executed in its place before
    the rest of the call. *)
Definition exec (p : piece) : M kernel (list piece) :=
  match p with
  | PDown s => b ← sema_down_turn s; mret (if b : bool then [] else [PDown s])
  | PUp s => sema_up s;; mret []
  | PTryDown n => sema_try_down (UserSema n);; mret []
  | PAcquireTest l => b ← lock_acquire_test l; mret (if b : bool then [PAcquireAppend l] else [])
  | PAcquireAppend l => append_lock_list l;; mret []
  | PAcquireDonate l => b ← lock_acquire_donate l; mret (if b : bool then [PAcquireCompare l] else [])
  | PAcquireCompare l => b ← lock_acquire_compare l; mret (if b : bool then [PAcquireGive l; PResetDonate] else [PResetDonate])
  | PAcquireGive l => lock_acquire_give l;; mret []
  | PResetDonate => n ← gets donation_bound; reset_donate_priority n;; mret []
  | PAcquirePush l => lock_acquire_push l;; mret []
  | PAcquireHolder l => lock_acquire_holder l;; mret []
  | PReleaseRemove l => lock_release_remove l;; mret []
  | PReleasePriority => lock_release_priority;; mret []
  | PReleaseHolder l => lock_release_holder l;; mret []
  | PReleaseTest l => b ← lock_initial l; mret (if b : bool then [PReleaseDrop l] else [])
  | PReleaseDrop l => remove_lock_list l;; mret []
  | PCondEnqueue c l => cond_wait_enqueue c l;; mret []
  | PCondSignal c l => cond_signal c l;; mret []
  | PCondBroadcast c l =>
      b ← cond_broadcast_test c l;
      mret (if b : bool then [PCondSignal c l; PCondBroadcast c l] else [])
  | PCreateInit page nm pri => init_thread page nm pri;; mret []
  | PCreateTid page => thread_create_tid page;; mret []
  | PCreateStart page => thread_create_start page;; mret []
  | PCreateYield page => thread_create_yield page;; mret []
  | PSetPriority p => b ← thread_set_priority p; mret (if b : bool then [PResetDonate; PSetPriorityYield] else [])
  | PSetPriorityYield => thread_set_priority_yield;; mret []
  | PSetNice n => thread_set_nice n;; mret []
  | PNiceCpu => (t ← thread_current; thread_refresh_recent_cpu t);; mret []
  | PNicePriority => (t ← thread_current; thread_refresh_priority t);; mret []
  | PNiceYield => thread_set_nice_yield;; mret []
  | PSleep n => timer_sleep n;; mret []
  | PYield => thread_yield;; mret []
  | PIdle =>
      (* intr_disable (); thread_block (); sti; hlt *)
      intr_disable;; thread_block;; modify (set_intr_on true);; mret [PIdle]
  end.

(** What is left of a thread's code: the pieces of the call it is in, and its
    further calls. *)
Abbreviation code := (list piece * list call)%type.

Record machine : Type := Machine { kern : kernel; codes : gmap Z code }.

(** [kernel_thread] calls [thread_exit] when the thread's function returns; the
    thread switched to has interrupts turned on again. *)
Definition exit_thread : M kernel unit := thread_exit;; modify (set_intr_on true).

(** A new page: not in use as a thread. *)
Definition fresh_page (k : kernel) (page : Z) : Prop := page = NULL ∨ threads k !! page = None.

Definition new_code (page : Z) (c : call) (cs : gmap Z code) : gmap Z code :=
  match c with
  | ThreadCreate _ _ body => if page =? NULL then cs else <[page := ([], body)]> cs
  | _ => cs
  end.

Inductive step : machine → machine → Prop :=
  | step_piece k cs p ps calls new k' :
      cs !! current k = Some (p :: ps, calls) →
      exec p k = Done (new, k') →
      step (Machine k cs) (Machine k' (<[current k := (new ++ ps, calls)]> cs))
  | step_call k cs c calls page :
      cs !! current k = Some ([], c :: calls) →
      fresh_page k page → cs !! page = None →
      step (Machine k cs)
           (Machine k (new_code page c (<[current k := (pieces (current k) page c, calls)]> cs)))
  | step_exit k cs k' :
      cs !! current k = Some ([], []) →
      exit_thread k = Done (tt, k') →
      step (Machine k cs) (Machine k' (delete (current k) cs))
  | step_timer k cs k' :
      intr_handler_timer k = Done (tt, k') →
      step (Machine k cs) (Machine k' cs).

Definition steps : machine → machine → Prop := rtc step.
