(* ===== verification/SyncInv.v ===== *)
(** * The effect of each piece of synchronisation code

    Every piece keeps the invariant of the run queues ([base_ok]); all but the
    operations on semaphores, locks and conditions themselves leave the values
    of semaphores, the wait lists and the holders of locks alone ([quiet]). *)

From S2P Require Import Prelude KList KListSort KListOps FixedPoint Thread Synch SchedInv Machine.

Definition base_ok (k : kernel) : Prop := queues_ok k ∧ cpu_ok k.

(** Nothing a synchronisation object consists of has changed, and orphans have
    stayed orphans, but for [x]. *)
Record quiet_but (x : Z) (k k' : kernel) : Prop := {
  qt_waiters : ∀ s, queues k' (Waiters s) = queues k (Waiters s);
  qt_sema : sema_value k' = sema_value k;
  qt_holder : holder k' = holder k;
  qt_idle : idle_thread k' = idle_thread k;
  qt_mlfqs : thread_mlfqs k' = thread_mlfqs k;
  qt_intr : intr_on k' = intr_on k;
  qt_context : in_external_intr k' = in_external_intr k;
  qt_orphans : ∀ t th, threads k !! t = Some th → orphan th → t ≠ idle_thread k → t ≠ x →
    ∃ th', threads k' !! t = Some th' ∧ orphan th';
  qt_dom : ∀ t, threads k !! t = None → t ≠ x → threads k' !! t = None;
}.
Abbreviation quiet := (quiet_but NULL).

#[export] Instance quiet_pre x : PreOrder (quiet_but x).
Proof.
  split; [split; eauto|]. intros k1 k2 k3 [? ? ? ? ? ? ? Ho1 ?] [? ? ? ? ? ? ? Ho2 ?].
  split; [intros; congruence..| |eauto]. intros t th Ht Hor Hid Hx.
  destruct (Ho1 t th) as (th' & ? & ?); [done..|]. apply (Ho2 t th'); congruence.
Qed.

Lemma quiet_all x k k' th : quiet_but x k k' → threads k !! x = Some th → ¬ orphan th → quiet k k'.
Proof.
  intros [? ? ? ? ? ? ? Ho Hd] Hx Hno. split; try done.
  - intros t th' Ht Hor Hid _. apply (Ho t th'); [done..|]. intros ->. congruence.
  - intros t Ht _. apply Hd; congruence.
Qed.

(** [m] keeps the invariant and is quiet. *)
Definition keeps {A} (m : M kernel A) (k : kernel) : Prop :=
  post m k (λ _ k', base_ok k' ∧ quiet k k').

Lemma keeps_intro {A} (m : M kernel A) k :
  post m k (λ _ k', base_ok k' ∧ quiet k k') → keeps m k.
Proof. done. Qed.

Lemma keeps_then {A B} (m : M kernel A) (f : A → M kernel B) k :
  keeps m k → (∀ a k', base_ok k' → quiet k k' → keeps (f a) k') → keeps (m ≫= f) k.
Proof.
  intros Hm Hf. unfold keeps. apply post_bind. eapply post_mono; [exact Hm|].
  intros a k' [Hb Hq]. eapply post_mono; [by apply Hf|]. intros b k'' [? ?]. split; [done|]. by etransitivity.
Qed.
Lemma keeps_ret {A} (a : A) k : base_ok k → keeps (mret a) k.
Proof. by split. Qed.

(** Changing a thread in ways its place in the lists does not depend on. *)
Lemma base_ok_put k t th th' : base_ok k → threads k !! t = Some th →
  elem th' = elem th → status th' = status th → placed k t th' → base_ok (put_thread t th' k).
Proof.
  intros [Hq [(thc & Hc & Hs) Ho]] Ht He Hst Hp. split; [by eapply queues_ok_put|]. split; simpl.
  - destruct (decide (t = current k)) as [->|].
    + exists th'. rewrite lookup_insert_eq. split; congruence.
    + exists thc. by rewrite lookup_insert_ne.
  - intros x thx. destruct (decide (x = t)) as [->|].
    + rewrite lookup_insert_eq. intros [= <-] ?. apply (Ho t th); congruence.
    + rewrite lookup_insert_ne by done. apply Ho.
Qed.
Lemma quiet_put k t th th' : threads k !! t = Some th → (orphan th → orphan th') →
  quiet k (put_thread t th' k).
Proof.
  intros Ht Hor. split; try done.
  - intros x thx Hx Ho _ _. simpl. destruct (decide (x = t)) as [->|].
    + rewrite lookup_insert_eq. exists th'. split; [done|]. apply Hor. congruence.
    + rewrite lookup_insert_ne by done. by exists thx.
  - intros x Hx _. simpl. by rewrite lookup_insert_ne by congruence.
Qed.
Lemma quiet_same k k' :
  threads k' = threads k → queues k' = queues k → sema_value k' = sema_value k → holder k' = holder k →
  idle_thread k' = idle_thread k → thread_mlfqs k' = thread_mlfqs k → intr_on k' = intr_on k →
  in_external_intr k' = in_external_intr k → quiet k k'.
Proof. intros Et Eq Es Eh Ei Em En Ec. split; try congruence; intros; rewrite Et; eauto. Qed.

Lemma base_ok_ext k k' :
  threads k' = threads k → (∀ q, queues k' q = queues k q) → current k' = current k →
  thread_mlfqs k' = thread_mlfqs k → idle_thread k' = idle_thread k → base_ok k → base_ok k'.
Proof.
  intros Et Eq Ec Em Ei [Hq [(thc & Hc & Hs) Ho]]. split; [by apply (queues_ok_ext k)|].
  split; rewrite Ec, Et; eauto.
Qed.

(** After a switch. *)
Lemma scheduled_base k k' : scheduled k k' → base_ok k'.
Proof. by intros []. Qed.

Lemma keeps_yield k : base_ok k → keeps thread_yield k.
Proof.
  intros [Hq [(thc & Hc & Hsc) Ho]]. apply post_thread_yield; [done..|]. intros th k' Ht Hs.
  destruct (yielded_same k th Ht) as ([] & _ & _ & ? & ? & _). destruct Hs as [? ? [] ? ? _ _ Hold _ Hor].
  split; [by apply (base_ok_ext k')|]. split; simpl in *; try (intros; congruence); swap 1 2.
  { intros t Ht0 _. destruct (threads k' !! t) as [th'|] eqn:E; [|done]. destruct (Hold t th' E) as (th0 & E0 & _).
    exfalso. unfold yielded in E0. destruct (_ =? _); simpl in E0; rewrite lookup_insert_ne in E0; congruence. }
  intros t tht Htt Ho' Hid _. exists tht. split; [|done]. apply Hor; [|done|congruence].
  assert (t ≠ current k) by (intros ->; destruct Ho'; congruence).
  unfold yielded. destruct (_ =? _); simpl; by rewrite lookup_insert_ne.
Qed.

Lemma unblock_ok k t : base_ok k → t ≠ idle_thread k →
  (∀ th, threads k !! t = Some th → sleep_ticks th ≤ 0) →
  post (thread_unblock t) k (λ _ k', base_ok k' ∧ quiet_but t k k').
Proof.
  intros [Hq [(thc & Hc & Hs) Ho]] Hid Hsl. apply post_thread_unblock. intros th Ht Hst He Hok. split.
  - split; [by apply queues_ok_unblocked; auto|]. assert (t ≠ current k) by (intros ->; congruence).
    split; simpl.
    + exists thc. by rewrite lookup_insert_ne.
    + intros x thx. destruct (decide (x = t)) as [->|]; [rewrite lookup_insert_eq; by intros [= <-]|].
      rewrite lookup_insert_ne by done. apply Ho.
  - split; try done.
    + intros s. simpl. rewrite fupd_ne; [done|]. unfold run_queue. by destruct (thread_mlfqs k).
    + intros x thx Hx Hor _ Hne. exists thx. simpl. by rewrite lookup_insert_ne.
    + intros x Hx _. simpl. by rewrite lookup_insert_ne by congruence.
Qed.

(** ** The timer *)

(** A step of code inside [keeps]. *)
Ltac kstep :=
  match goal with
  | |- keeps (_ ≫= _) _ => unfold keeps; apply post_bind
  | |- keeps (mret _) _ => apply keeps_ret
  end.

Lemma keeps_for_all (f : Z → M kernel unit) ts k :
  (∀ t k', base_ok k' → quiet k k' → keeps (f t) k') → base_ok k → keeps (for_all f ts) k.
Proof.
  revert k. induction ts as [|t ts IH]; intros k Hf Hk; [by apply keeps_ret|]. simpl.
  apply keeps_then; [by apply Hf|]. intros _ k' Hk' Hq. apply IH; [|done].
  intros x k'' ? ?. apply Hf; [done|]. by etransitivity.
Qed.

(** Code that reads and then goes on. *)
Lemma keeps_read {A B} (m : M kernel A) (f : A → M kernel B) k :
  post m k (λ a k', k' = k ∧ keeps (f a) k) → keeps (m ≫= f) k.
Proof.
  intros H. unfold keeps. apply post_bind. eapply post_mono; [exact H|]. by intros a k' [-> ?].
Qed.

Lemma keeps_modify_thread k t f :
  base_ok k → (∀ th, threads k !! t = Some th →
    elem (f th) = elem th ∧ status (f th) = status th ∧ sleep_ticks (f th) ≤ sleep_ticks th ∧
    placed k t (f th)) →
  keeps (modify_thread t f) k.
Proof.
  intros Hk Hf. unfold keeps, modify_thread. psteps. destruct (Hf th) as (He & Hs & Hsl & ?); [done|].
  split; [by eapply base_ok_put|]. eapply quiet_put; [done|]. unfold orphan. rewrite He, Hs. naive_solver lia.
Qed.

Lemma placed_same k t th th' :
  placed k t th → elem th' = elem th → status th' = status th → sleep_ticks th' = sleep_ticks th →
  run_queue k th' = run_queue k th → placed k t th'.
Proof. unfold placed. by intros H -> -> -> ->. Qed.

Lemma base_placed k t th : base_ok k → threads k !! t = Some th → placed k t th.
Proof. intros [Hq _] Ht. by apply (qo_placed _ Hq). Qed.

Lemma keeps_done k : base_ok k → base_ok k ∧ quiet k k.
Proof. by split. Qed.
Lemma keeps_after {A} (m : M kernel A) k k1 : keeps m k1 → quiet k k1 → post m k1 (λ _ k', base_ok k' ∧ quiet k k').
Proof. intros Hm Hq. eapply post_mono; [exact Hm|]. intros a k' [? ?]. split; [done|]. by etransitivity. Qed.
#[export] Hint Resolve keeps_done : pintos.

(** No thread is at NULL. *)
Lemma quiet_weaken x k k' : base_ok k → base_ok k' → quiet k k' → quiet_but x k k'.
Proof.
  intros [Hk _] [Hk' _] [? ? ? ? ? ? ? Ho Hd]. split; try done.
  - intros t th Ht Hor Hid _. apply (Ho t th); [done..|]. intros ->. by rewrite (qo_null _ Hk) in Ht.
  - intros t Ht _. destruct (decide (t = NULL)) as [->|]; [apply Hk'|by apply Hd].
Qed.

Lemma keeps_wake_threads k t : base_ok k → keeps (wake_threads t) k.
Proof.
  intros Hk. unfold wake_threads, keeps. psteps.
  rename select (threads k !! t = Some th) into Ht. destruct (base_placed _ _ _ Hk Ht) as (Hpl & Hsl & Hid).
  destruct (bool_decide (status th = THREAD_BLOCKED)) eqn:Hst; [|psteps; auto with pintos].
  apply bool_decide_eq_true in Hst.
  destruct (Z.ltb_spec 0 (sleep_ticks th)) as [Hs|]; [|psteps; auto with pintos].
  destruct Hsl as [_ He]; [done|].
  assert (t ≠ idle_thread k) as Hni by (intros E; destruct (Hid E); lia).
  psteps. simplify_eq. fold (put_thread t (set_sleep_ticks (sleep_ticks th - 1) th) k).
  assert (base_ok (put_thread t (set_sleep_ticks (sleep_ticks th - 1) th) k)) as Hk'.
  { eapply base_ok_put; [done..|]. split_and!; simpl; [by rewrite Hst, He|done|done]. }
  assert (¬ orphan th) as Hno by (intros (_ & _ & ?); lia).
  assert (quiet k (put_thread t (set_sleep_ticks (sleep_ticks th - 1) th) k)) as Hq by (by eapply quiet_put).
  destruct (Z.eqb_spec (sleep_ticks th - 1) 0) as [E|]; [|by psteps].
  eapply post_mono; [apply unblock_ok; [done|done|]|].
  - intros th'. rewrite put_thread_at. intros [= <-]. simpl. lia.
  - intros _ k' [? Hq']. split; [done|]. eapply (quiet_all t); [|done..].
    etransitivity; [|exact Hq']. by apply quiet_weaken.
Qed.

Lemma keeps_refresh_recent_cpu k t : base_ok k → keeps (thread_refresh_recent_cpu t) k.
Proof.
  intros Hk. unfold thread_refresh_recent_cpu. apply keeps_read. psteps. split; [done|].
  apply keeps_read. psteps. split; [done|]. apply keeps_read. psteps. split; [done|].
  apply keeps_modify_thread; [done|]. intros th Ht. split_and!; [done..|simpl; lia|].
  by eapply placed_same; [by eapply base_placed|..].
Qed.

(** The effect of [thread_refresh_priority] on a thread that is ready: it moves
    to the queue of its new priority. *)
Lemma requeue_ok k t th q p : base_ok k → thread_mlfqs k = true → threads k !! t = Some th →
  status th = THREAD_READY → elem th = Some q → 0 ≤ p ≤ 63 →
  let th1 := set_elem None (set_priority p th) in
  let k1 := put_queue q (filter (λ x, x ≠ t) (queues k q)) (put_thread t th1 k) in
  base_ok (put_queue (MlfqsList p) (queues k1 (MlfqsList p) ++ [t])
             (put_thread t (set_elem (Some (MlfqsList p)) th1) k1)).
Proof.
  intros [Hq [(thc & Hc & Hs) Ho]] Hm Ht Hst He Hp th1 k1.
  assert (sleep_ticks th ≤ 0) by (eapply awake; [done..|congruence]).
  destruct (qo_placed _ Hq _ _ Ht) as (_ & _ & Hid).
  (* unlink it as if it were blocked, then link it as unblocking it would *)
  set (k2 := put_queue q (filter (λ x, x ≠ t) (queues k q)) (put_thread t (set_status THREAD_BLOCKED th1) k)).
  assert (queues_ok k2) as Hk2.
  { eapply queues_ok_remove; [done..|]. split_and!; simpl; [done|done|]. intros E. by destruct (Hid E). }
  split.
  - apply (queues_ok_ext (put_queue (MlfqsList p) (queues k2 (MlfqsList p) ++ [t])
      (put_thread t (set_elem (Some (MlfqsList p)) th1) k2))); [|done..|].
    { simpl. by rewrite !insert_insert_eq. }
    eapply queues_ok_push; [done|simpl; by rewrite lookup_insert_eq|done|done| |].
    + split_and!; simpl; [|lia|].
      * rewrite Hst. left. unfold run_queue. simpl. by rewrite Hm.
      * intros E. by destruct (Hid E) as [E' _]; rewrite E' in He.
    + simpl. unfold PRI_MIN, PRI_MAX. apply andb_true_intro. split; apply Z.leb_le; lia.
  - assert (t ≠ current k) by (intros ->; congruence).
    split; simpl; [exists thc; by rewrite !lookup_insert_ne|]. intros x thx. rewrite insert_insert_eq.
    destruct (decide (x = t)) as [->|]; [rewrite lookup_insert_eq; intros [= <-]; simpl; congruence|].
    rewrite lookup_insert_ne by done. apply Ho.
Qed.

Lemma next_priority_range r n : PRI_MIN ≤ next_priority r n ≤ PRI_MAX.
Proof. unfold next_priority, PRI_MIN, PRI_MAX. bool_cases. Qed.

Lemma keeps_refresh_priority k t : base_ok k → t ≠ idle_thread k → (thread_mlfqs k = true ∨ t = current k) →
  keeps (thread_refresh_priority t) k.
Proof.
  intros Hk Hid Hm. unfold thread_refresh_priority, keeps. psteps.
  rename select (threads k !! t = Some th) into Ht. set (p := next_priority (recent_cpu th) (nice th)).
  pose proof (next_priority_range (recent_cpu th) (nice th)) as Hp. fold p in Hp. unfold PRI_MIN, PRI_MAX in Hp.
  psteps. simplify_eq. fold (put_thread t (set_priority p th) k).
  destruct (base_placed _ _ _ Hk Ht) as (Hpl & Hsl & Hi).
  destruct (decide (status th = THREAD_READY ∧ p ≠ priority th)) as [[Hst Hne]|Hno].
  - rewrite bool_decide_true by done. destruct (Z.eqb_spec p (priority th)); [done|]. simpl. psteps.
    destruct Hm as [Hm| ->]; [|destruct Hk as [_ [(thc & Hc & Hs) _]]; congruence].
    apply post_remove_elem. intros th1 q Ht1 He1. simpl in Ht1. rewrite lookup_insert_eq in Ht1. injection Ht1 as <-.
    psteps. apply post_push_elem. intros th2 Ht2 He2 Hok. simpl in Ht2. rewrite !lookup_insert_eq in Ht2. injection Ht2 as <-.
    pose proof (requeue_ok k t th q p Hk Hm Ht Hst He1 Hp) as Hreq. simpl in Hreq.
    simpl. destruct (intr_on k) eqn:Ei; psteps; split.
    1, 3: eapply base_ok_ext; [..|exact Hreq]; simpl; [by rewrite ?insert_insert_eq|done..].
    all: split; simpl; try done.
    1, 4: intros s; rewrite !fupd_ne; try done; intros <-;
      rewrite Hst in Hpl; simpl in He1; rewrite He1 in Hpl; unfold run_queue in Hpl; rewrite Hm in Hpl; naive_solver.
    2, 4: intros x Hx _; by rewrite !lookup_insert_ne by congruence.
    all: intros x thx Hx Hor _ _; pose proof Hor as [Hxs _]; exists thx;
      rewrite !lookup_insert_ne by congruence; done.
  - assert (bool_decide (status th = THREAD_READY) && negb (p =? priority th) = false) as ->.
    { destruct (bool_decide_reflect (status th = THREAD_READY)), (Z.eqb_spec p (priority th)); tauto. }
    psteps. split; [|by eapply quiet_put]. eapply base_ok_put; [done..|]. split_and!; try done.
    simpl. destruct (status th) eqn:Hst; try done.
    destruct Hpl as [Hpl|]; [left|by right]. unfold run_queue in *. simpl.
    replace p with (priority th); [done|]. destruct (decide (p = priority th)); [done|tauto].
Qed.

Lemma keeps_unless_idle k f t :
  base_ok k → (t ≠ idle_thread k → keeps (f t) k) → keeps (unless_idle f t) k.
Proof.
  intros Hk Hf. unfold unless_idle. apply keeps_read. psteps. split; [done|].
  destruct (Z.eqb_spec t (idle_thread k)); simpl; [by apply keeps_ret|by apply Hf].
Qed.

Lemma keeps_modify k f : base_ok k →
  threads (f k) = threads k → queues (f k) = queues k → current (f k) = current k →
  sema_value (f k) = sema_value k → holder (f k) = holder k → idle_thread (f k) = idle_thread k →
  thread_mlfqs (f k) = thread_mlfqs k → intr_on (f k) = intr_on k →
  in_external_intr (f k) = in_external_intr k → keeps (modify f) k.
Proof.
  intros Hk Et Eq Ec ? ? ? ? ? ?. apply keeps_intro. psteps. split; [|by apply quiet_same].
  apply (base_ok_ext k); try done. by rewrite Eq.
Qed.

Lemma keeps_yield_on_return k : base_ok k → keeps intr_yield_on_return k.
Proof.
  intros Hk. unfold intr_yield_on_return. apply keeps_read. psteps. split; [done|].
  apply keeps_read. psteps. split; [done|]. by apply keeps_modify.
Qed.
Lemma keeps_set_load_avg k : base_ok k → keeps thread_set_load_avg k.
Proof.
  intros Hk. unfold thread_set_load_avg. apply keeps_read. psteps. split; [done|].
  apply keeps_read. psteps. split; [done|]. apply keeps_read. psteps. split; [done|]. by apply keeps_modify.
Qed.

Lemma keeps_if {A} (b : bool) (m m' : M kernel A) k :
  (b = true → keeps m k) → (b = false → keeps m' k) → keeps (if b then m else m') k.
Proof. destruct b; auto. Qed.

(** The steps of a function that keeps the invariant, one after the other. *)
Ltac keep :=
  repeat first
    [ apply keeps_ret; done
    | apply keeps_yield; done
    | apply keeps_yield_on_return; done
    | apply keeps_set_load_avg; done
    | apply keeps_modify; done
    | match goal with
      | |- keeps (gets _ ≫= _) _ => apply keeps_read; psteps; split; [done|]
      | |- keeps (assert _ ≫= _) _ => apply keeps_read; psteps; split; [done|]
      | |- keeps (intr_get_level ≫= _) _ => apply keeps_read; psteps; split; [done|]
      | |- keeps (intr_context ≫= _) _ => apply keeps_read; psteps; split; [done|]
      | |- keeps (thread_current ≫= _) _ => apply keeps_read; psteps; split; [done|]
      | |- keeps (thread_at _ ≫= _) _ => apply keeps_read; psteps; split; [done|]
      | |- keeps (_ ≫= _) _ => apply keeps_then; [|intros ? ? ? ?]
      | |- keeps (if _ then _ else _) _ => apply keeps_if; intros ?
      end ].

(** The scheduler in use does not change. *)
Ltac same_mlfqs :=
  repeat match goal with
    | H : quiet _ ?k |- context [thread_mlfqs ?k] => rewrite (qt_mlfqs _ _ _ H)
    | H : quiet _ ?k, H' : context [thread_mlfqs ?k] |- _ => rewrite (qt_mlfqs _ _ _ H) in H'
    end.

Lemma keeps_tick k : base_ok k → keeps thread_tick k.
Proof.
  intros Hk. unfold thread_tick, thread_foreach. keep.
  - apply keeps_for_all; [|done]. intros. by apply keeps_wake_threads.
  - apply keeps_modify_thread; [done|]. intros th' Ht. split_and!; [done..|simpl; lia|].
    eapply placed_same; [by eapply base_placed|done..].
  - apply keeps_for_all; [|done]. intros. apply keeps_unless_idle; [done|].
    intros _. by apply keeps_refresh_recent_cpu.
  - apply keeps_for_all; [|done]. intros t1 k1 ? Hq1. apply keeps_unless_idle; [done|].
    intros ?. apply keeps_refresh_priority; [done..|]. left. by same_mlfqs.
Qed.

(** At the boundaries of pieces interrupts are on and none is being handled. *)
Definition kernel_ok (k : kernel) : Prop := base_ok k ∧ intr_on k = true ∧ in_external_intr k = false.

Lemma timer_ok k : kernel_ok k → post intr_handler_timer k (λ _ k', kernel_ok k' ∧ quiet k k').
Proof.
  intros (Hk & Hi & Hc). unfold intr_handler_timer. psteps. unfold timer_interrupt. psteps.
  match goal with |- post thread_tick ?k1 _ => assert (base_ok k1) as Hk1 by (by apply (base_ok_ext k)) end.
  eapply post_mono; [by apply keeps_tick|]. intros [] k2 [Hk2 Hq2]. psteps.
  destruct Hq2 as [Hw Hs Hh Hid Hm Hi2 Hc2 Hor2 Hd2]. simpl in *.
  set (k3 := set_in_external_intr false k2).
  assert (base_ok k3) as Hk3 by (by apply (base_ok_ext k2)).
  eapply (post_mono _ _ (λ _ k', base_ok k' ∧ quiet k3 k')).
  { destruct (yield_on_return k2); [by apply keeps_yield|by apply keeps_ret]. }
  intros [] k4 [Hk4 [? ? ? ? ? ? ? Hor4 Hd4]]. psteps. split; [split_and!|].
  - by apply (base_ok_ext k4).
  - done.
  - simpl in *. congruence.
  - split; simpl in *; try (intros; congruence); [|by eauto]. intros t th Ht Ho Hi3 Hn.
    destruct (Hor2 t th) as (th' & ? & ?); [done..|]. apply (Hor4 t th'); congruence.
Qed.

(** ** Priorities *)

Lemma keeps_set_priority_of k t p : base_ok k → (thread_mlfqs k = false ∨ t = current k) →
  keeps (modify_thread t (set_priority p)) k.
Proof.
  intros Hk Hm. apply keeps_modify_thread; [done|]. intros th Ht. split_and!; [done..|simpl; lia|].
  destruct (base_placed _ _ _ Hk Ht) as (Hpl & Hsl & Hid). split_and!; try done. simpl.
  destruct (status th) eqn:Hst; try done. destruct Hpl as [Hpl|]; [left|by right].
  destruct Hm as [Hm| ->]; [unfold run_queue in *; simpl; by rewrite Hm in *|].
  destruct Hk as [_ [(thc & Hc & Hs) _]]. congruence.
Qed.

Lemma post_waiters_priority s k (Q : Z → kernel → Prop) :
  (∀ p, Q p k) → post (waiters_priority s) k Q.
Proof.
  intros HQ. unfold waiters_priority, max_elem. psteps. destruct (queues k (Waiters s)); psteps; auto.
Qed.

Lemma keeps_donate_loop again ls k :
  (∀ k', base_ok k' → thread_mlfqs k' = false → keeps again k') →
  base_ok k → thread_mlfqs k = false → keeps (donate_loop again ls) k.
Proof.
  intros Ha. revert k. induction ls as [|l ls IH]; intros k Hk Hm; [by apply keeps_ret|]. cbn [donate_loop].
  apply keeps_read, post_waiters_priority. intros p. split; [done|]. keep.
  - by apply keeps_set_priority_of; [|left].
  - apply Ha; [done|]. by same_mlfqs.
  - apply IH; [done|]. by same_mlfqs.
Qed.

(** Interrupts off and back. *)
Lemma post_restore k k' : base_ok k' → quiet (set_intr_on false k) k' →
  post (intr_set_level (intr_on k)) k' (λ _ k'', post (mret tt) k'' (λ _ k', base_ok k' ∧ quiet k k')).
Proof.
  intros Hk' [? ? ? ? ? ? ? ? ?]. simpl in *. destruct (intr_on k) eqn:Ei; psteps; (split; [by apply (base_ok_ext k')|]).
  all: split; simpl in *; try done; congruence.
Qed.
Lemma base_ok_intr k b : base_ok k → base_ok (set_intr_on b k).
Proof. by apply base_ok_ext. Qed.
#[export] Hint Resolve base_ok_intr : pintos.

Lemma keeps_reset_donate fuel k : base_ok k → thread_mlfqs k = false → keeps (reset_donate_priority fuel) k.
Proof.
  revert k. induction fuel as [|fuel IH]; intros k Hk Hm; [done|]. cbn [reset_donate_priority].
  unfold keeps. psteps. eapply post_mono; [apply keeps_donate_loop; auto with pintos|].
  intros [] k' [Hk' Hq]. psteps. by apply post_restore.
Qed.

Lemma keeps_acquire_donate l k : base_ok k → keeps (lock_acquire_donate l) k.
Proof. intros Hk. unfold lock_acquire_donate, keeps. by psteps. Qed.
Lemma keeps_acquire_compare l k : base_ok k → keeps (lock_acquire_compare l) k.
Proof. intros Hk. unfold lock_acquire_compare, keeps. by psteps. Qed.
Lemma keeps_acquire_give l k : base_ok k → thread_mlfqs k = false → keeps (lock_acquire_give l) k.
Proof. intros Hk Hm. unfold lock_acquire_give. keep. by apply keeps_set_priority_of; [|left]. Qed.

Lemma keeps_set_priority p k : base_ok k → keeps (thread_set_priority p) k.
Proof.
  intros Hk. unfold thread_set_priority. keep.
  - by apply keeps_set_priority_of; [|right].
  - apply keeps_modify_thread; [done|]. intros th' Ht'. split_and!; [done..|simpl; lia|].
    eapply placed_same; [by eapply base_placed|done..].
  - unfold keeps. by psteps.
Qed.
Lemma keeps_set_priority_yield k : base_ok k → keeps thread_set_priority_yield k.
Proof.
  intros Hk. unfold thread_set_priority_yield. keep; [by split|].
  match goal with |- keeps (match ?o with Some _ => _ | None => _ end) _ => destruct o end; [|done]. keep.
Qed.

Lemma keeps_set_nice n k : base_ok k → keeps (thread_set_nice n) k.
Proof.
  intros Hk. unfold thread_set_nice. apply keeps_read. psteps. split; [done|]. keep. apply keeps_modify_thread; [done|].
  intros th' Ht'. split_and!; [done..|simpl; lia|]. eapply placed_same; [by eapply base_placed|done..].
Qed.
Lemma keeps_nice_cpu k : base_ok k → keeps (t ← thread_current; thread_refresh_recent_cpu t) k.
Proof. intros Hk. keep. by apply keeps_refresh_recent_cpu. Qed.
Lemma keeps_nice_priority k : base_ok k → current k ≠ idle_thread k → keeps (t ← thread_current; thread_refresh_priority t) k.
Proof. intros Hk Hc. keep. apply keeps_refresh_priority; [done|done|by right]. Qed.
Lemma keeps_set_nice_yield k : base_ok k → keeps thread_set_nice_yield k.
Proof. intros Hk. unfold thread_set_nice_yield. keep. Qed.
Lemma keeps_create_yield page k : base_ok k → keeps (thread_create_yield page) k.
Proof. intros Hk. unfold thread_create_yield. keep. Qed.

Lemma keeps_max_donation ls acc k : base_ok k → keeps (max_donation ls acc) k.
Proof.
  intros Hk. revert acc. induction ls as [|l ls IH]; intros acc; [by apply keeps_ret|]. cbn [max_donation].
  apply keeps_read, post_waiters_priority. intros p. split; [done|]. apply IH.
Qed.

Lemma keeps_release_priority k : base_ok k → keeps lock_release_priority k.
Proof.
  intros Hk. unfold lock_release_priority. keep; [by apply keeps_max_donation|..].
  all: match goal with H : negb _ = true |- _ => apply negb_true_iff in H; rename H into Hm end.
  all: apply keeps_set_priority_of; [done|left]; by same_mlfqs.
Qed.
