(* ===== verification/PieceInv.v ===== *)
(** * The effect of each piece, continued: creation, sleeping, semaphores

    The pieces that change more than priorities: threads are created, put to
    sleep and destroyed, semaphores go up and down. *)

From S2P Require Import Prelude KList KListSort KListOps FixedPoint Thread Synch SchedInv Machine SyncInv.

(** ** Creation and destruction *)

Lemma init_thread_ok k page nm pri : base_ok k → threads k !! page = None →
  post (init_thread page nm pri) k (λ _ k', base_ok k' ∧ quiet_but page k k' ∧
    ∃ th, threads k' !! page = Some th ∧ orphan th).
Proof.
  intros [Hq [(thc & Hc & Hs) Ho]] Hp. unfold init_thread. psteps. simpl.
  rename select (negb (page =? NULL) = true) into Hnn. apply negb_true_iff, Z.eqb_neq in Hnn.
  set (th := Thread _ _ _ _ _ _ _ _ _ _ _). set (k1 := put_thread page th k).
  assert (∀ x, links k1 x = links k x) as Hl.
  { intros x. unfold k1. rewrite links_put. case_decide; subst; [|done]. unfold links. by rewrite Hp. }
  assert (base_ok k1) as Hk1.
  { split; [split|split].
    - intros q t. rewrite Hl. apply Hq.
    - apply Hq.
    - intros t tht. simpl. destruct (decide (t = page)) as [->|].
      + rewrite lookup_insert_eq. intros [= <-]. done.
      + rewrite lookup_insert_ne by done. apply Hq.
    - simpl. rewrite lookup_insert_ne by done. apply Hq.
    - intros q t. rewrite Hl. apply Hq.
    - exists thc. simpl. by rewrite lookup_insert_ne by congruence.
    - intros t tht. simpl. destruct (decide (t = page)) as [->|].
      + rewrite lookup_insert_eq. by intros [= <-].
      + rewrite lookup_insert_ne by done. apply Ho. }
  destruct (intr_on k) eqn:Ei; psteps; simpl; (split_and!; [by apply (base_ok_ext k1)| |exists th; by rewrite lookup_insert_eq]).
  all: split; simpl; try done.
  1, 3: intros t tht Ht Hor _ Hne; exists tht; by rewrite lookup_insert_ne.
  all: intros t Ht Hne; by rewrite lookup_insert_ne.
Qed.

Lemma keeps_create_tid k t : base_ok k → keeps (thread_create_tid t) k.
Proof.
  intros Hk. unfold thread_create_tid. keep. apply keeps_modify_thread; [done|].
  intros th Ht. split_and!; [done..|simpl; lia|]. eapply placed_same; [by eapply base_placed|done..].
Qed.

Lemma keeps_alloc_frame k t n : base_ok k → keeps (alloc_frame t n) k.
Proof.
  intros Hk. unfold alloc_frame, keeps. psteps. simplify_eq.
  rename select (threads k !! t = Some _) into Ht.
  split; [eapply base_ok_put; [done..|]|by eapply quiet_put].
  eapply placed_same; [by eapply base_placed|done..].
Qed.

(** A new thread is put into the run queue. *)
Lemma create_start_ok k page th : base_ok k → threads k !! page = Some th → orphan th → page ≠ idle_thread k →
  page ≠ NULL → post (thread_create_start page) k (λ _ k', base_ok k' ∧ quiet_but page k k').
Proof.
  intros Hk Hp Hor Hid Hnn. unfold thread_create_start.
  assert (∀ n k1, base_ok k1 → quiet k k1 → post (alloc_frame page n) k1 (λ _ k2, base_ok k2 ∧ quiet k k2)) as Ha.
  { intros n k1 ??. apply keeps_after; [by apply keeps_alloc_frame|done]. }
  psteps. eapply post_mono; [by apply Ha|]. intros _ k1 [Hk1 Hq1].
  psteps. eapply post_mono; [by apply Ha|]. intros _ k2 [Hk2 Hq2].
  psteps. eapply post_mono; [by apply Ha|]. intros _ k3 [Hk3 Hq3]. psteps.
  destruct (qt_orphans _ _ _ Hq3 page th Hp Hor Hid Hnn) as (th3 & Hp3 & _ & _ & Hsl).
  eapply post_mono; [apply unblock_ok; [done|by rewrite (qt_idle _ _ _ Hq3)|]|].
  { intros th' Ht'. simplify_eq. done. }
  intros [] k4 [Hk4 Hq4]. split; [done|]. etransitivity; [apply (quiet_weaken page k k3); done|done].
Qed.

Lemma exit_ok k : kernel_ok k → current k ≠ idle_thread k →
  post exit_thread k (λ _ k', kernel_ok k' ∧ quiet k k').
Proof.
  intros ([Hq [(thc & Hc & Hs) Ho]] & Hi & Hx) Hid. unfold exit_thread, thread_exit. psteps. simpl in *. simplify_eq.
  set (k1 := set_all_list _ _).
  assert (only_current_runs k1) as Ho1 by done. assert (queues_ok k1) as Hq1 by (by apply (queues_ok_ext k)).
  assert (queues_ok (put_thread (current k) (set_status THREAD_DYING thc) k1)) as Hq2.
  { destruct (qo_placed _ Hq _ _ Hc) as (Hpl & Hsl & Hidl). rewrite Hs in Hpl.
    assert (sleep_ticks thc ≤ 0) by (eapply (awake k); [done..|congruence]).
    eapply queues_ok_put; [done..|]. split_and!; simpl; [done|lia|done]. }
  eapply post_mono; [apply (post_leave k1 (set_status THREAD_DYING thc)); done|].
  intros [] k' [? ? [] Hi' Hx' _ _ Hold _ Hor]. psteps. simpl in *. split.
  - split; [by apply (base_ok_ext k')|]. split; simpl; congruence.
  - split; simpl; try congruence.
    + intros t th Ht Ho' Hid' _. exists th. split; [|done]. apply Hor; [|done..]. rewrite lookup_insert_ne; [done|].
      intros <-. destruct Ho'. congruence.
    + intros t Ht _. destruct (threads k' !! t) as [th'|] eqn:E; [|done]. destruct (Hold t th' E) as (th0 & E0 & _).
      rewrite lookup_insert_ne in E0; congruence.
Qed.

(** ** Blocking *)

(** What does not concern the synchronisation objects. *)
Record core (k k' : kernel) : Prop := {
  cr_idle : idle_thread k' = idle_thread k;
  cr_mlfqs : thread_mlfqs k' = thread_mlfqs k;
  cr_orphans : ∀ t th, threads k !! t = Some th → orphan th → t ≠ idle_thread k →
    ∃ th', threads k' !! t = Some th' ∧ orphan th';
  cr_dom : ∀ t, threads k !! t = None → threads k' !! t = None;
}.
Lemma quiet_core k k' : base_ok k → base_ok k' → quiet k k' → core k k'.
Proof.
  intros [Hq _] [Hq' _] [? ? ? ? ? ? ? Ho Hd]. split; try done.
  - intros t th Ht Hor Hid. apply (Ho t th); [done..|]. intros ->. by rewrite (qo_null _ Hq) in Ht.
  - intros t Ht. destruct (decide (t = NULL)) as [->|]; [apply Hq'|by apply Hd].
Qed.
#[export] Instance core_pre : PreOrder core.
Proof.
  split; [split; eauto|]. intros k1 k2 k3 [? ? Ho1 ?] [? ? Ho2 ?]. split; [congruence..| |eauto].
  intros t th Ht Hor Hid. destruct (Ho1 t th) as (th' & ? & ?); [done..|]. apply (Ho2 t th'); congruence.
Qed.

Lemma core_same k k' : threads k' = threads k → idle_thread k' = idle_thread k →
  thread_mlfqs k' = thread_mlfqs k → core k k'.
Proof. intros Et Ei Em. split; try done; intros; rewrite Et; eauto. Qed.
Lemma kernel_ok_ext k k' :
  threads k' = threads k → queues k' = queues k → current k' = current k →
  thread_mlfqs k' = thread_mlfqs k → idle_thread k' = idle_thread k →
  intr_on k' = true → in_external_intr k' = false → kernel_ok k → kernel_ok k'.
Proof.
  intros Et Eq Ec Em Ei Hi Hx (Hb & _). split; [|done]. apply (base_ok_ext k); try done. by rewrite Eq.
Qed.

(** The current thread of [k], blocked in [kb], was switched from. *)
Lemma blocked_effect k kb k' :
  base_ok k → in_external_intr k = false → scheduled kb k' →
  (∀ t, t ≠ current k → threads kb !! t = threads k !! t) → is_Some (threads kb !! current k) →
  idle_thread kb = idle_thread k → thread_mlfqs kb = thread_mlfqs k →
  in_external_intr kb = false →
  kernel_ok (set_intr_on true k') ∧ core k (set_intr_on true k').
Proof.
  intros [Hq [(thc & Hc & Hs) Ho]] Hx [? ? [] Hi' Hx' _ _ Hold _ Hor] Ht Hcur Hid Hm Hxb. split.
  - split; [by apply (base_ok_ext k')|]. split; simpl; congruence.
  - split; simpl; try congruence.
    + intros t th Hth Horp Hne. exists th. split; [|done]. apply Hor; [|done|congruence].
      rewrite Ht; [done|]. intros ->. destruct Horp. congruence.
    + intros t Hth. destruct (threads k' !! t) as [th'|] eqn:E; [|done].
      destruct (Hold t th' E) as (th0 & E0 & _). rewrite Ht in E0; congruence.
Qed.

Lemma sleep_ok n k : kernel_ok k → current k ≠ idle_thread k →
  post (timer_sleep n) k (λ _ k', kernel_ok k' ∧ core k k' ∧
    (∀ s, queues k' (Waiters s) = queues k (Waiters s)) ∧ sema_value k' = sema_value k ∧ holder k' = holder k).
Proof.
  intros Hk Hid. pose proof Hk as (Hb & Hi & Hx). pose proof Hb as [Hq [(thc & Hc & Hs) Ho]].
  unfold timer_sleep. psteps. simplify_eq. destruct (Z.ltb_spec 0 n); psteps; [|by split_and!].
  simplify_eq. simpl. rewrite Hi. destruct (qo_placed _ Hq _ _ Hc) as (Hpl & _ & Hidl). rewrite Hs in Hpl.
  apply post_thread_block.
  - intros t th. simpl. destruct (decide (t = current k)) as [->|]; [done|]. rewrite lookup_insert_ne by done. apply Ho.
  - intros th Hth _. simpl in Hth. rewrite lookup_insert_eq in Hth. injection Hth as <-.
    set (kb := put_thread _ _ _). split.
    + apply (queues_ok_ext (put_thread (current k) (set_status THREAD_BLOCKED (set_sleep_ticks n thc)) k)); [|done..|].
      { unfold kb. simpl. by rewrite insert_insert_eq. }
      eapply queues_ok_put; [done..|]. split_and!; simpl; [by rewrite Hpl|done|done].
    + intros k' Hsc. psteps. destruct (blocked_effect k kb k') as [? ?]; try done.
      * intros t Ht. unfold kb. simpl. by rewrite !lookup_insert_ne.
      * unfold kb. simpl. rewrite lookup_insert_eq. by eexists.
      * destruct Hsc as [_ _ [] _ _ _ _ _ _ _]. by split_and!.
Qed.

Lemma idle_ok k : kernel_ok k →
  post (l ← intr_disable; x ← thread_block; y ← modify (set_intr_on true); mret [PIdle]) k
    (λ new k', kernel_ok k' ∧ core k k' ∧ new = [PIdle] ∧
      (∀ s, queues k' (Waiters s) = queues k (Waiters s)) ∧ sema_value k' = sema_value k ∧ holder k' = holder k).
Proof.
  intros Hk. pose proof Hk as (Hb & Hi & Hx). pose proof Hb as [Hq [(thc & Hc & Hs) Ho]]. psteps.
  destruct (qo_placed _ Hq _ _ Hc) as (Hpl & Hsl & Hidl). rewrite Hs in Hpl.
  assert (sleep_ticks thc ≤ 0) by (eapply (awake k); [done..|congruence]).
  apply post_thread_block; [done|]. intros th Hth _. simpl in Hth. simplify_eq. set (kb := put_thread _ _ _). split.
  - apply (queues_ok_ext (put_thread (current k) (set_status THREAD_BLOCKED thc) k)); [done..|].
    eapply queues_ok_put; [done..|]. split_and!; simpl; [by rewrite Hpl|lia|done].
  - intros k' Hsc. psteps. destruct (blocked_effect k kb k') as [? ?]; try done.
    + intros t Ht. unfold kb. simpl. by rewrite lookup_insert_ne.
    + unfold kb. simpl. rewrite lookup_insert_eq. by eexists.
    + destruct Hsc as [_ _ [] _ _ _ _ _ _ _]. by split_and!.
Qed.

(** ** Semaphores *)

Definition waiters_of (k : kernel) (s : sid) : list Z := queues k (Waiters s).

(** One turn of [sema_down]: the value goes down, or the caller waits. *)
Definition down_effect (s : sid) (k : kernel) (taken : bool) (k' : kernel) : Prop :=
  if taken then sema_value k s ≠ 0 ∧ sema_value k' = fupd (sema_value k) s (u32 (sema_value k s - 1)) ∧
    ∀ s', waiters_of k' s' = waiters_of k s'
  else sema_value k s = 0 ∧ sema_value k' = sema_value k ∧
    ∀ s', waiters_of k' s' = if decide (s' = s) then waiters_of k s ++ [current k] else waiters_of k s'.

Lemma down_ok s k : kernel_ok k → current k ≠ idle_thread k →
  post (sema_down_turn s) k (λ b k', kernel_ok k' ∧ core k k' ∧ holder k' = holder k ∧ down_effect s k b k').
Proof.
  intros Hk Hid. pose proof Hk as (Hb & Hi & Hx). pose proof Hb as [Hq [(thc & Hc & Hs) Ho]].
  unfold sema_down_turn. psteps. simpl. rewrite Hi. destruct (Z.eqb_spec (sema_value k s) 0) as [Hv|Hv]; psteps.
  - simpl in *. simplify_eq. apply post_push_elem. intros th Hth He _. simpl in Hth. simplify_eq. psteps.
    set (k1 := put_queue _ _ _). destruct (qo_placed _ Hq _ _ Hc) as (Hpl & _ & Hidl).
    assert (sleep_ticks thc ≤ 0) by (eapply (awake k); [done..|congruence]).
    apply post_thread_block.
    + intros t th. simpl. destruct (decide (t = current k)) as [->|]; [done|]. rewrite lookup_insert_ne by done. apply Ho.
    + intros th Hth _. simpl in Hth. rewrite lookup_insert_eq in Hth. injection Hth as <-.
      set (kb := put_thread _ _ _). split.
      * apply (queues_ok_ext (put_queue (Waiters s) (queues k (Waiters s) ++ [current k])
          (put_thread (current k) (set_status THREAD_BLOCKED (set_elem (Some (Waiters s)) thc)) k))); [|done..|].
        { unfold kb, k1. simpl. by rewrite insert_insert_eq. }
        eapply queues_ok_push; [done..| |done]. split_and!; simpl; [tauto|lia|done].
      * intros k' Hsc. psteps. destruct (blocked_effect k kb k') as [? ?]; try done.
        -- intros t Ht. unfold kb, k1. simpl. by rewrite !lookup_insert_ne.
        -- unfold kb, k1. simpl. rewrite lookup_insert_eq. by eexists.
        -- destruct Hsc as [_ _ [Hw ? ? _ _ _ _ _ _] _ _ _ _ _ _ _]. do 3 (split; [done|]). split; [done|]. split; [done|].
           intros s'. unfold waiters_of. change (queues (set_intr_on true k')) with (queues k'). rewrite Hw.
           change (queues kb) with (fupd (queues k) (Waiters s) (queues k (Waiters s) ++ [current k])).
           destruct (decide (s' = s)) as [->|]; [by rewrite fupd_eq|]. by rewrite fupd_ne by congruence.
  - split_and!; [by apply (kernel_ok_ext k)|by apply core_same|done|done].
Qed.

Lemma try_down_ok s k : kernel_ok k →
  post (sema_try_down s) k (λ b k', kernel_ok k' ∧ core k k' ∧ holder k' = holder k ∧
    (∀ s', waiters_of k' s' = waiters_of k s') ∧
    (b = true ∧ 0 < sema_value k s ∧ sema_value k' = fupd (sema_value k) s (u32 (sema_value k s - 1)) ∨
     b = false ∧ sema_value k s ≤ 0 ∧ sema_value k' = sema_value k)).
Proof.
  intros Hk. pose proof Hk as (Hb & Hi & Hx). unfold sema_try_down. psteps. simpl. rewrite Hi.
  destruct (Z.ltb_spec 0 (sema_value k s)); psteps;
    (split_and!; [by apply (kernel_ok_ext k)|by apply core_same|done|done|]); [left|right]; done.
Qed.

(** [sema_up]: the value goes up, and one of the waiting threads, if there are
    any, leaves the wait list. *)
Definition up_effect (s : sid) (k k' : kernel) : Prop :=
  sema_value k' = fupd (sema_value k) s (u32 (sema_value k s + 1)) ∧
  (∀ s', s' ≠ s → waiters_of k' s' = waiters_of k s') ∧
  (waiters_of k s = [] ∧ waiters_of k' s = [] ∨
   ∃ m, m ∈ waiters_of k s ∧ waiters_of k' s = filter (λ x, x ≠ m) (waiters_of k s)).

(** The first half: waking the most urgent waiter. *)
Lemma wake_ok s m k : kernel_ok k → m ∈ waiters_of k s →
  post (remove_elem m ≫= λ _, thread_at m ≫= λ th, thread_unblock m ≫= λ _, mret (priority th)) (set_intr_on false k)
    (λ _ k', base_ok k' ∧ core k k' ∧ intr_on k' = false ∧ in_external_intr k' = false ∧
      sema_value k' = sema_value k ∧ holder k' = holder k ∧
      ∀ s', waiters_of k' s' = if decide (s' = s) then filter (λ x, x ≠ m) (waiters_of k s) else waiters_of k s').
Proof.
  intros Hk Hm. pose proof Hk as (Hb & Hi & Hx). pose proof Hb as [Hq [(thc & Hc & Hs) Ho]].
  psteps. apply post_remove_elem. intros th q Hth He. simpl in Hth.
  pose proof (proj1 (qo_links _ Hq _ _) Hm) as Hl. unfold links in Hl. rewrite Hth in Hl. simpl in Hl. simplify_eq.
  destruct (qo_placed _ Hq _ _ Hth) as (Hpl & Hsl & Hidl).
  assert (status th = THREAD_BLOCKED ∧ sleep_ticks th ≤ 0 ∧ m ≠ idle_thread k) as (Hst & Hsl' & Hid).
  { rewrite He in *. split_and!.
    - destruct (status th); try done. destruct Hpl as [Hpl|Hpl]; [|by destruct (Hidl Hpl)].
      unfold run_queue in Hpl. by destruct (thread_mlfqs k).
    - destruct (decide (sleep_ticks th ≤ 0)); [done|]. by destruct Hsl; [lia|].
    - intros E. by destruct (Hidl E). }
  set (k1 := put_queue _ _ _).
  assert (base_ok k1) as Hk1.
  { split.
    - apply (queues_ok_ext (put_queue (Waiters s) (filter (λ x, x ≠ m) (queues k (Waiters s)))
        (put_thread m (set_elem None th) k))); [done..|].
      eapply queues_ok_remove; [done..|]. split_and!; simpl; [by rewrite Hst|lia|done].
    - assert (m ≠ current k) by (intros ->; congruence). split; simpl.
      + exists thc. by rewrite lookup_insert_ne.
      + intros x thx. destruct (decide (x = m)) as [->|]; [rewrite lookup_insert_eq; intros [= <-]; simpl; congruence|].
        rewrite lookup_insert_ne by done. apply Ho. }
  psteps. eapply post_mono; [apply unblock_ok; [done|done|]|].
  { intros th' Hth'. simpl in Hth'. rewrite lookup_insert_eq in Hth'. injection Hth' as <-. done. }
  intros [] k2 [Hk2 [Hw Hv Hh Hid2 Hm2 Hi2 Hx2 Hor Hd]]. psteps.
  split; [done|]. split; [|split_and!; [simpl in *; congruence..|]].
  - split; [simpl in *; congruence..| |].
    + intros t tht Ht Hor' Hid'. assert (t ≠ m) by (intros ->; destruct Hor' as (_ & ? & _); congruence).
      apply (Hor t tht); [simpl; by rewrite lookup_insert_ne|done..].
    + intros t Ht. assert (t ≠ m) by congruence. apply Hd; [simpl; by rewrite lookup_insert_ne|done].
  - intros s'. unfold waiters_of. rewrite Hw.
    change (queues k1) with (fupd (queues k) (Waiters s) (filter (λ x, x ≠ m) (queues k (Waiters s)))).
    destruct (decide (s' = s)) as [->|]; [by rewrite fupd_eq|]. by rewrite fupd_ne by congruence.
Qed.

Lemma up_ok s k : kernel_ok k →
  post (sema_up s) k (λ _ k', kernel_ok k' ∧ core k k' ∧ holder k' = holder k ∧ up_effect s k k').
Proof.
  intros Hk. pose proof Hk as (Hb & Hi & Hx). unfold sema_up, max_elem. psteps. simpl. rewrite Hi.
  set (k0 := set_intr_on false k).
  (* after the waking *)
  set (woken := λ k1, base_ok k1 ∧ core k k1 ∧ intr_on k1 = false ∧ in_external_intr k1 = false ∧
    sema_value k1 = sema_value k ∧ holder k1 = holder k ∧ (∀ s', s' ≠ s → waiters_of k1 s' = waiters_of k s') ∧
    (waiters_of k s = [] ∧ waiters_of k1 s = [] ∨
     ∃ m, m ∈ waiters_of k s ∧ waiters_of k1 s = filter (λ x, x ≠ m) (waiters_of k s))).
  eapply (post_mono _ _ (λ _, woken)).
  - destruct (queues k (Waiters s)) as [|w ws] eqn:Ew.
    + psteps. unfold woken. split_and!; try done; [by apply base_ok_intr|by apply core_same|]. left. done.
    + assert (argmax (less_priority k0) w ws ∈ waiters_of k s) as Hin.
      { unfold waiters_of. rewrite Ew. apply (max_elem_spec k0 w ws). }
      eapply post_mono; [by apply wake_ok|]. intros p k1 (? & ? & ? & ? & ? & ? & Hw). unfold woken.
      split_and!; try done.
      * intros s' Hs. rewrite Hw. by rewrite decide_False.
      * right. eexists. split; [done|]. rewrite Hw. by rewrite decide_True.
  - intros p k1 (Hb1 & Hc1 & Hi1 & Hx1 & Hv1 & Hh1 & Hw1 & Hw1s). psteps. simpl. rewrite Hx1. simpl.
    set (k2 := set_sema_value _ k1). assert (base_ok k2) as Hk2 by (by apply (base_ok_ext k1)).
    eapply (post_mono _ _ (λ _ k3, base_ok k3 ∧ quiet k2 k3)).
    + psteps. match goal with |- post (if ?b then _ else _) _ _ => destruct b end; [by apply keeps_yield|by apply keeps_ret].
    + intros [] k3 [Hk3 Hq3]. pose proof (quiet_core _ _ Hk2 Hk3 Hq3) as Hc3. destruct Hq3 as [Hw3 ? ? ? ? ? ? _ _]. psteps. split_and!.
      * split; [by apply base_ok_intr|]. split; [done|]. simpl in *. congruence.
      * etransitivity; [exact Hc1|]. transitivity k2; [by apply core_same|]. transitivity k3; [done|by apply core_same].
      * simpl in *. congruence.
      * unfold up_effect, waiters_of in *. simpl in *. split_and!; [congruence| |].
        -- intros s' Hs'. rewrite Hw3. by apply Hw1.
        -- rewrite Hw3. done.
Qed.

(** ** Condition variables *)

Lemma cond_enqueue_ok c l k : kernel_ok k → waiters_of k (WaiterSema (current k)) = [] →
  post (cond_wait_enqueue c l) k (λ _ k', kernel_ok k' ∧ core k k' ∧ holder k' = holder k ∧
    (∀ s, waiters_of k' s = waiters_of k s) ∧
    sema_value k' = fupd (sema_value k) (WaiterSema (current k)) 0).
Proof.
  intros Hk Hw. pose proof Hk as (Hb & Hi & Hx).
  unfold cond_wait_enqueue, lock_held_by_current_thread, sema_init. psteps.
  assert (∀ q, fupd (queues k) (Waiters (WaiterSema (current k))) [] q = queues k q) as Hq.
  { intros q. unfold fupd. destruct (decide (q = Waiters (WaiterSema (current k)))) as [->|]; [|done]. by rewrite <-Hw. }
  split_and!; [|by apply core_same|done|intros s; apply Hq|done].
  split; [|done]. by apply (base_ok_ext k).
Qed.

Definition sync_same (k k' : kernel) : Prop :=
  sema_value k' = sema_value k ∧ holder k' = holder k ∧ ∀ s, waiters_of k' s = waiters_of k s.

Lemma cond_signal_ok c l k : kernel_ok k →
  post (cond_signal c l) k (λ _ k', kernel_ok k' ∧ core k k' ∧ holder k' = holder k ∧
    (sync_same k k' ∨ ∃ t, up_effect (WaiterSema t) k k')).
Proof.
  intros Hk. pose proof Hk as (Hb & Hi & Hx).
  unfold cond_signal, lock_held_by_current_thread. psteps.
  destruct (cond_waiters k c) as [|w ws]; psteps.
  { split_and!; [done|by apply core_same|done|by left]. }
  set (k1 := set_cond_waiters _ k). assert (kernel_ok k1) as Hk1 by (by apply (kernel_ok_ext k)).
  eapply post_mono; [by apply up_ok|]. intros [] k' (? & Hc & ? & ?).
  split_and!; [done| |done|by right; eexists]. etransitivity; [|exact Hc]. by apply core_same.
Qed.

(** ** Small pieces *)

Lemma keeps_ok {A} (m : M kernel A) k : kernel_ok k → keeps m k →
  post m k (λ _ k', kernel_ok k' ∧ core k k' ∧ sync_same k k').
Proof.
  intros (Hb & Hi & Hx) Hm. eapply post_mono; [exact Hm|]. intros a k' [Hb' Hq].
  pose proof (quiet_core _ _ Hb Hb' Hq). destruct Hq. split_and!; try done.
  split; [done|]. split; congruence.
Qed.

Lemma keeps_acquire_push l k : base_ok k → keeps (lock_acquire_push l) k.
Proof.
  intros Hk. unfold lock_acquire_push. keep. apply keeps_modify_thread; [done|].
  intros th' Ht. split_and!; [done..|simpl; lia|]. eapply placed_same; [by eapply base_placed|done..].
Qed.
Lemma keeps_append_lock_list l k : base_ok k → keeps (append_lock_list l) k.
Proof.
  intros Hk. unfold append_lock_list, keeps. psteps. case_bool_decide; psteps.
  apply post_restore; [by apply (base_ok_ext k)|by apply quiet_same].
Qed.
Lemma keeps_remove_lock_list l k : base_ok k → keeps (remove_lock_list l) k.
Proof.
  intros Hk. unfold remove_lock_list, keeps. psteps. case_bool_decide; psteps.
  apply post_restore; [by apply (base_ok_ext k)|by apply quiet_same].
Qed.

Lemma post_and {A} (m : M kernel A) k Q Q' : post m k Q → post m k Q' → post m k (λ a k', Q a k' ∧ Q' a k').
Proof. unfold post. by destruct (m k) as [[a k']| | |]. Qed.

Lemma release_remove_ok l k : kernel_ok k →
  post (lock_release_remove l) k (λ _ k', (kernel_ok k' ∧ core k k' ∧ sync_same k k') ∧ holder k l = current k).
Proof.
  intros Hk. pose proof Hk as (Hb & Hi & Hx). apply post_and.
  - apply keeps_ok; [done|]. unfold lock_release_remove. apply keeps_read. psteps. split; [done|].
    apply keeps_read. unfold lock_held_by_current_thread. psteps. split; [done|]. keep.
    apply keeps_modify_thread; [done|].
    intros th' Ht. split_and!; [done..|simpl; lia|]. eapply placed_same; [by eapply base_placed|done..].
  - unfold lock_release_remove, lock_held_by_current_thread. psteps.
    rename select ((holder k l =? current k) = true) into Hh. by apply Z.eqb_eq in Hh.
Qed.
