(* ===== verification/MachineInv.v ===== *)
(** * Safety of the concurrent machine

    The invariant of all reachable states, and what follows from it: the run
    queues hold exactly the ready threads, a lock is owned by at most one
    thread at any time, and no wake-up is lost. *)

From S2P Require Import Prelude KList KListSort KListOps FixedPoint Thread Synch SchedInv Machine SyncInv PieceInv.

(** ** What a piece does *)

(** To the synchronisation objects, and what replaces the piece. *)
Definition effect (p : piece) (k : kernel) (new : list piece) (k' : kernel) : Prop :=
  match p with
  | PDown s => ∃ b, new = (if b : bool then [] else [PDown s]) ∧ holder k' = holder k ∧ down_effect s k b k'
  | PUp s => new = [] ∧ holder k' = holder k ∧ up_effect s k k'
  | PTryDown n => new = [] ∧ holder k' = holder k ∧ (∀ s, waiters_of k' s = waiters_of k s) ∧
      (0 < sema_value k (UserSema n) ∧
         sema_value k' = fupd (sema_value k) (UserSema n) (u32 (sema_value k (UserSema n) - 1)) ∨
       sema_value k' = sema_value k)
  | PAcquireHolder l => new = [] ∧ sema_value k' = sema_value k ∧
      (∀ s, waiters_of k' s = waiters_of k s) ∧ holder k' = fupd (holder k) l (current k)
  | PReleaseHolder l => new = [] ∧ sema_value k' = sema_value k ∧
      (∀ s, waiters_of k' s = waiters_of k s) ∧ holder k' = fupd (holder k) l NULL
  | PReleaseRemove l => new = [] ∧ sync_same k k' ∧ holder k l = current k
  | PCondEnqueue c l => new = [] ∧ holder k' = holder k ∧ (∀ s, waiters_of k' s = waiters_of k s) ∧
      sema_value k' = fupd (sema_value k) (WaiterSema (current k)) 0
  | PCondSignal c l => new = [] ∧ holder k' = holder k ∧
      (sync_same k k' ∨ ∃ t, up_effect (WaiterSema t) k k')
  | PCondBroadcast c l => (new = [] ∨ new = [PCondSignal c l; PCondBroadcast c l]) ∧ sync_same k k'
  | PAcquireTest l => (new = [] ∨ new = [PAcquireAppend l]) ∧ sync_same k k'
  | PReleaseTest l => (new = [] ∨ new = [PReleaseDrop l]) ∧ sync_same k k'
  | PAcquireDonate l => (new = [] ∨ new = [PAcquireCompare l] ∧ thread_mlfqs k = false) ∧ sync_same k k'
  | PAcquireCompare l => (new = [PAcquireGive l; PResetDonate] ∨ new = [PResetDonate]) ∧ sync_same k k'
  | PSetPriority p => (new = [PResetDonate; PSetPriorityYield] ∧ thread_mlfqs k = false ∨ new = []) ∧ sync_same k k'
  | PIdle => new = [PIdle] ∧ sync_same k k'
  | _ => new = [] ∧ sync_same k k'
  end.

(** To threads that take no part in it. *)
Definition spares (p : piece) (k k' : kernel) : Prop :=
  match p with
  | PCreateInit page _ _ => quiet_but page k k' ∧ ∃ th, threads k' !! page = Some th ∧ orphan th
  | PCreateStart page => quiet_but page k k'
  | _ => core k k'
  end.

(** Pieces of a donation, which the feedback-queue scheduler does without. *)
Definition donating (p : piece) : bool := match p with PAcquireCompare _ | PAcquireGive _ | PResetDonate => true | _ => false end.

(** What the machine guarantees when a piece is executed. *)
Definition enabled (p : piece) (k : kernel) : Prop :=
  match p with
  | PIdle => True
  | PCreateInit page _ _ => current k ≠ idle_thread k ∧ threads k !! page = None
  | PCreateStart page => current k ≠ idle_thread k ∧ page ≠ NULL ∧ page ≠ idle_thread k ∧
      ∃ th, threads k !! page = Some th ∧ orphan th
  | PCondEnqueue c l => current k ≠ idle_thread k ∧ waiters_of k (WaiterSema (current k)) = []
  | PAcquireCompare _ | PAcquireGive _ | PResetDonate => current k ≠ idle_thread k ∧ thread_mlfqs k = false
  | _ => current k ≠ idle_thread k
  end.

Lemma quiet_kernel x k k' : kernel_ok k → base_ok k' → quiet_but x k k' → kernel_ok k' ∧ sync_same k k'.
Proof.
  intros (Hb & Hi & Hx) Hb' []. split; [split; [done|]; split; congruence|]. by split.
Qed.

(** Pieces that leave the objects alone, and what replaces them. *)
Lemma exec_branch {A} (m : M kernel A) (f : A → list piece) (N : list piece → Prop) k : kernel_ok k → keeps m k → post m k (λ a _, N (f a)) →
  post (m ≫= λ a, mret (f a)) k (λ new k', kernel_ok k' ∧ core k k' ∧ N new ∧ sync_same k k').
Proof.
  intros Hk Hm HN. psteps. eapply post_mono; [apply post_and; [by apply keeps_ok|exact HN]|]. intros a k' [(? & ? & ?) ?]. by psteps.
Qed.
(** Pieces that return nothing and leave the objects alone. *)
Lemma exec_quiet {A} (m : M kernel A) (new : list piece) k : kernel_ok k → keeps m k →
  post (m ≫= λ _, mret new) k (λ new' k', kernel_ok k' ∧ core k k' ∧ new' = new ∧ sync_same k k').
Proof.
  intros Hk Hm. psteps. eapply post_mono; [by apply keeps_ok|]. intros a k' (? & ? & ?). by psteps.
Qed.

Lemma exec_effect p k : kernel_ok k → enabled p k →
  post (exec p) k (λ new k', kernel_ok k' ∧ spares p k k' ∧ effect p k new k').
Proof.
  intros Hk He. pose proof Hk as (Hb & Hi & Hx). destruct p; simpl in He; cbn [exec].
  - psteps. eapply post_mono; [by apply down_ok|]. intros b k' (? & ? & ? & ?). psteps.
    split_and!; [done..|]. by exists b.
  - psteps. eapply post_mono; [by apply up_ok|]. intros [] k' (? & ? & ? & ?). by psteps.
  - psteps. eapply post_mono; [by apply try_down_ok|]. intros b k' (? & ? & ? & ? & Hv). psteps.
    do 2 (split; [done|]). do 3 (split; [done|]). destruct Hv as [(_ & ? & ?)|(_ & _ & ?)]; [by left|by right].
  - psteps. unfold lock_acquire_test, lock_held_by_current_thread, lock_initial. psteps.
    split; [done|]. split; [by apply core_same|]. split; [|done]. destruct (_ && _); auto.
  - apply exec_quiet; [done|by apply keeps_append_lock_list].
  - apply (exec_branch _ (λ b : bool, if b then [PAcquireCompare l] else []) (λ new, new = [] ∨ new = [PAcquireCompare l] ∧ thread_mlfqs k = false));
      [done|by apply keeps_acquire_donate|]. unfold lock_acquire_donate. psteps. destruct (_ && _) eqn:E; [|by left]. right. split; [done|]. by apply andb_true_iff in E as [_ E%negb_true_iff].
  - destruct He. apply (exec_branch _ (λ b : bool, if b then [PAcquireGive l; PResetDonate] else [PResetDonate]) (λ new, new = [PAcquireGive l; PResetDonate] ∨ new = [PResetDonate]));
      [done|by apply keeps_acquire_compare|]. unfold lock_acquire_compare. psteps. destruct (_ <? _); auto.
  - destruct He. apply exec_quiet; [done|by apply keeps_acquire_give].
  - destruct He. psteps. eapply post_mono; [apply keeps_ok; [done|by apply keeps_reset_donate]|]. intros [] k' (? & ? & ?). by psteps.
  - apply exec_quiet; [done|by apply keeps_acquire_push].
  - psteps. unfold lock_acquire_holder. psteps. split_and!; [by apply (kernel_ok_ext k)|by apply core_same|done..].
  - psteps. eapply post_mono; [by apply release_remove_ok|]. intros [] k' ((? & ? & ?) & ?). by psteps.
  - apply exec_quiet; [done|by apply keeps_release_priority].
  - psteps. unfold lock_release_holder. psteps. split_and!; [by apply (kernel_ok_ext k)|by apply core_same|done..].
  - psteps. unfold lock_initial. psteps. split; [done|]. split; [by apply core_same|]. split; [|done].
    destruct (_ && _); auto.
  - apply exec_quiet; [done|by apply keeps_remove_lock_list].
  - destruct He. psteps. eapply post_mono; [by apply cond_enqueue_ok|]. intros [] k' (? & ? & ? & ? & ?). by psteps.
  - psteps. eapply post_mono; [by apply cond_signal_ok|]. intros [] k' (? & ? & ? & ?). by psteps.
  - psteps. unfold cond_broadcast_test. psteps. split; [done|]. split; [by apply core_same|]. split; [|done].
    match goal with |- context [if ?b then _ else _] => destruct b end; auto.
  - destruct He. psteps. eapply post_mono; [by apply init_thread_ok|]. intros [] k' (Hb' & Hq & ?). psteps.
    destruct (quiet_kernel _ _ _ Hk Hb' Hq). by split_and!.
  - apply exec_quiet; [done|by apply keeps_create_tid].
  - destruct He as (? & ? & ? & th & ? & ?). psteps. eapply post_mono; [by eapply create_start_ok|].
    intros [] k' (Hb' & Hq). psteps. destruct (quiet_kernel _ _ _ Hk Hb' Hq). by split_and!.
  - apply exec_quiet; [done|by apply keeps_create_yield].
  - apply (exec_branch _ (λ b : bool, if b then [PResetDonate; PSetPriorityYield] else []) (λ new, new = [PResetDonate; PSetPriorityYield] ∧ thread_mlfqs k = false ∨ new = []));
      [done|by apply keeps_set_priority|]. unfold thread_set_priority. psteps. simpl. destruct (thread_mlfqs k); [by right|by left].
  - apply exec_quiet; [done|by apply keeps_set_priority_yield].
  - apply exec_quiet; [done|by apply keeps_set_nice].
  - apply exec_quiet; [done|by apply keeps_nice_cpu].
  - apply exec_quiet; [done|by apply keeps_nice_priority].
  - apply exec_quiet; [done|by apply keeps_set_nice_yield].
  - psteps. eapply post_mono; [by apply sleep_ok|]. intros [] k' (? & ? & ? & ? & ?). by psteps.
  - apply exec_quiet; [done|by apply keeps_yield].
  - eapply post_mono; [by apply idle_ok|]. intros new k' (? & ? & -> & ? & ? & ?). done.
Qed.

(** ** The invariant *)

(** A lock is a token that is in its semaphore, with its holder, or with a
    thread between [sema_down] and becoming the holder, or between ceasing to
    be the holder and [sema_up].  What executing a piece adds to the tokens a
    thread keeps to itself, negated. *)
Definition delta (l : Z) (p : piece) : Z :=
  match p with
  | PDown (LockSema l') | PReleaseHolder l' => if l' =? l then -1 else 0
  | PUp (LockSema l') | PAcquireHolder l' => if l' =? l then 1 else 0
  | _ => 0
  end.

(** The tokens of lock [l] a thread with these pieces ahead of it keeps. *)
Fixpoint tokens (l : Z) (ps : list piece) : Z :=
  match ps with
  | [] => 0
  | p :: ps => delta l p + tokens l ps
  end.

(** The thread will give up the lock without checking again that it holds it. *)
Fixpoint releasing (l : Z) (ps : list piece) : bool :=
  match ps with
  | [] => false
  | p :: ps =>
      match p with
      | PReleaseHolder l' => (l' =? l) || releasing l ps
      | PDown (LockSema l') | PAcquireHolder l' | PReleaseRemove l' => negb (l' =? l) && releasing l ps
      | _ => releasing l ps
      end
  end.

(** The pieces of a thread use each lock in order. *)
Fixpoint orderly (l : Z) (ps : list piece) : Prop :=
  match ps with
  | [] => True
  | p :: ps' =>
      0 ≤ tokens l ps ∧ orderly l ps' ∧
      match p with
      | PDown (LockSema l') | PReleaseHolder l' => l' = l → releasing l ps' = false
      | _ => True
      end
  end.

(** A page is initialised and started once, in this order. *)
Fixpoint created_once (ps : list piece) : Prop :=
  match ps with
  | [] => True
  | p :: ps =>
      created_once ps ∧
      match p with
      | PCreateInit page _ _ => (∀ nm pri, PCreateInit page nm pri ∉ ps) ∧ PCreateStart page ∈ ps
      | PCreateStart page => PCreateStart page ∉ ps ∧ ∀ nm pri, PCreateInit page nm pri ∉ ps
      | _ => True
      end
  end.

Definition one_if (P : Prop) `{Decision P} : Z := if decide P then 1 else 0.

Record code_ok (k : kernel) (t : Z) (ps : list piece) : Prop := {
  ck_orderly : ∀ l, orderly l ps;
  ck_releasing : ∀ l, releasing l ps = true → holder k l = t;
  ck_self : ∀ x, PDown (WaiterSema x) ∈ ps → x = t;
  ck_idle : PIdle ∈ ps → t = idle_thread k;
  ck_created : created_once ps;
  ck_donating : ∀ q, q ∈ ps → donating q = true → thread_mlfqs k = false;
}.

(** The pending creation of [page] by a thread with pieces [ps]. *)
Record birth_ok (k : kernel) (cs : gmap Z code) (ps : list piece) (page : Z) : Prop := {
  bk_null : page ≠ NULL;
  bk_idle : page ≠ idle_thread k;
  bk_code : is_Some (cs !! page);
  bk_before : ∀ nm pri, PCreateInit page nm pri ∈ ps → threads k !! page = None;
  bk_after : (∀ nm pri, PCreateInit page nm pri ∉ ps) → ∃ th, threads k !! page = Some th ∧ orphan th;
}.

(** [o] owns the lock [l], if any thread does. *)
Record owned (k : kernel) (cs : gmap Z code) (l : Z) (o : option Z) : Prop := {
  ow_value : sema_value k (LockSema l) = match o with Some _ => 0 | None => 1 end;
  ow_tokens : ∀ t ps calls, cs !! t = Some (ps, calls) →
    tokens l ps + one_if (holder k l = t) = one_if (o = Some t);
  ow_holder : holder k l ≠ NULL → o = Some (holder k l);
  ow_gone : ∀ t, o = Some t → cs !! t = None → holder k l = t;
}.

(** Every unit of the semaphore's value is about to be taken by a thread that
    is awake. *)
Definition claimed (k : kernel) (cs : gmap Z code) (s : sid) : Prop :=
  ∃ L, NoDup L ∧ sema_value k s ≤ zlen L ∧
    ∀ t, t ∈ L → t ∉ waiters_of k s ∧ ∃ ps calls, cs !! t = Some (PDown s :: ps, calls).

Record inv (m : machine) : Prop := {
  i_kernel : kernel_ok (kern m);
  i_null : codes m !! NULL = None;
  i_idle : codes m !! idle_thread (kern m) = Some ([PIdle], []);
  i_code : ∀ t ps calls, codes m !! t = Some (ps, calls) → code_ok (kern m) t ps;
  i_wait : ∀ t s, t ∈ waiters_of (kern m) s → ∃ ps calls, codes m !! t = Some (PDown s :: ps, calls);
  i_range : ∀ s, 0 ≤ sema_value (kern m) s;
  i_lock : ∀ l, ∃ o, owned (kern m) (codes m) l o;
  i_claim : ∀ s, waiters_of (kern m) s ≠ [] → claimed (kern m) (codes m) s;
  i_birth : ∀ t ps calls page, codes m !! t = Some (ps, calls) → PCreateStart page ∈ ps →
    birth_ok (kern m) (codes m) ps page;
  i_parent : ∀ t t' ps ps' calls calls' page, codes m !! t = Some (ps, calls) →
    codes m !! t' = Some (ps', calls') → PCreateStart page ∈ ps → PCreateStart page ∈ ps' → t = t';
}.

(** ** Pieces a call consists of *)

Ltac by_lock l :=
  repeat match goal with |- context [?a =? l] => destruct (Z.eqb_spec a l); cbn [negb andb orb] end.
Ltac cases_of H := repeat match type of H with _ ∨ _ => destruct H as [H|H] end.
Ltac expand := unfold pieces, thread_create, cond_wait, lock_acquire, lock_release; cbn [app].

Lemma pieces_orderly self page c l : orderly l (pieces self page c) ∧ tokens l (pieces self page c) = 0.
Proof.
  destruct c; expand; try destruct (page =? NULL); cbn [orderly tokens delta releasing]; by_lock l;
    split_and?; first [done | lia | by intros ?; congruence].
Qed.
Lemma pieces_releasing self page c l : releasing l (pieces self page c) = false.
Proof. destruct c; expand; try destruct (page =? NULL); cbn [releasing]; by_lock l; done. Qed.
Lemma pieces_self self page c x : PDown (WaiterSema x) ∈ pieces self page c → x = self.
Proof.
  destruct c; expand; try destruct (page =? NULL);
    rewrite ?elem_of_cons, ?elem_of_nil; intros H; cases_of H; by simplify_eq.
Qed.
Lemma pieces_idle self page c : PIdle ∉ pieces self page c.
Proof.
  destruct c; expand; try destruct (page =? NULL);
    rewrite ?elem_of_cons, ?elem_of_nil; intros H; cases_of H; done.
Qed.
Lemma pieces_start self page c page' : PCreateStart page' ∈ pieces self page c →
  page' = page ∧ page ≠ NULL ∧ (∃ nm pri body, c = ThreadCreate nm pri body) ∧
  ∃ nm pri, PCreateInit page nm pri ∈ pieces self page c.
Proof.
  destruct c; expand; try destruct (Z.eqb_spec page NULL);
    rewrite ?elem_of_cons, ?elem_of_nil; intros H; cases_of H; try done; simplify_eq.
  split_and!; [done..|by eexists _, _, _|]. eexists _, _. apply list_elem_of_here.
Qed.
Lemma pieces_created self page c : created_once (pieces self page c).
Proof.
  destruct c; expand; try destruct (page =? NULL); cbn [created_once]; split_and?; try done.
  all: try intros ??; rewrite ?elem_of_cons, ?elem_of_nil; try (intros H; cases_of H; done).
  all: repeat (first [by left | right]).
Qed.

Lemma pieces_donating self page c q : q ∈ pieces self page c → donating q = false.
Proof.
  destruct c; expand; try destruct (page =? NULL);
    rewrite ?elem_of_cons, ?elem_of_nil; intros H; cases_of H; by subst.
Qed.

Lemma pieces_ok k self page c : code_ok k self (pieces self page c).
Proof.
  split.
  - intros l. apply pieces_orderly.
  - intros l. by rewrite pieces_releasing.
  - intros x. apply pieces_self.
  - by intros ?%pieces_idle.
  - apply pieces_created.
  - intros q Hq Hd. by rewrite (pieces_donating _ _ _ _ Hq) in Hd.
Qed.

(** ** One step *)

Lemma tokens_app l A B : tokens l (A ++ B) = tokens l A + tokens l B.
Proof. induction A as [|p A IH]; simpl; lia. Qed.

(** What a piece does to one lock. *)
Inductive lock_effect (l : Z) (p : piece) (ps : list piece) (k : kernel) (new : list piece) (k' : kernel) : Prop :=
  | LockSame :
      sema_value k' (LockSema l) = sema_value k (LockSema l) → holder k' l = holder k l →
      tokens l new = delta l p →
      (releasing l (new ++ ps) = true → releasing l (p :: ps) = true ∨ holder k l = current k) →
      lock_effect l p ps k new k'
  | LockDown :
      p = PDown (LockSema l) → new = [] → sema_value k (LockSema l) ≠ 0 →
      sema_value k' (LockSema l) = u32 (sema_value k (LockSema l) - 1) → holder k' l = holder k l →
      lock_effect l p ps k new k'
  | LockUp :
      p = PUp (LockSema l) → new = [] →
      sema_value k' (LockSema l) = u32 (sema_value k (LockSema l) + 1) → holder k' l = holder k l →
      lock_effect l p ps k new k'
  | LockTake :
      p = PAcquireHolder l → new = [] → sema_value k' (LockSema l) = sema_value k (LockSema l) →
      holder k' l = current k → lock_effect l p ps k new k'
  | LockDrop :
      p = PReleaseHolder l → new = [] → sema_value k' (LockSema l) = sema_value k (LockSema l) →
      holder k' l = NULL → lock_effect l p ps k new k'.

Lemma sync_same_lock l p ps k new k' : sync_same k k' → tokens l new = delta l p →
  (releasing l (new ++ ps) = true → releasing l (p :: ps) = true ∨ holder k l = current k) →
  lock_effect l p ps k new k'.
Proof. intros (Hv & Hh & _) ? ?. apply LockSame; [by rewrite Hv|by rewrite Hh|done..]. Qed.

Lemma lock_effect_of l p ps k new k' : effect p k new k' → lock_effect l p ps k new k'.
Proof.
  destruct p; simpl; intros H; try (by destruct H as [-> H]; apply sync_same_lock; auto).
  - (* PDown *) destruct H as (b & -> & Hh & Hd). destruct b; destruct Hd as (Hv & Hv' & _).
    + destruct (decide (s = LockSema l)) as [->|Hne].
      * apply LockDown; try done; [by rewrite Hv', fupd_eq|by rewrite Hh].
      * apply LockSame; [by rewrite Hv', fupd_ne|by rewrite Hh| |].
        -- simpl. destruct s as [n|l'|x]; try done. destruct (Z.eqb_spec l' l); [congruence|done].
        -- simpl. destruct s as [n|l'|x]; auto. destruct (Z.eqb_spec l' l); [congruence|auto].
    + apply LockSame; [by rewrite Hv'|by rewrite Hh|simpl; lia|auto].
  - (* PUp *) destruct H as (-> & Hh & Hv & _). destruct (decide (s = LockSema l)) as [->|Hne].
    + apply LockUp; try done; [by rewrite Hv, fupd_eq|by rewrite Hh].
    + apply LockSame; [by rewrite Hv, fupd_ne|by rewrite Hh| |auto].
      simpl. destruct s as [n|l'|x]; try done. destruct (Z.eqb_spec l' l); [congruence|done].
  - (* PTryDown *) destruct H as (-> & Hh & _ & Hv).
    apply LockSame; [destruct Hv as [[_ Hv]|Hv]; by rewrite Hv, ?fupd_ne|by rewrite Hh|done|auto].
  - (* PAcquireTest *) destruct H as [[->| ->] H]; apply sync_same_lock; auto.
  - (* PAcquireDonate *) destruct H as [[->|[-> _]] H]; apply sync_same_lock; auto.
  - (* PAcquireCompare *) destruct H as [[->| ->] H]; apply sync_same_lock; auto.
  - (* PAcquireHolder *) destruct H as (-> & Hv & _ & Hh). rename l0 into l'. destruct (decide (l' = l)) as [->|Hne].
    + apply LockTake; try done; [by rewrite Hv|by rewrite Hh, fupd_eq].
    + apply LockSame; [by rewrite Hv|by rewrite Hh, fupd_ne|..]; simpl; destruct (Z.eqb_spec l' l); done || auto.
  - (* PReleaseRemove *) destruct H as (-> & H & Hh). rename l0 into l'. apply sync_same_lock; [done|done|].
    simpl. destruct (Z.eqb_spec l' l) as [->|]; auto.
  - (* PReleaseHolder *) destruct H as (-> & Hv & _ & Hh). rename l0 into l'. destruct (decide (l' = l)) as [->|Hne].
    + apply LockDrop; try done; [by rewrite Hv|by rewrite Hh, fupd_eq].
    + apply LockSame; [by rewrite Hv|by rewrite Hh, fupd_ne|..]; simpl; destruct (Z.eqb_spec l' l); done || auto.
  - (* PReleaseTest *) destruct H as [[->| ->] H]; apply sync_same_lock; auto.
  - (* PCondEnqueue *) destruct H as (-> & Hh & _ & Hv). apply LockSame; [by rewrite Hv, fupd_ne|by rewrite Hh|done|auto].
  - (* PCondSignal *) destruct H as (-> & Hh & [H|(t & Hv & _)]); [by apply sync_same_lock; auto|].
    apply LockSame; [by rewrite Hv, fupd_ne|by rewrite Hh|done|auto].
  - (* PCondBroadcast *) destruct H as [[->| ->] H]; apply sync_same_lock; auto.
  - (* PSetPriority *) destruct H as [[[-> _]| ->] H]; apply sync_same_lock; auto.
Qed.

Lemma one_if_true P `{Decision P} : P → one_if P = 1.
Proof. intros. unfold one_if. by rewrite decide_True. Qed.
Lemma one_if_false P `{Decision P} : ¬ P → one_if P = 0.
Proof. intros. unfold one_if. by rewrite decide_False. Qed.
Lemma one_if_range P `{Decision P} : 0 ≤ one_if P ≤ 1.
Proof. unfold one_if. case_decide; lia. Qed.

Lemma orderly_tokens l ps : orderly l ps → 0 ≤ tokens l ps.
Proof. destruct ps; simpl; [lia|tauto]. Qed.

Lemma spares_idle p k k' : spares p k k' → idle_thread k' = idle_thread k.
Proof. destruct p; simpl; intros H; try by destruct H. by destruct H as [[] _]. Qed.

Lemma spares_mlfqs p k k' : spares p k k' → thread_mlfqs k' = thread_mlfqs k.
Proof. destruct p; simpl; intros H; try by destruct H. by destruct H as [[] _]. Qed.

(** Pieces that are added while a call is executed, and concern neither semaphores
    nor the creation of threads. *)
Definition light (p : piece) : bool :=
  match p with PAcquireAppend _ | PReleaseDrop _ | PAcquireCompare _ | PAcquireGive _ | PResetDonate | PSetPriorityYield => true | _ => false end.

Ltac each_light := repeat (apply Forall_cons_2; [split; [done|auto]|]); apply Forall_nil_2.
(** What replaces a piece. *)
Lemma effect_new p k new k' : effect p k new k' →
  Forall (λ q, light q = true ∧ (donating q = true → donating p = true ∨ thread_mlfqs k = false)) new ∨
  (∃ s, p = PDown s ∧ new = [p]) ∨ (p = PIdle ∧ new = [p]) ∨ (∃ c l, p = PCondBroadcast c l ∧ new = [PCondSignal c l; p]).
Proof.
  destruct p; simpl; intros H; try (by left; destruct H as [-> _]).
  - destruct H as (b & -> & _). destruct b; [by left|right; left; by eexists].
  - destruct H as [[->| ->] _]; left; each_light.
  - destruct H as [[->|[-> ?]] _]; left; each_light.
  - destruct H as [[->| ->] _]; left; each_light.
  - destruct H as [[->| ->] _]; left; each_light.
  - destruct H as [[->| ->] _]; [by left|]. do 3 right. by eexists _, _.
  - destruct H as [[[-> ?]| ->] _]; left; each_light.
  - right. right. left. by destruct H as [-> _].
Qed.

Lemma light_app new ps : Forall (λ q, light q = true) new →
  (∀ q, q ∈ new ++ ps → light q = true ∨ q ∈ ps) ∧ (created_once ps → created_once (new ++ ps)) ∧ (∀ l, orderly l ps → orderly l (new ++ ps)).
Proof.
  induction 1 as [|q new Hq _ (IH1 & IH2 & IH3)]; [simpl; by auto|]. simpl. split_and!.
  - intros q'. rewrite elem_of_cons. intros [->|H]; [by left|by apply IH1].
  - intros H. split; [by apply IH2|by destruct q].
  - intros l H. specialize (IH3 l H). pose proof (orderly_tokens _ _ IH3). destruct q; try done; split_and!; done || (simpl; lia).
Qed.

Lemma new_pieces p ps k new k' : effect p k new k' →
  (∀ x, PDown (WaiterSema x) ∈ new ++ ps → PDown (WaiterSema x) ∈ p :: ps) ∧
  (PIdle ∈ new ++ ps → PIdle ∈ p :: ps) ∧
  (∀ page, PCreateStart page ∈ new ++ ps → PCreateStart page ∈ ps) ∧
  (∀ page nm pri, PCreateInit page nm pri ∈ new ++ ps ↔ PCreateInit page nm pri ∈ ps) ∧
  (created_once ps → created_once (new ++ ps)) ∧
  (∀ l, orderly l (p :: ps) → orderly l (new ++ ps)) ∧
  (∀ q, q ∈ new → donating q = true → donating p = true ∨ thread_mlfqs k = false).
Proof.
  intros [Hl|[(s & -> & ->)|[[-> ->]|(c & l & -> & ->)]]]%effect_new.
  { assert (∀ q, q ∈ new → donating q = true → donating p = true ∨ thread_mlfqs k = false) as Hd by (intros q Hq; by destruct (proj1 (list.Forall_forall _ _) Hl q Hq)).
    destruct (light_app new ps) as (H1 & H2 & H3); [eapply list.Forall_impl; [exact Hl|by intros ? []]|]. split_and!; [| | | |done| |done].
    - intros x [?|?]%H1; [done|by right].
    - intros [?|?]%H1; [done|by right].
    - by intros page [?|?]%H1.
    - intros page nm pri. split; [by intros [?|?]%H1|]. intros. apply elem_of_app. by right.
    - intros l (_ & Hord & _). by apply H3. }
  all: simpl; split_and!; try naive_solver; try (intros *; rewrite ?elem_of_cons; naive_solver).
  all: try (intros l' (_ & Hord & _); pose proof (orderly_tokens _ _ Hord); split_and!; done || lia).
  all: intros q; rewrite ?elem_of_cons, ?elem_of_nil; naive_solver.
Qed.

(** A piece of the current thread is executed. *)
Section piece_step.
Context (k : kernel) (cs : gmap Z code) (p : piece) (ps new : list piece) (calls : list call) (k' : kernel).
Context (I : inv (Machine k cs)) (Hc : cs !! current k = Some (p :: ps, calls)).
Context (Hk' : kernel_ok k') (Hsp : spares p k k') (Hef : effect p k new k').
Local Notation cs' := (<[current k := (new ++ ps, calls)]> cs).

Lemma current_code : code_ok k (current k) (p :: ps).
Proof using I Hc. exact (i_code _ I _ _ _ Hc). Qed.

Lemma current_nonnull : current k ≠ NULL.
Proof using I Hc. intros E. pose proof (i_null _ I : cs !! NULL = None) as Hn. congruence. Qed.

(** It is enough to account for the tokens of the current thread. *)
Lemma owned_tokens l o h o' :
  owned k cs l o →
  (∀ t, t ≠ current k → t ≠ NULL → one_if (h = t) = one_if (holder k l = t) ∧ one_if (o' = Some t) = one_if (o = Some t)) →
  tokens l new + tokens l ps + one_if (h = current k) = one_if (o' = Some (current k)) →
  ∀ t ps' calls', cs' !! t = Some (ps', calls') → tokens l ps' + one_if (h = t) = one_if (o' = Some t).
Proof using I Hc.
  intros [_ Ht _ _] Ho Hme t ps' calls' Hl. destruct (decide (t = current k)) as [->|Hne].
  - rewrite lookup_insert_eq in Hl. injection Hl as <- <-. by rewrite tokens_app.
  - rewrite lookup_insert_ne in Hl by done. assert (t ≠ NULL).
    { intros ->. pose proof (i_null _ I : cs !! NULL = None) as Hn. congruence. }
    destruct (Ho t) as [-> ->]; [done..|]. by eapply Ht.
Qed.

(** A thread that has a token of its own owns the lock, and nobody holds it. *)
Lemma token_owner l o : owned k cs l o → 1 ≤ tokens l (p :: ps) →
  o = Some (current k) ∧ tokens l (p :: ps) = 1 ∧ holder k l = NULL.
Proof using I Hc.
  intros [_ Ht Hh _] Htok. pose proof (Ht _ _ _ Hc) as E.
  pose proof (one_if_range (holder k l = current k)). unfold one_if in E at 2. case_decide as Eo; [|lia].
  split_and!; [done|lia|]. destruct (decide (holder k l = NULL)) as [|Hn]; [done|].
  rewrite (Hh Hn) in Eo. injection Eo as Eo. rewrite one_if_true in E by done. lia.
Qed.

(** The current thread is there. *)
Lemma gone_not t (h : Z) : Some (current k) = Some t → cs' !! t = None → h = t.
Proof using Type. intros [= <-]. by rewrite lookup_insert_eq. Qed.

Lemma owned_step l : ∃ o, owned k' cs' l o.
Proof using I Hc Hef.
  destruct (i_lock _ I l) as (o & Ho). pose proof Ho as [Hv Ht Hh Hg]. simpl in Hv, Ht, Hh, Hg.
  pose proof (Ht _ _ _ Hc) as Hcur. pose proof (ck_orderly _ _ _ current_code l) as (_ & Hord & _).
  pose proof (orderly_tokens _ _ Hord) as Hpos. pose proof current_nonnull as Hnn.
  pose proof (token_owner l o Ho) as Hown. pose proof (owned_tokens l o) as Hall.
  pose proof (ck_releasing _ _ _ current_code l) as Hrel. cbn [tokens] in Hcur, Hown.
  destruct (lock_effect_of l p ps k new k' Hef) as [Ev Eh Et _|Ep En Hnz Ev Eh|Ep En Ev Eh|Ep En Ev Eh|Ep En Ev Eh].
  - exists o. split; rewrite ?Ev, ?Eh; try done; [apply Hall; [done..|]; lia|].
    intros t E Hn. apply Hg; [done|]. by apply lookup_insert_None in Hn as [? _].
  - rewrite Ep in Hcur. simpl in Hcur. rewrite Z.eqb_refl in Hcur. destruct o as [o|]; [congruence|].
    assert (holder k l = NULL) as Eh0 by (destruct (decide (holder k l = NULL)); naive_solver).
    exists (Some (current k)). split; rewrite ?Ev, ?Eh, ?Hv; [done| |by rewrite Eh0|intros t; apply gone_not].
    rewrite one_if_false in Hcur by congruence. rewrite (one_if_false (None = _)) in Hcur by done.
    apply Hall; [done|split; [done|]|]; [by rewrite !one_if_false by congruence|].
    rewrite En, (one_if_true (Some _ = _)), one_if_false by congruence. simpl. lia.
  - rewrite Ep in Hown. simpl in Hown. rewrite Z.eqb_refl in Hown. destruct Hown as (-> & ? & Eh0); [lia|].
    exists None. split; rewrite ?Ev, ?Eh, ?Hv; [done| |by rewrite Eh0|done].
    apply Hall; [done|split; [done|]|]; [by rewrite !one_if_false by congruence|].
    rewrite En, !one_if_false by congruence. simpl. lia.
  - rewrite Ep in Hown. simpl in Hown. rewrite Z.eqb_refl in Hown. destruct Hown as (-> & ? & Eh0); [lia|].
    exists (Some (current k)). split; rewrite ?Ev, ?Eh, ?Hv; [done| |done|intros t; apply gone_not].
    apply Hall; [done|split; [|done]|]; [by rewrite !one_if_false by congruence|].
    rewrite En, !one_if_true by done. simpl. lia.
  - rewrite Ep in Hcur, Hrel. simpl in Hcur, Hrel. rewrite Z.eqb_refl in Hcur, Hrel. specialize (Hrel eq_refl).
    rewrite Hrel in *. specialize (Hh Hnn). subst o. rewrite !one_if_true in Hcur by done.
    exists (Some (current k)). split; rewrite ?Ev, ?Eh, ?Hv; [done| |done|intros t; apply gone_not].
    apply Hall; [done|split; [|done]|]; [by rewrite !one_if_false by congruence|].
    rewrite En, (one_if_true (Some _ = _)), one_if_false by congruence. simpl. lia.
Qed.

(** The holder a thread relies on does not change under its feet. *)
Lemma releasing_other t l : t ≠ current k → t ≠ NULL → holder k l = t → holder k' l = t.
Proof using I Hc Hef.
  intros Hne Hnn Hh. destruct (i_lock _ I l) as (o & Ho). pose proof (ow_holder _ _ _ _ Ho) as Hoh. simpl in Hoh.
  destruct (lock_effect_of l p ps k new k' Hef) as [Ev Eh _ _|Ep En _ Ev Eh|Ep En Ev Eh|Ep En Ev Eh|Ep En Ev Eh];
    try congruence.
  - exfalso. pose proof (ck_orderly _ _ _ current_code l) as (_ & Hord & _). pose proof (orderly_tokens _ _ Hord).
    destruct (token_owner l o Ho) as (_ & _ & ?); [|congruence]. rewrite Ep. simpl. rewrite Z.eqb_refl. lia.
  - exfalso. pose proof (ck_releasing _ _ _ current_code l) as Hr. rewrite Ep in Hr. simpl in Hr.
    rewrite Z.eqb_refl in Hr. specialize (Hr eq_refl). congruence.
Qed.

Lemma releasing_current l : releasing l (new ++ ps) = true → holder k' l = current k.
Proof using I Hc Hef Hsp.
  pose proof (ck_releasing _ _ _ current_code l) as Hr.
  pose proof (ck_orderly _ _ _ current_code l) as (_ & _ & Hnext).
  destruct (lock_effect_of l p ps k new k' Hef) as [Ev Eh _ Hrel|Ep En _ Ev Eh|Ep En Ev Eh|Ep En Ev Eh|Ep En Ev Eh].
  - rewrite Eh. intros H. destruct (Hrel H); auto.
  - rewrite En, Ep in *. simpl. rewrite (Hnext eq_refl). done.
  - rewrite En, Ep in *. simpl in *. rewrite Eh. auto.
  - done.
  - rewrite En, Ep in *. simpl. rewrite (Hnext eq_refl). done.
Qed.

Lemma code_step t ps' calls' : cs' !! t = Some (ps', calls') → code_ok k' t ps'.
Proof using I Hc Hef Hsp.
  pose proof (spares_idle _ _ _ Hsp) as Ei. pose proof (spares_mlfqs _ _ _ Hsp) as Em. destruct (decide (t = current k)) as [->|Hne].
  - rewrite lookup_insert_eq. intros [= <- <-]. destruct current_code as [Ho Hr Hs Hi Hcr Hdo].
    destruct (new_pieces p ps k new k' Hef) as (N1 & N2 & N3 & N4 & N5 & N6 & N7). split.
    + intros l. by apply N6.
    + intros l. apply releasing_current.
    + intros x Hx. by apply Hs, N1.
    + intros Hx. rewrite Ei. by apply Hi, N2.
    + apply N5. by destruct Hcr.
    + intros q Hq Hd. rewrite Em. apply elem_of_app in Hq as [Hq|Hq]; [|by apply (Hdo q); [right|]].
      destruct (N7 q Hq Hd) as [Hp|]; [|done]. apply (Hdo p); [by left|done].
  - rewrite lookup_insert_ne by done. intros Ht. destruct (i_code _ I _ _ _ Ht) as [Ho Hr Hs Hi Hcr Hdo].
    assert (t ≠ NULL) by (intros ->; pose proof (i_null _ I : cs !! NULL = None) as Hn; congruence).
    split; try done.
    + intros l Hrel. apply releasing_other; auto.
    + intros Hx. rewrite Ei. by apply Hi.
    + intros q Hq Hd. rewrite Em. by apply (Hdo q).
Qed.

Lemma not_idle : p ≠ PIdle → current k ≠ idle_thread k.
Proof using I Hc. intros Hp E. pose proof (i_idle _ I) as Hi. simpl in Hi. rewrite <-E in Hi. congruence. Qed.

Lemma own_waiters : p ≠ PDown (WaiterSema (current k)) → waiters_of k (WaiterSema (current k)) = [].
Proof using I Hc.
  intros Hp. destruct (waiters_of k (WaiterSema (current k))) as [|t ts] eqn:E; [done|]. exfalso.
  destruct (i_wait _ I t (WaiterSema (current k))) as (ps' & calls' & Ht).
  { simpl. rewrite E. apply list_elem_of_here. }
  assert (current k = t) as <-; [|simpl in Ht; congruence].
  apply (ck_self _ _ _ (i_code _ I _ _ _ Ht)), list_elem_of_here.
Qed.

Lemma idle_step : cs' !! idle_thread k' = Some ([PIdle], []).
Proof using I Hc Hsp Hef.
  rewrite (spares_idle _ _ _ Hsp). pose proof (i_idle _ I) as Hi. simpl in Hi.
  destruct (decide (idle_thread k = current k)) as [E|]; [|by rewrite lookup_insert_ne].
  rewrite E in Hi |- *. rewrite lookup_insert_eq. rewrite Hi in Hc. injection Hc as <- <- <-.
  simpl in Hef. by destruct Hef as [-> _].
Qed.
End piece_step.

Lemma enabled_step k cs p ps calls :
  inv (Machine k cs) → cs !! current k = Some (p :: ps, calls) → enabled p k.
Proof.
  intros I Hc. pose proof (current_code _ _ _ _ _ I Hc) as Hok.
  assert (p ≠ PIdle → current k ≠ idle_thread k) as Hni by (by eapply not_idle).
  destruct p; simpl; try (by apply Hni); try done.
  1-3: split; [by apply Hni|]; eapply (ck_donating _ _ _ Hok); [apply list_elem_of_here|done].
  - split; [by apply Hni|]. by eapply own_waiters.
  - split; [by apply Hni|]. destruct (ck_created _ _ _ Hok) as (_ & _ & Hin).
    eapply bk_before; [eapply (i_birth _ I); [exact Hc|by apply list_elem_of_further]|apply list_elem_of_here].
  - destruct (ck_created _ _ _ Hok) as (_ & _ & Hno).
    destruct (i_birth _ I _ _ _ page Hc) as [? ? ? ? Ha]; [apply list_elem_of_here|].
    split_and!; [by apply Hni|done..|]. apply Ha. intros nm pri [?|?]%elem_of_cons; [done|]. by eapply Hno.
Qed.

(** ** Semaphores in one step *)

(** What a piece does to one semaphore. *)
Inductive sema_effect (s : sid) (p : piece) (k : kernel) (new : list piece) (k' : kernel) : Prop :=
  | SemaSame :
      waiters_of k' s = waiters_of k s → 0 ≤ sema_value k' s ≤ sema_value k s →
      (p = PDown s → new = [p]) → sema_effect s p k new k'
  | SemaTaken :
      p = PDown s → waiters_of k' s = waiters_of k s →
      0 ≤ sema_value k' s ≤ sema_value k s - 1 → sema_effect s p k new k'
  | SemaWait :
      p = PDown s → new = [p] → waiters_of k' s = waiters_of k s ++ [current k] →
      sema_value k' s = 0 → sema_effect s p k new k'
  | SemaRaised :
      p ≠ PDown s → 0 ≤ sema_value k' s ≤ sema_value k s + 1 →
      (waiters_of k' s = [] ∨ ∃ m, m ∈ waiters_of k s ∧ waiters_of k' s = filter (λ x, x ≠ m) (waiters_of k s)) →
      sema_effect s p k new k'.

Lemma u32_le x : 0 ≤ x → 0 ≤ u32 x ≤ x.
Proof. intros. unfold u32. pose proof (Z.mod_pos_bound x (2 ^ 32)). pose proof (Z.mod_le x (2 ^ 32)). lia. Qed.

Lemma up_effect_sema s s' p k new k' : up_effect s' k k' → p ≠ PDown s → 0 ≤ sema_value k s →
  sema_effect s p k new k'.
Proof.
  intros (Hv & Hw & Hws) Hp Hr. destruct (decide (s = s')) as [->|Hne].
  - apply SemaRaised; [done| |by destruct Hws as [[_ ?]|?]; auto].
    rewrite Hv, fupd_eq. apply u32_le. lia.
  - apply SemaSame; [by apply Hw| |done]. rewrite Hv, fupd_ne by done. lia.
Qed.

Lemma sync_same_sema s p k new k' : sync_same k k' → (p = PDown s → new = [p]) → 0 ≤ sema_value k s →
  sema_effect s p k new k'.
Proof. intros (Hv & _ & Hw) Hp Hr. apply SemaSame; [done|rewrite Hv; lia|done]. Qed.

Lemma sema_effect_of s p k new k' : 0 ≤ sema_value k s → effect p k new k' → sema_effect s p k new k'.
Proof.
  intros Hr. destruct p; simpl; intros H; try (by destruct H as [_ H]; apply sync_same_sema).
  - destruct H as (b & -> & _ & Hd). destruct b; destruct Hd as (Hv & Hv' & Hw).
    + destruct (decide (s0 = s)) as [->|Hne].
      * apply SemaTaken; [done..|]. rewrite Hv', fupd_eq. apply u32_le. lia.
      * apply SemaSame; [done| |congruence]. rewrite Hv', fupd_ne by done. lia.
    + destruct (decide (s0 = s)) as [->|Hne].
      * apply SemaWait; [done..| |by rewrite Hv']. by rewrite Hw, decide_True.
      * apply SemaSame; [by rewrite Hw, decide_False|rewrite Hv'; lia|congruence].
  - destruct H as (-> & _ & H). by eapply up_effect_sema.
  - destruct H as (-> & _ & Hw & Hv). apply SemaSame; [done| |done].
    destruct Hv as [[Hp Hv]| ->]; [|lia]. rewrite Hv. unfold fupd. case_decide; subst; [|lia].
    pose proof (u32_le (sema_value k (UserSema n) - 1)). lia.
  - destruct H as (-> & Hv & Hw & _). apply SemaSame; [done|rewrite Hv; lia|done].
  - destruct H as (-> & H & _). by apply sync_same_sema.
  - destruct H as (-> & Hv & Hw & _). apply SemaSame; [done|rewrite Hv; lia|done].
  - destruct H as (-> & _ & Hw & Hv). apply SemaSame; [done| |done]. rewrite Hv. unfold fupd. case_decide; subst; lia.
  - destruct H as (-> & _ & [H|(t & H)]); [by apply sync_same_sema|by eapply up_effect_sema].
Qed.

Lemma filter_ne_length (x : Z) (L : list Z) : NoDup L → zlen L ≤ 1 + zlen (filter (λ y, y ≠ x) L).
Proof.
  induction 1 as [|y L Hy HL IH]; [done|]. rewrite filter_cons, zlen_cons. case_decide as Hne.
  - rewrite zlen_cons. lia.
  - assert (y = x) as -> by (destruct (decide (y = x)); tauto). rewrite filter_ne_id by done. lia.
Qed.

(** The running thread waits for nothing. *)
Lemma current_not_waiting k s : kernel_ok k → current k ∉ waiters_of k s.
Proof.
  intros ([Hq [(th & Hc & Hs) _]] & _) Hin. apply (qo_links _ Hq) in Hin. unfold links in Hin. rewrite Hc in Hin.
  destruct (qo_placed _ Hq _ _ Hc) as (Hpl & _). rewrite Hs in Hpl. simpl in Hin. congruence.
Qed.

Section sema_step.
Context (k : kernel) (cs : gmap Z code) (p : piece) (ps new : list piece) (calls : list call) (k' : kernel).
Context (I : inv (Machine k cs)) (Hc : cs !! current k = Some (p :: ps, calls)).
Context (Hef : effect p k new k').
Local Notation cs' := (<[current k := (new ++ ps, calls)]> cs).

Lemma range_step s : 0 ≤ sema_value k' s.
Proof using I Hef. destruct (sema_effect_of s p k new k' (i_range _ I s) Hef); lia. Qed.

Lemma wait_step t s : t ∈ waiters_of k' s → ∃ ps' calls', cs' !! t = Some (PDown s :: ps', calls').
Proof using I Hc Hef.
  intros Ht. assert (t ∈ waiters_of k s → ∃ ps' calls', cs' !! t = Some (PDown s :: ps', calls')) as Hold.
  { intros Hin. destruct (decide (t = current k)) as [->|]; [by eapply current_not_waiting in Hin; [|apply I]|].
    rewrite lookup_insert_ne by done. by apply (i_wait _ I). }
  destruct (sema_effect_of s p k new k' (i_range _ I s) Hef) as [Hw _ _|Ep Hw _|Ep En Hw _|_ _ Hw].
  - rewrite Hw in Ht. auto.
  - rewrite Hw in Ht. auto.
  - rewrite Hw in Ht. apply elem_of_app in Ht as [Ht| ->%list_elem_of_singleton]; [auto|].
    rewrite lookup_insert_eq, En, Ep. simpl. eauto.
  - destruct Hw as [Hw|(m & _ & Hw)]; rewrite Hw in Ht; [by apply not_elem_of_nil in Ht|].
    apply list_elem_of_filter in Ht as [_ Ht]. auto.
Qed.

Lemma claim_step s : waiters_of k' s ≠ [] → claimed k' cs' s.
Proof using I Hc Hef.
  intros Hne. destruct (sema_effect_of s p k new k' (i_range _ I s) Hef) as [Hw Hv Hp|Ep Hw Hv|Ep En Hw Hv|Hp Hv Hw].
  - rewrite Hw in Hne. destruct (i_claim _ I s Hne) as (L & Hnd & Hlen & HL). simpl in *.
    exists L. split_and!; [done|lia|]. intros t Ht. rewrite Hw. destruct (HL t Ht) as (? & ps' & calls' & Hct). split; [done|].
    destruct (decide (t = current k)) as [->|]; [|rewrite lookup_insert_ne by done; eauto].
    rewrite lookup_insert_eq. rewrite Hc in Hct. injection Hct as -> -> ->. rewrite (Hp eq_refl). simpl. eauto.
  - rewrite Hw in Hne. destruct (i_claim _ I s Hne) as (L & Hnd & Hlen & HL). simpl in *.
    exists (filter (λ x, x ≠ current k) L). split_and!; [by apply list.NoDup_filter| |].
    + pose proof (filter_ne_length (current k) L Hnd). lia.
    + intros t [Htc Ht]%list_elem_of_filter. rewrite Hw, lookup_insert_ne by done. by apply HL.
  - exists []. split_and!; [constructor|rewrite Hv; done|]. by intros t ?%not_elem_of_nil.
  - destruct Hw as [?|(m & Hm & Hw)]; [done|].
    assert (waiters_of k s ≠ []) as Hne' by (intros E; rewrite E in Hm; by apply not_elem_of_nil in Hm).
    destruct (i_claim _ I s Hne') as (L & Hnd & Hlen & HL). simpl in *. exists (m :: L). split_and!.
    + constructor; [|done]. intros HmL. by destruct (HL m HmL).
    + rewrite zlen_cons. lia.
    + assert (∀ t, t ∈ m :: L → t ≠ current k) as Hnc.
      { intros t [->|Ht]%elem_of_cons ->; [by eapply current_not_waiting in Hm; [|apply I]|].
        destruct (HL _ Ht) as (_ & ps' & calls' & Hct). congruence. }
      intros t Ht. rewrite lookup_insert_ne by (apply not_eq_sym; auto). rewrite Hw, list_elem_of_filter.
      apply elem_of_cons in Ht as [->|Ht]; [split; [tauto|]; by apply (i_wait _ I)|].
      destruct (HL t Ht) as (? & ?). tauto.
Qed.
End sema_step.

(** ** New threads in one step *)

Section birth_step.
Context (k : kernel) (cs : gmap Z code) (p : piece) (ps new : list piece) (calls : list call) (k' : kernel).
Context (I : inv (Machine k cs)) (Hc : cs !! current k = Some (p :: ps, calls)).
Context (Hsp : spares p k k') (Hef : effect p k new k').
Local Notation cs' := (<[current k := (new ++ ps, calls)]> cs).

(** The pieces that create threads were ahead before. *)
Lemma creating t ps' calls' page : cs' !! t = Some (ps', calls') → PCreateStart page ∈ ps' →
  ∃ ps0 calls0, cs !! t = Some (ps0, calls0) ∧ PCreateStart page ∈ ps0 ∧
    (∀ nm pri, PCreateInit page nm pri ∈ ps' → PCreateInit page nm pri ∈ ps0) ∧
    (∀ nm pri, PCreateInit page nm pri ∈ ps0 → p ≠ PCreateInit page nm pri → PCreateInit page nm pri ∈ ps').
Proof using Hc Hef.
  destruct (new_pieces p ps k new k' Hef) as (_ & _ & N3 & N4 & _).
  intros Ht Hin. destruct (decide (t = current k)) as [->|].
  - rewrite lookup_insert_eq in Ht. injection Ht as <- <-. exists (p :: ps), calls. split_and!; [done| | |].
    + by apply list_elem_of_further, N3.
    + intros nm pri. rewrite N4. by apply list_elem_of_further.
    + intros nm pri [E|?]%elem_of_cons Hne; [done|]. by apply N4.
  - rewrite lookup_insert_ne in Ht by done. eauto 6.
Qed.

Lemma parent_step t t' ps1 ps2 calls1 calls2 page :
  cs' !! t = Some (ps1, calls1) → cs' !! t' = Some (ps2, calls2) →
  PCreateStart page ∈ ps1 → PCreateStart page ∈ ps2 → t = t'.
Proof using I Hc Hef.
  intros H1 H2 E1 E2. destruct (creating _ _ _ _ H1 E1) as (? & ? & ? & ? & _).
  destruct (creating _ _ _ _ H2 E2) as (? & ? & ? & ? & _). by eapply (i_parent _ I).
Qed.

(** A pending creation is not disturbed by the pieces of other creations. *)
Lemma spares_birth page :
  page ≠ NULL → page ≠ idle_thread k →
  (∀ nm pri, p ≠ PCreateInit page nm pri) → p ≠ PCreateStart page →
  (threads k !! page = None → threads k' !! page = None) ∧
  ((∃ th, threads k !! page = Some th ∧ orphan th) → ∃ th, threads k' !! page = Some th ∧ orphan th).
Proof using Hsp.
  clear I Hc Hef. intros Hn Hi Hp1 Hp2. destruct p; simpl in Hsp;
    try (destruct Hsp as [_ _ Ho Hd]; split; [apply Hd|intros (th & Ht & Hor); by apply (Ho page th)]).
  - destruct Hsp as [[_ _ _ _ _ _ _ Ho Hd] _]. assert (page ≠ page0) by (intros <-; by eapply Hp1).
    split; [intros; by apply Hd|intros (th & Ht & Hor); by apply (Ho page th)].
  - destruct Hsp as [_ _ _ _ _ _ _ Ho Hd]. assert (page ≠ page0) by congruence.
    split; [intros; by apply Hd|intros (th & Ht & Hor); by apply (Ho page th)].
Qed.

(** A piece either takes part in the creation of [page] or does not. *)
Lemma creation_cases page : p = PCreateStart page ∨ (∃ nm pri, p = PCreateInit page nm pri) ∨
  p ≠ PCreateStart page ∧ ∀ nm pri, p ≠ PCreateInit page nm pri.
Proof using Type.
  clear. destruct p; try (right; right; done); destruct (decide (page0 = page)) as [->|]; naive_solver.
Qed.

(** Only the thread that creates a page executes the pieces of its creation. *)
Lemma creator t ps0 calls0 page : cs !! t = Some (ps0, calls0) → PCreateStart page ∈ ps0 →
  p = PCreateStart page ∨ (∃ nm pri, p = PCreateInit page nm pri) → t = current k.
Proof using I Hc.
  clear Hsp Hef. intros Ht Hin Hp. eapply (i_parent _ I); [exact Ht|exact Hc|exact Hin|].
  destruct Hp as [->|(nm & pri & ->)]; [apply list_elem_of_here|].
  destruct (ck_created _ _ _ (i_code _ I _ _ _ Hc)) as (_ & _ & ?). by apply list_elem_of_further.
Qed.

Lemma birth_step t ps' calls' page : cs' !! t = Some (ps', calls') → PCreateStart page ∈ ps' →
  birth_ok k' cs' ps' page.
Proof using I Hc Hsp Hef.
  intros Ht Hin. destruct (creating _ _ _ _ Ht Hin) as (ps0 & calls0 & Ht0 & Hin0 & Hinit & Hinit').
  destruct (i_birth _ I _ _ _ _ Ht0 Hin0) as [Hn Hi Hcode Hbef Haft]. simpl in *.
  assert (is_Some (cs' !! page)).
  { destruct (decide (page = current k)) as [->|]; [rewrite lookup_insert_eq; by eexists|by rewrite lookup_insert_ne]. }
  pose proof (spares_idle _ _ _ Hsp) as Ei. destruct (new_pieces p ps k new k' Hef) as (_ & _ & N3 & N4 & _).
  pose proof (ck_created _ _ _ (i_code _ I _ _ _ Hc)) as (_ & Hcr).
  pose proof (creator t ps0 calls0 page Ht0 Hin0) as Hcreator.
  destruct (creation_cases page) as [Ep|[(nm & pri & Ep)|[Hp1 Hp2]]].
  - exfalso. rewrite (Hcreator (or_introl Ep)), lookup_insert_eq in Ht. injection Ht as <- <-.
    rewrite Ep in Hcr. by apply (proj1 Hcr), N3.
  - rewrite (Hcreator ltac:(eauto)), lookup_insert_eq in Ht. injection Ht as <- <-.
    rewrite Ep in Hcr, Hsp. destruct Hsp as [_ Hborn]. split; [done|congruence|done| |by eauto].
    intros nm' pri' Hx%N4. by destruct Hcr as [Hno _]; destruct (Hno nm' pri').
  - destruct (spares_birth page) as [S1 S2]; [done..|].
    split; [done|congruence|done| |].
    + intros nm pri Hx. apply S1. by eapply Hbef, Hinit.
    + intros Hno. apply S2, Haft. intros nm pri Hx. by eapply Hno, Hinit'.
Qed.
End birth_step.

(** ** Steps keep the invariant *)

Lemma inv_piece k cs p ps new calls k' :
  inv (Machine k cs) → cs !! current k = Some (p :: ps, calls) → exec p k = Done (new, k') →
  inv (Machine k' (<[current k := (new ++ ps, calls)]> cs)).
Proof.
  intros I Hc Hex. pose proof (exec_effect p k (i_kernel _ I) (enabled_step _ _ _ _ _ I Hc)) as He.
  unfold post in He. rewrite Hex in He. destruct He as (Hk' & Hsp & Hef). split; simpl.
  - done.
  - rewrite lookup_insert_ne by (by eapply current_nonnull). apply (i_null _ I).
  - by eapply idle_step.
  - intros t ps' calls'. by eapply code_step.
  - intros t s. by eapply wait_step.
  - intros s. by eapply range_step.
  - intros l. by eapply owned_step.
  - intros s. by eapply claim_step.
  - intros t ps' calls' page. by eapply birth_step.
  - intros t t' ps1 ps2 calls1 calls2 page. by eapply parent_step.
Qed.

(** The state of the kernel changes only in what no lock, semaphore or creation
    depends on, and the code stays. *)
Lemma inv_quiet k cs k' : inv (Machine k cs) → kernel_ok k' → quiet k k' → inv (Machine k' cs).
Proof.
  intros [Hk Hn Hi Hco Hw Hr Hl Hcl Hb Hp] Hk' Hq. simpl in *.
  pose proof (quiet_core k k' (proj1 Hk) (proj1 Hk') Hq) as [Eid _ Hor Hd].
  destruct Hq as [Ew Ev Eh _ Em _ _ _ _]. split; simpl; try done.
  - by rewrite Eid.
  - intros t ps calls Ht. destruct (Hco t ps calls Ht). split; try done; rewrite ?Eid, ?Eh, ?Em; done.
  - intros t s. unfold waiters_of. rewrite Ew. apply Hw.
  - intros s. rewrite Ev. apply Hr.
  - intros l. destruct (Hl l) as (o & []). exists o. split; rewrite ?Ev, ?Eh; done.
  - intros s Hne. unfold waiters_of in Hne. rewrite Ew in Hne. destruct (Hcl s Hne) as (L & ? & ? & HL).
    exists L. rewrite Ev. unfold waiters_of. rewrite Ew. done.
  - intros t ps calls page Ht Hin. destruct (Hb t ps calls page Ht Hin) as [? ? ? Hbe Haf].
    split; [done|congruence|done| |].
    + intros nm pri Hx. apply Hd. by eapply Hbe.
    + intros Hno. destruct (Haf Hno) as (th & Ht' & Ho'). by apply (Hor page th).
Qed.

(** Changing the code of threads that own nothing and wait for nothing. *)
Lemma inv_exit k cs : inv (Machine k cs) → cs !! current k = Some ([], []) →
  inv (Machine k (delete (current k) cs)).
Proof.
  intros [Hk Hn Hi Hco Hw Hr Hl Hcl Hb Hp] Hc. simpl in *.
  assert (∀ t x, delete (current k) cs !! t = Some x → cs !! t = Some x) as Hdel
    by (intros t x; rewrite lookup_delete_Some; tauto).
  split; simpl; try done.
  - by apply lookup_delete_None; right.
  - rewrite lookup_delete_ne; [done|]. intros E. rewrite E in Hc. congruence.
  - intros t ps calls Ht. by eapply Hco, Hdel.
  - intros t s Hin. rewrite lookup_delete_ne; [by apply Hw|]. intros <-.
    by eapply current_not_waiting in Hin.
  - intros l. destruct (Hl l) as (o & [Hv Ht Hh Hg]). exists o. split; try done; [intros; by eapply Ht, Hdel|].
    intros t E Hx. apply lookup_delete_None in Hx as [<-|Hx]; [|by apply Hg].
    specialize (Ht _ _ _ Hc). rewrite (one_if_true (o = _)) in Ht by done. unfold one_if in Ht. by case_decide.
  - intros s Hne. destruct (Hcl s Hne) as (L & ? & ? & HL). exists L. split_and!; [done..|].
    intros t Ht. destruct (HL t Ht) as (? & ps & calls & Hct). split; [done|]. exists ps, calls.
    rewrite lookup_delete_ne; [done|]. intros <-. congruence.
  - intros t ps calls page Ht Hin. destruct (Hb t ps calls page (Hdel _ _ Ht) Hin) as [? ? ? Hbe Haf].
    split; try done. rewrite lookup_delete_ne; [done|]. intros <-.
    destruct (Hk) as ([Hq [(thc & Hth & Hst) _]] & _).
    destruct Haf as (th & Ht' & Ho' & _); [|congruence]. intros nm pri Hx. apply Hbe in Hx. congruence.
  - intros t t' ps ps' calls calls' page H1 H2. eapply Hp; by apply Hdel.
Qed.

(** The code of the threads when a call begins: its pieces are ahead, and a new
    thread has code. *)
Record call_begun (k : kernel) (cs cs' : gmap Z code) (c : call) (calls : list call) (page : Z) : Prop := {
  cb_cases : ∀ t x, cs' !! t = Some x →
    t = current k ∧ x = (pieces (current k) page c, calls) ∨ t ≠ current k ∧ cs !! t = Some x ∨
    t = page ∧ page ≠ NULL ∧ ∃ body, x = ([], body);
  cb_kept : ∀ t x, t ≠ current k → cs !! t = Some x → cs' !! t = Some x;
  cb_dom : ∀ t, cs' !! t = None → cs !! t = None;
  cb_new : page ≠ NULL → (∃ nm pri body, c = ThreadCreate nm pri body) → is_Some (cs' !! page);
}.

Lemma new_code_begun k cs c calls page : is_Some (cs !! current k) → cs !! page = None →
  call_begun k cs (new_code page c (<[current k := (pieces (current k) page c, calls)]> cs)) c calls page.
Proof.
  intros [xc Hc] Hpage. assert (current k ≠ page) as Hcp by congruence.
  set (cs1 := <[current k := _]> cs).
  assert (∀ t x, cs1 !! t = Some x → t = current k ∧ x = (pieces (current k) page c, calls) ∨
    t ≠ current k ∧ cs !! t = Some x) as Hc1.
  { intros t x. unfold cs1. rewrite lookup_insert_Some. naive_solver. }
  assert (∀ t, cs1 !! t = None → cs !! t = None) as Hd by (intros t; unfold cs1; rewrite lookup_insert_None; tauto).
  unfold new_code. destruct c; try (split; [intros t x Hx; destruct (Hc1 t x Hx); tauto
    |intros; unfold cs1; by rewrite lookup_insert_ne|done|naive_solver]).
  destruct (Z.eqb_spec page NULL) as [->|Hn]; [split; [intros t x Hx; destruct (Hc1 t x Hx); tauto
    |intros; unfold cs1; by rewrite lookup_insert_ne|done|naive_solver]|].
  split.
  - intros t x. rewrite lookup_insert_Some. intros [[<- <-]|[_ Hx]]; [|destruct (Hc1 t x Hx); tauto].
    do 2 right. eauto.
  - intros t x ? Hx. unfold cs1. rewrite !lookup_insert_ne; [done..|congruence].
  - intros t. rewrite lookup_insert_None. intros [? _]. by apply Hd.
  - intros _ _. rewrite lookup_insert_eq. by eexists.
Qed.

Lemma inv_call k cs cs' c calls page :
  inv (Machine k cs) → cs !! current k = Some ([], c :: calls) → fresh_page k page → cs !! page = None →
  call_begun k cs cs' c calls page → inv (Machine k cs').
Proof.
  intros [Hk Hn Hi Hco Hw Hr Hl Hcl Hb Hp] Hc Hfresh Hpage [Hcase Hkept Hdom Hnew]. simpl in *.
  assert (current k ≠ NULL) as Hnn by (intros E; rewrite E in Hc; congruence).
  assert (∀ t s, t ∈ waiters_of k s → t ≠ current k) as Hwc by (intros t s Hin ->; by eapply current_not_waiting in Hin).
  split; simpl; try done.
  - destruct (cs' !! NULL) as [x|] eqn:E; [|done]. destruct (Hcase _ _ E) as [[? _]|[[_ ?]|(<- & ? & _)]]; congruence.
  - apply Hkept; [|done]. intros E. rewrite E in Hi. congruence.
  - intros t ps calls' Ht. destruct (Hcase _ _ Ht) as [[-> [= -> ->]]|[[_ Ht']|(_ & _ & body & [= -> ->])]].
    + apply pieces_ok.
    + by eapply Hco.
    + split; try done; intros; by apply not_elem_of_nil in H.
  - intros t s Hin. destruct (Hw t s Hin) as (ps & calls' & Ht). exists ps, calls'. apply Hkept; eauto.
  - intros l. destruct (Hl l) as (o & [Hv Ht Hh Hg]). exists o. split; try done; [|eauto].
    intros t ps calls' Hx. destruct (Hcase _ _ Hx) as [[-> [= -> ->]]|[[_ Ht']|(-> & Hpn & body & [= -> ->])]].
    + rewrite (proj2 (pieces_orderly _ _ _ _)). by apply (Ht _ [] (c :: calls)).
    + by eapply Ht.
    + simpl. unfold one_if. repeat case_decide; try done.
      * exfalso. assert (o = Some page); [|done]. rewrite Hh; congruence.
      * exfalso. by apply H, Hg.
  - intros s Hne. destruct (Hcl s Hne) as (L & ? & ? & HL). exists L. split_and!; [done..|].
    intros t Ht. destruct (HL t Ht) as (? & ps & calls' & Hct). split; [done|]. exists ps, calls'.
    apply Hkept; [|done]. intros ->. congruence.
  - intros t ps calls' pg Ht Hin. destruct (Hcase _ _ Ht) as [[-> [= -> ->]]|[[_ Ht']|(_ & _ & body & [= -> ->])]].
    + destruct (pieces_start _ _ _ _ Hin) as (-> & Hpn & Hcr & nm & pri & Hinit).
      split; [done|intros ->; congruence|by apply Hnew|by destruct Hfresh|]. intros Hno. by destruct (Hno nm pri).
    + destruct (Hb _ _ _ _ Ht' Hin) as [? ? Hsome ? ?]. split; try done.
      destruct (cs' !! pg) eqn:E; [by eexists|]. apply Hdom in E. by rewrite E in Hsome.
    + by apply not_elem_of_nil in Hin.
  - assert (∀ t ps calls' pg, cs' !! t = Some (ps, calls') → PCreateStart pg ∈ ps →
      t = current k ∧ pg = page ∨ pg ≠ page ∧ cs !! t = Some (ps, calls')) as Hpg.
    { intros t ps calls' pg Ht Hin. destruct (Hcase _ _ Ht) as [[-> [= -> ->]]|[[_ Ht']|(_ & _ & body & [= -> ->])]].
      - left. by destruct (pieces_start _ _ _ _ Hin) as (-> & _).
      - right. split; [|done]. intros ->. destruct (bk_code _ _ _ _ (Hb _ _ _ _ Ht' Hin)). congruence.
      - by apply not_elem_of_nil in Hin. }
    intros t t' ps1 ps2 calls1 calls2 pg H1 H2 E1 E2.
    destruct (Hpg _ _ _ _ H1 E1) as [[-> ->]|[? ?]], (Hpg _ _ _ _ H2 E2) as [[-> ?]|[? ?]]; try done. by eapply Hp.
Qed.

Lemma step_inv m m' : inv m → step m m' → inv m'.
Proof.
  intros I Hs. destruct Hs as [k cs p ps calls new k' Hc Hex|k cs c calls page Hc Hf Hpg|k cs k' Hc Hex|k cs k' Hex].
  - by eapply inv_piece.
  - eapply inv_call; [done..|]. apply new_code_begun; [by eexists|done].
  - assert (current k ≠ idle_thread k) as Hni.
    { pose proof (i_idle _ I) as Hi. simpl in Hi. intros E. rewrite <-E in Hi. congruence. }
    pose proof (exit_ok k (i_kernel _ I) Hni) as He. unfold post in He. rewrite Hex in He. destruct He as [? ?].
    eapply inv_quiet; [by apply inv_exit|done..].
  - pose proof (timer_ok k (i_kernel _ I)) as He. unfold post in He. rewrite Hex in He. destruct He as [? ?].
    by eapply inv_quiet.
Qed.

Lemma steps_inv m m' : inv m → steps m m' → inv m'.
Proof. intros I Hs. induction Hs as [|m1 m2 m3 H _ IH]; [done|]. by apply IH, (step_inv m1). Qed.
