(* ===== verification/MachineSpec.v ===== *)
(** * What the scheduler and the locks guarantee

    The theorems about every state the machine can reach from the state in
    which [thread_start] has returned: the initial thread runs its program with
    interrupts on, and the idle thread is blocked in its loop. *)

From S2P Require Import Prelude KList KListSort KListOps FixedPoint Vaddr Thread Synch SchedInv Machine SyncInv PieceInv MachineInv.

(** ** The initial state *)

Definition main_page : Z := 8192.
Definition idle_page : Z := 12288.

Definition main_thread : thread :=
  Thread 1 THREAD_RUNNING [] (main_page + PGSIZE) PRI_DEFAULT None PRI_DEFAULT [] 0 0 0.
Definition idle_loop : thread :=
  Thread 2 THREAD_BLOCKED [] (idle_page + PGSIZE) PRI_MIN None PRI_MIN [] 0 0 0.

(** Locks are initialised, semaphores have the values [sema]. *)
Definition boot_kernel (mlfqs : bool) (sema : Z → Z) : kernel :=
  Kernel (<[main_page := main_thread]> {[idle_page := idle_loop]}) main_page true false false
    (λ _, []) [main_page; idle_page] []
    (λ s, match s with UserSema n => u32 (sema n) | LockSema _ => 1 | WaiterSema _ => 0 end)
    (λ _, NULL) (λ _, []) idle_page main_page mlfqs 0 0 0 0 0 3.

Definition boot (mlfqs : bool) (sema : Z → Z) (prog : list call) : machine :=
  Machine (boot_kernel mlfqs sema) (<[main_page := ([], prog)]> {[idle_page := ([PIdle], [])]}).

Lemma boot_threads mlfqs sema t th : threads (boot_kernel mlfqs sema) !! t = Some th →
  t = main_page ∧ th = main_thread ∨ t = idle_page ∧ th = idle_loop.
Proof. simpl. rewrite lookup_insert_Some, lookup_singleton_Some. naive_solver. Qed.
Lemma boot_codes mlfqs sema prog t ps calls : codes (boot mlfqs sema prog) !! t = Some (ps, calls) →
  t = main_page ∧ ps = [] ∨ t = idle_page ∧ ps = [PIdle].
Proof. simpl. rewrite lookup_insert_Some, lookup_singleton_Some. naive_solver. Qed.

Lemma boot_kernel_ok mlfqs sema : kernel_ok (boot_kernel mlfqs sema).
Proof.
  split; [split; [split|split]|done].
  - intros q t. unfold links. destruct (threads _ !! t) as [th|] eqn:E; simpl; [|split; [by intros ?%not_elem_of_nil|done]].
    destruct (boot_threads _ _ _ _ E) as [[-> ->]|[-> ->]]; simpl; (split; [by intros ?%not_elem_of_nil|done]).
  - intros q. constructor.
  - intros t th E. destruct (boot_threads _ _ _ _ E) as [[-> ->]|[-> ->]]; done.
  - done.
  - intros q t. unfold links. destruct (threads _ !! t) as [th|] eqn:E; [|done].
    destruct (boot_threads _ _ _ _ E) as [[-> ->]|[-> ->]]; done.
  - by exists main_thread.
  - intros t th E. destruct (boot_threads _ _ _ _ E) as [[-> ->]|[-> ->]]; done.
Qed.

Lemma boot_inv mlfqs sema prog : inv (boot mlfqs sema prog).
Proof.
  split.
  - apply boot_kernel_ok.
  - done.
  - done.
  - intros t ps calls E. destruct (boot_codes _ _ _ _ _ _ E) as [[-> ->]|[-> ->]]; split; try done.
    + by intros x ?%not_elem_of_nil.
    + by intros ?%not_elem_of_nil.
    + by intros q ?%not_elem_of_nil.
    + by intros x [? | ?%not_elem_of_nil]%elem_of_cons.
    + by intros q [-> | ?%not_elem_of_nil]%elem_of_cons.
  - by intros t s ?%not_elem_of_nil.
  - intros [n| |]; simpl; [|lia..]. apply Z.mod_pos_bound. lia.
  - intros l. exists None. split; try done. intros t ps calls E.
    destruct (boot_codes _ _ _ _ _ _ E) as [[-> ->]|[-> ->]]; done.
  - done.
  - intros t ps calls page E. destruct (boot_codes _ _ _ _ _ _ E) as [[-> ->]|[-> ->]];
      rewrite ?elem_of_cons; by intros ?%not_elem_of_nil || intros [?|?%not_elem_of_nil].
  - intros t t' ps ps' calls calls' page E _. destruct (boot_codes _ _ _ _ _ _ E) as [[-> ->]|[-> ->]];
      rewrite ?elem_of_cons; by intros ?%not_elem_of_nil || intros [?|?%not_elem_of_nil].
Qed.

Definition reachable (mlfqs : bool) (sema : Z → Z) (prog : list call) (m : machine) : Prop :=
  steps (boot mlfqs sema prog) m.

Lemma reachable_inv mlfqs sema prog m : reachable mlfqs sema prog m → inv m.
Proof. apply steps_inv, boot_inv. Qed.

(** ** Runs of the machine, computed *)

Inductive action : Type :=
  | Run                      (* the current thread goes on *)
  | RunWith (page : Z)       (* the same, [palloc_get_page] returning [page] *)
  | Tick.                    (* the timer interrupts *)

Definition run_once (page : Z) (m : machine) : option machine :=
  let k := kern m in
  match codes m !! current k with
  | Some (p :: ps, calls) =>
      match exec p k with
      | Done (new, k') => Some (Machine k' (<[current k := (new ++ ps, calls)]> (codes m)))
      | _ => None
      end
  | Some ([], c :: calls) =>
      if bool_decide (page = NULL ∨ threads k !! page = None) && bool_decide (codes m !! page = None) then
        Some (Machine k (new_code page c (<[current k := (pieces (current k) page c, calls)]> (codes m))))
      else None
  | Some ([], []) =>
      match exit_thread k with Done (_, k') => Some (Machine k' (delete (current k) (codes m))) | _ => None end
  | None => None
  end.

Definition act (a : action) (m : machine) : option machine :=
  match a with
  | Run => run_once NULL m
  | RunWith page => run_once page m
  | Tick => match intr_handler_timer (kern m) with Done (_, k') => Some (Machine k' (codes m)) | _ => None end
  end.

Fixpoint play (acts : list action) (m : machine) : option machine :=
  match acts with
  | [] => Some m
  | a :: acts => match act a m with Some m' => play acts m' | None => None end
  end.

Lemma act_step a m m' : act a m = Some m' → step m m'.
Proof.
  destruct m as [k cs]. assert (∀ page, run_once page (Machine k cs) = Some m' → step (Machine k cs) m') as Hrun.
  { intros page. unfold run_once. simpl. destruct (cs !! current k) as [[[|p ps] [|c calls]]|] eqn:Hc; try done.
    - destruct (exit_thread k) as [[[] k']| | |] eqn:E; try done. intros [= <-]. by eapply step_exit.
    - case_bool_decide as H1; [|done]. case_bool_decide as H2; [|done]. intros [= <-]. by eapply step_call.
    - destruct (exec p k) as [[new k']| | |] eqn:E; try done. intros [= <-]. by eapply step_piece.
    - destruct (exec p k) as [[new k']| | |] eqn:E; try done. intros [= <-]. by eapply step_piece. }
  destruct a; simpl; [apply Hrun..|].
  destruct (intr_handler_timer k) as [[[] k']| | |] eqn:E; try done. intros [= <-]. by eapply step_timer.
Qed.
Lemma play_steps acts m m' : play acts m = Some m' → steps m m'.
Proof.
  revert m. induction acts as [|a acts IH]; intros m; simpl; [by intros [= ->]|].
  destruct (act a m) as [m1|] eqn:E; [|done]. intros H. eapply rtc_l; [by eapply act_step|by apply IH].
Qed.

(** ** The theorems *)

(** C2 In every reachable state exactly one thread, the current one, is marked as
    running; the run queues hold exactly the ready threads (the idle thread
    excepted, which is in none), each once and, under the feedback-queue
    scheduler, in the queue of its present priority; the threads on a
    semaphore's wait list are blocked; and no thread is in two lists. *)
Theorem reachable_queues_consistent mlfqs sema prog m :
  reachable mlfqs sema prog m →
  let k := kern m in
  (∀ t th, threads k !! t = Some th → status th = THREAD_RUNNING ↔ t = current k) ∧
  (∀ t th, threads k !! t = Some th → t ≠ idle_thread k →
     status th = THREAD_READY ↔ t ∈ queues k (run_queue k th)) ∧
  (∀ q t, t ∈ queues k q → ∃ th, threads k !! t = Some th ∧
     (is_run_queue q → status th = THREAD_READY ∧ q = run_queue k th) ∧
     (¬ is_run_queue q → status th = THREAD_BLOCKED)) ∧
  (∀ q, NoDup (queues k q)) ∧
  (∀ q q' t, t ∈ queues k q → t ∈ queues k q' → q = q') ∧
  (∀ q, idle_thread k ∉ queues k q).
Proof.
  intros Hr. simpl. destruct (i_kernel _ (reachable_inv _ _ _ _ Hr)) as ([Hq [(thc & Hc & Hs) Ho]] & _).
  split_and!.
  - intros t th Ht. split; [by apply Ho|]. intros ->. congruence.
  - intros t th Ht Hid. rewrite (qo_links _ Hq). unfold links. rewrite Ht. simpl.
    destruct (qo_placed _ Hq _ _ Ht) as (Hpl & _ & _). split.
    + intros E. rewrite E in Hpl. tauto.
    + intros E. assert (is_run_queue (run_queue (kern m) th)) as Hrq by (unfold run_queue; by destruct (thread_mlfqs _)).
      rewrite E in Hpl. by destruct (status th).
  - intros q t Hin. pose proof (proj1 (qo_links _ Hq _ _) Hin) as Hl. unfold links in Hl.
    destruct (threads (kern m) !! t) as [th|] eqn:Ht; [|done]. simpl in Hl. exists th. split_and!; [done| |].
    + intros Hrq. destruct (run_queue_ready _ _ _ Hq Hrq Hin) as (th' & ? & ? & ? & ?). by simplify_eq.
    + intros Hrq. destruct (qo_placed _ Hq _ _ Ht) as (Hpl & _ & Hid). rewrite Hl in Hpl, Hid.
      destruct (status th); try done. destruct Hpl as [[= ->]|Hi]; [|by destruct (Hid Hi)].
      destruct Hrq. unfold run_queue. by destruct (thread_mlfqs _).
  - apply Hq.
  - intros q q' t H1%(qo_links _ Hq) H2%(qo_links _ Hq). congruence.
  - intros q Hin%(qo_links _ Hq). unfold links in Hin.
    destruct (threads (kern m) !! idle_thread (kern m)) as [th|] eqn:Ht; [|done]. simpl in Hin.
    destruct (qo_placed _ Hq _ _ Ht) as (_ & _ & Hid). destruct Hid; [done|]. congruence.
Qed.

(** A run in which a more urgent thread is created while the lock it needs is
    held: it donates its priority and waits. *)
Definition demo_prog : list call :=
  [LockAcquire 5; ThreadCreate [] 40 [LockAcquire 5; LockRelease 5]; LockRelease 5; SemaDown 0].
Definition demo_run (n : nat) : list action := repeat Run 7 ++ RunWith 20480 :: repeat Run n.
Definition demo_state (n : nat) : machine :=
  match play (demo_run n) (boot false (λ _, 0) demo_prog) with Some m => m | None => boot false (λ _, 0) [] end.
Lemma demo_reachable n : match play (demo_run n) (boot false (λ _, 0) demo_prog) with Some _ => True | None => False end →
  reachable false (λ _, 0) demo_prog (demo_state n).
Proof.
  intros H. unfold demo_state, reachable. destruct (play _ _) as [m|] eqn:E; [|done]. by eapply play_steps.
Qed.

Lemma reachable_queues_consistent_witness :
  let k := kern (demo_state 23) in
  prio k main_page = 40 ∧ current k = main_page ∧ queues k (Waiters (LockSema 5)) = [20480] ∧
  ∀ t th, threads k !! t = Some th → status th = THREAD_RUNNING ↔ t = current k.
Proof.
  split_and!; [vm_compute; reflexivity..|].
  apply (reachable_queues_consistent false (λ _, 0) demo_prog (demo_state 23)).
  apply demo_reachable. vm_compute. exact I.
Defined.

(** A thread is in the critical section of a lock from the moment its
    [sema_down] in [lock_acquire] takes the semaphore until its [sema_up] in
    [lock_release]: it is recorded as the holder, or it has the token of the
    lock and has not recorded itself yet or no longer is recorded. *)
Definition in_critical (m : machine) (l t : Z) : Prop :=
  ∃ ps calls, codes m !! t = Some (ps, calls) ∧ (holder (kern m) l = t ∨ 1 ≤ tokens l ps).

Lemma in_critical_owner m l t o : owned (kern m) (codes m) l o → inv m → in_critical m l t → o = Some t.
Proof.
  intros Ho Hi (ps & calls & Hc & H). pose proof (ow_tokens _ _ _ _ Ho _ _ _ Hc) as Ht.
  pose proof (orderly_tokens l ps (ck_orderly _ _ _ (i_code _ Hi _ _ _ Hc) l)) as Hp.
  unfold one_if in Ht. destruct (decide (o = Some t)); [done|].
  destruct (decide (holder (kern m) l = t)); destruct H; lia || done.
Qed.

(** C1 Locks exclude: in every reachable state at most one thread is in the
    critical section of a lock, and while one is, the lock's semaphore is 0, so
    that [sema_down] lets nobody else in. *)
Theorem mutual_exclusion mlfqs sema prog m l :
  reachable mlfqs sema prog m →
  (∀ t t', in_critical m l t → in_critical m l t' → t = t') ∧
  (∀ t, in_critical m l t → sema_value (kern m) (LockSema l) = 0) ∧
  (∀ t, holder (kern m) l = t → is_Some (codes m !! t) → in_critical m l t).
Proof.
  intros Hr. pose proof (reachable_inv _ _ _ _ Hr) as Hi. destruct (i_lock _ Hi l) as [o Ho].
  split_and!.
  - intros t t' H1 H2. eapply in_critical_owner in H1, H2; try done; congruence.
  - intros t H. eapply in_critical_owner in H; [|by eauto..]. rewrite (ow_value _ _ _ _ Ho). by subst.
  - intros t Ht [[ps calls] Hc]. exists ps, calls. auto.
Qed.

Lemma mutual_exclusion_witness :
  in_critical (demo_state 23) 5 main_page ∧ ∀ t, in_critical (demo_state 23) 5 t → t = main_page.
Proof.
  assert (in_critical (demo_state 23) 5 main_page) as H.
  { eexists _, _. split; [vm_compute; reflexivity|]. left. vm_compute. reflexivity. }
  split; [exact H|]. intros t Ht.
  refine (proj1 (mutual_exclusion false (λ _, 0) demo_prog (demo_state 23) 5 _) t main_page Ht H).
  apply demo_reachable. vm_compute. exact I.
Defined.

(** C7 No wake-up is lost: while threads wait on a semaphore, each unit of its
    value is matched by a thread of its own that is off the wait list and whose
    next action is another turn of the loop of [sema_down].  So threads wait on
    a semaphore of positive value only while a thread that [sema_up] has woken,
    or that has come since, is about to take it. *)
Theorem no_lost_wakeup mlfqs sema prog m s :
  reachable mlfqs sema prog m →
  queues (kern m) (Waiters s) ≠ [] →
  ∃ L, NoDup L ∧ sema_value (kern m) s ≤ zlen L ∧
    ∀ t, t ∈ L → t ∉ queues (kern m) (Waiters s) ∧
      ∃ ps calls, codes m !! t = Some (PDown s :: ps, calls).
Proof. intros Hr Hw. apply (i_claim _ (reachable_inv _ _ _ _ Hr)), Hw. Qed.

(** Two threads wait, and one [sema_up] has just woken the more urgent one. *)
Definition wake_prog : list call :=
  [ThreadCreate [] 40 [SemaDown 0]; ThreadCreate [] 39 [SemaDown 0]; SemaUp 0].
Definition wake_run : list action :=
  RunWith 20480 :: repeat Run 18 ++ RunWith 24576 :: repeat Run 20.
Definition wake_state : machine :=
  match play wake_run (boot false (λ _, 0) wake_prog) with Some m => m | None => boot false (λ _, 0) [] end.

Lemma no_lost_wakeup_witness :
  queues (kern wake_state) (Waiters (UserSema 0)) = [24576] ∧ sema_value (kern wake_state) (UserSema 0) = 1 ∧
  ∃ L, NoDup L ∧ 1 ≤ zlen L ∧
    ∀ t, t ∈ L → t ∉ [24576] ∧ ∃ ps calls, codes wake_state !! t = Some (PDown (UserSema 0) :: ps, calls).
Proof.
  split; [vm_compute; reflexivity|]. split; [vm_compute; reflexivity|].
  refine (no_lost_wakeup false (λ _, 0) wake_prog wake_state (UserSema 0) _ _).
  - eapply (play_steps wake_run). vm_compute. reflexivity.
  - vm_compute. discriminate.
Defined.

(** After a contended [lock_release] both the new and the old holder find the
    lock in its initial state, and both unlink it from [lock_list]; the second
    [list_remove] is applied to an element that is in no list. *)
Lemma contended_release_unlinks_twice :
  let m := demo_state 40 in
  reachable false (λ _, 0) demo_prog m ∧ codes m !! current (kern m) = Some ([PReleaseDrop 5], [SemaDown 0]) ∧
  5 ∉ lock_list (kern m) ∧ exec (PReleaseDrop 5) (kern m) = Undef.
Proof.
  split; [apply demo_reachable; vm_compute; exact I|]. split; [vm_compute; reflexivity|].
  split; [|vm_compute; reflexivity]. assert (lock_list (kern (demo_state 40)) = []) as -> by (vm_compute; reflexivity).
  apply not_elem_of_nil.
Qed.

(** ** Histories that end in undefined behaviour *)

(** The machine after a history, from the start of the kernel. *)
Definition history (prog : list call) (acts : list action) : machine := default (boot false (λ _, 0) []) (play acts (boot false (λ _, 0) prog)).
Lemma history_reachable prog acts : is_Some (play acts (boot false (λ _, 0) prog)) → reachable false (λ _, 0) prog (history prog acts).
Proof. intros [m E]. unfold history. rewrite E. by eapply play_steps. Qed.

(** The thread that is created runs to its end before [thread_create] reads its
    priority: the page it was in has been freed. *)
Definition short_lived : machine := history [ThreadCreate [] 31 []] (RunWith 20480 :: repeat Run 15 ++ repeat Tick 4 ++ [Run]).
Lemma create_reads_dead_thread : reachable false (λ _, 0) [ThreadCreate [] 31 []] short_lived ∧
  codes short_lived !! current (kern short_lived) = Some ([PCreateYield 20480], []) ∧ exec (PCreateYield 20480) (kern short_lived) = Undef.
Proof. split; [apply history_reachable; vm_compute; by eexists|]. split; vm_compute; reflexivity. Qed.

(** [lock_acquire] finds the lock held, and then follows [lock->holder]; the lock is released in
    between. *)
Definition released_prog : list call := [LockAcquire 5; ThreadCreate [] 31 [LockAcquire 5]; LockRelease 5].
Definition released_between : machine :=
  history released_prog (repeat Run 7 ++ RunWith 20480 :: repeat Run 16 ++ repeat Tick 4 ++ repeat Run 3 ++ repeat Tick 4 ++ repeat Run 4 ++ repeat Tick 4).
Lemma donation_follows_null_holder : reachable false (λ _, 0) released_prog released_between ∧
  option_map (λ c, head c.1) (codes released_between !! current (kern released_between)) = Some (Some (PAcquireCompare 5)) ∧
  exec (PAcquireCompare 5) (kern released_between) = Undef.
Proof. split; [apply history_reachable; vm_compute; by eexists|]. split; vm_compute; reflexivity. Qed.

(** Between [lock->holder = NULL] and the moment the thread that is woken becomes the holder, a
    lock that threads wait for is still in [lock_list]; a thread that sets its priority in
    between makes [reset_donate_priority] follow the null pointer. *)
Definition unheld_prog : list call := [LockAcquire 5; ThreadCreate [] 40 [LockAcquire 5]; ThreadCreate [] 31 [SetPriority 31]; LockRelease 5].
Definition unheld_lock : machine :=
  history unheld_prog (repeat Run 7 ++ RunWith 20480 :: repeat Run 23 ++ RunWith 24576 :: repeat Run 20 ++ repeat Tick 4 ++ repeat Run 2).
Lemma reset_follows_null_holder : reachable false (λ _, 0) unheld_prog unheld_lock ∧
  lock_list (kern unheld_lock) = [5] ∧ holder (kern unheld_lock) 5 = NULL ∧ queues (kern unheld_lock) (Waiters (LockSema 5)) = [20480] ∧
  codes unheld_lock !! current (kern unheld_lock) = Some ([PResetDonate; PSetPriorityYield], []) ∧ exec PResetDonate (kern unheld_lock) = Undef.
Proof. split; [apply history_reachable; vm_compute; by eexists|]. split_and!; vm_compute; reflexivity. Qed.
