(* ===== verification/Scheduling.v ===== *)
(** * Which thread runs next

    [thread_yield] and the scheduler behind it as total functions: from a
    consistent state they return, and the thread they switch to is given
    exactly, for both scheduling policies. *)

From S2P Require Import Prelude KList KListSort KListOps FixedPoint Thread Synch SchedInv Machine SyncInv PieceInv MachineInv MachineSpec.

(** Steps, the assertions the context decides included. *)
Ltac krun := repeat first
  [ run_step
  | match goal with |- runs (assert _) _ _ => apply runs_assert; [solve [done | by apply bool_decide_true]|] end ].

Lemma runs_thread_at t th k (Q : thread → kernel → Prop) :
  threads k !! t = Some th → Q th k → runs (thread_at t) k Q.
Proof. unfold runs, thread_at. by intros ->. Qed.
Lemma runs_modify_thread t th f k (Q : unit → kernel → Prop) :
  threads k !! t = Some th → Q tt (put_thread t (f th) k) → runs (modify_thread t f) k Q.
Proof. intros Ht HQ. unfold modify_thread. apply runs_bind. by apply (runs_thread_at t th). Qed.
Lemma runs_is_thread t th k (Q : bool → kernel → Prop) :
  threads k !! t = Some th → Q true k → runs (is_thread t) k Q.
Proof. intros Ht HQ. unfold is_thread. apply runs_gets. by rewrite bool_decide_true by eauto. Qed.
Lemma runs_thread_current th k (Q : Z → kernel → Prop) :
  threads k !! current k = Some th → status th = THREAD_RUNNING → Q (current k) k → runs thread_current k Q.
Proof.
  intros Ht Hs HQ. unfold thread_current. krun. eapply runs_is_thread; [done|]. krun; simpl.
  eapply runs_thread_at; [done|]. by krun.
Qed.
Lemma runs_intr_off k (Q : bool → kernel → Prop) : intr_on k = false → Q false k → runs intr_disable k Q.
Proof.
  intros Hi HQ. unfold intr_disable, intr_get_level. krun. rewrite intr_on_eta by done. by rewrite Hi.
Qed.
Lemma runs_push_elem q t th k (Q : unit → kernel → Prop) :
  threads k !! t = Some th → elem th = None → queue_ok q = true →
  Q tt (put_queue q (queues k q ++ [t]) (put_thread t (set_elem (Some q) th) k)) → runs (push_elem q t) k Q.
Proof.
  intros Ht He Hq HQ. unfold push_elem. krun. eapply runs_thread_at; [done|].
  rewrite bool_decide_true, Hq by done. simpl. krun. by eapply runs_modify_thread.
Qed.
Lemma runs_remove_elem q t th k (Q : unit → kernel → Prop) :
  threads k !! t = Some th → elem th = Some q →
  Q tt (put_queue q (filter (λ x, x ≠ t) (queues k q)) (put_thread t (set_elem None th) k)) →
  runs (remove_elem t) k Q.
Proof.
  intros Ht He HQ. unfold remove_elem. krun. eapply runs_thread_at; [done|].
  rewrite He. krun. by eapply runs_modify_thread.
Qed.

(** The thread [n] is taken off the list [q]. *)
Definition taken_off (q : qid) (n : Z) (th : thread) (k : kernel) : kernel :=
  put_queue q (filter (λ x, x ≠ n) (queues k q)) (put_thread n (set_elem None th) k).

(** The thread the priority scheduler takes. *)
Lemma runs_next_priority k t ts th (Q : Z → kernel → Prop) :
  thread_mlfqs k = false → intr_on k = false → queues k ReadyList = t :: ts →
  let n := argmax (less_priority k) t ts in
  threads k !! n = Some th → elem th = Some ReadyList → Q n (taken_off ReadyList n th k) →
  runs next_thread_to_run k Q.
Proof.
  intros Hm Hi Hq n Ht He HQ. unfold next_thread_to_run, max_elem. krun. rewrite Hm. krun. rewrite Hq. fold n.
  krun. apply runs_intr_off; [done|]. krun. eapply runs_remove_elem; [done..|]. unfold intr_set_level. krun.
  by apply runs_intr_off.
Qed.
(** The thread the feedback-queue scheduler takes: the oldest of the highest list. *)
Lemma runs_next_mlfqs k i t ts th (Q : Z → kernel → Prop) :
  thread_mlfqs k = true → intr_on k = false → first_nonempty 64 k = Some i → queues k (MlfqsList i) = t :: ts →
  threads k !! t = Some th → elem th = Some (MlfqsList i) → Q t (taken_off (MlfqsList i) t th k) →
  runs next_thread_to_run k Q.
Proof.
  intros Hm Hi Hf Hq Ht He HQ. unfold next_thread_to_run. krun. rewrite Hm. krun. apply runs_intr_off; [done|].
  krun. rewrite Hf. krun. rewrite Hq. krun. eapply runs_remove_elem; [done..|]. unfold intr_set_level. krun.
  by apply runs_intr_off.
Qed.

Lemma runs_schedule k n k1 thc th (Q : unit → kernel → Prop) :
  (∀ Q : Z → kernel → Prop, Q n k1 → runs next_thread_to_run k Q) →
  intr_on k1 = false → current k1 = current k → current k ≠ NULL →
  threads k1 !! current k = Some thc → status thc ≠ THREAD_RUNNING → status thc ≠ THREAD_DYING →
  threads k1 !! n = Some th → Q tt (started n th k1) → runs schedule k Q.
Proof.
  intros Hn Hi Hc Hnull Ht Hs Hd Hth HQ. unfold schedule. krun. apply Hn. unfold intr_get_level. krun. rewrite Hi. simpl.
  krun. eapply runs_thread_at; [done|]. krun. rewrite bool_decide_false by done. simpl. krun.
  eapply runs_is_thread; [done|]. krun. destruct (Z.eqb_spec (current k) n) as [E|E].
  - unfold thread_schedule_tail, intr_get_level. krun. rewrite Hi. simpl. krun. rewrite Hc, E.
    eapply runs_modify_thread; [done|]. krun. simpl. krun. unfold started in HQ. by rewrite current_eta in HQ by congruence.
  - krun. unfold thread_schedule_tail, intr_get_level. krun. simpl. rewrite Hi. simpl. krun.
    eapply runs_modify_thread; [done|]. krun. destruct (Z.eqb_spec (current k) NULL); [done|]. krun.
    eapply (runs_thread_at _ thc); [simpl; by rewrite lookup_insert_ne|]. krun.
    rewrite bool_decide_false by done. simpl. by krun.
Qed.

(** [thread_yield] of a thread other than the idle one: it is queued, and the
    scheduler chooses. *)
Lemma runs_yield k th (Q : unit → kernel → Prop) :
  threads k !! current k = Some th → status th = THREAD_RUNNING → elem th = None →
  in_external_intr k = false → current k ≠ idle_thread k → queue_ok (run_queue k th) = true →
  runs schedule (set_intr_on false (yielded th k))
    (λ _ k', intr_on k' = false ∧ in_external_intr k' = false ∧ Q tt (set_intr_on (intr_on k) k')) →
  runs thread_yield k Q.
Proof.
  intros Ht Hs He Hx Hid Hq HQ. unfold thread_yield. krun. eapply runs_thread_current; [done..|].
  unfold intr_context. krun. rewrite Hx. krun. unfold intr_disable, intr_get_level. krun. simpl.
  destruct (Z.eqb_spec (current k) (idle_thread k)) as [?|_]; [done|]. simpl. krun.
  eapply runs_thread_at; [done|].
  assert (∀ P : unit → kernel → Prop, P tt (put_queue (run_queue k th) (queues k (run_queue k th) ++ [current k])
      (put_thread (current k) (set_elem (Some (run_queue k th)) th) (set_intr_on false k))) →
    runs (if thread_mlfqs k then push_elem (MlfqsList (priority th)) (current k) else push_elem ReadyList (current k))
      (set_intr_on false k) P) as Hpush.
  { intros P HP. unfold run_queue in *. destruct (thread_mlfqs k); by eapply runs_push_elem. }
  apply Hpush. krun. eapply runs_modify_thread; [simpl; apply lookup_insert_eq|]. krun.
  unfold yielded in HQ. destruct (Z.eqb_spec (current k) (idle_thread k)) as [?|_]; [done|].
  unfold put_thread, put_queue in *. simpl in *. rewrite insert_insert_eq.
  eapply runs_mono; [exact HQ|]. intros [] k' (Hi' & Hx' & HQ'). unfold intr_set_level.
  destruct (intr_on k); unfold intr_enable, intr_disable, intr_get_level, intr_context; krun; rewrite ?Hx'; by krun.
Qed.

Lemma list_cons_snoc {A} (l : list A) x : ∃ y ys, l ++ [x] = y :: ys.
Proof. destruct l; simpl; eauto. Qed.

Lemma linked_in k q t : queues_ok k → t ∈ queues k q → ∃ th, threads k !! t = Some th ∧ elem th = Some q.
Proof.
  intros Hk Hin%(qo_links _ Hk). unfold links in Hin. destruct (threads k !! t) as [th|]; [|done]. by exists th.
Qed.

(** What is left of a yield once the scheduler's choice is known. *)
Lemma runs_yield_to k th n q thn (Q : unit → kernel → Prop) :
  kernel_ok k → threads k !! current k = Some th → status th = THREAD_RUNNING →
  current k ≠ idle_thread k → queue_ok (run_queue k th) = true →
  let k1 := set_intr_on false (yielded th k) in
  threads k1 !! n = Some thn →
  (∀ Q : Z → kernel → Prop, Q n (taken_off q n thn k1) → runs next_thread_to_run k1 Q) →
  Q tt (set_intr_on (intr_on k) (started n (set_elem None thn) (taken_off q n thn k1))) →
  runs thread_yield k Q.
Proof.
  intros ([Hk Hc] & Hi & Hx) Ht Hs Hid Hq k1 Hn Hnext HQ.
  assert (elem th = None) as He by (destruct (qo_placed _ Hk _ _ Ht) as (Hpl & _); by rewrite Hs in Hpl).
  apply (runs_yield k th); [done..|]. fold k1.
  assert (current k1 = current k ∧ in_external_intr k1 = false) as [Hc1 Hx1].
  { destruct (yielded_same k th Ht) as (_ & _ & ? & _ & ? & _). split; simpl; congruence. }
  assert (threads k1 !! current k = Some (set_status THREAD_READY (set_elem (Some (run_queue k th)) th))) as Hcur.
  { unfold k1, yielded. destruct (Z.eqb_spec (current k) (idle_thread k)); [done|]. simpl. apply lookup_insert_eq. }
  assert (∃ thc, threads (taken_off q n thn k1) !! current k1 = Some thc ∧ status thc = THREAD_READY)
    as (thc & Hthc & Hst).
  { rewrite Hc1. unfold taken_off. cbn [threads put_queue set_queues put_thread set_threads].
    destruct (decide (current k = n)) as [<-|].
    - rewrite lookup_insert_eq. rewrite Hcur in Hn. injection Hn as <-. eauto.
    - rewrite lookup_insert_ne by done. rewrite Hcur. eauto. }
  eapply (runs_schedule k1 n _ thc (set_elem None thn) _ Hnext); [done..| |done| | | |].
  - rewrite Hc1. intros E. rewrite E in Ht. by rewrite (qo_null _ Hk) in Ht.
  - by rewrite Hst.
  - by rewrite Hst.
  - unfold taken_off. cbn [threads put_queue set_queues put_thread set_threads]. apply lookup_insert_eq.
  - done.
Qed.

(** The state the scheduler is called in when the current thread yields. *)
Record yielding (k k1 : kernel) (th : thread) : Prop := {
  yi_thread : threads k !! current k = Some th;
  yi_status : status th = THREAD_RUNNING;
  yi_state : k1 = set_intr_on false (yielded th k);
  yi_ok : queues_ok k1;
  yi_queues : ∀ q, queues k1 q = queues k q ++ (if decide (q = run_queue k th) then [current k] else []);
  yi_prio : ∀ t, prio k1 t = prio k t;
  yi_mlfqs : thread_mlfqs k1 = thread_mlfqs k;
}.
Lemma yielding_state k : kernel_ok k → current k ≠ idle_thread k →
  (thread_mlfqs k = true → PRI_MIN ≤ prio k (current k) ≤ PRI_MAX) →
  ∃ k1 th, yielding k k1 th ∧ queue_ok (run_queue k th) = true.
Proof.
  intros ([Hk [(th & Ht & Hs) Ho]] & Hi & Hx) Hid Hp. exists (set_intr_on false (yielded th k)), th.
  assert (queue_ok (run_queue k th) = true) as Hq.
  { unfold run_queue. destruct (thread_mlfqs k); [|done]. unfold queue_ok. rewrite (prio_at _ _ _ Ht) in Hp.
    specialize (Hp eq_refl). unfold PRI_MIN, PRI_MAX in *. bool_cases. }
  split; [|done]. split; [done..| | | |].
  - apply (queues_ok_ext (yielded th k)); [done..|]. by apply yielded_ok.
  - intros q. unfold yielded. destruct (Z.eqb_spec (current k) (idle_thread k)); [done|]. simpl. unfold fupd.
    destruct (decide (q = _)) as [->|]; [done|by rewrite app_nil_r].
  - intros t. apply same_threads_prio. by apply yielded_same.
  - unfold yielded. by destruct (_ =? _).
Qed.

(** C37 [thread_yield] under the priority scheduler always returns.  The caller
    joins the end of the ready list; the thread that runs next is the first of
    the most urgent threads of that list (so threads of equal priority take
    turns), it leaves the list, and its time slice starts anew.  No other list
    changes and the interrupt level is restored. *)
Theorem thread_yield_round_robin mlfqs sema prog m :
  reachable mlfqs sema prog m → current (kern m) ≠ idle_thread (kern m) → thread_mlfqs (kern m) = false →
  let k := kern m in let R := queues k ReadyList ++ [current k] in
  runs thread_yield k (λ _ k',
    is_first_max (less_priority k) R (current k') ∧
    queues k' ReadyList = filter (λ t, t ≠ current k') R ∧
    (∀ q, q ≠ ReadyList → queues k' q = queues k q) ∧
    thread_ticks k' = 0 ∧ intr_on k' = intr_on k).
Proof.
  intros Hr Hid Hm k R. pose proof (i_kernel _ (reachable_inv _ _ _ _ Hr)) as Hko. fold k in Hko, Hid, Hm.
  destruct (yielding_state k) as (k1 & th & [Ht Hs E1 Hk1 Hq1 Hp Hm1] & Hq); [done..|by rewrite Hm|].
  assert (run_queue k th = ReadyList) as Hrq by (unfold run_queue; by rewrite Hm).
  rewrite Hrq in Hq1. assert (queues k1 ReadyList = R) as HR by (rewrite Hq1; by destruct (decide (_ = _))).
  destruct (list_cons_snoc (queues k ReadyList) (current k)) as (t & ts & E). fold R in E.
  set (n := argmax (less_priority k1) t ts).
  assert (is_first_max (less_priority k) R n) as Hn.
  { rewrite E. destruct (argmax_is_first (less_priority k1) t ts) as (A & B & E' & HA & HB).
    exists A, B. split; [exact E'|]. unfold less_priority in *. split; intros a Ha; rewrite <-!Hp; auto. }
  destruct (linked_in k1 ReadyList n) as (thn & Hthn & Hen); [done| |].
  { rewrite HR. destruct Hn as (A & B & -> & _). set_solver. }
  eapply (runs_yield_to k th n ReadyList thn); rewrite <-?E1; [done..| |].
  - intros Q HQ. eapply (runs_next_priority k1 t ts thn); [congruence|by subst k1|congruence|done..].
  - simpl. unfold fupd. split_and!; [done| | |done|done].
    + destruct (decide (ReadyList = ReadyList)); [|done]. by rewrite HR.
    + intros q ?. specialize (Hq1 q). destruct (decide (q = ReadyList)); [done|]. by rewrite Hq1, app_nil_r.
Qed.

(** [thread_yield] under the feedback-queue scheduler, the caller's priority
    being in range, always returns.  The caller joins the end of the list of its
    priority; the thread that runs next is the oldest of the highest list that
    is not empty, which loses just this thread. *)
Theorem thread_yield_feedback mlfqs sema prog m :
  reachable mlfqs sema prog m → current (kern m) ≠ idle_thread (kern m) → thread_mlfqs (kern m) = true →
  PRI_MIN ≤ prio (kern m) (current (kern m)) ≤ PRI_MAX →
  let k := kern m in
  let R i := queues k (MlfqsList i) ++ (if decide (i = prio k (current k)) then [current k] else []) in
  runs thread_yield k (λ _ k',
    ∃ i, PRI_MIN ≤ i ≤ PRI_MAX ∧ R i = current k' :: queues k' (MlfqsList i) ∧
      (∀ j, i < j ≤ PRI_MAX → R j = []) ∧ (∀ j, j ≠ i → queues k' (MlfqsList j) = R j) ∧
      thread_ticks k' = 0 ∧ intr_on k' = intr_on k).
Proof.
  intros Hr Hid Hm Hpr k R. pose proof (i_kernel _ (reachable_inv _ _ _ _ Hr)) as Hko. fold k in Hko, Hid, Hm, Hpr.
  destruct (yielding_state k) as (k1 & th & [Ht Hs E1 Hk1 Hq1 Hp Hm1] & Hq); [done..|].
  assert (∀ i, queues k1 (MlfqsList i) = R i) as HR.
  { intros i. rewrite Hq1. unfold R, run_queue. rewrite Hm, (prio_at _ _ _ Ht).
    destruct (decide (i = priority th)) as [->|]; destruct (decide (_ = _)); congruence. }
  pose proof (first_nonempty_spec 64 k1) as Hf. unfold PRI_MIN, PRI_MAX in *.
  destruct (first_nonempty 64 k1) as [i|] eqn:Ei.
  2: { specialize (Hf (prio k (current k)) ltac:(lia)). rewrite HR in Hf. unfold R in Hf.
       destruct (decide (_ = _)); [|done]. by destruct (queues k _). }
  destruct Hf as (Hi & Hne & Hhi). destruct (queues k1 (MlfqsList i)) as [|n ts] eqn:En; [done|].
  destruct (linked_in k1 (MlfqsList i) n) as (thn & Hthn & Hen); [done|rewrite En; set_solver|].
  eapply (runs_yield_to k th n (MlfqsList i) thn); rewrite <-?E1; [done..| |].
  - intros Q HQ. eapply (runs_next_mlfqs k1 i n ts thn); [congruence|by subst k1|done..].
  - exists i. simpl. unfold fupd. pose proof (qo_nodup _ Hk1 (MlfqsList i)) as Hnd. rewrite En in Hnd.
    apply list.NoDup_cons in Hnd as [Hnin _]. split_and!; [lia..| | | |done|done].
    + destruct (decide (_ = _)); [|done]. rewrite <-HR, En, filter_cons_False by naive_solver.
      by rewrite filter_ne_id.
    + intros j Hj. rewrite <-HR. apply Hhi. lia.
    + intros j Hj. destruct (decide (_ = _)); [congruence|]. apply HR.
Qed.

(** In the state of [demo_state] the lock's holder runs with a donated priority. *)
Lemma thread_yield_round_robin_witness :
  runs thread_yield (kern (demo_state 23)) (λ _ k',
    is_first_max (less_priority (kern (demo_state 23))) [main_page] (current k')).
Proof.
  refine (runs_mono _ _ _ _ (thread_yield_round_robin false (λ _, 0) demo_prog (demo_state 23) _ _ _) _).
  - apply demo_reachable. vm_compute. exact I.
  - vm_compute. discriminate.
  - vm_compute. reflexivity.
  - intros [] k' [H _]. exact H.
Defined.
Lemma thread_yield_feedback_witness :
  runs thread_yield (boot_kernel true (λ _, 0)) (λ _ k', intr_on k' = true).
Proof.
  refine (runs_mono _ _ _ _ (thread_yield_feedback true (λ _, 0) [] (boot true (λ _, 0) []) _ _ _ _) _).
  - apply rtc_refl.
  - vm_compute. discriminate.
  - vm_compute. reflexivity.
  - vm_compute. split; discriminate.
  - intros [] k' (i & _ & _ & _ & _ & _ & H). exact H.
Defined.
