(* ===== verification/Donation.v ===== *)
(** * Priority donation

    [reset_donate_priority] raises the holder of a lock to the priority of its
    most urgent waiter, and starts over after every change.  It terminates, and
    the priorities it ends with are exactly those of nested donation: a thread
    runs with the greatest priority among itself and the threads that wait for
    it, directly or through other threads. *)

From S2P Require Import Prelude KList KListSort KListOps FixedPoint Thread Synch SchedInv Machine SyncInv PieceInv MachineInv MachineSpec Scheduling.

(** [w] waits for a lock of the list that [t] holds. *)
Definition waits_for (k : kernel) (w t : Z) : Prop :=
  ∃ l, l ∈ lock_list k ∧ holder k l = t ∧ w ∈ queues k (Waiters (LockSema l)).

(** The state [reset_donate_priority] may be called in: every lock of the list
    is held, so that its value is 0, and priorities are in range. *)
Record donatable (k : kernel) : Prop := {
  dn_waiters : ∀ l w, w ∈ queues k (Waiters (LockSema l)) → is_Some (threads k !! w);
  dn_context : in_external_intr k = false;
  dn_held : ∀ l, l ∈ lock_list k → is_Some (threads k !! holder k l) ∧ sema_value k (LockSema l) = 0;
  dn_range : ∀ t th, threads k !! t = Some th → PRI_MIN ≤ priority th ≤ PRI_MAX;
}.

(** Only priorities have changed, each to that of a thread that waits. *)
Record raised (k k' : kernel) : Prop := {
  ra_state : set_threads (threads k) k' = k;
  ra_thread : ∀ t, option_Forall2 (λ th th', ∃ p, priority th ≤ p ∧ th' = set_priority p th) (threads k !! t) (threads k' !! t);
  ra_cause : ∀ t, ∃ w, rtc (waits_for k) w t ∧ prio k w = prio k' t;
}.

(** Every holder of a lock of the list is at least as urgent as its waiters. *)
Definition settled (k : kernel) (l : Z) : Prop :=
  ∀ w, w ∈ queues k (Waiters (LockSema l)) → prio k w ≤ prio k (holder k l).

Lemma raised_fields k k' : raised k k' → queues k' = queues k ∧ lock_list k' = lock_list k ∧
  holder k' = holder k ∧ sema_value k' = sema_value k ∧ in_external_intr k' = in_external_intr k ∧
  intr_on k' = intr_on k ∧ idle_thread k' = idle_thread k ∧ thread_mlfqs k' = thread_mlfqs k.
Proof. intros [H _ _]. by rewrite <-H. Qed.
Lemma raised_waits k k' : raised k k' → waits_for k' = waits_for k.
Proof. intros (Hq & Hl & Hh & _)%raised_fields. unfold waits_for. by rewrite Hq, Hl, Hh. Qed.
Lemma raised_thread k k' t th : raised k k' → threads k !! t = Some th →
  ∃ p, priority th ≤ p ∧ threads k' !! t = Some (set_priority p th).
Proof.
  intros [_ H _] Ht. specialize (H t). rewrite Ht in H. inversion H as [? th' (p & ? & ->)|]; subst. eauto.
Qed.
Lemma raised_prio k k' t : raised k k' → prio k t ≤ prio k' t.
Proof.
  intros [_ H _]. unfold prio. specialize (H t). destruct H as [? ? (p & ? & ->)|]; simpl; lia.
Qed.

#[export] Instance raised_pre : PreOrder raised.
Proof.
  split.
  - intros k. split; [by destruct k| |].
    + intros t. destruct (threads k !! t) as [th|]; constructor. exists (priority th). split; [lia|by destruct th].
    + intros t. exists t. split; [apply rtc_refl|done].
  - intros k1 k2 k3 H1 H2. split.
    + rewrite <-(ra_state _ _ H1) at 2. rewrite <-(ra_state _ _ H2). by destruct k3.
    + intros t. pose proof (ra_thread _ _ H1 t) as A. pose proof (ra_thread _ _ H2 t) as B.
      destruct A as [a b (p & ? & ->)|]; inversion B as [? ? (p' & ? & ->)|]; subst; constructor.
      exists p'. simpl in *. split; [lia|done].
    + intros t. destruct (ra_cause _ _ H2 t) as (w & Hw & Ep). rewrite (raised_waits _ _ H1) in Hw.
      destruct (ra_cause _ _ H1 w) as (w' & Hw' & Ep'). exists w'. split; [by etransitivity|congruence].
Qed.

(** ** Termination *)

(** How much priorities can still rise. *)
Definition room (ts : gmap Z thread) : nat := map_fold (λ _ th n, Z.to_nat (PRI_MAX - priority th) + n)%nat 0%nat ts.

Lemma room_delete ts t th : ts !! t = Some th → room ts = (Z.to_nat (PRI_MAX - priority th) + room (delete t ts))%nat.
Proof. intros Ht. exact (map_fold_delete_L (λ _ th n, Z.to_nat (PRI_MAX - priority th) + n)%nat 0%nat t th ts ltac:(intros; simpl; lia) Ht). Qed.
Lemma room_raise ts t th p : ts !! t = Some th → priority th < p ≤ PRI_MAX →
  (room (<[t := set_priority p th]> ts) < room ts)%nat.
Proof.
  intros Ht Hp. rewrite (room_delete ts t th Ht), <-insert_delete_eq.
  rewrite (room_delete (<[t := set_priority p th]> (delete t ts)) t (set_priority p th)) by apply lookup_insert_eq.
  rewrite delete_insert_id by apply lookup_delete_eq. simpl. lia.
Qed.
Lemma room_bound ts : (∀ t th, ts !! t = Some th → PRI_MIN ≤ priority th) → (room ts ≤ 64 * size ts)%nat.
Proof.
  unfold PRI_MIN. induction ts as [|t th ts Hn IH] using map_ind; intros Hr.
  - unfold room. rewrite map_fold_empty. lia.
  - rewrite (room_delete _ t th) by apply lookup_insert_eq. rewrite delete_insert_id by done.
    rewrite map_size_insert_None by done. unfold PRI_MAX in *.
    pose proof (Hr t th (lookup_insert_eq _ _ _)) as H0.
    assert (room ts ≤ 64 * size ts)%nat; [|lia]. apply IH. intros t' th' Ht'. apply (Hr t'). rewrite lookup_insert_ne; congruence.
Qed.

Lemma room_mono ts ts' : (∀ t, option_Forall2 (λ th th', priority th ≤ priority th') (ts !! t) (ts' !! t)) →
  (room ts' ≤ room ts)%nat.
Proof.
  revert ts'. induction ts as [|t th ts Hn IH] using map_ind; intros ts' H.
  - replace ts' with (∅ : gmap Z thread); [done|]. apply map_eq. intros t. specialize (H t).
    rewrite lookup_empty in *. by inversion H.
  - pose proof (H t) as Ht. rewrite lookup_insert_eq in Ht. inversion Ht as [? th' ? E Eth'|]; subst.
    symmetry in Eth'. rewrite (room_delete ts' t th' Eth'), (room_delete (<[t:=th]> ts) t th) by apply lookup_insert_eq.
    rewrite delete_insert_id by done. assert (room (delete t ts') ≤ room ts)%nat; [|lia]. apply IH. intros x. specialize (H x).
    destruct (decide (x = t)) as [->|]; [rewrite Hn, lookup_delete_eq; constructor|].
    by rewrite lookup_insert_ne, lookup_delete_ne in * by done.
Qed.

(** ** One round *)

Section round.
Context (k : kernel) (Hd : donatable k).

Lemma waiter_thread l w : w ∈ queues k (Waiters (LockSema l)) → ∃ th, threads k !! w = Some th.
Proof using Hd. apply (dn_waiters _ Hd). Qed.

(** What the code reads at the head of a wait list. *)
Lemma runs_waiters_priority l (Q : Z → kernel → Prop) : l ∈ lock_list k →
  (∀ p, PRI_MIN ≤ p ≤ PRI_MAX → (∀ w, w ∈ queues k (Waiters (LockSema l)) → prio k w ≤ p) →
     p = PRI_MIN ∨ (∃ w, w ∈ queues k (Waiters (LockSema l)) ∧ p = prio k w) → Q p k) →
  runs (waiters_priority (LockSema l)) k Q.
Proof using Hd.
  intros Hl HQ. unfold waiters_priority, max_elem. run. destruct (queues k (Waiters (LockSema l))) as [|t ts] eqn:E.
  - run. destruct (dn_held _ Hd l Hl) as [_ ->]. apply HQ; [done|by intros ? ?%not_elem_of_nil|by left].
  - run. destruct (max_elem_spec k t ts) as [Hin Hmax]. set (n := argmax _ _ _) in *. rewrite <-E in Hin, Hmax.
    destruct (waiter_thread l n Hin) as [th Ht]. eapply runs_thread_at; [done|]. run.
    pose proof (prio_at _ _ _ Ht) as Ep. apply HQ.
    + by eapply dn_range.
    + rewrite <-E. intros w Hw. rewrite <-Ep. by apply Hmax.
    + right. exists n. rewrite <-E. by rewrite Ep.
Qed.

Lemma raised_put l th w : l ∈ lock_list k → threads k !! holder k l = Some th →
  w ∈ queues k (Waiters (LockSema l)) → priority th < prio k w →
  let k' := put_thread (holder k l) (set_priority (prio k w) th) k in raised k k'.
Proof using Type.
  clear Hd. intros Hl Ht Hw Hp k'. split; [by destruct k| |].
  - intros t. simpl. destruct (decide (t = holder k l)) as [->|].
    + rewrite lookup_insert_eq, Ht. constructor. exists (prio k w). split; [lia|done].
    + rewrite lookup_insert_ne by done. destruct (threads k !! t) as [tht|]; constructor.
      exists (priority tht). split; [lia|by destruct tht].
  - intros t. unfold prio at 2. simpl. destruct (decide (t = holder k l)) as [->|].
    + rewrite lookup_insert_eq. exists w. split; [|done]. apply rtc_once. by exists l.
    + rewrite lookup_insert_ne by done. exists t. split; [apply rtc_refl|done].
Qed.
End round.

Lemma raised_donatable k k' : donatable k → raised k k' → donatable k'.
Proof.
  intros Hd Hr. destruct (raised_fields _ _ Hr) as (Hq & Hl & Hh & Hs & Hx & Hi & Hid & Hm). split.
  - intros l w. rewrite Hq. intros [th Ht]%(dn_waiters _ Hd). destruct (raised_thread _ _ _ _ Hr Ht) as (p & _ & ->). eauto.
  - rewrite Hx. apply Hd.
  - intros l. rewrite Hl, Hh, Hs. intros Hin. destruct (dn_held _ Hd l Hin) as [[th Ht] ?].
    destruct (raised_thread _ _ _ _ Hr Ht) as (p & _ & ->). eauto.
  - intros t th Ht. destruct (ra_cause _ _ Hr t) as (w & _ & Ep). rewrite (prio_at _ _ _ Ht) in Ep. rewrite <-Ep.
    unfold prio. destruct (threads k !! w) eqn:E; [by eapply dn_range|unfold PRI_MIN, PRI_MAX; lia].
Qed.

(** ** The loops *)

Lemma donate_loop_spec n again ls k :
  donatable k → (∀ l, l ∈ ls → l ∈ lock_list k) → (room (threads k) ≤ n)%nat →
  (∀ k', donatable k' → intr_on k' = intr_on k → (room (threads k') < n)%nat →
     runs again k' (λ _ k'', raised k' k'' ∧ ∀ l, l ∈ lock_list k' → settled k'' l)) →
  runs (donate_loop again ls) k (λ _ k', raised k k' ∧
    (k' = k ∧ (∀ l, l ∈ ls → settled k l) ∨ ∀ l, l ∈ lock_list k → settled k' l)).
Proof.
  revert k. induction ls as [|l ls IH]; intros k Hd Hls Hn Hagain; cbn [donate_loop]; run.
  { split; [done|]. left. split; [done|]. by intros l ?%not_elem_of_nil. }
  apply (runs_waiters_priority k Hd l); [apply Hls; set_solver|]. intros p Hp Hmax Hw. run.
  destruct (dn_held _ Hd l) as [[th Ht] _]; [apply Hls; set_solver|]. eapply runs_thread_at; [done|]. run.
  destruct (Z.ltb_spec (priority th) p) as [Hlt|Hge].
  - destruct Hw as [->|(w & Hw & ->)]; [pose proof (dn_range _ Hd _ _ Ht); lia|]. run. eapply runs_modify_thread; [done|].
    assert (raised k (put_thread (holder k l) (set_priority (prio k w) th) k)) as Hr1.
    { apply raised_put; [apply Hls; set_solver|done..]. }
    set (k1 := put_thread _ _ _) in *. pose proof (raised_donatable _ _ Hd Hr1) as Hd1.
    assert (room (threads k1) < room (threads k))%nat as Hroom by (apply room_raise; [done|lia]).
    eapply runs_mono; [apply Hagain; [done|done|lia]|]. intros [] k2 [Hr2 Hset].
    destruct (raised_fields _ _ Hr2) as (_ & Hl2 & _ & _ & _ & Hi2 & _).
    assert (room (threads k2) ≤ room (threads k1))%nat as Hroom2.
    { apply room_mono. intros t. destruct (ra_thread _ _ Hr2 t) as [? ? (? & ? & ->)|]; by constructor. }
    eapply runs_mono; [apply IH|].
    + by eapply raised_donatable.
    + intros l' Hl'. rewrite Hl2. apply Hls. set_solver.
    + lia.
    + intros k' ? Hi' ?. apply Hagain; [done| |done]. by rewrite Hi', Hi2.
    + intros [] k3 [Hr3 H3]. split; [by do 2 (etransitivity; [done|])|]. right. intros l' Hl'.
      destruct H3 as [[-> _]|H3]; [by apply Hset|]. apply H3. by rewrite Hl2.
  - run. eapply runs_mono; [apply IH; [done| |done..]|].
    + intros l' Hl'. apply Hls. set_solver.
    + intros [] k1 [Hr1 H1]. split; [done|]. destruct H1 as [[-> H1]|H1]; [left|by right].
      split; [done|]. intros l' [->|Hl']%elem_of_cons; [|by apply H1]. intros w Hwl. rewrite (prio_at _ _ _ Ht).
      specialize (Hmax w Hwl). lia.
Qed.

Lemma reset_donate_spec n k : donatable k → (room (threads k) < n)%nat →
  runs (reset_donate_priority n) k (λ _ k', raised k k' ∧ ∀ l, l ∈ lock_list k → settled k' l).
Proof.
  revert k. induction n as [|n IH]; intros k Hd Hn; [lia|]. cbn [reset_donate_priority].
  unfold intr_disable, intr_get_level. run. simpl.
  set (k0 := set_intr_on false k). assert (donatable k0) as Hd0 by (destruct Hd; by split).
  eapply runs_mono; [eapply (donate_loop_spec n); [done|done|simpl; lia|]|].
  - intros k' Hd' _ Hn'. by apply IH.
  - intros [] k1 [Hr H1]. destruct (raised_fields _ _ Hr) as (_ & _ & _ & _ & Hx & Hi & _).
    assert (raised k (set_intr_on (intr_on k) k1)) as Hr'.
    { destruct Hr as [E1 E2 E3]. split; [|done|done]. 
      change (set_intr_on (intr_on k) (set_threads (threads k0) k1) = k). rewrite E1. by destruct k. }
    assert (∀ l, l ∈ lock_list k → settled k1 l) as Hset by (destruct H1 as [[-> H1]|H1]; done).
    destruct (intr_on k); unfold intr_set_level, intr_enable, intr_disable, intr_context, intr_get_level; run.
    + apply runs_assert; [|by run]. rewrite Hx. simpl. by rewrite (dn_context _ Hd).
    + done.
Qed.

(** C9 Priority donation: when every lock in the list of locks is held and
    priorities are in range, [reset_donate_priority] returns within
    [donation_bound] rounds, changes nothing but priorities, and leaves every
    thread with exactly the greatest priority among its own and those of the
    threads that wait for it, directly or through a chain of locks and
    holders.  (The condition is needed: a lock that is being released while threads wait
    for it is in the list and has no holder, and the function then follows a null pointer,
    [reset_follows_null_holder] of MachineSpec.v.) *)
Theorem donation_is_transitive k :
  donatable k →
  runs (reset_donate_priority (donation_bound k)) k (λ _ k',
    set_threads (threads k) k' = k ∧
    (∀ t th, threads k !! t = Some th → threads k' !! t = Some (set_priority (prio k' t) th)) ∧
    ∀ t, (∃ w, rtc (waits_for k) w t ∧ prio k' t = prio k w) ∧
         (∀ w, rtc (waits_for k) w t → prio k w ≤ prio k' t)).
Proof.
  intros Hd. eapply runs_mono; [apply reset_donate_spec; [done|]|].
  { unfold donation_bound. pose proof (room_bound (threads k)) as H.
    assert (room (threads k) ≤ 64 * size (threads k))%nat; [|lia]. apply H. intros t th Ht. by apply (dn_range _ Hd t). }
  intros [] k' [Hr Hset]. split_and!.
  - apply Hr.
  - intros t th Ht. destruct (raised_thread _ _ _ _ Hr Ht) as (p & _ & Ht'). by rewrite (prio_at _ _ _ Ht'), Ht'.
  - intros t. split; [destruct (ra_cause _ _ Hr t) as (w & ? & ?); by exists w|].
    intros w Hw. apply Z.le_trans with (prio k' w); [by apply raised_prio|].
    induction Hw as [|w u t (l & Hl & Hh & Hin) _ IH]; [done|].
    destruct (raised_fields _ _ Hr) as (Hq & _ & Hh' & _). specialize (Hset l Hl w). rewrite Hq, Hh' in Hset.
    specialize (Hset Hin). subst u. lia.
Qed.

(** Three threads: 20480 (priority 50) waits for a lock of 24576 (priority 40),
    which waits for a lock of the main thread. *)
Definition chain_kernel : kernel :=
  set_lock_list [6; 5] (set_holder (λ l, if l =? 5 then main_page else if l =? 6 then 24576 else NULL)
    (set_sema_value (λ _, 0)
    (set_queues (λ q, if decide (q = Waiters (LockSema 5)) then [24576] else
                      if decide (q = Waiters (LockSema 6)) then [20480] else [])
    (set_threads (<[main_page := main_thread]>
      (<[24576 := Thread 3 THREAD_BLOCKED [] 28672 40 (Some (Waiters (LockSema 5))) 40 [6] 0 0 0]>
      {[20480 := Thread 4 THREAD_BLOCKED [] 24576 50 (Some (Waiters (LockSema 6))) 50 [] 0 0 0]}))
    (boot_kernel false (λ _, 0)))))).

Lemma donation_is_transitive_witness :
  runs (reset_donate_priority (donation_bound chain_kernel)) chain_kernel (λ _ k', 50 ≤ prio k' main_page) ∧
  prio chain_kernel main_page = 31.
Proof.
  split; [|reflexivity].
  refine (runs_mono _ _ _ _ (donation_is_transitive chain_kernel _) _).
  - split; [|reflexivity| |].
    + intros l w. cbn. repeat (case_match; try (intros ->%list_elem_of_singleton); try (intros []%not_elem_of_nil)); by eexists.
    + cbn. intros l [->|[->|[]%not_elem_of_nil]%elem_of_cons]%elem_of_cons; (split; [by eexists|reflexivity]).
    + cbn. intros t th. rewrite !lookup_insert_Some, lookup_singleton_Some. unfold PRI_MIN, PRI_MAX.
      intros [[_ <-]|[_ [[_ <-]|[_ [_ <-]]]]]; cbn; unfold PRI_DEFAULT; lia.
  - intros [] k' (_ & _ & H). apply (proj2 (H main_page) 20480).
    apply rtc_l with 24576; [exists 6|apply rtc_once; exists 5]; cbn; (split; [set_solver|split; [reflexivity|set_solver]]).
Defined.
