(* ===== verification/Mlfqs.v ===== *)
(** * The feedback-queue scheduler and the end of donation

    The load average stays within the number of threads and never overflows,
    recalculated priorities are in range and move the thread to the right
    queue, and releasing a lock gives back the priority that was lent. *)

From S2P Require Import Prelude KList KListSort KListOps FixedPoint Thread Synch SchedInv Machine SyncInv PieceInv MachineInv MachineSpec Scheduling.

(** ** Load average *)

Lemma next_load_avg_bound n load active : 0 ≤ n < 2 ^ 17 → 0 ≤ load ≤ n * FRAC → 0 ≤ active ≤ n →
  next_load_avg load active = (16110 * load) `quot` FRAC + 273 * active ∧ 0 ≤ next_load_avg load active ≤ n * FRAC.
Proof.
  unfold next_load_avg, FMUL_F, FDIV_I, TO_FP, s32. rewrite FRAC_eq.
  change ((59 * 16384) `quot` 60) with 16110. change ((1 * 16384) `quot` 60) with 273. intros Hn Hl Ha.
  assert (0 ≤ (16110 * load) `quot` 16384 ≤ 16110 * n) by (Z.to_euclidean_division_equations; lia).
  rewrite Z.mod_small by lia. lia.
Qed.

(** The load average of a system of at most [n] threads: however many of them
    are ready at each update, starting from 0 it stays between 0 and [n] and no
    update overflows the 32 bits of [load_avg]. *)
Theorem load_avg_bounded n (actives : list Z) :
  0 ≤ n < 2 ^ 17 → Forall (λ a, 0 ≤ a ≤ n) actives →
  let load := foldl next_load_avg 0 actives in
  0 ≤ load ≤ TO_FP n ∧
  ∀ a, 0 ≤ a ≤ n → next_load_avg load a = FMUL_F (FDIV_I (TO_FP 59) 60) load + FDIV_I (TO_FP 1) 60 * a.
Proof.
  intros Hn Hf load. assert (0 ≤ load ≤ n * FRAC) as Hl.
  { unfold load. assert (∀ l0, 0 ≤ l0 ≤ n * FRAC → 0 ≤ foldl next_load_avg l0 actives ≤ n * FRAC) as H; [|apply H; rewrite FRAC_eq; lia].
    induction Hf as [|a actives Ha _ IH]; intros l0 Hl0; [done|]. simpl. apply IH. by apply next_load_avg_bound. }
  split; [exact Hl|]. intros a Ha. by destruct (next_load_avg_bound n load a) as [-> _].
Qed.

Lemma load_avg_bounded_witness :
  let load := foldl next_load_avg 0 [3; 2; 3] in load = 2147 ∧ 0 ≤ load ≤ TO_FP 3.
Proof.
  split; [vm_compute; reflexivity|].
  apply (load_avg_bounded 3 [3; 2; 3]); [lia|repeat constructor; lia].
Defined.

(** ** Priorities *)

(** [thread_refresh_priority] under the feedback-queue scheduler always
    returns: the thread's new priority is [PRI_MAX - nice * 2 - recent_cpu / 4]
    cut off at [PRI_MIN] and [PRI_MAX], when that number fits in an [int]; a
    ready thread whose priority changed moves to the end of the list of its new
    priority, and no other thread changes. *)
Theorem refresh_priority_correct k t th :
  queues_ok k → in_external_intr k = false ∨ intr_on k = false →
  thread_mlfqs k = true → threads k !! t = Some th → t ≠ idle_thread k →
  -20 ≤ nice th ≤ 20 → Z.abs (recent_cpu th) < 2 ^ 44 →
  let p := Z.max PRI_MIN (Z.min PRI_MAX (PRI_MAX - nice th * 2 - (recent_cpu th `quot` 4) `quot` FRAC)) in
  runs (thread_refresh_priority t) k (λ _ k',
    prio k' t = p ∧ (∀ t', t' ≠ t → threads k' !! t' = threads k !! t') ∧
    (∀ q, queues k' q =
       if decide (status th = THREAD_READY ∧ p ≠ priority th) then
         filter (λ x, x ≠ t) (queues k q) ++ (if decide (q = MlfqsList p) then [t] else [])
       else queues k q) ∧
    intr_on k' = intr_on k).
Proof.
  intros Hk Hx Hm Ht Hid Hn Hr p. unfold thread_refresh_priority.
  assert (next_priority (recent_cpu th) (nice th) = p) as Ep.
  { unfold next_priority, TO_INT. rewrite s32_small; [|rewrite FRAC_eq; unfold PRI_MAX; Z.to_euclidean_division_equations; lia].
    unfold p, PRI_MIN, PRI_MAX. bool_cases. }
  run. eapply runs_is_thread; [done|]. run. apply runs_assert; [done|]. run. eapply runs_thread_at; [done|]. rewrite Ep. run.
  eapply runs_modify_thread; [done|].
  destruct (decide (status th = THREAD_READY ∧ p ≠ priority th)) as [[Hs Hp]|Hno].
  - rewrite bool_decide_true by done. destruct (Z.eqb_spec p (priority th)); [done|]. simpl.
    destruct (qo_placed _ Hk _ _ Ht) as (Hpl & _ & _). rewrite Hs in Hpl. destruct Hpl as [He|]; [|done].
    unfold run_queue in He. rewrite Hm in He.
    unfold intr_disable, intr_get_level. run. simpl.
    eapply runs_remove_elem; [simpl; apply lookup_insert_eq|exact He|].
    run. eapply runs_push_elem; [simpl; apply lookup_insert_eq|done| |].
    { unfold queue_ok. pose proof (next_priority_range (recent_cpu th) (nice th)) as Hpr. rewrite Ep in Hpr.
      apply andb_true_intro. split; apply Z.leb_le; lia. }
    set (k2 := put_queue _ _ _).
    assert (prio k2 t = p ∧ (∀ t', t' ≠ t → threads k2 !! t' = threads k !! t') ∧
      ∀ q, queues k2 q = filter (λ x, x ≠ t) (queues k q) ++ (if decide (q = MlfqsList p) then [t] else []))
      as (H1 & H2 & H3).
    { split_and!.
      - unfold prio. simpl. by rewrite lookup_insert_eq.
      - intros t' ?. simpl. by rewrite !lookup_insert_ne.
      - intros q. simpl. unfold fupd.
        assert (∀ q', q' ≠ MlfqsList (priority th) → filter (λ x, x ≠ t) (queues k q') = queues k q') as Hf.
        { intros q' Hq'. apply filter_ne_id. intros Hin%(qo_links _ Hk). unfold links in Hin. rewrite Ht in Hin.
          simpl in Hin. congruence. }
        repeat match goal with |- context [decide ?P] => destruct (decide P) end; simplify_eq;
          rewrite ?app_nil_r, ?Hf by congruence; done. }
    assert (in_external_intr k2 = in_external_intr k) as Hx2 by done. clearbody k2.
    destruct (intr_on k) eqn:Ei; unfold intr_set_level, intr_enable, intr_disable, intr_get_level, intr_context; run.
    + apply runs_assert; [|by run]. destruct Hx as [Hx|?]; [|done]. by rewrite Hx2, Hx.
    + done.
  - assert (bool_decide (status th = THREAD_READY) && negb (p =? priority th) = false) as ->.
    { destruct (decide (status th = THREAD_READY)); [rewrite bool_decide_true by done|by rewrite bool_decide_false by done].
      destruct (Z.eqb_spec p (priority th)); [done|]. by destruct Hno. }
    run. split_and!; [unfold prio; simpl; by rewrite lookup_insert_eq| |done|done].
    intros t' ?. simpl. by rewrite lookup_insert_ne.
Qed.

Lemma refresh_priority_correct_witness :
  runs (thread_refresh_priority main_page) (boot_kernel true (λ _, 0)) (λ _ k', prio k' main_page = 63).
Proof.
  refine (runs_mono _ _ _ _ (refresh_priority_correct (boot_kernel true (λ _, 0)) main_page main_thread
    (proj1 (proj1 (boot_kernel_ok true (λ _, 0)))) _ _ _ _ _ _) _).
  - left. reflexivity.
  - reflexivity.
  - reflexivity.
  - discriminate.
  - cbn. lia.
  - cbn. lia.
  - intros [] k' [H _]. exact H.
Defined.

(** ** The end of a donation *)

(** The priorities of the threads that wait for the locks [ls]. *)
Definition lent (k : kernel) (ls : list Z) : list Z :=
  ls ≫= λ l, prio k <$> queues k (Waiters (LockSema l)).

Lemma max_donation_spec k ls acc : 0 ≤ acc →
  (∀ l, l ∈ ls → sema_value k (LockSema l) = 0 ∧
     ∀ w, w ∈ queues k (Waiters (LockSema l)) → is_Some (threads k !! w)) →
  runs (max_donation ls acc) k (λ p k', k' = k ∧ acc ≤ p ∧ (p = acc ∨ p ∈ lent k ls) ∧ ∀ q, q ∈ lent k ls → q ≤ p).
Proof.
  revert acc. induction ls as [|l ls IH]; intros acc Hacc Hls; cbn [max_donation]; run.
  { split_and!; [done|lia|by left|by intros q ?%not_elem_of_nil]. }
  destruct (Hls l) as [Hv Hw]; [set_solver|].
  assert (∀ l', l' ∈ ls → sema_value k (LockSema l') = 0 ∧
     ∀ w, w ∈ queues k (Waiters (LockSema l')) → is_Some (threads k !! w)) as Hls' by (intros; apply Hls; set_solver).
  change (lent k (l :: ls)) with ((prio k <$> queues k (Waiters (LockSema l))) ++ lent k ls).
  unfold waiters_priority, max_elem. run. destruct (queues k (Waiters (LockSema l))) as [|t ts] eqn:E; run.
  - rewrite Hv. replace (if acc <? 0 then 0 else acc) with acc by (bool_cases; done). by apply IH.
  - destruct (max_elem_spec k t ts) as [Hin Hmax]. set (n := argmax _ _ _) in *.
    destruct (Hw n Hin) as [th Ht]. eapply runs_thread_at; [done|]. run. rewrite <-(prio_at _ _ _ Ht).
    set (acc' := if acc <? prio k n then prio k n else acc).
    assert (acc ≤ acc' ∧ prio k n ≤ acc' ∧ (acc' = acc ∨ acc' = prio k n)) as (? & ? & Hacc').
    { unfold acc'. destruct (Z.ltb_spec acc (prio k n)); split_and?; auto; lia. }
    eapply runs_mono; [apply (IH acc'); [lia|done]|]. intros p k' (-> & Hle & Hp & Hq). split_and!; [done|lia| |].
    + destruct Hp as [->|Hp]; [|right; set_solver]. destruct Hacc' as [->| ->]; [by left|right].
      apply elem_of_app. left. by apply list_elem_of_fmap_2.
    + intros q [(w & -> & Hwin)%list_elem_of_fmap|Hin']%elem_of_app; [specialize (Hmax w Hwin); lia|by apply Hq].
Qed.

(** When a lock is released under the priority scheduler, the thread is left
    with its own priority or the greatest priority of the threads that wait for
    the locks it still holds, whichever is greater; nothing else changes. *)
Theorem release_returns_donation k th :
  thread_mlfqs k = false → threads k !! current k = Some th → status th = THREAD_RUNNING → PRI_MIN ≤ priority_old th →
  (∀ l, l ∈ all_locks th → sema_value k (LockSema l) = 0 ∧
     ∀ w, w ∈ queues k (Waiters (LockSema l)) → is_Some (threads k !! w)) →
  runs lock_release_priority k (λ _ k', ∃ p,
    k' = set_threads (<[current k := set_priority p th]> (threads k)) k ∧
    priority_old th ≤ p ∧ (∀ q, q ∈ lent k (all_locks th) → q ≤ p) ∧
    (p = priority_old th ∨ p ∈ lent k (all_locks th))).
Proof.
  unfold PRI_MIN. intros Hm Ht Hs Hp Hl. unfold lock_release_priority. run. rewrite Hm. simpl. run.
  eapply runs_thread_current; [done..|]. run. eapply runs_thread_at; [done|]. run.
  eapply runs_mono; [by apply (max_donation_spec k (all_locks th) 0)|]. intros p k' (-> & Hge & Hin & Hmax).
  destruct (Z.ltb_spec (priority_old th) p) as [Hlt|Hge'].
  - eapply runs_modify_thread; [done|]. exists p. split_and!; [done|lia|done|].
    right. destruct Hin as [->|Hin]; [lia|done].
  - eapply runs_modify_thread; [done|]. exists (priority_old th). split_and!; [done|lia| |by left].
    intros q Hq. specialize (Hmax q Hq). lia.
Qed.

Lemma release_returns_donation_witness :
  runs lock_release_priority (kern (demo_state 23)) (λ _ k', ∃ p,
    k' = set_threads (<[main_page := set_priority p (default main_thread (threads (kern (demo_state 23)) !! main_page))]>
           (threads (kern (demo_state 23)))) (kern (demo_state 23)) ∧ PRI_DEFAULT ≤ p).
Proof.
  refine (runs_mono _ _ _ _ (release_returns_donation (kern (demo_state 23))
    (default main_thread (threads (kern (demo_state 23)) !! main_page)) _ _ _ _ _) _).
  - vm_compute. reflexivity.
  - vm_compute. reflexivity.
  - vm_compute. reflexivity.
  - vm_compute. discriminate.
  - assert (all_locks (default main_thread (threads (kern (demo_state 23)) !! main_page)) = [5]) as E by (vm_compute; reflexivity).
    rewrite E. intros l ->%list_elem_of_singleton. split; [vm_compute; reflexivity|].
    assert (queues (kern (demo_state 23)) (Waiters (LockSema 5)) = [20480]) as -> by (vm_compute; reflexivity).
    intros w ->%list_elem_of_singleton. vm_compute. by eexists.
  - intros [] k' (p & E & Hp & _). exists p. split; [exact E|exact Hp].
Defined.
